(* ===== verification/_CoqProject ===== *)
-Q . S2P
Prelude.v
JsString.v
Doubles.v
TokenUnits.v
Identifiers.v
DomainValidation.v
PasswordPolicy.v
JsMap.v
StreamEvents.v
RateLimiter.v
Codec.v
Json.v
MsgStore.v
Async.v
Messaging.v
MessagingSafety.v
MessagingLaws.v
Inbound.v
QuicSession.v
Quic.v
PouwToken.v
Pouw.v
Outside.v
Known.v
NativeIdentity.v
Vault.v
Tokens.v
Auth.v
Lobby.v
AuthContext.v
Bootstrap.v
Rewards.v
BrowserAuth.v
Notices.v
Domains.v
Balances.v
Send.v
OracleHook.v
NodeStatus.v
Migration.v
Recover.v
Backup.v
TokenCreator.v
DomainRegister.v
Chat.v
Inbox.v
AuthLink.v
Dates.v
DomainList.v
SignUp.v
SignIn.v
Claim.v
AsyncData.v
WalletHome.v
Lifecycle.v
TokenDetail.v
SeedScreen.v
DeviceGuard.v
RuntimeGuard.v
SecurityLog.v
DaoTab.v
BublRewards.v
MyTokens.v
MsgStub.v
ChainRereg.v
Logging.v
