(* ===== verification/Prelude.v ===== *)
(** * Sovereign Network Mobile: the verification library

    The program is a React Native application (TypeScript, under src/src/) that
    gives its user an identity, a wallet and an end-to-end encrypted messenger
    on the Sovereign Network.  Cryptography, QUIC and the keychain live in native
    modules; what the TypeScript decides is which request leaves the device, for
    which identity, on which session, what is shown and what is stored.  This
    library models those decisions and proves them.

    ** The parts and how they interact

    Screens call services; a service builds a request and hands it to the
    transport (services/quic.ts), which picks the ALPN, injects the identity and
    recovers lost sessions.  The messenger (services/MessagingService.ts) keeps
    one native ratchet session per peer and direction, seals what it sends,
    ingests what arrives by polling or by the push stream, and records both in
    a store (services/MessagingMockData.ts, the real one despite its name) that is saved to a keychain entry per
    account (services/MessagingStorage.ts).

    ** Files

    - Prelude: tactics, hint databases, lemmas on lists and sorting.
    - JsString, JsMap, Json, Codec: the strings, Map/object iteration order,
      JSON and byte codecs of the language, as far as the source uses them.
      Strings are Latin-1; JSON numbers are exact decimals.
    - Doubles: the finite IEEE 754 doubles, their rounded operations and
      [parseFloat], for the code that computes with JavaScript numbers.
    - TokenUnits (utils/tokenUnits.ts), Identifiers (utils/didValidator.ts,
      credentials.ts, maskIdentifier.ts, numbers.ts), DomainValidation
      (utils/domainValidation.ts), PasswordPolicy (utils/passwordValidator.ts),
      RateLimiter (services/RateLimiter.ts): functions of their inputs, the
      limiter also as a machine with a clock.
    - MsgStore (services/MessagingMockData.ts, services/MessagingStorage.ts): the
      store as a record, every operation, hydration and snapshot, and the device
      that loads, saves and switches accounts as a step relation.
    - Async: the asynchronous functions of the source as trees of reads, writes
      and awaited requests; worlds of suspended calls that run in any order; a
      program logic for invariants of all interleavings, and the traces of one
      call; [lift], a call of one component inside the state of a larger one, and
      the execution of a given schedule.
    - Messaging, MessagingSafety, MessagingLaws (services/MessagingService.ts,
      lines 1 to 1530): the native path of the messenger on Async; what holds in
      every interleaving; what each operation does.
    - Inbound (services/MessagingService.ts, lines 1564 to 1937), QuicSession
      (services/QuicSessionManager.ts): the push subscription and the session
      manager as step relations with their awaits explicit.
    - Quic (services/quic.ts): routing, identity, recovery, typed results.
    - PouwToken, Pouw (pouw/): the challenge token (varints, protobuf, Base64url)
      and the controller of useful-work receipts, refined to a ledger.
    - Outside: what the services that keep secrets ask of the outside (keychain,
      AsyncStorage, native modules, node), as requests on Async; the class
      [Storage] of what a storage promises, [Erases] of one that takes deletions,
      and three logics of one call: what it asks ([trace], [emits]), what it does
      alone ([solo]), that it ends ([settled]); and one of all interleavings for
      handlers of a screen ([keeps]).  Known: the same for handlers that rely on
      what the node has answered, facts that only grow.
    - NativeIdentity (services/NativeIdentityProvisioning.ts): the bridge.
    - Vault (services/SecureIdentityStorage.ts, SeedVaultService.ts,
      WalletKeychainService.ts, ChainBindingStorage.ts, LobbySessionStore.ts,
      IdentityCleanup.ts): what the device keeps.
    - Tokens (services/TokenService.ts, AssetService.ts, BondingCurveService.ts):
      amounts, nonces, signed transactions.
    - Auth (services/RealAuthService.ts), Lobby (services/LobbyAuthService.ts,
      NativeLobbyAuth.ts): sign-up, sign-in, recovery and migration; the OPAQUE
      password session.
    - AuthContext (context/AuthContext.tsx, services/KyberKeyService.ts,
      NativeStorage.ts): the provider that composes them with the limiter and
      the session manager, its callbacks as operations on a record.
    - Bootstrap (services/NetworkBootstrap.ts, NetworkDirectoryService.ts): the
      choice of a gateway, refined to its promise.
    - Rewards (services/RewardsService.ts): the client of the rewards node and its
      four triggers, refined to a ledger of claims.
    - BrowserAuth (services/BrowserAuthService.ts): the challenge of a link, what is
      signed and what is posted.
    - Notices (services/AddressBookService.ts, RemoteAnnouncement.ts,
      NotificationsService.ts): small entries that are read, changed and written.
    - Domains (services/DomainService.ts, DaoService.ts, hooks/useTokenRegistry.ts):
      registering a domain and staking, both paid in SOV.
    - Balances (hooks/useWalletList.ts, useWalletBalance.ts,
      useUserTokenBalances.ts, services/AppService.ts): the balances screens show.
    - StreamEvents (services/NativeQuicSession.ts): the events of inbound streams,
      refined to one queue per stream.
    - OracleHook (hooks/useOracleData.ts, services/OracleService.ts), NodeStatus
      (hooks/useNodeConnectionStatus.ts, useNetworkNotices.ts and their services):
      polling hooks as machines over renderings, timers and answers.
    - Send, Migration, Recover, Backup (screens/SendTokensScreen.tsx,
      MigrationSeedScreen.tsx, RecoverIdentityScreen.tsx, BackupIdentityScreen.tsx),
      TokenCreator (TokenCreatorScreen.tsx), DomainRegister
      (DomainRegistrationScreen.tsx), SignUp (CreateIdentityScreen.tsx), SignIn
      (SignInScreen.tsx), SeedScreen (SeedPhraseScreen.tsx), TokenDetail
      (TokenDetailScreen.tsx): screens as the set of their handlers, each a task
      that captured the rendering it belongs to and runs interleaved with the
      others.  Those that sign in or up lift the tasks of AuthContext.
    - Chat (messaging/ChatScreen.tsx), Inbox (messaging/MessagesScreen.tsx,
      messagingShared.tsx, NewChatScreen.tsx, hooks/usePersistedState.ts): what the
      messenger shows of the store, and its handlers.
    - AuthLink (screens/BrowserAuthScreen.tsx, QRScanScreen.tsx, the browser card
      of WalletSettingsScreen.tsx, services/CameraPermission.ts, the links of
      navigation/RootNavigator.tsx): the three ways a sign-in link comes in, and
      the confirmation.
    - Dates: what the source asks of Date.  DomainList (screens/MyDomainsScreen.tsx,
      DomainManagementScreen.tsx, DomainDetailScreen.tsx): the stored list of
      domains, its repair, and the screens over it.
    - Claim (the UsernameClaimModal.tsx organism): the overlay that claims a name.
    - AsyncData (hooks/useAsyncData.ts): the data hook of the screens, as a machine.
    - WalletHome (screens/SIDScreen.tsx): the cards and the activity of the wallet.
    - Lifecycle (the effects of context/AuthContext.tsx on the identity, and its
      registerAccount, which binds the session manager directly): the messenger,
      the session manager and the push stream under the provider that binds them,
      refined to each of them alone.
    - DeviceGuard, RuntimeGuard, SecurityLog (services/DeviceBinding.ts,
      JailbreakDetection.ts, RuntimeProtection.ts, SecurityEventLogger.ts): checks
      of the device and of values, which nothing else of the program calls.
    - DaoTab (screens/sovswap/tabs/CreateDaoTab.tsx), BublRewards
      (screens/messaging/BublRewardsScreen.tsx), MyTokens (screens/MyTokensScreen.tsx):
      three more screens, their forms, lists and loads.
    - MsgStub (services/MessagingService.ts): the messenger of a build without the
      native module, which seals with a reversible stub, and the requests for
      deposits, presence and probes.
    - ChainRereg (hooks/useChainReregistration.ts, services/ChainInfoService.ts): the
      watcher of the chain, with its retries.
    - Logging (utils/logging.ts): what of a logged value reaches the console.

    ** What the theorems show

    Safety of the messenger: only sealed envelopes leave; sessions of the two
    directions are never mixed; receipts are never shown as texts; buffers are
    bounded and drains end; the store carries no message from one account to
    another, as long as what is appended belongs to the account signed in. Safety
    of the transport: requests carry the stored identity exactly when they are
    authenticated, everything off a table of public routes is authenticated,
    recovery is bounded and transparent. Functional behaviour: amounts and prices
    are exact; DIDs, domains and passwords are accepted exactly by their rules;
    round trips of JSON, hex, Base64, receipts and stored state; ordering of
    batches and of the inbox. Identity and secrets: what is stored is read back
    and a lost keystore is survived, at the next read too; clearing the identity
    and a failed registration leave nothing of it; keys are opened only after the
    password, registered before they are stored, and kept by a re-registration;
    the password of a session reaches only the native module; sign-in attempts are
    limited, and only a verified password clears them; a gateway is asked only
    when its DID is expected, and passed over when it names another. The triggers
    of rewards keep a ledger. Transactions: which nonce each operation asks for,
    the exact amount, the signed bytes, once; what the Send screen signs is what
    was reviewed, and within the balance it showed. Every call of the provider
    ends. Hooks: polling survives every order of renderings and answers, consumers
    share one loop, an answer cached for another selection is not shown for this
    one, only the last fetch of a data hook counts. The chain watcher registers
    only on another chain, with at most three retries, and logs do not depend on
    what stands under secret keys. Screens: what a wizard submits is what it
    checked, at every interleaving of its handlers; a launch signs the typed
    supply once and tracks the asset the node made; the domain of the form goes to
    the primary wallet, and its entry to the stored list; every request of a
    sign-up carries the name the screen announces; a name is claimed only after
    the node said that it is free (what the domain form and the sign-up let pass
    after a late answer is a fact and a finding); the lock of the sign-in screen
    ends; the wallet has one card per symbol, and says when Send opens. Parsers:
    the challenge token is read exactly by its grammar. Composition: under the
    provider, its effects and its registrations, each part makes the steps it
    makes alone, so what is proved of it alone holds there.
    Some facts exhibit runs the code allows and its comments exclude; they
    are the findings of the manifest.

    ** Fuel

    The JSON parser is given twice the length of the text plus one, which the
    round trip shows to be enough; decimal digits are produced with the binary
    logarithm plus one; a drain of a pending buffer takes one step more than the
    limit of 64 entries, and its invariant shows that it never runs out; a varint
    is read with eleven steps, one more than the bytes a decoder accepts, and a
    protobuf message with its length plus one.

    ** Not modelled

    The rendering of screens, their layout, focus and animation; translations and
    themes, which are data; the screens and hooks that only show an answer; the
    native code, of which only what answers promise is assumed; services whose
    methods forward one request and rename its fields; the mock services, which are
    never reached; [__DEV__] log lines; strings beyond Latin-1; NaN payloads and
    the sign of zero of doubles. *)

From Stdlib Require Sorting.Sorted.
From Stdlib Require Export ZArith Lia Bool.
From stdpp Require Export base tactics list numbers relations.

(** Every number of the program that is an integer is a [Z]. *)
#[global] Open Scope Z_scope.

Create HintDb sovnet.
Create Rewrite HintDb sovnet_rw.

(** ** Tactics of the development *)

(** Destruct the scrutinee of a [match] or [if] of the goal. *)
Ltac dmatch :=
  match goal with
  | |- context [match ?x with _ => _ end] => destruct x eqn:?
  end.

(** The same in a hypothesis. *)
Ltac dmatch_in H :=
  match type of H with
  | context [match ?x with _ => _ end] => destruct x eqn:?
  end.

(** Turn boolean comparisons of the context into arithmetic facts. *)
Ltac breflect :=
  repeat match goal with
  | H : (_ <? _) = true |- _ => apply Z.ltb_lt in H
  | H : (_ <? _) = false |- _ => apply Z.ltb_ge in H
  | H : (_ <=? _) = true |- _ => apply Z.leb_le in H
  | H : (_ <=? _) = false |- _ => apply Z.leb_gt in H
  | H : (_ =? _) = true |- _ => apply Z.eqb_eq in H
  | H : (_ =? _) = false |- _ => apply Z.eqb_neq in H
  | H : (_ <? _)%nat = true |- _ => apply Nat.ltb_lt in H
  | H : (_ <? _)%nat = false |- _ => apply Nat.ltb_ge in H
  | H : (_ <=? _)%nat = true |- _ => apply Nat.leb_le in H
  | H : (_ <=? _)%nat = false |- _ => apply Nat.leb_gt in H
  | H : (_ =? _)%nat = true |- _ => apply Nat.eqb_eq in H
  | H : (_ =? _)%nat = false |- _ => apply Nat.eqb_neq in H
  | H : _ && _ = true |- _ => apply andb_true_iff in H as [? ?]
  | H : _ || _ = false |- _ => apply orb_false_iff in H as [? ?]
  | H : negb _ = true |- _ => apply negb_true_iff in H
  | H : negb _ = false |- _ => apply negb_false_iff in H
  | H : bool_decide _ = true |- _ => apply bool_decide_eq_true_1 in H
  | H : bool_decide _ = false |- _ => apply bool_decide_eq_false_1 in H
  end.

(** Case analysis on every test of the goal, then close by computation. *)
Ltac dcases := repeat (dmatch; simplify_eq/=; try done).

(** ** Prefixes and suffixes selected by a test

    [drop_while]/[take_while] are what an anchored regular expression with a
    starred class strips or matches. *)

Section While.
Context {A : Type} (p : A → bool).

Fixpoint take_while (l : list A) : list A :=
  match l with
  | x :: l' => if p x then x :: take_while l' else []
  | [] => []
  end.

Fixpoint drop_while (l : list A) : list A :=
  match l with
  | x :: l' => if p x then drop_while l' else l
  | [] => []
  end.

(** The longest suffix of elements that satisfy the test is dropped. *)
Definition drop_while_end (l : list A) : list A :=
  rev (drop_while (rev l)).

Lemma take_drop_while l : take_while l ++ drop_while l = l.
Proof. induction l as [|x l IH]; simpl; [done|]. destruct (p x); simpl; congruence. Qed.

Lemma take_while_all l : Forall (λ x, p x = true) (take_while l).
Proof. induction l as [|x l IH]; simpl; [done|]. destruct (p x) eqn:E; auto. Qed.

Lemma drop_while_head l :
  match drop_while l with [] => True | x :: _ => p x = false end.
Proof. induction l as [|x l IH]; simpl; [done|]. destruct (p x) eqn:E; auto. Qed.

Lemma drop_while_id l :
  match l with [] => True | x :: _ => p x = false end → drop_while l = l.
Proof. destruct l as [|x l]; simpl; [done|]. by intros ->. Qed.

Lemma drop_while_all l l' :
  Forall (λ x, p x = true) l → drop_while (l ++ l') = drop_while l'.
Proof. induction 1 as [|x l Hx _ IH]; simpl; [done|]. by rewrite Hx. Qed.

Lemma drop_while_nil l : Forall (λ x, p x = true) l → drop_while l = [].
Proof. intros H. rewrite <-(app_nil_r l). by rewrite drop_while_all. Qed.

Lemma drop_while_Forall (P : A → Prop) l : Forall P l → Forall P (drop_while l).
Proof. induction 1 as [|x l Hx Hl IH]; simpl; [done|]. destruct (p x); auto. Qed.

Lemma drop_while_length l : (length (drop_while l) ≤ length l)%nat.
Proof. induction l as [|x l IH]; simpl; [lia|]. destruct (p x); simpl; lia. Qed.

Lemma drop_while_idemp l : drop_while (drop_while l) = drop_while l.
Proof. apply drop_while_id, drop_while_head. Qed.

(** What is dropped at the end satisfies the test throughout. *)
Lemma drop_while_end_split l :
  ∃ z, l = drop_while_end l ++ z ∧ Forall (λ x, p x = true) z.
Proof.
  exists (rev (take_while (rev l))). unfold drop_while_end. split.
  - rewrite <-rev_app_distr, take_drop_while. by rewrite rev_involutive.
  - apply Forall_rev, take_while_all.
Qed.

Lemma drop_while_end_id l :
  match rev l with [] => True | x :: _ => p x = false end → drop_while_end l = l.
Proof. intros H. unfold drop_while_end. rewrite drop_while_id by done. apply rev_involutive. Qed.

Lemma drop_while_end_last l :
  match rev (drop_while_end l) with [] => True | x :: _ => p x = false end.
Proof. unfold drop_while_end. rewrite rev_involutive. apply drop_while_head. Qed.

Lemma drop_while_end_all l z :
  Forall (λ x, p x = true) z → drop_while_end (l ++ z) = drop_while_end l.
Proof.
  intros H. unfold drop_while_end. rewrite rev_app_distr, drop_while_all; [done|].
  by apply Forall_rev.
Qed.

Lemma drop_while_end_Forall (P : A → Prop) l : Forall P l → Forall P (drop_while_end l).
Proof.
  destruct (drop_while_end_split l) as (z & E & _). rewrite E at 1.
  by intros [? _]%Forall_app.
Qed.

Lemma drop_while_end_length l : (length (drop_while_end l) ≤ length l)%nat.
Proof.
  destruct (drop_while_end_split l) as (z & E & _). rewrite E at 2.
  rewrite length_app. lia.
Qed.

End While.

(** ** Lists *)

Lemma forallb_Forall {A} (p : A → bool) l :
  forallb p l = true ↔ Forall (λ x, p x = true) l.
Proof.
  induction l as [|x l IH]; simpl; [done|]. by rewrite andb_true_iff, list.Forall_cons, IH.
Qed.

Lemma existsb_Exists {A} (p : A → bool) l :
  existsb p l = true ↔ Exists (λ x, p x = true) l.
Proof.
  induction l as [|x l IH]; simpl; [by rewrite Exists_nil|].
  by rewrite orb_true_iff, List.Exists_cons, IH.
Qed.

(** [findIndex]: the position of the first element that passes the test. *)
Fixpoint find_index {A} (p : A → bool) (l : list A) : option nat :=
  match l with
  | [] => None
  | x :: l' => if p x then Some 0%nat else S <$> find_index p l'
  end.

Lemma find_index_Some {A} (p : A → bool) l i :
  find_index p l = Some i →
  ∃ x, l !! i = Some x ∧ p x = true ∧ ∀ j y, (j < i)%nat → l !! j = Some y → p y = false.
Proof.
  revert i. induction l as [|x l IH]; intros i H; simpl in H; [done|].
  destruct (p x) eqn:E.
  - simplify_eq. exists x. repeat split; auto; intros; lia.
  - destruct (find_index p l) as [k|]; simpl in H; [|done]. simplify_eq.
    destruct (IH k eq_refl) as (y & Hy & Hp & Hmin). exists y. repeat split; auto.
    intros [|j] z Hj Hz; simpl in Hz; simplify_eq; auto. apply (Hmin j); auto; lia.
Qed.

Lemma find_index_None {A} (p : A → bool) l :
  find_index p l = None ↔ Forall (λ x, p x = false) l.
Proof.
  induction l as [|x l IH]; simpl; [done|]. rewrite list.Forall_cons.
  destruct (p x); [split; [done|by intros [? _]]|].
  destruct (find_index p l); simpl; [split; [done|]|].
  - intros [_ H]. by apply IH in H.
  - split; [intros _; split; [done|by apply IH]|done].
Qed.

(** The last [n] elements, [slice(-n)]. *)
Definition last_n {A} (n : nat) (l : list A) : list A := drop (length l - n) l.

Lemma last_n_length {A} n (l : list A) : length (last_n n l) = Nat.min n (length l).
Proof. unfold last_n. rewrite length_drop. lia. Qed.

Lemma last_default {A} (x : A) l d : List.last (x :: l) d = List.last l x.
Proof.
  revert x d. induction l as [|y l IH]; intros x d; [done|].
  change (List.last (x :: y :: l) d) with (List.last (y :: l) d). by rewrite (IH y d), (IH y x).
Qed.

(** ** Sorting *)

(** [Array.prototype.sort], stable, by a comparator that is a difference of numbers *)
Fixpoint sort_insert {A} (cmp : A → A → Z) (x : A) (l : list A) : list A :=
  match l with
  | [] => [x]
  | y :: l' => if 0 <? cmp x y then y :: sort_insert cmp x l' else x :: l
  end.
Definition js_sort {A} (cmp : A → A → Z) (l : list A) : list A := foldr (sort_insert cmp) [] l.

Lemma sort_insert_perm {A} (cmp : A → A → Z) x l : sort_insert cmp x l ≡ₚ x :: l.
Proof.
  induction l as [|y l IH]; simpl; [done|]. destruct (0 <? _); [|done].
  rewrite IH. by apply perm_swap.
Qed.

Lemma js_sort_perm {A} (cmp : A → A → Z) l : js_sort cmp l ≡ₚ l.
Proof. induction l as [|x l IH]; simpl; [done|]. by rewrite sort_insert_perm, IH. Qed.

Lemma js_sort_sorted_by {A} (R : relation A) `{!Transitive R} (cmp : A → A → Z) l :
  (∀ x y, 0 < cmp x y → R y x) → (∀ x y, cmp x y ≤ 0 → R x y) → Sorted.StronglySorted R (js_sort cmp l).
Proof.
  intros Hgt Hle. induction l as [|x l IH]; [constructor|]. change (js_sort cmp (x :: l)) with (sort_insert cmp x (js_sort cmp l)).
  induction IH as [|y l' Hs IH' Hf]; simpl; [repeat constructor|].
  destruct (0 <? cmp x y) eqn:E; constructor.
  - done.
  - rewrite sort_insert_perm. constructor; [apply Hgt; lia|done].
  - by constructor.
  - constructor; [apply Hle; lia|]. eapply list.Forall_impl; [exact Hf|]. intros z Hz. etrans; [|exact Hz]. apply Hle. lia.
Qed.
