(* ===== verification/JsString.v ===== *)
(** * The JavaScript string operations the program uses

    A JavaScript string is the list of its code units, here of the Latin-1
    range 0 to 255: [jstr] is [list ascii] and every operation agrees with
    ECMAScript on that range (case mapping and white space included).  The
    literals of the source are written [js "..."].  Regular expressions of the
    source are translated one by one, each into the character tests below. *)

From Stdlib Require Export Ascii String.
From stdpp Require Import strings.
From S2P Require Export Prelude.
#[global] Open Scope Z_scope.
#[global] Open Scope list_scope.

Definition jstr : Set := list ascii.

Definition js (s : string) : jstr := list_ascii_of_string s.
#[global] Arguments js : simpl never.

#[export] Instance jstr_eq_dec : EqDecision jstr.
Proof. unfold jstr. apply _. Defined.

#[export] Instance jstr_inhabited : Inhabited jstr := populate [].

(** ** Code units and character classes *)

Definition code (c : ascii) : Z := Z.of_nat (nat_of_ascii c).
Definition chr (n : Z) : ascii := ascii_of_nat (Z.to_nat n).

Definition in_range (lo hi : Z) (c : ascii) : bool := (lo <=? code c) && (code c <=? hi).

(** [\d] *)
Definition is_digit (c : ascii) : bool := in_range 48 57 c.
(** [[a-z]] and [[A-Z]] *)
Definition is_lower (c : ascii) : bool := in_range 97 122 c.
Definition is_upper (c : ascii) : bool := in_range 65 90 c.
(** [\w] *)
Definition is_word (c : ascii) : bool :=
  is_digit c || is_lower c || is_upper c || (code c =? 95).
(** [[0-9a-fA-F]] *)
Definition is_hex (c : ascii) : bool :=
  is_digit c || in_range 97 102 c || in_range 65 70 c.
(** white space and line terminators of [String.prototype.trim] *)
Definition is_space (c : ascii) : bool :=
  in_range 9 13 c || (code c =? 32) || (code c =? 160).
(** a character that the dot of a regular expression does not match *)
Definition is_newline (c : ascii) : bool := (code c =? 10) || (code c =? 13).

(** ** Operations *)

(** the truth value of a string: only the empty one is falsy *)
Definition truthy (s : jstr) : bool := match s with [] => false | _ => true end.

(** the letters A-Z and the Latin-1 letters 192 to 222, the sign 215 excepted *)
Definition lower_char (c : ascii) : ascii :=
  if is_upper c || (in_range 192 222 c && negb (code c =? 215))
  then chr (code c + 32) else c.

Definition toLowerCase (s : jstr) : jstr := map lower_char s.

(** [ß] becomes two letters; [µ] and [ÿ], whose capitals are outside Latin-1, stay *)
Definition upper_char (c : ascii) : jstr :=
  if is_lower c || (in_range 224 254 c && negb (code c =? 247)) then [chr (code c - 32)]
  else if code c =? 223 then js "SS" else [c].

Definition toUpperCase (s : jstr) : jstr := flat_map upper_char s.

Definition trim (s : jstr) : jstr := drop_while_end is_space (drop_while is_space s).

Definition startsWith (p s : jstr) : bool := bool_decide (take (length p) s = p).
Definition endsWith (p s : jstr) : bool :=
  (length p <=? length s)%nat && bool_decide (last_n (length p) s = p).

(** [s.slice(a, b)] with the negative positions counted from the end *)
Definition slice_pos (n : nat) (i : Z) : nat :=
  if i <? 0 then Z.to_nat (Z.of_nat n + i) else Nat.min (Z.to_nat i) n.
Definition slice {A} (a b : Z) (s : list A) : list A :=
  take (slice_pos (length s) b - slice_pos (length s) a) (drop (slice_pos (length s) a) s).
Definition slice_from {A} (a : Z) (s : list A) : list A :=
  drop (slice_pos (length s) a) s.

(** [s.split(c)] for a separator of one character: always at least one part *)
Fixpoint split_on (sep : ascii) (s : jstr) : list jstr :=
  match s with
  | [] => [[]]
  | c :: s' =>
      match split_on sep s' with
      | p :: ps => if bool_decide (c = sep) then [] :: p :: ps else (c :: p) :: ps
      | [] => [[c]]
      end
  end.

Fixpoint join (sep : jstr) (l : list jstr) : jstr :=
  match l with
  | [] => []
  | [x] => x
  | x :: l' => x ++ sep ++ join sep l'
  end.

Definition repeat_char (c : ascii) (n : nat) : jstr := replicate n c.
Definition padStart (n : nat) (c : ascii) (s : jstr) : jstr := replicate (n - length s) c ++ s.
Definition padEnd (n : nat) (c : ascii) (s : jstr) : jstr := s ++ replicate (n - length s) c.

(** [s.includes(t)] *)
Fixpoint includes (t s : jstr) : bool :=
  startsWith t s || match s with [] => false | _ :: s' => includes t s' end.

(** ** Decimal numerals *)

Definition digit_val (c : ascii) : Z := code c - 48.
Definition digit_char (d : Z) : ascii := chr (48 + d).

(** the value of a string of digits, [BigInt(s)] *)
Definition dec_val (s : jstr) : Z := fold_left (λ a c, 10 * a + digit_val c) s 0.

Fixpoint digits_fuel (fuel : nat) (n : Z) (acc : jstr) : jstr :=
  match fuel with
  | O => acc
  | S f =>
      let acc' := digit_char (n mod 10) :: acc in
      if n <? 10 then acc' else digits_fuel f (n / 10) acc'
  end.

(** [n.toString()] for an integer; a number below [2^k] has at most [k] digits *)
Definition dec_str (n : Z) : jstr :=
  if n <? 0 then "-"%char :: digits_fuel (S (Z.to_nat (Z.log2 (- n)))) (- n) []
  else digits_fuel (S (Z.to_nat (Z.log2 n))) n [].

(** [/^\d+$/.test(s)] *)
Definition all_digits (s : jstr) : bool := truthy s && forallb is_digit s.

(** [s.replace(/^0+/, '')] and [s.replace(/0+$/, '')] *)
Definition is_zero (c : ascii) : bool := bool_decide (c = "0"%char).
Definition strip_leading_zeros (s : jstr) : jstr := drop_while is_zero s.
Definition strip_trailing_zeros (s : jstr) : jstr := drop_while_end is_zero s.

(** [a || b] on strings: the empty string is falsy *)
Definition str_or (a b : jstr) : jstr := match a with [] => b | _ => a end.

(** ** Characters *)

Lemma code_range c : 0 ≤ code c < 256.
Proof.
  unfold code. pose proof (nat_ascii_bounded c). lia.
Qed.

Lemma code_chr n : 0 ≤ n < 256 → code (chr n) = n.
Proof. intros H. unfold code, chr. rewrite nat_ascii_embedding; lia. Qed.

Lemma chr_code c : chr (code c) = c.
Proof. unfold code, chr. rewrite Nat2Z.id. apply ascii_nat_embedding. Qed.

Lemma code_inj c d : code c = code d → c = d.
Proof. intros H. rewrite <-(chr_code c), <-(chr_code d). congruence. Qed.

Lemma in_range_spec lo hi c : in_range lo hi c = true ↔ lo ≤ code c ≤ hi.
Proof. unfold in_range. rewrite andb_true_iff, !Z.leb_le. done. Qed.

Lemma is_digit_spec c : is_digit c = true ↔ 0 ≤ digit_val c ≤ 9.
Proof. unfold is_digit, digit_val. rewrite in_range_spec. lia. Qed.

Lemma digit_val_char d : 0 ≤ d < 10 → digit_val (digit_char d) = d.
Proof. intros H. unfold digit_val, digit_char. rewrite code_chr by lia. lia. Qed.

Lemma digit_char_val c : is_digit c = true → digit_char (digit_val c) = c.
Proof.
  intros H. unfold digit_val, digit_char. replace (48 + (code c - 48)) with (code c) by lia.
  apply chr_code.
Qed.

Lemma digit_char_digit d : 0 ≤ d < 10 → is_digit (digit_char d) = true.
Proof. intros H. apply is_digit_spec. rewrite digit_val_char; lia. Qed.

Lemma digit_char_zero d : 0 ≤ d < 10 → is_zero (digit_char d) = true → d = 0.
Proof.
  intros H Hz. unfold is_zero in Hz. apply bool_decide_eq_true in Hz.
  rewrite <-(digit_val_char d) by done. by rewrite Hz.
Qed.

#[export] Hint Resolve digit_char_digit : sovnet.

(** ** Values of digit strings *)

Definition digits (s : jstr) : Prop := Forall (λ c, is_digit c = true) s.

Lemma truthy_true s : truthy s = true ↔ s ≠ [].
Proof. by destruct s. Qed.
Lemma truthy_false s : truthy s = false ↔ s = [].
Proof. by destruct s. Qed.

Lemma all_digits_spec s : all_digits s = true ↔ s ≠ [] ∧ digits s.
Proof.
  unfold all_digits, digits. by rewrite andb_true_iff, truthy_true, forallb_Forall.
Qed.

Lemma digits_app s t : digits (s ++ t) ↔ digits s ∧ digits t.
Proof. apply Forall_app. Qed.

Lemma digits_snoc s c : digits (s ++ [c]) ↔ digits s ∧ is_digit c = true.
Proof. unfold digits. by rewrite Forall_app, Forall_singleton. Qed.

Lemma digits_zeros n : digits (replicate n "0"%char).
Proof. unfold digits. by apply Forall_replicate. Qed.

Lemma fold_dec_val s a :
  fold_left (λ a c, 10 * a + digit_val c) s a = a * 10 ^ Z.of_nat (length s) + dec_val s.
Proof.
  unfold dec_val. revert a. induction s as [|c s IH] using rev_ind; intros a.
  - simpl. lia.
  - rewrite !fold_left_app, length_app. simpl. rewrite IH, (IH 0).
    replace (Z.of_nat (length s + 1)) with (Z.succ (Z.of_nat (length s))) by lia.
    rewrite Z.pow_succ_r by lia. lia.
Qed.

Lemma dec_val_app s t : dec_val (s ++ t) = dec_val s * 10 ^ Z.of_nat (length t) + dec_val t.
Proof. unfold dec_val at 1. by rewrite fold_left_app, fold_dec_val. Qed.

Lemma dec_val_cons c s : dec_val (c :: s) = digit_val c * 10 ^ Z.of_nat (length s) + dec_val s.
Proof. change (c :: s) with ([c] ++ s). rewrite dec_val_app. unfold dec_val at 1. simpl. lia. Qed.

Lemma dec_val_snoc s c : dec_val (s ++ [c]) = 10 * dec_val s + digit_val c.
Proof. rewrite dec_val_app. unfold dec_val at 2. simpl. lia. Qed.

Lemma dec_val_zeros n : dec_val (replicate n "0"%char) = 0.
Proof. induction n as [|n IH]; simpl; [done|]. rewrite dec_val_cons, IH. done. Qed.

Lemma dec_val_bounds s : digits s → 0 ≤ dec_val s < 10 ^ Z.of_nat (length s).
Proof.
  induction s as [|c s IH] using rev_ind; intros H; [done|].
  apply digits_snoc in H as [Hs Hc]. apply is_digit_spec in Hc.
  rewrite dec_val_snoc, length_app. simpl.
  replace (Z.of_nat (length s + 1)) with (Z.succ (Z.of_nat (length s))) by lia.
  rewrite Z.pow_succ_r by lia. specialize (IH Hs). lia.
Qed.

Lemma dec_val_nonneg s : digits s → 0 ≤ dec_val s.
Proof. intros H. apply dec_val_bounds in H. lia. Qed.
#[export] Hint Resolve dec_val_nonneg digits_zeros : sovnet.

Lemma strip_leading_zeros_val s : dec_val (strip_leading_zeros s) = dec_val s.
Proof.
  unfold strip_leading_zeros. induction s as [|c s IH]; simpl; [done|].
  destruct (is_zero c) eqn:E; [|done]. unfold is_zero in E. apply bool_decide_eq_true in E as ->.
  rewrite IH, dec_val_cons. done.
Qed.

(** ** Printing digits *)

Lemma digits_fuel_app fuel n acc : digits_fuel fuel n acc = digits_fuel fuel n [] ++ acc.
Proof.
  revert n acc. induction fuel as [|f IH]; intros n acc; simpl; [done|].
  destruct (n <? 10); [done|]. rewrite IH, (IH _ [_]), <-app_assoc. done.
Qed.

Lemma digits_fuel_irrel f g n :
  (0 < f)%nat → (0 < g)%nat → 0 ≤ n < 10 ^ Z.of_nat f → n < 10 ^ Z.of_nat g →
  digits_fuel f n [] = digits_fuel g n [].
Proof.
  revert g n. induction f as [|f IH]; intros g n Hf Hg Hn Hn'; [lia|].
  destruct g as [|g]; [lia|]. simpl. destruct (n <? 10) eqn:E; [done|]. breflect.
  rewrite digits_fuel_app, (digits_fuel_app g). f_equal.
  rewrite Nat2Z.inj_succ, Z.pow_succ_r in Hn, Hn' by lia.
  destruct f as [|f]; [simpl in Hn; lia|]. destruct g as [|g]; [simpl in Hn'; lia|].
  apply IH; try lia; try (split; [apply Z.div_pos; lia|]); apply Z.div_lt_upper_bound; lia.
Qed.

Lemma log2_fuel n : 0 ≤ n → n < 10 ^ Z.of_nat (S (Z.to_nat (Z.log2 n))).
Proof.
  intros H. rewrite Nat2Z.inj_succ, Z2Nat.id by apply Z.log2_nonneg.
  destruct (Z.eq_dec n 0) as [->|]; [simpl; lia|].
  apply Z.lt_le_trans with (2 ^ Z.succ (Z.log2 n)); [apply Z.log2_spec; lia|].
  apply Z.pow_le_mono_l. pose proof (Z.log2_nonneg n). lia.
Qed.

Lemma dec_str_nonneg n : 0 ≤ n → dec_str n = digits_fuel (S (Z.to_nat (Z.log2 n))) n [].
Proof. intros H. unfold dec_str. by rewrite (proj2 (Z.ltb_ge n 0)). Qed.

Lemma dec_str_digit d : 0 ≤ d < 10 → dec_str d = [digit_char d].
Proof.
  intros H. rewrite dec_str_nonneg by lia. simpl. rewrite (proj2 (Z.ltb_lt d 10)) by lia.
  by rewrite Z.mod_small.
Qed.

Lemma dec_str_step a d : 0 < a → 0 ≤ d < 10 → dec_str (10 * a + d) = dec_str a ++ [digit_char d].
Proof.
  intros Ha Hd. rewrite !dec_str_nonneg by lia.
  pose proof (log2_fuel (10 * a + d) ltac:(lia)) as Hf.
  pose proof (log2_fuel a ltac:(lia)) as Hg.
  revert Hf Hg. generalize (Z.to_nat (Z.log2 (10 * a + d))) as f, (Z.to_nat (Z.log2 a)) as g.
  intros f g Hf Hg. rewrite (digits_fuel_irrel (S f) (S (S f))); try lia.
  2: { rewrite (Nat2Z.inj_succ (S f)), Z.pow_succ_r; lia. }
  set (k := S f) in *. cbn [digits_fuel]. rewrite (proj2 (Z.ltb_ge (10 * a + d) 10)) by lia.
  replace ((10 * a + d) mod 10) with d by (rewrite Z.add_comm, Z.mul_comm, Z.mod_add, Z.mod_small; lia).
  replace ((10 * a + d) / 10) with a by (rewrite Z.mul_comm, Z.div_add_l, Z.div_small; lia).
  rewrite digits_fuel_app. f_equal. apply (digits_fuel_irrel k (S g)); lia.
Qed.

Lemma dec_str_ind (P : Z → jstr → Prop) :
  (∀ d, 0 ≤ d < 10 → P d [digit_char d]) →
  (∀ a d, 0 < a → 0 ≤ d < 10 → P a (dec_str a) → P (10 * a + d) (dec_str a ++ [digit_char d])) →
  ∀ n, 0 ≤ n → P n (dec_str n).
Proof.
  intros H0 HS. apply (Zlt_0_ind (λ n, P n (dec_str n))). intros n IH Hn.
  destruct (Z_lt_le_dec n 10) as [Hlt|Hge].
  - rewrite dec_str_digit by lia. apply H0. lia.
  - assert (E : n = 10 * (n / 10) + n mod 10) by (apply Z.div_mod; lia).
    pose proof (Z.mod_pos_bound n 10 ltac:(lia)).
    assert (0 < n / 10) by (apply Z.div_str_pos; lia).
    rewrite E at 2. rewrite dec_str_step by lia. rewrite E at 1. apply HS; try lia.
    apply IH. split; [lia|apply Z.div_lt; lia].
Qed.

Lemma dec_str_digits n : 0 ≤ n → digits (dec_str n).
Proof.
  revert n. apply (dec_str_ind (λ _ s, digits s)).
  - intros d Hd. unfold digits. apply Forall_singleton. auto with sovnet.
  - intros a d _ Hd IH. apply digits_snoc. auto with sovnet.
Qed.

Lemma dec_str_val n : 0 ≤ n → dec_val (dec_str n) = n.
Proof.
  revert n. apply (dec_str_ind (λ n s, dec_val s = n)).
  - intros d Hd. unfold dec_val. simpl. by rewrite digit_val_char.
  - intros a d _ Hd IH. by rewrite dec_val_snoc, IH, digit_val_char.
Qed.

Lemma dec_str_nonempty n : dec_str n ≠ [].
Proof.
  unfold dec_str. destruct (n <? 0); [done|]. simpl.
  destruct (n <? 10); [done|]. rewrite digits_fuel_app. by destruct (digits_fuel _ _ _).
Qed.

Lemma dec_str_all_digits n : 0 ≤ n → all_digits (dec_str n) = true.
Proof. intros H. apply all_digits_spec. split; [apply dec_str_nonempty|by apply dec_str_digits]. Qed.
#[export] Hint Resolve dec_str_digits dec_str_all_digits : sovnet.

(** A numeral without superfluous zeros is the one [dec_str] prints. *)
Lemma dec_str_positive_head n : 0 < n → strip_leading_zeros (dec_str n) = dec_str n.
Proof.
  intros H. enough (0 < n → ∃ c s, dec_str n = c :: s ∧ is_zero c = false) as Hx.
  { destruct (Hx H) as (c & s & -> & E). unfold strip_leading_zeros. simpl. by rewrite E. }
  clear H. destruct (Z_lt_le_dec n 0) as [|Hn]; [lia|]. revert n Hn.
  apply (dec_str_ind (λ n s, 0 < n → ∃ c s', s = c :: s' ∧ is_zero c = false)).
  - intros d Hd Hpos. exists (digit_char d), []. split; [done|].
    destruct (is_zero _) eqn:E; [|done]. apply digit_char_zero in E; lia.
  - intros a d Ha Hd IH _. destruct (IH Ha) as (c & s' & -> & E).
    by exists c, (s' ++ [digit_char d]).
Qed.

Lemma strip_leading_zeros_dec_str s :
  digits s → str_or (strip_leading_zeros s) (js "0") = dec_str (dec_val s).
Proof.
  intros Hs. rewrite <-(strip_leading_zeros_val s).
  assert (Hd : digits (strip_leading_zeros s)) by (by apply drop_while_Forall).
  assert (Hh := drop_while_head is_zero s). fold (strip_leading_zeros s) in Hh.
  revert Hd Hh. generalize (strip_leading_zeros s) as t. clear s Hs. intros t.
  induction t as [|c t IH] using rev_ind; intros Hd Hh; [done|].
  apply digits_snoc in Hd as [Hd Hc]. pose proof Hc as Hc'. apply is_digit_spec in Hc'.
  rewrite dec_val_snoc. destruct t as [|e t].
  - change (dec_val []) with 0. replace (10 * 0 + digit_val c) with (digit_val c) by lia.
    by rewrite dec_str_digit, digit_char_val by (done || lia).
  - simpl in Hh. specialize (IH Hd Hh). simpl in IH. simpl app.
    assert (0 < dec_val (e :: t)).
    { rewrite dec_val_cons. inversion Hd as [|?? He Ht]; subst. apply is_digit_spec in He.
      assert (digit_val e ≠ 0).
      { intros E. unfold is_zero in Hh. apply bool_decide_eq_false in Hh. apply Hh.
        apply code_inj. unfold digit_val in E. change (code "0"%char) with 48. lia. }
      pose proof (dec_val_nonneg t Ht).
      assert (0 < 10 ^ Z.of_nat (length t)) by (apply Z.pow_pos_nonneg; lia). nia. }
    rewrite dec_str_step by lia. rewrite <-IH, digit_char_val by done. done.
Qed.

Lemma dec_str_inj n m : 0 ≤ n → 0 ≤ m → dec_str n = dec_str m → n = m.
Proof. intros Hn Hm E. rewrite <-(dec_str_val n), <-(dec_str_val m) by done. by rewrite E. Qed.

Lemma lower_hex_char c : is_hex c = true → is_digit (lower_char c) || in_range 97 102 (lower_char c) = true.
Proof. destruct c as [[] [] [] [] [] [] [] []]; vm_compute; congruence. Qed.

(** ** Decimal fields of a fixed width *)

Lemma dec_str_length k n : 0 ≤ n < 10 ^ Z.of_nat (S k) → (length (dec_str n) ≤ S k)%nat.
Proof.
  revert n. induction k as [|k IH]; intros n Hn; [rewrite dec_str_digit by (simpl in Hn; lia); simpl; lia|].
  destruct (Z.lt_ge_cases n 10) as [H|H]; [rewrite dec_str_digit by lia; simpl; lia|].
  rewrite (Z.div_mod n 10) by lia.
  rewrite dec_str_step, length_app by (Z.to_euclidean_division_equations; lia).
  rewrite Nat2Z.inj_succ, Z.pow_succ_r in Hn by lia.
  pose proof (IH (n / 10) ltac:(Z.to_euclidean_division_equations; lia)). simpl. lia.
Qed.

Lemma field_length k n : 0 ≤ n < 10 ^ Z.of_nat (S k) → length (padStart (S k) "0" (dec_str n)) = S k.
Proof. intros H%dec_str_length. unfold padStart. rewrite length_app, length_replicate. lia. Qed.

Lemma field_val k n : 0 ≤ n → dec_val (padStart k "0" (dec_str n)) = n.
Proof. intros H. unfold padStart. by rewrite dec_val_app, dec_val_zeros, dec_str_val. Qed.

(** the first field and the rest of a text can be told apart *)
Lemma field_inj k n m s t :
  0 ≤ n < 10 ^ Z.of_nat (S k) → 0 ≤ m < 10 ^ Z.of_nat (S k) →
  padStart (S k) "0" (dec_str n) ++ s = padStart (S k) "0" (dec_str m) ++ t → n = m ∧ s = t.
Proof.
  intros Hn Hm [H ->]%app_inj_1; [|by rewrite !field_length].
  apply (f_equal dec_val) in H. by rewrite !field_val in H by lia.
Qed.

(** ** Prefixes, suffixes, parts *)

Lemma startsWith_spec p s : startsWith p s = true ↔ ∃ t, s = p ++ t.
Proof.
  unfold startsWith. rewrite bool_decide_eq_true. split.
  - intros H. exists (drop (length p) s).
    transitivity (take (length p) s ++ drop (length p) s); [by rewrite take_drop|by rewrite H].
  - intros [t ->]. by rewrite take_app_length.
Qed.

Lemma startsWith_app p t : startsWith p (p ++ t) = true.
Proof. apply startsWith_spec. by exists t. Qed.

Lemma endsWith_spec p s : endsWith p s = true ↔ ∃ t, s = t ++ p.
Proof.
  unfold endsWith, last_n. rewrite andb_true_iff, bool_decide_eq_true, Nat.leb_le. split.
  - intros [_ H]. exists (take (length s - length p) s).
    transitivity (take (length s - length p) s ++ drop (length s - length p) s);
      [by rewrite take_drop|by rewrite H].
  - intros [t ->]. rewrite length_app. split; [lia|].
    replace (length t + length p - length p)%nat with (length t) by lia. by rewrite drop_app_length.
Qed.

Lemma split_on_nonempty sep s : split_on sep s ≠ [].
Proof. induction s as [|c s IH]; simpl; [done|]. destruct (split_on sep s); [done|]. by case_bool_decide. Qed.

Lemma split_on_none sep s : sep ∉ s → split_on sep s = [s].
Proof.
  induction s as [|c s IH]; intros H; simpl; [done|]. apply not_elem_of_cons in H as [Hc Hs].
  rewrite IH by done. by case_bool_decide; subst.
Qed.

Lemma split_on_app sep s t : sep ∉ s → split_on sep (s ++ sep :: t) = s :: split_on sep t.
Proof.
  induction s as [|c s IH]; intros H; simpl.
  - destruct (split_on sep t) as [|p ps] eqn:E; [by apply split_on_nonempty in E|].
    by rewrite bool_decide_eq_true_2.
  - apply not_elem_of_cons in H as [Hc Hs]. rewrite IH by done.
    by rewrite bool_decide_eq_false_2 by congruence.
Qed.

Lemma split_on_parts sep s : Forall (λ p, sep ∉ p) (split_on sep s).
Proof.
  induction s as [|c s IH]; simpl; [by repeat constructor; apply not_elem_of_nil|].
  pose proof (split_on_nonempty sep s). destruct (split_on sep s) as [|p ps]; [done|].
  apply list.Forall_cons in IH as [Hp Hps]. case_bool_decide as Hc.
  - constructor; [apply not_elem_of_nil|by constructor].
  - constructor; [|done]. by apply not_elem_of_cons.
Qed.

Lemma join_split_on sep s : join [sep] (split_on sep s) = s.
Proof.
  induction s as [|c s IH]; simpl; [done|].
  pose proof (split_on_nonempty sep s). destruct (split_on sep s) as [|p ps]; [done|].
  case_bool_decide as Hc; [subst c|].
  - change (join [sep] ([] :: p :: ps)) with ([] ++ [sep] ++ join [sep] (p :: ps)). by rewrite IH.
  - transitivity (c :: join [sep] (p :: ps)); [by destruct ps|by rewrite IH].
Qed.

Lemma trim_id s :
  match s with [] => True | c :: _ => is_space c = false end →
  match rev s with [] => True | c :: _ => is_space c = false end → trim s = s.
Proof. intros H1 H2. unfold trim. by rewrite drop_while_id, drop_while_end_id. Qed.

Lemma trim_Forall (P : ascii → Prop) s : Forall P s → Forall P (trim s).
Proof. intros H. by apply drop_while_end_Forall, drop_while_Forall. Qed.

(** A string without white space is its own trimming. *)
Lemma trim_no_space s : Forall (λ c, is_space c = false) s → trim s = s.
Proof.
  intros H. apply trim_id.
  - by destruct H.
  - apply Forall_rev in H. by destruct H.
Qed.

Lemma drop_while_end_head {A} (p : A → bool) x l :
  p x = false → ∃ l', drop_while_end p (x :: l) = x :: l'.
Proof.
  intros Hx. destruct (drop_while_end_split p (x :: l)) as (z & E & Hz).
  destruct (drop_while_end p (x :: l)) as [|y l'] eqn:D; simplify_eq/=; [|by exists l'].
  inversion Hz; congruence.
Qed.

Lemma trim_idemp s : trim (trim s) = trim s.
Proof.
  unfold trim at 2 3. pose proof (drop_while_head is_space s) as Hh.
  destruct (drop_while is_space s) as [|c t] eqn:E; [done|].
  destruct (drop_while_end_head is_space c t Hh) as [l' El'].
  apply trim_id.
  - rewrite El'. done.
  - apply drop_while_end_last.
Qed.

Lemma is_digit_not_space c : is_digit c = true → is_space c = false.
Proof.
  unfold is_digit, is_space. rewrite in_range_spec. intros H.
  destruct (in_range 9 13 c) eqn:E; [apply in_range_spec in E; lia|].
  rewrite !orb_false_iff, !Z.eqb_neq. lia.
Qed.

Lemma trim_digits s : digits s → trim s = s.
Proof. intros H. apply trim_no_space. eapply list.Forall_impl; [exact H|]. apply is_digit_not_space. Qed.

(** ** Case *)

Lemma lower_char_idemp c : lower_char (lower_char c) = lower_char c.
Proof.
  destruct c as [[] [] [] [] [] [] [] []]; vm_compute; reflexivity.
Qed.

Lemma toLowerCase_idemp s : toLowerCase (toLowerCase s) = toLowerCase s.
Proof. unfold toLowerCase. rewrite map_map. apply map_ext, lower_char_idemp. Qed.

Lemma toLowerCase_length s : length (toLowerCase s) = length s.
Proof. apply length_map. Qed.

(** ** Slices *)

Lemma slice_0 {A} b (s : list A) : 0 ≤ b → slice 0 b s = take (Z.to_nat b) s.
Proof.
  intros H. unfold slice, slice_pos. rewrite (proj2 (Z.ltb_ge b 0)) by lia.
  change (0 <? 0) with false. cbn [Z.to_nat Nat.min]. rewrite drop_0, Nat.sub_0_r.
  destruct (Nat.le_gt_cases (Z.to_nat b) (length s)).
  - by rewrite Nat.min_l by lia.
  - rewrite Nat.min_r by lia. rewrite !take_ge by lia. done.
Qed.

Lemma slice_from_neg {A} n (s : list A) : slice_from (- Z.of_nat (S n)) s = last_n (S n) s.
Proof.
  unfold slice_from, slice_pos, last_n. rewrite (proj2 (Z.ltb_lt _ _)) by lia.
  f_equal. lia.
Qed.
