(* ===== verification/Doubles.v ===== *)
(** * JavaScript numbers: IEEE 754 doubles, [parseFloat]

    A finite double is an integral multiple of 2^-1074 and is kept as that
    multiple, so comparison is comparison of integers and addition is exact
    before it is rounded.  Rounding is to the nearest, ties to the even mantissa,
    with overflow to infinity and gradual underflow.  The sign of zero is not
    kept: nothing modelled here prints it or divides by it. *)

From Stdlib Require Import QArith Lqa.
From S2P Require Import Prelude JsString.

#[local] Open Scope Z_scope.

Inductive double := Fin (u : Z) | Inf (negative : bool) | NaN.

(** [n / d] for positive [d], to the nearest, ties to the even *)
Definition round_div (n d : Z) : Z :=
  let q := n / d in
  let r := n mod d in
  if (2 * r <? d) || ((2 * r =? d) && Z.even q) then q else q + 1.

(** how many low bits of a quotient of units do not fit 53 bits *)
Definition excess (q : Z) : Z := Z.max 0 (Z.log2 q - 52).

(** the multiple of the unit nearest to [n / d] units, for [0 <= n] and [0 < d] *)
Definition nearest (n d : Z) : Z :=
  let k := excess (n / d) in round_div n (d * 2 ^ k) * 2 ^ k.

Definition fit (n d : Z) : double :=
  let u := nearest (Z.abs n) d in
  if 2 ^ 2098 <=? u then Inf (n <? 0) else Fin (Z.sgn n * u).

(** the double nearest to [n / d], for [0 < d] *)
Definition of_ratio (n d : Z) : double := fit (n * 2 ^ 1074) d.
Definition of_Z (n : Z) : double := of_ratio n 1.

Definition zero : double := Fin 0.

(** [x > y]; false when one of them is NaN *)
Definition gt (x y : double) : bool :=
  match x, y with
  | Fin a, Fin b => b <? a
  | Inf false, Fin _ | Inf false, Inf true | Fin _, Inf true => true
  | _, _ => false
  end.

Definition isNaN (x : double) : bool := match x with NaN => true | _ => false end.

(** [x <= y] *)
Definition le (x y : double) : bool := negb (isNaN x) && negb (isNaN y) && negb (gt x y).

Definition add (x y : double) : double :=
  match x, y with
  | Fin a, Fin b => fit (a + b) 1
  | Inf s, Inf s' => if Bool.eqb s s' then Inf s else NaN
  | Inf s, Fin _ | Fin _, Inf s => Inf s
  | _, _ => NaN
  end.

Definition div (x y : double) : double :=
  match x, y with
  | Fin a, Fin b =>
      if b =? 0 then if a =? 0 then NaN else Inf (a <? 0) else fit (a * Z.sgn b * 2 ^ 1074) (Z.abs b)
  | Inf s, Fin b => Inf (xorb s (b <? 0))
  | Fin _, Inf _ => zero
  | _, _ => NaN
  end.

Definition mul (x y : double) : double :=
  match x, y with
  | Fin a, Fin b => fit (a * b) (2 ^ 1074)
  | Fin 0, Inf _ | Inf _, Fin 0 => NaN
  | Inf s, Fin b | Fin b, Inf s => Inf (xorb s (b <? 0))
  | Inf s, Inf s' => Inf (xorb s s')
  | _, _ => NaN
  end.

(** ** [parseFloat]: the number of the longest prefix that is a decimal literal *)

(** [m * 10^x] *)
Definition of_decimal (m x : Z) : double :=
  if 0 <=? x then of_Z (m * 10 ^ x) else of_ratio m (10 ^ (- x)).

(** an exponent, when there is a whole one: [e], a sign, digits *)
Definition exponent (s : jstr) : Z :=
  match s with
  | e :: s' =>
      if bool_decide (lower_char e = "e"%char) then
        let (sign, ds) := match s' with
                          | "-"%char :: t => (-1, t) | "+"%char :: t => (1, t) | _ => (1, s')
                          end in
        sign * dec_val (take_while is_digit ds)
      else 0
  | [] => 0
  end.

Definition parse_unsigned (s : jstr) : double :=
  if startsWith (js "Infinity") s then Inf false
  else
    let w := take_while is_digit s in
    let rest := drop_while is_digit s in
    let f := match rest with "."%char :: t => take_while is_digit t | _ => [] end in
    let rest' := match rest with "."%char :: t => drop_while is_digit t | _ => rest end in
    if truthy w || truthy f
    then of_decimal (dec_val (w ++ f)) (exponent rest' - Z.of_nat (length f))
    else NaN.

Definition opposite (x : double) : double :=
  match x with Fin a => Fin (- a) | Inf s => Inf (negb s) | NaN => NaN end.

Definition parseFloat (s : jstr) : double :=
  match drop_while is_space s with
  | "-"%char :: t => opposite (parse_unsigned t)
  | "+"%char :: t => parse_unsigned t
  | t => parse_unsigned t
  end.

Example parseFloat_plain : parseFloat (js "1.5") = Fin (3 * 2 ^ 1073).
Proof. by vm_compute. Qed.
Example parseFloat_prefix : parseFloat (js " -2.5e1x") = of_Z (-25).
Proof. by vm_compute. Qed.
Example parseFloat_trailing : parseFloat (js "7.e") = of_Z 7.
Proof. by vm_compute. Qed.
Example parseFloat_none : parseFloat (js ".e5") = NaN.
Proof. by vm_compute. Qed.
Example one_tenth_sum : add (parseFloat (js "0.1")) (parseFloat (js "0.2")) ≠ parseFloat (js "0.3").
Proof. by vm_compute. Qed.
Example quarter : div (of_Z 1) (of_Z 4) = of_ratio 1 4.
Proof. by vm_compute. Qed.
Example too_large : parseFloat (js "1e400") = Inf false.
Proof. by vm_compute. Qed.

(** ** Rounding *)

Lemma round_div_exact x d : 0 < d → round_div (x * d) d = x.
Proof.
  intros Hd. unfold round_div. rewrite Z.div_mul, Z.mod_mul by lia.
  by rewrite (proj2 (Z.ltb_lt _ _)) by lia.
Qed.

Lemma round_div_error n d : 0 < d → Z.abs (2 * (round_div n d * d - n)) ≤ d.
Proof.
  intros Hd. unfold round_div. pose proof (Z.div_mod n d). pose proof (Z.mod_pos_bound n d).
  destruct ((2 * (n mod d) <? d) || ((2 * (n mod d) =? d) && Z.even (n / d))) eqn:E; [|breflect; nia].
  apply orb_true_iff in E as [E|E]; breflect; nia.
Qed.

Lemma round_div_nonneg n d : 0 ≤ n → 0 < d → 0 ≤ round_div n d.
Proof. intros Hn Hd. unfold round_div. pose proof (Z.div_pos n d). destruct (_ || _); lia. Qed.

Lemma pow_pos k : 0 ≤ k → 0 < 2 ^ k.
Proof. intros. by apply Z.pow_pos_nonneg. Qed.

Lemma excess_nonneg q : 0 ≤ excess q.
Proof. unfold excess. lia. Qed.

Lemma nearest_nonneg n d : 0 ≤ n → 0 < d → 0 ≤ nearest n d.
Proof.
  intros Hn Hd. unfold nearest. set (k := excess _). pose proof (pow_pos k (excess_nonneg _)).
  apply Z.mul_nonneg_nonneg; [apply round_div_nonneg; nia|lia].
Qed.

(** at most half a unit in the last of 53 places *)
Lemma nearest_error n d :
  0 ≤ n → 0 < d → 2 ^ 53 * Z.abs (nearest n d * d - n) ≤ Z.max n (2 ^ 52 * d).
Proof.
  intros Hn Hd. unfold nearest. set (k := excess (n / d)).
  pose proof (pow_pos k (excess_nonneg _)) as Hk.
  pose proof (round_div_error n (d * 2 ^ k) ltac:(nia)) as He.
  set (r := round_div n (d * 2 ^ k)) in *.
  replace (r * 2 ^ k * d - n) with (r * (d * 2 ^ k) - n) by ring.
  assert (2 ^ 52 * (d * 2 ^ k) ≤ Z.max n (2 ^ 52 * d)) as Hm; [|rewrite Z.abs_mul in He; lia].
  unfold k, excess in *. destruct (Z.max_spec 0 (Z.log2 (n / d) - 52)) as [[Hl ->]|[Hl ->]]; [|lia].
  assert (0 < n / d) as Hq. { destruct (Z.le_gt_cases (n / d) 0); [|lia]. rewrite Z.log2_nonpos in Hl; lia. }
  destruct (Z.log2_spec (n / d) Hq) as [H _].
  replace (Z.log2 (n / d)) with (52 + (Z.log2 (n / d) - 52)) in H by lia.
  rewrite Z.pow_add_r in H by lia. pose proof (Z.mul_div_le n d Hd). nia.
Qed.

(** what fits 53 bits is kept *)
Lemma nearest_exact u d : 0 ≤ u < 2 ^ 53 → 0 < d → nearest (u * d) d = u.
Proof.
  intros Hu Hd. unfold nearest. rewrite Z.div_mul by lia.
  assert (excess u = 0) as ->.
  { unfold excess. destruct (Z.eq_dec u 0) as [->|]; [done|]. pose proof (Z.log2_lt_pow2 u 53). lia. }
  change (2 ^ 0) with 1. rewrite !Z.mul_1_r. by apply round_div_exact.
Qed.

(** ** Relative error

    [within k x y]: the quotient of the two non-negative rationals is at most
    [(1 + 2^-52)^k] either way.  Rounding is within 1, and the errors of a
    computation add up in the exponent. *)

Definition step : Q := (4503599627370497 # 4503599627370496)%Q.   (* 1 + 2^-52 *)
Fixpoint slack (k : nat) : Q := match k with O => 1%Q | S k' => (step * slack k')%Q end.
Definition within (k : nat) (x y : Q) : Prop :=
  (0 <= x /\ 0 <= y /\ x <= y * slack k /\ y <= x * slack k)%Q.

Lemma slack_ge_1 k : (1 <= slack k)%Q.
Proof. induction k as [|k IH]; cbn [slack]; [lra|]. unfold step. lra. Qed.

Lemma slack_add j k : (slack (j + k) == slack j * slack k)%Q.
Proof. induction j as [|j IH]; cbn [slack Nat.add]; [ring|]. rewrite IH. ring. Qed.

Lemma within_refl x : (0 <= x)%Q → within 0 x x.
Proof. intros H. unfold within, slack. repeat split; lra. Qed.

Lemma within_sym k x y : within k x y → within k y x.
Proof. unfold within. tauto. Qed.

#[export] Instance within_proper k : Proper (Qeq ==> Qeq ==> iff) (within k).
Proof. intros x x' Hx y y' Hy. unfold within. by rewrite Hx, Hy. Qed.

Lemma within_trans j k x y z : within j x y → within k y z → within (j + k) x z.
Proof.
  unfold within. rewrite slack_add. intros (? & ? & H1 & H2) (? & ? & H3 & H4).
  pose proof (slack_ge_1 j). pose proof (slack_ge_1 k). repeat split; [done|done|nra|nra].
Qed.

Lemma within_le j k x y : (j <= k)%nat → within j x y → within k x y.
Proof.
  intros Hj H. replace k with (j + (k - j))%nat by lia. eapply within_trans; [done|].
  destruct H as (_ & H & _). pose proof (slack_ge_1 (k - j)). unfold within. repeat split; [lra|lra|nra|nra].
Qed.

Lemma within_add k x y x' y' : within k x y → within k x' y' → within k (x + x') (y + y').
Proof. unfold within. intros (? & ? & ? & ?) (? & ? & ? & ?). repeat split; lra. Qed.

Lemma inv_le k x y : (0 < x)%Q → (0 < y)%Q → (y <= x * slack k)%Q → (/ x <= / y * slack k)%Q.
Proof.
  intros Hx Hy H. apply (Qmult_le_l _ _ (x * y)); [nra|].
  assert (x * y * / x == y)%Q as -> by (field; lra).
  assert (x * y * (/ y * slack k) == x * slack k)%Q as -> by (field; lra). done.
Qed.

Lemma within_inv k x y : (0 < x)%Q → (0 < y)%Q → within k x y → within k (/ x) (/ y).
Proof.
  intros Hx Hy (_ & _ & H1 & H2). pose proof (Qinv_lt_0_compat x Hx). pose proof (Qinv_lt_0_compat y Hy).
  repeat split; [lra|lra|by apply inv_le|by apply inv_le].
Qed.

Lemma mul_le a b c d : (0 <= a)%Q → (a <= b)%Q → (0 <= c)%Q → (c <= d)%Q → (a * c <= b * d)%Q.
Proof. intros. nra. Qed.

Lemma within_mul j k x y x' y' : within j x y → within k x' y' → within (j + k) (x * x') (y * y').
Proof.
  intros (Hx & Hy & H1 & H2) (Hx' & Hy' & H3 & H4). unfold within. rewrite slack_add.
  repeat split; [nra|nra| |].
  - apply Qle_trans with (y * slack j * (y' * slack k))%Q; [by apply mul_le|lra].
  - apply Qle_trans with (x * slack j * (x' * slack k))%Q; [by apply mul_le|lra].
Qed.

Lemma within_div j k x y x' y' :
  (0 < x')%Q → (0 < y')%Q → within j x y → within k x' y' → within (j + k) (x / x') (y / y').
Proof. intros. apply within_mul; [done|]. by apply within_inv. Qed.

(** the value of a finite double *)
Definition value (u : Z) : Q := inject_Z u / inject_Z (2 ^ 1074).

(** [2 ^ 52] units are the smallest normal double: from there on, rounding is
    within 1, up to the largest *)
Lemma nearest_within n d :
  0 < d → n = 0 ∨ 2 ^ 52 * d ≤ n → within 1 (inject_Z (nearest n d)) (inject_Z n / inject_Z d).
Proof.
  intros Hd Hn. assert (0 ≤ n) as H0 by lia. pose proof (nearest_error n d H0 Hd) as He.
  pose proof (nearest_nonneg n d H0 Hd) as Hu. set (u := nearest n d) in *.
  assert (2 ^ 53 * Z.abs (u * d - n) ≤ n) as He'.
  { destruct Hn as [-> | Hn]; [|lia]. assert (u = 0) as ->; [|lia].
    unfold u. by rewrite <-(Z.mul_0_l d), nearest_exact. }
  assert (0 < inject_Z d)%Q as Qd by (by rewrite <-(Zlt_Qlt 0)).
  assert (inject_Z n / inject_Z d * inject_Z d == inject_Z n)%Q as E by (field; lra).
  assert (inject_Z (u * d) <= inject_Z n * (1 + (1 # 9007199254740992)) /\
          inject_Z n * (1 - (1 # 9007199254740992)) <= inject_Z (u * d))%Q as [L1 L2].
  { unfold inject_Z, Qle, Qmult, Qplus, Qminus, Qopp; simpl. lia. }
  rewrite inject_Z_mult in L1, L2. unfold within, slack, step. 
  assert (0 <= inject_Z n)%Q by (by rewrite <-(Zle_Qle 0)). assert (0 <= inject_Z u)%Q by (by rewrite <-(Zle_Qle 0)).
  set (q := (inject_Z n / inject_Z d)%Q) in *. repeat split; [done| | |]; nra.
Qed.

Lemma inject_pos n : 0 < n → (0 < inject_Z n)%Q.
Proof. intros H. by rewrite <-(Zlt_Qlt 0). Qed.
Lemma inject_nonneg n : 0 ≤ n → (0 <= inject_Z n)%Q.
Proof. intros H. by rewrite <-(Zle_Qle 0). Qed.
#[export] Hint Resolve inject_pos inject_nonneg : sovnet.

Lemma div_le_iff n d m : 0 < d → n ≤ m * d ↔ (inject_Z n / inject_Z d <= inject_Z m)%Q.
Proof.
  intros Hd. pose proof (inject_pos d Hd) as Hq.
  assert (inject_Z n / inject_Z d * inject_Z d == inject_Z n)%Q as E by (field; lra).
  rewrite Zle_Qle, inject_Z_mult. split; intros H.
  - apply (Qmult_le_r _ _ (inject_Z d)); [done|]. by rewrite E.
  - apply (Qmult_le_r _ _ (inject_Z d)) in H; [|done]. by rewrite E in H.
Qed.

Lemma value_nonneg u : 0 ≤ u → (0 <= value u)%Q.
Proof. intros H. unfold value. pose proof (inject_nonneg u H). by apply Qle_shift_div_l; [|rewrite Qmult_0_l]. Qed.

Lemma value_scale n d u :
  0 < d → within 1 (inject_Z u) (inject_Z n / inject_Z d) →
  within 1 (value u) (inject_Z n / inject_Z (d * 2 ^ 1074)).
Proof.
  intros Hd H. pose proof (inject_pos d Hd). unfold value. rewrite inject_Z_mult.
  assert (0 < inject_Z (2 ^ 1074))%Q as Hp by done.
  assert (inject_Z n / (inject_Z d * inject_Z (2 ^ 1074)) == inject_Z n / inject_Z d / inject_Z (2 ^ 1074))%Q as ->
    by (field; split; lra).
  apply (within_div 1 0); [done|done|done|]. apply within_refl. lra.
Qed.

(** the double nearest to a quotient in the normal range *)
Lemma fit_within n d :
  0 < d → n = 0 ∨ 2 ^ 52 * d ≤ n → n ≤ 2 ^ 2097 * d →
  ∃ u, fit n d = Fin u ∧ 0 ≤ u ∧ within 1 (value u) (inject_Z n / inject_Z (d * 2 ^ 1074)).
Proof.
  intros Hd Hn Hm. assert (0 ≤ n) as H0 by lia. pose proof (nearest_within n d Hd Hn) as Hw.
  pose proof (nearest_nonneg n d H0 Hd) as Hu. unfold fit. rewrite (Z.abs_eq n) by done.
  set (u := nearest n d) in *. exists u.
  rewrite div_le_iff in Hm by done. 
  rewrite (proj2 (Z.leb_gt _ u)).
  - split; [|split; [done|by apply value_scale]].
    destruct (Z.eq_dec n 0) as [Hz|Hz]; [|rewrite Z.sgn_pos by lia; f_equal; lia].
    rewrite Hz. simpl. f_equal. unfold u. by rewrite Hz, <-(Z.mul_0_l d), nearest_exact.
  - destruct Hw as (_ & _ & Hw & _). unfold slack, step in Hw. rewrite Zlt_Qlt.
    change (2 ^ 2098) with (2 * 2 ^ 2097). rewrite inject_Z_mult. 
    assert (1 <= inject_Z (2 ^ 2097))%Q by done. 
    set (m := inject_Z (2 ^ 2097)) in *. change (inject_Z 2) with 2%Q. lra.
Qed.

Lemma scale_le p n b d : 0 < p → n ≤ b * d → n * p ≤ p * b * d.
Proof. nia. Qed.
Lemma scale_ge p q n d : 0 < p → d ≤ n * q → p * d ≤ n * (p * q).
Proof. nia. Qed.

Lemma of_ratio_within n d :
  0 < d → n = 0 ∨ d ≤ n * 2 ^ 1022 → n ≤ 2 ^ 1023 * d →
  ∃ u, of_ratio n d = Fin u ∧ 0 ≤ u ∧ within 1 (value u) (inject_Z n / inject_Z d).
Proof.
  intros Hd Hn Hm. destruct (fit_within (n * 2 ^ 1074) d Hd) as (u & E & Hu & H).
  - destruct Hn as [->|Hn]; [by left|right]. change (2 ^ 1074) with (2 ^ 52 * 2 ^ 1022). by apply scale_ge.
  - change (2 ^ 2097) with (2 ^ 1074 * 2 ^ 1023). by apply scale_le.
  - exists u. split; [done|]. split; [done|]. rewrite !inject_Z_mult in H.
    assert (0 < inject_Z (2 ^ 1074))%Q by done. pose proof (inject_pos d Hd).
    assert (inject_Z n / inject_Z d == inject_Z n * inject_Z (2 ^ 1074) / (inject_Z d * inject_Z (2 ^ 1074)))%Q as ->
      by (field; split; lra).
    done.
Qed.

Lemma unit_lower k u q :
  0 ≤ k ≤ 1073 → within 3 (value u) q → (1 <= q * inject_Z (2 ^ k))%Q → 2 ^ (1073 - k) ≤ u.
Proof.
  intros Hk (H0 & _ & _ & H) Hq. unfold value, slack, step in *.
  assert (0 < inject_Z (2 ^ k))%Q as Hp by (apply inject_pos, pow_pos; lia).
  pose proof (pow_pos (1073 - k) ltac:(lia)) as Hp2.
  assert (inject_Z (2 ^ 1074) == 2 * inject_Z (2 ^ (1073 - k)) * inject_Z (2 ^ k))%Q as E.
  { change 2%Q with (inject_Z 2). rewrite <-!inject_Z_mult. f_equiv.
    change (2 ^ 1074) with (2 * 2 ^ 1073). rewrite <-Z.mul_assoc, <-Z.pow_add_r by lia. do 2 f_equal. lia. }
  rewrite Zle_Qle. rewrite E in *. pose proof (inject_pos _ Hp2) as Hp3.
  set (a := inject_Z (2 ^ (1073 - k))) in *. set (p := inject_Z (2 ^ k)) in *. set (v := inject_Z u) in *.
  assert (v / (2 * a * p) * p == v / (2 * a))%Q as Ev by (field; split; lra).
  assert (1 <= v / (2 * a) * 2)%Q as H1.
  { rewrite <-Ev. apply Qle_trans with (q * p)%Q; [done|].
    apply Qle_trans with (v / (2 * a * p) * (4503599627370497 # 4503599627370496) *
      (4503599627370497 # 4503599627370496) * (4503599627370497 # 4503599627370496) * p)%Q; [nra|nra]. }
  assert (v / (2 * a) * 2 * a == v)%Q as <- by (field; lra). nra.
Qed.

(** *** The operations on results that are in range *)

(** a non-negative result in range: what it is the rounding of, and zero or no
    smaller than [2^-k] *)
Definition near (k : nat) (x : double) (q : Q) : Prop := ∃ u, x = Fin u ∧ 0 ≤ u ∧ within k (value u) q.

Lemma near_le j k x q : (j <= k)%nat → near j x q → near k x q.
Proof. intros Hj (u & -> & Hu & H). exists u. split; [done|]. split; [done|]. by eapply within_le. Qed.

Lemma near_of_ratio n d :
  0 < d → n = 0 ∨ d ≤ n * 2 ^ 1022 → n ≤ 2 ^ 1023 * d → near 1 (of_ratio n d) (inject_Z n / inject_Z d).
Proof. apply of_ratio_within. Qed.

Lemma near_of_Z n : 0 ≤ n ≤ 2 ^ 1023 → near 1 (of_Z n) (inject_Z n).
Proof.
  intros Hn. destruct (of_ratio_within n 1) as (u & E & Hu & H); [lia| |lia|].
  { destruct (Z.eq_dec n 0); [by left|right]. pose proof (pow_pos 1022). nia. }
  exists u. split; [done|]. split; [done|]. eapply within_proper; [reflexivity| |exact H].
  change (inject_Z 1) with 1%Q. field.
Qed.

Lemma div_ratio a b : 0 < b → div (Fin a) (Fin b) = of_ratio a b.
Proof.
  intros Hb. unfold div, of_ratio. rewrite (proj2 (Z.eqb_neq b 0)) by lia.
  by rewrite Z.sgn_pos, Z.mul_1_r, Z.abs_eq by lia.
Qed.

Lemma value_ratio a b : 0 < b → (inject_Z a / inject_Z b == value a / value b)%Q.
Proof.
  intros Hb. unfold value. pose proof (inject_pos b Hb). assert (0 < inject_Z (2 ^ 1074))%Q by done.
  field. split; lra.
Qed.

(** [x > y] is false: the value of [x] is at most that of [y] *)
Lemma gt_false a b : gt (Fin a) (Fin b) = false → (value a <= value b)%Q.
Proof.
  unfold gt. intros H%Z.ltb_ge. unfold value. rewrite Zle_Qle in H.
  assert (0 < inject_Z (2 ^ 1074))%Q as Hp by done. apply Qle_shift_div_l; [done|].
  assert (inject_Z a / inject_Z (2 ^ 1074) * inject_Z (2 ^ 1074) == inject_Z a)%Q as -> by (field; lra). done.
Qed.

Lemma unit_upper m u q :
  0 ≤ m → within 3 (value u) q → (q <= inject_Z (2 ^ m))%Q → u ≤ 2 ^ (1075 + m).
Proof.
  intros Hm (H0 & _ & H & _) Hq. unfold value, slack, step in *. pose proof (inject_pos _ (pow_pos m Hm)) as Hp.
  rewrite Zle_Qle, Z.pow_add_r, inject_Z_mult by lia. change (2 ^ 1075) with (2 * 2 ^ 1074).
  rewrite inject_Z_mult. change (inject_Z 2) with 2%Q. assert (0 < inject_Z (2 ^ 1074))%Q as Hc by done.
  set (c := inject_Z (2 ^ 1074)) in *. set (p := inject_Z (2 ^ m)) in *. set (v := inject_Z u) in *.
  assert (v / c * c == v)%Q as <- by (field; lra). assert (v / c <= 2 * p)%Q by lra. nra.
Qed.

Lemma within_zero k u q : 0 ≤ u → within k (value u) q → (q == 0)%Q → u = 0.
Proof.
  intros Hu (_ & _ & W & _) E. rewrite E, Qmult_0_l in W.
  destruct (Z.eq_dec u 0) as [|Hn]; [done|exfalso]. pose proof (inject_pos u ltac:(lia)).
  unfold value in W. assert (0 < inject_Z (2 ^ 1074))%Q by done.
  assert (inject_Z u == inject_Z u / inject_Z (2 ^ 1074) * inject_Z (2 ^ 1074))%Q by (field; lra). nra.
Qed.

(** a sum of two in range *)
Lemma near_add k x y p q :
  (k ≤ 3)%nat → near k x p → near k y q → (p == 0 ∨ 1 <= p * inject_Z (2 ^ 1000))%Q →
  (q == 0 ∨ 1 <= q * inject_Z (2 ^ 1000))%Q → (p <= inject_Z (2 ^ 1001))%Q → (q <= inject_Z (2 ^ 1001))%Q →
  near (S k) (add x y) (p + q).
Proof.
  intros Hk Hx Hy Hp Hq Hp' Hq'.
  destruct Hx as (a & -> & Ha & Wa), Hy as (b & -> & Hb & Wb). cbn [add].
  assert (∀ u r, 0 ≤ u → within k (value u) r → (r == 0 ∨ 1 <= r * inject_Z (2 ^ 1000))%Q → u = 0 ∨ 2 ^ 73 ≤ u) as Hlow.
  { intros u r Hu W [E|H]; [left; by eapply within_zero|right].
    apply (unit_lower 1000 u r); [lia|by eapply within_le|done]. }
  pose proof (Hlow a p Ha Wa Hp). pose proof (Hlow b q Hb Wb Hq).
  pose proof (unit_upper 1001 a p ltac:(lia) (within_le _ _ _ _ Hk Wa) Hp').
  pose proof (unit_upper 1001 b q ltac:(lia) (within_le _ _ _ _ Hk Wb) Hq').
  destruct (fit_within (a + b) 1) as (u & E & Hu & W); [lia|lia| |].
  { assert (2 ^ (1075 + 1001) + 2 ^ (1075 + 1001) ≤ 2 ^ 2097 * 1) by done. lia. }
  exists u. split; [done|]. split; [done|]. change (S k) with (1 + k)%nat. eapply within_trans; [exact W|].
  assert (inject_Z (a + b) / inject_Z (1 * 2 ^ 1074) == value a + value b)%Q as ->.
  { unfold value. rewrite Z.mul_1_l, inject_Z_plus. assert (0 < inject_Z (2 ^ 1074))%Q by done. field. lra. }
  by apply within_add.
Qed.

(** a quotient of two integers *)
Lemma near_quotient f d :
  0 ≤ f < d → d ≤ 2 ^ 1000 → near 3 (div (of_Z f) (of_Z d)) (inject_Z f / inject_Z d).
Proof.
  intros Hf Hd. assert (0 < 2 ^ 23) by done.
  assert (2 ^ 1000 ≤ 2 ^ 1023) by done.
  destruct (near_of_Z f) as (a & -> & Ha & Wa); [lia|]. destruct (near_of_Z d) as (b & -> & Hb & Wb); [lia|].
  assert (∀ n u, 0 < n → n ≤ 2 ^ 1000 → within 1 (value u) (inject_Z n) → 2 ^ 1073 ≤ u ∧ u ≤ 2 ^ (1075 + 1000)) as Hr.
  { intros n u Hn Hn' W. apply (within_le _ 3) in W; [|lia]. split.
    - apply (unit_lower 0 u (inject_Z n)); [lia|done|]. change (inject_Z (2 ^ 0)) with 1%Q.
      rewrite Qmult_1_r. change 1%Q with (inject_Z 1). rewrite <-Zle_Qle. lia.
    - apply (unit_upper 1000 u (inject_Z n)); [lia|done|]. by rewrite <-Zle_Qle. }
  destruct (Hr d b) as [B1 B2]; [lia|lia|done|]. 
  assert (0 < b) as Hb0 by (pose proof (pow_pos 1073); lia). rewrite div_ratio by done.
  assert (a = 0 ∨ 2 ^ 1073 ≤ a ∧ a ≤ 2 ^ (1075 + 1000)) as Hz.
  { destruct (Z.eq_dec f 0) as [->|Hn]; [left; by eapply within_zero|right; apply (Hr f a); [lia|lia|done]]. }
  apply (near_le (1 + 2)); [lia|].
  destruct (near_of_ratio a b) as (u & -> & Hu & W); [done| | |].
  - destruct Hz as [->|[A1 A2]]; [by left|right].
    apply Z.le_trans with (2 ^ 1073 * 2 ^ 1022); [|by apply Z.mul_le_mono_nonneg_r].
    apply Z.le_trans with (1 := B2). done.
  - apply Z.le_trans with (2 ^ 1023 * 2 ^ 1073); [|by apply Z.mul_le_mono_nonneg_l].
    destruct Hz as [->|[A1 A2]]; [done|]. apply Z.le_trans with (1 := A2). done.
  - exists u. split; [done|]. split; [done|]. eapply within_trans; [exact W|].
    rewrite value_ratio by done. apply (within_div 1 1); [|apply inject_pos; lia|done|done].
    unfold value. apply Qlt_shift_div_l; [done|]. rewrite Qmult_0_l. by apply inject_pos.
Qed.
