(* ===== verification/TokenUnits.v ===== *)
(** * Token amounts: src/utils/tokenUnits.ts

    Conversion between human-readable amounts, atomic amounts (decimal strings,
    BigInt arithmetic as [Z]) and display strings, the exact price formatter and
    the u128 gate in front of the native bridge.  A fallible function returns a
    sum whose left side is the message of the [Error] it throws. *)

From stdpp Require Import strings.
From S2P Require Import Prelude JsString.

Definition SOV_DECIMALS : Z := 18.
Definition dquote : ascii := "034"%char.
Definition quoted (s : jstr) : jstr := dquote :: s ++ [dquote].
Definition dot : ascii := "."%char.
Definition comma : ascii := ","%char.

(** Human-readable string to atoms; [None] is the [null] of invalid input. *)
Definition humanToAtomic (amountStr : jstr) (decimals : Z) : option jstr :=
  let normalized := trim amountStr in
  if negb (truthy normalized) then None else
  let parts := split_on dot normalized in
  let whole := default [] (parts !! 0%nat) in
  let frac := default [] (parts !! 1%nat) in
  if negb (all_digits whole) || (truthy frac && negb (all_digits frac))
  then None
  else if decimals <? Z.of_nat (length frac) then None
  else
    let paddedFrac := padEnd (Z.to_nat decimals) "0"%char frac in
    Some (str_or (strip_leading_zeros (whole ++ paddedFrac)) (js "0")).

Definition atomsToBigInt (atoms : jstr) : jstr + Z :=
  if negb (all_digits atoms)
  then inl (js "atomsToBigInt: invalid atoms string " ++ quoted atoms)
  else inr (dec_val atoms).

Definition atomsToDisplay (atoms : jstr) (decimals fractionDigits : Z) : jstr :=
  if negb (all_digits atoms) then js "0"
  else if decimals <=? 0 then atoms
  else
    let padded := padStart (Z.to_nat decimals + 1) "0"%char atoms in
    let cut := (length padded - Z.to_nat decimals)%nat in
    let whole := take cut padded in
    let frac := drop cut padded in
    let wholeTrimmed := str_or (strip_leading_zeros whole) (js "0") in
    if fractionDigits <=? 0 then wholeTrimmed
    else
      let fracTrimmed := strip_trailing_zeros (slice 0 fractionDigits frac) in
      if truthy fracTrimmed then wholeTrimmed ++ dot :: fracTrimmed else wholeTrimmed.

(** ** Exact price formatting *)

Record FormatAtomicPriceOptions := {
  minFractionDigits : option Z;
  maxFractionDigits : option Z;
}.

Definition PRICE_DEFAULT_MIN_FRAC : Z := 8.
Definition PRICE_DEFAULT_MAX_FRAC : Z := 18.

Definition padZero (whole : jstr) (minFrac : Z) : jstr :=
  if minFrac <=? 0 then whole else whole ++ dot :: replicate (Z.to_nat minFrac) "0"%char.

(** The long division loop: at most [fuel] further digits, none once the
    remainder is zero. *)
Fixpoint long_division (fuel : nat) (denom remainder : Z) (frac : jstr) : jstr :=
  match fuel with
  | O => frac
  | S f =>
      if remainder =? 0 then frac
      else
        let r := remainder * 10 in
        long_division f denom (r mod denom) (frac ++ dec_str (r / denom))
  end.

Definition price_min (opts : option FormatAtomicPriceOptions) : Z :=
  default PRICE_DEFAULT_MIN_FRAC (o ← opts; minFractionDigits o).
Definition price_max (opts : option FormatAtomicPriceOptions) : Z :=
  Z.max (price_min opts) (default PRICE_DEFAULT_MAX_FRAC (o ← opts; maxFractionDigits o)).

(** Padding up to the minimum, trimming of the zeros past it. *)
Definition price_fraction (minFrac : Z) (frac : jstr) : jstr :=
  let m := Z.to_nat minFrac in
  if Z.of_nat (length frac) <? minFrac then padEnd m "0"%char frac
  else if minFrac <? Z.of_nat (length frac) then
    let frac' := strip_trailing_zeros frac in
    if Z.of_nat (length frac') <? minFrac then padEnd m "0"%char frac' else frac'
  else frac.

(** An argument is [None] for [null] and [undefined]. *)
Definition formatAtomicPrice (numStr denomStr : option jstr)
    (opts : option FormatAtomicPriceOptions) : jstr :=
  let minFrac := price_min opts in
  let maxFrac := price_max opts in
  let n := trim (default [] numStr) in
  let d := trim (default [] denomStr) in
  if negb (truthy (default [] numStr)) || negb (truthy (default [] denomStr))
  then padZero (js "0") minFrac
  else if negb (all_digits n) || negb (all_digits d) then padZero (js "0") minFrac
  else
    let denom := dec_val d in
    if denom =? 0 then padZero (js "0") minFrac
    else
      let num := dec_val n in
      let whole := num / denom in
      let frac := long_division (Z.to_nat maxFrac) denom (num mod denom) [] in
      dec_str whole ++ dot :: price_fraction minFrac frac.

(** ** Thousands separators: [replace(/\B(?=(\d{3})+(?!\d))/g, ',')]

    A position is a match when it is not a word boundary and what follows is a
    run of digits whose length is a positive multiple of three. *)
Definition digit_run (s : jstr) : nat := length (take_while is_digit s).

Fixpoint add_separators (prev_is_word : bool) (s : jstr) : jstr :=
  match s with
  | [] => []
  | c :: s' =>
      (if eqb prev_is_word (is_word c) && (0 <? digit_run s)%nat && (digit_run s mod 3 =? 0)%nat
       then [comma] else [])
      ++ c :: add_separators (is_word c) s'
  end.

Definition with_separators (s : jstr) : jstr := add_separators false s.

Definition regroup (prefix plain : jstr) : jstr :=
  let parts := split_on dot plain in
  let whole := default [] (parts !! 0%nat) in
  let frac := default [] (parts !! 1%nat) in
  if truthy frac then prefix ++ with_separators whole ++ dot :: frac
  else prefix ++ with_separators whole.

Definition formatAtomicPriceDisplay (numStr denomStr : option jstr) (currencyPrefix : jstr)
    (opts : option FormatAtomicPriceOptions) : jstr :=
  regroup currencyPrefix (formatAtomicPrice numStr denomStr opts).

Definition atomsToDisplayLocale (atoms : jstr) (decimals fractionDigits : Z) : jstr :=
  regroup [] (atomsToDisplay atoms decimals fractionDigits).

(** ** The bridge boundary *)

Definition U128_MAX : Z := Z.shiftl 1 128 - 1.

Definition validateAtomsString (atoms : jstr) : jstr + jstr :=
  let s := trim atoms in
  if negb (all_digits s)
  then inl (js "validateAtomsString: not a non-negative integer: " ++ quoted atoms)
  else if U128_MAX <? dec_val s
  then inl (js "validateAtomsString: exceeds u128 max: " ++ quoted atoms)
  else inr s.

(** * Lemmas *)

Lemma dot_not_digit : is_digit dot = false.
Proof. reflexivity. Qed.

Lemma digits_no_dot s : digits s → dot ∉ s.
Proof.
  intros H Hin. unfold digits in H. rewrite list.Forall_forall in H.
  specialize (H _ Hin). by rewrite dot_not_digit in H.
Qed.

Lemma digits_take n s : digits s → digits (take n s).
Proof. apply Forall_take. Qed.
Lemma digits_drop n s : digits s → digits (drop n s).
Proof. apply Forall_drop. Qed.
#[export] Hint Resolve digits_take digits_drop : sovnet.

(** Cutting a digit string [k] places from its end divides its value. *)
Lemma dec_val_cut s k :
  digits s → (k ≤ length s)%nat →
  dec_val (take (length s - k) s) = dec_val s / 10 ^ Z.of_nat k ∧
  dec_val (drop (length s - k) s) = dec_val s mod 10 ^ Z.of_nat k.
Proof.
  intros Hs Hk. pose proof (dec_val_bounds _ (digits_drop (length s - k) s Hs)) as Hb.
  assert (El : length (drop (length s - k) s) = k) by (rewrite length_drop; lia).
  rewrite El in Hb.
  assert (E : dec_val s = dec_val (take (length s - k) s) * 10 ^ Z.of_nat k
                         + dec_val (drop (length s - k) s)).
  { rewrite <-El at 2. rewrite <-dec_val_app. by rewrite take_drop. }
  rewrite E. split.
  - rewrite Z.div_add_l by lia. rewrite Z.div_small by lia. lia.
  - rewrite Z.add_comm, Z.mod_add by lia. by rewrite Z.mod_small.
Qed.

Lemma dec_val_padEnd n s :
  (length s ≤ n)%nat → dec_val (padEnd n "0"%char s) = dec_val s * 10 ^ Z.of_nat (n - length s).
Proof. intros H. unfold padEnd. rewrite dec_val_app, dec_val_zeros, length_replicate. lia. Qed.

Lemma digits_padEnd n s : digits s → digits (padEnd n "0"%char s).
Proof. intros H. apply digits_app. auto with sovnet. Qed.

Lemma length_padEnd n s : (length s ≤ n)%nat → length (padEnd n "0"%char s) = n.
Proof. intros H. unfold padEnd. rewrite length_app, length_replicate. lia. Qed.

Lemma is_zero_eq (z : jstr) :
  Forall (λ c, is_zero c = true) z → z = replicate (length z) "0"%char.
Proof.
  induction 1 as [|c z Hc _ IH]; simpl; [done|].
  unfold is_zero in Hc. apply bool_decide_eq_true in Hc as ->. by rewrite <-IH.
Qed.

Lemma strip_trailing_zeros_val s :
  dec_val s = dec_val (strip_trailing_zeros s)
              * 10 ^ Z.of_nat (length s - length (strip_trailing_zeros s)).
Proof.
  destruct (drop_while_end_split is_zero s) as (z & E & Hz).
  fold (strip_trailing_zeros s) in E. apply is_zero_eq in Hz.
  set (t := strip_trailing_zeros s) in *. clearbody t. subst s. rewrite Hz.
  rewrite dec_val_app, dec_val_zeros, length_app, length_replicate.
  replace (length t + length z - length t)%nat with (length z) by lia. lia.
Qed.

Lemma strip_trailing_zeros_length s : (length (strip_trailing_zeros s) ≤ length s)%nat.
Proof. apply drop_while_end_length. Qed.

Lemma strip_trailing_zeros_digits s : digits s → digits (strip_trailing_zeros s).
Proof. apply drop_while_end_Forall. Qed.
#[export] Hint Resolve strip_trailing_zeros_digits digits_padEnd : sovnet.

(** ** Parsing *)

Lemma digits_spaces s : digits s → Forall (λ c, is_space c = false) s.
Proof. intros H. eapply list.Forall_impl; [exact H|]. apply is_digit_not_space. Qed.

Lemma trim_dotted w f : digits w → digits f → trim (w ++ dot :: f) = w ++ dot :: f.
Proof.
  intros Hw Hf. apply trim_no_space, Forall_app. split; [by apply digits_spaces|].
  constructor; [done|by apply digits_spaces].
Qed.

Lemma all_digits_true s : s ≠ [] → digits s → all_digits s = true.
Proof. intros. by apply all_digits_spec. Qed.

(** The amount a pair of digit strings denotes, in atoms. *)
Definition amount_atoms (w f : jstr) (decimals : Z) : Z :=
  dec_val w * 10 ^ decimals + dec_val f * 10 ^ (decimals - Z.of_nat (length f)).

Lemma combine_atoms w f decimals :
  digits w → digits f → Z.of_nat (length f) ≤ decimals →
  str_or (strip_leading_zeros (w ++ padEnd (Z.to_nat decimals) "0"%char f)) (js "0")
  = dec_str (amount_atoms w f decimals).
Proof.
  intros Hw Hf Hl. rewrite strip_leading_zeros_dec_str.
  2: { apply digits_app. auto with sovnet. }
  f_equal. rewrite dec_val_app, length_padEnd, dec_val_padEnd by lia. unfold amount_atoms.
  rewrite Z2Nat.id by lia. f_equal. f_equal. f_equal. lia.
Qed.

Lemma humanToAtomic_dotted w f decimals :
  w ≠ [] → digits w → digits f → Z.of_nat (length f) ≤ decimals →
  humanToAtomic (w ++ dot :: f) decimals = Some (dec_str (amount_atoms w f decimals)).
Proof.
  intros Hne Hw Hf Hl. unfold humanToAtomic. rewrite trim_dotted by done.
  replace (truthy (w ++ dot :: f)) with true by (by destruct w).
  rewrite split_on_app, (split_on_none dot f) by by apply digits_no_dot.
  change (default [] ([w; f] !! 0%nat)) with w. change (default [] ([w; f] !! 1%nat)) with f.
  rewrite (all_digits_true w) by done.
  assert (Hx : truthy f && negb (all_digits f) = false).
  { destruct (truthy f) eqn:E; [|done]. apply truthy_true in E. by rewrite all_digits_true. }
  rewrite Hx. simpl orb.
  rewrite (proj2 (Z.ltb_ge _ _)) by lia. by rewrite combine_atoms.
Qed.

Lemma humanToAtomic_whole w decimals :
  w ≠ [] → digits w → 0 ≤ decimals →
  humanToAtomic w decimals = Some (dec_str (dec_val w * 10 ^ decimals)).
Proof.
  intros Hne Hw Hd. unfold humanToAtomic. rewrite trim_digits by done.
  rewrite (proj2 (truthy_true w)), split_on_none by (done || by apply digits_no_dot).
  change (default [] ([w] !! 0%nat)) with w. change (default [] ([w] !! 1%nat)) with ([] : jstr).
  rewrite (all_digits_true w) by done.
  simpl orb.
  rewrite (proj2 (Z.ltb_ge _ _)) by (simpl; lia).
  rewrite (combine_atoms w []) by (done || constructor || simpl; lia).
  unfold amount_atoms. change (dec_val []) with 0. repeat f_equal. lia.
Qed.

(** ** Display *)

Lemma length_padStart n c s : (length s ≤ length (padStart n c s))%nat ∧ (n ≤ length (padStart n c s))%nat.
Proof. unfold padStart. rewrite length_app, length_replicate. lia. Qed.

Lemma padStart_zeros n s : digits s →
  digits (padStart n "0"%char s) ∧ dec_val (padStart n "0"%char s) = dec_val s.
Proof.
  intros H. unfold padStart. split; [apply digits_app; auto with sovnet|].
  by rewrite dec_val_app, dec_val_zeros.
Qed.

Lemma mod_pow_le v k d : 0 ≤ k ≤ d → (v mod 10 ^ d) mod 10 ^ k = v mod 10 ^ k.
Proof.
  intros H. replace (10 ^ d) with (10 ^ k * 10 ^ (d - k)).
  2: { rewrite <-Z.pow_add_r by lia. f_equal. lia. }
  rewrite Z.rem_mul_r by (try apply Z.pow_pos_nonneg; try apply Z.pow_nonzero; lia).
  rewrite (Z.mul_comm (10 ^ k)), Z.mod_add by (apply Z.pow_nonzero; lia).
  apply Z.mod_mod. apply Z.pow_nonzero; lia.
Qed.

(** The digits of the atoms beyond the displayed precision. *)
Definition hidden_atoms (v decimals fractionDigits : Z) : Z :=
  v mod 10 ^ (decimals - Z.min fractionDigits decimals).

Lemma atomsToDisplay_form atoms decimals fd :
  all_digits atoms = true → 0 < decimals → 0 < fd →
  let v := dec_val atoms in
  ∃ f, digits f ∧ Z.of_nat (length f) ≤ Z.min fd decimals ∧
    dec_val f * 10 ^ (decimals - Z.of_nat (length f))
      = v mod 10 ^ decimals - hidden_atoms v decimals fd ∧
    atomsToDisplay atoms decimals fd
      = if truthy f then dec_str (v / 10 ^ decimals) ++ dot :: f
        else dec_str (v / 10 ^ decimals).
Proof.
  intros Ha Hd Hf v. pose proof Ha as [Hne Hdig]%all_digits_spec.
  unfold atomsToDisplay. rewrite Ha. simpl negb. cbv iota.
  rewrite (proj2 (Z.leb_gt decimals 0)), (proj2 (Z.leb_gt fd 0)) by lia.
  set (padded := padStart (Z.to_nat decimals + 1) "0"%char atoms).
  destruct (padStart_zeros (Z.to_nat decimals + 1) atoms Hdig) as [Hpd Hpv].
  fold padded in Hpd, Hpv.
  destruct (length_padStart (Z.to_nat decimals + 1) "0"%char atoms) as [_ Hpl].
  fold padded in Hpl.
  destruct (dec_val_cut padded (Z.to_nat decimals) Hpd ltac:(lia)) as [Hw Hfr].
  rewrite Z2Nat.id in Hw, Hfr by lia. rewrite Hpv in Hw, Hfr. fold v in Hw, Hfr.
  set (cut := (length padded - Z.to_nat decimals)%nat) in *.
  rewrite strip_leading_zeros_dec_str, Hw by auto with sovnet.
  rewrite slice_0 by lia. set (frac := drop cut padded) in *.
  assert (Hfd : digits frac) by (unfold frac; auto with sovnet).
  assert (Hfl : length frac = Z.to_nat decimals) by (unfold frac; rewrite length_drop; lia).
  set (m := Z.min fd decimals).
  replace (take (Z.to_nat fd) frac) with (take (Z.to_nat m) frac).
  2: { destruct (Z.le_ge_cases fd decimals); subst m.
       - by rewrite Z.min_l.
       - rewrite Z.min_r by lia. rewrite !take_ge by lia. done. }
  set (t := take (Z.to_nat m) frac).
  assert (Hl : length t = Z.to_nat m) by (unfold t; rewrite length_take; lia).
  assert (Htd : digits t) by (unfold t; auto with sovnet).
  exists (strip_trailing_zeros t). pose proof (strip_trailing_zeros_length t).
  split; [auto with sovnet|]. split; [lia|]. split; [|done].
  destruct (dec_val_cut frac (Z.to_nat (decimals - m)) Hfd ltac:(lia)) as [Ht _].
  rewrite Hfl in Ht. replace (Z.to_nat decimals - Z.to_nat (decimals - m))%nat with (Z.to_nat m) in Ht by lia.
  fold t in Ht. rewrite Z2Nat.id in Ht by lia. rewrite Hfr in Ht.
  transitivity (dec_val t * 10 ^ (decimals - m)).
  - rewrite (strip_trailing_zeros_val t), <-Z.mul_assoc, <-Z.pow_add_r by lia.
    f_equal. f_equal. lia.
  - rewrite Ht. unfold hidden_atoms. fold m. rewrite <-(mod_pow_le v (decimals - m) decimals) by lia.
    rewrite (Z.div_mod (v mod 10 ^ decimals) (10 ^ (decimals - m))) at 2 by (apply Z.pow_nonzero; lia).
    lia.
Qed.

(** ** Long division *)

Lemma long_division_acc fuel denom r acc :
  long_division fuel denom r acc = acc ++ long_division fuel denom r [].
Proof.
  revert r acc. induction fuel as [|f IH]; intros r acc; simpl; [by rewrite app_nil_r|].
  destruct (r =? 0); [by rewrite app_nil_r|].
  rewrite (IH _ (acc ++ _)), (IH _ (dec_str _)). by rewrite app_assoc.
Qed.

(** After [fuel] digits the quotient is exact up to the truncated rest. *)
Lemma long_division_spec fuel denom r :
  0 ≤ r < denom →
  let e := long_division fuel denom r [] in
  digits e ∧ (length e ≤ fuel)%nat ∧
  dec_val e * 10 ^ Z.of_nat (fuel - length e) = r * 10 ^ Z.of_nat fuel / denom.
Proof.
  revert r. induction fuel as [|f IH]; intros r Hr e.
  - subst e. simpl. repeat split; [constructor|lia|]. rewrite Z.mul_1_r, Z.div_small by lia. done.
  - subst e. cbn [long_division]. destruct (r =? 0) eqn:E; breflect.
    { subst r. simpl. rewrite Z.div_0_l by lia. repeat split; [constructor|lia]. }
    assert (Hm : 0 ≤ (r * 10) mod denom < denom) by (apply Z.mod_pos_bound; lia).
    assert (Hq : 0 ≤ r * 10 / denom < 10).
    { split; [apply Z.div_pos; lia|apply Z.div_lt_upper_bound; lia]. }
    rewrite dec_str_digit by done. simpl app. rewrite long_division_acc.
    destruct (IH _ Hm) as (Hd & Hl & Hv). set (e := long_division f denom _ []) in *.
    change ([digit_char (r * 10 / denom)] ++ e) with (digit_char (r * 10 / denom) :: e).
    split; [constructor; auto with sovnet|]. split; [simpl; lia|].
    rewrite dec_val_cons, digit_val_char by done. simpl length. simpl Nat.sub.
    rewrite Z.mul_add_distr_r, Hv, <-Z.mul_assoc, <-Z.pow_add_r by lia.
    replace (Z.of_nat (length e) + Z.of_nat (f - length e)) with (Z.of_nat f) by lia.
    rewrite Nat2Z.inj_succ, Z.pow_succ_r, Z.mul_assoc by lia.
    rewrite (Z.div_mod (r * 10) denom) at 3 by lia.
    rewrite Z.mul_add_distr_r, (Z.mul_comm denom), <-Z.mul_assoc, (Z.mul_comm denom), Z.mul_assoc.
    rewrite Z.div_add_l by lia. done.
Qed.

Lemma price_fraction_spec minFrac frac :
  digits frac → 0 ≤ minFrac →
  let p := price_fraction minFrac frac in
  digits p ∧ minFrac ≤ Z.of_nat (length p) ∧
  (length p ≤ Nat.max (Z.to_nat minFrac) (length frac))%nat ∧
  ∀ k, Z.of_nat (length p) ≤ k → Z.of_nat (length frac) ≤ k →
    dec_val p * 10 ^ (k - Z.of_nat (length p)) = dec_val frac * 10 ^ (k - Z.of_nat (length frac)).
Proof.
  intros Hd Hm p.
  assert (Hpad : ∀ s, digits s → Z.of_nat (length s) < minFrac →
    digits (padEnd (Z.to_nat minFrac) "0"%char s) ∧
    length (padEnd (Z.to_nat minFrac) "0"%char s) = Z.to_nat minFrac ∧
    ∀ k, minFrac ≤ k → dec_val (padEnd (Z.to_nat minFrac) "0"%char s) * 10 ^ (k - minFrac)
         = dec_val s * 10 ^ (k - Z.of_nat (length s))).
  { intros s Hs Hl. rewrite length_padEnd by lia. repeat split; [auto with sovnet|].
    intros k Hk. rewrite dec_val_padEnd, <-Z.mul_assoc, <-Z.pow_add_r by lia. f_equal. f_equal. lia. }
  assert (Hstrip : ∀ k, Z.of_nat (length frac) ≤ k →
    dec_val (strip_trailing_zeros frac) * 10 ^ (k - Z.of_nat (length (strip_trailing_zeros frac)))
    = dec_val frac * 10 ^ (k - Z.of_nat (length frac))).
  { intros k Hk. pose proof (strip_trailing_zeros_length frac).
    rewrite (strip_trailing_zeros_val frac), <-Z.mul_assoc, <-Z.pow_add_r by lia.
    f_equal. f_equal. lia. }
  pose proof (strip_trailing_zeros_length frac). subst p. unfold price_fraction.
  destruct (Z.of_nat (length frac) <? minFrac) eqn:E1; breflect.
  - destruct (Hpad frac Hd E1) as (H1 & H2 & H3). rewrite H2. split; [done|].
    split; [lia|]. split; [lia|]. intros k Hk _. rewrite Z2Nat.id in Hk |- * by lia. by apply H3.
  - destruct (minFrac <? Z.of_nat (length frac)) eqn:E2; breflect.
    2: { repeat split; auto; lia. }
    destruct (Z.of_nat (length (strip_trailing_zeros frac)) <? minFrac) eqn:E3; breflect.
    + destruct (Hpad (strip_trailing_zeros frac)) as (H1 & H2 & H3); [auto with sovnet|done|].
      rewrite H2. split; [done|]. split; [lia|]. split; [lia|].
      intros k Hk Hk'. rewrite Z2Nat.id in Hk |- * by lia. rewrite H3 by done. by apply Hstrip.
    + split; [auto with sovnet|]. repeat split; try lia. intros k _ Hk. by apply Hstrip.
Qed.

(** ** Separators *)

Lemma digit_run_digits s : digits s → digit_run s = length s.
Proof.
  intros H. unfold digit_run. induction H as [|c s Hc _ IH]; simpl; [done|].
  rewrite Hc. simpl. by rewrite IH.
Qed.

Lemma is_digit_word c : is_digit c = true → is_word c = true.
Proof. intros H. unfold is_word. by rewrite H. Qed.

(** [s] cut into a head of one to three digits and groups of exactly three. *)
Definition grouped (s g : jstr) (gs : list jstr) : Prop :=
  g ++ concat gs = s ∧ (1 ≤ length g ≤ 3)%nat ∧ Forall (λ x, length x = 3%nat) gs.

Lemma grouped_length s g gs : grouped s g gs → (length s mod 3 = length g mod 3)%nat.
Proof.
  intros (<- & _ & H). rewrite length_app.
  assert (∃ k, length (concat gs) = k * 3)%nat as [k ->].
  { induction H as [|x gs Hx _ [k IH]]; [by exists 0%nat|]. exists (S k). simpl.
    rewrite length_app, Hx, IH. lia. }
  apply Nat.Div0.mod_add.
Qed.

Lemma add_separators_digits b s :
  digits s → s ≠ [] →
  ∃ g gs, grouped s g gs ∧
    add_separators b s
    = (if b && (length s mod 3 =? 0)%nat then [comma] else []) ++ join [comma] (g :: gs).
Proof.
  intros Hs. revert b. induction Hs as [|c s Hc Hs IH]; intros b Hne; [done|]. clear Hne.
  cbn [add_separators]. rewrite digit_run_digits by (by constructor). rewrite is_digit_word by done.
  replace (eqb b true) with b by (by destruct b). rewrite (proj2 (Nat.ltb_lt _ _)) by (simpl; lia).
  rewrite andb_true_r.
  destruct s as [|c' s'] eqn:Es.
  { exists [c], []. split; [by repeat constructor|]. simpl. by rewrite andb_false_r. }
  rewrite <-Es in *. destruct (IH true ltac:(by rewrite Es)) as (g & gs & Hg & E). rewrite E.
  pose proof (grouped_length _ _ _ Hg) as Hlen. destruct Hg as (Hcat & Hgl & Hgs).
  cbn [andb]. destruct (length s mod 3 =? 0)%nat eqn:E3; breflect.
  - exists [c], (g :: gs). split; [|done].
    assert (length g = 3)%nat.
    { rewrite Hlen in E3. destruct (length g) as [|[|[|[|]]]]; simpl in *; lia. }
    split; [by simpl; f_equal|]. split; [simpl; lia|by constructor].
  - exists (c :: g), gs.
    assert (length g < 3)%nat.
    { rewrite Hlen in E3. destruct (length g) as [|[|[|[|]]]]; simpl in *; lia. }
    split; [|f_equal; by destruct gs].
    split; [by simpl; f_equal|]. split; [simpl; lia|done].
Qed.

Lemma regroup_digits prefix w f :
  digits w → digits f → w ≠ [] →
  regroup prefix (w ++ dot :: f)
  = prefix ++ with_separators w ++ (if truthy f then dot :: f else []).
Proof.
  intros Hw Hf Hne. unfold regroup.
  rewrite split_on_app, (split_on_none dot f) by by apply digits_no_dot.
  change (default [] ([w; f] !! 0%nat)) with w. change (default [] ([w; f] !! 1%nat)) with f.
  destruct (truthy f); by rewrite ?app_nil_r.
Qed.

(** * Properties *)

(** Parsing back what [atomsToDisplay] shows gives the atoms truncated to
    the displayed digits, whatever the precision: exactly the atoms when all
    the decimals are shown, never more than the atoms. *)
Fact display_then_parse atoms decimals fractionDigits :
  all_digits atoms = true → 0 < decimals → 0 < fractionDigits →
  humanToAtomic (atomsToDisplay atoms decimals fractionDigits) decimals
  = Some (dec_str (dec_val atoms - hidden_atoms (dec_val atoms) decimals fractionDigits)) ∧
  0 ≤ hidden_atoms (dec_val atoms) decimals fractionDigits
    < 10 ^ (decimals - Z.min fractionDigits decimals).
Proof.
  intros Ha Hd Hf.
  destruct (atomsToDisplay_form atoms decimals fractionDigits Ha Hd Hf) as (f & Hfd & Hfl & Hv & ->).
  split; [|apply Z.mod_pos_bound; apply Z.pow_pos_nonneg; lia].
  set (v := dec_val atoms) in *.
  assert (Hv0 : 0 ≤ v) by (apply all_digits_spec in Ha as [_ ?]; by apply dec_val_nonneg).
  assert (Hq : 0 ≤ v / 10 ^ decimals) by (apply Z.div_pos; [done|apply Z.pow_pos_nonneg; lia]).
  assert (E : v = v / 10 ^ decimals * 10 ^ decimals + v mod 10 ^ decimals).
  { rewrite Z.mul_comm. apply Z.div_mod, Z.pow_nonzero; lia. }
  destruct (truthy f) eqn:Et.
  - rewrite humanToAtomic_dotted; try done; [|apply dec_str_nonempty|auto with sovnet|lia].
    unfold amount_atoms. rewrite dec_str_val, Hv by done. repeat f_equal. lia.
  - apply truthy_false in Et as ->. change (dec_val []) with 0 in Hv.
    rewrite humanToAtomic_whole, dec_str_val; [|done|apply dec_str_nonempty|auto with sovnet|lia].
    repeat f_equal. lia.
Qed.

Lemma display_then_parse_witness :
  all_digits (js "1234567890000000000") = true ∧
  humanToAtomic (atomsToDisplay (js "1234567890000000000") 18 4) 18
  = Some (js "1234500000000000000").
Proof.
  split; [reflexivity|].
  apply (display_then_parse (js "1234567890000000000") 18 4); [reflexivity|lia|lia].
Defined.

(** An amount [whole.frac] is converted to exactly
    [whole * 10^decimals + frac * 10^(decimals - |frac|)] atoms, printed in
    canonical form, with surrounding white space ignored; a fraction with more
    digits than the token has is refused. *)
Fact humanToAtomic_exact w f decimals :
  w ≠ [] → digits w → f ≠ [] → digits f → 0 ≤ decimals →
  humanToAtomic (w ++ dot :: f) decimals =
    (if Z.of_nat (length f) <=? decimals
     then Some (dec_str (amount_atoms w f decimals)) else None) ∧
  humanToAtomic (js "  " ++ w ++ dot :: f ++ js " ") decimals
  = humanToAtomic (w ++ dot :: f) decimals.
Proof.
  intros Hw Hwd Hf Hfd Hd. split.
  - destruct (Z.of_nat (length f) <=? decimals) eqn:E; breflect.
    + by apply humanToAtomic_dotted.
    + unfold humanToAtomic. rewrite trim_dotted by done.
      replace (truthy (w ++ dot :: f)) with true by (by destruct w).
      rewrite split_on_app, (split_on_none dot f) by by apply digits_no_dot.
      change (default [] ([w; f] !! 0%nat)) with w. change (default [] ([w; f] !! 1%nat)) with f.
      rewrite !all_digits_true, andb_false_r by done. simpl.
      by rewrite (proj2 (Z.ltb_lt _ _)).
  - unfold humanToAtomic at 1 2. replace (trim (js "  " ++ _)) with (trim (w ++ dot :: f)); [done|].
    rewrite trim_dotted by done. unfold trim.
    rewrite (drop_while_all _ (js "  ")) by (repeat constructor).
    rewrite drop_while_id.
    2: { destruct w as [|c w]; [done|]. simpl. apply is_digit_not_space.
         by apply list.Forall_cons in Hwd as [? _]. }
    change (w ++ dot :: f ++ js " ") with (w ++ (dot :: f) ++ js " "). rewrite app_assoc.
    rewrite drop_while_end_all by (repeat constructor).
    rewrite drop_while_end_id; [done|]. rewrite rev_app_distr. simpl.
    apply Forall_rev in Hfd. destruct (rev f) as [|c r] eqn:E; simpl.
    + done.
    + apply is_digit_not_space. by apply list.Forall_cons in Hfd as [? _].
Qed.

Lemma humanToAtomic_exact_witness :
  humanToAtomic (js "1.25") 8 = Some (js "125000000").
Proof.
  apply (humanToAtomic_exact (js "1") (js "25") 8); [done|repeat constructor|done|repeat constructor|lia].
Defined.

(** A price is the exact quotient truncated at the maximal number of
    fraction digits: no digit within that limit is dropped or rounded, and the
    number of digits shown is between the two bounds of the options. *)
Fact formatAtomicPrice_exact n d opts :
  all_digits n = true → all_digits d = true → dec_val d ≠ 0 → 0 ≤ price_min opts →
  ∃ frac, formatAtomicPrice (Some n) (Some d) opts = dec_str (dec_val n / dec_val d) ++ dot :: frac ∧
    digits frac ∧ price_min opts ≤ Z.of_nat (length frac) ≤ price_max opts ∧
    dec_val frac * 10 ^ (price_max opts - Z.of_nat (length frac))
    = (dec_val n mod dec_val d) * 10 ^ price_max opts / dec_val d.
Proof.
  intros Hn Hd H0 Hm. pose proof Hn as [Hn1 Hn2]%all_digits_spec.
  pose proof Hd as [Hd1 Hd2]%all_digits_spec.
  unfold formatAtomicPrice. cbn [default from_option]. unfold id.
  rewrite !trim_digits, Hn, Hd by done. rewrite !(proj2 (truthy_true _)) by done. simpl.
  rewrite (proj2 (Z.eqb_neq _ _)) by done.
  pose proof (dec_val_nonneg _ Hd2).
  assert (Hr : 0 ≤ dec_val n mod dec_val d < dec_val d) by (apply Z.mod_pos_bound; lia).
  destruct (long_division_spec (Z.to_nat (price_max opts)) _ _ Hr) as (L1 & L2 & L3).
  set (e := long_division _ _ _ []) in *.
  destruct (price_fraction_spec (price_min opts) e L1 Hm) as (P1 & P2 & P3 & P4).
  assert (price_min opts ≤ price_max opts) by (unfold price_max; lia).
  eexists. split; [reflexivity|]. split; [done|]. split; [lia|].
  rewrite P4 by lia.
  rewrite <-(Z2Nat.id (price_max opts)) at 2 by lia. rewrite <-L3. f_equal. f_equal. lia.
Qed.

Lemma formatAtomicPrice_exact_witness :
  (∃ frac, formatAtomicPrice (Some (js "12345")) (Some (js "100000")) None = js "0" ++ dot :: frac
    ∧ dec_val frac * 10 ^ (18 - Z.of_nat (length frac)) = 12345 * 10 ^ 18 / 100000)
  ∧ formatAtomicPrice (Some (js "12345")) (Some (js "100000")) None = js "0.12345000".
Proof.
  split; [|vm_compute; reflexivity].
  destruct (formatAtomicPrice_exact (js "12345") (js "100000") None) as (f & E & _ & _ & V);
    [reflexivity|reflexivity|by vm_compute|by vm_compute|].
  exists f. split; [exact E|exact V].
Defined.

(** The separators put in a number never change its digits: the integer
    part becomes groups of three digits after a head of one to three, joined by
    commas, whose concatenation is the original, and the fraction is kept. *)
Fact regroup_groups prefix w f :
  digits w → w ≠ [] → digits f → f ≠ [] →
  ∃ g gs, grouped w g gs ∧
    regroup prefix (w ++ dot :: f) = prefix ++ join [comma] (g :: gs) ++ dot :: f ∧
    regroup prefix w = prefix ++ join [comma] (g :: gs).
Proof.
  intros Hw Hne Hf Hfne. destruct (add_separators_digits false w Hw Hne) as (g & gs & Hg & E).
  exists g, gs. split; [done|]. split.
  - rewrite regroup_digits by done. rewrite (proj2 (truthy_true f)) by done.
    unfold with_separators. by rewrite E.
  - unfold regroup. rewrite split_on_none by by apply digits_no_dot.
    change (default [] ([w] !! 0%nat)) with w. change (default [] ([w] !! 1%nat)) with ([] : jstr).
    simpl truthy. unfold with_separators. by rewrite E.
Qed.

Lemma regroup_groups_witness :
  ∃ g gs, grouped (js "1234567") g gs ∧
    regroup (js "$") (js "1234567" ++ dot :: js "50") = js "$" ++ join [comma] (g :: gs) ++ dot :: js "50".
Proof.
  destruct (regroup_groups (js "$") (js "1234567") (js "50")) as (g & gs & H1 & H2 & _);
    [repeat constructor|done|repeat constructor|done|].
  exists g, gs. split; [exact H1|exact H2].
Defined.

(** The bridge gate accepts exactly the strings whose trimming is a
    non-empty digit string below [2^128], and returns that trimming. *)
Fact validateAtomsString_iff atoms r :
  validateAtomsString atoms = inr r ↔
  r = trim atoms ∧ r ≠ [] ∧ digits r ∧ 0 ≤ dec_val r < 2 ^ 128.
Proof.
  unfold validateAtomsString. change U128_MAX with (2 ^ 128 - 1). split.
  - destruct (all_digits (trim atoms)) eqn:Ha; simpl; [|done].
    apply all_digits_spec in Ha as [? ?].
    destruct (2 ^ 128 - 1 <? dec_val (trim atoms)) eqn:E; [done|]. breflect. intros [= <-].
    pose proof (dec_val_nonneg (trim atoms)). repeat split; auto; lia.
  - intros (-> & Hne & Hd & Hv). rewrite all_digits_true by done. simpl.
    by rewrite (proj2 (Z.ltb_ge _ _)) by lia.
Qed.

(** Text after a second dot is ignored: an amount with several dots is
    accepted and read as its first two parts, although it is not a number. *)
Fact humanToAtomic_second_dot_ignored w f junk decimals :
  w ≠ [] → digits w → digits f → is_space (List.last junk dot) = false →
  humanToAtomic (w ++ dot :: f ++ dot :: junk) decimals = humanToAtomic (w ++ dot :: f) decimals.
Proof.
  intros Hne Hw Hf Hj. unfold humanToAtomic. rewrite (trim_dotted w f) by done.
  replace (trim (w ++ dot :: f ++ dot :: junk)) with (w ++ dot :: f ++ dot :: junk).
  2: { symmetry. apply trim_id.
       - destruct w as [|c w]; [done|]. simpl. apply is_digit_not_space.
         by apply list.Forall_cons in Hw as [? _].
       - rewrite !rev_app_distr. simpl. rewrite rev_app_distr. simpl.
         destruct (exists_last (l := dot :: junk)) as (l' & x & E); [done|].
         destruct junk as [|y junk]; [done|]. 
         destruct (exists_last (l := y :: junk)) as (l & z & El); [done|].
         rewrite El in *. rewrite last_last in Hj. rewrite rev_app_distr. done. }
  replace (truthy (w ++ dot :: f ++ dot :: junk)) with true by (by destruct w).
  replace (truthy (w ++ dot :: f)) with true by (by destruct w).
  rewrite !split_on_app, (split_on_none dot f) by by apply digits_no_dot.
  destruct (split_on dot junk); done.
Qed.

Lemma humanToAtomic_second_dot_ignored_witness :
  humanToAtomic (js "1.2.abc") 2 = Some (js "120").
Proof.
  transitivity (humanToAtomic (js "1" ++ dot :: js "2") 2); [|vm_compute; reflexivity].
  apply (humanToAtomic_second_dot_ignored (js "1") (js "2") (js "abc") 2);
    [done|repeat constructor|repeat constructor|reflexivity].
Defined.
