(* ===== verification/Identifiers.v ===== *)
(** * Identifiers: src/utils/didValidator.ts, credentials.ts, maskIdentifier.ts
    and the address formatting of src/utils/numbers.ts

    Each regular expression is translated into the character tests of
    [JsString]; [/i] matching is matching of the lower-cased text, which is the
    same on Latin-1 for the letters the patterns use. *)

From stdpp Require Import strings.
From S2P Require Import Prelude JsString.

(** ** Decentralised identifiers *)

Record DidValidationResult := mkDidResult { did_valid : bool; did_error : option jstr }.
Record DidComponents := mkDidComponents { method : jstr; identifier : jstr }.

Definition did_prefix : jstr := js "did:zhtp:".

(** [/^[a-f0-9]{64}$/i] *)
Definition hex64_i (s : jstr) : bool := (length s =? 64)%nat && forallb is_hex s.
(** [/^[a-f0-9]{64}$/] *)
Definition is_lower_hex (c : ascii) : bool := is_digit c || in_range 97 102 c.
Definition hex64 (s : jstr) : bool := (length s =? 64)%nat && forallb is_lower_hex s.

(** [/^did:zhtp:[a-f0-9]{64}$/i] *)
Definition didRegex (did : jstr) : bool :=
  bool_decide (toLowerCase (take 9 did) = did_prefix) && hex64_i (drop 9 did).

Definition isValidDid (did : jstr) : DidValidationResult :=
  if negb (truthy did) then mkDidResult false (Some (js "DID must be a non-empty string"))
  else if negb (didRegex did) then
    mkDidResult false (Some (js "Invalid DID format. Expected: did:zhtp:<64-character-hex>"))
  else
    let hexPart := slice_from 9 did in
    if negb (hex64_i hexPart) then
      mkDidResult false (Some (js "DID contains invalid characters. Only hexadecimal allowed."))
    else mkDidResult true None.

(** [/^did:(\w+):(.+)$/]: the first group stops at the first colon *)
Definition parseDid (did : jstr) : option DidComponents :=
  if startsWith (js "did:") did then
    let rest := drop 4 did in
    let m := take_while is_word rest in
    match drop_while is_word rest with
    | c :: ident =>
        if bool_decide (c = ":"%char) && truthy m && truthy ident
           && forallb (λ c, negb (is_newline c)) ident
        then Some (mkDidComponents m ident) else None
    | [] => None
    end
  else None.

Definition normalizeDid (input : jstr) : jstr :=
  let normalized := toLowerCase (trim input) in
  if hex64 normalized then did_prefix ++ normalized else normalized.

Definition validateAndNormalizeDid (input : jstr) : DidValidationResult * option jstr :=
  let normalized := normalizeDid input in
  let validation := isValidDid normalized in
  if did_valid validation then (validation, Some normalized) else (validation, None).

(** ** Usernames *)

Definition RESERVED_USERNAMES : list jstr :=
  [js "admin"; js "root"; js "system"; js "node"; js "validator"; js "council";
   js "treasury"; js "null"; js "undefined"; js "test"; js "zhtp"; js "sovereign"].

Definition is_username_char (c : ascii) : bool := is_lower c || is_digit c || (code c =? 95).

(** The error message, or [None] for [null]. *)
Definition validateUsername (input : jstr) : option jstr :=
  let u := trim input in
  if (length u <? 3)%nat then Some (js "At least 3 characters.")
  else if (32 <? length u)%nat then Some (js "Maximum 32 characters.")
  else if negb (truthy u && forallb is_username_char u) then
    Some (js "Only lowercase letters, digits, and underscore.")
  else if startsWith (js "_") u || endsWith (js "_") u then
    Some (js "Cannot start or end with underscore.")
  else if bool_decide (u ∈ RESERVED_USERNAMES) then Some (js "That name is reserved.")
  else None.

(** ** Display forms *)

Definition formatWalletAddress (address : jstr) (chars : nat) : jstr :=
  if (length address <=? chars * 2 + 3)%nat then address
  else slice 0 (Z.of_nat chars) address ++ js "..." ++ slice_from (- Z.of_nat chars) address.

Definition formatDID (did : jstr) : jstr :=
  let parts := split_on ":"%char did in
  if (2 <? length parts)%nat then formatWalletAddress (default [] (parts !! 2%nat)) 8
  else formatWalletAddress did 8.

(** [trimmed.replace(/^did:[^:]*:/, '')] *)
Definition strip_did_method (s : jstr) : jstr :=
  if startsWith (js "did:") s then
    match drop_while (λ c, negb (bool_decide (c = ":"%char))) (drop 4 s) with
    | _ :: rest => rest
    | [] => s
    end
  else s.

Definition maskIdentifier (value : option jstr) : jstr :=
  let trimmed := trim (default [] value) in
  if negb (truthy trimmed) then js "<empty>"
  else
    let core := strip_did_method trimmed in
    if (length core <=? 8)%nat then core
    else slice 0 4 core ++ js ".." ++ slice_from (-4) core.

(** * Lemmas *)

Lemma lower_char_code_ascii c : code (lower_char c) < 128 → is_upper c = false → lower_char c = c.
Proof. destruct c as [[] [] [] [] [] [] [] []]; vm_compute; congruence. Qed.

Lemma is_hex_lower c : is_hex c = true → is_lower_hex (lower_char c) = true.
Proof. destruct c as [[] [] [] [] [] [] [] []]; vm_compute; congruence. Qed.

Lemma lower_hex_hex c : is_lower_hex c = true → is_hex c = true.
Proof. destruct c as [[] [] [] [] [] [] [] []]; vm_compute; congruence. Qed.

Lemma lower_hex_fixed c : is_lower_hex c = true → lower_char c = c.
Proof. destruct c as [[] [] [] [] [] [] [] []]; vm_compute; congruence. Qed.

Lemma lower_fixed_hex c : is_hex c = true → lower_char c = c → is_lower_hex c = true.
Proof. destruct c as [[] [] [] [] [] [] [] []]; vm_compute; congruence. Qed.

Lemma lower_hex_space c : is_lower_hex c = true → is_space c = false.
Proof. destruct c as [[] [] [] [] [] [] [] []]; vm_compute; congruence. Qed.

Lemma lower_hex_newline c : is_lower_hex c = true → is_newline c = false.
Proof. destruct c as [[] [] [] [] [] [] [] []]; vm_compute; congruence. Qed.

Lemma lower_char_space c : is_space (lower_char c) = is_space c.
Proof. destruct c as [[] [] [] [] [] [] [] []]; vm_compute; congruence. Qed.

Lemma hex64_spec s : hex64 s = true ↔ length s = 64%nat ∧ Forall (λ c, is_lower_hex c = true) s.
Proof. unfold hex64. by rewrite andb_true_iff, Nat.eqb_eq, forallb_Forall. Qed.

Lemma hex64_i_spec s : hex64_i s = true ↔ length s = 64%nat ∧ Forall (λ c, is_hex c = true) s.
Proof. unfold hex64_i. by rewrite andb_true_iff, Nat.eqb_eq, forallb_Forall. Qed.

Lemma hex64_hex64_i s : hex64 s = true → hex64_i s = true.
Proof.
  rewrite hex64_spec, hex64_i_spec. intros [? H]. split; [done|].
  eapply list.Forall_impl; [exact H|]. apply lower_hex_hex.
Qed.

Lemma toLowerCase_fixed s :
  Forall (λ c, is_lower_hex c = true) s → toLowerCase s = s.
Proof. induction 1 as [|c s Hc _ IH]; simpl; [done|]. by rewrite lower_hex_fixed, IH. Qed.

Lemma lower_fixed_hex64 s : hex64_i s = true → toLowerCase s = s → hex64 s = true.
Proof.
  rewrite hex64_spec, hex64_i_spec. intros [? H] E. split; [done|].
  clear -H E. revert E. induction H as [|c s Hc _ IH]; simpl; intros E; [constructor|].
  injection E as E1 E2. constructor; [by apply lower_fixed_hex|by apply IH].
Qed.

Lemma didRegex_prefix h : didRegex (did_prefix ++ h) = hex64_i h.
Proof. unfold didRegex. rewrite take_app_length', drop_app_length' by done. done. Qed.

(** What the pattern accepts: the prefix in any case, then 64 hex digits. *)
Lemma didRegex_spec s :
  didRegex s = true ↔
  ∃ p h, s = p ++ h ∧ toLowerCase p = did_prefix ∧ hex64_i h = true.
Proof.
  unfold didRegex. rewrite andb_true_iff, bool_decide_eq_true. split.
  - intros [Hp Hh]. exists (take 9 s), (drop 9 s). by rewrite take_drop.
  - intros (p & h & -> & Hp & Hh).
    assert (length p = 9%nat) by (rewrite <-(toLowerCase_length p), Hp; done).
    by rewrite take_app_length', drop_app_length'.
Qed.

Lemma isValidDid_valid s : did_valid (isValidDid s) = didRegex s.
Proof.
  unfold isValidDid. destruct s as [|c s']; [done|]. cbn [truthy negb].
  destruct (didRegex (c :: s')) eqn:E; [|done]. cbn [negb].
  replace (slice_from 9 (c :: s')) with (drop 9 (c :: s')).
  - unfold didRegex in E. apply andb_true_iff in E as [_ ->]. done.
  - unfold didRegex in E. apply andb_true_iff in E as [_ [Hl _]%hex64_i_spec].
    rewrite length_drop in Hl. unfold slice_from, slice_pos. simpl Z.ltb. cbv iota.
    rewrite Nat.min_l by (simpl in *; lia). done.
Qed.

Lemma normalizeDid_lower input : toLowerCase (normalizeDid input) = normalizeDid input.
Proof.
  unfold normalizeDid. destruct (hex64 _) eqn:E; [|apply toLowerCase_idemp].
  unfold toLowerCase at 1. rewrite map_app. fold (toLowerCase (toLowerCase (trim input))).
  by rewrite toLowerCase_idemp.
Qed.

Lemma parseDid_print m i :
  m ≠ [] → Forall (λ c, is_word c = true) m → i ≠ [] → Forall (λ c, is_newline c = false) i →
  parseDid (js "did:" ++ m ++ ":"%char :: i) = Some (mkDidComponents m i).
Proof.
  intros Hm Hw Hi Hn. unfold parseDid. rewrite startsWith_app.
  change (drop 4 (js "did:" ++ m ++ ":"%char :: i)) with (m ++ ":"%char :: i).
  rewrite drop_while_all by done. simpl.
  replace (take_while is_word (m ++ ":"%char :: i)) with m.
  2: { symmetry. clear Hm. induction Hw as [|c m Hc _ IH]; simpl; [done|]. by rewrite Hc, IH. }
  rewrite !(proj2 (truthy_true _)) by done.
  replace (forallb _ i) with true; [done|]. symmetry. apply forallb_Forall.
  eapply list.Forall_impl; [exact Hn|]. by intros c ->.
Qed.

(** * Properties *)

(** What [validateAndNormalizeDid] accepts it returns as the prefix
    [did:zhtp:] followed by 64 lower-case hexadecimal digits; that form parses
    back into method [zhtp] and those digits, and is a fixed point of the
    normalization. *)
Fact normalized_did_canonical input v n :
  validateAndNormalizeDid input = (v, Some n) →
  ∃ h, n = did_prefix ++ h ∧ hex64 h = true ∧
    parseDid n = Some (mkDidComponents (js "zhtp") h) ∧
    validateAndNormalizeDid n = (v, Some n).
Proof.
  unfold validateAndNormalizeDid at 1.
  destruct (did_valid (isValidDid (normalizeDid input))) eqn:Hv; [|done]. intros [= <- <-].
  pose proof Hv as Hr. rewrite isValidDid_valid in Hr. apply didRegex_spec in Hr as (p & h & E & Hp & Hh).
  pose proof (normalizeDid_lower input) as Hl. rewrite E in Hl.
  unfold toLowerCase in Hl. rewrite map_app in Hl. fold (toLowerCase p) (toLowerCase h) in Hl.
  apply app_inj_1 in Hl as [Hp' Hh']; [|apply toLowerCase_length]. rewrite Hp in Hp'. subst p.
  assert (H64 : hex64 h = true) by by apply lower_fixed_hex64.
  pose proof H64 as [Hlen Hall]%hex64_spec.
  exists h. split; [done|]. split; [done|]. split.
  - rewrite E. change (did_prefix ++ h) with (js "did:" ++ js "zhtp" ++ ":"%char :: h).
    apply parseDid_print; [done|by repeat constructor|by destruct h|].
    eapply list.Forall_impl; [exact Hall|]. apply lower_hex_newline.
  - unfold validateAndNormalizeDid.
    assert (En : normalizeDid (normalizeDid input) = normalizeDid input).
    { rewrite E. unfold normalizeDid.
      assert (Ht : trim (did_prefix ++ h) = did_prefix ++ h).
      { apply trim_no_space, Forall_app. split; [by repeat constructor|].
        eapply list.Forall_impl; [exact Hall|]. apply lower_hex_space. }
      rewrite Ht. replace (toLowerCase (did_prefix ++ h)) with (did_prefix ++ h).
      2: { unfold toLowerCase. rewrite map_app. f_equal. symmetry. by apply toLowerCase_fixed. }
      destruct (hex64 (did_prefix ++ h)) eqn:Ex; [|done].
      apply hex64_spec in Ex as [Ex _]. rewrite length_app, Hlen in Ex. simpl in Ex. lia. }
    by rewrite En, Hv.
Qed.

Lemma normalized_did_canonical_witness :
  ∃ v n h, validateAndNormalizeDid (js " DID:ZHTP:0123456789ABCDEF0123456789abcdef0123456789abcdef0123456789abcdef ")
    = (v, Some n) ∧ n = did_prefix ++ h.
Proof.
  eexists _, _, _. split; [vm_compute; reflexivity|].
  destruct (normalized_did_canonical
    (js " DID:ZHTP:0123456789ABCDEF0123456789abcdef0123456789abcdef0123456789abcdef ") _ _
    ltac:(vm_compute; reflexivity)) as (h & E & _).
  vm_compute. reflexivity.
Defined.

(** A DID is valid exactly when it is [did:zhtp:] in any case followed by 64
    hexadecimal digits; the last check of [isValidDid] never fails, so its
    message is never returned, and every refusal carries a message. *)
Fact isValidDid_iff s :
  (did_valid (isValidDid s) = true ↔
    ∃ p h, s = p ++ h ∧ toLowerCase p = did_prefix ∧ hex64_i h = true) ∧
  did_error (isValidDid s) ≠ Some (js "DID contains invalid characters. Only hexadecimal allowed.") ∧
  (did_valid (isValidDid s) = false ↔ is_Some (did_error (isValidDid s))).
Proof.
  rewrite isValidDid_valid, didRegex_spec. split; [done|].
  pose proof (isValidDid_valid s) as Hv. revert Hv. unfold isValidDid.
  destruct (negb (truthy s)); [simpl; intros <-; split; [done|]; split; [by eexists|done]|].
  destruct (didRegex s) eqn:E; simpl.
  - destruct (negb (hex64_i (slice_from 9 s))); simpl; [done|].
    intros _. split; [done|]. split; [done|by intros []].
  - intros _. split; [done|]. split; [by eexists|done].
Qed.

(** A username is accepted exactly when, trimmed, it has 3 to 32 characters
    of [a-z0-9_], neither starts nor ends with an underscore and is not
    reserved. *)
Fact validateUsername_iff input :
  validateUsername input = None ↔
  let u := trim input in
  (3 ≤ length u ≤ 32)%nat ∧ Forall (λ c, is_username_char c = true) u ∧
  ¬ (∃ t, u = js "_" ++ t) ∧ ¬ (∃ t, u = t ++ js "_") ∧ u ∉ RESERVED_USERNAMES.
Proof.
  unfold validateUsername. set (u := trim input). cbv zeta.
  destruct (length u <? 3)%nat eqn:E1; breflect; [split; [done|lia]|].
  destruct (32 <? length u)%nat eqn:E2; breflect; [split; [done|lia]|].
  replace (truthy u) with true by (destruct u; [simpl in E1; lia|done]). rewrite andb_true_l.
  destruct (forallb is_username_char u) eqn:E3; simpl.
  2: { split; [done|]. intros (_ & H & _). apply forallb_Forall in H. congruence. }
  apply forallb_Forall in E3.
  rewrite <-(startsWith_spec (js "_") u), <-(endsWith_spec (js "_") u).
  destruct (startsWith (js "_") u), (endsWith (js "_") u); simpl;
    try (split; [done|]; intros (_ & _ & H1 & H2 & _); first [by destruct H1|by destruct H2]).
  case_bool_decide as E4.
  - split; [done|]. intros (_ & _ & _ & _ & H). by destruct H.
  - split; [|done]. intros _. repeat split; auto.
Qed.

(** A masked identifier shows at most eight characters of the identifier:
    for a longer core it is determined by the first and the last four. *)
Fact maskIdentifier_hides v1 v2 :
  let core v := strip_did_method (trim v) in
  (8 < length (core v1))%nat → (8 < length (core v2))%nat →
  take 4 (core v1) = take 4 (core v2) → last_n 4 (core v1) = last_n 4 (core v2) →
  maskIdentifier (Some v1) = maskIdentifier (Some v2) ∧ length (maskIdentifier (Some v1)) = 10%nat.
Proof.
  intros core H1 H2 Ht Hl.
  assert (Hm : ∀ v, (8 < length (core v))%nat →
    maskIdentifier (Some v) = take 4 (core v) ++ js ".." ++ last_n 4 (core v)).
  { intros v Hv. unfold maskIdentifier. cbn [default from_option]. unfold id.
    replace (truthy (trim v)) with true.
    2: { unfold core in Hv. destruct (trim v); [|done]. simpl in Hv. lia. }
    fold (core v). simpl negb. cbv iota. rewrite (proj2 (Nat.leb_gt _ _)) by lia.
    rewrite slice_0 by lia. by rewrite <-slice_from_neg. }
  rewrite !Hm by done. split; [by rewrite Ht, Hl|].
  rewrite !length_app, last_n_length, length_take. change (length (js "..")) with 2%nat. lia.
Qed.

Lemma maskIdentifier_hides_witness :
  maskIdentifier (Some (js "did:zhtp:abcd11112222wxyz")) = maskIdentifier (Some (js "abcd000000000wxyz")).
Proof.
  apply (maskIdentifier_hides (js "did:zhtp:abcd11112222wxyz") (js "abcd000000000wxyz"));
    vm_compute; try reflexivity; lia.
Defined.
