(* ===== verification/DomainValidation.v ===== *)
(** * Domain names: src/utils/domainValidation.ts *)

From stdpp Require Import strings.
From S2P Require Import Prelude JsString.

Record DomainValidationResult := mkDomainResult {
  dv_valid : bool;
  dv_errors : list jstr;
  dv_classification : option jstr;
  dv_isReserved : option bool;
}.

Definition RESERVED_WELFARE_SECTORS : list jstr :=
  [js "food"; js "health"; js "edu"; js "housing"; js "energy"].
Definition META_GOVERNANCE_ROOT : jstr := js "dao".

Definition ldot : ascii := "."%char.
Definition suffix : jstr := js ".sov".

(** [[a-z0-9-]] *)
Definition is_label_char (c : ascii) : bool := is_lower c || is_digit c || (code c =? 45).

Definition classifyDomain (labels : list jstr) : jstr :=
  let n := length labels in
  if (n =? 0)%nat then js "commercial"
  else if (n =? 1)%nat && bool_decide (labels !! 0%nat = Some META_GOVERNANCE_ROOT)
  then js "reserved_meta"
  else if (n =? 2)%nat && bool_decide (labels !! 1%nat = Some META_GOVERNANCE_ROOT)
          && bool_decide (default [] (labels !! 0%nat) ∈ RESERVED_WELFARE_SECTORS)
  then js "reserved_welfare"
  else if (2 <=? n)%nat && bool_decide (List.last labels [] ∈ RESERVED_WELFARE_SECTORS)
  then js "welfare_delegated"
  else js "commercial".

Definition isReservedDomain (domain : jstr) : bool :=
  let normalizedDomain := trim (toLowerCase domain) in
  bool_decide (normalizedDomain = js "dao.sov")
  || existsb (λ sector, bool_decide (normalizedDomain = sector ++ js ".dao.sov"))
       RESERVED_WELFARE_SECTORS.

(** The message one iteration of the label loop pushes. *)
Definition label_error (i : nat) (label : jstr) : option jstr :=
  let tag := js "Label " ++ dec_str (Z.of_nat i + 1) in
  if (length label =? 0)%nat then Some (tag ++ js ": Cannot be empty")
  else if (63 <? length label)%nat then Some (tag ++ js ": Cannot exceed 63 characters")
  else if negb (truthy label && forallb is_label_char label) then
    Some (tag ++ js ": Contains invalid characters (only lowercase a-z, 0-9, and hyphens allowed)")
  else if startsWith (js "-") label || endsWith (js "-") label then
    Some (tag ++ js ": Cannot start or end with hyphen")
  else None.

Fixpoint label_errors (i : nat) (labels : list jstr) : list jstr :=
  match labels with
  | [] => []
  | l :: ls => option_list (label_error i l) ++ label_errors (S i) ls
  end.

Definition reservation_reason (normalizedDomain : jstr) (labels : list jstr) : jstr :=
  if bool_decide (normalizedDomain = js "dao.sov") then js "Reserved for meta-governance root"
  else if endsWith (js ".dao.sov") normalizedDomain then
    js "Reserved welfare sector - cannot register under .dao.sov"
  else if (1 <? length labels)%nat && bool_decide (labels !! 0%nat = Some META_GOVERNANCE_ROOT) then
    js "Requires ownership of the parent domain"
  else [].

Definition validateDomainFormat (domain : jstr) : DomainValidationResult :=
  if negb (truthy domain) then mkDomainResult false [js "Domain is required"] None None else
  let normalizedDomain := trim (toLowerCase domain) in
  if negb (endsWith suffix normalizedDomain) then
    mkDomainResult false [js "Domain must end with .sov"] None None
  else
  let domainWithoutSuffix := slice 0 (-4) normalizedDomain in
  if negb (truthy domainWithoutSuffix) then
    mkDomainResult false [js "Domain cannot be just " ++ "034"%char :: js ".sov" ++ ["034"%char]] None None
  else
  let labels := split_on ldot domainWithoutSuffix in
  let errors :=
    (if (8 <? length labels)%nat then [js "Domain can have maximum 8 levels (labels)"] else [])
    ++ label_errors 0 labels
    ++ (if (253 <? length normalizedDomain)%nat then [js "Domain cannot exceed 253 characters"] else []) in
  if (0 <? length errors)%nat then mkDomainResult false errors None None
  else
  let classification := classifyDomain labels in
  if isReservedDomain normalizedDomain then
    mkDomainResult false
      (errors ++ [js "Reserved domain: " ++ reservation_reason normalizedDomain labels])
      (Some classification) (Some true)
  else mkDomainResult true [] (Some classification) (Some false).

Definition getClassificationLabel (classification : jstr) : jstr :=
  if bool_decide (classification = js "commercial") then js "Commercial"
  else if bool_decide (classification = js "welfare_delegated") then js "Welfare Delegated"
  else if bool_decide (classification = js "reserved_welfare") then js "Reserved Welfare"
  else if bool_decide (classification = js "reserved_meta") then js "Reserved Meta-Governance"
  else js "Unknown".

Definition getClassificationDescription (classification : jstr) : jstr :=
  if bool_decide (classification = js "commercial") then js "Standard commercial domain"
  else if bool_decide (classification = js "welfare_delegated") then js "Delegated welfare sector domain"
  else if bool_decide (classification = js "reserved_welfare") then js "Reserved for welfare sector governance"
  else if bool_decide (classification = js "reserved_meta") then js "Reserved for meta-governance"
  else [].

(** ** Durations *)

(** [parseInt(s, 10)]: white space, a sign, the longest run of digits; [None] is [NaN]. *)
Definition parseInt10 (s : jstr) : option Z :=
  let t := drop_while is_space s in
  let '(sign, r) := match t with
    | c :: r => if bool_decide (c = "-"%char) then (-1, r)
                else if bool_decide (c = "+"%char) then (1, r) else (1, t)
    | [] => (1, [])
    end in
  let ds := take_while is_digit r in
  if truthy ds then Some (sign * dec_val ds) else None.

Record DurationResult := mkDuration { dur_valid : bool; dur_error : option jstr }.

(** A [number] argument is an integer or [NaN] ([None]). *)
Definition validateDomainDuration (days : option Z + jstr) : DurationResult :=
  let daysNum := match days with inl n => n | inr s => parseInt10 s end in
  match daysNum with
  | None => mkDuration false (Some (js "Duration must be a number"))
  | Some d =>
      if d <? 1 then mkDuration false (Some (js "Duration must be at least 1 day"))
      else if 3650 <? d then mkDuration false (Some (js "Duration cannot exceed 10 years"))
      else mkDuration true None
  end.

Definition yearsToDays (years : option Z + jstr) : option Z :=
  let yearsNum := match years with inl n => n | inr s => parseInt10 s end in
  (λ y, y * 365) <$> yearsNum.

(** * The specification of a name *)

Record label_ok (l : jstr) : Prop := {
  label_len : (1 ≤ length l ≤ 63)%nat;
  label_chars : Forall (λ c, is_label_char c = true) l;
  label_no_lead : ¬ ∃ t, l = js "-" ++ t;
  label_no_trail : ¬ ∃ t, l = t ++ js "-";
}.

(** A registrable name: at most eight labels, at most 253 characters with the
    suffix, every label well formed. *)
Record name_ok (labels : list jstr) : Prop := {
  name_labels : (1 ≤ length labels ≤ 8)%nat;
  name_label_ok : Forall label_ok labels;
  name_len : (length (join [ldot] labels ++ suffix) ≤ 253)%nat;
}.

(** * Lemmas *)

Lemma label_error_None i l : label_error i l = None ↔ label_ok l.
Proof.
  unfold label_error.
  destruct (length l =? 0)%nat eqn:E1; breflect; [split; [done|intros [? _ _ _]; lia]|].
  destruct (63 <? length l)%nat eqn:E2; breflect; [split; [done|intros [? _ _ _]; lia]|].
  replace (truthy l) with true by (destruct l; [simpl in E1; lia|done]). rewrite andb_true_l.
  destruct (forallb is_label_char l) eqn:E3; simpl.
  2: { split; [done|]. intros [_ H _ _]. apply forallb_Forall in H. congruence. }
  apply forallb_Forall in E3.
  destruct (startsWith (js "-") l) eqn:E4; simpl.
  { split; [done|]. intros [_ _ H _]. destruct H. by apply startsWith_spec. }
  destruct (endsWith (js "-") l) eqn:E5; simpl.
  { split; [done|]. intros [_ _ _ H]. destruct H. by apply endsWith_spec. }
  split; [intros _|done]. constructor; [lia|done| |].
  - intros H%startsWith_spec. congruence.
  - intros H%endsWith_spec. congruence.
Qed.

Lemma label_errors_nil i ls : label_errors i ls = [] ↔ Forall label_ok ls.
Proof.
  revert i. induction ls as [|l ls IH]; intros i; simpl; [done|].
  rewrite list.Forall_cons, <-(label_error_None i l), <-(IH (S i)).
  destruct (label_error i l); simpl; [|tauto]. split; [done|]. by intros [? _].
Qed.

Lemma label_ok_no_dot l : label_ok l → ldot ∉ l.
Proof.
  intros [_ H _ _] Hin. rewrite list.Forall_forall in H. specialize (H _ Hin). vm_compute in H. done.
Qed.

Lemma split_on_join sep ls :
  ls ≠ [] → Forall (λ l, sep ∉ l) ls → split_on sep (join [sep] ls) = ls.
Proof.
  intros Hne H. induction H as [|l ls Hl Hls IH]; [done|].
  destruct ls as [|l' ls]; [by apply split_on_none|].
  change (join [sep] (l :: l' :: ls)) with (l ++ sep :: join [sep] (l' :: ls)).
  rewrite split_on_app by done. f_equal. by apply IH.
Qed.


Lemma slice_sov (s : jstr) : slice 0 (-4) (s ++ suffix) = s.
Proof.
  unfold slice, slice_pos. rewrite length_app. change (length suffix) with 4%nat.
  rewrite (proj2 (Z.ltb_lt (-4) 0)) by lia. change (0 <? 0) with false. cbv iota.
  cbn [Z.to_nat Nat.min]. rewrite drop_0.
  replace (_ - 0)%nat with (length s) by lia. apply take_app_length.
Qed.

Lemma normalized_idemp d : trim (toLowerCase (trim (toLowerCase d))) = trim (toLowerCase d).
Proof.
  assert (toLowerCase (trim (toLowerCase d)) = trim (toLowerCase d)) as ->; [|apply trim_idemp].
  assert (Forall (λ c, lower_char c = c) (toLowerCase d)) as H.
  { unfold toLowerCase. apply list.Forall_forall. intros c Hc.
    apply list_elem_of_In, in_map_iff in Hc as (e & <- & _). apply lower_char_idemp. }
  apply (trim_Forall _ _) in H. revert H. generalize (trim (toLowerCase d)).
  induction 1 as [|c s Hc _ IH]; simpl; [done|]. by rewrite Hc, IH.
Qed.

(** Everything the function checks before the reservation rules. *)
Lemma validate_form d :
  let n := trim (toLowerCase d) in
  (∃ labels, n = join [ldot] labels ++ suffix ∧ name_ok labels ∧
     validateDomainFormat d =
       if isReservedDomain n
       then mkDomainResult false [js "Reserved domain: " ++ reservation_reason n labels]
              (Some (classifyDomain labels)) (Some true)
       else mkDomainResult true [] (Some (classifyDomain labels)) (Some false))
  ∨ (dv_valid (validateDomainFormat d) = false ∧ dv_errors (validateDomainFormat d) ≠ [] ∧
     dv_isReserved (validateDomainFormat d) = None ∧
     ∀ labels, n = join [ldot] labels ++ suffix → ¬ name_ok labels).
Proof.
  intros n. unfold validateDomainFormat. fold n.
  destruct (truthy d) eqn:Ed; simpl.
  2: { right. repeat split; [done|]. intros labels E _. apply truthy_false in Ed as ->.
       apply (f_equal length) in E. rewrite length_app in E. change (length suffix) with 4%nat in E. change (length n) with 0%nat in E. lia. }
  destruct (endsWith suffix n) eqn:Es; simpl.
  2: { right. repeat split; [done|]. intros labels E _. 
       assert (endsWith suffix n = true) by (apply endsWith_spec; by eexists). congruence. }
  apply endsWith_spec in Es as [w En]. rewrite En, slice_sov.
  destruct (truthy w) eqn:Ew; simpl.
  2: { right. repeat split; [done|]. intros labels E [Hl Hok _]. apply truthy_false in Ew as ->.
       apply (app_inj_2 _ _ suffix suffix) in E as [E _]; [|done].
       destruct labels as [|l ls]; [simpl in Hl; lia|].
       apply list.Forall_cons in Hok as [[Hlen _ _ _] _]. destruct l; [simpl in Hlen; lia|].
       by destruct ls. }
  apply truthy_true in Ew. set (labels := split_on ldot w).
  assert (Ej : join [ldot] labels = w) by apply join_split_on.
  assert (Hl1 : (1 ≤ length labels)%nat).
  { pose proof (split_on_nonempty ldot w). fold labels in H. destruct labels; [done|simpl; lia]. }
  assert (Huniq : ∀ ls, w ++ suffix = join [ldot] ls ++ suffix → name_ok ls → ls = labels).
  { intros ls E [Hl Hok _]. apply (app_inj_2 _ _ suffix suffix) in E as [E _]; [|done].
    unfold labels. rewrite E. symmetry. apply split_on_join; [by destruct ls; [simpl in Hl; lia|]|].
    eapply list.Forall_impl; [exact Hok|]. apply label_ok_no_dot. }
  destruct (8 <? length labels)%nat eqn:E8; breflect.
  { right. simpl. repeat split; [done|]. intros ls E Hok.
    pose proof (Huniq ls E Hok) as ->. destruct Hok as [? _ _]. lia. }
  destruct (label_errors 0 labels) as [|e es] eqn:El; simpl.
  2: { right. simpl. repeat split; [done|]. intros ls E Hok. pose proof (Huniq ls E Hok) as ->.
       destruct Hok as [_ Hok _]. apply (label_errors_nil 0) in Hok. congruence. }
  destruct (253 <? length (w ++ suffix))%nat eqn:E253; breflect; simpl.
  { right. repeat split; [done|]. intros ls E Hok. pose proof (Huniq ls E Hok) as ->.
    destruct Hok as [_ _ Hok]. rewrite Ej in Hok. lia. }
  left. exists labels. rewrite Ej. split; [done|]. split; [|done].
  constructor; [lia|by apply (label_errors_nil 0)|by rewrite Ej].
Qed.

Lemma reserved_dao labels :
  Forall (λ l, ldot ∉ l) labels → labels ≠ [] →
  isReservedDomain (trim (toLowerCase (join [ldot] labels ++ suffix))) = false →
  trim (toLowerCase (join [ldot] labels ++ suffix)) = join [ldot] labels ++ suffix →
  labels ≠ [js "dao"] ∧ ∀ s, s ∈ RESERVED_WELFARE_SECTORS → labels ≠ [s; js "dao"].
Proof.
  intros _ _ Hr En. rewrite En in Hr. unfold isReservedDomain in Hr. rewrite En in Hr.
  apply orb_false_iff in Hr as [H1 H2]. apply bool_decide_eq_false in H1. split.
  - intros ->. by destruct H1.
  - intros s Hs ->. apply not_true_iff_false in H2. destruct H2. apply existsb_Exists.
    apply list.Exists_exists. exists s. split; [done|]. apply bool_decide_eq_true.
    simpl. rewrite <-app_assoc. done.
Qed.

(** * Properties *)

(** A domain is accepted exactly when, lower-cased and trimmed, it is a
    list of at most eight well-formed labels followed by [.sov], at most 253
    characters long, and is not reserved; a refusal always carries a message. *)
Fact validateDomainFormat_iff d :
  let n := trim (toLowerCase d) in
  (dv_valid (validateDomainFormat d) = true ↔
    ∃ labels, n = join [ldot] labels ++ suffix ∧ name_ok labels ∧ isReservedDomain n = false) ∧
  (dv_valid (validateDomainFormat d) = false ↔ dv_errors (validateDomainFormat d) ≠ []).
Proof.
  intros n. destruct (validate_form d) as [(labels & En & Hok & ->)|(Hv & He & _ & Hno)].
  - fold n in En |- *. destruct (isReservedDomain n) eqn:Hr; simpl.
    + split; [|done]. split; [done|]. by intros (? & _ & _ & ?).
    + split; [|done]. split; [|done]. intros _. by exists labels.
  - rewrite Hv. split; [|done]. split; [done|]. intros (labels & E & Hok & _).
    by destruct (Hno labels).
Qed.

(** An accepted domain is never classified as reserved: it is
    [welfare_delegated] exactly when it has at least two labels and the last is
    a welfare sector, and [commercial] otherwise. *)
Fact accepted_classification d :
  dv_valid (validateDomainFormat d) = true →
  ∃ labels, trim (toLowerCase d) = join [ldot] labels ++ suffix ∧
    dv_classification (validateDomainFormat d)
    = Some (if (2 <=? length labels)%nat && bool_decide (List.last labels [] ∈ RESERVED_WELFARE_SECTORS)
            then js "welfare_delegated" else js "commercial").
Proof.
  intros Hv. destruct (validate_form d) as [(labels & En & Hok & Ev)|(Hv' & _)]; [|congruence].
  rewrite Ev in Hv |- *. destruct (isReservedDomain _) eqn:Hr; [done|]. clear Hv Ev.
  exists labels. split; [done|]. simpl. f_equal.
  assert (Hnd : Forall (λ l, ldot ∉ l) labels).
  { eapply list.Forall_impl; [exact (name_label_ok _ Hok)|]. apply label_ok_no_dot. }
  assert (Hne : labels ≠ []) by (destruct (name_labels _ Hok); by destruct labels; simpl in *; [lia|]).
  assert (En' : trim (toLowerCase (join [ldot] labels ++ suffix)) = join [ldot] labels ++ suffix)
    by (rewrite <-En; apply normalized_idemp).
  destruct (reserved_dao labels Hnd Hne) as [H1 H2]; [by rewrite En', <-En|done|].
  unfold classifyDomain. destruct labels as [|l [|l' [|l'' ls]]]; [done| | |done].
  - simpl. case_bool_decide as E; [|done]. injection E as ->. by destruct H1.
  - cbn [length Nat.eqb Nat.leb andb]. change ([l; l'] !! 1%nat) with (Some l').
    change (default [] ([l; l'] !! 0%nat)) with l.
    case_bool_decide as E1; [|done]. injection E1 as ->.
    case_bool_decide as E2; [|done]. by destruct (H2 l E2).
Qed.

Lemma accepted_classification_witness :
  dv_valid (validateDomainFormat (js "Kitchen.Food.sov")) = true ∧
  ∃ labels, trim (toLowerCase (js "Kitchen.Food.sov")) = join [ldot] labels ++ suffix.
Proof.
  split; [vm_compute; reflexivity|].
  destruct (accepted_classification (js "Kitchen.Food.sov")) as (labels & E & _);
    [vm_compute; reflexivity|]. exists labels. exact E.
Defined.

(** Only the five sector names are refused under [dao.sov]: any other
    well-formed label [l] gives a name [l.dao.sov] that is accepted as
    commercial, without the ownership check the third reservation reason
    announces. *)
Fact label_under_dao_accepted l :
  label_ok l → l ∉ RESERVED_WELFARE_SECTORS →
  validateDomainFormat (l ++ js ".dao.sov")
  = mkDomainResult true [] (Some (js "commercial")) (Some false).
Proof.
  intros Hl Hs.
  assert (Hlow : Forall (λ c, lower_char c = c ∧ is_space c = false) l).
  { destruct Hl as [_ H _ _]. eapply list.Forall_impl; [exact H|].
    intros c. destruct c as [[] [] [] [] [] [] [] []]; vm_compute; intuition congruence. }
  assert (En : trim (toLowerCase (l ++ js ".dao.sov")) = l ++ js ".dao.sov").
  { assert (toLowerCase (l ++ js ".dao.sov") = l ++ js ".dao.sov") as ->.
    { unfold toLowerCase. rewrite map_app. f_equal.
      clear -Hlow. induction Hlow as [|c s [Hc _] _ IH]; simpl; [done|]. by rewrite Hc, IH. }
    apply trim_no_space, Forall_app. split; [|by repeat constructor].
    eapply list.Forall_impl; [exact Hlow|]. by intros ? [? ?]. }
  assert (Ej : l ++ js ".dao.sov" = join [ldot] [l; js "dao"] ++ suffix) by (simpl; by rewrite <-app_assoc).
  assert (Hdao : label_ok (js "dao")).
  { apply (label_error_None 0). vm_compute. reflexivity. }
  assert (Hnok : name_ok [l; js "dao"]).
  { pose proof (label_len _ Hl) as Hlen.
    constructor; [simpl; lia|constructor; [done|constructor; [done|constructor]]|].
    rewrite <-Ej, length_app.
    change (length (js ".dao.sov")) with 8%nat. lia. }
  assert (Hr : isReservedDomain (l ++ js ".dao.sov") = false).
  { unfold isReservedDomain. rewrite En. apply orb_false_iff. split.
    - apply bool_decide_eq_false. intros E. apply (f_equal length) in E.
      destruct Hl as [Hlen _ _ _]. rewrite length_app in E.
      change (length (js ".dao.sov")) with 8%nat in E. change (length (js "dao.sov")) with 7%nat in E. lia.
    - apply not_true_iff_false. intros H. apply existsb_Exists, list.Exists_exists in H as (s & Hin & E).
      apply bool_decide_eq_true in E. apply (app_inj_2 _ _ _ _) in E as [E _]; [|done]. by subst. }
  destruct (validate_form (l ++ js ".dao.sov")) as [(labels & E & Hok & ->)|(_ & _ & _ & Hno)].
  2: { exfalso. apply (Hno [l; js "dao"]); [by rewrite En|done]. }
  rewrite En in E |- *. rewrite Hr. do 2 f_equal.
  assert (labels = [l; js "dao"]) as ->.
  { rewrite Ej in E. apply (app_inj_2 _ _ suffix suffix) in E as [E _]; [|done].
    assert (Hnd : ∀ ls, name_ok ls → split_on ldot (join [ldot] ls) = ls).
    { intros ls [Hn Hl' _]. apply split_on_join; [by destruct ls; [simpl in Hn; lia|]|].
      eapply list.Forall_impl; [exact Hl'|]. apply label_ok_no_dot. }
    rewrite <-(Hnd labels Hok), <-E. by apply Hnd. }
  unfold classifyDomain. cbn [length Nat.eqb Nat.leb andb].
  change (default [] ([l; js "dao"] !! 0%nat)) with l.
  rewrite (bool_decide_eq_false_2 (l ∈ _)) by done. rewrite andb_false_r. reflexivity.
Qed.

Lemma label_under_dao_accepted_witness :
  dv_valid (validateDomainFormat (js "parks.dao.sov")) = true.
Proof.
  change (js "parks.dao.sov") with (js "parks" ++ js ".dao.sov").
  rewrite (label_under_dao_accepted (js "parks")).
  - reflexivity.
  - apply (label_error_None 0). vm_compute. reflexivity.
  - apply (bool_decide_eq_false_1 _). vm_compute. reflexivity.
Defined.

(** A duration is accepted exactly from 1 to 3650 days, whether it comes as
    a number or as text, and ten years is the longest that [yearsToDays]
    produces an accepted duration for. *)
Fact validateDomainDuration_iff days :
  (dur_valid (validateDomainDuration days) = true ↔
    ∃ d, match days with inl n => n | inr s => parseInt10 s end = Some d ∧ 1 ≤ d ≤ 3650) ∧
  (∀ y, dur_valid (validateDomainDuration (inl (yearsToDays (inl (Some y))))) = true ↔ 1 ≤ y ≤ 10).
Proof.
  assert (H : ∀ ds, dur_valid (validateDomainDuration ds) = true ↔
    ∃ d, match ds with inl n => n | inr s => parseInt10 s end = Some d ∧ 1 ≤ d ≤ 3650).
  { intros ds. unfold validateDomainDuration.
    destruct (match ds with inl n => n | inr s => parseInt10 s end) as [d|]; simpl.
    2: { split; [done|]. by intros (? & ? & _). }
    destruct (d <? 1) eqn:E1; breflect; simpl.
    { split; [done|]. intros (? & [= <-] & ?). lia. }
    destruct (3650 <? d) eqn:E2; breflect; simpl.
    { split; [done|]. intros (? & [= <-] & ?). lia. }
    split; [|done]. intros _. exists d. split; [done|lia]. }
  split; [apply H|]. intros y. rewrite H. simpl. split.
  - intros (d & [= <-] & ?). lia.
  - intros ?. exists (y * 365). split; [done|lia].
Qed.
