(* ===== verification/PasswordPolicy.v ===== *)
(** * The password policy: src/utils/passwordValidator.ts *)

From stdpp Require Import strings.
From S2P Require Import Prelude JsString.

Inductive Strength := weak | fair | good | strong.
#[export] Instance strength_eq_dec : EqDecision Strength.
Proof. solve_decision. Defined.

Record PasswordValidationResult := mkPwResult {
  pw_valid : bool;
  pw_errors : list jstr;
  pw_strength : Strength;
  pw_score : Z;
}.

Definition COMMON_PASSWORDS : list jstr :=
  [js "password"; js "password123"; js "123456"; js "12345678"; js "qwerty"; js "abc123";
   js "letmein"; js "welcome"; js "admin"; js "login"; js "passw0rd"; js "pass123";
   js "password1"; js "admin123"; js "root"; js "toor"; js "000000"; js "111111"; js "dragon";
   js "sunshine"; js "iloveyou"; js "master"; js "monkey"; js "shadow"; js "superman";
   js "batman"; js "trustno1"].

Definition keyboardPatterns : list jstr :=
  [js "qwerty"; js "asdfgh"; js "zxcvbn"; js "12345"; js "67890"; js "qwertyuiop";
   js "asdfghjkl"; js "zxcvbnm"].

(** The alternatives of the regular expression for sequential characters. *)
Definition sequentialPatterns : list jstr :=
  [js "abc"; js "bcd"; js "cde"; js "def"; js "efg"; js "fgh"; js "ghi"; js "hij"; js "ijk";
   js "jkl"; js "klm"; js "lmn"; js "mno"; js "nop"; js "opq"; js "pqr"; js "qrs"; js "rst";
   js "stu"; js "tuv"; js "uvw"; js "vwx"; js "wxy"; js "xyz"].

(** [[!@#$%^&*()_+\-=\[\]{};':DQUOTE\\|,.<>\/?]] *)
Definition special_chars : jstr :=
  js "!@#$%^&*()_+-=[]{};':" ++ "034"%char :: js "\|,.<>/?".
Definition is_special (c : ascii) : bool := bool_decide (c ∈ special_chars).

(** [/(.)\1{2,}/] *)
Fixpoint repeated3 (s : jstr) : bool :=
  match s with
  | a :: ((b :: c :: _) as t) =>
      (bool_decide (a = b) && bool_decide (b = c) && negb (is_newline a)) || repeated3 t
  | _ => false
  end.

(** The rules in the order of the code: a failed rule pushes its message and
    deducts its points. *)
Record Rule := mkRule { rule_fails : jstr → bool; rule_msg : jstr; rule_cost : Z }.

Definition contains (p : ascii → bool) (s : jstr) : bool := existsb p s.

Definition rules : list Rule :=
  [ mkRule (λ p, length p <? 12)%nat (js "Password must be at least 12 characters long") 30;
    mkRule (λ p, 128 <? length p)%nat (js "Password must not exceed 128 characters") 20;
    mkRule (λ p, negb (contains is_upper p)) (js "Password must contain at least one uppercase letter (A-Z)") 15;
    mkRule (λ p, negb (contains is_lower p)) (js "Password must contain at least one lowercase letter (a-z)") 15;
    mkRule (λ p, negb (contains is_digit p)) (js "Password must contain at least one number (0-9)") 15;
    mkRule (λ p, negb (contains is_special p)) (js "Password must contain at least one special character (!@#$%^&*...)") 15;
    mkRule (λ p, bool_decide (toLowerCase p ∈ COMMON_PASSWORDS)) (js "Password is too common. Please choose a unique password") 20;
    mkRule (λ p, existsb (λ q, includes q (toLowerCase p)) sequentialPatterns) (js "Password should not contain sequential characters (abc, xyz, etc.)") 10;
    mkRule repeated3 (js "Password should not contain repeating characters (aaa, 111, etc.)") 10;
    mkRule (λ p, existsb (λ q, includes q (toLowerCase p)) keyboardPatterns) (js "Password should not contain keyboard patterns (qwerty, asdfgh, etc.)") 10 ].

Definition apply_rule (password : jstr) (acc : list jstr * Z) (r : Rule) : list jstr * Z :=
  if rule_fails r password then (acc.1 ++ [rule_msg r], acc.2 - rule_cost r) else acc.

Definition validatePassword (password : jstr) : PasswordValidationResult :=
  if negb (truthy password) then mkPwResult false [js "Password is required"] weak 0
  else
    let '(errors, score) := fold_left (apply_rule password) rules ([], 100) in
    let score := Z.max 0 (Z.min 100 score) in
    let ok := (length errors =? 0)%nat in
    let strength :=
      if ok then
        if (16 <=? length password)%nat then strong
        else if (14 <=? length password)%nat then good
        else if (12 <=? length password)%nat then fair
        else weak
      else weak in
    mkPwResult ok errors strength score.

Definition getStrengthDescription (s : Strength) : jstr :=
  match s with
  | strong => js "Strong - Excellent choice!"
  | good => js "Good - Meets security requirements"
  | fair => js "Fair - Acceptable but could be stronger"
  | weak => js "Weak - Does not meet security requirements"
  end.

Definition getStrengthColor (s : Strength) : jstr :=
  match s with
  | strong => js "#51cf66" | good => js "#4dabf7" | fair => js "#ffd43b" | weak => js "#ff6b6b"
  end.

(** * Lemmas *)

(** The accumulated result of the rules: the messages of the failed ones, in
    order, and 100 less their costs. *)
Lemma fold_rules p rs errs score :
  fold_left (apply_rule p) rs (errs, score)
  = (errs ++ map rule_msg (List.filter (λ r, rule_fails r p) rs),
     score - fold_right Z.add 0 (map rule_cost (List.filter (λ r, rule_fails r p) rs))).
Proof.
  revert errs score. induction rs as [|r rs IH]; intros errs score; simpl.
  - rewrite app_nil_r. f_equal. lia.
  - unfold apply_rule at 2. destruct (rule_fails r p); simpl; rewrite IH; [|done].
    rewrite <-app_assoc. simpl. f_equal. lia.
Qed.

Lemma failed_nil p : List.filter (λ r, rule_fails r p) rules = [] ↔ Forall (λ r, rule_fails r p = false) rules.
Proof.
  generalize rules as rs. induction rs as [|r rs IH]; simpl; [done|].
  rewrite list.Forall_cons. destruct (rule_fails r p); [split; [done|by intros [? _]]|].
  rewrite IH. tauto.
Qed.

Lemma failed_cost_nonneg p rs :
  Forall (λ r, 0 < rule_cost r) rs →
  0 ≤ fold_right Z.add 0 (map rule_cost (List.filter (λ r, rule_fails r p) rs)) ∧
  (List.filter (λ r, rule_fails r p) rs ≠ [] →
   0 < fold_right Z.add 0 (map rule_cost (List.filter (λ r, rule_fails r p) rs))).
Proof.
  induction 1 as [|r rs Hr _ [IH1 IH2]]; simpl; [done|].
  destruct (rule_fails r p); simpl; [lia|done].
Qed.

Lemma rules_cost : Forall (λ r, 0 < rule_cost r) rules.
Proof. repeat constructor. Qed.

Lemma common_short p : toLowerCase p ∈ COMMON_PASSWORDS → (length p < 12)%nat.
Proof.
  rewrite <-toLowerCase_length. generalize (toLowerCase p) as q.
  assert (Forall (λ q, (length q < 12)%nat) COMMON_PASSWORDS) as H.
  { unfold COMMON_PASSWORDS. repeat constructor; vm_compute; lia. }
  rewrite list.Forall_forall in H. exact H.
Qed.

(** What an acceptable password is, without the list of common ones. *)
Record acceptable (p : jstr) : Prop := {
  acc_length : (12 ≤ length p ≤ 128)%nat;
  acc_upper : Exists (λ c, is_upper c = true) p;
  acc_lower : Exists (λ c, is_lower c = true) p;
  acc_digit : Exists (λ c, is_digit c = true) p;
  acc_special : Exists (λ c, is_special c = true) p;
  acc_sequence : Forall (λ q, includes q (toLowerCase p) = false) sequentialPatterns;
  acc_repeat : repeated3 p = false;
  acc_keyboard : Forall (λ q, includes q (toLowerCase p) = false) keyboardPatterns;
}.

Lemma existsb_false {A} (f : A → bool) l : existsb f l = false ↔ Forall (λ x, f x = false) l.
Proof.
  induction l as [|x l IH]; simpl; [done|]. by rewrite orb_false_iff, list.Forall_cons, IH.
Qed.

Lemma rules_acceptable p : Forall (λ r, rule_fails r p = false) rules ↔ acceptable p.
Proof.
  unfold rules. rewrite !list.Forall_cons. cbn [rule_fails]. unfold contains.
  rewrite !negb_false_iff, !existsb_Exists, !existsb_false, !Nat.ltb_ge.
  split.
  - intros (? & ? & ? & ? & ? & ? & _ & ? & ? & ? & _). by constructor.
  - intros [Hl ? ? ? ? ? ? ?]. repeat split; try done; try lia.
    apply bool_decide_eq_false. intros Hc%common_short. lia.
Qed.

Lemma validatePassword_form p :
  p ≠ [] →
  pw_errors (validatePassword p) = map rule_msg (List.filter (λ r, rule_fails r p) rules) ∧
  (pw_valid (validatePassword p) = true ↔ acceptable p) ∧
  pw_score (validatePassword p)
  = Z.max 0 (Z.min 100 (100 - fold_right Z.add 0 (map rule_cost (List.filter (λ r, rule_fails r p) rules)))).
Proof.
  intros Hp. unfold validatePassword. rewrite (proj2 (truthy_true p)) by done. simpl negb. cbv iota.
  rewrite fold_rules. cbn [pw_errors pw_valid pw_score app]. split; [done|]. split; [|done].
  rewrite <-rules_acceptable, <-failed_nil, Nat.eqb_eq, length_map.
  destruct (List.filter _ rules); done.
Qed.

(** * Properties *)

(** A password is valid exactly when it satisfies the length, class,
    sequence, repetition and keyboard rules: the list of common passwords
    never decides, since every password on it is shorter than the minimum. *)
Fact validatePassword_iff p :
  (pw_valid (validatePassword p) = true ↔ acceptable p) ∧
  (pw_valid (validatePassword p) = true ↔ pw_errors (validatePassword p) = []).
Proof.
  destruct p as [|c p'] eqn:E.
  - split; [|done]. split; [done|]. intros [H _ _ _ _ _ _ _]. simpl in H. lia.
  - destruct (validatePassword_form (c :: p')) as (H1 & H2 & _); [done|]. split; [done|].
    rewrite H2, H1, <-rules_acceptable, <-failed_nil. split; [by intros ->|apply map_eq_nil].
Qed.

(** The score stays within 0 to 100 and is 100 exactly for a valid
    password; the strength is [weak] exactly when the password is not valid,
    and otherwise grows with the length at 14 and 16 characters. *)
Fact validatePassword_score p :
  0 ≤ pw_score (validatePassword p) ≤ 100 ∧
  (pw_score (validatePassword p) = 100 ↔ pw_valid (validatePassword p) = true) ∧
  (pw_strength (validatePassword p) = weak ↔ pw_valid (validatePassword p) = false) ∧
  (pw_valid (validatePassword p) = true →
   pw_strength (validatePassword p)
   = if decide (16 ≤ length p)%nat then strong else if decide (14 ≤ length p)%nat then good else fair).
Proof.
  destruct p as [|c p'] eqn:E.
  { simpl. repeat split; try lia; done. }
  rewrite <-E. assert (Hne : p ≠ []) by by rewrite E.
  destruct (validatePassword_form p Hne) as (H1 & H2 & H3). rewrite H3.
  destruct (failed_cost_nonneg p rules rules_cost) as [Hc1 Hc2].
  split; [lia|]. split.
  - rewrite H2, <-rules_acceptable, <-failed_nil. split.
    + destruct (List.filter _ rules) as [|r rs]; [done|]. intros Hs. specialize (Hc2 ltac:(done)). lia.
    + intros ->. simpl. lia.
  - assert (Hlen : pw_valid (validatePassword p) = true → (12 ≤ length p)%nat).
    { intros [? _ _ _ _ _ _ _]%H2. lia. }
    revert Hlen. unfold validatePassword. rewrite (proj2 (truthy_true p)) by done. simpl negb. cbv iota.
    destruct (fold_left _ _ _) as [errs sc]. cbn [pw_strength pw_valid].
    destruct (length errs =? 0)%nat; [|split; [done|by intros]].
    intros Hlen. specialize (Hlen eq_refl).
    destruct (16 <=? length p)%nat eqn:E16; breflect; [rewrite decide_True by lia; done|].
    rewrite decide_False by lia.
    destruct (14 <=? length p)%nat eqn:E14; breflect; [rewrite decide_True by lia; done|].
    rewrite decide_False by lia. rewrite (proj2 (Nat.leb_le _ _)) by lia. done.
Qed.

Lemma validatePassword_score_witness :
  pw_strength (validatePassword (js "Correct-h0rse")) = fair.
Proof.
  transitivity (if decide (16 ≤ length (js "Correct-h0rse"))%nat then strong
                else if decide (14 ≤ length (js "Correct-h0rse"))%nat then good else fair).
  - apply (validatePassword_score (js "Correct-h0rse")). vm_compute. reflexivity.
  - reflexivity.
Defined.

(** Runs of consecutive digits are not sequences for the policy, although
    the rule is described with the example [123]: there are valid passwords
    that contain it, and the rule rejects no password for its digits. *)
Fact digit_sequence_accepted :
  (∃ p, includes (js "123") p = true ∧ pw_valid (validatePassword p) = true) ∧
  ∀ q c, q ∈ sequentialPatterns → c ∈ q → is_digit c = false.
Proof.
  split.
  - exists (js "Kp!w123zRq_Mv"). split; vm_compute; reflexivity.
  - assert (H : forallb (forallb (λ c, negb (is_digit c))) sequentialPatterns = true)
      by (vm_compute; reflexivity).
    apply forallb_Forall in H. rewrite list.Forall_forall in H. intros q c Hq Hc.
    specialize (H q Hq). apply forallb_Forall in H. rewrite list.Forall_forall in H.
    by apply negb_true_iff, H.
Qed.
