(* ===== verification/JsMap.v ===== *)
(** * The JavaScript [Map]: insertion order and overwriting in place

    A [Map] is the list of its entries in iteration order.  [set] on a present
    key keeps its position, on an absent key appends; [delete] removes.  Equality
    of the entries is equality of the maps a program can observe. *)

From stdpp Require Import strings.
From S2P Require Import Prelude.

Definition jsmap (K V : Type) : Type := list (K * V).

Section JsMap.
Context {K V : Type} `{EqDecision K}.
Implicit Types (m : jsmap K V) (k : K) (v : V).

Fixpoint mget k m : option V :=
  match m with
  | [] => None
  | (k', v) :: m' => if decide (k = k') then Some v else mget k m'
  end.

Definition mhas k m : bool := match mget k m with Some _ => true | None => false end.

Fixpoint mset k v m : jsmap K V :=
  match m with
  | [] => [(k, v)]
  | (k', v') :: m' => if decide (k = k') then (k, v) :: m' else (k', v') :: mset k v m'
  end.

Fixpoint mdelete k m : jsmap K V :=
  match m with
  | [] => []
  | (k', v') :: m' => if decide (k = k') then mdelete k m' else (k', v') :: mdelete k m'
  end.

Definition mkeys m : list K := map fst m.
Definition mvalues m : list V := map snd m.

(** every map a program builds has distinct keys *)
Definition mwf m : Prop := NoDup (mkeys m).

Lemma mget_set_eq k v m : mget k (mset k v m) = Some v.
Proof.
  induction m as [|[k' v'] m IH]; simpl; [by rewrite decide_True|].
  destruct (decide (k = k')); simpl; [by rewrite decide_True|by rewrite decide_False].
Qed.

Lemma mget_set_ne k k' v m : k ≠ k' → mget k (mset k' v m) = mget k m.
Proof.
  intros Hne. induction m as [|[k'' v'] m IH]; simpl; [by rewrite decide_False|].
  destruct (decide (k' = k'')) as [->|]; simpl; [by rewrite !decide_False|].
  by rewrite IH.
Qed.

Lemma mget_set k k' v m : mget k (mset k' v m) = if decide (k = k') then Some v else mget k m.
Proof. destruct (decide (k = k')) as [->|]; [apply mget_set_eq|by apply mget_set_ne]. Qed.

Lemma mget_delete k k' m : mget k (mdelete k' m) = if decide (k = k') then None else mget k m.
Proof.
  induction m as [|[k'' v'] m IH]; simpl; [by destruct (decide _)|].
  destruct (decide (k' = k'')) as [->|]; simpl; rewrite IH.
  - by destruct (decide (k = k'')).
  - destruct (decide (k = k'')) as [->|]; [by rewrite decide_False|done].
Qed.

Lemma mget_delete_eq k m : mget k (mdelete k m) = None.
Proof. by rewrite mget_delete, decide_True. Qed.

Lemma mget_delete_ne k k' m : k ≠ k' → mget k (mdelete k' m) = mget k m.
Proof. intros. by rewrite mget_delete, decide_False. Qed.

Lemma mhas_spec k m : mhas k m = true ↔ is_Some (mget k m).
Proof. unfold mhas. destruct (mget k m); split; [by eexists|done|done|by intros []]. Qed.

Lemma mget_Some_in k v m : mget k m = Some v → (k, v) ∈ m.
Proof.
  induction m as [|[k' v'] m IH]; simpl; [done|].
  destruct (decide (k = k')) as [->|]; [intros [= ->]; left|right; auto].
Qed.

Lemma mget_None_in k m : mget k m = None ↔ k ∉ mkeys m.
Proof.
  induction m as [|[k' v'] m IH]; simpl; [split; [intros _; apply not_elem_of_nil|done]|].
  rewrite not_elem_of_cons. destruct (decide (k = k')); [split; [done|by intros [? _]]|].
  rewrite IH. tauto.
Qed.

Lemma mkeys_set k v m :
  mkeys (mset k v m) = if mhas k m then mkeys m else mkeys m ++ [k].
Proof.
  unfold mhas. induction m as [|[k' v'] m IH]; simpl; [done|].
  destruct (decide (k = k')) as [->|]; simpl; [done|]. rewrite IH. by destruct (mget k m).
Qed.

Lemma mkeys_delete k m : k ∉ mkeys (mdelete k m).
Proof. apply mget_None_in, mget_delete_eq. Qed.

Lemma mdelete_keys_subset k m x : x ∈ mkeys (mdelete k m) → x ∈ mkeys m.
Proof.
  induction m as [|[k' v'] m IH]; simpl; [done|].
  destruct (decide (k = k')); simpl; rewrite ?elem_of_cons; tauto.
Qed.

Lemma mwf_set k v m : mwf m → mwf (mset k v m).
Proof.
  unfold mwf. rewrite mkeys_set. destruct (mhas k m) eqn:E; [done|]. intros H.
  apply list.NoDup_app. split; [done|]. split; [|apply list.NoDup_singleton].
  intros x Hx ->%list_elem_of_singleton. apply mget_None_in in Hx; [done|].
  unfold mhas in E. by destruct (mget k m).
Qed.

Lemma mwf_delete k m : mwf m → mwf (mdelete k m).
Proof.
  unfold mwf. induction m as [|[k' v'] m IH]; simpl; [done|]. intros [Hn Hd]%list.NoDup_cons.
  destruct (decide (k = k')); simpl; [auto|]. apply list.NoDup_cons. split; [|auto].
  intros Hx%mdelete_keys_subset. done.
Qed.

Lemma mwf_nil : mwf [].
Proof. apply base.NoDup_nil_2. Qed.

Lemma in_mget_Some k v m : mwf m → (k, v) ∈ m → mget k m = Some v.
Proof.
  unfold mwf. induction m as [|[k' v'] m IH]; simpl; [by intros _ ?%elem_of_nil|].
  intros [Hn Hd]%list.NoDup_cons [[= -> ->]|Hin]%elem_of_cons; [by rewrite decide_True|].
  rewrite decide_False; [auto|]. intros ->. apply Hn. unfold mkeys.
  apply (list_elem_of_fmap_2 fst) in Hin. exact Hin.
Qed.

Lemma mset_set k v v' m : mset k v (mset k v' m) = mset k v m.
Proof.
  induction m as [|[k' w] m IH]; simpl; [by rewrite decide_True|].
  destruct (decide (k = k')); simpl; [by rewrite decide_True|]. by rewrite decide_False, IH.
Qed.

Lemma mdelete_id k m : mget k m = None → mdelete k m = m.
Proof.
  induction m as [|[k' v'] m IH]; simpl; [done|]. destruct (decide (k = k')); [done|].
  intros H. by rewrite IH.
Qed.

(** Every entry satisfies [P]. *)
Definition mall (P : K → V → Prop) m : Prop := ∀ k v, mget k m = Some v → P k v.

Lemma mall_set P k v m : P k v → mall P m → mall P (mset k v m).
Proof.
  intros Hv Hm k' v'. rewrite mget_set. destruct (decide (k' = k)) as [->|]; [by intros [= <-]|apply Hm].
Qed.

Lemma mall_delete P k m : mall P m → mall P (mdelete k m).
Proof. intros Hm k' v'. rewrite mget_delete. by destruct (decide (k' = k)); [|apply Hm]. Qed.

Lemma mall_nil P : mall P [].
Proof. by intros k v. Qed.

Lemma mall_impl (P Q : K → V → Prop) m : mall P m → (∀ k v, P k v → Q k v) → mall Q m.
Proof. intros H HI k v E. by apply HI, H. Qed.

End JsMap.

#[export] Hint Resolve mwf_set mwf_delete mwf_nil mall_set mall_delete mall_nil : sovnet.
#[export] Hint Rewrite @mget_set_eq @mget_delete_eq : sovnet_rw.

(** [Object.fromEntries(m.entries())] and back: the entries of a map with
    distinct keys, rebuilt one [set] after the other. *)
Definition mrebuild {K V} `{EqDecision K} (entries : list (K * V)) (m : jsmap K V) : jsmap K V :=
  fold_left (λ acc e, mset e.1 e.2 acc) entries m.

Lemma mset_append {K V} `{EqDecision K} (k : K) (v : V) m :
  k ∉ mkeys m → mset k v m = m ++ [(k, v)].
Proof.
  induction m as [|[k' v'] m IH]; simpl; [done|]. intros [Hne Hn]%not_elem_of_cons.
  by rewrite decide_False, IH.
Qed.

Lemma mrebuild_app {K V} `{EqDecision K} (es m : jsmap K V) :
  NoDup (mkeys m ++ mkeys es) → mrebuild es m = m ++ es.
Proof.
  revert m. induction es as [|[k v] es IH]; intros m H; simpl; [by rewrite app_nil_r|].
  unfold mrebuild in *. simpl. apply list.NoDup_app in H as (Hm & Hd & He).
  rewrite mset_append.
  - rewrite IH; [by rewrite <-app_assoc|]. unfold mkeys in *. rewrite map_app. simpl.
    rewrite <-app_assoc. simpl in *. apply list.NoDup_app. auto.
  - intros Hin. apply (Hd k); [done|]. simpl. left.
Qed.

Lemma mrebuild_id {K V} `{EqDecision K} (m : jsmap K V) : mwf m → mrebuild m [] = m.
Proof. intros H. by rewrite mrebuild_app. Qed.
