(* ===== verification/StreamEvents.v ===== *)
(** * Events of inbound streams: src/src/services/NativeQuicSession.ts

    One listener per event of the native module dispatches to the subscriber of
    the stream, or buffers the event until there is one.  The two maps of the
    module are [dispatcher]; what the callbacks of a subscriber are given is its
    log.  A callback may unsubscribe or subscribe; the dispatcher does not read
    its maps again after a callback, so such a call counts as one that follows. *)

From stdpp Require Import strings.
From S2P Require Import Prelude JsString JsMap.

Inductive event := frame (frameB64 : jstr) | closed | error (message : jstr).

(** a subscriber: the callbacks of one call of [subscribeInbound] *)
Definition subscriber : Set := nat.

Record dispatcher := mkDispatcher {
  subscribersByStreamId : jsmap jstr subscriber;
  bufferedEventsByStreamId : jsmap jstr (list event);
  delivered : list (jstr * subscriber * event);      (* calls of callbacks, with the stream *)
}.
Definition initial : dispatcher := mkDispatcher [] [] [].

Definition deliver (streamId : jstr) (sub : subscriber) (l : list event) (x : dispatcher) : dispatcher :=
  mkDispatcher (subscribersByStreamId x) (bufferedEventsByStreamId x) (delivered x ++ map (λ e, (streamId, sub, e)) l).

Definition dispatchOrBuffer (streamId : jstr) (e : event) (x : dispatcher) : dispatcher :=
  match mget streamId (subscribersByStreamId x) with
  | Some sub => deliver streamId sub [e] x
  | None =>
      let existing := default [] (mget streamId (bufferedEventsByStreamId x)) in
      mkDispatcher (subscribersByStreamId x) (mset streamId (existing ++ [e]) (bufferedEventsByStreamId x)) (delivered x)
  end.

(** [available] is whether the native module is there *)
Definition subscribeInbound (available : bool) (streamId : jstr) (sub : subscriber) (x : dispatcher) : dispatcher :=
  if negb available then x
  else
    let x := mkDispatcher (mset streamId sub (subscribersByStreamId x)) (bufferedEventsByStreamId x) (delivered x) in
    match mget streamId (bufferedEventsByStreamId x) with
    | Some buffered =>
        deliver streamId sub buffered
          (mkDispatcher (subscribersByStreamId x) (mdelete streamId (bufferedEventsByStreamId x)) (delivered x))
    | None => x
    end.

(** the function [subscribeInbound] returns *)
Definition unsubscribe (available : bool) (streamId : jstr) (x : dispatcher) : dispatcher :=
  if negb available then x
  else mkDispatcher (mdelete streamId (subscribersByStreamId x)) (mdelete streamId (bufferedEventsByStreamId x)) (delivered x).

(** ** Histories *)

Inductive op :=
| Emit (streamId : jstr) (e : event)
| Subscribe (streamId : jstr) (sub : subscriber)
| Unsubscribe (streamId : jstr).

Definition perform (x : dispatcher) (o : op) : dispatcher :=
  match o with
  | Emit s e => dispatchOrBuffer s e x
  | Subscribe s sub => subscribeInbound true s sub x
  | Unsubscribe s => unsubscribe true s x
  end.
Definition history (l : list op) : dispatcher := fold_left perform l initial.

(** ** The specification: each stream is a queue of its own

    Events wait while there is no subscriber, go to it in order once there is
    one, and are dropped by an unsubscription. *)

Record queue := mkQueue { reader : option subscriber; waiting : list event; received : list (subscriber * event) }.

Definition queue_op (q : queue) (o : op) : queue :=
  match o with
  | Emit _ e =>
      match reader q with
      | Some sub => mkQueue (reader q) (waiting q) (received q ++ [(sub, e)])
      | None => mkQueue None (waiting q ++ [e]) (received q)
      end
  | Subscribe _ sub => mkQueue (Some sub) [] (received q ++ map (pair sub) (waiting q))
  | Unsubscribe _ => mkQueue None [] (received q)
  end.
Definition queue_history (l : list op) : queue := fold_left queue_op l (mkQueue None [] []).

Definition stream_of (o : op) : jstr := match o with Emit s _ | Subscribe s _ | Unsubscribe s => s end.

(** what the callbacks got of one stream *)
Definition received_of (s : jstr) (x : dispatcher) : list (subscriber * event) :=
  omap (λ '(s', sub, e), if decide (s' = s) then Some (sub, e) else None) (delivered x).

(** the stream as the dispatcher has it; it never keeps a buffer beside a
    subscriber *)
Definition queue_of (s : jstr) (x : dispatcher) : queue :=
  mkQueue (mget s (subscribersByStreamId x)) (default [] (mget s (bufferedEventsByStreamId x))) (received_of s x).
Definition tidy (x : dispatcher) : Prop :=
  ∀ s, is_Some (mget s (subscribersByStreamId x)) → mget s (bufferedEventsByStreamId x) = None.

Lemma received_deliver s s' sub l x :
  received_of s (deliver s' sub l x) = received_of s x ++ (if decide (s' = s) then map (pair sub) l else []).
Proof.
  unfold received_of, deliver. simpl. rewrite omap_app. f_equal.
  destruct (decide (s' = s)) as [->|Hn]; induction l as [|e l IH]; simpl; [done| |done|].
  - rewrite decide_True by done. f_equal. exact IH.
  - rewrite decide_False by done. exact IH.
Qed.

Lemma tidy_perform x o : tidy x → tidy (perform x o).
Proof.
  intros H s. destruct o as [t e|t sub|t]; simpl.
  - unfold dispatchOrBuffer. destruct (mget t (subscribersByStreamId x)) eqn:E; simpl; [apply H|].
    rewrite mget_set. intros Hs. destruct (decide (s = t)) as [->|]; [rewrite E in Hs; by destruct Hs|by apply H].
  - unfold subscribeInbound. simpl. destruct (mget t (bufferedEventsByStreamId x)) eqn:E; simpl; rewrite mget_set.
    + rewrite mget_delete. destruct (decide (s = t)); [done|]. apply H.
    + destruct (decide (s = t)) as [->|]; [done|]. apply H.
  - rewrite !mget_delete. destruct (decide (s = t)); [done|]. apply H.
Qed.

(** an operation on a stream is that of its queue, and no other stream sees it *)
Lemma perform_queue x o s :
  tidy x → queue_of s (perform x o) = if decide (stream_of o = s) then queue_op (queue_of s x) o else queue_of s x.
Proof.
  intros Ht. destruct o as [t e|t sub|t]; simpl.
  - unfold dispatchOrBuffer. destruct (mget t (subscribersByStreamId x)) as [sub|] eqn:E.
    + unfold queue_of at 1. rewrite received_deliver. simpl. case_decide as Hs; [subst t; simpl; by rewrite E|].
      by rewrite app_nil_r.
    + unfold queue_of, received_of. simpl. rewrite mget_set. case_decide as Hs; case_decide as Hs'; subst; try done.
      by rewrite E.
  - unfold subscribeInbound. simpl. destruct (mget t (bufferedEventsByStreamId x)) as [l|] eqn:E.
    + unfold queue_of at 1. rewrite received_deliver. simpl. rewrite mget_set, mget_delete.
      case_decide as Hs; case_decide as Hs'; subst; try done; [by rewrite E|by rewrite app_nil_r].
    + unfold queue_of. simpl. rewrite mget_set. case_decide as Hs; case_decide as Hs'; subst; try done.
      rewrite E. simpl. by rewrite app_nil_r.
  - unfold queue_of, received_of. simpl. rewrite !mget_delete. case_decide as Hs; case_decide as Hs'; subst; done.
Qed.

Lemma history_queue l : tidy (history l) ∧
  ∀ s, queue_of s (history l) = queue_history (List.filter (λ o, bool_decide (stream_of o = s)) l).
Proof.
  unfold history, queue_history. induction l as [|o l [IHt IH]] using rev_ind; [by split; [intros s []|]|].
  rewrite fold_left_app. split; [by apply tidy_perform|]. intros s. simpl. rewrite perform_queue by done.
  rewrite List.filter_app, fold_left_app, IH. simpl. case_decide; [by rewrite bool_decide_true|by rewrite bool_decide_false].
Qed.

Definition emitted (l : list op) (s : jstr) : list event :=
  omap (λ o, match o with Emit t e => if decide (t = s) then Some e else None | _ => None end) l.

Lemma queue_keeps_all l q :
  Forall (λ o, match o with Unsubscribe _ => False | _ => True end) l →
  let q' := fold_left queue_op l q in
  map snd (received q') ++ waiting q' =
  map snd (received q) ++ waiting q ++ omap (λ o, match o with Emit _ e => Some e | _ => None end) l
  ∨ (is_Some (reader q) ∧ waiting q ≠ []).
Proof.
  intros Hl. revert q. induction Hl as [|o l Ho _ IH]; intros q; simpl; [left; by rewrite app_nil_r|].
  destruct o as [t e|t sub|t]; [| |done]; simpl.
  - destruct (reader q) as [sub|] eqn:Er.
    + destruct (waiting q) as [|w ws] eqn:Ew; [|right; by split].
      destruct (IH (mkQueue (Some sub) [] (received q ++ [(sub, e)]))) as [IHq|[_ Hw]]; [left|done].
      rewrite IHq. simpl. rewrite map_app. simpl. by rewrite <-app_assoc.
    + destruct (IH (mkQueue None (waiting q ++ [e]) (received q))) as [IHq|[[? Hs] _]]; [left|done].
      rewrite IHq. simpl. by rewrite <-!app_assoc.
  - destruct (IH (mkQueue (Some sub) [] (received q ++ map (pair sub) (waiting q)))) as [IHq|[_ Hw]]; [left|done].
    rewrite IHq. simpl. rewrite map_app, map_map. simpl. rewrite map_id. by rewrite <-app_assoc.
Qed.

Lemma emitted_filter l s :
  omap (λ o, match o with Emit _ e => Some e | _ => None end) (List.filter (λ o, bool_decide (stream_of o = s)) l) = emitted l s.
Proof.
  unfold emitted. induction l as [|o l IH]; [done|].
  destruct (decide (stream_of o = s)) as [Hs|Hs]; simpl.
  - rewrite bool_decide_true by done. destruct o as [t e|t sub|t]; simpl in *; [|exact IH..].
    rewrite decide_True by done. f_equal. exact IH.
  - rewrite bool_decide_false by done. destruct o as [t e|t sub|t]; simpl in *; [|exact IH..].
    rewrite decide_False by done. exact IH.
Qed.

(** C36: the dispatcher is one queue per stream, whatever the streams do in between:
    an operation on another stream is not seen; and as long as a stream is not
    unsubscribed, what its subscribers received and what still waits is together
    every event the native module emitted for it, once and in order - also those
    that came before anyone subscribed. *)
Theorem streams_are_queues l s :
  queue_of s (history l) = queue_history (List.filter (λ o, bool_decide (stream_of o = s)) l) ∧
  (Unsubscribe s ∉ l →
   map snd (received_of s (history l)) ++ default [] (mget s (bufferedEventsByStreamId (history l))) = emitted l s).
Proof.
  destruct (history_queue l) as [_ H]. specialize (H s). split; [done|]. intros Hu.
  change (map snd (received (queue_of s (history l))) ++ waiting (queue_of s (history l)) = emitted l s).
  rewrite H. unfold queue_history. destruct (queue_keeps_all
    (List.filter (λ o, bool_decide (stream_of o = s)) l) (mkQueue None [] [])) as [E|[[? ?] _]]; [|rewrite E; apply emitted_filter|done].
  apply list.Forall_forall. intros o [Ho Hs]%list_elem_of_In%filter_In. apply bool_decide_eq_true in Hs.
  destruct o as [t e|t sub|t]; try done. simpl in Hs. subst t. apply Hu. by apply list_elem_of_In.
Qed.

(** A reader that failed before anyone subscribed; the subscriber gets the frame
    and the error, and another stream sees nothing. *)
Lemma streams_are_queues_witness :
  map snd (received_of (js "in-1") (history [Emit (js "in-1") (frame (js "AA==")); Emit (js "in-2") closed; Emit (js "in-1") (error (js "reset"));
    Subscribe (js "in-1") 7%nat; Unsubscribe (js "in-2")])) ++ [] = [frame (js "AA=="); error (js "reset")].
Proof.
  apply (proj2 (streams_are_queues [Emit (js "in-1") (frame (js "AA==")); Emit (js "in-2") closed; Emit (js "in-1") (error (js "reset"));
    Subscribe (js "in-1") 7%nat; Unsubscribe (js "in-2")] (js "in-1"))).
  rewrite !not_elem_of_cons. split_and!; [discriminate..|apply not_elem_of_nil].
Defined.

Lemma queue_without_reader s es q :
  reader q = None → fold_left queue_op (map (Emit s) es) q = mkQueue None (waiting q ++ es) (received q).
Proof.
  revert q. induction es as [|e es IH]; intros [r w d] Hq; simpl in *; subst r; [by rewrite app_nil_r|].
  rewrite IH by done. simpl. by rewrite <-app_assoc.
Qed.

(** What the native module emits for a stream after its unsubscription is kept
    for a subscriber; ids of streams are not used again, so nobody comes, and
    nothing bounds or clears what is kept. *)
Fact late_events_are_kept s sub es :
  default [] (mget s (bufferedEventsByStreamId (history (Subscribe s sub :: Unsubscribe s :: map (Emit s) es)))) = es.
Proof.
  change (waiting (queue_of s (history (Subscribe s sub :: Unsubscribe s :: map (Emit s) es))) = es).
  rewrite (proj2 (history_queue _)). unfold queue_history. simpl. rewrite bool_decide_true by done. simpl.
  replace (List.filter _ (map (Emit s) es)) with (map (Emit s) es); [by rewrite queue_without_reader|].
  induction es as [|e es IH]; [done|]. simpl. rewrite bool_decide_true by done. by f_equal.
Qed.
