(* ===== verification/RateLimiter.v ===== *)
(** * Login rate limiting: src/services/RateLimiter.ts

    [Date.now()] is the argument [now] of the methods; a method that changes
    the attempts returns the new map. *)

From stdpp Require Import strings.
From S2P Require Import Prelude JsString JsMap.

Record AttemptRecord := mkAttempt { count : Z; firstAttempt : Z; lastAttempt : Z }.

Record RateLimitStatus := mkStatus {
  blocked : bool;
  reason : option jstr;
  retryAfterSeconds : option Z;
}.

Definition attempts_map : Type := jsmap jstr AttemptRecord.

Definition maxAttempts : Z := 5.
Definition windowMs : Z := 15 * 60 * 1000.
Definition lockoutMs : Z := 30 * 60 * 1000.

(** [Math.ceil(n / 1000)] *)
Definition ceil_seconds (ms : Z) : Z := - ((- ms) / 1000).

Definition not_blocked : RateLimitStatus := mkStatus false None None.

Definition isBlocked (now : Z) (id : jstr) (attempts : attempts_map) : RateLimitStatus * attempts_map :=
  match mget id attempts with
  | None => (not_blocked, attempts)
  | Some record =>
      let timeSinceFirstAttempt := now - firstAttempt record in
      if windowMs <? timeSinceFirstAttempt then (not_blocked, mdelete id attempts)
      else if maxAttempts <=? count record then
        let timeSinceLockout := now - lastAttempt record in
        if timeSinceLockout <? lockoutMs then
          let remainingSeconds := ceil_seconds (lockoutMs - timeSinceLockout) in
          (mkStatus true
             (Some (js "Too many login attempts. Please try again in "
                    ++ dec_str remainingSeconds ++ js " seconds."))
             (Some remainingSeconds), attempts)
        else (not_blocked, mdelete id attempts)
      else
        let remainingAttempts := maxAttempts - count record in
        if remainingAttempts <=? 2 then
          (mkStatus false
             (Some (js "Warning: " ++ dec_str remainingAttempts ++ js " login attempts remaining"))
             None, attempts)
        else (not_blocked, attempts)
  end.

Definition recordAttempt (now : Z) (id : jstr) (attempts : attempts_map) : attempts_map :=
  match mget id attempts with
  | None => mset id (mkAttempt 1 now now) attempts
  | Some record => mset id (mkAttempt (count record + 1) (firstAttempt record) now) attempts
  end.

Definition clearAttempts (id : jstr) (attempts : attempts_map) : attempts_map := mdelete id attempts.

Definition getRemainingAttempts (now : Z) (id : jstr) (attempts : attempts_map) : Z * attempts_map :=
  match mget id attempts with
  | None => (maxAttempts, attempts)
  | Some record =>
      if windowMs <? now - firstAttempt record then (maxAttempts, mdelete id attempts)
      else (Z.max 0 (maxAttempts - count record), attempts)
  end.

Definition getAllAttempts (dev : bool) (attempts : attempts_map) : list (jstr * AttemptRecord) :=
  if negb dev then [] else attempts.

(** ** The limiter as a state machine: a clock that never goes back and one
    method call at a time *)

Record limiter := mkLimiter { clock : Z; attempts : attempts_map }.

Inductive op := OpCheck (id : jstr) | OpRecord (id : jstr) | OpClear (id : jstr) | OpRemaining (id : jstr).

Definition run_op (o : op) (s : limiter) : limiter :=
  mkLimiter (clock s)
    match o with
    | OpCheck id => (isBlocked (clock s) id (attempts s)).2
    | OpRecord id => recordAttempt (clock s) id (attempts s)
    | OpClear id => clearAttempts id (attempts s)
    | OpRemaining id => (getRemainingAttempts (clock s) id (attempts s)).2
    end.

Inductive limiter_step : limiter → limiter → Prop :=
| step_time s t : clock s ≤ t → limiter_step s (mkLimiter t (attempts s))
| step_op s o : limiter_step s (run_op o s).

Definition reachable (s : limiter) : Prop := ∃ t0, rtc limiter_step (mkLimiter t0 []) s.

(** * Lemmas *)

Definition record_ok (now : Z) (r : AttemptRecord) : Prop :=
  1 ≤ count r ∧ firstAttempt r ≤ lastAttempt r ≤ now.

Definition limiter_ok (s : limiter) : Prop := mall (λ _ r, record_ok (clock s) r) (attempts s).

Lemma isBlocked_state now id m P :
  mall P m → mall P (isBlocked now id m).2.
Proof. intros H. unfold isBlocked. repeat dmatch; simpl; auto with sovnet. Qed.

Lemma getRemaining_state now id m P :
  mall P m → mall P (getRemainingAttempts now id m).2.
Proof. intros H. unfold getRemainingAttempts. repeat dmatch; simpl; auto with sovnet. Qed.

Lemma recordAttempt_state now id m :
  mall (λ _ r, record_ok now r) m → mall (λ _ r, record_ok now r) (recordAttempt now id m).
Proof.
  intros H. unfold recordAttempt. destruct (mget id m) as [r|] eqn:E; apply mall_set; auto.
  - destruct (H _ _ E) as (? & ? & ?). split; simpl; lia.
  - split; simpl; lia.
Qed.

Lemma limiter_step_ok s s' : limiter_step s s' → limiter_ok s → limiter_ok s'.
Proof.
  intros [s0 t Ht|s0 o] H.
  - eapply mall_impl; [exact H|]. intros k r (? & ? & ?). split; simpl; lia.
  - unfold limiter_ok in *. destruct o; simpl.
    + by apply isBlocked_state.
    + by apply recordAttempt_state.
    + unfold clearAttempts. auto with sovnet.
    + by apply getRemaining_state.
Qed.

Lemma limiter_reachable_ok s : reachable s → limiter_ok s.
Proof.
  intros [t0 H]. assert (limiter_ok (mkLimiter t0 [])) as H0 by apply mall_nil.
  revert H0. induction H; eauto using limiter_step_ok.
Qed.

Lemma ceil_seconds_spec ms : 0 < ms → 0 < ceil_seconds ms ∧ ms ≤ 1000 * ceil_seconds ms < ms + 1000.
Proof.
  intros H. unfold ceil_seconds.
  pose proof (Z.div_mod (- ms) 1000 ltac:(lia)). pose proof (Z.mod_pos_bound (- ms) 1000 ltac:(lia)). lia.
Qed.

(** [n] further failed attempts at the given times. *)
Definition record_all (id : jstr) (times : list Z) (m : attempts_map) : attempts_map :=
  fold_left (λ m t, recordAttempt t id m) times m.

Lemma record_all_get id times m t0 :
  mget id m = None →
  mget id (record_all id (t0 :: times) m)
  = Some (mkAttempt (1 + Z.of_nat (length times)) t0 (List.last times t0)).
Proof.
  intros Hn. unfold record_all. simpl.
  assert (H : ∀ c f l m', mget id m' = Some (mkAttempt c f l) →
    mget id (fold_left (λ m t, recordAttempt t id m) times m')
    = Some (mkAttempt (c + Z.of_nat (length times)) f (List.last times l))).
  { induction times as [|t times IH]; intros c f l m' E; simpl; [by rewrite E, Z.add_0_r|].
    rewrite (IH (c + 1) f t).
    - change (match times with [] => t | _ :: _ => List.last times l end)
        with (List.last (t :: times) l). rewrite last_default. do 2 f_equal. lia.
    - unfold recordAttempt. rewrite E. apply mget_set_eq. }
  apply H. unfold recordAttempt. rewrite Hn. apply mget_set_eq.
Qed.

(** * Properties *)

(** After [n] failed attempts for an identifier that had none, checked
    within fifteen minutes of the first: the identifier is blocked exactly when
    [n >= 5], [getRemainingAttempts] is [max 0 (5 - n)], and other identifiers
    are not affected. *)
Fact attempts_counted id m t0 times now :
  mget id m = None →
  now - t0 ≤ windowMs → now - List.last times t0 < lockoutMs →
  let m' := record_all id (t0 :: times) m in
  let n := Z.of_nat (length (t0 :: times)) in
  (blocked (isBlocked now id m').1 = true ↔ 5 ≤ n) ∧
  (getRemainingAttempts now id m').1 = Z.max 0 (5 - n) ∧
  (isBlocked now id m').2 = m' ∧
  ∀ id', id' ≠ id → mget id' m' = mget id' m.
Proof.
  intros Hn Hw Hl m' n. pose proof (record_all_get id times m t0 Hn) as E. fold m' in E.
  assert (En : n = 1 + Z.of_nat (length times)) by (unfold n; simpl; lia).
  rewrite <-En in E. unfold isBlocked, getRemainingAttempts. rewrite E. simpl.
  rewrite (proj2 (Z.ltb_ge windowMs _)), (proj2 (Z.ltb_lt _ lockoutMs)) by lia.
  change maxAttempts with 5.
  destruct (5 <=? n) eqn:E5; breflect; simpl.
  - repeat split; [done|]. intros id' Hne. subst m'. unfold record_all. clear -Hne.
    generalize (t0 :: times) as l. intros l. revert m. induction l as [|t l IH]; intros m; simpl; [done|].
    rewrite IH. unfold recordAttempt. destruct (mget id m); by rewrite mget_set_ne.
  - split; [destruct (_ <=? 2); simpl; split; (done || lia)|]. split; [done|].
    split; [by destruct (_ <=? 2)|]. intros id' Hne. subst m'. unfold record_all. clear -Hne.
    generalize (t0 :: times) as l. intros l. revert m. induction l as [|t l IH]; intros m; simpl; [done|].
    rewrite IH. unfold recordAttempt. destruct (mget id m); by rewrite mget_set_ne.
Qed.

Lemma attempts_counted_witness :
  blocked (isBlocked 60000 (js "alice") (record_all (js "alice") [0; 1; 2; 3; 4] [])).1 = true.
Proof.
  apply (attempts_counted (js "alice") [] 0 [1; 2; 3; 4] 60000); [reflexivity|by vm_compute|by vm_compute|].
  vm_compute. discriminate.
Defined.

(** A block ends with the fifteen-minute window of the first attempt, never
    later: in every reachable state, whatever [retryAfterSeconds] announced, the
    identifier is free as soon as the window has passed, so the thirty-minute
    lockout cannot run its course. *)
Fact block_ends_with_window s id st m t :
  reachable s →
  isBlocked (clock s) id (attempts s) = (st, m) → blocked st = true →
  clock s + windowMs < t →
  blocked (isBlocked t id (attempts s)).1 = false ∧
  ∃ secs, retryAfterSeconds st = Some secs ∧ windowMs ≤ 1000 * secs.
Proof.
  intros Hr%limiter_reachable_ok E Hb Ht. unfold isBlocked in E |- *.
  destruct (mget id (attempts s)) as [r|] eqn:Er; [|by simplify_eq/=].
  destruct (Hr _ _ Er) as (Hc & Hf & Hl).
  destruct (windowMs <? clock s - firstAttempt r) eqn:E1; [by simplify_eq/=|]. breflect.
  rewrite (proj2 (Z.ltb_lt windowMs (t - firstAttempt r))) by lia. split; [done|].
  destruct (maxAttempts <=? count r); [|by destruct (_ <=? 2); simplify_eq/=].
  destruct (clock s - lastAttempt r <? lockoutMs) eqn:E2; [|by simplify_eq/=]. breflect.
  simplify_eq/=. eexists. split; [done|].
  pose proof (ceil_seconds_spec (lockoutMs - (clock s - lastAttempt r)) ltac:(lia)).
  unfold windowMs, lockoutMs in *. lia.
Qed.

Lemma block_ends_with_window_witness :
  let s := mkLimiter 10 (record_all (js "bob") [10; 10; 10; 10; 10] []) in
  blocked (isBlocked 10 (js "bob") (attempts s)).1 = true ∧
  blocked (isBlocked 900011 (js "bob") (attempts s)).1 = false.
Proof.
  intros s. split; [vm_compute; reflexivity|].
  eapply (block_ends_with_window s (js "bob")).
  - exists 10. do 5 (eapply rtc_l; [apply (step_op _ (OpRecord (js "bob")))|]). apply rtc_refl.
  - apply surjective_pairing.
  - vm_compute. reflexivity.
  - vm_compute. reflexivity.
Defined.

(** In a reachable state the branch for an expired lockout is never taken:
    an identifier with five or more attempts is blocked for as long as its
    window lasts, and every announced delay is between fifteen and thirty
    minutes. *)
Fact lockout_branch_unreachable s id r :
  reachable s → mget id (attempts s) = Some r → maxAttempts ≤ count r →
  clock s - firstAttempt r ≤ windowMs →
  ∃ secs, isBlocked (clock s) id (attempts s)
    = (mkStatus true (Some (js "Too many login attempts. Please try again in " ++ dec_str secs ++ js " seconds."))
         (Some secs), attempts s) ∧ 900 ≤ secs ≤ 1800.
Proof.
  intros Hr%limiter_reachable_ok Er Hc Hw. destruct (Hr _ _ Er) as (_ & Hf & Hl).
  unfold isBlocked. rewrite Er. rewrite (proj2 (Z.ltb_ge windowMs _)) by lia.
  rewrite (proj2 (Z.leb_le maxAttempts _)) by lia. rewrite (proj2 (Z.ltb_lt _ lockoutMs)).
  2: { unfold windowMs, lockoutMs in *. lia. }
  eexists. split; [reflexivity|].
  pose proof (ceil_seconds_spec (lockoutMs - (clock s - lastAttempt r))) as Hs.
  unfold windowMs, lockoutMs in *. lia.
Qed.

Lemma lockout_branch_unreachable_witness :
  ∃ secs, retryAfterSeconds
    (isBlocked 10 (js "bob") (record_all (js "bob") [10; 10; 10; 10; 10] [])).1 = Some secs.
Proof.
  destruct (lockout_branch_unreachable
    (mkLimiter 10 (record_all (js "bob") [10; 10; 10; 10; 10] [])) (js "bob") (mkAttempt 5 10 10))
    as (secs & E & _).
  - exists 10. do 5 (eapply rtc_l; [apply (step_op _ (OpRecord (js "bob")))|]). apply rtc_refl.
  - vm_compute. reflexivity.
  - by vm_compute.
  - by vm_compute.
  - exists secs. exact (f_equal (λ x, retryAfterSeconds x.1) E).
Defined.
