(* ===== verification/Codec.v ===== *)
(** * Byte codecs: hexadecimal, Base64 and UTF-8

    The helpers of src/services/MessagingService.ts and of
    src/lib-client-react-native-js/PoUWController.ts that move bytes through
    strings, with [btoa], [atob] and [parseInt] as the language defines them.
    A byte, and a UTF-16 code unit of a binary string, is a [Z]. *)

From stdpp Require Import strings.
From S2P Require Import Prelude JsString.

Definition bytes : Type := list Z.
Definition byte_ok (b : Z) : Prop := 0 ≤ b < 256.

(** ** Hexadecimal *)

Definition hex_char (d : Z) : ascii := if d <? 10 then chr (48 + d) else chr (87 + d).

(** the value of a hexadecimal digit in either case *)
Definition hex_val (c : ascii) : Z :=
  if is_digit c then code c - 48
  else if in_range 97 102 c then code c - 87 else code c - 55.

(** [b.toString(16).padStart(2, '0')] *)
Definition byte_hex (b : Z) : jstr := [hex_char (b / 16); hex_char (b mod 16)].

Definition bytes_hex (bs : bytes) : jstr := flat_map byte_hex bs.

(** [parseInt(s, 16)] on a piece of text: white space, a sign, an optional
    [0x], then the longest run of digits; [None] is [NaN] *)
Definition strip_0x (s : jstr) : jstr :=
  if startsWith (js "0x") s || startsWith (js "0X") s then drop 2 s else s.

Definition parseInt16 (s : jstr) : option Z :=
  let t := drop_while is_space s in
  let '(sign, r) := match t with
    | c :: r => if bool_decide (c = "-"%char) then (-1, r)
                else if bool_decide (c = "+"%char) then (1, r) else (1, t)
    | [] => (1, [])
    end in
  let ds := take_while is_hex (strip_0x r) in
  if truthy ds then Some (sign * fold_left (λ a c, 16 * a + hex_val c) ds 0) else None.

(** [String.fromCharCode(x)] on the result: modulo 2^16, [NaN] gives 0 *)
Definition fromCharCode (x : option Z) : Z := default 0 x mod 65536.

(** [for (i = 0; i < s.length; i += 2) raw += fromCharCode(parseInt(s.slice(i, i + 2), 16))] *)
Fixpoint hex_units (s : jstr) : bytes :=
  match s with
  | a :: b :: s' => fromCharCode (parseInt16 [a; b]) :: hex_units s'
  | [a] => [fromCharCode (parseInt16 [a])]
  | [] => []
  end.

(** ** Base64 *)

Definition b64_char (n : Z) : ascii :=
  if n <? 26 then chr (65 + n) else if n <? 52 then chr (71 + n)
  else if n <? 62 then chr (n - 4) else if n =? 62 then "+"%char else "/"%char.

Definition b64_val (c : ascii) : option Z :=
  if is_upper c then Some (code c - 65) else if is_lower c then Some (code c - 71)
  else if is_digit c then Some (code c + 4)
  else if bool_decide (c = "+"%char) then Some 62
  else if bool_decide (c = "/"%char) then Some 63 else None.

Fixpoint b64_encode (bs : bytes) : jstr :=
  match bs with
  | a :: b :: c :: bs' =>
      b64_char (a / 4) :: b64_char (a mod 4 * 16 + b / 16)
      :: b64_char (b mod 16 * 4 + c / 64) :: b64_char (c mod 64) :: b64_encode bs'
  | [a; b] => [b64_char (a / 4); b64_char (a mod 4 * 16 + b / 16); b64_char (b mod 16 * 4); "="%char]
  | [a] => [b64_char (a / 4); b64_char (a mod 4 * 16); "="%char; "="%char]
  | [] => []
  end.

(** [btoa]: throws ([None]) on a code unit above 255 *)
Definition btoa (units : bytes) : option jstr :=
  if forallb (λ b, (0 <=? b) && (b <? 256)) units then Some (b64_encode units) else None.

Fixpoint b64_decode (vs : list Z) : option bytes :=
  match vs with
  | a :: b :: c :: d :: vs' =>
      r ← b64_decode vs'; Some (a * 4 + b / 16 :: b mod 16 * 16 + c / 4 :: c mod 4 * 64 + d :: r)
  | [a; b; c] => Some [a * 4 + b / 16; b mod 16 * 16 + c / 4]
  | [a; b] => Some [a * 4 + b / 16]
  | [_] => None
  | [] => Some []
  end.

(** [atob]: white space removed, up to two padding signs dropped when the
    length is a multiple of four, throws ([None]) on any other character *)
Definition is_b64_space (c : ascii) : bool :=
  (code c =? 9) || (code c =? 10) || (code c =? 12) || (code c =? 13) || (code c =? 32).

Definition drop_padding (s : jstr) : jstr :=
  if (length s mod 4 =? 0)%nat then
    if endsWith (js "==") s then take (length s - 2) s
    else if endsWith (js "=") s then take (length s - 1) s else s
  else s.

Definition atob (s : jstr) : option bytes :=
  let s := drop_padding (List.filter (λ c, negb (is_b64_space c)) s) in
  vs ← mapM b64_val s; b64_decode vs.

(** ** The conversions of MessagingService.ts *)

Definition hexToBase64 (hex : jstr) : option jstr :=
  let trimmed := if startsWith (js "0x") hex then slice_from 2 hex else hex in
  btoa (hex_units trimmed).

(** [bytesToHex] of a Base64 frame *)
Definition bytesToHex (b64 : jstr) : option jstr := bytes_hex <$> atob b64.

Definition base64Top8Hex (b64 : jstr) : jstr :=
  match atob b64 with
  | Some raw => bytes_hex (take 4 raw)
  | None => js "<decode-fail>"
  end.

(** ASCII text to Base64 *)
Definition asciiToBase64 (s : jstr) : option jstr := btoa (map code s).

(** [unescape(encodeURIComponent(s))] on Latin-1 text, as bytes *)
Definition utf8_encode_char (c : ascii) : bytes :=
  if code c <? 128 then [code c] else [192 + code c / 64; 128 + code c mod 64].
Definition utf8_encode (s : jstr) : bytes := flat_map utf8_encode_char s.

(** [decodeURIComponent(escape(raw))]: throws ([None]) on malformed UTF-8; a
    character beyond Latin-1 is outside the model and also gives [None] *)
Fixpoint utf8_decode (bs : bytes) : option jstr :=
  match bs with
  | [] => Some []
  | a :: bs' =>
      if (0 <=? a) && (a <? 128) then cons (chr a) <$> utf8_decode bs'
      else match bs' with
      | b :: bs'' =>
          if (194 <=? a) && (a <? 196) && (128 <=? b) && (b <? 192)
          then cons (chr ((a - 192) * 64 + (b - 128))) <$> utf8_decode bs''
          else None
      | [] => None
      end
  end.

Definition utf8ToHex (s : jstr) : jstr := bytes_hex (utf8_encode s).
Definition hexToUtf8 (hex : jstr) : option jstr := utf8_decode (hex_units hex).

(** * Lemmas *)

Definition lower_hex_text (s : jstr) : Prop :=
  Forall (λ c, is_digit c || in_range 97 102 c = true) s.

(** a test that holds on an initial segment of the integers, by evaluation *)
Lemma range_check (p : Z → bool) (m : nat) n :
  forallb p (map Z.of_nat (seq 0 m)) = true → 0 ≤ n < Z.of_nat m → p n = true.
Proof.
  intros H Hn. rewrite List.forallb_forall in H. apply H.
  apply in_map_iff. exists (Z.to_nat n). split; [lia|]. apply in_seq. lia.
Qed.

Lemma byte_nibbles b : byte_ok b → 0 ≤ b / 16 < 16 ∧ 0 ≤ b mod 16 < 16.
Proof.
  intros H. unfold byte_ok in H. split; [|apply Z.mod_pos_bound; lia].
  split; [apply Z.div_pos; lia|apply Z.div_lt_upper_bound; lia].
Qed.

(** Two digits read by [parseInt] give back the byte: a pair of hexadecimal
    digits is never taken for a sign, a space or a [0x] prefix. *)
Lemma hex_char_facts d :
  0 ≤ d < 16 →
  hex_val (hex_char d) = d ∧ is_hex (hex_char d) = true ∧ is_space (hex_char d) = false ∧
  bool_decide (hex_char d = "-"%char) = false ∧ bool_decide (hex_char d = "+"%char) = false ∧
  bool_decide (hex_char d = "x"%char) = false ∧ bool_decide (hex_char d = "X"%char) = false.
Proof.
  intros H. pose (p d := let c := hex_char d in (hex_val c =? d) && is_hex c && negb (is_space c) &&
    negb (bool_decide (c = "-"%char)) && negb (bool_decide (c = "+"%char)) &&
    negb (bool_decide (c = "x"%char)) && negb (bool_decide (c = "X"%char))).
  assert (p d = true) as E by (apply (range_check p 16); [vm_compute; reflexivity|lia]).
  unfold p in E. rewrite !andb_true_iff, !negb_true_iff, Z.eqb_eq in E. tauto.
Qed.

Lemma strip_0x_pair a b :
  bool_decide (b = "x"%char) = false → bool_decide (b = "X"%char) = false → strip_0x [a; b] = [a; b].
Proof.
  intros Hx HX. unfold strip_0x, startsWith. simpl. breflect.
  rewrite !bool_decide_eq_false_2; [done| |]; intros [= _ ->]; done.
Qed.

Lemma parseInt16_byte b : byte_ok b → parseInt16 (byte_hex b) = Some b.
Proof.
  intros Hb. destruct (byte_nibbles b Hb) as [H1 H2].
  destruct (hex_char_facts _ H1) as (V1 & X1 & S1 & M1 & P1 & _).
  destruct (hex_char_facts _ H2) as (V2 & X2 & _ & _ & _ & U2 & W2).
  unfold parseInt16, byte_hex. simpl drop_while. rewrite S1, M1, P1.
  rewrite strip_0x_pair by done. simpl take_while. rewrite X1, X2. simpl.
  rewrite V1, V2. f_equal. pose proof (Z.div_mod b 16). unfold byte_ok in Hb. lia.
Qed.

Lemma hex_units_bytes bs : Forall byte_ok bs → hex_units (bytes_hex bs) = bs.
Proof.
  induction 1 as [|b bs Hb _ IH]; [done|]. unfold bytes_hex. simpl.
  change [hex_char (b / 16); hex_char (b mod 16)] with (byte_hex b).
  rewrite parseInt16_byte by done. fold (bytes_hex bs). rewrite IH. f_equal.
  unfold fromCharCode. simpl. unfold byte_ok in Hb. apply Z.mod_small. lia.
Qed.

Lemma b64_char_facts n :
  0 ≤ n < 64 →
  b64_val (b64_char n) = Some n ∧ is_b64_space (b64_char n) = false ∧
  bool_decide (b64_char n = "="%char) = false.
Proof.
  intros H. pose (p n := let c := b64_char n in bool_decide (b64_val c = Some n) &&
    negb (is_b64_space c) && negb (bool_decide (c = "="%char))).
  assert (p n = true) as E by (apply (range_check p 64); [vm_compute; reflexivity|lia]).
  unfold p in E. rewrite !andb_true_iff, !negb_true_iff, bool_decide_eq_true in E. tauto.
Qed.

(** induction on lists three elements at a time *)
Lemma list_ind3 {A} (P : list A → Prop) :
  P [] → (∀ a, P [a]) → (∀ a b, P [a; b]) → (∀ a b c l, P l → P (a :: b :: c :: l)) → ∀ l, P l.
Proof.
  intros H0 H1 H2 H3. fix IH 1. intros [|a [|b [|c l]]]; [exact H0|apply H1|apply H2|apply H3, IH].
Qed.

(** the 6-bit groups of a byte string and the padding of its encoding *)
Fixpoint sextets (bs : bytes) : list Z :=
  match bs with
  | a :: b :: c :: bs' =>
      a / 4 :: a mod 4 * 16 + b / 16 :: b mod 16 * 4 + c / 64 :: c mod 64 :: sextets bs'
  | [a; b] => [a / 4; a mod 4 * 16 + b / 16; b mod 16 * 4]
  | [a] => [a / 4; a mod 4 * 16]
  | [] => []
  end.

Definition padding (bs : bytes) : jstr :=
  match (length bs mod 3)%nat with 1%nat => js "==" | 2%nat => js "=" | _ => [] end.

Lemma b64_encode_split bs : b64_encode bs = map b64_char (sextets bs) ++ padding bs.
Proof.
  induction bs as [|a|a b|a b c l IH] using list_ind3; [done..|].
  simpl. rewrite IH. do 4 f_equal. unfold padding. simpl length.
  replace (S (S (S (length l))) mod 3)%nat with (length l mod 3)%nat; [done|].
  replace (S (S (S (length l)))) with (length l + 1 * 3)%nat by lia. by rewrite Nat.Div0.mod_add.
Qed.

Lemma b64_encode_length bs : (length (b64_encode bs) mod 4 = 0)%nat.
Proof.
  induction bs as [|a|a b|a b c l IH] using list_ind3; [done..|].
  cbn [b64_encode length]. replace (S (S (S (S (length (b64_encode l))))))
    with (length (b64_encode l) + 1 * 4)%nat by lia.
  by rewrite Nat.Div0.mod_add.
Qed.

Lemma sextets_range bs : Forall byte_ok bs → Forall (λ n, 0 ≤ n < 64) (sextets bs).
Proof.
  unfold byte_ok. induction bs as [|a|a b|a b c l IH] using list_ind3; intros H; cbn [sextets];
    repeat match goal with H : Forall _ (_ :: _) |- _ => apply list.Forall_cons in H as [? H] end;
    repeat (apply list.Forall_cons; split); auto; Z.div_mod_to_equations; lia.
Qed.

Lemma b64_decode_sextets bs : Forall byte_ok bs → b64_decode (sextets bs) = Some bs.
Proof.
  unfold byte_ok. induction bs as [|a|a b|a b c l IH] using list_ind3; intros H; cbn [sextets b64_decode];
    repeat match goal with H : Forall _ (_ :: _) |- _ => apply list.Forall_cons in H as [? H] end;
    [done|..|rewrite IH by done; simpl]; repeat f_equal; Z.div_mod_to_equations; lia.
Qed.

Lemma mapM_b64_val l : Forall (λ n, 0 ≤ n < 64) l → mapM b64_val (map b64_char l) = Some l.
Proof.
  induction 1 as [|n l Hn _ IH]; [done|]. simpl. by rewrite (proj1 (b64_char_facts n Hn)), IH.
Qed.

Definition no_eq (s : jstr) : Prop := Forall (λ c, bool_decide (c = "="%char) = false) s.

Lemma last_n_app {A} (l t : list A) : last_n (length t) (l ++ t) = t.
Proof.
  unfold last_n. rewrite length_app. replace (length l + length t - length t)%nat with (length l) by lia.
  by rewrite drop_app_length.
Qed.

(** A text without the padding sign does not end with one. *)
Lemma no_eq_endsWith s t : no_eq s → endsWith (t ++ js "=") s = false.
Proof.
  intros Hs. unfold endsWith. apply andb_false_iff.
  destruct (length (t ++ js "=") <=? length s)%nat eqn:E; [right; breflect|by left].
  apply bool_decide_eq_false_2. intros Hl.
  assert (no_eq (last_n (length (t ++ js "=")) s)) as H by (apply Forall_drop; done).
  rewrite Hl in H. apply Forall_app in H as [_ H]. by apply list.Forall_cons in H as [H _].
Qed.

Lemma no_eq_endsWith2 s : no_eq s → endsWith (js "==") (s ++ js "=") = false.
Proof.
  intros Hs. unfold endsWith. apply andb_false_iff.
  destruct (_ <=? _)%nat eqn:E; [right; breflect|by left].
  apply bool_decide_eq_false_2. unfold last_n. intros Hl.
  change (length (js "==")) with 2%nat in *. rewrite length_app in *.
  change (length (js "=")) with 1%nat in *.
  rewrite drop_app_le in Hl by lia.
  assert (no_eq (drop (length s + 1 - 2) s)) as H by (apply Forall_drop; done).
  change (js "==") with (js "=" ++ js "=") in Hl. apply app_inj_2 in Hl as [Hl _]; [|done].
  rewrite Hl in H. by apply list.Forall_cons in H as [H _].
Qed.

Lemma endsWith_app s t : endsWith t (s ++ t) = true.
Proof.
  unfold endsWith. rewrite length_app, last_n_app, bool_decide_eq_true_2 by done.
  rewrite andb_true_r. apply Nat.leb_le. lia.
Qed.

Lemma drop_padding_encode bs :
  Forall byte_ok bs → drop_padding (b64_encode bs) = map b64_char (sextets bs).
Proof.
  intros H%sextets_range. assert (no_eq (map b64_char (sextets bs))) as Hn.
  { apply list.Forall_forall. intros c (n & <- & Hn)%list_elem_of_In%in_map_iff.
    apply b64_char_facts. rewrite list.Forall_forall in H. by apply H, list_elem_of_In. }
  unfold drop_padding. rewrite b64_encode_length. cbn [Nat.eqb].
  rewrite b64_encode_split. unfold padding. set (m := map b64_char (sextets bs)) in *.
  pose proof (no_eq_endsWith m (js "=") Hn : endsWith (js "==") m = false) as E2.
  pose proof (no_eq_endsWith m [] Hn : endsWith (js "=") m = false) as E1.
  destruct (length bs mod 3)%nat as [|[|[|]]].
  - by rewrite app_nil_r, E1, E2.
  - rewrite endsWith_app, length_app. change (length (js "==")) with 2%nat.
    replace (length m + 2 - 2)%nat with (length m) by lia. by rewrite take_app_length.
  - rewrite no_eq_endsWith2, endsWith_app, length_app by done. change (length (js "=")) with 1%nat.
    replace (length m + 1 - 1)%nat with (length m) by lia. by rewrite take_app_length.
  - by rewrite app_nil_r, E1, E2.
Qed.

Lemma filter_b64 bs :
  Forall byte_ok bs → List.filter (λ c, negb (is_b64_space c)) (b64_encode bs) = b64_encode bs.
Proof.
  intros H%sextets_range. rewrite b64_encode_split, List.filter_app. f_equal.
  - induction H as [|n l Hn _ IH]; [done|]. simpl.
    destruct (b64_char_facts n Hn) as (_ & -> & _). simpl. by rewrite IH.
  - unfold padding. by destruct (length bs mod 3)%nat as [|[|[|]]].
Qed.

Lemma atob_encode bs : Forall byte_ok bs → atob (b64_encode bs) = Some bs.
Proof.
  intros H. unfold atob. rewrite filter_b64, drop_padding_encode by done.
  rewrite mapM_b64_val by (by apply sextets_range). simpl. by apply b64_decode_sextets.
Qed.

Lemma btoa_bytes bs : Forall byte_ok bs → btoa bs = Some (b64_encode bs).
Proof.
  intros H. unfold btoa. replace (forallb _ bs) with true; [done|]. symmetry.
  apply forallb_Forall. eapply list.Forall_impl; [done|]. intros b [? ?].
  apply andb_true_iff. split; [by apply Z.leb_le|by apply Z.ltb_lt].
Qed.

Lemma code_bytes s : Forall byte_ok (map code s).
Proof. induction s; constructor; [apply code_range|done]. Qed.

Lemma utf8_encode_ok s : Forall byte_ok (utf8_encode s).
Proof.
  induction s as [|c s IH]; [constructor|]. simpl. apply Forall_app. split; [|done].
  unfold utf8_encode_char, byte_ok. pose proof (code_range c).
  destruct (code c <? 128) eqn:E; breflect; repeat constructor; Z.div_mod_to_equations; lia.
Qed.

Lemma utf8_roundtrip s : utf8_decode (utf8_encode s) = Some s.
Proof.
  induction s as [|c s IH]; [done|]. simpl. unfold utf8_encode_char. pose proof (code_range c).
  destruct (code c <? 128) eqn:E.
  - simpl. rewrite E. rewrite (proj2 (Z.leb_le 0 (code c))) by lia. simpl.
    rewrite IH. simpl. by rewrite chr_code.
  - breflect. cbn [utf8_decode app].
    rewrite (proj2 (Z.ltb_ge (192 + _) 128)), andb_false_r by (Z.div_mod_to_equations; lia).
    rewrite (proj2 (Z.leb_le 194 _)), (proj2 (Z.ltb_lt _ 196)), (proj2 (Z.leb_le 128 _)),
      (proj2 (Z.ltb_lt _ 192)) by (Z.div_mod_to_equations; lia).
    simpl. rewrite IH. simpl. do 2 f_equal. rewrite <-(chr_code c) at 3. f_equal.
    Z.div_mod_to_equations; lia.
Qed.

(** * Properties *)

(** A message body survives the trip through bytes: [hexToUtf8] undoes
    [utf8ToHex], so what the stub seals is what its recipient reads, for every
    Latin-1 text; and what [utf8ToHex] yields has two characters a byte. *)
Fact hexToUtf8_utf8ToHex s :
  hexToUtf8 (utf8ToHex s) = Some s ∧
  length (utf8ToHex s) = (2 * length (utf8_encode s))%nat.
Proof.
  split.
  - unfold hexToUtf8, utf8ToHex. rewrite hex_units_bytes by apply utf8_encode_ok. apply utf8_roundtrip.
  - unfold utf8ToHex, bytes_hex. induction (utf8_encode s) as [|b l IH]; [done|]. simpl. lia.
Qed.

(** A byte string passed to the bridge comes back unchanged: the
    hexadecimal form the REST layer gives, with or without [0x], is converted to
    Base64 by [hexToBase64] without an exception and [bytesToHex] gives the same
    hexadecimal text back; [base64Top8Hex] shows its first four bytes. *)
Fact hex_base64_roundtrip bs :
  Forall byte_ok bs →
  ∃ b64, hexToBase64 (bytes_hex bs) = Some b64 ∧ hexToBase64 (js "0x" ++ bytes_hex bs) = Some b64 ∧
    bytesToHex b64 = Some (bytes_hex bs) ∧ base64Top8Hex b64 = take 8 (bytes_hex bs).
Proof.
  intros H. exists (b64_encode bs).
  assert (startsWith (js "0x") (bytes_hex bs) = false) as Hx.
  { destruct H as [|b bs Hb _]; [done|]. unfold startsWith. apply bool_decide_eq_false_2.
    change (length (js "0x")) with 2%nat. simpl. intros [= _ Hx].
    destruct (byte_nibbles b Hb) as [_ H2]. destruct (hex_char_facts _ H2) as (_ & _ & _ & _ & _ & U & _).
    breflect. done. }
  assert (slice_from 2 (js "0x" ++ bytes_hex bs) = bytes_hex bs) as Hs.
  { unfold slice_from, slice_pos. by rewrite length_app. }
  unfold hexToBase64. rewrite Hx, Hs. change (startsWith (js "0x") (js "0x" ++ bytes_hex bs)) with
    (bool_decide (js "0x" = js "0x")). rewrite bool_decide_eq_true_2 by done.
  rewrite hex_units_bytes, btoa_bytes by done. unfold bytesToHex, base64Top8Hex.
  rewrite atob_encode by done. repeat split.
  destruct bs as [|? [|? [|? [|? ?]]]]; done.
Qed.

Lemma hex_base64_roundtrip_witness :
  ∃ b64, hexToBase64 (js "00ff10") = Some b64 ∧ bytesToHex b64 = Some (js "00ff10").
Proof.
  destruct (hex_base64_roundtrip [0; 255; 16]) as (b & H1 & _ & H2 & _).
  - repeat constructor; lia.
  - exists b. split; [exact H1|exact H2].
Defined.

(** The ASCII text the bridge passes in Base64 (associated data, user
    agents) decodes to its own bytes. *)
Fact asciiToBase64_atob s :
  ∃ b64, asciiToBase64 s = Some b64 ∧ atob b64 = Some (map code s).
Proof.
  exists (b64_encode (map code s)). unfold asciiToBase64. rewrite btoa_bytes by apply code_bytes.
  split; [done|]. apply atob_encode, code_bytes.
Qed.
