(* ===== verification/Json.v ===== *)
(** * JSON values, [JSON.stringify] and [JSON.parse]

    A value the program serialises or parses.  Numbers are exact: [JNum] an
    integer, [JDec m e] the fraction m / 10^e; the rounding of doubles beyond
    2^53 is not modelled.  A text is Latin-1, an object is the list of its
    properties in order. *)

From stdpp Require Import strings.
From S2P Require Import Prelude JsString JsMap.

#[local] Set Warnings "-register-all".

Inductive json :=
| JNull
| JBool (b : bool)
| JNum (n : Z)
| JDec (m : Z) (e : nat)
| JStr (s : jstr)
| JArr (l : list json)
| JObj (l : list (jstr * json)).

Section JsonInd.
Variable P : json → Prop.
Hypothesis H_null : P JNull.
Hypothesis H_bool : ∀ b, P (JBool b).
Hypothesis H_num : ∀ n, P (JNum n).
Hypothesis H_dec : ∀ m e, P (JDec m e).
Hypothesis H_str : ∀ s, P (JStr s).
Hypothesis H_arr : ∀ l, Forall P l → P (JArr l).
Hypothesis H_obj : ∀ l, Forall (λ kv, P kv.2) l → P (JObj l).

Lemma json_ind' : ∀ v, P v.
Proof.
  fix IH 1. intros [|b|n|m e|s|l|l].
  - exact H_null.
  - apply H_bool.
  - apply H_num.
  - apply H_dec.
  - apply H_str.
  - apply H_arr. induction l as [|v l IHl]; constructor; [apply IH|exact IHl].
  - apply H_obj. induction l as [|[k v] l IHl]; constructor; [apply (IH v)|exact IHl].
Qed.
End JsonInd.

(** ** [JSON.stringify] *)

Definition dq : ascii := "034"%char.
Definition bs : ascii := "092"%char.

Definition hex_digit (d : Z) : ascii := if d <? 10 then chr (48 + d) else chr (87 + d).

Definition escape_char (c : ascii) : jstr :=
  if bool_decide (c = dq) then [bs; dq]
  else if bool_decide (c = bs) then [bs; bs]
  else if code c =? 8 then [bs; "b"%char]
  else if code c =? 9 then [bs; "t"%char]
  else if code c =? 10 then [bs; "n"%char]
  else if code c =? 12 then [bs; "f"%char]
  else if code c =? 13 then [bs; "r"%char]
  else if code c <? 32 then
    [bs; "u"%char; "0"%char; "0"%char; hex_digit (code c / 16); hex_digit (code c mod 16)]
  else [c].

Definition quote_body (s : jstr) : jstr := flat_map escape_char s.
Definition quote (s : jstr) : jstr := dq :: quote_body s ++ [dq].

Definition num_str (n : Z) : jstr := dec_str n.
Definition dec_frac_str (m : Z) (e : nat) : jstr :=
  let a := Z.abs m in
  (if m <? 0 then js "-" else []) ++ dec_str (a / 10 ^ Z.of_nat e) ++ js "."
  ++ strip_trailing_zeros (padStart e "0"%char (dec_str (a mod 10 ^ Z.of_nat e))).

Fixpoint stringify (v : json) : jstr :=
  match v with
  | JNull => js "null"
  | JBool b => if b then js "true" else js "false"
  | JNum n => num_str n
  | JDec m e => dec_frac_str m e
  | JStr s => quote s
  | JArr l => "["%char :: join (js ",") (map stringify l) ++ js "]"
  | JObj l => "{"%char :: join (js ",") (map (λ kv, quote kv.1 ++ ":"%char :: stringify kv.2) l)
                ++ js "}"
  end.

(** ** [JSON.parse] *)

Definition is_json_ws (c : ascii) : bool :=
  (code c =? 32) || (code c =? 9) || (code c =? 10) || (code c =? 13).
Definition skip_ws (s : jstr) : jstr := drop_while is_json_ws s.

Definition hex_digit_val (c : ascii) : Z :=
  if is_digit c then code c - 48 else if in_range 97 102 c then code c - 87 else code c - 55.

Definition unescape (c : ascii) : option ascii :=
  if bool_decide (c = dq) then Some dq
  else if bool_decide (c = bs) then Some bs
  else if bool_decide (c = "/"%char) then Some "/"%char
  else if bool_decide (c = "b"%char) then Some (chr 8)
  else if bool_decide (c = "t"%char) then Some (chr 9)
  else if bool_decide (c = "n"%char) then Some (chr 10)
  else if bool_decide (c = "f"%char) then Some (chr 12)
  else if bool_decide (c = "r"%char) then Some (chr 13)
  else None.

(** the rest of a string after its opening quote; an escape beyond Latin-1 is
    outside the model and gives [None] *)
Fixpoint parse_str (s : jstr) : option (jstr * jstr) :=
  match s with
  | [] => None
  | c :: s' =>
      if bool_decide (c = dq) then Some ([], s')
      else if bool_decide (c = bs) then
        match s' with
        | e :: s'' =>
            if bool_decide (e = "u"%char) then
              match s'' with
              | h1 :: h2 :: h3 :: h4 :: r =>
                  if forallb is_hex [h1; h2; h3; h4] && (hex_digit_val h1 =? 0) && (hex_digit_val h2 =? 0)
                  then '(t, r') ← parse_str r;
                       Some (chr (16 * hex_digit_val h3 + hex_digit_val h4) :: t, r')
                  else None
              | _ => None
              end
            else u ← unescape e; '(t, r) ← parse_str s''; Some (u :: t, r)
        | [] => None
        end
      else if code c <? 32 then None
      else '(t, r) ← parse_str s'; Some (c :: t, r)
  end.

Definition mk_num (m : Z) (e : Z) : json :=
  if 0 <=? e then JNum (m * 10 ^ e)
  else if m mod 10 ^ (- e) =? 0 then JNum (m / 10 ^ (- e)) else JDec m (Z.to_nat (- e)).

Definition opt_sign (s : jstr) : Z * jstr :=
  match s with
  | c :: r => if bool_decide (c = "-"%char) then (-1, r)
              else if bool_decide (c = "+"%char) then (1, r) else (1, s)
  | [] => (1, [])
  end.

Definition parse_frac (s : jstr) : option (jstr * jstr) :=
  match s with
  | c :: r =>
      if bool_decide (c = "."%char) then
        if truthy (take_while is_digit r) then Some (take_while is_digit r, drop_while is_digit r) else None
      else Some ([], s)
  | [] => Some ([], [])
  end.

Definition parse_exp (s : jstr) : option (Z * jstr) :=
  match s with
  | c :: r =>
      if bool_decide (c = "e"%char) || bool_decide (c = "E"%char) then
        let '(sg, r') := opt_sign r in
        if truthy (take_while is_digit r') then Some (sg * dec_val (take_while is_digit r'), drop_while is_digit r')
        else None
      else Some (0, s)
  | [] => Some (0, [])
  end.

Definition leading_zero (ip : jstr) : bool :=
  match ip with c :: _ :: _ => bool_decide (c = "0"%char) | _ => false end.

Definition minus_sign (s : jstr) : Z * jstr :=
  match s with
  | c :: r => if bool_decide (c = "-"%char) then (-1, r) else (1, s)
  | [] => (1, s)
  end.

Definition parse_number (s : jstr) : option (json * jstr) :=
  let '(sg, r) := minus_sign s in
  let ip := take_while is_digit r in
  if negb (truthy ip) || leading_zero ip then None
  else '(fp, r2) ← parse_frac (drop_while is_digit r);
       '(ex, r3) ← parse_exp r2;
       Some (mk_num (sg * dec_val (ip ++ fp)) (ex - Z.of_nat (length fp)), r3).

Definition literal (l : jstr) (v : json) (s : jstr) : option (json * jstr) :=
  if startsWith l s then Some (v, drop (length l) s) else None.

(** One constructor is read per unit of fuel; a text of [n] characters holds at
    most [2 n] of them. *)
Fixpoint parse_value (fuel : nat) (s : jstr) : option (json * jstr) :=
  match fuel with
  | O => None
  | S f =>
      match skip_ws s with
      | [] => None
      | c :: r =>
          if bool_decide (c = dq) then '(t, r') ← parse_str r; Some (JStr t, r')
          else if bool_decide (c = "["%char) then
            match skip_ws r with
            | d :: r' => if bool_decide (d = "]"%char) then Some (JArr [], r') else parse_elems f r []
            | [] => None
            end
          else if bool_decide (c = "{"%char) then
            match skip_ws r with
            | d :: r' => if bool_decide (d = "}"%char) then Some (JObj [], r') else parse_members f r []
            | [] => None
            end
          else if bool_decide (c = "t"%char) then literal (js "true") (JBool true) (c :: r)
          else if bool_decide (c = "f"%char) then literal (js "false") (JBool false) (c :: r)
          else if bool_decide (c = "n"%char) then literal (js "null") JNull (c :: r)
          else parse_number (c :: r)
      end
  end
with parse_elems (fuel : nat) (s : jstr) (acc : list json) : option (json * jstr) :=
  match fuel with
  | O => None
  | S f =>
      '(v, r) ← parse_value f s;
      match skip_ws r with
      | c :: r' =>
          if bool_decide (c = ","%char) then parse_elems f r' (acc ++ [v])
          else if bool_decide (c = "]"%char) then Some (JArr (acc ++ [v]), r')
          else None
      | [] => None
      end
  end
with parse_members (fuel : nat) (s : jstr) (acc : list (jstr * json)) : option (json * jstr) :=
  match fuel with
  | O => None
  | S f =>
      match skip_ws s with
      | c :: r =>
          if bool_decide (c = dq) then
            '(k, r1) ← parse_str r;
            match skip_ws r1 with
            | d :: r2 =>
                if bool_decide (d = ":"%char) then
                  '(v, r3) ← parse_value f r2;
                  match skip_ws r3 with
                  | e :: r4 =>
                      if bool_decide (e = ","%char) then parse_members f r4 (mset k v acc)
                      else if bool_decide (e = "}"%char) then Some (JObj (mset k v acc), r4)
                      else None
                  | [] => None
                  end
                else None
            | [] => None
            end
          else None
      | [] => None
      end
  end.

(** the whole text, [None] for a [SyntaxError] *)
Definition json_parse (s : jstr) : option json :=
  '(v, r) ← parse_value (S (2 * length s)) s;
  if truthy (skip_ws r) then None else Some v.

(** ** Reading a property: [v.k] of an object, [undefined] ([None]) elsewhere *)

Definition jget (k : jstr) (v : json) : option json :=
  match v with JObj l => mget k l | _ => None end.

(** a property read at a type; [None] when it is missing or of another type *)
Definition jfield {A} (k : jstr) (f : json → option A) (v : json) : option A :=
  match jget k v with Some w => f w | None => None end.

(** an optional property: [undefined] when missing, [None] when of another type *)
Definition opt_field {A} (k : jstr) (f : json → option A) (v : json) : option (option A) :=
  match jget k v with Some w => Some <$> f w | None => Some None end.

Definition as_str (v : json) : option jstr := match v with JStr s => Some s | _ => None end.
Definition as_num (v : json) : option Z := match v with JNum n => Some n | _ => None end.
Definition as_bool (v : json) : option bool := match v with JBool b => Some b | _ => None end.
Definition as_arr (v : json) : option (list json) := match v with JArr l => Some l | _ => None end.
Definition as_obj (v : json) : option (list (jstr * json)) := match v with JObj l => Some l | _ => None end.

(** an [undefined] property is not written *)
Definition opt_prop (k : jstr) (v : option json) : list (jstr * json) :=
  match v with Some v => [(k, v)] | None => [] end.

(** * Lemmas *)

(** What [JSON.stringify] writes for a value of integers, with distinct keys,
    [JSON.parse] reads back. *)
Fixpoint plain (v : json) : Prop :=
  match v with
  | JDec _ _ => False
  | JArr l => fold_right (λ x acc, plain x ∧ acc) True l
  | JObj l => mwf l ∧ fold_right (λ kv acc, plain kv.2 ∧ acc) True l
  | _ => True
  end.

Lemma plain_arr l : plain (JArr l) ↔ Forall plain l.
Proof. simpl. induction l as [|v l IH]; simpl; [done|]. by rewrite IH, list.Forall_cons. Qed.

Lemma plain_obj l : plain (JObj l) ↔ mwf l ∧ Forall (λ kv, plain kv.2) l.
Proof.
  simpl. f_equiv. induction l as [|v l IH]; simpl; [done|]. by rewrite IH, list.Forall_cons.
Qed.

(** the end of a value: the end of the text or a character no number goes on with *)
Definition ends_value (s : jstr) : Prop :=
  match s with
  | [] => True
  | c :: _ => c = ","%char ∨ c = "]"%char ∨ c = "}"%char
  end.

Lemma parse_escaped c t : parse_str (escape_char c ++ t) = '(u, r) ← parse_str t; Some (c :: u, r).
Proof. destruct c as [[] [] [] [] [] [] [] []]; reflexivity. Qed.

Lemma parse_quote_body s t : parse_str (quote_body s ++ dq :: t) = Some (s, t).
Proof.
  induction s as [|c s IH]; [done|]. unfold quote_body in *. simpl.
  rewrite <-app_assoc, parse_escaped, IH. done.
Qed.

Lemma take_while_app {A} (p : A → bool) l t :
  Forall (λ x, p x = true) l → match t with [] => True | x :: _ => p x = false end →
  take_while p (l ++ t) = l ∧ drop_while p (l ++ t) = t.
Proof.
  intros Hl Ht. split; [|by rewrite drop_while_all, drop_while_id].
  induction Hl as [|x l Hx _ IH]; simpl; [destruct t; simpl; by rewrite ?Ht|]. by rewrite Hx, IH.
Qed.

Lemma ends_value_digit t : ends_value t → match t with [] => True | c :: _ => is_digit c = false end.
Proof. destruct t as [|c t]; [done|]. by intros [->|[->| ->]]. Qed.

Lemma ends_value_frac t : ends_value t → parse_frac t = Some ([], t) ∧ parse_exp t = Some (0, t).
Proof. destruct t as [|c t]; [done|]. by intros [->|[->| ->]]. Qed.

Lemma dec_str_no_leading_zero n : 0 ≤ n → leading_zero (dec_str n) = false.
Proof.
  intros H. destruct (Z.eq_dec n 0) as [->|]; [done|].
  pose proof (dec_str_positive_head n ltac:(lia)) as Hs. unfold leading_zero.
  destruct (dec_str n) as [|c [|d s]]; [done..|]. unfold strip_leading_zeros in Hs.
  change (bool_decide _) with (is_zero c). destruct (is_zero c) eqn:E; [|done].
  change (drop_while is_zero (c :: d :: s))
    with (if is_zero c then drop_while is_zero (d :: s) else c :: d :: s) in Hs.
  rewrite E in Hs. exfalso.
  pose proof (drop_while_length is_zero (d :: s)) as Hl. rewrite Hs in Hl. cbn [length] in Hl. lia.
Qed.

Lemma parse_number_abs n t :
  0 ≤ n → ends_value t →
  (if negb (truthy (take_while is_digit (dec_str n ++ t)))
      || leading_zero (take_while is_digit (dec_str n ++ t)) then None
   else '(fp, r2) ← parse_frac (drop_while is_digit (dec_str n ++ t));
        '(ex, r3) ← parse_exp r2;
        Some (take_while is_digit (dec_str n ++ t), fp, ex, r3)) = Some (dec_str n, [], 0, t).
Proof.
  intros Hn Ht. pose proof (dec_str_digits n Hn) as Hd.
  destruct (take_while_app is_digit (dec_str n) t Hd (ends_value_digit t Ht)) as [-> ->].
  rewrite (proj2 (truthy_true _) (dec_str_nonempty n)), dec_str_no_leading_zero by done. simpl.
  destruct (ends_value_frac t Ht) as [-> He]. simpl. by rewrite He.
Qed.

Lemma parse_number_num n t : ends_value t → parse_number (num_str n ++ t) = Some (JNum n, t).
Proof.
  intros Ht. unfold num_str, parse_number.
  destruct (Z_lt_le_dec n 0) as [Hn|Hn].
  - replace (dec_str n) with ("-"%char :: dec_str (- n)).
    2: { unfold dec_str. by rewrite (proj2 (Z.ltb_lt n 0)), (proj2 (Z.ltb_ge (- n) 0)) by lia. }
    rewrite <-app_comm_cons. cbn [minus_sign]. rewrite bool_decide_eq_true_2 by done.
    pose proof (parse_number_abs (- n) t ltac:(lia) Ht) as P. revert P.
    destruct (negb _ || _); [done|]. destruct (parse_frac _) as [[fp r2]|]; [|done]. simpl.
    destruct (parse_exp r2) as [[ex r3]|]; [|done]. simpl. intros [= -> -> -> ->].
    rewrite app_nil_r, dec_str_val by lia. unfold mk_num. simpl. do 3 f_equal. lia.
  - pose proof (parse_number_abs n t Hn Ht) as P. pose proof (dec_str_digits n Hn) as Hd.
    pose proof (dec_str_nonempty n) as Hne.
    assert (Hs : minus_sign (dec_str n ++ t) = (1, dec_str n ++ t)).
    { destruct (dec_str n) as [|c l] eqn:E; [done|]. apply list.Forall_cons in Hd as [Hc _].
      simpl. rewrite bool_decide_eq_false_2; [done|]. by intros ->. }
    rewrite Hs. revert P.
    destruct (negb _ || _); [done|]. destruct (parse_frac _) as [[fp r2]|]; [|done]. simpl.
    destruct (parse_exp r2) as [[ex r3]|]; [|done]. simpl. intros [= -> -> -> ->].
    rewrite app_nil_r, dec_str_val by lia. unfold mk_num. simpl. do 3 f_equal. lia.
Qed.

(** the first character of a number sends [parse_value] to [parse_number] *)
Definition num_head (c : ascii) : bool := is_digit c || bool_decide (c = "-"%char).

Lemma num_str_head n : ∃ c s, num_str n = c :: s ∧ num_head c = true.
Proof.
  unfold num_str. destruct (Z_lt_le_dec n 0).
  - unfold dec_str. rewrite (proj2 (Z.ltb_lt n 0)) by lia. eexists _, _. by split.
  - pose proof (dec_str_digits n ltac:(lia)) as Hd. pose proof (dec_str_nonempty n).
    destruct (dec_str n) as [|c s]; [done|]. exists c, s. split; [done|].
    apply list.Forall_cons in Hd as [Hc _]. unfold num_head. by rewrite Hc.
Qed.

Lemma num_head_facts c :
  num_head c = true →
  is_json_ws c = false ∧ bool_decide (c = dq) = false ∧ bool_decide (c = "["%char) = false ∧
  bool_decide (c = "{"%char) = false ∧ bool_decide (c = "t"%char) = false ∧
  bool_decide (c = "f"%char) = false ∧ bool_decide (c = "n"%char) = false.
Proof. destruct c as [[] [] [] [] [] [] [] []]; by vm_compute. Qed.

Lemma skip_ws_cons c s : is_json_ws c = false → skip_ws (c :: s) = c :: s.
Proof. intros H. unfold skip_ws. simpl. by rewrite H. Qed.

(** No text of a value starts with white space or closes a bracket. *)
Lemma stringify_head v :
  plain v → ∃ c s, stringify v = c :: s ∧ is_json_ws c = false ∧
    bool_decide (c = "]"%char) = false ∧ bool_decide (c = "}"%char) = false.
Proof.
  destruct v as [|[]|n|m e|s|l|l]; intros H; try done; try (by eexists _, _).
  destruct (num_str_head n) as (c & s & E & Hc). exists c, s. split; [done|].
  revert Hc. clear. destruct c as [[] [] [] [] [] [] [] []]; by vm_compute.
Qed.

Lemma stringify_skip v t : plain v → skip_ws (stringify v ++ t) = stringify v ++ t.
Proof. intros (c & s & E & H & _)%stringify_head. rewrite E. by apply skip_ws_cons. Qed.

Lemma skip_ws_ends t : ends_value t → skip_ws t = t.
Proof. destruct t as [|c t]; [done|]. by intros [->|[->| ->]]. Qed.

Definition parses (v : json) : Prop :=
  ∀ fuel t, (length (stringify v) ≤ fuel)%nat → ends_value t →
    parse_value fuel (stringify v ++ t) = Some (v, t).

Lemma stringify_length v : plain v → (1 ≤ length (stringify v))%nat.
Proof. intros (c & s & E & _)%stringify_head. rewrite E. simpl. lia. Qed.

Lemma join_cons2 sep (x y : jstr) l : join sep (x :: y :: l) = x ++ sep ++ join sep (y :: l).
Proof. done. Qed.

Lemma join_head sep (x : jstr) l : ∃ u, join sep (x :: l) = x ++ u.
Proof. destruct l; simpl; eexists; [by rewrite app_nil_r|done]. Qed.

Lemma parse_elems_join l acc fuel t :
  l ≠ [] → Forall parses l → Forall plain l →
  (length (join (js ",") (map stringify l)) < fuel)%nat →
  parse_elems fuel (join (js ",") (map stringify l) ++ "]"%char :: t) acc = Some (JArr (acc ++ l), t).
Proof.
  revert acc fuel. induction l as [|v l IH]; intros acc fuel Hne Hp Hpl Hf; [done|].
  apply list.Forall_cons in Hp as [Hv Hp]. apply list.Forall_cons in Hpl as [Hvp Hpl].
  destruct fuel as [|fuel]; [lia|]. destruct l as [|w l].
  - cbn [map join] in *. cbn [parse_elems]. rewrite Hv; [|lia|by right; left]. simpl. done.
  - cbn [map] in *. rewrite join_cons2 in *. rewrite !length_app in Hf.
    change (length (js ",")) with 1%nat in Hf. rewrite <-!app_assoc. cbn [parse_elems].
    rewrite Hv; [|lia|by left]. cbn [mbind option_bind]. rewrite skip_ws_ends by (by left).
    change (js "," ++ ?x) with (","%char :: x). cbv iota. rewrite bool_decide_eq_true_2 by done.
    rewrite IH; [by rewrite <-app_assoc|done..|]. cbn [map]. pose proof (stringify_length v Hvp). lia.
Qed.

Definition member (kv : jstr * json) : jstr := quote kv.1 ++ ":"%char :: stringify kv.2.

Lemma parse_members_join l acc fuel t :
  l ≠ [] → Forall (λ kv, parses kv.2) l → Forall (λ kv, plain kv.2) l →
  NoDup (mkeys acc ++ mkeys l) →
  (length (join (js ",") (map member l)) < fuel)%nat →
  parse_members fuel (join (js ",") (map member l) ++ "}"%char :: t) acc = Some (JObj (acc ++ l), t).
Proof.
  revert acc fuel. induction l as [|[k v] l IH]; intros acc fuel Hne Hp Hpl Hd Hf; [done|].
  apply list.Forall_cons in Hp as [Hv Hp]. apply list.Forall_cons in Hpl as [Hvp Hpl].
  cbn [fst snd] in *. destruct fuel as [|fuel]; [lia|].
  assert (Hset : mset k v acc = acc ++ [(k, v)]).
  { apply mset_append. intros Hk. apply list.NoDup_app in Hd as (_ & Hd & _).
    apply (Hd k); [done|]. left. }
  assert (∀ u, skip_ws (quote k ++ u) = dq :: (quote_body k ++ dq :: u)) as Hq.
  { intros u. unfold quote. rewrite <-app_comm_cons, <-app_assoc. done. }
  destruct l as [|w l].
  - cbn [map join] in *. unfold member in *. cbn [fst snd] in *. rewrite length_app in Hf. simpl in Hf.
    rewrite <-app_assoc. cbn [parse_members]. rewrite Hq. rewrite bool_decide_eq_true_2 by done.
    rewrite parse_quote_body. cbn [mbind option_bind]. rewrite <-app_comm_cons, skip_ws_cons by done.
    rewrite bool_decide_eq_true_2 by done. rewrite Hv; [|lia|by right; right]. simpl. by rewrite Hset.
  - cbn [map] in *. rewrite join_cons2 in *. rewrite !length_app in Hf.
    change (length (js ",")) with 1%nat in Hf. unfold member at 1 in Hf. cbn [fst snd] in Hf.
    rewrite length_app in Hf. cbn [length] in Hf.
    unfold member at 1. cbn [fst snd].
    rewrite <-!app_assoc. cbn [parse_members]. rewrite Hq. rewrite bool_decide_eq_true_2 by done.
    rewrite parse_quote_body. cbn [mbind option_bind]. rewrite <-app_comm_cons, skip_ws_cons by done.
    rewrite bool_decide_eq_true_2 by done. rewrite Hv; [|lia|by left].
    cbn [mbind option_bind]. rewrite skip_ws_ends by (by left).
    change (js "," ++ ?x) with (","%char :: x). cbv iota. rewrite bool_decide_eq_true_2 by done.
    rewrite Hset, IH; [by rewrite <-app_assoc|done..| |].
    + unfold mkeys in *. rewrite map_app, <-app_assoc. exact Hd.
    + cbn [map]. lia.
Qed.

Lemma parse_stringify v : plain v → parses v.
Proof.
  induction v as [|b|n|m e|s|l IH|l IH] using json_ind'; intros Hp fuel t Hf Ht; [| | |done| | |].
  - destruct fuel; [vm_compute in Hf; lia|done].
  - destruct fuel; [by destruct b; simpl in Hf; lia|by destruct b].
  - cbn [stringify] in *. destruct (num_str_head n) as (c & s & E & Hc). rewrite E in *.
    destruct fuel as [|fuel]; [cbn in Hf; lia|]. cbn [parse_value].
    destruct (num_head_facts c Hc) as (W & F1 & F2 & F3 & F4 & F5 & F6).
    rewrite <-app_comm_cons, skip_ws_cons, F1, F2, F3, F4, F5, F6 by done.
    rewrite app_comm_cons, <-E. by apply parse_number_num.
  - cbn [stringify] in *. unfold quote in *. destruct fuel as [|fuel]; [cbn in Hf; lia|]. cbn [parse_value].
    rewrite <-app_comm_cons, skip_ws_cons, bool_decide_eq_true_2 by done.
    rewrite <-app_assoc. change ([dq] ++ t) with (dq :: t). by rewrite parse_quote_body.
  - apply plain_arr in Hp. destruct fuel as [|fuel]; [cbn in Hf; lia|].
    cbn [stringify parse_value] in *. cbn [length] in Hf. rewrite length_app in Hf.
    change (length (js "]")) with 1%nat in Hf.
    rewrite <-app_comm_cons, skip_ws_cons by done.
    rewrite bool_decide_eq_false_2, bool_decide_eq_true_2 by done. rewrite <-app_assoc.
    destruct l as [|v l]; [done|].
    assert (Forall parses (v :: l)) as Hall.
    { apply list.Forall_forall. intros x Hx. rewrite list.Forall_forall in IH, Hp. auto. }
    assert (∃ c s, join (js ",") (map stringify (v :: l)) = c :: s ∧ is_json_ws c = false ∧
      bool_decide (c = "]"%char) = false) as (c & s & Es & Hw & Hb).
    { apply list.Forall_cons in Hp as [Hv _]. destruct (stringify_head v Hv) as (c & s & E & W & B & _).
      cbn [map]. destruct (join_head (js ",") (stringify v) (map stringify l)) as (u & ->). rewrite E.
      by exists c, (s ++ u). }
    rewrite Es at 1. rewrite <-app_comm_cons, skip_ws_cons, Hb by done.
    change (js "]" ++ t) with ("]"%char :: t).
    rewrite parse_elems_join; [done|done|done|done|lia].
  - apply plain_obj in Hp as [Hd Hp]. destruct fuel as [|fuel]; [cbn in Hf; lia|].
    cbn [stringify parse_value] in *. cbn [length] in Hf. rewrite length_app in Hf.
    change (length (js "}")) with 1%nat in Hf.
    rewrite <-app_comm_cons, skip_ws_cons by done.
    rewrite !bool_decide_eq_false_2, bool_decide_eq_true_2 by done. rewrite <-app_assoc.
    change (λ kv : jstr * json, quote kv.1 ++ ":"%char :: stringify kv.2) with member in *.
    destruct l as [|kv l]; [done|].
    assert (Forall (λ kv, parses kv.2) (kv :: l)) as Hall.
    { apply list.Forall_forall. intros x Hx. rewrite list.Forall_forall in IH, Hp. auto. }
    assert (∃ s, join (js ",") (map member (kv :: l)) = dq :: s) as (s & Es).
    { cbn [map]. destruct (join_head (js ",") (member kv) (map member l)) as (u & ->).
      unfold member, quote. by eexists. }
    rewrite Es at 1. rewrite <-app_comm_cons, skip_ws_cons by done. rewrite bool_decide_eq_false_2 by done.
    change (js "}" ++ t) with ("}"%char :: t).
    rewrite Nat.add_1_r in Hf. rewrite parse_members_join; [done|done|done|done|exact Hd|exact (le_S_n _ _ Hf)].
Qed.

Lemma json_parse_stringify v : plain v → json_parse (stringify v) = Some v.
Proof.
  intros Hp. unfold json_parse. rewrite <-(app_nil_r (stringify v)) at 2.
  rewrite (parse_stringify v Hp); [done|lia|done].
Qed.

Example parse_example :
  json_parse (js "[1, -20,true , {}, [ ],1.50, 2e3]")
  = Some (JArr [JNum 1; JNum (-20); JBool true; JObj []; JArr []; JDec 150 2; JNum 2000]).
Proof. vm_compute. reflexivity. Qed.
