(* ===== verification/MsgStore.v ===== *)
(** * The messaging store: src/types/messaging.ts, src/services/MessagingStorage.ts
      and src/services/MessagingMockData.ts

    The module-level variables of MessagingMockData.ts are the record [store];
    every exported function is a function on it.  The debounced save is the
    pending timer [saveTimer] with the DID it captured.  The end of the file
    puts the store beside the keychain and the loads and saves in flight, as a
    step relation. *)

From Stdlib Require Import Sorting.Sorted.
From stdpp Require Import strings.
From S2P Require Import Prelude JsString JsMap Json.

(** ** types/messaging.ts *)

Definition Did : Set := jstr.

Inductive MessageContentType :=
| Text | Image | File | Voice | KeyExchange | KeyRatchet | ReadReceipt | Undecryptable.

Inductive MessageStatus := pending | sent | delivered | read | failed.

Inductive Direction := dir_sent | dir_received.

#[export] Instance MessageContentType_eq_dec : EqDecision MessageContentType.
Proof. solve_decision. Defined.
#[export] Instance MessageStatus_eq_dec : EqDecision MessageStatus.
Proof. solve_decision. Defined.
#[export] Instance Direction_eq_dec : EqDecision Direction.
Proof. solve_decision. Defined.

Record Contact := mkContact {
  did : Did;
  username : jstr;
  display_name : jstr;
  kyber_pk : option jstr;
  dilithium_pk : option jstr;
  online : bool;
  last_seen : option Z;
}.

Record LocalMessage := mkMessage {
  id : jstr;
  conversation_did : Did;
  direction : Direction;
  content_type : MessageContentType;
  body : jstr;
  timestamp : Z;
  epoch : Z;
  sequence : Z;
  status : MessageStatus;
}.

Record Conversation := mkConversation {
  contact : Contact;
  last_message : LocalMessage;
  unread_count : Z;
}.

#[export] Instance Contact_eq_dec : EqDecision Contact.
Proof. solve_decision. Defined.
#[export] Instance LocalMessage_eq_dec : EqDecision LocalMessage.
Proof. solve_decision. Defined.

(** ** The store *)

Record store := mkStore {
  liveSelfDid : option Did;
  contactsByDid : jsmap Did Contact;
  messagesByConversation : jsmap Did (list LocalMessage);
  unreadByDid : jsmap Did Z;
  serializedSessionsByDid : jsmap Did jstr;
  saveEnabled : bool;
  saveTimer : option Did;       (* the DID the pending timer captured *)
}.

Definition FALLBACK_SELF_DID : Did :=
  js "did:zhtp:0000000000000000000000000000000000000000000000000000000000000001".

Definition empty_store : store := mkStore None [] [] [] [] false None.

Definition with_contacts c s := mkStore (liveSelfDid s) c (messagesByConversation s) (unreadByDid s)
  (serializedSessionsByDid s) (saveEnabled s) (saveTimer s).
Definition with_messages m s := mkStore (liveSelfDid s) (contactsByDid s) m (unreadByDid s)
  (serializedSessionsByDid s) (saveEnabled s) (saveTimer s).
Definition with_unread u s := mkStore (liveSelfDid s) (contactsByDid s) (messagesByConversation s) u
  (serializedSessionsByDid s) (saveEnabled s) (saveTimer s).
Definition with_sessions x s := mkStore (liveSelfDid s) (contactsByDid s) (messagesByConversation s)
  (unreadByDid s) x (saveEnabled s) (saveTimer s).
Definition with_timer t s := mkStore (liveSelfDid s) (contactsByDid s) (messagesByConversation s)
  (unreadByDid s) (serializedSessionsByDid s) (saveEnabled s) t.
Definition with_enabled b s := mkStore (liveSelfDid s) (contactsByDid s) (messagesByConversation s)
  (unreadByDid s) (serializedSessionsByDid s) b (saveTimer s).

(** the stored blob; a field of a type the code tests for is an [option] *)
Record MessagingStateBlob := mkBlob {
  contacts : list Contact;
  messages : list (Did * option (list LocalMessage));
  unread : list (Did * option Z);
  sessions : option (list (Did * option jstr));
}.

Definition snapshot (s : store) : MessagingStateBlob :=
  mkBlob (mvalues (contactsByDid s))
    (map (λ e, (e.1, Some e.2)) (messagesByConversation s))
    (map (λ e, (e.1, Some e.2)) (unreadByDid s))
    (Some (map (λ e, (e.1, Some e.2)) (serializedSessionsByDid s))).

Definition scheduleSave (s : store) : store :=
  match liveSelfDid s with
  | Some d => if saveEnabled s && truthy d then with_timer (Some d) s else s
  | None => s
  end.

(** The listeners are the screens' callbacks; what [notify] changes in the
    store is the save timer. *)
Definition notify (s : store) : store := scheduleSave s.

Definition clearAll (s : store) : store :=
  with_sessions [] (with_unread [] (with_messages [] (with_contacts [] s))).

Definition keep_some {A} (p : A → bool) (entries : list (Did * option A)) (m : jsmap Did A) : jsmap Did A :=
  fold_left (λ acc e, match e.2 with Some v => if p v then mset e.1 v acc else acc | None => acc end)
    entries m.

Definition hydrateFromBlob (blob : MessagingStateBlob) (s : store) : store :=
  let s := with_contacts (fold_left (λ acc c, mset (did c) c acc) (contacts blob) (contactsByDid s)) s in
  let s := with_messages (keep_some (λ _, true) (messages blob) (messagesByConversation s)) s in
  let s := with_unread (keep_some (λ _, true) (unread blob) (unreadByDid s)) s in
  match sessions blob with
  | Some ss => with_sessions (keep_some truthy ss (serializedSessionsByDid s)) s
  | None => s
  end.

(** [setSelfDid] up to the load it may start (second component) *)
Definition setSelfDid (d : option Did) (s : store) : store * option Did :=
  let next := match d with Some d => if truthy d then Some d else None | None => None end in
  if decide (next = liveSelfDid s) then (s, None)
  else
    let s := with_timer None (with_enabled false s) in
    let s := mkStore next (contactsByDid s) (messagesByConversation s) (unreadByDid s)
               (serializedSessionsByDid s) (saveEnabled s) (saveTimer s) in
    (notify (clearAll s), next).

(** the callback of the load started for [next] *)
Definition on_loaded (next : Did) (blob : option MessagingStateBlob) (s : store) : store :=
  if decide (liveSelfDid s = Some next) then
    let s := match blob with Some b => notify (hydrateFromBlob b s) | None => s end in
    with_enabled true s
  else s.

(** ** Read API *)

Definition getSelfDid (s : store) : Did := default FALLBACK_SELF_DID (liveSelfDid s).
Definition hasLiveSelfDid (s : store) : bool := match liveSelfDid s with Some _ => true | None => false end.
Definition getContacts (s : store) : list Contact := mvalues (contactsByDid s).
Definition getContact (d : Did) (s : store) : option Contact := mget d (contactsByDid s).
Definition getMessages (d : Did) (s : store) : list LocalMessage := default [] (mget d (messagesByConversation s)).
Definition getSerializedSession (d : Did) (s : store) : option jstr := mget d (serializedSessionsByDid s).

Definition conversation_row (s : store) (c : Contact) : option Conversation :=
  match mget (did c) (messagesByConversation s) with
  | Some (m :: ms) =>
      Some (mkConversation c (List.last ms m) (default 0 (mget (did c) (unreadByDid s))))
  | _ => None
  end.

Definition conversation_cmp (a b : Conversation) : Z :=
  timestamp (last_message b) - timestamp (last_message a).

Definition getConversations (s : store) : list Conversation :=
  js_sort conversation_cmp (omap (conversation_row s) (mvalues (contactsByDid s))).

(** ** Write API *)

Definition upsertContact (c : Contact) (s : store) : store :=
  notify (with_contacts (mset (did c) c (contactsByDid s)) s).

Definition appendMessage (msg : LocalMessage) (s : store) : store :=
  let d := conversation_did msg in
  let s := with_messages (mset d (getMessages d s ++ [msg]) (messagesByConversation s)) s in
  let s := match direction msg with
           | dir_received => with_unread (mset d (default 0 (mget d (unreadByDid s)) + 1) (unreadByDid s)) s
           | dir_sent => s
           end in
  notify s.

Definition markRead (d : Did) (s : store) : store :=
  if default 0 (mget d (unreadByDid s)) =? 0 then s
  else notify (with_unread (mset d 0 (unreadByDid s)) s).

Definition set_messages (d : Did) (l : list LocalMessage) (s : store) : store :=
  notify (with_messages (mset d l (messagesByConversation s)) s).

Definition has_id (i : jstr) (m : LocalMessage) : bool := bool_decide (id m = i).

Definition replaceMessage (d : Did) (oldId : jstr) (next : LocalMessage) (s : store) : store :=
  match mget d (messagesByConversation s) with
  | None => s
  | Some arr =>
      match find_index (has_id oldId) arr with
      | None => s
      | Some idx => set_messages d (take idx arr ++ [next] ++ drop (S idx) arr) s
      end
  end.

Definition removeMessage (d : Did) (i : jstr) (s : store) : store :=
  match mget d (messagesByConversation s) with
  | None => s
  | Some arr =>
      let filtered := List.filter (λ m, negb (has_id i m)) arr in
      if (length filtered =? length arr)%nat then s else set_messages d filtered s
  end.

(** the patches the program passes to [updateMessageStatus] *)
Record MessagePatch := mkPatch { patch_epoch : option Z; patch_sequence : option Z }.
Definition no_patch : MessagePatch := mkPatch None None.

Definition with_status (st : MessageStatus) (p : MessagePatch) (m : LocalMessage) : LocalMessage :=
  mkMessage (id m) (conversation_did m) (direction m) (content_type m) (body m) (timestamp m)
    (default (epoch m) (patch_epoch p)) (default (sequence m) (patch_sequence p)) st.

Definition updateMessageStatus (d : Did) (i : jstr) (st : MessageStatus) (p : MessagePatch) (s : store)
    : store * bool :=
  match mget d (messagesByConversation s) with
  | None => (s, false)
  | Some arr =>
      match find_index (has_id i) arr with
      | None => (s, false)
      | Some idx => (set_messages d (alter (with_status st p) idx arr) s, true)
      end
  end.

Definition is_sent (seq ep : Z) (m : LocalMessage) : bool :=
  bool_decide (direction m = dir_sent) && (sequence m =? seq) && (epoch m =? ep).

Definition confirmSentMessage (d : Did) (seq ep : Z) (s : store) : store * bool :=
  match mget d (messagesByConversation s) with
  | None => (s, false)
  | Some arr =>
      match find_index (is_sent seq ep) arr with
      | None => (s, false)
      | Some idx => (set_messages d (alter (with_status read no_patch) idx arr) s, true)
      end
  end.

Definition setSerializedSession (d : Did) (b64 : jstr) (s : store) : store :=
  notify (with_sessions (mset d b64 (serializedSessionsByDid s)) s).

Definition clearSerializedSession (d : Did) (s : store) : store :=
  if mhas d (serializedSessionsByDid s)
  then notify (with_sessions (mdelete d (serializedSessionsByDid s)) s) else s.

Definition deleteConversation (d : Did) (s : store) : store :=
  let s := with_messages (mdelete d (messagesByConversation s)) s in
  let s := with_contacts (mdelete d (contactsByDid s)) s in
  let s := with_unread (mdelete d (unreadByDid s)) s in
  notify (with_sessions (mdelete d (serializedSessionsByDid s)) s).

(** ** MessagingStorage.ts *)

Definition SERVICE_PREFIX : jstr := js "sovnet_messaging_v1_".

(** [selfDid.replace(/^did:zhtp:/, '')] *)
Definition strip_did (d : Did) : jstr :=
  if startsWith (js "did:zhtp:") d then drop (length (js "did:zhtp:")) d else d.

Definition serviceFor (selfDid : Did) : jstr := SERVICE_PREFIX ++ slice_from (-16) (strip_did selfDid).

Definition content_type_str (c : MessageContentType) : jstr :=
  match c with
  | Text => js "text" | Image => js "image" | File => js "file" | Voice => js "voice"
  | KeyExchange => js "key_exchange" | KeyRatchet => js "key_ratchet"
  | ReadReceipt => js "read_receipt" | Undecryptable => js "undecryptable"
  end.
Definition status_str (s : MessageStatus) : jstr :=
  match s with
  | pending => js "pending" | sent => js "sent" | delivered => js "delivered"
  | read => js "read" | failed => js "failed"
  end.
Definition direction_str (d : Direction) : jstr :=
  match d with dir_sent => js "sent" | dir_received => js "received" end.

(** the value of an enumeration that is spelled so *)
Definition of_str {A} (all : list A) (spell : A → jstr) (s : jstr) : option A :=
  List.find (λ a, bool_decide (spell a = s)) all.
Definition content_types : list MessageContentType :=
  [Text; Image; File; Voice; KeyExchange; KeyRatchet; ReadReceipt; Undecryptable].
Definition statuses : list MessageStatus := [pending; sent; delivered; read; failed].
Definition directions : list Direction := [dir_sent; dir_received].

Definition contact_json (c : Contact) : json :=
  JObj ([(js "did", JStr (did c)); (js "username", JStr (username c));
         (js "display_name", JStr (display_name c))]
        ++ opt_prop (js "kyber_pk") (JStr <$> kyber_pk c)
        ++ opt_prop (js "dilithium_pk") (JStr <$> dilithium_pk c)
        ++ [(js "online", JBool (online c))] ++ opt_prop (js "last_seen") (JNum <$> last_seen c)).

Definition message_json (m : LocalMessage) : json :=
  JObj [(js "id", JStr (id m)); (js "conversation_did", JStr (conversation_did m));
        (js "direction", JStr (direction_str (direction m)));
        (js "content_type", JStr (content_type_str (content_type m)));
        (js "body", JStr (body m)); (js "timestamp", JNum (timestamp m));
        (js "epoch", JNum (epoch m)); (js "sequence", JNum (sequence m));
        (js "status", JStr (status_str (status m)))].

Definition entries_json {A} (f : A → json) (l : list (Did * option A)) : json :=
  JObj (map (λ e, (e.1, match e.2 with Some v => f v | None => JNull end)) l).

Definition blob_json (b : MessagingStateBlob) : json :=
  JObj ([(js "version", JNum 1); (js "contacts", JArr (map contact_json (contacts b)));
         (js "messages", entries_json (λ l, JArr (map message_json l)) (messages b));
         (js "unread", entries_json JNum (unread b))]
        ++ opt_prop (js "sessions") (entries_json JStr <$> sessions b)).

(** *** The cast [JSON.parse(...) as MessagingStateBlob]

    A value read from the keychain, seen at its declared type; a value of
    another type has no image ([None]), except where the code tests for it. *)

Definition contact_of_json (v : json) : option Contact :=
  d ← jfield (js "did") as_str v; u ← jfield (js "username") as_str v;
  n ← jfield (js "display_name") as_str v; kp ← opt_field (js "kyber_pk") as_str v;
  dp ← opt_field (js "dilithium_pk") as_str v; o ← jfield (js "online") as_bool v;
  ls ← opt_field (js "last_seen") as_num v;
  Some (mkContact d u n kp dp o ls).

Definition message_of_json (v : json) : option LocalMessage :=
  i ← jfield (js "id") as_str v; c ← jfield (js "conversation_did") as_str v;
  d ← jfield (js "direction") (λ w, as_str w ≫= of_str directions direction_str) v;
  t ← jfield (js "content_type") (λ w, as_str w ≫= of_str content_types content_type_str) v;
  b ← jfield (js "body") as_str v; ts ← jfield (js "timestamp") as_num v;
  e ← jfield (js "epoch") as_num v; q ← jfield (js "sequence") as_num v;
  st ← jfield (js "status") (λ w, as_str w ≫= of_str statuses status_str) v;
  Some (mkMessage i c d t b ts e q st).

Definition entry_messages (e : jstr * json) : option (Did * option (list LocalMessage)) :=
  match e.2 with
  | JArr l => ms ← mapM message_of_json l; Some (e.1, Some ms)
  | _ => Some (e.1, None)
  end.

Definition blob_of_json (v : json) : option MessagingStateBlob :=
  cs ← jfield (js "contacts") (λ w, as_arr w ≫= mapM contact_of_json) v;
  ms ← jfield (js "messages") (λ w, as_obj w ≫= mapM entry_messages) v;
  us ← jfield (js "unread") as_obj v;
  ss ← opt_field (js "sessions") as_obj v;
  Some (mkBlob cs ms (map (λ e, (e.1, as_num e.2)) us)
          (option_map (map (λ e, (e.1, as_str e.2))) ss)).

(** [text]: what [Keychain.getGenericPassword] gives, [None] when it fails or
    finds nothing *)
Definition loadMessagingState (text : option jstr) : option MessagingStateBlob :=
  t ← text; parsed ← json_parse t;
  match jget (js "version") parsed with
  | Some (JNum 1) => blob_of_json parsed
  | _ => None
  end.

(** the text [saveMessagingState] stores *)
Definition saveMessagingState (blob : MessagingStateBlob) : jstr := stringify (blob_json blob).

(** ** The store, its keychain and the operations in flight *)

Inductive store_op :=
| OpUpsert (c : Contact)
| OpAppend (m : LocalMessage)
| OpMarkRead (d : Did)
| OpReplace (d : Did) (oldId : jstr) (next : LocalMessage)
| OpRemove (d : Did) (i : jstr)
| OpUpdate (d : Did) (i : jstr) (st : MessageStatus) (p : MessagePatch)
| OpConfirm (d : Did) (seq ep : Z)
| OpSetSession (d : Did) (b64 : jstr)
| OpClearSession (d : Did)
| OpDelete (d : Did).

Definition run_op (o : store_op) (s : store) : store :=
  match o with
  | OpUpsert c => upsertContact c s
  | OpAppend m => appendMessage m s
  | OpMarkRead d => markRead d s
  | OpReplace d i m => replaceMessage d i m s
  | OpRemove d i => removeMessage d i s
  | OpUpdate d i st p => (updateMessageStatus d i st p s).1
  | OpConfirm d q e => (confirmSentMessage d q e s).1
  | OpSetSession d b => setSerializedSession d b s
  | OpClearSession d => clearSerializedSession d s
  | OpDelete d => deleteConversation d s
  end.

Record device := mkDevice {
  st : store;
  keychain : jsmap jstr jstr;
  loads : list Did;                                    (* started, the keychain not yet read *)
  loaded : list (Did * option MessagingStateBlob);     (* read, the callback not yet run *)
  saves : list (Did * jstr);                           (* started, the keychain not yet written *)
}.

Definition with_store s w := mkDevice s (keychain w) (loads w) (loaded w) (saves w).

(** the messages an operation brings into the store *)
Definition op_messages (o : store_op) : list LocalMessage :=
  match o with OpAppend m | OpReplace _ _ m => [m] | _ => [] end.

(** A session blob is never empty: it is Base64 of a native state. *)
Definition op_ok (o : store_op) : Prop :=
  match o with OpSetSession _ b => truthy b = true | _ => True end.

(** [allowed]: the operations a state admits; [signs_in]: the identities set *)
Inductive device_step (allowed : store → store_op → Prop) (signs_in : option Did → Prop)
    : device → device → Prop :=
| dev_op w o :
    allowed (st w) o → device_step allowed signs_in w (with_store (run_op o (st w)) w)
| dev_self w d s started :
    signs_in d → setSelfDid d (st w) = (s, started) →
    device_step allowed signs_in w (mkDevice s (keychain w)
      (match started with Some n => loads w ++ [n] | None => loads w end) (loaded w) (saves w))
| dev_read w i d text :
    loads w !! i = Some d →
    (text = mget (serviceFor d) (keychain w) ∨ text = None) →
    device_step allowed signs_in w (mkDevice (st w) (keychain w) (take i (loads w) ++ drop (S i) (loads w))
      (loaded w ++ [(d, loadMessagingState text)]) (saves w))
| dev_loaded w i d b :
    loaded w !! i = Some (d, b) →
    device_step allowed signs_in w (mkDevice (on_loaded d b (st w)) (keychain w) (loads w)
      (take i (loaded w) ++ drop (S i) (loaded w)) (saves w))
| dev_timer w d :
    saveTimer (st w) = Some d →
    device_step allowed signs_in w (mkDevice (with_timer None (st w)) (keychain w) (loads w) (loaded w)
      (saves w ++ [(d, saveMessagingState (snapshot (st w)))]))
| dev_saved w i d t :
    saves w !! i = Some (d, t) →
    device_step allowed signs_in w (mkDevice (st w) (mset (serviceFor d) t (keychain w)) (loads w) (loaded w)
      (take i (saves w) ++ drop (S i) (saves w)))
| dev_save_failed w i d t :
    saves w !! i = Some (d, t) →
    device_step allowed signs_in w (mkDevice (st w) (keychain w) (loads w) (loaded w)
      (take i (saves w) ++ drop (S i) (saves w))).

(** * Lemmas *)

(** ** The blob as text *)

Ltac keys_distinct := apply (bool_decide_unpack (NoDup _)); vm_compute; exact I.

Lemma mapM_map_Some {A B} (f : B → option A) (g : A → B) l :
  (∀ x, f (g x) = Some x) → mapM f (map g l) = Some l.
Proof. intros H. induction l as [|x l IH]; [done|]. simpl. by rewrite H, IH. Qed.

Lemma contact_roundtrip c : contact_of_json (contact_json c) = Some c.
Proof. destruct c as [d u n [kp|] [dp|] o [ls|]]; reflexivity. Qed.

Lemma message_roundtrip m : message_of_json (message_json m) = Some m.
Proof. destruct m as [i c [] [] b ts e q []]; reflexivity. Qed.

Lemma plain_contact c : plain (contact_json c).
Proof.
  destruct c as [d u n [kp|] [dp|] o [ls|]]; (split; [keys_distinct|simpl; tauto]).
Qed.

Lemma plain_message m : plain (message_json m).
Proof. destruct m. split; [keys_distinct|simpl; tauto]. Qed.

Lemma plain_map {A} (f : A → json) l : (∀ x, plain (f x)) → plain (JArr (map f l)).
Proof. intros H. apply plain_arr. induction l; simpl; constructor; auto. Qed.

Lemma plain_entries {A} (f : A → json) (l : list (Did * option A)) :
  (∀ x, plain (f x)) → mwf l → plain (entries_json f l).
Proof.
  intros Hf Hl. apply plain_obj. split.
  - unfold mwf, mkeys in *. rewrite List.map_map. exact Hl.
  - apply list.Forall_forall. intros e (e' & <- & _)%list_elem_of_In%in_map_iff.
    destruct e' as [d [v|]]; simpl; auto.
Qed.

Lemma mkeys_some {A} (m : jsmap Did A) : mkeys (map (λ e, (e.1, Some e.2)) m) = mkeys m.
Proof. unfold mkeys. by rewrite List.map_map. Qed.

(** ** Well-formed stores *)

Definition store_wf (s : store) : Prop :=
  mwf (contactsByDid s) ∧ mwf (messagesByConversation s) ∧ mwf (unreadByDid s) ∧
  mwf (serializedSessionsByDid s) ∧
  mall (λ d c, did c = d) (contactsByDid s) ∧
  mall (λ _ b, truthy b = true) (serializedSessionsByDid s).

(** what the maps hold, the save timer and gate aside *)
Definition contents (s : store) :=
  (liveSelfDid s, contactsByDid s, messagesByConversation s, unreadByDid s, serializedSessionsByDid s).

Lemma contents_notify s : contents (notify s) = contents s.
Proof. unfold notify, scheduleSave. by destruct (liveSelfDid s) as [d|]; [destruct (_ && _)|]. Qed.

Lemma store_wf_contents s s' : contents s = contents s' → store_wf s → store_wf s'.
Proof. destruct s, s'. unfold contents, store_wf. simpl. by intros [= -> -> -> -> ->]. Qed.

Lemma store_wf_notify s : store_wf s → store_wf (notify s).
Proof. apply store_wf_contents. by rewrite contents_notify. Qed.
#[export] Hint Resolve store_wf_notify : sovnet.

Definition messages_value (e : Did * option (list LocalMessage)) : jstr * json :=
  (e.1, match e.2 with Some v => JArr (map message_json v) | None => JNull end).

Lemma mapM_entries (ms : jsmap Did (list LocalMessage)) :
  mapM entry_messages (map messages_value (map (λ e, (e.1, Some e.2)) ms))
  = Some (map (λ e, (e.1, Some e.2)) ms).
Proof.
  induction ms as [|[d l] ms IH]; [done|]. cbn [map mapM].
  assert (entry_messages (messages_value (d, Some l)) = Some (d, Some l)) as E.
  { unfold entry_messages, messages_value. cbn [fst snd].
    by rewrite (mapM_map_Some _ _ _ message_roundtrip). }
  cbn [fst snd]. by rewrite E, IH.
Qed.

Lemma blob_keys_distinct :
  NoDup [js "version"; js "contacts"; js "messages"; js "unread"; js "sessions"].
Proof. keys_distinct. Qed.

Lemma plain_blob s :
  store_wf s → plain (blob_json (snapshot s)).
Proof.
  intros (Hc & Hm & Hu & Hs & _).
  assert (∀ A (m : jsmap Did A), mwf m → mwf (map (λ e, (e.1, Some e.2)) m)) as Hw.
  { intros A m. unfold mwf. by rewrite mkeys_some. }
  apply plain_obj. split; [exact blob_keys_distinct|].
  repeat (apply list.Forall_cons; split); [exact I| | | | |constructor]; cbn [snd].
  - simpl. apply (plain_map contact_json), plain_contact.
  - apply plain_entries; [intros l; apply plain_map, plain_message|apply Hw, Hm].
  - apply plain_entries; [intros n; exact I|apply Hw, Hu].
  - apply plain_entries; [intros n; exact I|apply Hw, Hs].
Qed.

Lemma blob_json_fields cs ms us ss :
  let v := JObj [(js "version", JNum 1); (js "contacts", cs); (js "messages", ms);
                 (js "unread", us); (js "sessions", ss)] in
  jget (js "version") v = Some (JNum 1) ∧ jget (js "contacts") v = Some cs ∧
  jget (js "messages") v = Some ms ∧ jget (js "unread") v = Some us ∧ jget (js "sessions") v = Some ss.
Proof. repeat split; reflexivity. Qed.

Lemma blob_of_fields v cs ms us ss :
  jget (js "contacts") v = Some (JArr (map contact_json cs)) →
  jget (js "messages") v = Some (JObj (map messages_value (map (λ e, (e.1, Some e.2)) ms))) →
  jget (js "unread") v = Some (entries_json JNum (map (λ e, (e.1, Some e.2)) us)) →
  jget (js "sessions") v = Some (entries_json JStr (map (λ e, (e.1, Some e.2)) ss)) →
  blob_of_json v = Some (mkBlob cs (map (λ e, (e.1, Some e.2)) ms) (map (λ e, (e.1, Some e.2)) us)
    (Some (map (λ e, (e.1, Some e.2)) ss))).
Proof.
  intros E2 E3 E4 E5. unfold blob_of_json, jfield, opt_field. rewrite E2, E3, E4, E5.
  cbn [as_arr as_obj mbind option_bind entries_json fmap option_fmap option_map].
  rewrite (mapM_map_Some _ _ _ contact_roundtrip), mapM_entries. cbn [mbind option_bind].
  unfold option_map. by rewrite !List.map_map.
Qed.

Lemma blob_json_snapshot s :
  blob_json (snapshot s) = JObj [(js "version", JNum 1);
    (js "contacts", JArr (map contact_json (mvalues (contactsByDid s))));
    (js "messages", JObj (map messages_value (map (λ e, (e.1, Some e.2)) (messagesByConversation s))));
    (js "unread", entries_json JNum (map (λ e, (e.1, Some e.2)) (unreadByDid s)));
    (js "sessions", entries_json JStr (map (λ e, (e.1, Some e.2)) (serializedSessionsByDid s)))].
Proof. reflexivity. Qed.

Lemma load_version t v :
  json_parse t = Some v → jget (js "version") v = Some (JNum 1) →
  loadMessagingState (Some t) = blob_of_json v.
Proof.
  intros H1 H2. unfold loadMessagingState. cbn [mbind option_bind]. rewrite H1.
  cbn [mbind option_bind]. by rewrite H2.
Qed.

Lemma saved_blob s :
  store_wf s → loadMessagingState (Some (saveMessagingState (snapshot s))) = Some (snapshot s).
Proof.
  intros Hwf. unfold saveMessagingState. pose proof (json_parse_stringify _ (plain_blob s Hwf)) as Hp.
  edestruct blob_json_fields as (E1 & E2 & E3 & E4 & E5).
  rewrite (load_version _ _ Hp); rewrite blob_json_snapshot; [|exact E1].
  exact (blob_of_fields _ _ _ _ _ E2 E3 E4 E5).
Qed.

Lemma mvalues_contacts_rebuild (m acc : jsmap Did Contact) :
  mall (λ d c, did c = d) m → mwf m →
  fold_left (λ acc c, mset (did c) c acc) (mvalues m) acc = mrebuild m acc.
Proof.
  unfold mrebuild, mvalues. intros H Hw.
  assert (∀ e, e ∈ m → did e.2 = e.1) as He.
  { intros [d c] Hin. apply H. by apply in_mget_Some. }
  clear H Hw. revert acc. induction m as [|[d c] m IH]; intros acc; [done|]. simpl.
  change (did c) with (did (d, c).2). rewrite (He (d, c)) by (by left). apply IH. intros e Hin. apply He. by right.
Qed.

Lemma keep_some_rebuild {A} (p : A → bool) (m acc : jsmap Did A) :
  (∀ e, e ∈ m → p e.2 = true) → keep_some p (map (λ e, (e.1, Some e.2)) m) acc = mrebuild m acc.
Proof.
  unfold keep_some, mrebuild. revert acc. induction m as [|[d v] m IH]; intros acc H; [done|]. simpl.
  pose proof (H (d, v) ltac:(by left)) as Hp. simpl in Hp. rewrite Hp. apply IH. intros e Hin. apply H. by right.
Qed.

(** Hydrating an empty store with a snapshot gives the contents back. *)
Lemma hydrate_snapshot s s0 :
  store_wf s → liveSelfDid s0 = liveSelfDid s →
  contents (hydrateFromBlob (snapshot s) (clearAll s0)) = contents s.
Proof.
  intros (Hc & Hm & Hu & Hs & Hk & Ht) Hd. unfold hydrateFromBlob, snapshot, contents. simpl.
  rewrite mvalues_contacts_rebuild, !keep_some_rebuild, !mrebuild_id by (done ||
    (intros [d v] Hin; apply (Ht d), in_mget_Some; done)). by rewrite Hd.
Qed.

Lemma mwf_keep_some {A} (p : A → bool) l (m : jsmap Did A) : mwf m → mwf (keep_some p l m).
Proof.
  unfold keep_some. revert m. induction l as [|[d [v|]] l IH]; intros m H; simpl; auto.
  apply IH. destruct (p v); auto with sovnet.
Qed.

Lemma mall_keep_some {A} P (p : A → bool) l (m : jsmap Did A) :
  mall P m → (∀ d v, (d, Some v) ∈ l → p v = true → P d v) → mall P (keep_some p l m).
Proof.
  unfold keep_some. revert m. induction l as [|[d [v|]] l IH]; intros m H Hl; simpl; auto.
  - apply IH; [destruct (p v) eqn:E; auto; apply mall_set; auto; apply Hl; [by left|done]|].
    intros d' v' Hin. apply Hl. by right.
  - apply IH; [done|]. intros d' v' Hin. apply Hl. by right.
Qed.

Lemma store_wf_hydrate b s : store_wf s → store_wf (hydrateFromBlob b s).
Proof.
  intros (Hc & Hm & Hu & Hs & Hk & Ht).
  assert (∀ cs m, mwf m ∧ mall (λ d c, did c = d) m →
    mwf (fold_left (λ acc c, mset (did c) c acc) cs m) ∧
    mall (λ d c, did c = d) (fold_left (λ acc c, mset (did c) c acc) cs m)) as Hcs.
  { induction cs as [|c cs IH]; intros m [Hw Ha]; simpl; [done|]. apply IH. auto with sovnet. }
  destruct (Hcs (contacts b) _ (conj Hc Hk)) as [Hc' Hk'].
  unfold hydrateFromBlob. destruct (sessions b) as [ss|];
    repeat split; simpl; auto using mwf_keep_some.
  apply mall_keep_some; auto.
Qed.

Lemma store_wf_empty l b t : store_wf (mkStore l [] [] [] [] b t).
Proof. repeat split; simpl; auto with sovnet; apply mall_nil. Qed.

Lemma store_wf_setSelfDid d s s' o : setSelfDid d s = (s', o) → store_wf s → store_wf s'.
Proof.
  unfold setSelfDid. destruct (decide _); intros [= <- <-]; [done|]. intros _.
  apply store_wf_notify, store_wf_empty.
Qed.

Lemma store_wf_on_loaded d b s : store_wf s → store_wf (on_loaded d b s).
Proof.
  intros H. unfold on_loaded. destruct (decide _); [|done].
  destruct b as [b|]; [|done]. apply (store_wf_contents (notify (hydrateFromBlob b s))); [done|].
  apply store_wf_notify. by apply store_wf_hydrate.
Qed.

Lemma store_wf_messages l s : store_wf s → mwf l → store_wf (with_messages l s).
Proof. intros (? & ? & ? & ? & ? & ?) ?. by repeat split. Qed.

Lemma store_wf_set_messages d l s : store_wf s → store_wf (set_messages d l s).
Proof.
  intros H. apply store_wf_notify, store_wf_messages; [done|].
  destruct H as (_ & H & _). auto with sovnet.
Qed.
#[export] Hint Resolve store_wf_set_messages : sovnet.

Lemma store_wf_op o s : op_ok o → store_wf s → store_wf (run_op o s).
Proof.
  intros Ho H. destruct H as (Hc & Hm & Hu & Hs & Hk & Ht).
  assert (store_wf s) as Hs0 by (by repeat split).
  destruct o; simpl.
  - apply store_wf_notify. repeat split; simpl; auto with sovnet.
  - unfold appendMessage. apply store_wf_notify.
    destruct (direction m); repeat split; simpl; auto with sovnet.
  - unfold markRead. destruct (_ =? 0); [done|]. apply store_wf_notify.
    repeat split; simpl; auto with sovnet.
  - unfold replaceMessage. repeat (dmatch; try done). auto with sovnet.
  - unfold removeMessage. repeat (dmatch; try done). auto with sovnet.
  - unfold updateMessageStatus. repeat (dmatch; try done). simpl. auto with sovnet.
  - unfold confirmSentMessage. repeat (dmatch; try done). simpl. auto with sovnet.
  - apply store_wf_notify. repeat split; simpl; auto with sovnet.
  - unfold clearSerializedSession. destruct (mhas _ _); [|done]. apply store_wf_notify.
    repeat split; simpl; auto with sovnet.
  - apply store_wf_notify. repeat split; simpl; auto with sovnet.
Qed.

(** ** The gate of the debounced save *)

Definition timer_ok (s : store) : Prop :=
  match saveTimer s with Some d => liveSelfDid s = Some d ∧ saveEnabled s = true | None => True end.

Lemma timer_ok_notify s : timer_ok s → timer_ok (notify s).
Proof.
  unfold notify, scheduleSave. intros H. destruct (liveSelfDid s) as [d|] eqn:E; [|done].
  destruct (saveEnabled s && truthy d) eqn:E2; [|done].
  apply andb_true_iff in E2 as [E2 _]. by unfold timer_ok.
Qed.

(** [f] changes neither the identity nor the gate, except through [notify]. *)
Definition keeps_gate (s s' : store) : Prop :=
  liveSelfDid s' = liveSelfDid s ∧ (timer_ok s → timer_ok s').

Lemma keeps_gate_notify s s' :
  liveSelfDid s' = liveSelfDid s → saveTimer s' = saveTimer s → saveEnabled s' = saveEnabled s →
  keeps_gate s (notify s').
Proof.
  intros H1 H2 H3. split.
  - transitivity (liveSelfDid s'); [|done]. unfold notify, scheduleSave.
    destruct (liveSelfDid s') eqn:E; [|done]. by destruct (_ && _).
  - intros H. apply timer_ok_notify. unfold timer_ok in *. by rewrite H1, H2, H3.
Qed.

Lemma keeps_gate_refl s : keeps_gate s s.
Proof. by split. Qed.

Lemma keeps_gate_op o s : keeps_gate s (run_op o s).
Proof.
  destruct o; simpl; unfold upsertContact, appendMessage, markRead, replaceMessage, removeMessage,
    updateMessageStatus, confirmSentMessage, setSerializedSession, clearSerializedSession,
    deleteConversation, set_messages;
    repeat (first [apply keeps_gate_refl | apply keeps_gate_notify; done | dmatch; simpl]).
Qed.

Lemma timer_ok_setSelfDid d s s' o : setSelfDid d s = (s', o) → timer_ok s → timer_ok s'.
Proof.
  unfold setSelfDid. destruct (decide _); intros [= <- <-]; [done|]. intros _.
  unfold notify, scheduleSave. simpl. by destruct d as [d|]; [destruct (truthy d)|].
Qed.

Lemma hydrate_gate b s :
  liveSelfDid (hydrateFromBlob b s) = liveSelfDid s ∧ saveTimer (hydrateFromBlob b s) = saveTimer s ∧
  saveEnabled (hydrateFromBlob b s) = saveEnabled s.
Proof. unfold hydrateFromBlob. by destruct (sessions b). Qed.

Lemma timer_ok_on_loaded d b s : timer_ok s → timer_ok (on_loaded d b s).
Proof.
  intros H. unfold on_loaded. destruct (decide _); [|done].
  assert (∀ s', timer_ok s' → timer_ok (with_enabled true s')) as He.
  { intros s'. unfold timer_ok. simpl. by destruct (saveTimer s'); [intros [? _]|]. }
  apply He. destruct b as [b|]; [|done]. apply timer_ok_notify.
  unfold timer_ok in *. destruct (hydrate_gate b s) as (-> & -> & ->). done.
Qed.

(** ** Reachable devices *)

Definition device_start (k : jsmap jstr jstr) : device := mkDevice empty_store k [] [] [].

(** the runs of a device: any session blob the native bridge gives is non-empty *)
Definition device_reachable (w : device) : Prop :=
  ∃ k, rtc (device_step (λ _ o, op_ok o) (λ _, True)) (device_start k) w.

Lemma device_inv A S (P : store → Prop) w w' :
  (∀ s o, A s o → P s → P (run_op o s)) →
  (∀ s d s' o, S d → setSelfDid d s = (s', o) → P s → P s') →
  (∀ s d b, P s → P (on_loaded d b s)) →
  (∀ s, P s → P (with_timer None s)) →
  device_step A S w w' → P (st w) → P (st w').
Proof. intros H1 H2 H3 H4 Hs. destruct Hs; simpl; eauto. Qed.

Lemma store_wf_step A S w w' :
  (∀ s o, A s o → op_ok o) → device_step A S w w' → store_wf (st w) → store_wf (st w').
Proof.
  intros HA. apply device_inv.
  - intros s o Ho. apply store_wf_op. eauto.
  - intros s d s' o _. apply store_wf_setSelfDid.
  - intros s d b. apply store_wf_on_loaded.
  - intros s. by apply store_wf_contents.
Qed.

Lemma timer_ok_step A S w w' : device_step A S w w' → timer_ok (st w) → timer_ok (st w').
Proof.
  apply device_inv; [| | |done].
  - intros s o _. apply keeps_gate_op.
  - intros s d s' o _. apply timer_ok_setSelfDid.
  - intros s d b. apply timer_ok_on_loaded.
Qed.

Lemma reachable_wf w : device_reachable w → store_wf (st w).
Proof.
  intros [k H]. refine (rtc_ind_r (λ w, store_wf (st w)) (device_start k) (store_wf_empty _ _ _) _ w H).
  intros y z _ Hs IH.   eapply store_wf_step; [|exact Hs|exact IH]. done.
Qed.

Lemma reachable_timer_ok w : device_reachable w → timer_ok (st w).
Proof.
  intros [k H]. refine (rtc_ind_r (λ w, timer_ok (st w)) (device_start k) I _ w H).
  intros y z _ Hs IH.   by eapply timer_ok_step.
Qed.

(** ** Accounts on one device

    [Own d t]: the text [t] belongs to a conversation of account [d].  The
    accounts in use have keychain entries of their own. *)
Section Isolation.
Context (Own : Did → jstr → Prop) (U : Did → Prop).
Hypothesis services_distinct : ∀ d d', U d → U d' → serviceFor d = serviceFor d' → d = d'.

Definition owned (d : Did) (m : LocalMessage) : Prop := Own d (body m).

Definition messages_owned (d : Did) (ms : jsmap Did (list LocalMessage)) : Prop :=
  mall (λ _ l, Forall (owned d) l) ms.

Definition blob_owned (d : Did) (b : MessagingStateBlob) : Prop :=
  ∀ c l, (c, Some l) ∈ messages b → Forall (owned d) l.

Definition text_owned (d : Did) (t : jstr) : Prop :=
  ∀ b, loadMessagingState (Some t) = Some b → blob_owned d b.

(** an account only receives and writes its own messages, and only known
    accounts sign in *)
Definition own_ops (s : store) (o : store_op) : Prop :=
  op_ok o ∧ Forall (owned (getSelfDid s)) (op_messages o).
Definition known (d : option Did) : Prop := ∀ x, d = Some x → U x.

Record isolated (w : device) : Prop := {
  iso_wf : store_wf (st w);
  iso_timer : timer_ok (st w);
  iso_live : known (liveSelfDid (st w));
  iso_store : messages_owned (getSelfDid (st w)) (messagesByConversation (st w));
  iso_loads : Forall U (loads w);
  iso_loaded : Forall (λ e, U e.1 ∧ ∀ b, e.2 = Some b → blob_owned e.1 b) (loaded w);
  iso_saves : Forall (λ e, U e.1 ∧ text_owned e.1 e.2) (saves w);
  iso_keychain : ∀ d t, U d → mget (serviceFor d) (keychain w) = Some t → text_owned d t;
}.

Lemma messages_notify s : messagesByConversation (notify s) = messagesByConversation s.
Proof. pose proof (contents_notify s) as E. unfold contents in E. by injection E. Qed.

Lemma owned_with_status d st p m : owned d m → owned d (with_status st p m).
Proof. done. Qed.

Lemma messages_owned_set d c l s :
  messages_owned d (messagesByConversation s) → Forall (owned d) l →
  messages_owned d (messagesByConversation (set_messages c l s)).
Proof. intros H Hl. unfold set_messages. rewrite messages_notify. by apply mall_set. Qed.

Lemma Forall_alter_owned d f i l :
  (∀ m, owned d m → owned d (f m)) → Forall (owned d) l → Forall (owned d) (alter f i l).
Proof. intros Hf Hl. apply Forall_alter; auto. Qed.

Lemma messages_owned_op d o s :
  messages_owned d (messagesByConversation s) → Forall (owned d) (op_messages o) →
  messages_owned d (messagesByConversation (run_op o s)).
Proof.
  intros H Ho. destruct o; simpl in *.
  - unfold upsertContact. by rewrite messages_notify.
  - unfold appendMessage. rewrite messages_notify.
    assert (Forall (owned d) (getMessages (conversation_did m) s ++ [m])) as Hl.
    { apply Forall_app. split; [|exact Ho]. unfold getMessages.
      destruct (mget _ _) as [l|] eqn:E; simpl; [by apply (H _ _ E)|done]. }
    destruct (direction m); by apply mall_set.
  - unfold markRead. dmatch; [done|]. by rewrite messages_notify.
  - unfold replaceMessage. destruct (mget _ _) as [l|] eqn:E; [|done].
    destruct (find_index _ _); [|done]. pose proof (H _ _ E) as Hl. apply messages_owned_set; [done|].
    rewrite !Forall_app. split; [by apply Forall_take|]. split; [exact Ho|by apply Forall_drop].
  - unfold removeMessage. destruct (mget _ _) as [l|] eqn:E; [|done]. dmatch; [done|].
    apply messages_owned_set; [done|]. apply list.Forall_forall. intros x Hx%list_elem_of_In%filter_In.
    pose proof (H _ _ E) as Hl. rewrite list.Forall_forall in Hl. apply Hl, list_elem_of_In. tauto.
  - unfold updateMessageStatus. destruct (mget _ _) as [l|] eqn:E; [|done].
    destruct (find_index _ _); [|done]. simpl. apply messages_owned_set; [done|].
    apply Forall_alter_owned; [done|]. by apply (H _ _ E).
  - unfold confirmSentMessage. destruct (mget _ _) as [l|] eqn:E; [|done].
    destruct (find_index _ _); [|done]. simpl. apply messages_owned_set; [done|].
    apply Forall_alter_owned; [done|]. by apply (H _ _ E).
  - unfold setSerializedSession. by rewrite messages_notify.
  - unfold clearSerializedSession. dmatch; [|done]. by rewrite messages_notify.
  - unfold deleteConversation. rewrite messages_notify. by apply mall_delete.
Qed.

Lemma snapshot_owned d s : messages_owned d (messagesByConversation s) → mwf (messagesByConversation s) →
  blob_owned d (snapshot s).
Proof.
  intros H Hw c l Hin. unfold snapshot in Hin. simpl in Hin.
  apply list_elem_of_fmap in Hin as ([c' l'] & [= -> ->] & Hin). by apply (H c'), in_mget_Some.
Qed.

Lemma on_loaded_owned d b s :
  messages_owned (getSelfDid s) (messagesByConversation s) → (∀ b', b = Some b' → blob_owned d b') →
  messages_owned (getSelfDid (on_loaded d b s)) (messagesByConversation (on_loaded d b s)).
Proof.
  intros H Hb. unfold on_loaded. destruct (decide _) as [E|]; [|done].
  destruct b as [b|]; [|done]. specialize (Hb b eq_refl).
  assert (getSelfDid (with_enabled true (notify (hydrateFromBlob b s))) = d) as ->.
  { unfold getSelfDid. simpl. destruct (keeps_gate_notify (hydrateFromBlob b s) (hydrateFromBlob b s))
      as [-> _]; [done..|]. destruct (hydrate_gate b s) as (-> & _). by rewrite E. }
  simpl. rewrite messages_notify.
  assert (messagesByConversation (hydrateFromBlob b s)
    = keep_some (λ _, true) (messages b) (messagesByConversation s)) as ->.
  { unfold hydrateFromBlob. by destruct (sessions b). }
  unfold getSelfDid in H. rewrite E in H. apply mall_keep_some; [exact H|].
  intros c l Hin _. by apply (Hb c).
Qed.

Lemma Forall_remove {A} (P : A → Prop) i l : Forall P l → Forall P (take i l ++ drop (S i) l).
Proof. intros H. apply Forall_app. auto using Forall_take, Forall_drop. Qed.

Lemma getSelfDid_op o s : getSelfDid (run_op o s) = getSelfDid s.
Proof. unfold getSelfDid. by destruct (keeps_gate_op o s) as [-> _]. Qed.

Lemma on_loaded_live d b s : liveSelfDid (on_loaded d b s) = liveSelfDid s.
Proof.
  unfold on_loaded. destruct (decide _); [|done]. destruct b as [b|]; [|done]. simpl.
  destruct (keeps_gate_notify (hydrateFromBlob b s) (hydrateFromBlob b s)) as [-> _]; [done..|].
  by destruct (hydrate_gate b s) as (-> & _).
Qed.

Lemma setSelfDid_cases d s s' o :
  setSelfDid d s = (s', o) →
  (s' = s ∧ o = None) ∨
  (messagesByConversation s' = [] ∧ liveSelfDid s' = o ∧ (∀ x, o = Some x → d = Some x)).
Proof.
  unfold setSelfDid. destruct (decide _); intros [= <- <-]; [by left|right].
  set (s1 := clearAll _). pose proof (contents_notify s1) as E. unfold contents in E.
  injection E as E1 _ E2 _ _. rewrite E1, E2. repeat split; try done.
  intros x. destruct d as [d|]; [|done]. destruct (truthy d); [|done]. by intros [= ->].
Qed.

Lemma isolated_step w w' : device_step own_ops known w w' → isolated w → isolated w'.
Proof.
  intros Hs [Iw It Il Io I1 I2 I3 I4].
  assert (store_wf (st w')) as Iw' by (eapply store_wf_step; [|exact Hs|done]; by intros ? ? []).
  assert (timer_ok (st w')) as It' by (by eapply timer_ok_step).
  destruct Hs as [w o [_ Ho]|w d s started Hd Hset|w i d text Hl Ht|w i d b Hl|w d Ht|w i d t Hl|w i d t Hl];
    simpl in *; constructor; simpl; auto using Forall_remove.
  - by destruct (keeps_gate_op o (st w)) as [-> _].
  - rewrite getSelfDid_op. by apply messages_owned_op.
  - destruct (setSelfDid_cases _ _ _ _ Hset) as [[-> ->]|(_ & -> & H)]; [done|]. intros x Hx. eauto.
  - destruct (setSelfDid_cases _ _ _ _ Hset) as [[-> ->]|(-> & _)]; [done|apply mall_nil].
  - destruct started as [n|]; [|done]. apply Forall_app. split; [done|].
    constructor; [|constructor]. destruct (setSelfDid_cases _ _ _ _ Hset) as [[_ [=]]|(_ & _ & H)].
    by apply Hd, H.
  - apply Forall_app. split; [done|]. constructor; [|constructor]. simpl.
    assert (U d) as Hu by (rewrite list.Forall_forall in I1; by eapply I1, list_elem_of_lookup_2).
    split; [done|]. intros b Hb. destruct Ht as [->| ->]; [|done].
    destruct (mget _ _) as [t|] eqn:E; [|done]. by apply (I4 d t).
  - by rewrite on_loaded_live.
  - apply on_loaded_owned; [done|]. rewrite list.Forall_forall in I2.
    apply (I2 (d, b)). by eapply list_elem_of_lookup_2.
  - apply Forall_app. split; [done|]. constructor; [|constructor]. simpl.
    unfold timer_ok in It. rewrite Ht in It. destruct It as [El _]. split; [by apply Il|].
    intros b. rewrite saved_blob by done. intros [= <-]. apply snapshot_owned.
    + unfold getSelfDid in Io. by rewrite El in Io.
    + by destruct Iw as (_ & ? & _).
  - assert (U d ∧ text_owned d t) as [Hu Hown].
    { rewrite list.Forall_forall in I3. apply (I3 (d, t)). by eapply list_elem_of_lookup_2. }
    intros d' t' Hu'. rewrite mget_set. destruct (decide _) as [E|]; [|by apply I4].
    intros [= <-]. by rewrite (services_distinct d' d).
Qed.

(** C33: the store does not carry messages from one account to another: if every
    message that is appended belongs to the account signed in at that moment
    ([own_ops]), the known accounts have distinct keychain services and their
    entries are their own at the start, then whatever accounts sign in and out in
    turn, with loads and saves still in flight, every message on screen belongs to the account that is signed in, and
    every keychain entry only holds messages of its own account.  The messenger
    does not keep the first condition when accounts are switched while it works
    on an envelope ([MessagingSafety.ingest_crosses_accounts],
    [Lifecycle.drained_for_another_identity]); the second fails for DIDs with the
    same last sixteen characters. *)
Theorem accounts_isolated k w :
  (∀ d t, U d → mget (serviceFor d) k = Some t → text_owned d t) →
  rtc (device_step own_ops known) (device_start k) w →
  (∀ c m, m ∈ getMessages c (st w) → Own (getSelfDid (st w)) (body m)) ∧
  (∀ d t, U d → mget (serviceFor d) (keychain w) = Some t → text_owned d t).
Proof.
  intros Hk Hr. assert (isolated w) as [_ _ _ Io _ _ _ I4].
  { refine (rtc_ind_r isolated (device_start k) _ _ w Hr).
    - constructor; simpl; auto;
        first [apply store_wf_empty | exact I | apply mall_nil | by intros ? [=]].
    - intros y z _ Hs IH. by eapply isolated_step. }
  split; [|exact I4]. intros c m Hm. unfold getMessages in Hm.
  destruct (mget c _) as [l|] eqn:E; [|by apply elem_of_nil in Hm].
  pose proof (Io _ _ E) as H. rewrite list.Forall_forall in H. by apply H.
Qed.

End Isolation.

Definition alice : Did := js "did:zhtp:aaaaaaaaaaaaaaaa".
Definition bob : Did := js "did:zhtp:bbbbbbbbbbbbbbbb".
Definition a_message (i : jstr) (c : Did) (b : jstr) (seq : Z) : LocalMessage :=
  mkMessage i c dir_received Text b 1700000000 0 seq delivered.

Lemma accounts_isolated_witness :
  startsWith (js "for ") (js "for alice") = true ∧
  mget (serviceFor alice) (keychain (mkDevice empty_store [] [] [] [])) = None.
Proof.
  split; [|reflexivity].
  pose (Own (d : Did) (t : jstr) := startsWith (js "for ") t = true).
  pose (s := (setSelfDid (Some alice) empty_store).1).
  pose (m := a_message (js "1") bob (js "for alice") 0).
  refine (proj1 (accounts_isolated Own (λ d, d = alice ∨ d = bob) _ []
    (mkDevice (appendMessage m s) [] [alice] [] []) _ _) bob m _).
  - intros d d' [->| ->] [->| ->] E; [done| | |done]; vm_compute in E; discriminate.
  - intros d t _ E. discriminate.
  - eapply rtc_l; [apply (dev_self _ _ _ (Some alice)); [|reflexivity]|].
    { intros x [= <-]. by left. }
    eapply rtc_l; [apply (dev_op _ _ _ (OpAppend (a_message (js "1") bob (js "for alice") 0)))|].
    { split; [done|]. constructor; [by vm_compute|constructor]. }
    vm_compute. apply rtc_refl.
  - vm_compute. left.
Defined.

(** Nothing is lost across a restart: when a save of the store of a signed-in
    account completes and the app starts again with the same account, the load
    gives back the same contacts, messages, unread counts and session blobs. *)
Fact reload_restores w d :
  device_reachable w → liveSelfDid (st w) = Some d → truthy d = true →
  let text := saveMessagingState (snapshot (st w)) in
  let restarted := (setSelfDid (Some d) empty_store).1 in
  contents (on_loaded d (loadMessagingState (Some text)) restarted) = contents (st w) ∧
  saveEnabled (on_loaded d (loadMessagingState (Some text)) restarted) = true.
Proof.
  intros Hr%reachable_wf Hd Ht text restarted. subst text. rewrite saved_blob by done.
  assert (restarted = mkStore (Some d) [] [] [] [] false None) as ->.
  { subst restarted. unfold setSelfDid. rewrite Ht. simpl. done. }
  unfold on_loaded. simpl liveSelfDid. rewrite decide_True by done. split; [|done].
  transitivity (contents (notify (hydrateFromBlob (snapshot (st w)) (mkStore (Some d) [] [] [] [] false None)))); [done|].
  rewrite contents_notify.
  by apply (hydrate_snapshot (st w) (mkStore (Some d) [] [] [] [] false None)).
Qed.

Lemma reload_restores_witness :
  let s := (setSelfDid (Some alice) empty_store).1 in
  let s' := appendMessage (a_message (js "1") bob (js "hello") 0) s in
  contents (on_loaded alice (loadMessagingState (Some (saveMessagingState (snapshot s')))) s) = contents s'.
Proof.
  intros s s'.
  refine (proj1 (reload_restores (mkDevice s' [] [alice] [] []) alice _ eq_refl eq_refl)).
  exists []. eapply rtc_l; [apply (dev_self _ _ _ (Some alice)); [done|reflexivity]|].
  eapply rtc_l; [apply (dev_op _ _ _ (OpAppend (a_message (js "1") bob (js "hello") 0))); done|].
  apply rtc_refl.
Defined.

(** A pending save always belongs to the identity that is signed in and is
    only armed once that identity's stored state has been read: in every
    reachable state the DID captured by the timer is the live one and the gate
    is open; and the only thing a step ever adds to the saves under way is the
    snapshot of the current state under that identity, so a snapshot is never
    written under another account and the empty state of a fresh login never
    overwrites the stored one. *)
Fact save_gate w d :
  device_reachable w → saveTimer (st w) = Some d →
  liveSelfDid (st w) = Some d ∧ saveEnabled (st w) = true ∧
  (∀ w', device_step (λ _ o, op_ok o) (λ _, True) w w' → saves w' ≠ saves w →
    (∃ i, saves w' = take i (saves w) ++ drop (S i) (saves w)) ∨
    saves w' = saves w ++ [(d, saveMessagingState (snapshot (st w)))]).
Proof.
  intros Hr%reachable_timer_ok Ht. unfold timer_ok in Hr. rewrite Ht in Hr. destruct Hr as [H1 H2].
  split; [done|]. split; [done|]. intros w' Hs Hne.
  destruct Hs as [| | | |w d' Ht'|w i|w i]; simpl in *; try done; [|left; by exists i..].
  right. rewrite Ht in Ht'. by injection Ht' as <-.
Qed.

Lemma getMessages_append m d s :
  getMessages d (appendMessage m s)
  = if decide (d = conversation_did m) then getMessages d s ++ [m] else getMessages d s.
Proof.
  unfold appendMessage, getMessages at 1. rewrite messages_notify.
  assert (messagesByConversation (match direction m with
      | dir_sent => with_messages (mset (conversation_did m) (getMessages (conversation_did m) s ++ [m])
          (messagesByConversation s)) s
      | dir_received => with_unread (mset (conversation_did m)
          (default 0 (mget (conversation_did m) (unreadByDid s)) + 1) (unreadByDid s))
          (with_messages (mset (conversation_did m) (getMessages (conversation_did m) s ++ [m])
          (messagesByConversation s)) s) end)
    = mset (conversation_did m) (getMessages (conversation_did m) s ++ [m]) (messagesByConversation s)) as E
    by (by destruct (direction m)).
  simpl in *. rewrite E, mget_set. by destruct (decide (d = conversation_did m)) as [->|].
Qed.

Lemma getMessages_set d d' l s :
  getMessages d (set_messages d' l s) = if decide (d = d') then l else getMessages d s.
Proof.
  unfold getMessages, set_messages. rewrite messages_notify. simpl. rewrite mget_set.
  by destruct (decide (d = d')).
Qed.

Lemma alter_app_cons {A} (f : A → A) l1 x l2 : alter f (length l1) (l1 ++ x :: l2) = l1 ++ f x :: l2.
Proof. induction l1 as [|y l1 IH]; [done|]. simpl. unfold alter in *. simpl. f_equal. apply IH. Qed.

(** [findIndex] splits the list at the first element that passes the test. *)
Lemma find_index_split {A} (p : A → bool) l i :
  find_index p l = Some i →
  ∃ l1 x l2, l = l1 ++ x :: l2 ∧ i = length l1 ∧ Forall (λ y, p y = false) l1 ∧ p x = true.
Proof.
  intros H. destruct (find_index_Some p l i H) as (x & Hx & Hp & Hmin).
  exists (take i l), x, (drop (S i) l). repeat split; auto.
  - symmetry. by apply take_drop_middle.
  - rewrite length_take. apply lookup_lt_Some in Hx. lia.
  - apply list.Forall_forall. intros y (j & Hj)%list_elem_of_lookup.
    assert (j < i)%nat as Hji.
    { apply lookup_lt_Some in Hj. rewrite length_take in Hj. lia. }
    rewrite lookup_take_lt in Hj by done. by apply (Hmin j).
Qed.

(** A read receipt flips exactly the first sent message with its position
    of the ratchet to [read], every other message, conversation and count
    stays, and the result says whether there was one. *)
Fact confirmSentMessage_flips d seq ep s s' ok :
  confirmSentMessage d seq ep s = (s', ok) →
  (ok = false ∧ s' = s ∧ Forall (λ m, is_sent seq ep m = false) (getMessages d s)) ∨
  (ok = true ∧ ∃ l1 m l2,
    getMessages d s = l1 ++ m :: l2 ∧ Forall (λ x, is_sent seq ep x = false) l1 ∧
    is_sent seq ep m = true ∧ getMessages d s' = l1 ++ with_status read no_patch m :: l2 ∧
    (∀ d', d' ≠ d → getMessages d' s' = getMessages d' s) ∧ unreadByDid s' = unreadByDid s).
Proof.
  unfold confirmSentMessage, getMessages at 1 2. destruct (mget d _) as [l|] eqn:E; simpl.
  2: { intros [= <- <-]. by left. }
  destruct (find_index _ l) as [i|] eqn:F.
  - intros [= <- <-]. right. split; [done|].
    destruct (find_index_split _ _ _ F) as (l1 & m & l2 & -> & -> & H1 & H2).
    exists l1, m, l2. rewrite alter_app_cons. repeat split; auto.
    + by rewrite getMessages_set, decide_True.
    + intros d' Hd'. by rewrite getMessages_set, decide_False.
    + unfold set_messages. pose proof (contents_notify (with_messages
        (mset d (l1 ++ with_status read no_patch m :: l2) (messagesByConversation s)) s)) as C.
      unfold contents in C. by injection C.
  - intros [= <- <-]. left. repeat split. by apply find_index_None.
Qed.

Lemma confirmSentMessage_flips_witness :
  let m := mkMessage (js "7") bob dir_sent Text (js "hi") 5 2 9 sent in
  let s := appendMessage m empty_store in
  getMessages bob (confirmSentMessage bob 9 2 s).1 = [with_status read no_patch m].
Proof.
  intros m s.
  destruct (confirmSentMessage_flips bob 9 2 s _ _ (surjective_pairing _)) as [(H & _)|(_ & l1 & x & l2 & E & _ & _ & E' & _)].
  - vm_compute in H. discriminate.
  - change (getMessages bob s) with [m] in E. destruct l1 as [|? []]; [|done..].
    injection E as <- <-. exact E'.
Defined.

(** Deleting a conversation erases every trace of the peer (contact,
    messages, unread count, session blob), from the next stored snapshot too,
    and touches no other conversation. *)
Fact deleteConversation_erases d s :
  let s' := deleteConversation d s in
  getContact d s' = None ∧ getMessages d s' = [] ∧ mget d (unreadByDid s') = None ∧
  getSerializedSession d s' = None ∧
  (d ∉ map fst (messages (snapshot s'))) ∧ (d ∉ map fst (unread (snapshot s'))) ∧
  (∀ ss, sessions (snapshot s') = Some ss → d ∉ map fst ss) ∧
  (∀ d', d' ≠ d → getContact d' s' = getContact d' s ∧ getMessages d' s' = getMessages d' s ∧
     mget d' (unreadByDid s') = mget d' (unreadByDid s) ∧
     getSerializedSession d' s' = getSerializedSession d' s).
Proof.
  intros s'. pose proof (contents_notify (with_sessions (mdelete d (serializedSessionsByDid s))
    (with_unread (mdelete d (unreadByDid s)) (with_contacts (mdelete d (contactsByDid s))
      (with_messages (mdelete d (messagesByConversation s)) s))))) as C.
  unfold contents in C. injection C as _ C1 C2 C3 C4. simpl in C1, C2, C3, C4.
  unfold getContact, getMessages, getSerializedSession, snapshot. simpl messages. simpl unread.
  simpl sessions. fold s' in C1, C2, C3, C4.
  change (notify _) with s' in C1, C2, C3, C4. rewrite C1, C2, C3, C4, !mget_delete_eq.
  repeat split; rewrite ?List.map_map; try apply mkeys_delete.
  - intros ss [= <-]. rewrite List.map_map. apply mkeys_delete.
  - by apply mget_delete_ne.
  - by rewrite mget_delete_ne.
  - by apply mget_delete_ne.
  - by apply mget_delete_ne.
Qed.

(** ** The inbox list *)

Section SortByKey.
Context {A : Type} (key : A → Z).

Definition by_key_desc (a b : A) : Z := key b - key a.

Lemma sort_insert_sorted x l :
  StronglySorted (λ a b, key b ≤ key a) l →
  StronglySorted (λ a b, key b ≤ key a) (sort_insert by_key_desc x l).
Proof.
  unfold by_key_desc. induction 1 as [|y l Hl IH Hy]; simpl; [by repeat constructor|].
  destruct (0 <? key y - key x) eqn:E; breflect.
  - constructor; [done|]. rewrite sort_insert_perm. constructor; [lia|done].
  - constructor; [by constructor|]. constructor; [lia|].
    eapply list.Forall_impl; [exact Hy|]. simpl. lia.
Qed.

Lemma js_sort_sorted l : StronglySorted (λ a b, key b ≤ key a) (js_sort by_key_desc l).
Proof. induction l; simpl; [constructor|by apply sort_insert_sorted]. Qed.

(** Elements of equal key keep their order. *)
Lemma sort_insert_stable k x l :
  List.filter (λ a, key a =? k) (sort_insert by_key_desc x l) = List.filter (λ a, key a =? k) (x :: l).
Proof.
  unfold by_key_desc. induction l as [|y l IH]; [done|]. cbn [sort_insert].
  destruct (0 <? key y - key x) eqn:E; [|done]. breflect. simpl in *. rewrite IH.
  destruct (key x =? k) eqn:E1, (key y =? k) eqn:E2; breflect; try done. lia.
Qed.

Lemma js_sort_stable k l :
  List.filter (λ a, key a =? k) (js_sort by_key_desc l) = List.filter (λ a, key a =? k) l.
Proof.
  induction l as [|x l IH]; [done|]. cbn [js_sort foldr].
  rewrite sort_insert_stable. fold (js_sort by_key_desc l). simpl. by rewrite IH.
Qed.
End SortByKey.

(** The inbox lists each contact that has a message once, with its last
    message and its unread count, the most recent first; conversations whose
    last messages bear the same time keep the order of the address book. *)
Fact getConversations_sorted s :
  let rows := omap (conversation_row s) (getContacts s) in
  getConversations s ≡ₚ rows ∧
  StronglySorted (λ a b, timestamp (last_message b) ≤ timestamp (last_message a)) (getConversations s) ∧
  (∀ t, List.filter (λ r, timestamp (last_message r) =? t) (getConversations s)
      = List.filter (λ r, timestamp (last_message r) =? t) rows) ∧
  (∀ r, r ∈ rows ↔ contact r ∈ getContacts s ∧
      ∃ ms, mget (did (contact r)) (messagesByConversation s) = Some (ms ++ [last_message r]) ∧
      unread_count r = default 0 (mget (did (contact r)) (unreadByDid s))).
Proof.
  intros rows. split; [apply js_sort_perm|].
  split; [apply (js_sort_sorted (λ r, timestamp (last_message r)))|].
  split; [intros t; apply (js_sort_stable (λ r, timestamp (last_message r)))|].
  intros r. unfold rows. rewrite list_elem_of_omap. unfold conversation_row. split.
  - intros (c & Hc & E). destruct (mget (did c) (messagesByConversation s)) as [[|m ms]|] eqn:Em; [done| |done].
    injection E as <-. simpl. split; [done|]. rewrite Em.
    destruct (exists_last (l := m :: ms)) as (ms' & x & El); [done|]. exists ms'.
    rewrite El. split; [|done]. do 3 f_equal. symmetry.
    rewrite <-(last_default m ms m), El. apply List.last_last.
  - intros (Hc & ms & E & Hu). exists (contact r). split; [done|]. rewrite E.
    destruct (ms ++ [last_message r]) as [|m ms'] eqn:El; [by destruct ms|].
    rewrite <-(last_default m ms' m), <-El, List.last_last, <-Hu. by destruct r.
Qed.

(** ** Placeholders, counts and late loads *)

(** A placeholder that is removed leaves its unread mark behind: appending a
    received message and removing it restores the conversation but leaves the
    unread count one higher than before. *)
Fact removed_placeholder_stays_unread m s :
  direction m = dir_received →
  Forall (λ x, has_id (id m) x = false) (getMessages (conversation_did m) s) →
  let s' := removeMessage (conversation_did m) (id m) (appendMessage m s) in
  getMessages (conversation_did m) s' = getMessages (conversation_did m) s ∧
  mget (conversation_did m) (unreadByDid s')
  = Some (default 0 (mget (conversation_did m) (unreadByDid s)) + 1).
Proof.
  intros Hd Hf s'. set (d := conversation_did m) in *.
  set (u := mset d (default 0 (mget d (unreadByDid s)) + 1) (unreadByDid s)).
  pose proof (contents_notify (with_unread u (with_messages (mset d (getMessages d s ++ [m])
    (messagesByConversation s)) s))) as C.
  assert (Ea : appendMessage m s = notify (with_unread u (with_messages (mset d (getMessages d s ++ [m])
    (messagesByConversation s)) s))).
  { unfold appendMessage. rewrite Hd. done. }
  rewrite <-Ea in C. unfold contents in C. injection C as _ _ Cm Cu _. simpl in Cm, Cu.
  unfold s', removeMessage. rewrite Cm, mget_set_eq.
  assert (Ef : List.filter (λ x, negb (has_id (id m) x)) (getMessages d s ++ [m]) = getMessages d s).
  { rewrite List.filter_app. simpl. unfold has_id at 2. rewrite bool_decide_eq_true_2 by done. simpl.
    rewrite app_nil_r. clear -Hf. induction Hf as [|x l Hx _ IH]; [done|]. simpl. by rewrite Hx, IH. }
  rewrite Ef, length_app. simpl.
  destruct (_ =? _)%nat eqn:El; breflect; [lia|].
  rewrite getMessages_set, decide_True by done. split; [done|].
  unfold set_messages. pose proof (contents_notify (with_messages
    (mset d (getMessages d s) (messagesByConversation (appendMessage m s))) (appendMessage m s))) as C2.
  unfold contents in C2. injection C2 as _ _ _ C2 _. rewrite C2. simpl. rewrite Cu.
  apply mget_set_eq.
Qed.

Lemma removed_placeholder_stays_unread_witness :
  let m := a_message (js "u-1") bob [] 0 in
  let s := removeMessage bob (js "u-1") (appendMessage m empty_store) in
  getMessages bob s = [] ∧ mget bob (unreadByDid s) = Some 1.
Proof.
  intros m s. exact (removed_placeholder_stays_unread m empty_store eq_refl ltac:(constructor)).
Defined.

(** A load overwrites what arrived before it: a message appended after the
    sign-in and before the stored state is read vanishes when the stored state
    has its conversation.  It does so whatever happened since: a load is only
    checked against the account signed in, so one that was started before the
    user switched accounts and came back still overwrites. *)
Fact late_load_overwrites s d m b l :
  liveSelfDid s = Some d →
  NoDup (map fst (messages b)) → (conversation_did m, Some l) ∈ messages b →
  getMessages (conversation_did m) (on_loaded d (Some b) (appendMessage m s)) = l.
Proof.
  intros Hd Hn Hin. unfold on_loaded.
  rewrite decide_True; [|by rewrite (proj1 (keeps_gate_op (OpAppend m) s) : liveSelfDid (appendMessage m s) = _)].
  unfold getMessages. simpl. rewrite messages_notify.
  assert (∀ s', messagesByConversation (hydrateFromBlob b s')
    = keep_some (λ _, true) (messages b) (messagesByConversation s')) as ->.
  { intros s'. unfold hydrateFromBlob. by destruct (sessions b). }
  assert (∀ ms acc, NoDup (map fst ms) → (conversation_did m, Some l) ∈ ms →
    mget (conversation_did m) (keep_some (λ _, true) ms acc) = Some l) as H.
  { clear. unfold keep_some. induction ms as [|[c o] ms IH]; intros acc Hn Hin; [by apply elem_of_nil in Hin|].
    simpl in *. apply list.NoDup_cons in Hn as [Hc Hn]. apply elem_of_cons in Hin as [[= <- <-]|Hin].
    - assert (∀ acc', (∀ x, (x : Did * option (list LocalMessage)) ∈ ms → x.1 ≠ conversation_did m) →
        mget (conversation_did m) (fold_left (λ acc e, match e.2 with Some v => mset e.1 v acc | None => acc end) ms acc')
        = mget (conversation_did m) acc') as Hk.
      { clear. induction ms as [|[c o] ms IH]; intros acc' Hx; [done|]. simpl.
        rewrite IH by (intros x Hin; apply Hx; by right). destruct o; [|done].
        apply mget_set_ne. intros E. apply (Hx (c, Some l)); [left|done]. }
      rewrite Hk; [by apply mget_set_eq|]. intros x Hx E. apply Hc. rewrite <-E. by apply list_elem_of_fmap_2.
    - by apply IH. }
  by rewrite H.
Qed.

Lemma late_load_overwrites_witness :
  let old := a_message (js "1") bob (js "old") 0 in
  let new := a_message (js "2") bob (js "new") 1 in
  let s := (setSelfDid (Some alice) empty_store).1 in
  let blob := mkBlob [] [(bob, Some [old])] [] None in
  getMessages bob (on_loaded alice (Some blob) (appendMessage new s)) = [old].
Proof.
  intros old new s blob.
  apply (late_load_overwrites s alice new blob [old]); [reflexivity| |left].
  repeat constructor. apply not_elem_of_nil.
Defined.

Lemma save_gate_witness :
  let s := appendMessage (a_message (js "1") bob (js "hi") 0)
    (on_loaded alice None (setSelfDid (Some alice) empty_store).1) in
  let w := mkDevice s [] [] [] [] in
  liveSelfDid (st w) = Some alice ∧ saveEnabled (st w) = true.
Proof.
  intros s w. refine (let H := save_gate w alice _ _ in conj (proj1 H) (proj1 (proj2 H))).
  - exists []. eapply rtc_l; [apply (dev_self _ _ _ (Some alice)); [done|reflexivity]|].
    eapply rtc_l; [apply (dev_read _ _ _ 0 alice None); [reflexivity|by right]|].
    eapply rtc_l; [apply (dev_loaded _ _ _ 0 alice None); reflexivity|].
    eapply rtc_l; [apply (dev_op _ _ _ (OpAppend (a_message (js "1") bob (js "hi") 0))); done|].
    apply rtc_refl.
  - vm_compute. reflexivity.
Defined.

Lemma deleteConversation_erases_witness :
  let s := deleteConversation bob (appendMessage (a_message (js "1") bob (js "hi") 0) empty_store) in
  getMessages bob s = [] ∧ getMessages alice s = getMessages alice empty_store.
Proof.
  intros s. destruct (deleteConversation_erases bob
    (appendMessage (a_message (js "1") bob (js "hi") 0) empty_store)) as (_ & H & _ & _ & _ & _ & _ & Ho).
  split; [exact H|]. apply (Ho alice). intros E. vm_compute in E. discriminate.
Defined.

Lemma getConversations_sorted_witness :
  let c := mkContact bob (js "bob") (js "Bob") None None true None in
  let s := appendMessage (a_message (js "1") bob (js "hi") 0) (upsertContact c empty_store) in
  getConversations s ≡ₚ [mkConversation c (a_message (js "1") bob (js "hi") 0) 1].
Proof. intros c s. exact (proj1 (getConversations_sorted s)). Defined.
