(* ===== verification/Async.v ===== *)
(** * Asynchronous JavaScript: tasks, promises, interleaving

    An [async] function is a [task]: a tree of reads and writes of the module
    state [S], awaited requests [req] to the outside (native modules, the
    network), promises forked and joined.  A section between two awaits runs
    without interruption ([run]); at an await any other pending section may run
    first.  [step] is one such section in a world of suspended calls; every
    order of completion is a path of [step], the order of the micro-task queue
    among them.

    [safe I Phi Ans J t Q s] is the program logic: run from [s], the task [t]
    keeps [I] at every suspension, only sends requests that satisfy [Phi],
    provided answers satisfy [Ans], and ends with [Q].  [reachable_ok] lifts it
    to all reachable worlds. *)

From S2P Require Import Prelude JsString.

(** the type of a promise, and a promise: its number and type *)
Inductive ptype : Set := PString | PVoid.
Definition pid : Set := nat * ptype.

#[export] Instance ptype_eq_dec : EqDecision ptype.
Proof. solve_decision. Defined.

Section Task.
Context {S E : Type} {req : Set → Type}.

(** the value of a promise is a string, [[]] for [void] *)
Inductive task (A : Type) : Type :=
| Ret (r : E + A)
| Get (k : S → task A)
| Put (s : S) (k : task A)
| Call (R : Set) (c : req R) (k : E + R → task A)
| Tick (k : task A)
| Fork (ty : ptype) (t : task jstr) (k : pid → task A)
| Join (p : pid) (k : E + jstr → task A).

#[global] Arguments Ret {A} r.
#[global] Arguments Get {A} k.
#[global] Arguments Put {A} s k.
#[global] Arguments Call {A R} c k.
#[global] Arguments Tick {A} k.
#[global] Arguments Fork {A} ty t k.
#[global] Arguments Join {A} p k.

(** [then] with both outcomes: [try]/[catch]/[finally] *)
Fixpoint bindR {A B : Type} (t : task A) (f : E + A → task B) : task B :=
  match t with
  | Ret r => f r
  | Get k => Get (λ s, bindR (k s) f)
  | Put s k => Put s (bindR k f)
  | Call c k => Call c (λ r, bindR (k r) f)
  | Tick k => Tick (bindR k f)
  | Fork ty t k => Fork ty t (λ p, bindR (k p) f)
  | Join p k => Join p (λ r, bindR (k r) f)
  end.

Definition bind {A B : Type} (t : task A) (f : A → task B) : task B :=
  bindR t (λ r, match r with inl e => Ret (inl e) | inr a => f a end).

Definition ret {A : Type} (a : A) : task A := Ret (inr a).
Definition throw {A : Type} (e : E) : task A := Ret (inl e).
Definition gets {A : Type} (f : S → A) : task A := Get (λ s, ret (f s)).
Definition modify (f : S → S) : task unit := Get (λ s, Put (f s) (ret tt)).
Definition modify_get {A : Type} (f : S → S * A) : task A := Get (λ s, Put (f s).1 (ret (f s).2)).

(** [await] of a request, of an [async] call, of a promise; [void f()] *)
Definition call {R : Set} (c : req R) : task R := Call c Ret.
Definition await {A : Type} (t : task A) : task A := bindR t (λ r, Tick (Ret r)).
Definition join (p : pid) : task jstr := Join p Ret.
Definition fork (ty : ptype) (t : task jstr) : task pid := Fork ty t ret.
Definition void (t : task unit) : task unit :=
  Fork PVoid (bind t (λ _, ret [])) (λ _, ret tt).
Definition try_catch {A : Type} (t : task A) (h : E → task A) : task A :=
  bindR t (λ r, match r with inl e => h e | inr a => ret a end).
Definition try_finally {A : Type} (t : task A) (f : task unit) : task A :=
  bindR t (λ r, bindR f (λ _, Ret r)).

(** ** Running a section *)

Inductive status (A : Type) : Type :=
| Done (r : E + A)
| OnCall (R : Set) (c : req R) (k : E + R → task A)
| OnTick (k : task A)
| OnJoin (p : pid) (k : E + jstr → task A).

#[global] Arguments Done {A} r.
#[global] Arguments OnCall {A R} c k.
#[global] Arguments OnTick {A} k.
#[global] Arguments OnJoin {A} p k.

Definition thread : Type := pid * status jstr.

(** state, next promise, promises forked in the section, outcome *)
Record section_result (A : Type) := mkResult {
  rs : S; rnext : nat; rforked : list thread; rstatus : status A }.
#[global] Arguments mkResult {A}.
#[global] Arguments rs {A}.
#[global] Arguments rnext {A}.
#[global] Arguments rforked {A}.
#[global] Arguments rstatus {A}.

Fixpoint run {A : Type} (t : task A) (n : nat) (s : S) : section_result A :=
  match t with
  | Ret r => mkResult s n [] (Done r)
  | Get k => run (k s) n s
  | Put s' k => run k n s'
  | Call c k => mkResult s n [] (OnCall c k)
  | Tick k => mkResult s n [] (OnTick k)
  | Join p k => mkResult s n [] (OnJoin p k)
  | Fork ty t k =>
      let r1 := run t (Datatypes.S n) s in
      let r2 := run (k (n, ty)) (rnext r1) (rs r1) in
      mkResult (rs r2) (rnext r2) (((n, ty), rstatus r1) :: rforked r1 ++ rforked r2) (rstatus r2)
  end.

Record world := mkWorld { ws : S; wnext : nat; wthreads : list thread }.

(** One section: an answer arrives, a tick is taken, a joined promise has
    settled, a handler starts, or the environment changes the state. *)
Inductive step {event : Type} (handler : event → task jstr) (env : S → S → Prop)
    (Ans : ∀ R : Set, req R → E + R → Prop) : world → world → Prop :=
| step_answer s n l1 p R (c : req R) k l2 r :
    Ans R c r →
    step handler env Ans (mkWorld s n (l1 ++ (p, OnCall c k) :: l2))
      (let x := run (k r) n s in
       mkWorld (rs x) (rnext x) (l1 ++ (p, rstatus x) :: l2 ++ rforked x))
| step_tick s n l1 p k l2 :
    step handler env Ans (mkWorld s n (l1 ++ (p, OnTick k) :: l2))
      (let x := run k n s in
       mkWorld (rs x) (rnext x) (l1 ++ (p, rstatus x) :: l2 ++ rforked x))
| step_join s n l1 p q k l2 r :
    (q, Done r) ∈ l1 ++ l2 →
    step handler env Ans (mkWorld s n (l1 ++ (p, OnJoin q k) :: l2))
      (let x := run (k r) n s in
       mkWorld (rs x) (rnext x) (l1 ++ (p, rstatus x) :: l2 ++ rforked x))
| step_event s n l e :
    step handler env Ans (mkWorld s n l)
      (let x := run (handler e) (Datatypes.S n) s in
       mkWorld (rs x) (rnext x) (l ++ ((n, PVoid), rstatus x) :: rforked x))
| step_env s s' n l :
    env s s' → step handler env Ans (mkWorld s n l) (mkWorld s' n l).

(** *** The same, executable: [resume] runs the pending section number [i], with
    [ans] for the answers; [launch] starts a handler. *)

Definition settle (l : list thread) (q : pid) : option (E + jstr) :=
  match List.find (λ th : thread, bool_decide (th.1 = q)) l with
  | Some (_, Done r) => Some r
  | _ => None
  end.

Definition put_section (i : nat) (p : pid) (t : task jstr) (w : world) : world :=
  let x := run t (wnext w) (ws w) in
  mkWorld (rs x) (rnext x) (take i (wthreads w) ++ (p, rstatus x) :: drop (Datatypes.S i) (wthreads w) ++ rforked x).

Definition resume (ans : ∀ R : Set, req R → E + R) (i : nat) (w : world) : world :=
  match wthreads w !! i with
  | Some (p, OnCall c k) => put_section i p (k (ans _ c)) w
  | Some (p, OnTick k) => put_section i p k w
  | Some (p, OnJoin q k) =>
      match settle (take i (wthreads w) ++ drop (Datatypes.S i) (wthreads w)) q with
      | Some r => put_section i p (k r) w
      | None => w
      end
  | _ => w
  end.

Definition launch (t : task jstr) (w : world) : world :=
  let x := run t (Datatypes.S (wnext w)) (ws w) in
  mkWorld (rs x) (rnext x) (wthreads w ++ ((wnext w, PVoid), rstatus x) :: rforked x).

Lemma settle_Some l q r : settle l q = Some r → (q, Done r) ∈ l.
Proof.
  unfold settle. intros H. destruct (List.find _ l) as [[q' st]|] eqn:F; [|done].
  apply find_some in F as [Hin Hq]. apply bool_decide_eq_true in Hq. simpl in Hq. subst q'.
  destruct st; [|done..]. injection H as ->. by apply list_elem_of_In.
Qed.

Lemma resume_steps {event : Type} (handler : event → task jstr) env Ans ans i w :
  (∀ R (c : req R), Ans R c (ans R c)) → rtc (step handler env Ans) w (resume ans i w).
Proof.
  intros Ha. unfold resume. destruct (wthreads w !! i) as [[p st]|] eqn:Hi; [|apply rtc_refl].
  pose proof (take_drop_middle _ _ _ Hi) as Hm. destruct w as [s n l]. simpl in *.
  destruct st as [r|R c k|k|q k]; [apply rtc_refl| | |]; [| |destruct (settle _ q) as [r|] eqn:Hq; [|apply rtc_refl]];
    apply rtc_once; rewrite <-Hm at 1; [by apply step_answer|apply step_tick|].
  apply step_join. by apply settle_Some.
Qed.

Lemma launch_step {event : Type} (handler : event → task jstr) env Ans e w :
  rtc (step handler env Ans) w (launch (handler e) w).
Proof. destruct w as [s n l]. apply rtc_once. apply step_event. Qed.

(** a run, one section after the other *)
Lemma launch_after {event : Type} (handler : event → task jstr) env Ans e w0 w :
  rtc (step handler env Ans) w0 w → rtc (step handler env Ans) w0 (launch (handler e) w).
Proof. intros H. etrans; [exact H|apply launch_step]. Qed.
Lemma resume_after {event : Type} (handler : event → task jstr) env Ans ans i w0 w :
  (∀ R (c : req R), Ans R c (ans R c)) →
  rtc (step handler env Ans) w0 w → rtc (step handler env Ans) w0 (resume ans i w).
Proof. intros Ha H. etrans; [exact H|by apply resume_steps]. Qed.

(** one step resumes a suspended section, starts a handler or changes the state *)
Definition resumed (Ans : ∀ R : Set, req R → E + R → Prop) (st : status jstr) (n : nat) (s : S)
    (x : section_result jstr) : Prop :=
  match st with
  | Done _ => False
  | @OnCall _ R c k => ∃ r, Ans R c r ∧ x = run (k r) n s
  | OnTick k => x = run k n s
  | OnJoin _ k => ∃ r, x = run (k r) n s
  end.

Lemma step_cases {event : Type} (handler : event → task jstr) env Ans w w' :
  step handler env Ans w w' →
  (∃ l1 p st l2 x, wthreads w = l1 ++ (p, st) :: l2 ∧ resumed Ans st (wnext w) (ws w) x ∧
     w' = mkWorld (rs x) (rnext x) (l1 ++ (p, rstatus x) :: l2 ++ rforked x)) ∨
  (∃ e, w' = launch (handler e) w) ∨
  (∃ s', env (ws w) s' ∧ w' = mkWorld s' (wnext w) (wthreads w)).
Proof.
  intros [s n l1 p R c k l2 r Ha|s n l1 p k l2|s n l1 p q k l2 r Hq|s n l e|s s' n l He].
  - left. exists l1, p, (OnCall c k), l2, (run (k r) n s). repeat split. by exists r.
  - left. by exists l1, p, (OnTick k), l2, (run k n s).
  - left. exists l1, p, (OnJoin q k), l2, (run (k r) n s). repeat split. by exists r.
  - right. left. by exists e.
  - right. right. by exists s'.
Qed.

(** ** The program logic *)

Section Logic.
Context (I : S → Prop) (Phi : ∀ R : Set, req R → Prop)
        (Ans : ∀ R : Set, req R → E + R → Prop) (J : ptype → E + jstr → Prop).

Fixpoint safe {A : Type} (t : task A) (Q : E + A → S → Prop) (s : S) : Prop :=
  match t with
  | Ret r => Q r s
  | Get k => safe (k s) Q s
  | Put s' k => safe k Q s'
  | @Call _ R c k => I s ∧ Phi R c ∧ ∀ r s', I s' → Ans R c r → safe (k r) Q s'
  | Tick k => I s ∧ ∀ s', I s' → safe k Q s'
  | Join p k => I s ∧ ∀ r s', I s' → J p.2 r → safe (k r) Q s'
  | Fork ty t k => safe t (λ r s', I s' ∧ J ty r) s ∧ ∀ n s', I s' → safe (k (n, ty)) Q s'
  end.

Lemma safe_mono {A : Type} (t : task A) (Q Q' : E + A → S → Prop) s :
  (∀ r s', Q r s' → Q' r s') → safe t Q s → safe t Q' s.
Proof.
  intros HQ. revert s. induction t; simpl; intros s0; try naive_solver.
Qed.

Lemma safe_bindR {A B : Type} (t : task A) (f : E + A → task B) Q s :
  safe t (λ r s', safe (f r) Q s') s → safe (bindR t f) Q s.
Proof. revert s. induction t; simpl; naive_solver. Qed.

Lemma safe_bind {A B : Type} (t : task A) (f : A → task B) Q s :
  safe t (λ r s', match r with inl e => Q (inl e) s' | inr a => safe (f a) Q s' end) s →
  safe (bind t f) Q s.
Proof.
  intros H. apply safe_bindR. eapply safe_mono; [|exact H]. by intros [e|a] s'.
Qed.

Lemma safe_await {A : Type} (t : task A) (Q : E + A → S → Prop) s :
  safe t (λ r s', I s' ∧ ∀ s'', I s'' → Q r s'') s → safe (await t) Q s.
Proof. intros H. by apply safe_bindR. Qed.

Lemma safe_try_catch {A : Type} (t : task A) h (Q : E + A → S → Prop) s :
  safe t (λ r s', match r with inl e => safe (h e) Q s' | inr a => Q (inr a) s' end) s →
  safe (try_catch t h) Q s.
Proof. intros H. apply safe_bindR. eapply safe_mono; [|exact H]. by intros [e|a] s'. Qed.

Lemma safe_void (t : task unit) Q s :
  safe t (λ r s', I s' ∧ J PVoid (match r with inl e => inl e | inr _ => inr [] end)) s →
  (∀ s', I s' → Q (inr tt) s') → safe (void t) Q s.
Proof.
  intros H HQ. simpl. split; [|auto]. apply safe_bind. eapply safe_mono; [|exact H].
  by intros [e|a] s'.
Qed.

(** *** Soundness *)

Definition status_ok {A : Type} (Q : E + A → S → Prop) (st : status A) (s : S) : Prop :=
  match st with
  | Done r => Q r s
  | @OnCall _ R c k => I s ∧ Phi R c ∧ ∀ r s', I s' → Ans R c r → safe (k r) Q s'
  | OnTick k => I s ∧ ∀ s', I s' → safe k Q s'
  | OnJoin p k => I s ∧ ∀ r s', I s' → J p.2 r → safe (k r) Q s'
  end.

Definition final (ty : ptype) (r : E + jstr) (s : S) : Prop := I s ∧ J ty r.

(** a thread of the pool, whatever the state is now *)
Definition thread_ok (th : thread) : Prop :=
  match th.2 with
  | Done r => J th.1.2 r
  | @OnCall _ R c k => Phi R c ∧ ∀ r s', I s' → Ans R c r → safe (k r) (final th.1.2) s'
  | OnTick k => ∀ s', I s' → safe k (final th.1.2) s'
  | OnJoin p k => ∀ r s', I s' → J p.2 r → safe (k r) (final th.1.2) s'
  end.

Lemma status_thread_ok st s p : status_ok (final p.2) st s → I s ∧ thread_ok (p, st).
Proof. unfold thread_ok, final. destruct st; simpl; unfold final; tauto. Qed.

Lemma run_safe {A : Type} (t : task A) Q n s :
  safe t Q s →
  status_ok Q (rstatus (run t n s)) (rs (run t n s)) ∧ Forall thread_ok (rforked (run t n s)).
Proof.
  revert n s. induction t as [A r|A k IH|A s' k IH|A R c k IH|A k IH|A ty t IHt k IH|A p k IH];
    intros n s H; simpl in *; auto.
  destruct H as [Ht Hk]. destruct (IHt _ (Datatypes.S n) s Ht) as [H1 H2].
  apply (status_thread_ok _ _ (n, ty)) in H1 as [HI H1].
  destruct (IH (n, ty) Q (rnext (run t (Datatypes.S n) s)) _ (Hk n _ HI)) as [H3 H4].
  split; [done|]. constructor; [done|]. by apply Forall_app.
Qed.

Definition world_ok (w : world) : Prop := I (ws w) ∧ Forall thread_ok (wthreads w).

Context {event : Type} (handler : event → task jstr) (env : S → S → Prop).
Hypothesis handler_safe : ∀ e s, I s → safe (handler e) (final PVoid) s.
Hypothesis env_safe : ∀ s s', env s s' → I s → I s'.

Lemma resume_ok s n l1 p l2 (t : task jstr) :
  Forall thread_ok l1 → Forall thread_ok l2 → safe t (final p.2) s →
  world_ok (let x := run t n s in
    mkWorld (rs x) (rnext x) (l1 ++ (p, rstatus x) :: l2 ++ rforked x)).
Proof.
  intros H1 H2 Ht. destruct (run_safe t (final p.2) n s Ht) as [H3 H4].
  apply (status_thread_ok _ _ p) in H3 as [HI H3]. split; [done|]. simpl.
  apply Forall_app. split; [done|]. constructor; [done|]. by apply Forall_app.
Qed.

Lemma step_ok w w' : step handler env Ans w w' → world_ok w → world_ok w'.
Proof.
  intros Hs [HI Ht]. destruct Hs as [s n l1 p R c k l2 r Ha|s n l1 p k l2|s n l1 p q k l2 r Hq|s n l e|s s' n l He];
    simpl in HI, Ht.
  - apply Forall_app in Ht as [H1 [Hc H2]%list.Forall_cons]. simpl in Hc. apply resume_ok; auto.
    by apply Hc.
  - apply Forall_app in Ht as [H1 [Hc H2]%list.Forall_cons]. apply resume_ok; auto.
  - apply Forall_app in Ht as [H1 [Hc H2]%list.Forall_cons]. apply resume_ok; auto.
    apply Hc; [done|]. assert (Forall thread_ok (l1 ++ l2)) as H by (by apply Forall_app).
    rewrite list.Forall_forall in H. exact (H _ Hq).
  - destruct (run_safe _ _ (Datatypes.S n) s (handler_safe e s HI)) as [H3 H4].
    apply (status_thread_ok _ _ (n, PVoid)) in H3 as [HI' H3]. split; [done|]. simpl.
    apply Forall_app. split; [done|]. by constructor.
  - split; [by eapply env_safe|done].
Qed.

Lemma reachable_ok w w' : rtc (step handler env Ans) w w' → world_ok w → world_ok w'.
Proof. induction 1; eauto using step_ok. Qed.

End Logic.

(** ** Specifications with an invariant

    [spec t P]: started in a state of the invariant, [t] keeps it, and a result
    satisfies [P], an error [Err]. *)

Section Spec.
Context (I : S → Prop) (Phi : ∀ R : Set, req R → Prop)
        (Ans : ∀ R : Set, req R → R → Prop) (JP : ptype → jstr → Prop) (Err : E → Prop).

Definition outcome {A : Type} (P : A → Prop) (r : E + A) : Prop :=
  match r with inl e => Err e | inr a => P a end.
Definition answer (R : Set) (c : req R) (r : E + R) : Prop := outcome (Ans R c) r.
Definition settled (ty : ptype) (r : E + jstr) : Prop := outcome (JP ty) r.

Definition spec {A : Type} (t : task A) (P : A → Prop) : Prop :=
  ∀ s, I s → safe I Phi answer settled t (λ r s', I s' ∧ outcome P r) s.

Lemma spec_weaken {A : Type} (t : task A) (P Q : A → Prop) :
  spec t P → (∀ a, P a → Q a) → spec t Q.
Proof.
  intros H HP s Hs. eapply safe_mono; [|by apply H]. intros [e|a] s' [? Hr]; split; auto.
  by apply HP.
Qed.

Lemma spec_ret {A : Type} (a : A) (P : A → Prop) : P a → spec (ret a) P.
Proof. intros H s Hs. by split. Qed.

Lemma spec_throw {A : Type} e (P : A → Prop) : Err e → spec (throw e) P.
Proof. intros H s Hs. by split. Qed.

Lemma spec_bindR {A B : Type} (t : task A) (f : E + A → task B) P Q :
  spec t P → (∀ r, outcome P r → spec (f r) Q) → spec (bindR t f) Q.
Proof.
  intros Ht Hf s Hs. apply safe_bindR. eapply safe_mono; [|by apply Ht].
  intros r s' [Hs' Hr]. by apply Hf.
Qed.

Lemma spec_bind {A B : Type} (t : task A) (f : A → task B) P Q :
  spec t P → (∀ a, P a → spec (f a) Q) → spec (bind t f) Q.
Proof. intros Ht Hf. eapply spec_bindR; [exact Ht|]. intros [e|a] Hr; [by apply spec_throw|by apply Hf]. Qed.

Lemma spec_gets {A : Type} (f : S → A) (P : A → Prop) : (∀ s, I s → P (f s)) → spec (gets f) P.
Proof. intros H s Hs. split; [done|]. by apply H. Qed.

Lemma spec_modify (f : S → S) : (∀ s, I s → I (f s)) → spec (modify f) (λ _, True).
Proof. intros H s Hs. simpl. split; [by apply H|done]. Qed.

Lemma spec_modify_get {A : Type} (f : S → S * A) (P : A → Prop) :
  (∀ s, I s → I (f s).1 ∧ P (f s).2) → spec (modify_get f) P.
Proof. intros H s Hs. apply (H s Hs). Qed.

Lemma spec_call {R : Set} (c : req R) (P : R → Prop) :
  Phi R c → (∀ r, Ans R c r → P r) → spec (call c) P.
Proof.
  intros HP Ha s Hs. simpl. split; [done|]. split; [done|]. intros [e|r] s' Hs' Hr; split; auto.
  by apply Ha.
Qed.

Lemma spec_await {A : Type} (t : task A) (P : A → Prop) : spec t P → spec (await t) P.
Proof.
  intros H s Hs. apply safe_await. eapply safe_mono; [|by apply H]. intros r s' [Hs' Hr]. auto.
Qed.

Lemma spec_try_catch {A : Type} (t : task A) h (P : A → Prop) :
  spec t P → (∀ e, Err e → spec (h e) P) → spec (try_catch t h) P.
Proof.
  intros Ht Hh. eapply spec_bindR; [exact Ht|]. intros [e|a] Hr; [by apply Hh|by apply spec_ret].
Qed.

Lemma spec_try_finally {A : Type} (t : task A) f (P : A → Prop) :
  spec t P → spec f (λ _, True) → spec (try_finally t f) P.
Proof.
  intros Ht Hf. eapply spec_bindR; [exact Ht|]. intros r Hr.
  eapply spec_bindR; [exact Hf|]. intros _ _ s Hs. by split.
Qed.

Lemma spec_fork ty t : spec t (JP ty) → spec (fork ty t) (λ p, p.2 = ty).
Proof. intros H s Hs. split; [by apply H|]. intros n s' Hs'. by split. Qed.

Lemma spec_join p : spec (join p) (JP p.2).
Proof. intros s Hs. split; [done|]. intros r s' Hs' Hr. by split. Qed.

Lemma spec_void t : JP PVoid [] → spec t (λ _, True) → spec (void t) (λ _, True).
Proof.
  intros HJ H s Hs. split; [|intros n s' Hs'; by split].
  apply (spec_bind t (λ _, ret []) (λ _, True) (JP PVoid)); auto. intros _ _. by apply spec_ret.
Qed.

Lemma spec_if {A : Type} (b : bool) (t u : task A) P :
  (b = true → spec t P) → (b = false → spec u P) → spec (if b then t else u) P.
Proof. destruct b; auto. Qed.

(** Every reachable world satisfies the invariant, and every request that waits
    for its answer satisfies [Phi]. *)
Lemma spec_reachable {event : Type} (handler : event → task jstr) (env : S → S → Prop) w0 w :
  (∀ e, spec (handler e) (JP PVoid)) → (∀ s s', env s s' → I s → I s') →
  I (ws w0) → wthreads w0 = [] → rtc (step handler env answer) w0 w →
  I (ws w) ∧
  (∀ p R (c : req R) k, (p, OnCall c k) ∈ wthreads w → Phi R c) ∧
  (∀ p r, (p, Done r) ∈ wthreads w → settled p.2 r).
Proof.
  intros Hh He H0 Ht Hr.
  assert (world_ok I Phi answer settled w) as [HI Hw].
  { eapply reachable_ok; [|exact He|exact Hr|].
    - intros e s Hs. by apply Hh.
    - split; [done|]. by rewrite Ht. }
  rewrite list.Forall_forall in Hw. repeat split; [done| |].
  - intros p R c k Hin. by destruct (Hw _ Hin).
  - intros p r Hin. exact (Hw _ Hin).
Qed.

End Spec.

(** ** Traces of one call

    [trace t tr r]: with the module state at each read whatever other calls have
    made of it, and each request answered somehow, [t] can end with [r], and
    [tr] is what [obs] shows of its requests and their answers, in order.  What a
    forked promise does is not in the trace of the call that forks it. *)

Section Trace.
Context {event : Type} (obs : ∀ R : Set, req R → E + R → list event).

Fixpoint trace {A : Type} (t : task A) (tr : list event) (r : E + A) : Prop :=
  match t with
  | Ret r' => tr = [] ∧ r = r'
  | Get k => ∃ s, trace (k s) tr r
  | Put _ k => trace k tr r
  | @Call _ R c k => ∃ a tr', tr = obs R c a ++ tr' ∧ trace (k a) tr' r
  | Tick k => trace k tr r
  | Fork ty _ k => ∃ n, trace (k (n, ty)) tr r
  | Join _ k => ∃ a, trace (k a) tr r
  end.

Lemma trace_bindR {A B : Type} (t : task A) (f : E + A → task B) tr r :
  trace (bindR t f) tr r ↔
  ∃ a tr1 tr2, tr = tr1 ++ tr2 ∧ trace t tr1 a ∧ trace (f a) tr2 r.
Proof.
  revert tr. induction t as [A r0|A k IH|A s k IH|A R c k IH|A k IH|A ty t IHt k IH|A p k IH]; intros tr; simpl.
  - split; [intros H; by exists r0, [], tr|]. by intros (a & tr1 & tr2 & -> & [-> ->] & H).
  - setoid_rewrite IH. split; [intros (s & a & tr1 & tr2 & -> & H1 & H2)|intros (a & tr1 & tr2 & -> & (s & H1) & H2)];
      eauto 10.
  - apply IH.
  - setoid_rewrite IH. split.
    + intros (b & tr' & -> & a & tr1 & tr2 & -> & H1 & H2). exists a, (obs R c b ++ tr1), tr2.
      rewrite <-app_assoc. eauto 10.
    + intros (a & tr1 & tr2 & -> & (b & tr' & -> & H1) & H2). exists b, (tr' ++ tr2).
      rewrite <-app_assoc. eauto 10.
  - apply IH.
  - setoid_rewrite IH. split; [intros (s & a & tr1 & tr2 & -> & H1 & H2)|intros (a & tr1 & tr2 & -> & (s & H1) & H2)];
      eauto 10.
  - setoid_rewrite IH. split; [intros (s & a & tr1 & tr2 & -> & H1 & H2)|intros (a & tr1 & tr2 & -> & (s & H1) & H2)];
      eauto 10.
Qed.

Lemma trace_bind {A B : Type} (t : task A) (f : A → task B) tr r :
  trace (bind t f) tr r ↔
  (∃ e, trace t tr (inl e) ∧ r = inl e) ∨
  (∃ a tr1 tr2, tr = tr1 ++ tr2 ∧ trace t tr1 (inr a) ∧ trace (f a) tr2 r).
Proof.
  unfold bind. rewrite trace_bindR. split.
  - intros ([e|a] & tr1 & tr2 & -> & H1 & H2); [left|right; eauto 10].
    destruct H2 as [-> ->]. rewrite app_nil_r. eauto.
  - intros [(e & H & ->)|(a & tr1 & tr2 & -> & H1 & H2)]; [|by exists (inr a), tr1, tr2].
    exists (inl e), tr, []. by rewrite app_nil_r.
Qed.

Lemma trace_await {A : Type} (t : task A) tr r : trace (await t) tr r ↔ trace t tr r.
Proof.
  unfold await. rewrite trace_bindR. simpl. split.
  - intros (a & tr1 & tr2 & -> & H & -> & ->). by rewrite app_nil_r.
  - intros H. exists r, tr, []. by rewrite app_nil_r.
Qed.

Lemma trace_gets {A : Type} (f : S → A) tr r : trace (gets f) tr r → ∃ s, tr = [] ∧ r = inr (f s).
Proof. intros (s & -> & ->). by exists s. Qed.

Lemma trace_modify (f : S → S) tr r : trace (modify f) tr r → tr = [] ∧ r = inr tt.
Proof. by intros (s & -> & ->). Qed.

Lemma trace_call {R : Set} (c : req R) tr r : trace (call c) tr r ↔ tr = obs R c r.
Proof.
  simpl. split.
  - intros (a & tr' & -> & -> & ->). by rewrite app_nil_r.
  - intros ->. exists r, []. by rewrite app_nil_r.
Qed.

End Trace.

(** ** One call alone

    [solo t s d]: the call [t] from the module state [s] in the outside world
    [d], which answers its requests in turn; nothing else runs in between.  A
    forked promise runs when it is forked; [None] stands for a call that waits
    for a promise of another call. *)

Section Solo.
Context {D : Type} (handle : ∀ R : Set, req R → D → (E + R) * D).

Fixpoint solo {A : Type} (t : task A) (s : S) (d : D) : option ((E + A) * S * D) :=
  match t with
  | Ret r => Some (r, s, d)
  | Get k => solo (k s) s d
  | Put s' k => solo k s' d
  | Call c k => solo (k (handle _ c d).1) s (handle _ c d).2
  | Tick k => solo k s d
  | Fork ty t k =>
      match solo t s d with
      | Some (_, s', d') => solo (k (O, ty)) s' d'
      | None => None
      end
  | Join p k => None
  end.

Lemma solo_bindR {A B : Type} (t : task A) (f : E + A → task B) s d :
  solo (bindR t f) s d =
  match solo t s d with Some (r, s', d') => solo (f r) s' d' | None => None end.
Proof.
  revert s d. induction t as [A r|A k IH|A s' k IH|A R c k IH|A k IH|A ty t IHt k IH|A p k IH];
    intros s d; simpl; auto.
  destruct (solo t s d) as [[[r s'] d']|]; auto.
Qed.

Lemma solo_bind {A B : Type} (t : task A) (f : A → task B) s d :
  solo (bind t f) s d =
  match solo t s d with
  | Some (inl e, s', d') => Some (inl e, s', d')
  | Some (inr a, s', d') => solo (f a) s' d'
  | None => None
  end.
Proof. unfold bind. rewrite solo_bindR. by destruct (solo t s d) as [[[[e|a] s'] d']|]. Qed.

Lemma solo_await {A : Type} (t : task A) s d : solo (await t) s d = solo t s d.
Proof. unfold await. rewrite solo_bindR. by destruct (solo t s d) as [[[r s'] d']|]. Qed.

Lemma solo_try_catch {A : Type} (t : task A) h s d :
  solo (try_catch t h) s d =
  match solo t s d with
  | Some (inl e, s', d') => solo (h e) s' d'
  | r => r
  end.
Proof. unfold try_catch. rewrite solo_bindR. by destruct (solo t s d) as [[[[e|a] s'] d']|]. Qed.

Lemma solo_call {R : Set} (c : req R) s d :
  solo (call c) s d = Some ((handle R c d).1, s, (handle R c d).2).
Proof. done. Qed.

Lemma solo_ret {A : Type} (a : A) s d : solo (ret a) s d = Some (inr a, s, d).
Proof. done. Qed.

Lemma solo_throw {A : Type} (e : E) s d : solo (A := A) (throw e) s d = Some (inl e, s, d).
Proof. done. Qed.

Lemma solo_modify (f : S → S) s d : solo (modify f) s d = Some (inr tt, f s, d).
Proof. done. Qed.

Lemma solo_gets {A : Type} (f : S → A) s d : solo (gets f) s d = Some (inr (f s), s, d).
Proof. done. Qed.

Lemma solo_modify_get {A : Type} (f : S → S * A) s d : solo (modify_get f) s d = Some (inr (f s).2, (f s).1, d).
Proof. done. Qed.

Lemma solo_try_finally {A : Type} (t : task A) (f : task unit) s d :
  solo (try_finally t f) s d =
  match solo t s d with
  | Some (r, s', d') => match solo f s' d' with Some (_, s2, d2) => Some (r, s2, d2) | None => None end
  | None => None
  end.
Proof.
  unfold try_finally. rewrite solo_bindR. destruct (solo t s d) as [[[r s'] d']|]; [|done]. by rewrite solo_bindR.
Qed.

End Solo.

End Task.

#[global] Arguments task S E req A : clear implicits.
#[global] Arguments status S E req A : clear implicits.
#[global] Arguments thread S E req : clear implicits.
#[global] Arguments world S E req : clear implicits.

(** goes back through a run to where it began *)
Ltac run_through :=
  repeat lazymatch goal with
  | |- rtc _ _ (launch _ _) => apply launch_after
  | |- rtc _ _ (resume _ _ _) => apply resume_after; [done|]
  end; apply rtc_refl.

(** ** A program over a part of the state *)

Section Lift.
Context {S T E : Type} {req : Set → Type} (part : S → T) (put : T → S → S).

Fixpoint lift {A : Type} (t : task T E req A) : task S E req A :=
  match t with
  | Ret r => Ret r
  | Get k => Get (λ s, lift (k (part s)))
  | Put x k => Get (λ s, Put (put x s) (lift k))
  | Call c k => Call c (λ r, lift (k r))
  | Tick k => Tick (lift k)
  | Fork ty t k => Fork ty (lift t) (λ p, lift (k p))
  | Join p k => Join p (λ r, lift (k r))
  end.

Lemma trace_lift {event : Type} (obs : ∀ R : Set, req R → E + R → list event) {A : Type} (t : task T E req A) tr r :
  trace obs (lift t) tr r → trace obs t tr r.
Proof.
  revert tr. induction t as [A r0|A k IH|A s k IH|A R c k IH|A k IH|A ty t IHt k IH|A p k IH]; intros tr H; simpl in *.
  - done.
  - destruct H as [s H]. eauto.
  - destruct H as [x H]. eauto.
  - destruct H as (a & tr' & -> & H). eauto 10.
  - eauto.
  - destruct H as [n H]. eauto.
  - destruct H as [a H]. eauto.
Qed.

Hypothesis part_put : ∀ x s, part (put x s) = x.
Hypothesis put_part : ∀ s, put (part s) s = s.
Hypothesis put_put : ∀ x y s, put x (put y s) = put x s.

Lemma solo_lift {D} (handle : ∀ R : Set, req R → D → (E + R) * D) {A : Type} (t : task T E req A) s d :
  solo handle (lift t) s d =
  match solo handle t (part s) d with Some (r, x, d') => Some (r, put x s, d') | None => None end.
Proof using part_put put_part put_put.
  revert s d. induction t as [A r0|A k IH|A x k IH|A R c k IH|A k IH|A ty t IHt k IH|A p k IH]; intros s d; simpl; auto.
  - by rewrite put_part.
  - rewrite IH, part_put. destruct (solo _ k x d) as [[[r y] d']|]; [by rewrite put_put|done].
  - rewrite IHt. destruct (solo _ t (part s) d) as [[[r y] d']|]; [|done]. rewrite IH, part_put.
    destruct (solo _ _ y d') as [[[r' z] d'']|]; [by rewrite put_put|done].
Qed.

End Lift.
