(* ===== verification/Messaging.v ===== *)
(** * End-to-end encrypted messaging: the native path of
      src/services/MessagingService.ts

    The service's module-level maps are the record [msgr], beside the store of
    MsgStore.v; a request to the native bridge or to the server is a [req] with
    its answer's type; every [async] function is a task.  A JavaScript array
    that is iterated while it may change (the pending-decrypt buffers) lives in
    a heap, so that the aliasing of the code is kept. *)

From stdpp Require Import strings.
From S2P Require Import Prelude JsString JsMap Json Codec MsgStore Async.

(** ** Errors, requests and answers *)

Record error := mkError { err_status : option Z; err_message : jstr }.
Definition Error (m : jstr) : error := mkError None m.

Record SessionInitResponse := mkInit {
  recipient_did : Did; recipient_username : jstr;
  kyber_public_key : jstr; dilithium_public_key : jstr }.

Inductive SendStatus := st_delivered | st_relayed | st_queued.

Record InitiateSessionResult := mkInitiated { initiated_id : jstr; kyberCiphertextB64 : jstr }.

Record SessionInfo := mkInfo { counter : Z; info_epoch : Z; chainKeyB64 : jstr }.

Record EnvelopeMetadata := mkMeta {
  senderDid : Did; meta_timestamp : Z; meta_epoch : Z; meta_sequence : Z; contentType : Z }.

(** src/services/NativeMessaging.ts: [ContentTypeTag] *)
Definition Tag_Text : Z := 0.
Definition Tag_KeyExchange : Z := 4.
Definition Tag_KeyRatchet : Z := 5.
Definition Tag_ReadReceipt : Z := 6.

Inductive req : Set → Type :=
(* the native bridge *)
| serializeSession (sessionId : jstr) : req jstr
| deserializeSession (blob : jstr) : req jstr
| initiateSession (localDid remoteDid : Did) (kyberPkB64 : jstr) : req InitiateSessionResult
| sealKeyExchangeSigned (localDid remoteDid : Did) (kyberCtB64 : jstr) : req jstr
| sealTextSigned (sessionId text : jstr) (localDid : Did) : req jstr
| getSessionInfo (sessionId : jstr) : req SessionInfo
| envelopeFromHex (hex : jstr) : req jstr
| envelopeDescribe (envelopeB64 : jstr) : req EnvelopeMetadata
| acceptEnvelopeWithIdentity (localDid sender : Did) (envelopeB64 : jstr) : req jstr
| acceptRekeyEnvelopeWithIdentity (sessionId envelopeB64 : jstr) (localDid : Did) : req unit
| envelopeOpenVerifiedWithSession (sessionId envelopeB64 peerPkB64 : jstr) : req jstr
(* the node *)
| post_session_init (sender_did : Did) (recipient : jstr) : req SessionInitResponse
| post_send (envelope_hex : jstr) : req SendStatus
(* RealAuthService.fetchIdentityRecord: the username, if there is a record with one *)
| fetchIdentityRecord (d : Did) : req (option jstr).

(** ** The service's state *)

Record PendingDecrypt := mkPending { envelopeB64 : jstr; placeholderId : jstr; meta : EnvelopeMetadata }.

Record msgr := mkMsgr {
  clock : Z;                                  (* Date.now() *)
  rng : list jstr;                            (* the digits Math.random() will give *)
  mstore : store;
  sendSessionByDid : jsmap Did jstr;
  recvSessionByDid : jsmap Did jstr;
  sendSessionInitInFlight : jsmap Did pid;
  recoveryAttemptAt : jsmap Did Z;
  desyncedDids : list Did;
  heap : list (list PendingDecrypt);          (* arrays, by address *)
  pendingDecryptByDid : jsmap Did nat;
}.

Definition upd_store (f : store → store) m := mkMsgr (clock m) (rng m) (f (mstore m)) (sendSessionByDid m)
  (recvSessionByDid m) (sendSessionInitInFlight m) (recoveryAttemptAt m) (desyncedDids m) (heap m) (pendingDecryptByDid m).
Definition upd_send (f : jsmap Did jstr → jsmap Did jstr) m := mkMsgr (clock m) (rng m) (mstore m) (f (sendSessionByDid m))
  (recvSessionByDid m) (sendSessionInitInFlight m) (recoveryAttemptAt m) (desyncedDids m) (heap m) (pendingDecryptByDid m).
Definition upd_recv (f : jsmap Did jstr → jsmap Did jstr) m := mkMsgr (clock m) (rng m) (mstore m) (sendSessionByDid m)
  (f (recvSessionByDid m)) (sendSessionInitInFlight m) (recoveryAttemptAt m) (desyncedDids m) (heap m) (pendingDecryptByDid m).
Definition upd_inflight (f : jsmap Did pid → jsmap Did pid) m := mkMsgr (clock m) (rng m) (mstore m) (sendSessionByDid m)
  (recvSessionByDid m) (f (sendSessionInitInFlight m)) (recoveryAttemptAt m) (desyncedDids m) (heap m) (pendingDecryptByDid m).
Definition upd_recovery (f : jsmap Did Z → jsmap Did Z) m := mkMsgr (clock m) (rng m) (mstore m) (sendSessionByDid m)
  (recvSessionByDid m) (sendSessionInitInFlight m) (f (recoveryAttemptAt m)) (desyncedDids m) (heap m) (pendingDecryptByDid m).
Definition upd_desynced (f : list Did → list Did) m := mkMsgr (clock m) (rng m) (mstore m) (sendSessionByDid m)
  (recvSessionByDid m) (sendSessionInitInFlight m) (recoveryAttemptAt m) (f (desyncedDids m)) (heap m) (pendingDecryptByDid m).
Definition upd_pending (h : list (list PendingDecrypt)) (p : jsmap Did nat) m := mkMsgr (clock m) (rng m) (mstore m)
  (sendSessionByDid m) (recvSessionByDid m) (sendSessionInitInFlight m) (recoveryAttemptAt m) (desyncedDids m) h p.
Definition upd_rng (r : list jstr) m := mkMsgr (clock m) r (mstore m) (sendSessionByDid m)
  (recvSessionByDid m) (sendSessionInitInFlight m) (recoveryAttemptAt m) (desyncedDids m) (heap m) (pendingDecryptByDid m).

Abbreviation prog := (task msgr error req).

#[export] Instance prog_bind : MBind prog := λ A B f t, bind t f.
#[export] Instance prog_ret : MRet prog := λ A a, ret a.

Definition nowSec (m : msgr) : Z := clock m / 1000.
Definition store_do (f : store → store) : prog unit := modify (upd_store f).

(** a value of the language that may throw a [TypeError] or a [DOMException] *)
Definition or_throw {A} (o : option A) : prog A :=
  match o with Some a => ret a | None => throw (Error (js "InvalidCharacterError")) end.

(** ** Addressing the peer *)

Definition strip_ats (s : jstr) : jstr := drop_while (λ c, bool_decide (c = "@"%char)) s.

Definition recipient_of (c : option Contact) (remoteDid : Did) : jstr :=
  match c with
  | Some c => if truthy (username c) then "@"%char :: strip_ats (username c) else remoteDid
  | None => remoteDid
  end.

Definition sessionInit (recipient : jstr) : prog SessionInitResponse :=
  me ← gets (λ m, getSelfDid (mstore m)); call (post_session_init me recipient).

Definition sendEnvelope (hex : jstr) : prog SendStatus := call (post_send hex).

Definition sessionInitByDid (d : Did) : prog SessionInitResponse :=
  bindR (await (sessionInit d)) (λ r,
    match r with
    | inr init => ret init
    | inl e =>
        if bool_decide (err_status e = Some 404) then
          name ← call (fetchIdentityRecord d);
          match name with
          | Some n => if truthy (strip_ats n) then sessionInit ("@"%char :: strip_ats n)
                      else throw (Error (js "no username registered for " ++ d))
          | None => throw (Error (js "no username registered for " ++ d))
          end
        else throw e
    end).

(** ** Sessions, one per direction *)

Inductive SessionDir := dir_send | dir_recv.

Definition sessionStoreKey (d : Did) (dir : SessionDir) : jstr :=
  d ++ match dir with dir_send => js "#send" | dir_recv => js "#recv" end.

Definition sessions_of (dir : SessionDir) (m : msgr) : jsmap Did jstr :=
  match dir with dir_send => sendSessionByDid m | dir_recv => recvSessionByDid m end.
Definition set_session (dir : SessionDir) (d : Did) (sid : jstr) : msgr → msgr :=
  match dir with dir_send => upd_send (mset d sid) | dir_recv => upd_recv (mset d sid) end.

Definition persistSession (d : Did) (dir : SessionDir) (sid : jstr) : prog unit :=
  try_catch
    (blob ← call (serializeSession sid);
     store_do (setSerializedSession (sessionStoreKey d dir) blob))
    (λ _, ret tt).

(** [undefined] and the empty string are both falsy to the callers *)
Definition tryRestoreSession (d : Did) (dir : SessionDir) : prog jstr :=
  blob ← gets (λ m, getSerializedSession (sessionStoreKey d dir) (mstore m));
  match blob with
  | Some b =>
      if truthy b then
        try_catch (sid ← call (deserializeSession b); modify (set_session dir d sid);; ret sid)
          (λ _, ret [])
      else ret []
  | None => ret []
  end.

Definition initSendSession (remoteDid : Did) (recipient : jstr) : prog jstr :=
  restored ← await (tryRestoreSession remoteDid dir_send);
  if truthy restored then ret restored
  else
    init ← await (if startsWith (js "did:zhtp:") recipient then sessionInitByDid recipient
                  else sessionInit recipient);
    existing ← gets (λ m, getContact (recipient_did init) (mstore m));
    store_do (upsertContact (mkContact (recipient_did init) (recipient_username init)
      (match existing with Some c => display_name c | None => recipient_username init end)
      (Some (kyber_public_key init)) (Some (dilithium_public_key init))
      (match existing with Some c => online c | None => false end)
      (match existing with Some c => last_seen c | None => None end)));;
    localDid ← gets (λ m, getSelfDid (mstore m));
    pk ← or_throw (hexToBase64 (kyber_public_key init));
    initResult ← call (initiateSession localDid (recipient_did init) pk);
    modify (upd_send (mset remoteDid (initiated_id initResult)));;
    keyExchangeHex ← call (sealKeyExchangeSigned localDid (recipient_did init) (kyberCiphertextB64 initResult));
    await (sendEnvelope keyExchangeHex);;
    await (persistSession remoteDid dir_send (initiated_id initResult));;
    ret (initiated_id initResult).

Definition getOrInitSendSession (remoteDid : Did) (recipient : jstr) : prog jstr :=
  cached ← gets (λ m, default [] (mget remoteDid (sendSessionByDid m)));
  if truthy cached then ret cached
  else
    inFlight ← gets (λ m, mget remoteDid (sendSessionInitInFlight m));
    match inFlight with
    | Some p => join p
    | None =>
        p ← fork PString (initSendSession remoteDid recipient);
        modify (upd_inflight (mset remoteDid p));;
        try_finally (join p) (modify (upd_inflight (mdelete remoteDid)))
    end.

Definition resetSendSession (d : Did) (m : msgr) : msgr :=
  upd_store (clearSerializedSession (sessionStoreKey d dir_send)) (upd_send (mdelete d) m).

(** ** Recovery *)

Definition RECOVERY_COOLDOWN_MS : Z := 60000.

Definition recoverMissingSession (sender : Did) : prog unit :=
  last ← gets (λ m, default 0 (mget sender (recoveryAttemptAt m)));
  now ← gets clock;
  if now - last <? RECOVERY_COOLDOWN_MS then ret tt
  else
    modify (upd_recovery (mset sender now));;
    try_catch
      (modify (resetSendSession sender);;
       await (getOrInitSendSession sender sender);; ret tt)
      (λ _, ret tt).

Definition completeHandshake (peerDid : Did) (hadPriorInbound : bool) : prog unit :=
  if hadPriorInbound then void (recoverMissingSession peerDid)
  else
    has ← gets (λ m, mhas peerDid (sendSessionByDid m));
    if (has : bool) then ret tt
    else
      restored ← await (tryRestoreSession peerDid dir_send);
      if truthy restored then ret tt
      else try_catch (await (getOrInitSendSession peerDid peerDid);; ret tt) (λ _, ret tt).

Definition reconnectSession (d : Did) : prog unit :=
  now ← gets clock;
  modify (upd_recovery (mset d now));;
  modify (resetSendSession d);;
  await (getOrInitSendSession d d);; ret tt.

Definition set_add (d : Did) (l : list Did) : list Did := if bool_decide (d ∈ l) then l else l ++ [d].
Definition set_delete (d : Did) (l : list Did) : list Did := List.filter (λ x, negb (bool_decide (x = d))) l.

Definition conversationConnected (d : Did) (m : msgr) : bool := negb (bool_decide (d ∈ desyncedDids m)).

Definition deleteConversation (d : Did) (m : msgr) : msgr :=
  let m := upd_send (mdelete d) m in
  let m := upd_recv (mdelete d) m in
  let m := upd_recovery (mdelete d) m in
  let m := upd_desynced (set_delete d) m in
  let m := upd_pending (heap m) (mdelete d (pendingDecryptByDid m)) m in
  let m := upd_store (clearSerializedSession (sessionStoreKey d dir_send)) m in
  let m := upd_store (clearSerializedSession (sessionStoreKey d dir_recv)) m in
  upd_store (MsgStore.deleteConversation d) m.

(** ** The pending-decrypt buffers *)

Definition undecryptable_id (mt : EnvelopeMetadata) : jstr :=
  js "undecryptable-" ++ senderDid mt ++ js "-" ++ dec_str (meta_epoch mt) ++ js "-" ++ dec_str (meta_sequence mt).

Definition placeholder (mt : EnvelopeMetadata) : LocalMessage :=
  mkMessage (undecryptable_id mt) (senderDid mt) dir_received Undecryptable [] (meta_timestamp mt)
    (meta_epoch mt) (meta_sequence mt) failed.

Definition appendUndecryptablePlaceholder (mt : EnvelopeMetadata) (m : msgr) : msgr * jstr :=
  let i := undecryptable_id mt in
  if existsb (has_id i) (getMessages (senderDid mt) (mstore m)) then (m, i)
  else (upd_store (appendMessage (placeholder mt)) m, i).

Definition PENDING_DECRYPT_LIMIT_PER_PEER : nat := 64.

Definition array_at (a : nat) (m : msgr) : list PendingDecrypt := default [] (heap m !! a).

(** the address of the peer's array, a fresh empty one when there is none *)
Definition array_of (d : Did) (m : msgr) : nat * list (list PendingDecrypt) :=
  match mget d (pendingDecryptByDid m) with
  | Some a => (a, heap m)
  | None => (length (heap m), heap m ++ [[]])
  end.

(** the entries waiting for a peer *)
Definition buffer_of (d : Did) (m : msgr) : list PendingDecrypt :=
  match mget d (pendingDecryptByDid m) with Some a => array_at a m | None => [] end.

Definition bufferUndecryptable (d : Did) (item : PendingDecrypt) (m : msgr) : msgr :=
  let '(a, h) := array_of d m in
  let buf := default [] (h !! a) in
  if existsb (λ p, bool_decide (placeholderId p = placeholderId item)) buf then m
  else
    let buf := buf ++ [item] in
    let buf := if (PENDING_DECRYPT_LIMIT_PER_PEER <? length buf)%nat
               then drop (length buf - PENDING_DECRYPT_LIMIT_PER_PEER) buf else buf in
    upd_pending (<[a := buf]> h) (mset d a (pendingDecryptByDid m)) m.

(** ** Read receipts *)

Definition RECEIPT_MARKER : jstr := chr 1 :: js "ZHTP_RR_V1" ++ [chr 1].

Definition receipt_body (seq ep : Z) : jstr :=
  RECEIPT_MARKER ++ stringify (JObj [(js "seq", JNum seq); (js "epoch", JNum ep)]).

(** [JSON.parse] and the two [typeof] tests; a fraction matches no message *)
Definition parse_receipt (text : jstr) : option (Z * Z) :=
  v ← json_parse text; q ← jfield (js "seq") as_num v; e ← jfield (js "epoch") as_num v; Some (q, e).

Definition process_receipt (d : Did) (text : jstr) (m : msgr) : msgr :=
  match parse_receipt text with
  | Some (q, e) => upd_store (λ s, (confirmSentMessage d q e s).1) m
  | None => m
  end.

Definition shipReadReceipt (toDid : Did) (seq ep : Z) : prog unit :=
  try_catch
    (sid ← await (getOrInitSendSession toDid toDid);
     localDid ← gets (λ m, getSelfDid (mstore m));
     envHex ← call (sealTextSigned sid (receipt_body seq ep) localDid);
     await (sendEnvelope envHex);;
     await (persistSession toDid dir_send sid))
    (λ _, ret tt).

(** a message decoded from an envelope *)
Definition received (mt : EnvelopeMetadata) (d : Did) (text : jstr) : LocalMessage :=
  mkMessage (js "recv-" ++ dec_str (meta_timestamp mt) ++ js "-" ++ dec_str (meta_sequence mt))
    d dir_received Text text (meta_timestamp mt) (meta_epoch mt) (meta_sequence mt) delivered.

(** ** Draining the buffer: [for (const item of buf)] over the live array

    The iteration reads the array anew at each index.  No buffer is longer than
    the limit, so an index beyond it is never reached: [drain_fuel] is enough,
    and running out of it would end in [out_of_fuel], which no error of the
    program is. *)

Definition out_of_fuel : error := mkError (Some (-1)) (js "out of fuel").
Definition drain_fuel : nat := S PENDING_DECRYPT_LIMIT_PER_PEER.

(** one entry; the result tells whether it stays in the buffer *)
Definition drain_item (d : Did) (sid peerPkB64 : jstr) (item : PendingDecrypt) : prog bool :=
  bindR (call (envelopeOpenVerifiedWithSession sid (envelopeB64 item) peerPkB64)) (λ r,
    match r with
    | inl _ => ret true
    | inr text =>
        if startsWith RECEIPT_MARKER text then
          modify (process_receipt d (drop (length RECEIPT_MARKER) text));;
          store_do (removeMessage d (placeholderId item));;
          modify (upd_desynced (set_delete d));;
          await (persistSession d dir_recv sid);; ret false
        else
          store_do (replaceMessage d (placeholderId item) (received (meta item) d text));;
          modify (upd_desynced (set_delete d));;
          await (persistSession d dir_recv sid);;
          void (shipReadReceipt d (meta_sequence (meta item)) (meta_epoch (meta item)));;
          ret false
    end).

Fixpoint drain_loop (fuel : nat) (d : Did) (sid peerPkB64 : jstr) (buf i : nat)
    (remaining : list PendingDecrypt) : prog (list PendingDecrypt) :=
  match fuel with
  | O => throw out_of_fuel
  | S f =>
      entry ← gets (λ m, array_at buf m !! i);
      match entry with
      | None => ret remaining
      | Some item =>
          keep ← drain_item d sid peerPkB64 item;
          drain_loop f d sid peerPkB64 buf (S i) (if (keep : bool) then remaining ++ [item] else remaining)
      end
  end.

Definition finish_drain (d : Did) (remaining : list PendingDecrypt) (m : msgr) : msgr :=
  match remaining with
  | [] => upd_pending (heap m) (mdelete d (pendingDecryptByDid m)) m
  | _ => upd_pending (heap m ++ [remaining]) (mset d (length (heap m)) (pendingDecryptByDid m)) m
  end.

(** [recvSessionByDid.get(did) ?? (await tryRestoreSession(did, 'recv'))] *)
Definition recv_session (d : Did) : prog jstr :=
  cached ← gets (λ m, mget d (recvSessionByDid m));
  match cached with Some sid => ret sid | None => await (tryRestoreSession d dir_recv) end.

Definition dilithium_of (d : Did) (m : msgr) : jstr :=
  match getContact d (mstore m) with Some c => default [] (dilithium_pk c) | None => [] end.

Definition drainPendingDecrypt (d : Did) : prog unit :=
  buf ← gets (λ m, mget d (pendingDecryptByDid m));
  match buf with
  | None => ret tt
  | Some a =>
      len ← gets (λ m, length (array_at a m));
      if (len =? 0)%nat then ret tt
      else
        sid ← recv_session d;
        if negb (truthy sid) then ret tt
        else
          pkHex ← gets (dilithium_of d);
          if negb (truthy pkHex) then ret tt
          else
            pk ← or_throw (hexToBase64 pkHex);
            remaining ← drain_loop drain_fuel d sid pk a 0 [];
            modify (finish_drain d remaining)
  end.

(** ** Sending *)

Definition take_random : prog jstr :=
  modify_get (λ m, match rng m with r :: rs => (upd_rng rs m, r) | [] => (m, []) end).

Definition status_of (r : error + SendStatus) : MessageStatus :=
  match r with
  | inr st_delivered => delivered
  | inr st_queued => pending
  | inr st_relayed => sent
  | inl _ => failed
  end.

Definition sent_message (remoteDid : Did) (text rand : jstr) (info : SessionInfo) (st : MessageStatus)
    (m : msgr) : LocalMessage :=
  mkMessage (js "local-" ++ dec_str (clock m) ++ js "-" ++ rand) remoteDid dir_sent Text text (nowSec m)
    (info_epoch info) (Z.max 0 (counter info - 1)) st.

Definition sendTextMessageNative (remoteDid : Did) (text : jstr) : prog LocalMessage :=
  contact ← gets (λ m, getContact remoteDid (mstore m));
  sid ← await (getOrInitSendSession remoteDid (recipient_of contact remoteDid));
  localDid ← gets (λ m, getSelfDid (mstore m));
  wireHex ← call (sealTextSigned sid text localDid);
  sendStatus ← bindR (await (sendEnvelope wireHex)) (λ r, ret (status_of r));
  info ← call (getSessionInfo sid);
  await (persistSession remoteDid dir_send sid);;
  rand ← take_random;
  local ← gets (sent_message remoteDid text rand info sendStatus);
  store_do (appendMessage local);;
  ret local.

Definition set_status (d : Did) (i : jstr) (st : MessageStatus) (p : MessagePatch) : prog unit :=
  store_do (λ s, (updateMessageStatus d i st p s).1).

Definition resendMessage (d : Did) (messageId : jstr) : prog unit :=
  found ← gets (λ m, List.find (has_id messageId) (getMessages d (mstore m)));
  match found with
  | None => throw (Error (js "resend: message not found"))
  | Some msg =>
      if negb (bool_decide (direction msg = dir_sent)) then throw (Error (js "resend: not a sent message"))
      else if negb (bool_decide (content_type msg = Text)) then
        throw (Error (js "resend: only text messages can be resent"))
      else
        set_status d messageId pending no_patch;;
        contact ← gets (λ m, getContact d (mstore m));
        try_catch
          (sid ← await (getOrInitSendSession d (recipient_of contact d));
           localDid ← gets (λ m, getSelfDid (mstore m));
           wireHex ← call (sealTextSigned sid (body msg) localDid);
           nextStatus ← bindR (await (sendEnvelope wireHex)) (λ r,
             match r with
             | inr _ => ret (status_of r)
             | inl e => set_status d messageId failed no_patch;; throw e
             end);
           info ← call (getSessionInfo sid);
           await (persistSession d dir_send sid);;
           set_status d messageId nextStatus
             (mkPatch (Some (info_epoch info)) (Some (Z.max 0 (counter info - 1)))))
          (λ e, set_status d messageId failed no_patch;; throw e)
  end.

(** ** Receiving *)

(** the last character of the fallback name is the ellipsis U+2026, here the
    Latin-1 code unit 133 *)
Definition fallback_name (d : Did) : jstr := js "did:zhtp:" ++ slice 0 8 (strip_did d) ++ [chr 133].

Definition ensureContactCached (d : Did) : prog bool :=
  existing ← gets (λ m, getContact d (mstore m));
  pk ← gets (dilithium_of d);
  if truthy pk then ret true
  else
    try_catch
      (r ← await (sessionInitByDid d);
       store_do (upsertContact (mkContact (recipient_did r) (recipient_username r)
         (str_or (recipient_username r)
            (str_or (match existing with Some c => display_name c | None => [] end)
               (fallback_name (recipient_did r))))
         (Some (kyber_public_key r)) (Some (dilithium_public_key r))
         (match existing with Some c => online c | None => false end)
         (match existing with Some c => last_seen c | None => None end)));;
       ret true)
      (λ _, ret false).

Record ReceivedEnvelope := mkReceived { env_sender_did : Did; envelope_hex : jstr; deposited_at : Z }.

Fixpoint prepare (envelopes : list ReceivedEnvelope) : prog (list (jstr * EnvelopeMetadata)) :=
  match envelopes with
  | [] => ret []
  | raw :: rest =>
      bindR (call (envelopeFromHex (envelope_hex raw))) (λ r,
        match r with
        | inl _ => prepare rest
        | inr b64 =>
            bindR (call (envelopeDescribe b64)) (λ r,
              match r with
              | inl _ => prepare rest
              | inr mt => l ← prepare rest; ret ((b64, mt) :: l)
              end)
        end)
  end.

Definition isHandshake (ct : Z) : bool := (ct =? Tag_KeyExchange) || (ct =? Tag_KeyRatchet).
Definition handshake_rank (e : jstr * EnvelopeMetadata) : Z := if isHandshake (contentType e.2) then 0 else 1.
Definition handshake_cmp (a b : jstr * EnvelopeMetadata) : Z := handshake_rank a - handshake_rank b.

Definition handle_key_exchange (env : jstr) (mt : EnvelopeMetadata) : prog unit :=
  let sender := senderDid mt in
  await (ensureContactCached sender);;
  hadPriorInbound ← gets (λ m, mhas sender (recvSessionByDid m)
    || match getSerializedSession (sessionStoreKey sender dir_recv) (mstore m) with Some _ => true | None => false end);
  try_catch
    (me ← gets (λ m, getSelfDid (mstore m));
     sid ← call (acceptEnvelopeWithIdentity me sender env);
     modify (upd_recv (mset sender sid));;
     await (persistSession sender dir_recv sid);;
     void (drainPendingDecrypt sender);;
     void (completeHandshake sender hadPriorInbound))
    (λ _, ret tt).

(** [let sessionId = recvSessionByDid.get(d); if (!sessionId) sessionId = await tryRestoreSession(d, 'recv')] *)
Definition inbound_session (d : Did) : prog jstr :=
  cached ← gets (λ m, default [] (mget d (recvSessionByDid m)));
  if truthy cached then ret cached else await (tryRestoreSession d dir_recv).

Definition handle_key_ratchet (env : jstr) (mt : EnvelopeMetadata) : prog unit :=
  let sender := senderDid mt in
  sid ← inbound_session sender;
  if negb (truthy sid) then ret tt
  else
    try_catch
      (me ← gets (λ m, getSelfDid (mstore m));
       call (acceptRekeyEnvelopeWithIdentity sid env me);;
       await (persistSession sender dir_recv sid);;
       void (drainPendingDecrypt sender))
      (λ _, ret tt).

(** the peer's key, looked up once more when it is not cached *)
Definition peer_key (d : Did) : prog jstr :=
  pk ← gets (dilithium_of d);
  (if truthy pk then ret tt else await (ensureContactCached d);; ret tt);;
  gets (dilithium_of d).

Definition open_envelope (sid env pkHex : jstr) : prog jstr :=
  pk ← or_throw (hexToBase64 pkHex); call (envelopeOpenVerifiedWithSession sid env pk).

Definition handle_read_receipt (env : jstr) (mt : EnvelopeMetadata) : prog unit :=
  let sender := senderDid mt in
  sid ← inbound_session sender;
  if negb (truthy sid) then ret tt
  else
    pkHex ← peer_key sender;
    if negb (truthy pkHex) then ret tt
    else
      try_catch
        (bodyStr ← open_envelope sid env pkHex;
         await (persistSession sender dir_recv sid);;
         modify (process_receipt sender bodyStr))
        (λ _, ret tt).

(** what follows an envelope that cannot be opened *)
Definition undecryptable (env : jstr) (mt : EnvelopeMetadata) : prog unit :=
  let sender := senderDid mt in
  modify (upd_desynced (set_add sender));;
  i ← modify_get (appendUndecryptablePlaceholder mt);
  modify (bufferUndecryptable sender (mkPending env i mt));;
  void (recoverMissingSession sender).

Definition deliver (mt : EnvelopeMetadata) (sid text : jstr) : prog unit :=
  let sender := senderDid mt in
  modify (upd_desynced (set_delete sender));;
  if startsWith RECEIPT_MARKER text then
    await (persistSession sender dir_recv sid);;
    modify (process_receipt sender (drop (length RECEIPT_MARKER) text))
  else
    store_do (appendMessage (received mt sender text));;
    await (persistSession sender dir_recv sid);;
    void (shipReadReceipt sender (meta_sequence mt) (meta_epoch mt)).

Definition handle_text (env : jstr) (mt : EnvelopeMetadata) : prog unit :=
  let sender := senderDid mt in
  sid ← inbound_session sender;
  if negb (truthy sid) then undecryptable env mt
  else
    pkHex ← peer_key sender;
    if negb (truthy pkHex) then ret tt
    else
      bindR (call (getSessionInfo sid)) (λ r,
        match r with
        | inl _ => ret tt
        | inr _ =>
            bindR (open_envelope sid env pkHex) (λ r,
              match r with
              | inl _ => undecryptable env mt
              | inr text => deliver mt sid text
              end)
        end).

Definition handle_envelope (e : jstr * EnvelopeMetadata) : prog unit :=
  let ct := contentType e.2 in
  if ct =? Tag_KeyExchange then handle_key_exchange e.1 e.2
  else if ct =? Tag_KeyRatchet then handle_key_ratchet e.1 e.2
  else if ct =? Tag_ReadReceipt then handle_read_receipt e.1 e.2
  else if negb (ct =? Tag_Text) then ret tt
  else handle_text e.1 e.2.

Fixpoint handle_all (l : list (jstr * EnvelopeMetadata)) : prog unit :=
  match l with
  | [] => ret tt
  | e :: l => handle_envelope e;; handle_all l
  end.

Definition ingestEnvelopesNative (envelopes : list ReceivedEnvelope) : prog unit :=
  prepared ← prepare envelopes;
  handle_all (js_sort handshake_cmp prepared).

(** ** The service as a whole *)

Inductive event :=
| EvSend (d : Did) (text : jstr)
| EvResend (d : Did) (i : jstr)
| EvIngest (l : list ReceivedEnvelope)
| EvReconnect (d : Did)
| EvDelete (d : Did).

Definition handler (e : event) : prog jstr :=
  match e with
  | EvSend d t => sendTextMessageNative d t;; ret []
  | EvResend d i => resendMessage d i;; ret []
  | EvIngest l => ingestEnvelopesNative l;; ret []
  | EvReconnect d => reconnectSession d;; ret []
  | EvDelete d => modify (deleteConversation d);; ret []
  end.

(** What changes the state from outside the service: time, the randomness to
    come, and the operations of the screens and the authentication layer on the
    store. *)
Definition upd_clock (t : Z) m := mkMsgr t (rng m) (mstore m) (sendSessionByDid m)
  (recvSessionByDid m) (sendSessionInitInFlight m) (recoveryAttemptAt m) (desyncedDids m) (heap m) (pendingDecryptByDid m).

Inductive outside (stored : MessagingStateBlob → Prop) : msgr → msgr → Prop :=
| out_time m t : clock m ≤ t → outside stored m (upd_clock t m)
| out_random m r : outside stored m (upd_rng r m)
| out_mark_read m d : outside stored m (upd_store (markRead d) m)
| out_contact m c : outside stored m (upd_store (upsertContact c) m)
| out_self m d : outside stored m (upd_store (λ s, (setSelfDid d s).1) m)
| out_loaded m d b : (∀ x, b = Some x → stored x) → outside stored m (upd_store (on_loaded d b) m)
| out_timer m : outside stored m (upd_store (with_timer None) m).

(** the service when the app starts *)
Definition start (t : Z) : world msgr error req := mkWorld (mkMsgr t [] empty_store [] [] [] [] [] [] []) 0 [].
