(* ===== verification/MessagingSafety.v ===== *)
(** * Safety of the messaging service under every interleaving

    The invariant of Messaging.v and the specification of each of its tasks.
    The native bridge is only known through what its answers promise: session
    ids of a direction, their serialized blobs, sealed envelopes. *)

From stdpp Require Import strings.
From S2P Require Import Prelude JsString JsMap Json Codec MsgStore Async Messaging.

Section Safety.

(** ids of sessions we initiated and of sessions we accepted, their blobs, and
    the envelopes the bridge sealed *)
Context (SendSid RecvSid SendBlob RecvBlob Sealed : jstr → Prop).

Definition dir_sid (dir : SessionDir) : jstr → Prop :=
  match dir with dir_send => SendSid | dir_recv => RecvSid end.
Definition dir_blob (dir : SessionDir) : jstr → Prop :=
  match dir with dir_send => SendBlob | dir_recv => RecvBlob end.

(** What an answer of the bridge promises: a session is of the direction of the
    call that made it, serializing and restoring keep the direction, sealing
    yields a sealed envelope. *)
Definition bridge (R : Set) (c : req R) : R → Prop :=
  match c in req R return R → Prop with
  | serializeSession sid => λ b, ∀ dir, dir_sid dir sid → dir_blob dir b
  | deserializeSession b => λ sid, ∀ dir, dir_blob dir b → dir_sid dir sid
  | initiateSession _ _ _ => λ r, SendSid (initiated_id r)
  | acceptEnvelopeWithIdentity _ _ _ => RecvSid
  | sealKeyExchangeSigned _ _ _ => Sealed
  | sealTextSigned _ _ _ => Sealed
  | _ => λ _, True
  end.

(** What the service may ask for: texts are sealed on sessions we initiated,
    envelopes are opened and sessions re-keyed on sessions we accepted, and
    only sealed envelopes are posted. *)
Definition request_ok (R : Set) (c : req R) : Prop :=
  match c with
  | sealTextSigned sid _ _ => SendSid sid
  | envelopeOpenVerifiedWithSession sid _ _ => RecvSid sid
  | acceptRekeyEnvelopeWithIdentity sid _ _ => RecvSid sid
  | post_send hex => Sealed hex
  | _ => True
  end.

(** a [Promise<string>] of the service is a send session *)
Definition promise_ok (ty : ptype) (v : jstr) : Prop :=
  match ty with PString => SendSid v | PVoid => True end.

(** no request fails with the model's own error *)
Definition real_error (e : error) : Prop := e ≠ out_of_fuel.

(** a row of conversation [d]: received text never shows the receipt marker *)
Definition row_ok (d : Did) (x : LocalMessage) : Prop :=
  conversation_did x = d ∧
  (direction x = dir_received → content_type x = Text → startsWith RECEIPT_MARKER (body x) = false).

Definition sessions_ok (ss : jsmap Did jstr) : Prop :=
  mall (λ k b, ∀ d dir, k = sessionStoreKey d dir → dir_blob dir b) ss.
Definition messages_ok (ms : jsmap Did (list LocalMessage)) : Prop := mall (λ d l, Forall (row_ok d) l) ms.
Definition store_ok (s : store) : Prop :=
  sessions_ok (serializedSessionsByDid s) ∧ messages_ok (messagesByConversation s).

(** each peer's buffer is an array of its own *)
Definition addresses_ok (h : list (list PendingDecrypt)) (p : jsmap Did nat) : Prop :=
  (∀ d a, mget d p = Some a → (a < length h)%nat) ∧
  (∀ d d' a, mget d p = Some a → mget d' p = Some a → d = d').

Record inv (m : msgr) : Prop := mkInv {
  inv_send : mall (λ _ sid, SendSid sid) (sendSessionByDid m);
  inv_recv : mall (λ _ sid, RecvSid sid) (recvSessionByDid m);
  inv_inflight : mall (λ _ p, p.2 = PString) (sendSessionInitInFlight m);
  inv_heap : Forall (λ a, (length a ≤ PENDING_DECRYPT_LIMIT_PER_PEER)%nat) (heap m);
  inv_addresses : addresses_ok (heap m) (pendingDecryptByDid m);
  inv_store : store_ok (mstore m);
}.

Abbreviation Spec t P := (spec inv request_ok bridge promise_ok real_error t P).

(** ** The store *)

Lemma sessionStoreKey_inj d dir d' dir' :
  sessionStoreKey d dir = sessionStoreKey d' dir' → d = d' ∧ dir = dir'.
Proof.
  unfold sessionStoreKey. intros H. assert (dir = dir') as ->.
  { apply (f_equal (λ s, last s)) in H. destruct dir, dir'; try done;
      rewrite !last_app in H; vm_compute in H; discriminate. }
  split; [|done]. by apply app_inv_tail in H.
Qed.

Lemma contents_store_ok s s' : contents s' = contents s → store_ok s → store_ok s'.
Proof. unfold contents, store_ok. by intros [= _ _ -> _ ->]. Qed.

Lemma store_ok_notify s : store_ok s → store_ok (notify s).
Proof. apply contents_store_ok, contents_notify. Qed.

Lemma store_ok_upsert c s : store_ok s → store_ok (upsertContact c s).
Proof. intros H. by apply store_ok_notify. Qed.

Lemma row_ok_status d st p x : row_ok d x → row_ok d (with_status st p x).
Proof. done. Qed.

Lemma store_ok_set_messages d l s :
  store_ok s → Forall (row_ok d) l → store_ok (set_messages d l s).
Proof. intros [Hs Hm] Hl. apply store_ok_notify. split; [done|]. by apply mall_set. Qed.

Lemma store_ok_lookup d l s :
  store_ok s → mget d (messagesByConversation s) = Some l → Forall (row_ok d) l.
Proof. intros [_ H] E. by apply (H _ _ E). Qed.

Lemma store_ok_append x s : store_ok s → row_ok (conversation_did x) x → store_ok (appendMessage x s).
Proof.
  intros H Hx. unfold appendMessage. apply store_ok_notify.
  assert (Forall (row_ok (conversation_did x)) (getMessages (conversation_did x) s ++ [x])) as Hl.
  { apply Forall_app. split; [|by constructor; [|constructor]]. unfold getMessages.
    destruct (mget _ _) eqn:E; simpl; [by eapply store_ok_lookup|done]. }
  destruct H as [Hs Hm]. destruct (direction x); (split; [done|by apply mall_set]).
Qed.

Lemma store_ok_replace d i x s : store_ok s → row_ok d x → store_ok (replaceMessage d i x s).
Proof.
  intros H Hx. unfold replaceMessage. destruct (mget _ _) as [l|] eqn:E; [|done].
  destruct (find_index _ _); [|done]. pose proof (store_ok_lookup _ _ _ H E) as Hl.
  apply store_ok_set_messages; [done|]. rewrite !Forall_app.
  split; [by apply Forall_take|]. split; [by constructor; [|constructor]|by apply Forall_drop].
Qed.

Lemma store_ok_remove d i s : store_ok s → store_ok (removeMessage d i s).
Proof.
  intros H. unfold removeMessage. destruct (mget _ _) as [l|] eqn:E; [|done]. dmatch; [done|].
  apply store_ok_set_messages; [done|]. pose proof (store_ok_lookup _ _ _ H E) as Hl.
  rewrite list.Forall_forall in Hl |- *.
  intros x Hx%list_elem_of_In%filter_In. apply Hl, list_elem_of_In. tauto.
Qed.

Lemma store_ok_alter d f i l s :
  store_ok s → mget d (messagesByConversation s) = Some l →
  (∀ x, row_ok d x → row_ok d (f x)) → store_ok (set_messages d (alter f i l) s).
Proof.
  intros H E Hf. apply store_ok_set_messages; [done|]. apply Forall_alter; [by eapply store_ok_lookup|].
  intros x _ Hx. by apply Hf.
Qed.

Lemma store_ok_update d i st p s : store_ok s → store_ok (updateMessageStatus d i st p s).1.
Proof.
  intros H. unfold updateMessageStatus. destruct (mget _ _) as [l|] eqn:E; [|done].
  destruct (find_index _ _); [|done]. by apply store_ok_alter.
Qed.

Lemma store_ok_confirm d q e s : store_ok s → store_ok (confirmSentMessage d q e s).1.
Proof.
  intros H. unfold confirmSentMessage. destruct (mget _ _) as [l|] eqn:E; [|done].
  destruct (find_index _ _); [|done]. by apply store_ok_alter.
Qed.

Lemma store_ok_session d dir b s : store_ok s → dir_blob dir b → store_ok (setSerializedSession (sessionStoreKey d dir) b s).
Proof.
  intros [Hs Hm] Hb. apply store_ok_notify. split; [|done]. apply mall_set; [|done].
  intros d' dir' E. by apply sessionStoreKey_inj in E as [_ <-].
Qed.

Lemma store_ok_clear k s : store_ok s → store_ok (clearSerializedSession k s).
Proof.
  intros [Hs Hm]. unfold clearSerializedSession. destruct (mhas _ _); [|done].
  apply store_ok_notify. split; [|done]. by apply mall_delete.
Qed.

Lemma store_ok_delete d s : store_ok s → store_ok (MsgStore.deleteConversation d s).
Proof.
  intros [Hs Hm]. apply store_ok_notify. split; by apply mall_delete.
Qed.

(** ** Updates of the state that keep the invariant *)

Lemma inv_upd_store f m : (∀ s, store_ok s → store_ok (f s)) → inv m → inv (upd_store f m).
Proof. intros Hf []. constructor; simpl; auto. Qed.

Lemma inv_set_session dir d sid m : dir_sid dir sid → inv m → inv (set_session dir d sid m).
Proof. intros Hs []. destruct dir; constructor; simpl; auto; by apply mall_set. Qed.

Lemma inv_reset d m : inv m → inv (resetSendSession d m).
Proof.
  intros H. apply inv_upd_store; [intros; by apply store_ok_clear|].
  destruct H. constructor; simpl; auto. by apply mall_delete.
Qed.

Lemma inv_desynced f m : inv m → inv (upd_desynced f m).
Proof. by intros []. Qed.
Lemma inv_recovery f m : inv m → inv (upd_recovery f m).
Proof. by intros []. Qed.
Lemma inv_rng r m : inv m → inv (upd_rng r m).
Proof. by intros []. Qed.

Lemma inv_pending h p m :
  inv m → Forall (λ a, (length a ≤ PENDING_DECRYPT_LIMIT_PER_PEER)%nat) h → addresses_ok h p →
  inv (upd_pending h p m).
Proof. by intros [] ? ?. Qed.

Lemma addresses_delete d h p : addresses_ok h p → addresses_ok h (mdelete d p).
Proof.
  intros [H1 H2]. split.
  - intros d' a. rewrite mget_delete. destruct (decide _); [done|apply H1].
  - intros d1 d2 a. rewrite !mget_delete. repeat destruct (decide _); try done. apply H2.
Qed.

(** a fresh array appended to the heap *)
Lemma addresses_fresh d l h p : addresses_ok h p → addresses_ok (h ++ [l]) (mset d (length h) p).
Proof.
  intros [H1 H2]. split.
  - intros d' a. rewrite mget_set, length_app. simpl. destruct (decide _); [intros [= <-]; lia|].
    intros E%H1. lia.
  - intros d1 d2 a. rewrite !mget_set. repeat destruct (decide _); subst; try done.
    + intros [= <-] E%H1. lia.
    + intros E%H1 [= <-]. lia.
    + apply H2.
Qed.

Lemma array_at_length a m : inv m → (length (array_at a m) ≤ PENDING_DECRYPT_LIMIT_PER_PEER)%nat.
Proof.
  intros H. unfold array_at. destruct (heap m !! a) as [l|] eqn:E; simpl; [|lia].
  apply inv_heap in H. rewrite list.Forall_forall in H. by eapply H, list_elem_of_lookup_2.
Qed.

Lemma mset_same (d : Did) (a : nat) (p : jsmap Did nat) : mget d p = Some a → ∀ d', mget d' (mset d a p) = mget d' p.
Proof. intros E d'. rewrite mget_set. by destruct (decide (d' = d)) as [->|]. Qed.

(** the heap a buffered envelope is written to *)
Lemma array_of_ok d m a h :
  inv m → array_of d m = (a, h) →
  (a < length h)%nat ∧ Forall (λ a, (length a ≤ PENDING_DECRYPT_LIMIT_PER_PEER)%nat) h ∧
  addresses_ok h (mset d a (pendingDecryptByDid m)) ∧ default [] (h !! a) = buffer_of d m ∧
  (∀ d' a', d' ≠ d → mget d' (pendingDecryptByDid m) = Some a' → a' ≠ a ∧ h !! a' = heap m !! a').
Proof.
  intros H. pose proof (inv_heap _ H) as Hh. destruct (inv_addresses _ H) as [H1 H2].
  unfold array_of, buffer_of, array_at. destruct (mget d _) as [a0|] eqn:E; intros [= <- <-].
  - split; [by eapply H1|]. split; [done|]. split; [|split; [done|]].
    + split; intros d'; [intros a'|intros d'' a']; rewrite !(mset_same d a0) by done; eauto.
    + intros d' a' Hne E'. split; [|done]. intros ->. by apply Hne, (H2 _ _ a0).
  - split; [rewrite length_app; simpl; lia|]. split; [|split; [|split]].
    + apply Forall_app. split; [done|]. constructor; [simpl; lia|constructor].
    + by apply addresses_fresh.
    + rewrite lookup_app_r by lia. by rewrite Nat.sub_diag.
    + intros d' a' _ E'. pose proof (H1 _ _ E'). split; [lia|]. by rewrite lookup_app_l.
Qed.

Lemma inv_buffer d item m : inv m → inv (bufferUndecryptable d item m).
Proof.
  intros H. unfold bufferUndecryptable. destruct (array_of d m) as [a h] eqn:E.
  destruct (array_of_ok _ _ _ _ H E) as (Ha & Hh & Hp & _).
  dmatch; [done|]. apply inv_pending; [done| |].
  - apply Forall_insert; [done|]. destruct (_ <? _)%nat eqn:El; breflect; [|done].
    rewrite length_drop. lia.
  - destruct Hp as [H1 H2]. split; [|done]. intros d' a'. rewrite length_insert. apply H1.
Qed.

Lemma inv_finish d l m :
  inv m → (length l ≤ PENDING_DECRYPT_LIMIT_PER_PEER)%nat → inv (finish_drain d l m).
Proof.
  intros H Hl. pose proof (inv_heap _ H) as Hh. pose proof (inv_addresses _ H) as Ha.
  unfold finish_drain. destruct l; apply inv_pending; auto using addresses_delete, addresses_fresh.
  apply Forall_app. auto.
Qed.

Lemma row_ok_placeholder mt : row_ok (senderDid mt) (placeholder mt).
Proof. by split. Qed.

Lemma row_ok_received mt d text :
  startsWith RECEIPT_MARKER text = false → row_ok d (received mt d text).
Proof. by split. Qed.

Lemma inv_placeholder mt m : inv m → inv (appendUndecryptablePlaceholder mt m).1.
Proof.
  intros H. unfold appendUndecryptablePlaceholder. dmatch; [done|]. apply inv_upd_store; [|done].
  intros s Hs. apply store_ok_append; [done|]. apply row_ok_placeholder.
Qed.

Lemma inv_process d text m : inv m → inv (process_receipt d text m).
Proof.
  intros H. unfold process_receipt. destruct (parse_receipt text) as [[q e]|]; [|done].
  apply inv_upd_store; [|done]. intros s. apply store_ok_confirm.
Qed.

Lemma inv_delete d m : inv m → inv (deleteConversation d m).
Proof.
  intros H. unfold deleteConversation.
  repeat (apply inv_upd_store; [intros; auto using store_ok_clear, store_ok_delete|]).
  apply inv_pending; [|simpl; apply H|simpl; apply addresses_delete, H].
  apply inv_desynced, inv_recovery. destruct H. constructor; simpl; auto; by apply mall_delete.
Qed.

(** ** The specification of each task *)

Lemma spec_bind' {A B} (t : prog A) (f : A → prog B) P Q :
  Spec t P → (∀ a, P a → Spec (f a) Q) → Spec (mbind f t) Q.
Proof. apply spec_bind. Qed.

Lemma spec_gets_any {A} (f : msgr → A) : Spec (gets f) (λ _, True).
Proof. by apply spec_gets. Qed.

Lemma spec_store_do f : (∀ s, store_ok s → store_ok (f s)) → Spec (store_do f) (λ _, True).
Proof. intros H. apply spec_modify. intros m. by apply inv_upd_store. Qed.

Lemma spec_or_throw {A} (o : option A) : Spec (or_throw o) (λ _, True).
Proof. destruct o; [by apply spec_ret|by apply spec_throw]. Qed.

Lemma spec_any {A} (t : prog A) P : Spec t P → Spec t (λ _, True).
Proof. intros H. by eapply spec_weaken. Qed.

Lemma spec_void' (t : prog unit) : Spec t (λ _, True) → Spec (void t) (λ _, True).
Proof. by apply spec_void. Qed.

(** run the first task of a sequence, forgetting its result unless a
    specification tells more *)
Ltac seq_with H := eapply spec_bind'; [apply H|].
Ltac seq_get x := eapply spec_bind'; [apply spec_gets_any|intros x _].
Ltac seq_do := eapply spec_bind'; [apply spec_store_do; intros s Hs|intros [] _].

Lemma sessionInit_spec r : Spec (sessionInit r) (λ _, True).
Proof. unfold sessionInit. seq_get me. by apply spec_call. Qed.

Lemma sendEnvelope_spec hex : Sealed hex → Spec (sendEnvelope hex) (λ _, True).
Proof. intros H. by apply spec_call. Qed.

Lemma sessionInitByDid_spec d : Spec (sessionInitByDid d) (λ _, True).
Proof.
  unfold sessionInitByDid. eapply spec_bindR; [apply spec_await, sessionInit_spec|].
  intros [e|init] Hr; [|by apply spec_ret]. apply spec_if; intros _; [|by apply spec_throw].
  eapply spec_bind'; [by apply (spec_call _ _ _ _ _ _ (λ _, True))|]. intros [n|] _; [|by apply spec_throw].
  apply spec_if; intros _; [apply sessionInit_spec|by apply spec_throw].
Qed.

Lemma persistSession_spec d dir sid : dir_sid dir sid → Spec (persistSession d dir sid) (λ _, True).
Proof.
  intros H. unfold persistSession. apply spec_try_catch; [|intros; by apply spec_ret].
  eapply spec_bind'; [apply (spec_call _ _ _ _ _ _ (dir_blob dir)); [done|]|].
  - intros b Hb. by apply (Hb dir).
  - intros b Hb. apply spec_store_do. intros s Hs. by apply store_ok_session.
Qed.

(** A restored session is of the direction it is stored under. *)
Lemma tryRestoreSession_spec d dir :
  Spec (tryRestoreSession d dir) (λ sid, truthy sid = true → dir_sid dir sid).
Proof.
  unfold tryRestoreSession.
  eapply (spec_bind' _ _ (λ b, ∀ x, b = Some x → dir_blob dir x)).
  - apply spec_gets. intros m H x E. destruct (inv_store _ H) as [Hs _]. by apply (Hs _ _ E d dir).
  - intros [b|] Hb; [|by apply spec_ret]. apply spec_if; intros _; [|by apply spec_ret].
    apply spec_try_catch; [|intros; by apply spec_ret].
    eapply spec_bind'; [apply (spec_call _ _ _ _ _ _ (dir_sid dir)); [done|]|].
    + intros sid Hs. by apply (Hs dir), Hb.
    + intros sid Hs. eapply spec_bind'; [apply spec_modify; intros m; by apply inv_set_session|].
      intros _ _. by apply spec_ret.
Qed.

Lemma initSendSession_spec d r : Spec (initSendSession d r) SendSid.
Proof.
  unfold initSendSession.
  eapply spec_bind'; [apply spec_await, (tryRestoreSession_spec d dir_send)|]. intros restored Hr.
  destruct (truthy restored) eqn:Et; [by apply spec_ret, Hr|].
  eapply (spec_bind' _ _ (λ _, True)).
  { apply spec_await, spec_if; intros _; [apply sessionInitByDid_spec|apply sessionInit_spec]. }
  intros init _. seq_get existing. seq_do; [by apply store_ok_upsert|]. seq_get localDid.
  eapply spec_bind'; [apply spec_or_throw|intros pk _].
  eapply (spec_bind' _ _ (λ r, SendSid (initiated_id r))); [by apply spec_call|]. intros res Hres.
  eapply spec_bind'; [apply spec_modify; intros m; by apply (inv_set_session dir_send)|intros _ _].
  eapply (spec_bind' _ _ Sealed); [by apply spec_call|]. intros hex Hhex.
  eapply spec_bind'; [by apply spec_await, sendEnvelope_spec|intros _ _].
  eapply spec_bind'; [by apply spec_await, (persistSession_spec d dir_send)|intros _ _].
  by apply spec_ret.
Qed.

Lemma getOrInitSendSession_spec d r : Spec (getOrInitSendSession d r) SendSid.
Proof.
  unfold getOrInitSendSession.
  eapply (spec_bind' _ _ (λ sid, truthy sid = true → SendSid sid)).
  { apply spec_gets. intros m H. destruct (mget d (sendSessionByDid m)) eqn:E; simpl; [|done].
    intros _. by apply (inv_send _ H _ _ E). }
  intros cached Hc. destruct (truthy cached) eqn:Et; [by apply spec_ret, Hc|].
  eapply (spec_bind' _ _ (λ o, ∀ p, o = Some p → p.2 = PString)).
  { apply spec_gets. intros m H p E. by apply (inv_inflight _ H _ _ E). }
  assert (∀ p, p.2 = PString → Spec (join p) SendSid) as Hj.
  { intros p E. pose proof (spec_join inv request_ok bridge promise_ok real_error p) as Hj.
    rewrite E in Hj. exact Hj. }
  intros [p|] Hp; [by apply Hj, Hp|].
  eapply spec_bind'; [apply (spec_fork _ _ _ _ _ PString), initSendSession_spec|]. intros p Ep.
  eapply spec_bind'; [apply spec_modify|intros _ _].
  - intros m []. constructor; simpl; auto. by apply mall_set.
  - apply spec_try_finally; [by apply Hj|]. apply spec_modify.
    intros m []. constructor; simpl; auto. by apply mall_delete.
Qed.

Lemma recoverMissingSession_spec d : Spec (recoverMissingSession d) (λ _, True).
Proof.
  unfold recoverMissingSession. seq_get prev. seq_get now. apply spec_if; intros _; [by apply spec_ret|].
  eapply spec_bind'; [apply spec_modify; intros m; apply inv_recovery|intros _ _].
  apply spec_try_catch; [|intros; by apply spec_ret].
  eapply spec_bind'; [apply spec_modify; intros m; apply inv_reset|intros _ _].
  eapply spec_bind'; [apply spec_await, getOrInitSendSession_spec|intros _ _]. by apply spec_ret.
Qed.

Lemma completeHandshake_spec d b : Spec (completeHandshake d b) (λ _, True).
Proof.
  unfold completeHandshake. apply spec_if; intros _; [by apply spec_void', recoverMissingSession_spec|].
  seq_get has. apply spec_if; intros _; [by apply spec_ret|].
  eapply spec_bind'; [apply spec_await, tryRestoreSession_spec|intros restored _].
  apply spec_if; intros _; [by apply spec_ret|]. apply spec_try_catch; [|intros; by apply spec_ret].
  eapply spec_bind'; [apply spec_await, getOrInitSendSession_spec|intros _ _]. by apply spec_ret.
Qed.

Lemma reconnectSession_spec d : Spec (reconnectSession d) (λ _, True).
Proof.
  unfold reconnectSession. seq_get now.
  eapply spec_bind'; [apply spec_modify; intros m; apply inv_recovery|intros _ _].
  eapply spec_bind'; [apply spec_modify; intros m; apply inv_reset|intros _ _].
  eapply spec_bind'; [apply spec_await, getOrInitSendSession_spec|intros _ _]. by apply spec_ret.
Qed.

Lemma shipReadReceipt_spec d q e : Spec (shipReadReceipt d q e) (λ _, True).
Proof.
  unfold shipReadReceipt. apply spec_try_catch; [|intros; by apply spec_ret].
  eapply spec_bind'; [apply spec_await, getOrInitSendSession_spec|intros sid Hsid].
  seq_get localDid. eapply (spec_bind' _ _ Sealed); [by apply spec_call|intros hex Hhex].
  eapply spec_bind'; [by apply spec_await, sendEnvelope_spec|intros _ _].
  by apply spec_await, (persistSession_spec d dir_send).
Qed.

Lemma drain_item_spec d sid pk item :
  RecvSid sid → Spec (drain_item d sid pk item) (λ _, True).
Proof.
  intros Hsid. unfold drain_item.
  eapply (spec_bindR _ _ _ _ _ _ _ (λ _, True)); [by apply spec_call|].
  intros [e|text] _; [by apply spec_ret|]. destruct (startsWith RECEIPT_MARKER text) eqn:Et.
  - eapply spec_bind'; [apply spec_modify; intros m; apply inv_process|intros _ _].
    seq_do; [by apply store_ok_remove|].
    eapply spec_bind'; [apply spec_modify; intros m; apply inv_desynced|intros _ _].
    eapply spec_bind'; [by apply spec_await, (persistSession_spec d dir_recv)|intros _ _].
    by apply spec_ret.
  - seq_do; [by apply store_ok_replace, row_ok_received|].
    eapply spec_bind'; [apply spec_modify; intros m; apply inv_desynced|intros _ _].
    eapply spec_bind'; [by apply spec_await, (persistSession_spec d dir_recv)|intros _ _].
    eapply spec_bind'; [apply spec_void', shipReadReceipt_spec|intros _ _]. by apply spec_ret.
Qed.

(** The fuel of the loop is never exhausted: an index it reads is below the
    length of an array, which the limit bounds. *)
Lemma drain_loop_spec fuel d sid pk buf i remaining :
  RecvSid sid → (length remaining ≤ i)%nat → (i ≤ PENDING_DECRYPT_LIMIT_PER_PEER)%nat →
  (drain_fuel ≤ fuel + i)%nat →
  Spec (drain_loop fuel d sid pk buf i remaining) (λ l, (length l ≤ PENDING_DECRYPT_LIMIT_PER_PEER)%nat).
Proof.
  intros Hsid. revert i remaining. induction fuel as [|f IH]; intros i remaining Hr Hi Hf.
  { unfold drain_fuel in Hf. lia. }
  cbn [drain_loop].
  eapply (spec_bind' _ _ (λ o, ∀ x, o = Some x → (i < PENDING_DECRYPT_LIMIT_PER_PEER)%nat)).
  { apply spec_gets. intros m H x E%lookup_lt_Some. pose proof (array_at_length buf m H). lia. }
  intros [item|] Hx; [|apply spec_ret; lia]. specialize (Hx item eq_refl).
  eapply spec_bind'; [by apply drain_item_spec|]. intros keep _.
  apply IH; [|lia|lia]. destruct keep; rewrite ?length_app; simpl; lia.
Qed.

Lemma recv_session_spec d : Spec (recv_session d) (λ sid, truthy sid = true → RecvSid sid).
Proof.
  unfold recv_session. eapply (spec_bind' _ _ (λ o, ∀ sid, o = Some sid → RecvSid sid)).
  { apply spec_gets. intros m H sid E. by apply (inv_recv _ H _ _ E). }
  intros [sid|] H; [apply spec_ret; auto|]. apply spec_await, (tryRestoreSession_spec d dir_recv).
Qed.

Lemma drainPendingDecrypt_spec d : Spec (drainPendingDecrypt d) (λ _, True).
Proof.
  unfold drainPendingDecrypt. seq_get buf. destruct buf as [a|]; [|by apply spec_ret].
  seq_get len. apply spec_if; intros _; [by apply spec_ret|].
  eapply spec_bind'; [apply recv_session_spec|intros sid Hsid].
  destruct (truthy sid) eqn:Et; [|by apply spec_ret]. specialize (Hsid Et). cbn [negb].
  seq_get pkHex. apply spec_if; intros _; [by apply spec_ret|].
  eapply spec_bind'; [apply spec_or_throw|intros pk _].
  eapply spec_bind'; [apply (drain_loop_spec drain_fuel d sid pk a 0 []); [done|apply Nat.le_refl|apply Nat.le_0_l|rewrite Nat.add_0_r; apply Nat.le_refl]|].
  intros l Hl. apply spec_modify. intros m H. by apply inv_finish.
Qed.

Lemma take_random_spec : Spec take_random (λ _, True).
Proof.
  apply spec_modify_get. intros m H. split; [|done]. destruct (rng m); [done|by apply inv_rng].
Qed.

Lemma sendTextMessageNative_spec d text : Spec (sendTextMessageNative d text) (λ _, True).
Proof.
  unfold sendTextMessageNative. seq_get peer.
  eapply spec_bind'; [apply spec_await, getOrInitSendSession_spec|intros sid Hsid].
  seq_get me. eapply (spec_bind' _ _ Sealed); [by apply spec_call|intros hex Hhex].
  eapply (spec_bind' _ _ (λ _, True)).
  { eapply spec_bindR; [by apply spec_await, sendEnvelope_spec|]. intros r _. by apply spec_ret. }
  intros st _. eapply spec_bind'; [by apply (spec_call _ _ _ _ _ _ (λ _, True))|intros info _].
  eapply spec_bind'; [by apply spec_await, (persistSession_spec d dir_send)|intros _ _].
  eapply spec_bind'; [apply take_random_spec|intros rand _].
  eapply (spec_bind' _ _ (λ x, row_ok (conversation_did x) x)).
  { apply spec_gets. intros m _. by split. }
  intros x Hx. seq_do; [by apply store_ok_append|]. by apply spec_ret.
Qed.

Lemma set_status_spec d i st p : Spec (set_status d i st p) (λ _, True).
Proof. apply spec_store_do. intros s. apply store_ok_update. Qed.

Lemma resendMessage_spec d i : Spec (resendMessage d i) (λ _, True).
Proof.
  unfold resendMessage. seq_get found. destruct found as [msg|]; [|by apply spec_throw].
  do 2 (apply spec_if; intros _; [by apply spec_throw|]).
  eapply spec_bind'; [apply set_status_spec|intros _ _]. seq_get peer.
  apply spec_try_catch.
  - eapply spec_bind'; [apply spec_await, getOrInitSendSession_spec|intros sid Hsid].
    seq_get me. eapply (spec_bind' _ _ Sealed); [by apply spec_call|intros hex Hhex].
    eapply (spec_bind' _ _ (λ _, True)).
    { eapply spec_bindR; [by apply spec_await, sendEnvelope_spec|].
      intros [e|r] Hr; [|by apply spec_ret].
      eapply spec_bind'; [apply set_status_spec|intros _ _]. by apply spec_throw. }
    intros st _. eapply spec_bind'; [by apply (spec_call _ _ _ _ _ _ (λ _, True))|intros info _].
    eapply spec_bind'; [by apply spec_await, (persistSession_spec d dir_send)|intros _ _].
    apply set_status_spec.
  - intros e He. eapply spec_bind'; [apply set_status_spec|intros _ _]. by apply spec_throw.
Qed.

Lemma ensureContactCached_spec d : Spec (ensureContactCached d) (λ _, True).
Proof.
  unfold ensureContactCached. seq_get existing. seq_get pk. apply spec_if; intros _; [by apply spec_ret|].
  apply spec_try_catch; [|intros; by apply spec_ret].
  eapply spec_bind'; [apply spec_await, sessionInitByDid_spec|intros r _].
  seq_do; [by apply store_ok_upsert|]. by apply spec_ret.
Qed.

Lemma prepare_spec l : Spec (prepare l) (λ _, True).
Proof.
  induction l as [|raw l IH]; cbn [prepare]; [by apply spec_ret|].
  eapply (spec_bindR _ _ _ _ _ _ _ (λ _, True)); [by apply spec_call|]. intros [e|b64] _; [done|].
  eapply (spec_bindR _ _ _ _ _ _ _ (λ _, True)); [by apply spec_call|]. intros [e|mt] _; [done|].
  eapply spec_bind'; [exact IH|intros l' _]. by apply spec_ret.
Qed.

Lemma inbound_session_spec d : Spec (inbound_session d) (λ sid, truthy sid = true → RecvSid sid).
Proof.
  unfold inbound_session. eapply (spec_bind' _ _ (λ sid, truthy sid = true → RecvSid sid)).
  { apply spec_gets. intros m H. destruct (mget d (recvSessionByDid m)) eqn:E; simpl; [|done].
    intros _. by apply (inv_recv _ H _ _ E). }
  intros sid H. destruct (truthy sid) eqn:E; [apply spec_ret; auto|].
  apply spec_await, (tryRestoreSession_spec d dir_recv).
Qed.

Lemma handle_key_exchange_spec env mt : Spec (handle_key_exchange env mt) (λ _, True).
Proof.
  unfold handle_key_exchange. eapply spec_bind'; [apply spec_await, ensureContactCached_spec|intros _ _].
  seq_get had. apply spec_try_catch; [|intros; by apply spec_ret]. seq_get me.
  eapply (spec_bind' _ _ RecvSid); [by apply spec_call|intros sid Hsid].
  eapply spec_bind'; [apply spec_modify; intros m; by apply (inv_set_session dir_recv)|intros _ _].
  eapply spec_bind'; [by apply spec_await, (persistSession_spec _ dir_recv)|intros _ _].
  eapply spec_bind'; [apply spec_void', drainPendingDecrypt_spec|intros _ _].
  apply spec_void', completeHandshake_spec.
Qed.

Lemma handle_key_ratchet_spec env mt : Spec (handle_key_ratchet env mt) (λ _, True).
Proof.
  unfold handle_key_ratchet. eapply spec_bind'; [apply inbound_session_spec|intros sid Hsid].
  destruct (truthy sid) eqn:Et; [|by apply spec_ret]. specialize (Hsid Et). cbn [negb].
  apply spec_try_catch; [|intros; by apply spec_ret]. seq_get me.
  eapply (spec_bind' _ _ (λ _, True)); [by apply spec_call|intros _ _].
  eapply spec_bind'; [by apply spec_await, (persistSession_spec _ dir_recv)|intros _ _].
  apply spec_void', drainPendingDecrypt_spec.
Qed.

Lemma peer_key_spec d : Spec (peer_key d) (λ _, True).
Proof.
  unfold peer_key. seq_get pk. eapply (spec_bind' _ _ (λ _, True)); [|intros _ _; apply spec_gets_any].
  apply spec_if; intros _; [by apply spec_ret|].
  eapply spec_bind'; [apply spec_await, ensureContactCached_spec|intros _ _]. by apply spec_ret.
Qed.

Lemma open_envelope_spec sid env pk : RecvSid sid → Spec (open_envelope sid env pk) (λ _, True).
Proof.
  intros H. unfold open_envelope. eapply spec_bind'; [apply spec_or_throw|intros k _]. by apply spec_call.
Qed.

Lemma handle_read_receipt_spec env mt : Spec (handle_read_receipt env mt) (λ _, True).
Proof.
  unfold handle_read_receipt. eapply spec_bind'; [apply inbound_session_spec|intros sid Hsid].
  destruct (truthy sid) eqn:Et; [|by apply spec_ret]. specialize (Hsid Et). cbn [negb].
  eapply spec_bind'; [apply peer_key_spec|intros pk _]. apply spec_if; intros _; [by apply spec_ret|].
  apply spec_try_catch; [|intros; by apply spec_ret].
  eapply spec_bind'; [by apply open_envelope_spec|intros text _].
  eapply spec_bind'; [by apply spec_await, (persistSession_spec _ dir_recv)|intros _ _].
  apply spec_modify. intros m. apply inv_process.
Qed.

Lemma undecryptable_spec env mt : Spec (undecryptable env mt) (λ _, True).
Proof.
  unfold undecryptable. eapply spec_bind'; [apply spec_modify; intros m; apply inv_desynced|intros _ _].
  eapply (spec_bind' _ _ (λ _, True)).
  { apply spec_modify_get. intros m H. split; [by apply inv_placeholder|done]. }
  intros i _. eapply spec_bind'; [apply spec_modify; intros m; apply inv_buffer|intros _ _].
  apply spec_void', recoverMissingSession_spec.
Qed.

Lemma deliver_spec mt sid text : RecvSid sid → Spec (deliver mt sid text) (λ _, True).
Proof.
  intros Hsid. unfold deliver.
  eapply spec_bind'; [apply spec_modify; intros m; apply inv_desynced|intros _ _].
  destruct (startsWith RECEIPT_MARKER text) eqn:Et.
  - eapply spec_bind'; [by apply spec_await, (persistSession_spec _ dir_recv)|intros _ _].
    apply spec_modify. intros m. apply inv_process.
  - seq_do; [by apply store_ok_append; [done|]; apply row_ok_received|].
    eapply spec_bind'; [by apply spec_await, (persistSession_spec _ dir_recv)|intros _ _].
    apply spec_void', shipReadReceipt_spec.
Qed.

Lemma handle_text_spec env mt : Spec (handle_text env mt) (λ _, True).
Proof.
  unfold handle_text. eapply spec_bind'; [apply inbound_session_spec|intros sid Hsid].
  destruct (truthy sid) eqn:Et; cbn [negb]; [|apply undecryptable_spec]. specialize (Hsid Et).
  eapply spec_bind'; [apply peer_key_spec|intros pk _]. apply spec_if; intros _; [by apply spec_ret|].
  eapply (spec_bindR _ _ _ _ _ _ _ (λ _, True)); [by apply spec_call|].
  intros [e|info] _; [by apply spec_ret|].
  eapply spec_bindR; [by apply open_envelope_spec|]. intros [e|text] _; [apply undecryptable_spec|].
  by apply deliver_spec.
Qed.

Lemma handle_envelope_spec e : Spec (handle_envelope e) (λ _, True).
Proof.
  unfold handle_envelope. repeat (apply spec_if; intros _);
    [apply handle_key_exchange_spec|apply handle_key_ratchet_spec|apply handle_read_receipt_spec
    |by apply spec_ret|apply handle_text_spec].
Qed.

Lemma handle_all_spec l : Spec (handle_all l) (λ _, True).
Proof.
  induction l as [|e l IH]; cbn [handle_all]; [by apply spec_ret|].
  eapply spec_bind'; [apply handle_envelope_spec|intros _ _]. exact IH.
Qed.

Lemma handler_spec e : Spec (handler e) (promise_ok PVoid).
Proof.
  destruct e; cbn [handler]; (eapply (spec_bind' _ _ (λ _, True)); [|intros ? _; by apply spec_ret]).
  - apply sendTextMessageNative_spec.
  - apply resendMessage_spec.
  - unfold ingestEnvelopesNative. eapply spec_bind'; [apply prepare_spec|intros p _]. apply handle_all_spec.
  - apply reconnectSession_spec.
  - apply spec_modify. intros m. apply inv_delete.
Qed.

(** ** Reachable worlds *)

(** A stored state is one that the service wrote: blobs under the key of their
    direction, rows in their conversation, no receipt shown as text. *)
Definition stored_ok (b : MessagingStateBlob) : Prop :=
  (∀ ss k x d dir, sessions b = Some ss → (k, Some x) ∈ ss → k = sessionStoreKey d dir → dir_blob dir x) ∧
  (∀ d l, (d, Some l) ∈ messages b → Forall (row_ok d) l).

Lemma store_ok_hydrate b s : stored_ok b → store_ok s → store_ok (hydrateFromBlob b s).
Proof.
  intros [Hb1 Hb2] [Hs Hm].
  assert (messages_ok (keep_some (λ _, true) (messages b) (messagesByConversation s))) as Hm'.
  { apply mall_keep_some; [done|]. intros d l Hin _. by apply Hb2. }
  unfold hydrateFromBlob. destruct (sessions b) as [ss|] eqn:E; (split; [|exact Hm']); simpl; [|done].
  apply mall_keep_some; [done|]. intros k x Hin _ d dir Hk. by eapply Hb1.
Qed.

Lemma outside_inv m m' : outside stored_ok m m' → inv m → inv m'.
Proof.
  intros H Hi. destruct H as [m t Ht|m r|m d|m c|m d|m d b Hb|m]; try by destruct Hi.
  - apply inv_upd_store; [|done]. intros s Hs. unfold markRead. dmatch; [done|]. by apply store_ok_notify.
  - apply inv_upd_store; [|done]. apply store_ok_upsert.
  - apply inv_upd_store; [|done]. intros s Hs. unfold setSelfDid. destruct (decide _); [done|]. simpl.
    apply store_ok_notify. split; apply mall_nil.
  - apply inv_upd_store; [|done]. intros s Hs. unfold on_loaded. destruct (decide _); [|done].
    destruct b as [b|]; [|done]. apply (contents_store_ok (notify (hydrateFromBlob b s))); [done|].
    by apply store_ok_notify, store_ok_hydrate, Hs; apply Hb.
Qed.

Definition service_step := step handler (outside stored_ok) (answer bridge real_error).

Lemma service_reachable t w :
  rtc service_step (start t) w →
  inv (ws w) ∧
  (∀ p R (c : req R) k, (p, OnCall c k) ∈ wthreads w → request_ok R c) ∧
  (∀ p r, (p, Done r) ∈ wthreads w → settled promise_ok real_error p.2 r).
Proof.
  intros H. eapply (spec_reachable _ _ _ _ _ handler (outside stored_ok) (start t) w);
    [apply handler_spec|apply outside_inv| |reflexivity|exact H].
  constructor; simpl; try apply mall_nil; [constructor| |split; apply mall_nil]. by split.
Qed.

(** C1: nothing but sealed envelopes leaves the device: in every interleaving of
    sends, resends, receipts, handshakes and recoveries, whatever the server,
    the network and the stored state do, each envelope posted to the node is
    one the native bridge sealed. *)
Theorem only_sealed_envelopes_leave t w p hex k :
  rtc service_step (start t) w → (p, OnCall (post_send hex) k) ∈ wthreads w → Sealed hex.
Proof. intros (_ & H & _)%service_reachable Hin. exact (H _ _ _ _ Hin). Qed.

(** C2: the two ratchets of a peer are never mixed: texts and receipts are only
    sealed on sessions this device initiated, envelopes are only opened and
    rekeyed on sessions it accepted, and the two session maps and the stored
    blobs only hold sessions of their direction. *)
Theorem directions_separated t w :
  rtc service_step (start t) w →
  (∀ p sid text me k, (p, OnCall (sealTextSigned sid text me) k) ∈ wthreads w → SendSid sid) ∧
  (∀ p sid env pk k, (p, OnCall (envelopeOpenVerifiedWithSession sid env pk) k) ∈ wthreads w → RecvSid sid) ∧
  (∀ p sid env me k, (p, OnCall (acceptRekeyEnvelopeWithIdentity sid env me) k) ∈ wthreads w → RecvSid sid) ∧
  (∀ d sid, mget d (sendSessionByDid (ws w)) = Some sid → SendSid sid) ∧
  (∀ d sid, mget d (recvSessionByDid (ws w)) = Some sid → RecvSid sid) ∧
  (∀ d b, getSerializedSession (sessionStoreKey d dir_send) (mstore (ws w)) = Some b → SendBlob b) ∧
  (∀ d b, getSerializedSession (sessionStoreKey d dir_recv) (mstore (ws w)) = Some b → RecvBlob b).
Proof.
  intros (Hi & H & _)%service_reachable. destruct Hi as [Hs Hr _ _ _ [Hb _]]. repeat split.
  - intros p sid text me k Hin. exact (H _ _ _ _ Hin).
  - intros p sid env pk k Hin. exact (H _ _ _ _ Hin).
  - intros p sid env me k Hin. exact (H _ _ _ _ Hin).
  - intros d sid E. exact (Hs _ _ E).
  - intros d sid E. exact (Hr _ _ E).
  - intros d b E. exact (Hb _ _ E d dir_send eq_refl).
  - intros d b E. exact (Hb _ _ E d dir_recv eq_refl).
Qed.

(** C4: the pending-decrypt buffers stay within 64 entries a peer although they
    are iterated while envelopes are added and shifted out, and every drain
    ends: no section ever reaches the end of the loop's fuel. *)
Theorem buffers_bounded t w :
  rtc service_step (start t) w →
  (∀ d a, mget d (pendingDecryptByDid (ws w)) = Some a →
    (length (array_at a (ws w)) ≤ PENDING_DECRYPT_LIMIT_PER_PEER)%nat) ∧
  (∀ p e, (p, Done (inl e)) ∈ wthreads w → e ≠ out_of_fuel).
Proof.
  intros (Hi & _ & Hd)%service_reachable. split.
  - intros d a _. by apply array_at_length.
  - intros p e Hin. exact (Hd _ _ Hin).
Qed.

(** C3: a conversation only holds rows of its peer, and no read receipt is ever
    shown as a chat message: no received text row starts with the receipt
    marker, whether it was decrypted on arrival or recovered from the buffer. *)
Theorem receipts_never_shown t w d x :
  rtc service_step (start t) w → x ∈ getMessages d (mstore (ws w)) →
  conversation_did x = d ∧
  (direction x = dir_received → content_type x = Text → startsWith RECEIPT_MARKER (body x) = false).
Proof.
  intros (Hi & _)%service_reachable Hin. destruct (inv_store _ Hi) as [_ Hm].
  unfold getMessages in Hin. destruct (mget d _) as [l|] eqn:E; [|by apply elem_of_nil in Hin].
  pose proof (Hm _ _ E) as Hl. rewrite list.Forall_forall in Hl. by apply Hl.
Qed.

(** A buffered envelope is deduplicated and the newest 64 are kept: an
    envelope that is already waiting changes nothing, otherwise it joins the end
    of its peer's buffer and the oldest entries beyond 64 fall off; the buffers
    of all other peers stay. *)
Fact buffer_keeps_newest t w d item :
  rtc service_step (start t) w →
  let m := ws w in
  let waiting := existsb (λ p, bool_decide (placeholderId p = placeholderId item)) (buffer_of d m) in
  buffer_of d (bufferUndecryptable d item m)
    = (if waiting then buffer_of d m
       else last_n PENDING_DECRYPT_LIMIT_PER_PEER (buffer_of d m ++ [item])) ∧
  (∀ d', d' ≠ d → buffer_of d' (bufferUndecryptable d item m) = buffer_of d' m).
Proof.
  intros (Hi & _)%service_reachable. cbv zeta. generalize dependent (ws w). intros m Hi.
  unfold bufferUndecryptable.
  destruct (array_of d m) as [a h] eqn:E.
  destruct (array_of_ok _ _ _ _ Hi E) as (Ha & _ & _ & Hb & Ho). rewrite Hb.
  destruct (existsb _ (buffer_of d m)); [done|]. set (buf := buffer_of d m ++ [item]). split.
  - unfold buffer_of, array_at. simpl. rewrite mget_set_eq, list_lookup_insert_eq by done. simpl.
    unfold last_n. destruct (_ <? length buf)%nat eqn:El; breflect; [done|].
    by replace (length buf - PENDING_DECRYPT_LIMIT_PER_PEER)%nat with 0%nat by lia.
  - intros d' Hne. unfold buffer_of at 1, array_at at 1. simpl.
    rewrite mget_set_ne by done. unfold buffer_of. destruct (mget d' _) as [a'|] eqn:E'; [|done].
    destruct (Ho d' a' Hne E') as [Hne' Hl]. unfold array_at. simpl.
    by rewrite list_lookup_insert_ne, Hl.
Qed.

End Safety.

(** ** A run of the service *)

(** A bridge that tags what it makes: session ids of the two directions, blobs
    that carry their id, sealed envelopes. *)
Definition tag_ok (tag s : jstr) : Prop := startsWith tag s = true.

Definition demo_answer (R : Set) (c : req R) : error + R :=
  match c in req R return error + R with
  | serializeSession sid => inr sid
  | deserializeSession b => inr b
  | initiateSession _ _ _ => inr (mkInitiated (js "snd:1") (js "kyber-ct"))
  | sealKeyExchangeSigned _ _ _ => inr (js "sealed:kx")
  | sealTextSigned _ text _ => inr (js "sealed:" ++ text)
  | getSessionInfo _ => inr (mkInfo 1 0 [])
  | envelopeFromHex hex => inr hex
  | envelopeDescribe env =>
      inr (mkMeta bob 1700000000 0 (if startsWith (js "kx") env then 0 else 1)
             (if startsWith (js "kx") env then Tag_KeyExchange else Tag_Text))
  | acceptEnvelopeWithIdentity _ _ _ => inr (js "rcv:1")
  | acceptRekeyEnvelopeWithIdentity _ _ _ => inr tt
  | envelopeOpenVerifiedWithSession _ env _ => inr (js "hello")
  | post_session_init _ r => inr (mkInit bob (js "bob") (js "00") (js "11"))
  | post_send _ => inr st_delivered
  | fetchIdentityRecord _ => inr (Some (js "bob"))
  end.

Lemma demo_answer_ok R (c : req R) :
  answer (bridge (tag_ok (js "snd:")) (tag_ok (js "rcv:")) (tag_ok (js "snd:")) (tag_ok (js "rcv:"))
    (tag_ok (js "sealed:"))) real_error R c (demo_answer R c).
Proof.
  destruct c; try exact I; try (vm_compute; reflexivity).
  - by intros [].
  - by intros [].
Qed.

Definition demo_step := service_step (tag_ok (js "snd:")) (tag_ok (js "rcv:")) (tag_ok (js "snd:"))
  (tag_ok (js "rcv:")) (tag_ok (js "sealed:")).

(** resume the pending sections of the given numbers, in order *)
Definition play (l : list nat) (w : world msgr error req) : world msgr error req :=
  fold_left (λ w i, resume demo_answer i w) l w.

Lemma play_steps l w : rtc demo_step w (play l w).
Proof.
  revert w. induction l as [|i l IH]; intros w; [apply rtc_refl|]. simpl.
  etransitivity; [|apply IH]. apply resume_steps, demo_answer_ok.
Qed.

Definition demo_send : world msgr error req := launch (handler (EvSend bob (js "hi"))) (start 100000).
Definition demo_ingest (l : list jstr) : world msgr error req :=
  launch (handler (EvIngest (map (λ h, mkReceived bob h 0) l))) (start 100000).

Lemma demo_send_steps l : rtc demo_step (start 100000) (play l demo_send).
Proof. etransitivity; [|apply play_steps]. apply launch_step. Qed.
Lemma demo_ingest_steps l order : rtc demo_step (start 100000) (play order (demo_ingest l)).
Proof. etransitivity; [|apply play_steps]. apply launch_step. Qed.

Lemma only_sealed_envelopes_leave_witness :
  tag_ok (js "sealed:") (js "sealed:kx").
Proof.
  eapply (only_sealed_envelopes_leave _ _ _ _ _ 100000 (play (replicate 6 1%nat) demo_send)).
  - apply demo_send_steps.
  - apply list_elem_of_lookup_2 with 1%nat. vm_compute. reflexivity.
Defined.

Lemma directions_separated_witness :
  tag_ok (js "snd:") (js "snd:1").
Proof.
  eapply (proj1 (directions_separated (tag_ok (js "snd:")) (tag_ok (js "rcv:")) (tag_ok (js "snd:"))
    (tag_ok (js "rcv:")) (tag_ok (js "sealed:")) 100000
    (play (replicate 10 1%nat ++ [0; 0]%nat) demo_send) (demo_send_steps _))).
  apply list_elem_of_lookup_2 with 0%nat. vm_compute. reflexivity.
Defined.

Lemma buffers_bounded_witness :
  let w := play [0; 0; 0]%nat (demo_ingest [js "text1"]) in
  mget bob (pendingDecryptByDid (ws w)) = Some 0%nat ∧
  (length (array_at 0 (ws w)) ≤ PENDING_DECRYPT_LIMIT_PER_PEER)%nat.
Proof.
  intros w. split; [vm_compute; reflexivity|].
  apply (proj1 (buffers_bounded (tag_ok (js "snd:")) (tag_ok (js "rcv:")) (tag_ok (js "snd:"))
    (tag_ok (js "rcv:")) (tag_ok (js "sealed:")) 100000 w (demo_ingest_steps _ _)) bob 0%nat).
  vm_compute. reflexivity.
Defined.

Lemma receipts_never_shown_witness :
  let w := play (replicate 13 0%nat) (demo_ingest [js "text1"; js "kx"]) in
  let row := received (mkMeta bob 1700000000 0 1 Tag_Text) bob (js "hello") in
  row ∈ getMessages bob (mstore (ws w)) ∧ conversation_did row = bob.
Proof.
  intros w row. assert (row ∈ getMessages bob (mstore (ws w))) as Hin.
  { apply list_elem_of_lookup_2 with 0%nat. vm_compute. reflexivity. }
  split; [exact Hin|].
  exact (proj1 (receipts_never_shown (tag_ok (js "snd:")) (tag_ok (js "rcv:")) (tag_ok (js "snd:"))
    (tag_ok (js "rcv:")) (tag_ok (js "sealed:")) 100000 w bob row (demo_ingest_steps _ _) Hin)).
Defined.

(** ** Two restores of one send session *)

Definition demo_blob : MessagingStateBlob :=
  mkBlob [mkContact bob (js "bob") (js "Bob") None (Some (js "11")) true None] [] []
    (Some [(sessionStoreKey bob dir_send, Some (js "snd:blob"))]).

(** the app starts signed in, its stored state loaded *)
Definition restarted : world msgr error req :=
  mkWorld (upd_store (on_loaded alice (Some demo_blob))
    (upd_store (λ s, (setSelfDid (Some alice) s).1) (ws (start 100000)))) 0 [].

Lemma demo_blob_ok : stored_ok (tag_ok (js "snd:")) (tag_ok (js "rcv:")) demo_blob.
Proof.
  split; [|intros d l Hin; by apply elem_of_nil in Hin].
  intros ss k x d dir [= <-] Hin E. apply list_elem_of_singleton in Hin as [= -> ->].
  apply sessionStoreKey_inj in E as [_ <-]. vm_compute. reflexivity.
Qed.

Lemma restarted_steps : rtc demo_step (start 100000) restarted.
Proof.
  eapply rtc_l; [apply step_env, (out_self _ _ (Some alice))|].
  eapply rtc_l; [|apply rtc_refl]. apply step_env, out_loaded. intros b [= <-]. apply demo_blob_ok.
Qed.

(** the blob that the pending section number [i] is restoring *)
Definition restore_request (R : Set) (c : req R) : option jstr :=
  match c with deserializeSession b => Some b | _ => None end.
Definition restoring (w : world msgr error req) (i : nat) : option jstr :=
  match nth_error (wthreads w) i with
  | Some (_, @OnCall _ _ _ _ R c _) => restore_request R c
  | _ => None
  end.

(** The single flight of a handshake does not cover the restore that
    [completeHandshake] runs by itself: a peer's handshake accepted right after
    a cold start while the user sends a message has two native send sessions
    restored from one stored blob, so the same ratchet position is used twice. *)
Fact send_session_restored_twice :
  ∃ w i j, rtc demo_step (start 100000) w ∧ i ≠ j ∧
    restoring w i = Some (js "snd:blob") ∧ restoring w j = Some (js "snd:blob").
Proof.
  pose (w1 := launch (handler (EvIngest [mkReceived bob (js "kx") 0])) restarted).
  pose (w2 := play [0; 0; 0; 0; 0; 0]%nat w1).
  pose (w3 := launch (handler (EvSend bob (js "hi"))) w2).
  assert (rtc demo_step (start 100000) w3) as Hr.
  { transitivity restarted; [apply restarted_steps|].
    transitivity w1; [exact (launch_step handler _ _ (EvIngest [mkReceived bob (js "kx") 0]) restarted)|].
    transitivity w2; [exact (play_steps _ w1)|].
    exact (launch_step handler _ _ (EvSend bob (js "hi")) w2). }
  exists w3, 2%nat, 4%nat. split; [exact Hr|]. split; [done|].
  split; vm_compute; reflexivity.
Qed.

(** ** A switch of accounts under an ingestion *)

Definition carol : Did := js "did:zhtp:carol".

(** [setSelfDid(d)] and the answer to the load it starts, a device without entries *)
Definition sign_in_as (d : Did) (w : world msgr error req) : world msgr error req :=
  mkWorld (upd_store (on_loaded d None) (upd_store (λ s, (setSelfDid (Some d) s).1) (ws w)))
    (wnext w) (wthreads w).

Lemma sign_in_as_steps d w : rtc demo_step w (sign_in_as d w).
Proof.
  destruct w as [s n l].
  eapply rtc_l; [apply step_env, (out_self _ _ (Some d))|].
  eapply rtc_l; [|apply rtc_refl]. apply step_env, out_loaded. by intros b.
Qed.

Definition ingesting : world msgr error req :=
  play (replicate 11 0%nat)
    (launch (handler (EvIngest (map (λ h, mkReceived bob h 0) [js "text1"; js "kx"])))
       (sign_in_as alice (start 100000))).

(** The deposit drain of AuthContext.tsx only tests [cancelled] after it has
    ingested, and [ingestEnvelopes] never asks whose envelopes it opens: when the
    account changes while a text of the previous one is being opened, the text
    is filed, and saved, among the conversations of the account that signed in. *)
Fact ingest_crosses_accounts :
  ∃ w row, rtc demo_step (start 100000) w ∧
    getMessages bob (mstore (ws ingesting)) = [] ∧
    liveSelfDid (mstore (ws w)) = Some carol ∧
    row ∈ getMessages bob (mstore (ws w)) ∧ body row = js "hello" ∧
    saveTimer (mstore (ws w)) = Some carol.
Proof.
  exists (play [0; 0; 0]%nat (sign_in_as carol ingesting)),
    (received (mkMeta bob 1700000000 0 1 Tag_Text) bob (js "hello")).
  split.
  { transitivity (sign_in_as alice (start 100000)); [apply sign_in_as_steps|].
    etransitivity; [apply launch_step|].
    transitivity ingesting; [apply play_steps|].
    etransitivity; [apply sign_in_as_steps|apply play_steps]. }
  do 2 (split; [vm_compute; reflexivity|]).
  split; [apply list_elem_of_lookup_2 with 0%nat; vm_compute; reflexivity|].
  split; vm_compute; reflexivity.
Qed.

Lemma buffer_keeps_newest_witness :
  let w := play [0; 0; 0]%nat (demo_ingest [js "text1"]) in
  let item := mkPending (js "text2") (js "other") (mkMeta bob 0 0 2 Tag_Text) in
  buffer_of bob (bufferUndecryptable bob item (ws w)) = buffer_of bob (ws w) ++ [item].
Proof.
  intros w item.
  destruct (buffer_keeps_newest (tag_ok (js "snd:")) (tag_ok (js "rcv:")) (tag_ok (js "snd:"))
    (tag_ok (js "rcv:")) (tag_ok (js "sealed:")) 100000 w bob item (demo_ingest_steps _ _)) as [E _].
  exact E.
Defined.
