(* ===== verification/MessagingLaws.v ===== *)
(** * What the messaging operations compute

    Functional laws of Messaging.v: the order of ingestion, the round trip of a
    receipt, the rate limit of recovery, the row a send or a resend leaves
    behind, and a run in which two drains lose an envelope. *)

From stdpp Require Import strings.
From S2P Require Import Prelude JsString JsMap Json Codec MsgStore Async Messaging MessagingSafety.

(** ** The order of ingestion *)

Lemma sort_insert_handshake (e : jstr * EnvelopeMetadata) hs ts :
  Forall (λ e, isHandshake (contentType e.2) = true) hs →
  Forall (λ e, isHandshake (contentType e.2) = false) ts →
  sort_insert handshake_cmp e (hs ++ ts) =
    if isHandshake (contentType e.2) then e :: hs ++ ts else hs ++ e :: ts.
Proof.
  intros Hh Ht. unfold handshake_cmp, handshake_rank.
  destruct (isHandshake (contentType e.2)) eqn:E.
  - destruct Hh as [|h hs Hh1 Hh2]; [|by simpl; rewrite E, Hh1].
    destruct Ht as [|x ts Ht1 Ht2]; [done|]. simpl. by rewrite E, Ht1.
  - induction Hh as [|h hs Hh1 _ IH]; simpl; [|rewrite E, Hh1; simpl; by rewrite IH].
    destruct Ht as [|x ts Ht1 Ht2]; [done|]. simpl. by rewrite E, Ht1.
Qed.

Lemma filter_Forall {A} (p : A → bool) (b : bool) l :
  Forall (λ x, p x = b) (List.filter (λ x, Bool.eqb (p x) b) l).
Proof.
  induction l as [|x l IH]; simpl; [constructor|]. destruct (Bool.eqb (p x) b) eqn:E; [|done].
  constructor; [by apply Bool.eqb_prop|done].
Qed.

(** A batch is ingested with every handshake before every text, and both in
    delivery order: nothing is lost, added or swapped within its class. *)
Fact ingest_order prepared :
  js_sort handshake_cmp prepared =
    List.filter (λ e, Bool.eqb (isHandshake (contentType e.2)) true) prepared ++
    List.filter (λ e, Bool.eqb (isHandshake (contentType e.2)) false) prepared.
Proof.
  induction prepared as [|e l IH]; [done|].
  change (js_sort handshake_cmp (e :: l)) with (sort_insert handshake_cmp e (js_sort handshake_cmp l)).
  rewrite IH, sort_insert_handshake by apply filter_Forall. simpl.
  by destruct (isHandshake (contentType e.2)).
Qed.

(** ** Receipts *)

Lemma parse_receipt_json q e :
  parse_receipt (stringify (JObj [(js "seq", JNum q); (js "epoch", JNum e)])) = Some (q, e).
Proof.
  unfold parse_receipt. rewrite json_parse_stringify; [reflexivity|].
  apply plain_obj. split; [keys_distinct|]. repeat constructor.
Qed.

(** The receipt a peer ships is recognised by its marker and flips the very
    message it names: ingesting [receipt_body seq epoch] is
    [confirmSentMessage seq epoch], for every sequence and epoch. *)
Fact receipt_roundtrip d q e m :
  startsWith RECEIPT_MARKER (receipt_body q e) = true ∧
  process_receipt d (drop (length RECEIPT_MARKER) (receipt_body q e)) m
  = upd_store (λ s, (confirmSentMessage d q e s).1) m.
Proof.
  unfold receipt_body. split; [apply startsWith_app|].
  rewrite drop_app_length. unfold process_receipt. by rewrite parse_receipt_json.
Qed.

(** ** Recovery *)

(** evaluate the tasks of a section up to its next test of the state *)
Ltac run_section :=
  cbv [mbind prog_bind bind bindR gets ret modify run try_catch try_finally await fork join void
       recoverMissingSession getOrInitSendSession initSendSession tryRestoreSession
       rs rnext rforked rstatus].

Lemma getSerialized_clear k s : getSerializedSession k (clearSerializedSession k s) = None.
Proof.
  unfold clearSerializedSession, getSerializedSession. destruct (mhas k _) eqn:E.
  - pose proof (contents_notify (with_sessions (mdelete k (serializedSessionsByDid s)) s)) as C.
    unfold contents in C. injection C as _ _ _ _ C. rewrite C. apply mget_delete_eq.
  - unfold mhas in E. by destruct (mget k _).
Qed.

(** A desynced peer is re-handshaked at most once a minute: within 60 seconds
    of the last attempt recovery changes nothing and asks for nothing; later it
    records the time, forgets the outbound session, in memory and stored, and
    leaves one handshake with the peer in flight, its own or one already
    running. *)
Fact recovery_rate_limited d n m :
  let since := clock m - default 0 (mget d (recoveryAttemptAt m)) in
  let r := run (recoverMissingSession d) n m in
  (since < RECOVERY_COOLDOWN_MS → r = mkResult m n [] (Done (inr tt))) ∧
  (RECOVERY_COOLDOWN_MS ≤ since →
    mget d (recoveryAttemptAt (rs r)) = Some (clock m) ∧
    mget d (sendSessionByDid (rs r)) = None ∧
    getSerializedSession (sessionStoreKey d dir_send) (mstore (rs r)) = None ∧
    mget d (sendSessionInitInFlight (rs r))
      = Some (default (n, PString) (mget d (sendSessionInitInFlight m)))).
Proof.
  intros since r. subst r since.
  split; intros H; run_section.
  - by rewrite (proj2 (Z.ltb_lt _ _) H).
  - rewrite (proj2 (Z.ltb_ge _ _) H). run_section.
    set (m1 := resetSendSession d (upd_recovery (mset d (clock m)) m)).
    assert (mget d (sendSessionByDid m1) = None) as E1 by apply mget_delete_eq.
    assert (getSerializedSession (sessionStoreKey d dir_send) (mstore m1) = None) as E2
      by apply getSerialized_clear.
    assert (mget d (recoveryAttemptAt m1) = Some (clock m)) as E3 by apply mget_set_eq.
    assert (sendSessionInitInFlight m1 = sendSessionInitInFlight m) as E4 by done.
    clearbody m1. rewrite E1. cbn [default truthy]. run_section. rewrite E4.
    destruct (mget d (sendSessionInitInFlight m)) as [p|] eqn:E; run_section.
    + by rewrite E4, E.
    + rewrite E2. run_section. simpl. by rewrite mget_set_eq.
Qed.

(** ** What a send and a resend leave in the store

    Whatever runs in between, with the node answering every post by [posted]
    and the bridge reporting the ratchet position [info]. *)

Definition replies (posted : error + SendStatus) (info : SessionInfo) (R : Set) (c : req R) : error + R → Prop :=
  match c in req R return error + R → Prop with
  | post_send _ => λ r, r = posted
  | getSessionInfo _ => λ r, r = inr info
  | _ => λ _, True
  end.

Abbreviation runs posted info t Q m :=
  (safe (λ _ : msgr, True) (λ _ _, True) (replies posted info) (λ _ _, True) t Q m).

Lemma runs_any {A} posted info (t : prog A) Q m :
  (∀ r m', Q r m') → runs posted info t Q m.
Proof. intros HQ. revert m. induction t; intros m; simpl; auto. Qed.

Lemma runs_bind {A B} posted info (t : prog A) (f : A → prog B) (P : A → Prop) Q m :
  runs posted info t (λ r _, match r with inl e => ∀ m', Q (inl e) m' | inr a => P a end) m →
  (∀ a m', P a → runs posted info (f a) Q m') →
  runs posted info (mbind f t) Q m.
Proof.
  intros Ht Hf. apply safe_bind. eapply safe_mono; [|exact Ht]. intros [e|a] m' H; auto.
Qed.

(** a step whose result does not matter *)
Lemma runs_skip {A B} posted info (t : prog A) (f : A → prog B) (Q : error + B → msgr → Prop) m :
  (∀ e m', Q (inl e) m') → (∀ a m', runs posted info (f a) Q m') →
  runs posted info (mbind f t) Q m.
Proof.
  intros HQ Hf. apply (runs_bind posted info t f (λ _, True)); [|auto].
  apply runs_any. intros [e|a] m'; auto.
Qed.

(** the answer to a post, read as a status *)
Lemma runs_post {A} posted info hex (f : error + SendStatus → prog A) Q m :
  (∀ m', runs posted info (f posted) Q m') →
  runs posted info (bindR (await (sendEnvelope hex)) f) Q m.
Proof. intros H. simpl. split; [done|]. split; [done|]. intros r m' _ ->. simpl. auto. Qed.

Lemma runs_info {A} posted info sid (f : SessionInfo → prog A) Q m :
  (∀ m', runs posted info (f info) Q m') →
  runs posted info (mbind f (call (getSessionInfo sid))) Q m.
Proof. intros H. simpl. split; [done|]. split; [done|]. intros r m' _ ->. simpl. auto. Qed.

(** A send that returns has just recorded exactly the row it returns, at the
    end of its conversation and of no other: with the text typed, the time of
    recording, the ratchet position the bridge reports, less the one just used,
    and the status the node answered with, where an unreachable node gives
    [failed] and not an exception. *)
Fact send_records_row d text posted info m :
  runs posted info (sendTextMessageNative d text)
    (λ r m', ∀ x, r = inr x →
      (∃ m0, m' = upd_store (appendMessage x) m0 ∧
        ∀ c, getMessages c (mstore m') = getMessages c (mstore m0) ++ (if decide (c = d) then [x] else [])) ∧
      conversation_did x = d ∧ direction x = dir_sent ∧ content_type x = Text ∧ body x = text ∧
      timestamp x = clock m' / 1000 ∧ epoch x = info_epoch info ∧ sequence x = Z.max 0 (counter info - 1) ∧
      MsgStore.status x = match posted with
                 | inr st_delivered => delivered | inr st_relayed => sent | inr st_queued => pending
                 | inl _ => failed
                 end) m.
Proof.
  unfold sendTextMessageNative.
  do 4 (apply runs_skip; [done|intros ? ?]).
  apply (runs_bind _ _ _ _ (λ st, st = status_of posted)); [by apply runs_post|]. intros st m1 ->.
  apply runs_info. intros m2. apply runs_skip; [done|intros [] m3].
  apply runs_skip; [done|intros rand m4]. simpl. intros x [= <-].
  split; [|repeat split; by destruct posted as [|[]]]. exists m4. split; [done|]. intros c. simpl.
  rewrite getMessages_append. simpl. destruct (decide (c = d)); [done|]. by rewrite app_nil_r.
Qed.

Definition final_patch (info : SessionInfo) : MessagePatch :=
  mkPatch (Some (info_epoch info)) (Some (Z.max 0 (counter info - 1))).

(** A resend always settles the row: of a sent text message, a resend that
    returns has just set the status of the node's answer and the new ratchet
    position, and one that throws, wherever it failed, has just set [failed]. *)
Fact resend_settles d i msg posted info m :
  List.find (has_id i) (getMessages d (mstore m)) = Some msg →
  direction msg = dir_sent → content_type msg = Text →
  runs posted info (resendMessage d i)
    (λ r m', ∃ m0, m' = upd_store (λ s,
      match r with
      | inr _ => (updateMessageStatus d i (status_of posted) (final_patch info) s).1
      | inl _ => (updateMessageStatus d i failed no_patch s).1
      end) m0) m.
Proof.
  intros Hf Hd Ht. unfold resendMessage, mbind at 1, prog_bind. apply safe_bind. simpl. rewrite Hf.
  rewrite !bool_decide_eq_true_2 by done. simpl.
  apply safe_try_catch. eapply safe_mono with (Q := λ r m', match r with inl _ => True | inr _ =>
    ∃ m0, m' = upd_store (λ s, (updateMessageStatus d i (status_of posted) (final_patch info) s).1) m0 end).
  { intros [e|[]] m1 H; [|exact H]. simpl. by eexists. }
  do 3 (apply runs_skip; [done|intros ? ?]).
  apply (runs_bind _ _ _ _ (λ st, st = status_of posted)).
  { apply runs_post. intros m5. destruct posted; simpl; auto. }
  intros st m1 ->. apply runs_info. intros m2. apply runs_skip; [done|intros [] m3].
  simpl. by eexists.
Qed.

Lemma resend_settles_witness :
  let row := sent_message bob (js "hi") (js "r") (mkInfo 1 0 []) failed (ws (start 100000)) in
  let m := upd_store (appendMessage row) (ws (start 100000)) in
  List.find (has_id (id row)) (getMessages bob (mstore m)) = Some row ∧
  runs (inr st_delivered) (mkInfo 4 2 []) (resendMessage bob (id row))
    (λ r m', ∃ m0, m' = upd_store (λ s,
      match r with
      | inr _ => (updateMessageStatus bob (id row) delivered (final_patch (mkInfo 4 2 [])) s).1
      | inl _ => (updateMessageStatus bob (id row) failed no_patch s).1
      end) m0) m.
Proof.
  intros row m. assert (List.find (has_id (id row)) (getMessages bob (mstore m)) = Some row) as Hf
    by (vm_compute; reflexivity).
  split; [exact Hf|].
  exact (resend_settles bob (id row) row (inr st_delivered) (mkInfo 4 2 []) m Hf eq_refl eq_refl).
Defined.

(** ** Two drains at once *)

(** a bridge that opens no envelope; the last digit of an envelope is its sequence *)
Definition meta_of (env : jstr) : EnvelopeMetadata :=
  mkMeta bob 1700000000 0 (code (List.last env "0"%char) - 48)
    (if startsWith (js "kx") env then Tag_KeyExchange else Tag_Text).

Definition unreadable_answer (R : Set) (c : req R) : error + R :=
  match c in req R return error + R with
  | envelopeDescribe env => inr (meta_of env)
  | envelopeOpenVerifiedWithSession _ _ _ => inl (Error (js "mac"))
  | c => demo_answer _ c
  end.

Definition resume_all (l : list nat) (w : world msgr error req) : world msgr error req :=
  fold_left (λ w i, resume unreadable_answer i w) l w.
Definition arrives (h : jstr) (w : world msgr error req) : world msgr error req :=
  launch (handler (EvIngest [mkReceived bob h 0])) w.

Lemma resume_all_steps l w : rtc demo_step w (resume_all l w).
Proof.
  revert w. induction l as [|i l IH]; intros w; [apply rtc_refl|]. simpl.
  etransitivity; [|apply IH]. apply resume_steps. intros R c.
  pose proof (demo_answer_ok R c) as H. destruct c; try exact H; try exact I. intros E. discriminate.
Qed.

Lemma resume_arrives h order w0 w :
  rtc demo_step w0 w → rtc demo_step w0 (resume_all order (arrives h w)).
Proof.
  intros H. etransitivity; [exact H|]. etransitivity; [|apply resume_all_steps].
  exact (launch_step handler _ _ (EvIngest [mkReceived bob h 0]) w).
Qed.

(** a first text waits; two handshakes start a drain each; the first drain ends,
    a second text is buffered, the second drain ends *)
Definition racing : world msgr error req :=
  resume_all (replicate 8 10 ++ [7])%nat (arrives (js "t2")
    (resume_all (replicate 6 6 ++ [4])%nat (arrives (js "kx")
      (resume_all (replicate 9 3)%nat (arrives (js "kx")
        (resume_all [0; 0; 0]%nat (arrives (js "t1") (start 100000)))))))).

Definition opens (R : Set) (c : req R) : bool :=
  match c with envelopeOpenVerifiedWithSession _ _ _ => true | _ => false end.
Definition no_open_pending (w : world msgr error req) : bool :=
  forallb (λ th : thread msgr error req,
    match th.2 with @OnCall _ _ _ _ R c _ => negb (opens R c) | _ => true end) (wthreads w).

(** Concurrent drains lose envelopes: in a run in which two handshakes of a
    peer each start a drain and a text arrives between their ends, the text is
    in the timeline as undecryptable and no longer waits in the buffer, with no
    drain left that could recover it. *)
Fact concurrent_drains_lose :
  ∃ w, rtc demo_step (start 100000) w ∧
    undecryptable_id (meta_of (js "t2")) ∈ map id (getMessages bob (mstore (ws w))) ∧
    map placeholderId (buffer_of bob (ws w)) = [undecryptable_id (meta_of (js "t1"))] ∧
    no_open_pending w = true.
Proof.
  exists racing. split; [|split].
  - do 4 apply resume_arrives. apply rtc_refl.
  - apply list_elem_of_lookup_2 with 1%nat. vm_compute. reflexivity.
  - split; vm_compute; reflexivity.
Qed.

Lemma recovery_rate_limited_witness :
  let m := ws (start 100000) in
  mget bob (recoveryAttemptAt (rs (run (recoverMissingSession bob) 0 m))) = Some 100000 ∧
  run (recoverMissingSession bob) 0 (upd_recovery (mset bob 90000) m)
    = mkResult (upd_recovery (mset bob 90000) m) 0 [] (Done (inr tt)).
Proof.
  intros m. split.
  - apply (proj2 (recovery_rate_limited bob 0 m)). by vm_compute.
  - apply (proj1 (recovery_rate_limited bob 0 (upd_recovery (mset bob 90000) m))). by vm_compute.
Defined.
