(* ===== verification/Inbound.v ===== *)
(** * The inbound push subscription: src/services/MessagingService.ts, lines 1564 to 1937

    The module variables are the record [inbound], every exported function and
    every stream callback a function on it.  The asynchronous open is a list of
    attempts with the await each one stands at, so that the coalescing of
    concurrent opens is something to prove; [step] lets the handlers and the
    awaits run in any order. *)

From stdpp Require Import strings.
From S2P Require Import Prelude JsString Codec.

Definition INBOUND_REOPEN_BASE_MS : Z := 2000.
Definition INBOUND_REOPEN_MAX_MS : Z := 30000.
Definition INBOUND_MAX_CONSECUTIVE_FAILURES : Z := 3.
Definition INBOUND_CAP_QUIET_MS : Z := 60000.

(** where an open stands: [await getQuicSession()], [await openInbound(...)],
    or its promise has settled and [finally] has not run *)
Inductive phase := getting_session | opening_stream | settled.

Record inbound := mkInbound {
  clock : Z;
  inboundStreamId : option jstr;
  inboundUnsubscribe : option jstr;        (* the stream whose listener it removes *)
  inboundOpenInFlight : option nat;        (* the attempt whose promise it is *)
  inboundReopenTimer : option Z;           (* its delay *)
  inboundReopenAttempts : Z;
  inboundStopped : bool;
  inboundConsecutiveFailures : Z;
  inboundSubscriptionOffline : bool;
  inboundCapHitAtMs : option Z;
  inboundConsumerCount : Z;
  registrations : list bool;               (* the flag [alreadyUnregistered] of each consumer *)
  attempts : list (nat * phase);
  next_attempt : nat;
  listeners : list jstr;                   (* streams with a listener attached *)
  closed_streams : list jstr;              (* streams the app asked to close *)
  ingested : list jstr;                    (* envelopes handed to the ingest pipeline *)
}.

(** the app starts *)
Definition initial (t : Z) : inbound :=
  mkInbound t None None None None 0 false 0 false None 0 [] [] 0 [] [] [].

(** ** Setters *)

Definition set_stream s u l x := mkInbound (clock x) s u (inboundOpenInFlight x) (inboundReopenTimer x)
  (inboundReopenAttempts x) (inboundStopped x) (inboundConsecutiveFailures x) (inboundSubscriptionOffline x)
  (inboundCapHitAtMs x) (inboundConsumerCount x) (registrations x) (attempts x) (next_attempt x) l
  (closed_streams x) (ingested x).
Definition set_open f a n x := mkInbound (clock x) (inboundStreamId x) (inboundUnsubscribe x) f (inboundReopenTimer x)
  (inboundReopenAttempts x) (inboundStopped x) (inboundConsecutiveFailures x) (inboundSubscriptionOffline x)
  (inboundCapHitAtMs x) (inboundConsumerCount x) (registrations x) a n (listeners x)
  (closed_streams x) (ingested x).
Definition set_retry t k f x := mkInbound (clock x) (inboundStreamId x) (inboundUnsubscribe x) (inboundOpenInFlight x) t
  k (inboundStopped x) f (inboundSubscriptionOffline x)
  (inboundCapHitAtMs x) (inboundConsumerCount x) (registrations x) (attempts x) (next_attempt x) (listeners x)
  (closed_streams x) (ingested x).
Definition set_cap o c x := mkInbound (clock x) (inboundStreamId x) (inboundUnsubscribe x) (inboundOpenInFlight x)
  (inboundReopenTimer x) (inboundReopenAttempts x) (inboundStopped x) (inboundConsecutiveFailures x) o
  c (inboundConsumerCount x) (registrations x) (attempts x) (next_attempt x) (listeners x)
  (closed_streams x) (ingested x).
Definition set_stopped b x := mkInbound (clock x) (inboundStreamId x) (inboundUnsubscribe x) (inboundOpenInFlight x)
  (inboundReopenTimer x) (inboundReopenAttempts x) b (inboundConsecutiveFailures x) (inboundSubscriptionOffline x)
  (inboundCapHitAtMs x) (inboundConsumerCount x) (registrations x) (attempts x) (next_attempt x) (listeners x)
  (closed_streams x) (ingested x).
Definition set_consumers n r x := mkInbound (clock x) (inboundStreamId x) (inboundUnsubscribe x) (inboundOpenInFlight x)
  (inboundReopenTimer x) (inboundReopenAttempts x) (inboundStopped x) (inboundConsecutiveFailures x) (inboundSubscriptionOffline x)
  (inboundCapHitAtMs x) n r (attempts x) (next_attempt x) (listeners x) (closed_streams x) (ingested x).
Definition set_log c i x := mkInbound (clock x) (inboundStreamId x) (inboundUnsubscribe x) (inboundOpenInFlight x)
  (inboundReopenTimer x) (inboundReopenAttempts x) (inboundStopped x) (inboundConsecutiveFailures x) (inboundSubscriptionOffline x)
  (inboundCapHitAtMs x) (inboundConsumerCount x) (registrations x) (attempts x) (next_attempt x) (listeners x) c i.
Definition set_clock t x := mkInbound t (inboundStreamId x) (inboundUnsubscribe x) (inboundOpenInFlight x)
  (inboundReopenTimer x) (inboundReopenAttempts x) (inboundStopped x) (inboundConsecutiveFailures x) (inboundSubscriptionOffline x)
  (inboundCapHitAtMs x) (inboundConsumerCount x) (registrations x) (attempts x) (next_attempt x) (listeners x)
  (closed_streams x) (ingested x).

(** ** The functions *)

Section Functions.

(** [isNativeQuicSessionAvailable && isNativeMessagingAvailable] *)
Context (available : bool).

(** The offline listeners are callbacks of the screens. *)
Definition setInboundSubscriptionOffline (value : bool) (x : inbound) : inbound :=
  set_cap value (inboundCapHitAtMs x) x.

Definition isInboundSubscriptionOffline (x : inbound) : bool := inboundSubscriptionOffline x.

(** [inboundUnsubscribe?.(); inboundUnsubscribe = null; inboundStreamId = null] *)
Definition detach (x : inbound) : inbound :=
  let l := match inboundUnsubscribe x with
           | Some s => List.filter (λ s', negb (bool_decide (s' = s))) (listeners x)
           | None => listeners x
           end in
  set_stream None None l x.

(** up to the first await of the open it may start *)
Definition startInboundSubscription (force : bool) (x : inbound) : inbound :=
  if negb available then x
  else
    let x := set_stopped false x in
    let x := if force && (match inboundStreamId x with Some _ => true | None => false end) then detach x else x in
    match inboundStreamId x with
    | Some _ => x
    | None =>
        match inboundOpenInFlight x with
        | Some _ => x
        | None => set_open (Some (next_attempt x)) (attempts x ++ [(next_attempt x, getting_session)])
                    (S (next_attempt x)) x
        end
    end.

Definition reset_cap (x : inbound) : inbound :=
  let x := set_retry (inboundReopenTimer x) (inboundReopenAttempts x) 0 x in
  setInboundSubscriptionOffline false (set_cap (inboundSubscriptionOffline x) None x).

Definition registerInboundConsumer (x : inbound) : inbound :=
  let x := set_consumers (inboundConsumerCount x + 1) (registrations x ++ [false]) x in
  if inboundConsumerCount x =? 1 then
    let quiet := match inboundCapHitAtMs x with
                 | None => true
                 | Some t => INBOUND_CAP_QUIET_MS <=? clock x - t
                 end in
    if quiet then startInboundSubscription false (reset_cap x) else x
  else x.

(** the function the registration number [i] returned *)
Definition unregister (i : nat) (x : inbound) : inbound :=
  match registrations x !! i with
  | Some false => set_consumers (Z.max 0 (inboundConsumerCount x - 1)) (<[i := true]> (registrations x)) x
  | _ => x
  end.

Definition resumeInboundOnForeground (x : inbound) : inbound :=
  if inboundConsumerCount x =? 0 then x else startInboundSubscription true (reset_cap x).

Definition reopen_delay (k : Z) : Z := Z.min (INBOUND_REOPEN_BASE_MS * 2 ^ k) INBOUND_REOPEN_MAX_MS.

Definition scheduleInboundReopen (x : inbound) : inbound :=
  if inboundStopped x || (match inboundReopenTimer x with Some _ => true | None => false end) then x
  else if INBOUND_MAX_CONSECUTIVE_FAILURES <=? inboundConsecutiveFailures x then
    setInboundSubscriptionOffline true (set_cap (inboundSubscriptionOffline x) (Some (clock x)) x)
  else
    set_retry (Some (reopen_delay (inboundReopenAttempts x))) (inboundReopenAttempts x + 1)
      (inboundConsecutiveFailures x + 1) x.

Definition reopen_timer_fires (x : inbound) : inbound :=
  startInboundSubscription false
    (set_retry None (inboundReopenAttempts x) (inboundConsecutiveFailures x) x).

Definition set_phase (i : nat) (p : phase) (x : inbound) : inbound :=
  set_open (inboundOpenInFlight x) (map (λ a, if (a.1 =? i)%nat then (a.1, p) else a) (attempts x))
    (next_attempt x) x.

(** the continuations of the open: the session arrives or not, the stream opens
    or not, and [finally] of the call that started it *)
Definition session_arrives (i : nat) (ok : bool) (x : inbound) : inbound :=
  if ok then set_phase i opening_stream x else set_phase i settled (scheduleInboundReopen x).

Definition stream_opens (i : nat) (stream : option jstr) (x : inbound) : inbound :=
  match stream with
  | Some s => set_phase i settled (set_stream (Some s) (Some s) (listeners x ++ [s]) x)
  | None => set_phase i settled (scheduleInboundReopen x)
  end.

Definition open_finally (i : nat) (x : inbound) : inbound :=
  set_open None (List.filter (λ a, negb (a.1 =? i)%nat) (attempts x)) (next_attempt x) x.

(** the callbacks of the stream [s] *)
Definition onFrame (s frameB64 : jstr) (x : inbound) : inbound :=
  let x := set_retry (inboundReopenTimer x) 0 0 x in
  let x := setInboundSubscriptionOffline false (set_cap (inboundSubscriptionOffline x) None x) in
  match bytesToHex frameB64 with
  | Some hex => set_log (closed_streams x) (ingested x ++ [hex]) x
  | None => x
  end.

Definition onClosed (s : jstr) (x : inbound) : inbound :=
  if bool_decide (inboundStreamId x = Some s) then scheduleInboundReopen (detach x) else x.

Definition onError (s : jstr) (x : inbound) : inbound :=
  if bool_decide (inboundStreamId x = Some s) then scheduleInboundReopen (detach x) else x.

Definition stopInboundSubscription (x : inbound) : inbound :=
  let x := set_stopped true x in
  let x := set_retry None 0 0 x in
  let x := setInboundSubscriptionOffline false (set_cap (inboundSubscriptionOffline x) None x) in
  let stream := inboundStreamId x in
  let x := set_stream (inboundStreamId x) None (listeners (detach x)) x in
  match stream with
  | Some s => set_log (closed_streams x ++ [s]) (ingested x) (set_stream None None (listeners x) x)
  | None => x
  end.

(** ** The subscription as a step relation

    The ids of streams are never empty. *)

Inductive step : inbound → inbound → Prop :=
| do_time x t : clock x ≤ t → step x (set_clock t x)
| do_start x force : step x (startInboundSubscription force x)
| do_register x : step x (registerInboundConsumer x)
| do_unregister x i : step x (unregister i x)
| do_foreground x : step x (resumeInboundOnForeground x)
| do_timer x d : inboundReopenTimer x = Some d → step x (reopen_timer_fires x)
| do_session x i ok : (i, getting_session) ∈ attempts x → step x (session_arrives i ok x)
| do_stream x i s : (i, opening_stream) ∈ attempts x → s ≠ Some [] → step x (stream_opens i s x)
| do_finally x i : (i, settled) ∈ attempts x → step x (open_finally i x)
| do_frame x s b64 : s ∈ listeners x → step x (onFrame s b64 x)
| do_closed x s : s ∈ listeners x → step x (onClosed s x)
| do_error x s : s ∈ listeners x → step x (onError s x)
| do_stop x : step x (stopInboundSubscription x).

Definition reachable (x : inbound) : Prop := ∃ t, rtc step (initial t) x.

(** * Lemmas *)

Record inbound_ok (x : inbound) : Prop := {
  ok_attempts : match inboundOpenInFlight x with
                | None => attempts x = []
                | Some i => ∃ p, attempts x = [(i, p)] ∧ (p ≠ settled → inboundStreamId x = None)
                end;
  ok_unsubscribe : inboundUnsubscribe x = inboundStreamId x;
  ok_listeners : listeners x = match inboundStreamId x with Some s => [s] | None => [] end;
  ok_timer : match inboundReopenTimer x with
             | Some d => INBOUND_REOPEN_BASE_MS ≤ d ≤ INBOUND_REOPEN_MAX_MS ∧ inboundStopped x = false
             | None => True
             end;
  ok_counts : 0 ≤ inboundReopenAttempts x ∧
              0 ≤ inboundConsecutiveFailures x ≤ INBOUND_MAX_CONSECUTIVE_FAILURES;
  ok_offline : inboundSubscriptionOffline x = true →
               inboundConsecutiveFailures x = INBOUND_MAX_CONSECUTIVE_FAILURES ∧ inboundCapHitAtMs x ≠ None;
}.

Lemma ok_initial t : inbound_ok (initial t).
Proof. constructor; simpl; unfold INBOUND_MAX_CONSECUTIVE_FAILURES; auto; lia || done. Qed.

Lemma reopen_delay_bounds k : 0 ≤ k → INBOUND_REOPEN_BASE_MS ≤ reopen_delay k ≤ INBOUND_REOPEN_MAX_MS.
Proof.
  intros H. unfold reopen_delay, INBOUND_REOPEN_BASE_MS, INBOUND_REOPEN_MAX_MS.
  assert (1 ≤ 2 ^ k) by (pose proof (Z.pow_pos_nonneg 2 k); lia). lia.
Qed.

Lemma filter_singleton s : List.filter (λ s', negb (bool_decide (s' = s))) [s] = ([] : list jstr).
Proof. simpl. by rewrite bool_decide_eq_true_2. Qed.

Lemma listeners_detach x : inbound_ok x → listeners (detach x) = [].
Proof.
  intros H. unfold detach. simpl. rewrite (ok_unsubscribe _ H), (ok_listeners _ H).
  destruct (inboundStreamId x) as [s|]; [apply filter_singleton|done].
Qed.

Lemma ok_detach x : inbound_ok x → inbound_ok (detach x).
Proof.
  intros H. pose proof (listeners_detach x H) as Hl. destruct H.
  constructor; auto; try exact Hl. simpl. destruct (inboundOpenInFlight x); [|done].
  destruct ok_attempts0 as (p & E & _). by exists p.
Qed.

Lemma ok_stopped_false x : inbound_ok x → inbound_ok (set_stopped false x).
Proof.
  intros []. constructor; auto. simpl. destruct (inboundReopenTimer x); [|done]. tauto.
Qed.

Lemma ok_start force x : inbound_ok x → inbound_ok (startInboundSubscription force x).
Proof.
  intros H. unfold startInboundSubscription. destruct available; simpl; [|done].
  apply ok_stopped_false in H.
  set (y := if force && _ then _ else _).
  assert (inbound_ok y) as Hy by (subst y; destruct (_ && _); [by apply ok_detach|done]).
  clearbody y. destruct (inboundStreamId y) eqn:Es; [done|]. destruct (inboundOpenInFlight y) eqn:Ef; [done|].
  destruct Hy as [Ha ? ? ? ? ?]. rewrite Ef in Ha. constructor; simpl; auto.
  rewrite Ha. exists getting_session. by split.
Qed.

Lemma ok_reset_cap x : inbound_ok x → inbound_ok (reset_cap x).
Proof.
  intros []. constructor; simpl; auto; [|done]. unfold INBOUND_MAX_CONSECUTIVE_FAILURES. lia.
Qed.

Lemma ok_register x : inbound_ok x → inbound_ok (registerInboundConsumer x).
Proof.
  intros H. unfold registerInboundConsumer. set (y := set_consumers _ _ x).
  assert (inbound_ok y) as Hy by (by destruct H). clearbody y.
  destruct (_ =? 1); [|done]. destruct (match inboundCapHitAtMs y with Some _ => _ | None => _ end); [|done].
  by apply ok_start, ok_reset_cap.
Qed.

Lemma ok_schedule x : inbound_ok x → inbound_ok (scheduleInboundReopen x).
Proof.
  intros H. unfold scheduleInboundReopen. destruct (inboundStopped x) eqn:Es; [done|].
  destruct (inboundReopenTimer x) eqn:Et; [done|]. simpl.
  destruct (_ <=? _) eqn:El; breflect; destruct H; constructor; simpl; auto.
  - intros _. split; [lia|done].
  - split; [|done]. apply reopen_delay_bounds. lia.
  - lia.
  - intros Ho. destruct (ok_offline0 Ho). lia.
Qed.

Lemma ok_timer_fires x : inbound_ok x → inbound_ok (reopen_timer_fires x).
Proof. intros H. apply ok_start. by destruct H. Qed.

(** what the running attempt may assume *)
Lemma ok_attempt x i p :
  inbound_ok x → (i, p) ∈ attempts x →
  inboundOpenInFlight x = Some i ∧ attempts x = [(i, p)] ∧ (p ≠ settled → inboundStreamId x = None).
Proof.
  intros H Hin. pose proof (ok_attempts _ H) as Ha. destruct (inboundOpenInFlight x) as [j|].
  - destruct Ha as (q & E & Hs). rewrite E in Hin |- *. apply list_elem_of_singleton in Hin as [= -> ->]. auto.
  - rewrite Ha in Hin. by apply elem_of_nil in Hin.
Qed.

Lemma ok_set_phase x i p q :
  inbound_ok x → attempts x = [(i, p)] → inboundOpenInFlight x = Some i →
  (q ≠ settled → inboundStreamId x = None) → inbound_ok (set_phase i q x).
Proof.
  intros H Ea Ef Hq. destruct H. constructor; simpl; auto. rewrite Ef, Ea. simpl.
  rewrite Nat.eqb_refl. by exists q.
Qed.

Lemma schedule_attempts x :
  attempts (scheduleInboundReopen x) = attempts x ∧
  inboundOpenInFlight (scheduleInboundReopen x) = inboundOpenInFlight x ∧
  inboundStreamId (scheduleInboundReopen x) = inboundStreamId x.
Proof. unfold scheduleInboundReopen. destruct (_ || _); [done|]. by destruct (_ <=? _). Qed.

Lemma ok_settle_failed x i p :
  inbound_ok x → (i, p) ∈ attempts x → inbound_ok (set_phase i settled (scheduleInboundReopen x)).
Proof.
  intros H Hin. destruct (ok_attempt x i p H Hin) as (Ef & Ea & _).
  destruct (schedule_attempts x) as (E1 & E2 & _).
  apply (ok_set_phase _ i p); [by apply ok_schedule|congruence..].
Qed.

Lemma stop_streams x :
  inbound_ok x →
  inboundStreamId (stopInboundSubscription x) = None ∧ inboundUnsubscribe (stopInboundSubscription x) = None ∧
  listeners (stopInboundSubscription x) = [].
Proof.
  intros H. unfold stopInboundSubscription, detach. simpl.
  rewrite (ok_unsubscribe _ H), (ok_listeners _ H).
  destruct (inboundStreamId x) as [s|] eqn:E; simpl; [|done].
  by rewrite bool_decide_eq_true_2.
Qed.

Lemma ok_stop x : inbound_ok x → inbound_ok (stopInboundSubscription x).
Proof.
  intros H. destruct (stop_streams x H) as (E1 & E2 & E3).
  assert (inboundOpenInFlight (stopInboundSubscription x) = inboundOpenInFlight x ∧
    attempts (stopInboundSubscription x) = attempts x ∧
    inboundReopenTimer (stopInboundSubscription x) = None ∧
    inboundReopenAttempts (stopInboundSubscription x) = 0 ∧
    inboundConsecutiveFailures (stopInboundSubscription x) = 0 ∧
    inboundSubscriptionOffline (stopInboundSubscription x) = false) as (F1 & F2 & F3 & F4 & F5 & F6).
  { unfold stopInboundSubscription. simpl. by destruct (inboundStreamId x). }
  constructor; rewrite ?E1, ?E2, ?E3, ?F1, ?F2, ?F3, ?F4, ?F5, ?F6; auto; [|unfold INBOUND_MAX_CONSECUTIVE_FAILURES; lia|done].
  pose proof (ok_attempts _ H) as Ha. destruct (inboundOpenInFlight x); [|done].
  destruct Ha as (p & Ea & _). by exists p.
Qed.

Lemma inbound_ok_step x x' : step x x' → inbound_ok x → inbound_ok x'.
Proof.
  intros Hs H. destruct Hs as [x t Ht|x force|x|x i|x|x d Ht|x i ok Hi|x i s Hi _|x i Hi|x s b64 Hl|x s Hl|x s Hl|x].
  - by destruct H.
  - by apply ok_start.
  - by apply ok_register.
  - unfold unregister. destruct (registrations x !! i) as [[]|]; by destruct H.
  - unfold resumeInboundOnForeground. destruct (_ =? 0); [done|]. by apply ok_start, ok_reset_cap.
  - by apply ok_timer_fires.
  - destruct (ok_attempt x i _ H Hi) as (Ef & Ea & Hn). unfold session_arrives.
    destruct ok; [by eapply ok_set_phase; eauto|by eapply ok_settle_failed].
  - destruct (ok_attempt x i _ H Hi) as (Ef & Ea & Hn). unfold stream_opens.
    destruct s as [s|]; [|by eapply ok_settle_failed]. specialize (Hn ltac:(done)).
    destruct H as [Ha Hu Hl Ht Hc Ho]. constructor; simpl; auto.
    + rewrite Ef, Ea. simpl. rewrite Nat.eqb_refl. by exists settled.
    + by rewrite Hl, Hn.
  - destruct (ok_attempt x i _ H Hi) as (Ef & Ea & _). destruct H. constructor; simpl; auto.
    rewrite Ea. simpl. by rewrite Nat.eqb_refl.
  - unfold onFrame. set (y := setInboundSubscriptionOffline _ _).
    assert (inbound_ok y) as Hy.
    { destruct H. constructor; simpl; auto; [|done]. unfold INBOUND_MAX_CONSECUTIVE_FAILURES. lia. }
    destruct (bytesToHex b64); [|done]. by destruct Hy.
  - unfold onClosed. destruct (bool_decide _); [by apply ok_schedule, ok_detach|done].
  - unfold onError. destruct (bool_decide _); [by apply ok_schedule, ok_detach|done].
  - by apply ok_stop.
Qed.

Lemma start_fresh force x :
  available = true → inboundStreamId x = None → inboundOpenInFlight x = None →
  startInboundSubscription force x =
    set_open (Some (next_attempt x)) (attempts x ++ [(next_attempt x, getting_session)])
      (S (next_attempt x)) (set_stopped false x).
Proof.
  intros Ha Hs Hf. unfold startInboundSubscription. rewrite Ha. simpl. rewrite Hs.
  rewrite andb_false_r. simpl. by rewrite Hs, Hf.
Qed.

Lemma start_busy force x i :
  available = true → inboundStreamId x = None → inboundOpenInFlight x = Some i →
  startInboundSubscription force x = set_stopped false x.
Proof.
  intros Ha Hs Hf. unfold startInboundSubscription. rewrite Ha. simpl. rewrite Hs.
  rewrite andb_false_r. simpl. by rewrite Hs, Hf.
Qed.

Lemma reachable_inbound_ok x : reachable x → inbound_ok x.
Proof.
  intros [t H]. assert (∀ a b, rtc step a b → inbound_ok a → inbound_ok b) as Hr.
  { induction 1; eauto using inbound_ok_step. }
  eapply Hr; [exact H|apply ok_initial].
Qed.

(** * Properties *)

(** One stream at a time: however the calls of the authentication layer, the
    screens, the reopen timer and the stream's own events interleave, at most
    one open is in flight, it never overtakes an open stream, and the only
    listener attached is that of the current stream. *)
Fact one_stream x :
  reachable x →
  (length (attempts x) ≤ 1)%nat ∧
  listeners x = (match inboundStreamId x with Some s => [s] | None => [] end) ∧
  (∀ i p, (i, p) ∈ attempts x → inboundOpenInFlight x = Some i ∧ (p ≠ settled → inboundStreamId x = None)).
Proof.
  intros H%reachable_inbound_ok. split; [|split; [apply H|]].
  - pose proof (ok_attempts _ H) as Ha. destruct (inboundOpenInFlight x).
    + destruct Ha as (p & -> & _). simpl. lia.
    + rewrite Ha. simpl. lia.
  - intros i p Hin. destruct (ok_attempt x i p H Hin) as (? & _ & ?). auto.
Qed.

(** The retries are bounded: never more than three consecutive failures, a
    reopen is delayed by 2 to 30 seconds and never pending after a stop, and
    the subscription is marked offline only with the failures exhausted and
    the time of it recorded. *)
Fact retries_bounded x :
  reachable x →
  0 ≤ inboundConsecutiveFailures x ≤ INBOUND_MAX_CONSECUTIVE_FAILURES ∧
  (∀ d, inboundReopenTimer x = Some d → INBOUND_REOPEN_BASE_MS ≤ d ≤ INBOUND_REOPEN_MAX_MS) ∧
  (inboundStopped x = true → inboundReopenTimer x = None) ∧
  (inboundSubscriptionOffline x = true →
    inboundConsecutiveFailures x = INBOUND_MAX_CONSECUTIVE_FAILURES ∧
    ∃ t, inboundCapHitAtMs x = Some t).
Proof.
  intros [Ha Hu Hl Ht Hc Ho]%reachable_inbound_ok. split; [lia|split; [|split]].
  - intros d E. rewrite E in Ht. tauto.
  - intros E. destruct (inboundReopenTimer x); [|done]. destruct Ht as [_ Ht]. congruence.
  - intros E. destruct (Ho E) as [Hf Hn]. split; [done|]. destruct (inboundCapHitAtMs x) as [t|]; [by exists t|done].
Qed.

(** A tab that mounts and unmounts does not restart the retries: within a
    minute of the cap a first consumer leaves the subscription as it is; after
    it, or on returning to the foreground, the budget is reset and an open is
    started if none is under way. *)
Fact quiet_period_holds x t :
  available = true → inboundConsumerCount x = 0 → inboundCapHitAtMs x = Some t →
  inboundStreamId x = None → inboundOpenInFlight x = None →
  (clock x - t < INBOUND_CAP_QUIET_MS →
    registerInboundConsumer x = set_consumers 1 (registrations x ++ [false]) x) ∧
  (INBOUND_CAP_QUIET_MS ≤ clock x - t →
    attempts (registerInboundConsumer x) = attempts x ++ [(next_attempt x, getting_session)] ∧
    inboundSubscriptionOffline (registerInboundConsumer x) = false ∧
    inboundConsecutiveFailures (registerInboundConsumer x) = 0) ∧
  (attempts (resumeInboundOnForeground (registerInboundConsumer x))
    = attempts x ++ [(next_attempt x, getting_session)] ∧
   inboundSubscriptionOffline (resumeInboundOnForeground (registerInboundConsumer x)) = false).
Proof.
  intros Hav Hc Ht Hs Hf. unfold registerInboundConsumer. simpl. rewrite Hc. simpl. rewrite Ht.
  unfold resumeInboundOnForeground.
  destruct (INBOUND_CAP_QUIET_MS <=? clock x - t) eqn:E; breflect.
  - split; [lia|]. rewrite start_fresh by done. simpl. split; [done|].
    rewrite (start_busy _ _ (next_attempt x)) by done. done.
  - split; [done|]. split; [lia|]. simpl. rewrite start_fresh by done. done.
Qed.

End Functions.

(** A sign-out during an open is lost: a run exists in which the
    subscription is stopped while the stream is being opened, and afterwards the
    stream is published, its listener attached, although the subscription is
    still marked stopped, so frames keep arriving after the sign-out. *)
Fact stop_during_open_is_lost :
  ∃ x s, reachable true x ∧ inboundStopped x = true ∧ inboundStreamId x = Some s ∧ listeners x = [s] ∧
    closed_streams x = [].
Proof.
  pose (x1 := startInboundSubscription true false (initial 0)).
  pose (x2 := session_arrives 0 true x1). pose (x3 := stopInboundSubscription x2).
  pose (x4 := stream_opens 0 (Some (js "stream-1")) x3).
  exists x4, (js "stream-1"). split; [|vm_compute; repeat split; reflexivity].
  exists 0. eapply rtc_l; [apply (do_start _ _ false)|].
  eapply rtc_l; [apply (do_session _ x1 0 true); left|].
  eapply rtc_l; [apply (do_stop _ x2)|].
  eapply rtc_l; [apply (do_stream _ x3 0 (Some (js "stream-1"))); [left|discriminate]|]. apply rtc_refl.
Qed.

Definition opening : inbound := session_arrives 0 true (startInboundSubscription true false (initial 0)).

Lemma opening_reachable : reachable true opening.
Proof.
  exists 0. eapply rtc_l; [apply (do_start _ _ false)|].
  eapply rtc_l; [apply (do_session _ (startInboundSubscription true false (initial 0)) 0 true); left|].
  apply rtc_refl.
Qed.

Lemma one_stream_witness :
  attempts opening = [(0%nat, opening_stream)] ∧ inboundStreamId opening = None.
Proof.
  split; [reflexivity|].
  apply (proj2 (proj2 (proj2 (one_stream true opening opening_reachable)) 0%nat opening_stream ltac:(left))).
  discriminate.
Defined.

Definition failing : inbound := stream_opens 0 None opening.

Lemma retries_bounded_witness :
  inboundReopenTimer failing = Some 2000 ∧ INBOUND_REOPEN_BASE_MS ≤ 2000 ≤ INBOUND_REOPEN_MAX_MS.
Proof.
  split; [reflexivity|]. refine (proj1 (proj2 (retries_bounded true failing _)) 2000 eq_refl).
  destruct opening_reachable as [t H]. exists t. eapply rtc_r; [exact H|].
  apply (do_stream _ opening 0 None); [left|discriminate].
Defined.

Lemma quiet_period_holds_witness :
  let x := set_cap true (Some 5000) (initial 6000) in
  registerInboundConsumer true x = set_consumers 1 [false] x.
Proof.
  intros x. refine (proj1 (quiet_period_holds true x 5000 eq_refl eq_refl eq_refl eq_refl eq_refl) _).
  by vm_compute.
Defined.
