(* ===== verification/QuicSession.v ===== *)
(** * The persistent session: src/services/QuicSessionManager.ts

    The module variables are the record [manager]; an open that is in flight is
    an attempt with the identity it captured and the await it stands at.
    [step] interleaves the calls of [getSession], [dropSession] and
    [bindIdentity] with the answers of the native bridge. *)

From stdpp Require Import strings.
From S2P Require Import Prelude JsString.

Inductive phase := opening | settled.

Record attempt := mkAttempt { promise : nat; captured : jstr; at_phase : phase }.

Record manager := mkManager {
  boundDid : option jstr;
  liveSessionId : option jstr;
  inFlight : option nat;                 (* the attempt whose promise it is *)
  attempts : list attempt;
  next_promise : nat;
  opened : list (jstr * jstr);           (* identity and id of each session the bridge opened *)
  closed : list jstr;                    (* sessions the app asked to close *)
}.

Definition initial : manager := mkManager None None None [] 0 [] [].

(** [NativeQuicSession.closeSession] of the live session, when there is one *)
Definition close_live (x : manager) : manager :=
  match liveSessionId x with
  | Some sid => mkManager (boundDid x) None (inFlight x) (attempts x) (next_promise x) (opened x) (closed x ++ [sid])
  | None => x
  end.

Definition forget_flight (x : manager) : manager :=
  mkManager (boundDid x) (liveSessionId x) None (attempts x) (next_promise x) (opened x) (closed x).

Definition bindIdentity (did : option jstr) (x : manager) : manager :=
  let next := match did with Some d => if truthy d then Some d else None | None => None end in
  if decide (next = boundDid x) then x
  else
    forget_flight (close_live
      (mkManager next (liveSessionId x) (inFlight x) (attempts x) (next_promise x) (opened x) (closed x))).

Definition dropSession (x : manager) : manager := forget_flight (close_live x).

Definition hasLiveSession (x : manager) : bool :=
  match liveSessionId x with Some _ => true | None => false end.

(** what a call of [getSession] gives its caller at once *)
Inductive reply := throws | cached (sid : jstr) | promised (p : nat).

(** up to its first await; [available] is [isNativeQuicSessionAvailable] *)
Definition getSession (available : bool) (x : manager) : reply * manager :=
  if negb available then (throws, x)
  else
    match boundDid x with
    | None => (throws, x)
    | Some did =>
        match liveSessionId x with
        | Some sid => (cached sid, x)
        | None =>
            match inFlight x with
            | Some p => (promised p, x)
            | None =>
                let p := next_promise x in
                (promised p, mkManager (boundDid x) (liveSessionId x) (Some p)
                   (attempts x ++ [mkAttempt p did opening]) (S p) (opened x) (closed x))
            end
        end
    end.

Definition settle (p : nat) (l : list attempt) : list attempt :=
  map (λ a, if (promise a =? p)%nat then mkAttempt p (captured a) settled else a) l.

(** [openSession] answers the attempt [p], made for [did]: the id of the session,
    or an error *)
Definition session_opens (p : nat) (did : jstr) (answer : option jstr) (x : manager) : manager :=
  let l := settle p (attempts x) in
  match answer with
  | None => mkManager (boundDid x) (liveSessionId x) (inFlight x) l (next_promise x) (opened x) (closed x)
  | Some sid =>
      if decide (boundDid x = Some did) then
        mkManager (boundDid x) (Some sid) (inFlight x) l (next_promise x) (opened x ++ [(did, sid)]) (closed x)
      else
        mkManager (boundDid x) (liveSessionId x) (inFlight x) l (next_promise x) (opened x ++ [(did, sid)])
          (closed x ++ [sid])
  end.

(** [finally { inFlight = null; }] of the call that made the attempt *)
Definition attempt_finally (p : nat) (x : manager) : manager :=
  mkManager (boundDid x) (liveSessionId x) None
    (List.filter (λ a, negb (promise a =? p)%nat) (attempts x)) (next_promise x) (opened x) (closed x).

(** A session id the bridge returns is new and not empty. *)
Inductive step : manager → manager → Prop :=
| do_bind x did : step x (bindIdentity did x)
| do_drop x : step x (dropSession x)
| do_get x available : step x (getSession available x).2
| do_opened x p did sid :
    mkAttempt p did opening ∈ attempts x → sid ≠ [] → sid ∉ map snd (opened x) →
    step x (session_opens p did (Some sid) x)
| do_failed x p did : mkAttempt p did opening ∈ attempts x → step x (session_opens p did None x)
| do_finally x p did : mkAttempt p did settled ∈ attempts x → step x (attempt_finally p x).

Definition reachable (x : manager) : Prop := rtc step initial x.

(** * Lemmas *)

Record manager_ok (x : manager) : Prop := {
  ok_live : ∀ sid, liveSessionId x = Some sid →
    (sid ∉ closed x) ∧ ∃ did, boundDid x = Some did ∧ (did, sid) ∈ opened x;
  ok_closed : ∀ sid, sid ∈ closed x → sid ∈ map snd (opened x);
}.

Lemma ok_forget x : manager_ok x → manager_ok (forget_flight x).
Proof. by intros []. Qed.

Lemma ok_close_live (P : option jstr) x :
  (∀ sid, liveSessionId x = Some sid → sid ∈ map snd (opened x)) →
  (∀ sid, sid ∈ closed x → sid ∈ map snd (opened x)) → manager_ok (close_live x).
Proof.
  intros Hl Hc. unfold close_live. destruct (liveSessionId x) as [s|] eqn:E.
  - constructor; simpl; [done|]. intros sid [H| ->%list_elem_of_singleton]%elem_of_app; auto.
  - constructor; [by rewrite E|done].
Qed.

Lemma live_opened x sid : manager_ok x → liveSessionId x = Some sid → sid ∈ map snd (opened x).
Proof.
  intros H E. destruct (ok_live _ H _ E) as (_ & did & _ & Hin).
  change sid with ((did, sid).2). apply list_elem_of_fmap_2, Hin.
Qed.

Lemma manager_ok_step x x' : step x x' → manager_ok x → manager_ok x'.
Proof.
  intros Hs H. destruct Hs as [x did|x|x av|x p did sid Hp _ Hn|x p did Hp|x p did Hp].
  - unfold bindIdentity. destruct (decide _); [done|]. apply ok_forget, (ok_close_live None); simpl.
    + intros sid. by apply live_opened.
    + apply H.
  - apply ok_forget, (ok_close_live None); [intros sid; by apply live_opened|apply H].
  - unfold getSession. destruct av; [|done]. simpl. destruct (boundDid x) as [did|] eqn:Eb; [|done].
    destruct (liveSessionId x) eqn:El; [done|]. destruct (inFlight x); [done|].
    destruct H as [Hl Hc]. by constructor.
  - unfold session_opens. destruct (decide _) as [Eb|Eb].
    + constructor; simpl.
      * intros s [= <-]. split; [|exists did; split; [done|]; apply elem_of_app; right; left].
        intros Hin. by apply Hn, (ok_closed _ H).
      * intros s Hin. rewrite map_app. apply elem_of_app. left. by apply (ok_closed _ H).
    + constructor; simpl.
      * intros s E. destruct (ok_live _ H _ E) as (Hc & d & Hb & Hin). split.
        -- intros [Hx| ->%list_elem_of_singleton]%elem_of_app; [done|]. by apply Hn, live_opened.
        -- exists d. split; [done|]. apply elem_of_app. by left.
      * intros s [Hx| ->%list_elem_of_singleton]%elem_of_app; rewrite map_app; apply elem_of_app;
          [left; by apply (ok_closed _ H)|right; left].
  - by destruct H.
  - by destruct H.
Qed.

Lemma reachable_manager_ok x : reachable x → manager_ok x.
Proof.
  intros H. assert (∀ a b, rtc step a b → manager_ok a → manager_ok b) as Hr.
  { induction 1; eauto using manager_ok_step. }
  eapply Hr; [exact H|]. constructor; simpl; [done|]. intros sid Hin. by apply elem_of_nil in Hin.
Qed.

(** * Properties *)

(** Requests never travel on another identity's session: whatever binds,
    drops and opens interleave, the live session was opened for the identity
    that is bound and has not been closed, and a session that arrives for an
    identity bound no more is closed at once. *)
Fact live_session_of_bound_identity x :
  reachable x →
  (∀ sid, liveSessionId x = Some sid →
    (sid ∉ closed x) ∧ ∃ did, boundDid x = Some did ∧ (did, sid) ∈ opened x) ∧
  (∀ p did sid, boundDid x ≠ Some did →
    liveSessionId (session_opens p did (Some sid) x) = liveSessionId x ∧
    sid ∈ closed (session_opens p did (Some sid) x)).
Proof.
  intros H%reachable_manager_ok. split; [apply H|]. intros p did sid Hb. unfold session_opens.
  rewrite decide_False by done. simpl. split; [done|]. apply elem_of_app. right. left.
Qed.

(** Concurrent callers share one open: from any state, a call while an open is
    in flight joins it, a call with a live session returns it, and neither asks
    the bridge for anything. *)
Fact callers_share available x r x' :
  getSession available x = (r, x') →
  (x' = x ∧ (r = throws ∨ (∃ sid, r = cached sid ∧ liveSessionId x = Some sid) ∨
     (∃ p, r = promised p ∧ inFlight x = Some p))) ∨
  (∃ did, boundDid x = Some did ∧ liveSessionId x = None ∧ inFlight x = None ∧
    r = promised (next_promise x) ∧ inFlight x' = Some (next_promise x) ∧
    attempts x' = attempts x ++ [mkAttempt (next_promise x) did opening]).
Proof.
  unfold getSession. destruct available; simpl; [|intros [= <- <-]; left; tauto].
  destruct (boundDid x) as [did|]; [|intros [= <- <-]; left; tauto].
  destruct (liveSessionId x) as [sid|] eqn:El; [intros [= <- <-]; left; split; [done|]; right; left; eauto|].
  destruct (inFlight x) as [p|] eqn:Ef; intros [= <- <-]; [left; split; [done|]; right; right; eauto|].
  right. exists did. repeat split; done.
Qed.

Definition a : jstr := js "did:zhtp:aa".
Definition b : jstr := js "did:zhtp:bb".

(** One identity can get two sessions: after an identity change during an
    open, the [finally] of the old call forgets the new identity's open, a third
    call opens another session, and the first of the two is left open for ever:
    it is neither live nor closed. *)
Fact second_session_leaks :
  ∃ x s1 s2, reachable x ∧ boundDid x = Some b ∧ liveSessionId x = Some s2 ∧ s1 ≠ s2 ∧
    opened x = [(a, js "s0"); (b, s1); (b, s2)] ∧ closed x = [js "s0"] ∧ attempts x = [].
Proof.
  pose (x1 := bindIdentity (Some a) initial). pose (x2 := (getSession true x1).2).
  pose (x3 := bindIdentity (Some b) x2). pose (x4 := (getSession true x3).2).
  pose (x5 := session_opens 0 a (Some (js "s0")) x4). pose (x6 := attempt_finally 0 x5).
  pose (x7 := (getSession true x6).2). pose (x8 := session_opens 1 b (Some (js "s1")) x7).
  pose (x9 := session_opens 2 b (Some (js "s2")) x8).
  pose (x10 := attempt_finally 1 x9). pose (x11 := attempt_finally 2 x10).
  exists x11, (js "s1"), (js "s2"). split; [|vm_compute; repeat split; try reflexivity; discriminate].
  unfold reachable.
  eapply rtc_l; [exact (do_bind initial (Some a))|]. eapply rtc_l; [exact (do_get x1 true)|].
  eapply rtc_l; [exact (do_bind x2 (Some b))|]. eapply rtc_l; [exact (do_get x3 true)|].
  eapply rtc_l; [apply (do_opened x4 0 a (js "s0")); [left|discriminate|vm_compute; apply not_elem_of_nil]|].
  eapply rtc_l; [apply (do_finally x5 0 a); left|]. eapply rtc_l; [exact (do_get x6 true)|].
  eapply rtc_l; [apply (do_opened x7 1 b (js "s1")); [left|discriminate|]|].
  { apply not_elem_of_cons. split; [discriminate|apply not_elem_of_nil]. }
  eapply rtc_l; [apply (do_opened x8 2 b (js "s2")); [right; left|discriminate|]|].
  { apply not_elem_of_cons. split; [discriminate|].
    apply not_elem_of_cons. split; [discriminate|apply not_elem_of_nil]. }
  eapply rtc_l; [apply (do_finally x9 1 b); left|].
  eapply rtc_l; [apply (do_finally x10 2 b); left|]. apply rtc_refl.
Qed.

Lemma live_session_of_bound_identity_witness :
  let x := session_opens 0 a (Some (js "s0")) (getSession true (bindIdentity (Some a) initial)).2 in
  liveSessionId x = Some (js "s0") ∧ js "s0" ∉ closed x.
Proof.
  intros x. split; [reflexivity|].
  refine (proj1 (proj1 (live_session_of_bound_identity x _) (js "s0") eq_refl)).
  eapply rtc_l; [exact (do_bind initial (Some a))|].
  eapply rtc_l; [exact (do_get (bindIdentity (Some a) initial) true)|].
  eapply rtc_l; [apply (do_opened (getSession true (bindIdentity (Some a) initial)).2 0 a (js "s0"));
    [left|discriminate|apply not_elem_of_nil]|].
  apply rtc_refl.
Defined.

Lemma callers_share_witness :
  let x := (getSession true (bindIdentity (Some a) initial)).2 in
  (getSession true x).2 = x.
Proof.
  intros x. destruct (callers_share true x (promised 0) x eq_refl) as [[H _]|(d & _ & _ & H & _)].
  - reflexivity.
  - discriminate.
Defined.
