(* ===== verification/Quic.v ===== *)
(** * The transport: src/services/quic.ts

    Which ALPN a request travels on, the identity it carries, its recovery when
    the authenticated session has lost step with the server, and the typed
    results.  The module's state is [transport], beside the session manager of
    QuicSession.v and the target NetworkBootstrap.ts selects; every [async]
    function is a task.  The persistent path ([runOverPersistentSession]) is
    switched off in the source by a constant [false &&] and is left out, as are
    the [__DEV__] log lines. *)

From stdpp Require Import strings.
From S2P Require Import Prelude JsString JsMap Json Codec Async.
From S2P Require QuicSession.

(** ** Methods, options, answers *)

Inductive HttpMethod := GET | POST | PUT | DELETE | PATCH.

#[export] Instance HttpMethod_eq_dec : EqDecision HttpMethod.
Proof. solve_decision. Defined.

Inductive Alpn := public | authenticated.

#[export] Instance Alpn_eq_dec : EqDecision Alpn.
Proof. solve_decision. Defined.

Record RequestOptions := mkOptions {
  o_method : option HttpMethod;
  o_body : option jstr;
  o_headers : jsmap jstr jstr;
  o_timeout : option Z;
  o_host : option jstr;
  o_port : option Z;
  alpnOverride : option Alpn;
}.

(** what is handed to [NativeQuic.request] *)
Record QuicRequestOptions := mkRequest {
  q_method : HttpMethod;
  q_headers : jsmap jstr jstr;
  q_body : option jstr;
  q_alpn : Alpn;
  q_timeout : Z;
}.

(** [sessionIdPrefix] is [None] when it is not a string *)
Record QuicRawResponse := mkResponse {
  status : Z;
  statusText : jstr;
  body : jstr;
  ok : bool;
  sessionIdPrefix : option jstr;
}.

(** what may be thrown: an [Error] with its message, or a [QuicError] with the
    fields its constructor sets; the body is the parsed one, or the text itself *)
Inductive error :=
| Error (message : jstr)
| SyntaxError
| QuicError (e_status : Z) (e_statusText : jstr) (e_code : option json) (e_body : json + jstr).

Definition message (e : error) : jstr :=
  match e with
  | Error m => m
  | SyntaxError => js "JSON Parse error"
  | QuicError s t _ _ => js "QUIC " ++ dec_str s ++ js " " ++ t
  end.

Record Target := mkTarget { t_host : jstr; t_port : Z; t_sni : jstr }.

Record transport := mkTransport {
  clock : Z;                                    (* Date.now() *)
  sessions : QuicSession.manager;
  latestAuthSessionIdPrefix : option jstr;
  activeTarget : Target;
}.

Definition upd_sessions f x := mkTransport (clock x) (f (sessions x)) (latestAuthSessionIdPrefix x) (activeTarget x).
Definition set_prefix p x := mkTransport (clock x) (sessions x) p (activeTarget x).

Inductive req : Set → Type :=
| NativeQuic_request (url : jstr) (q : QuicRequestOptions) : req QuicRawResponse
| NativeQuic_cancelAll : req bool
| NativeQuic_isSupported : req bool
(* the answer is [None] when it is not a string *)
| NativeQuic_getCurrentSessionIdPrefix (identityId : jstr) : req (option jstr)
(* SecureIdentityStorage.getIdentityId *)
| getIdentityId : req (option jstr).

Abbreviation prog := (task transport error req).

#[export] Instance quic_bind : MBind prog := λ A B f t, bind t f.
#[export] Instance quic_ret : MRet prog := λ A a, ret a.

(** a timer, or a promise of another module that is never rejected
    ([bootstrapReady]): the call is suspended and goes on *)
Definition pause : prog unit := await (ret tt).

Definition or_syntax_error {A} (o : option A) : prog A :=
  match o with Some a => ret a | None => throw SyntaxError end.

(** ** Routing *)

Definition PUBLIC_ENDPOINTS : list (HttpMethod * jstr) := [
  (GET, js "/health");
  (GET, js "/api/v1/protocol/health");
  (GET, js "/api/v1/protocol/info");
  (GET, js "/api/v1/blockchain/balance/:address");
  (GET, js "/api/v1/web4/domains/status/:domain");
  (GET, js "/api/v1/identity/username/available/:username");
  (POST, js "/api/v1/identity/recover");
  (POST, js "/api/v1/identity/migrate");
  (POST, js "/api/v1/identity/register");
  (GET, js "/api/v1/blockchain/fee-config");
  (GET, js "/api/v1/chain/info");
  (GET, js "/api/v1/blockchain/status");
  (GET, js "/api/v1/blockchain/tip")].

(** method, path and identity field of a rule *)
Definition MUTATING_IDENTITY_ENDPOINTS : list (HttpMethod * jstr * jstr) := [].

Definition is_slash (c : ascii) : bool := bool_decide (c = "/"%char).

Definition normalizePath (pathname : jstr) : jstr :=
  if negb (truthy pathname) || bool_decide (pathname = js "/") then js "/"
  else drop_while_end is_slash pathname.

(** [normalizePath(p).split('/').filter(Boolean)] *)
Definition segments (p : jstr) : list jstr := List.filter truthy (split_on "/" (normalizePath p)).

(** one segment of the pattern against one of the path *)
Definition segment_matches (p a : jstr) : bool :=
  if startsWith (js ":") p then truthy a else bool_decide (p = a).

Definition matchPath (pattern actual : jstr) : bool :=
  let pSegs := segments pattern in
  let aSegs := segments actual in
  if negb (length pSegs =? length aSegs)%nat then false
  else forallb (λ pa, segment_matches pa.1 pa.2) (combine pSegs aSegs).

(** [toUpperCase] leaves the methods as they are *)
Definition isPublicEndpoint (method : HttpMethod) (path : jstr) : bool :=
  existsb (λ e, bool_decide (e.1 = method) && matchPath e.2 (normalizePath path)) PUBLIC_ENDPOINTS.

(** ** Identity *)

Definition DID_PREFIX : jstr := js "did:zhtp:".

Definition isIdentityRegisterPath (method : HttpMethod) (path : jstr) : bool :=
  bool_decide (method = POST) && bool_decide (normalizePath path = js "/api/v1/identity/register").

Definition normalizeIdentityId (value : jstr) : jstr :=
  if startsWith DID_PREFIX value then drop (length DID_PREFIX) value else value.

Definition toDid (value : jstr) : jstr :=
  if startsWith DID_PREFIX value then value else DID_PREFIX ++ value.

Definition deriveIdentityIdFromBody (body : option jstr) : option jstr :=
  match body with
  | Some b =>
      if truthy b then
        match json_parse b with
        | Some v =>
            match jfield (js "did") as_str v with
            | Some d => if truthy d then Some (normalizeIdentityId d) else None
            | None => None
            end
        | None => None
        end
      else None
  | None => None
  end.

(** [None] is a throw: the body is not JSON, or has no properties to set *)
Definition set_field (field : jstr) (identityId : jstr) (v : json) : option json :=
  match v with
  | JObj l => Some (JObj (mset field (JStr identityId) l))
  | JArr l => Some (JArr l)
  | _ => None
  end.

Definition populateIdentityFields (body : option jstr) (path : jstr) (method : HttpMethod) (identityId : jstr)
    : option (option jstr) :=
  match body with
  | None => Some None
  | Some b =>
      if negb (truthy b) || bool_decide (method = GET) then Some body
      else
        let p := normalizePath path in
        match List.find (λ e : HttpMethod * jstr * jstr,
                 bool_decide (e.1.1 = method) && bool_decide (normalizePath e.1.2 = p))
                MUTATING_IDENTITY_ENDPOINTS with
        | None => Some body
        | Some (_, _, field) =>
            parsed ← json_parse b; v ← set_field field identityId parsed; Some (Some (stringify v))
        end
  end.

(** ** Recovery of the session *)

(** the four expressions, each matched without regard to case; the last one has
    three alternatives *)
Definition SESSION_DESYNC_PATTERNS : list jstr := [
  js "invalid counter"; js "possible replay"; js "not enough bytes for length header";
  js "session not found"; js "session expired"; js "session mismatch"].

Definition matchesSessionDesync (text : jstr) : bool :=
  existsb (λ p, includes p (toLowerCase text)) SESSION_DESYNC_PATTERNS.

(** [/^[0-9a-fA-F]{16}$/] *)
Definition is_prefix16 (s : jstr) : bool := (length s =? 16)%nat && forallb is_hex s.

Section Transport.

(** the native module, and the two methods the code tests for *)
Context (NativeQuic has_cancelAll has_getCurrentSessionIdPrefix : bool).
(** the generated configuration *)
Context (DEFAULT_NODE_HOST : jstr) (DEFAULT_NODE_PORT : Z).

Definition defaultTimeout : Z := 30.

Definition resetAuthSession : prog unit :=
  modify (upd_sessions QuicSession.dropSession);;
  if negb (NativeQuic && has_cancelAll) then ret tt
  else
    try_catch (call NativeQuic_cancelAll;; ret tt) (λ _, ret tt);;
    modify (set_prefix None);;
    pause.

(** [left] attempts remain, this one included *)
Fixpoint attempts_left (left : nat) (url : jstr) (q : QuicRequestOptions) (alpn : Alpn) : prog QuicRawResponse :=
  match left with
  | O => throw (Error (js "QUIC request exhausted retry attempts"))
  | S more =>
      bindR (call (NativeQuic_request url q)) (λ r,
        match r with
        | inl err =>
            let retryable := bool_decide (alpn = authenticated) && matchesSessionDesync (message err) in
            if negb retryable || (more =? 0)%nat then throw err
            else await resetAuthSession;; attempts_left more url q alpn
        | inr current =>
            let shouldRetry401 := bool_decide (alpn = authenticated) && (status current =? 401)
                                  && matchesSessionDesync (body current) && (0 <? more)%nat in
            if shouldRetry401 then await resetAuthSession;; attempts_left more url q alpn
            else ret current
        end)
  end.

Definition runWithSessionRecovery (url : jstr) (q : QuicRequestOptions) (alpn : Alpn) (maxAttempts : nat)
    : prog QuicRawResponse := attempts_left maxAttempts url q alpn.

(** ** One request *)

Definition MAX_ATTEMPTS : nat := 3.

Definition alpn_of (method : HttpMethod) (path : jstr) (o : RequestOptions) : Alpn :=
  match alpnOverride o with
  | Some a => a
  | None => if isPublicEndpoint method path then public else authenticated
  end.

(** the identity of an authenticated request, from what the storage holds *)
Definition identity_for (method : HttpMethod) (path : jstr) (body stored : option jstr) : option jstr :=
  let held := match stored with Some i => if truthy i then Some i else None | None => None end in
  let found := match held with
               | Some i => Some i
               | None => if isIdentityRegisterPath method path then deriveIdentityIdFromBody body else None
               end in
  match found with Some i => if truthy i then Some i else None | None => None end.

Definition IDENTITY_HEADER : jstr := js "X-Zhtp-Identity".
Definition SNI_HEADER : jstr := js "x-zhtp-sni".

Definition dial_host (o : RequestOptions) (active : Target) : jstr :=
  default (str_or (t_host active) DEFAULT_NODE_HOST) (o_host o).
Definition dial_port (o : RequestOptions) (active : Target) : Z :=
  default (if t_port active =? 0 then DEFAULT_NODE_PORT else t_port active) (o_port o).

Definition inject_sni (o : RequestOptions) (active : Target) (headers : jsmap jstr jstr) : jsmap jstr jstr :=
  if bool_decide (o_host o = None) && truthy (t_sni active)
     && negb (bool_decide (t_sni active = dial_host o active))
     && bool_decide (mget SNI_HEADER headers = None)
     && bool_decide (mget (js "X-Zhtp-Sni") headers = None)
  then mset SNI_HEADER (t_sni active) headers else headers.

Definition request_url (o : RequestOptions) (active : Target) (path : jstr) : jstr :=
  js "quic://" ++ dial_host o active ++ js ":" ++ dec_str (dial_port o active) ++ path.

(** the part of [rawRequest] that follows the identity: target, SNI, attempts,
    and the session id the answer may carry *)
Definition send_request (path : jstr) (o : RequestOptions) (method : HttpMethod) (alpn : Alpn)
    (headers : jsmap jstr jstr) (body : option jstr) : prog QuicRawResponse :=
  active ← gets activeTarget;
  response ← await (runWithSessionRecovery (request_url o active path)
    (mkRequest method (inject_sni o active headers) body alpn (default defaultTimeout (o_timeout o)))
    alpn MAX_ATTEMPTS);
  (match alpn, sessionIdPrefix response with
   | authenticated, Some sid =>
       if is_prefix16 sid then modify (set_prefix (Some (toLowerCase sid))) else ret tt
   | _, _ => ret tt
   end);;
  ret response.

Definition rawRequest (path : jstr) (o : RequestOptions) : prog QuicRawResponse :=
  if negb NativeQuic then throw (Error (js "NativeQuic module not available"))
  else
    pause;;
    let method := default GET (o_method o) in
    let alpn := alpn_of method path o in
    if bool_decide (alpn = authenticated) then
      stored ← call getIdentityId;
      match identity_for method path (o_body o) stored with
      | None => throw (Error (js "Missing identity for authenticated request"))
      | Some identityId =>
          b ← or_syntax_error (populateIdentityFields (o_body o) path method identityId);
          send_request path o method alpn
            (mset IDENTITY_HEADER (normalizeIdentityId identityId) (o_headers o)) b
      end
    else send_request path o method alpn (o_headers o) (o_body o).

(** ** Typed requests *)

(** [JSON.parse(response.body)], or the text when it is not JSON, and [?.code] *)
Definition error_of (response : QuicRawResponse) : error :=
  match json_parse (body response) with
  | Some v => QuicError (status response) (statusText response) (jfield (js "code") Some v) (inl v)
  | None => QuicError (status response) (statusText response) None (inr (body response))
  end.

Definition typed (response : QuicRawResponse) : prog json :=
  if negb (ok response) then throw (error_of response)
  else or_syntax_error (json_parse (body response)).

Definition quicRequest (path : jstr) (o : RequestOptions) : prog json :=
  response ← await (rawRequest path o); typed response.

Definition publicQuicRequest (path : jstr) (o : RequestOptions) : prog json :=
  response ← await (rawRequest path (mkOptions (o_method o) (o_body o) (o_headers o) (o_timeout o)
    (o_host o) (o_port o) (Some public)));
  typed response.

Definition quicRequestRaw (path : jstr) (o : RequestOptions) : prog QuicRawResponse := rawRequest path o.

(** ** The session id prefix *)

(** [encodeURIComponent] *)
Definition uri_unreserved (c : ascii) : bool :=
  is_word c || bool_decide (c ∈ js "-.!~*'()").
Definition upper_hex_char (d : Z) : ascii := if d <? 10 then chr (48 + d) else chr (55 + d).
Definition percent (b : Z) : jstr := ["%"%char; upper_hex_char (b / 16); upper_hex_char (b mod 16)].
Definition encodeURIComponent (s : jstr) : jstr :=
  flat_map (λ c, if uri_unreserved c then [c] else flat_map percent (utf8_encode [c])) s.

Definition no_options : RequestOptions := mkOptions None None [] None None None None.

Definition refresh_prefix (identityId : jstr) : prog unit :=
  modify (set_prefix None);;
  try_catch
    (await (rawRequest (js "/api/v1/pouw/rewards/" ++ encodeURIComponent (toDid (normalizeIdentityId identityId)))
       (mkOptions (Some GET) None [] None None None (Some authenticated)));;
     pause)
    (λ _, ret tt).

Definition getCurrentAuthSessionIdPrefix (forceRefresh : bool) : prog (option jstr) :=
  latest ← gets latestAuthSessionIdPrefix;
  if negb forceRefresh && (match latest with Some p => truthy p | None => false end) then ret latest
  else if negb (NativeQuic && has_getCurrentSessionIdPrefix) then ret None
  else
    identityId ← call getIdentityId;
    match identityId with
    | None => ret None
    | Some i =>
        if negb (truthy i) then ret None
        else
          (if (forceRefresh : bool) then refresh_prefix i else ret tt);;
          try_catch
            (sid ← call (NativeQuic_getCurrentSessionIdPrefix i);
             match sid with
             | Some s => if is_prefix16 s then
                           modify (set_prefix (Some (toLowerCase s)));; gets latestAuthSessionIdPrefix
                         else ret None
             | None => ret None
             end)
            (λ _, ret None)
    end.

(** ** Connectivity helpers *)

Definition isQuicSupported : prog bool :=
  if negb NativeQuic then ret false else try_catch (call NativeQuic_isSupported) (λ _, ret false).

Definition cancelAllQuicConnections : prog bool :=
  if negb NativeQuic then ret false else call NativeQuic_cancelAll.

End Transport.

(** * Lemmas *)

(** ** Routing *)

Lemma is_slash_spec c : is_slash c = true ↔ c = "/"%char.
Proof. unfold is_slash. apply bool_decide_eq_true. Qed.

Lemma split_on_snoc s : split_on "/" (s ++ ["/"%char]) = split_on "/" s ++ [[]].
Proof.
  induction s as [|c s IH]; [done|]. simpl. rewrite IH.
  destruct (split_on "/" s) as [|x l] eqn:E; [by apply split_on_nonempty in E|].
  simpl. by destruct (bool_decide (c = "/"%char)).
Qed.

Lemma split_on_slashes s z :
  Forall (λ c, is_slash c = true) z →
  List.filter truthy (split_on "/" (s ++ z)) = List.filter truthy (split_on "/" s).
Proof.
  induction z as [|c z IH] using rev_ind; [by rewrite app_nil_r|].
  intros [Hz [Hc%is_slash_spec _]%list.Forall_cons]%Forall_app. subst c.
  rewrite app_assoc, (split_on_snoc (s ++ z)), List.filter_app. simpl. rewrite app_nil_r. auto.
Qed.

(** Slashes at the end change nothing, repeated ones neither. *)
Lemma segments_split p : segments p = List.filter truthy (split_on "/" p).
Proof.
  unfold segments, normalizePath. destruct (negb (truthy p) || bool_decide (p = js "/")) eqn:E.
  - destruct p as [|c p]; [done|]. simpl in E. apply bool_decide_eq_true in E as ->. done.
  - destruct (drop_while_end_split is_slash p) as (z & Ez & Hz). rewrite Ez at 2.
    by rewrite split_on_slashes.
Qed.

Lemma segments_normalize p : segments (normalizePath p) = segments p.
Proof. by rewrite segments_split. Qed.

Lemma matchPath_spec pat p :
  matchPath pat p = true ↔ Forall2 (λ x a, segment_matches x a = true) (segments pat) (segments p).
Proof.
  unfold matchPath. generalize (segments pat) (segments p). intros l.
  induction l as [|x l IH]; intros [|a k]; simpl; try (split; [done|by inversion 1]).
  specialize (IH k). destruct (length l =? length k)%nat; simpl in *.
  - rewrite andb_true_iff, IH. split; [intros []; by constructor|by inversion 1].
  - split; [done|]. inversion 1; subst. by apply IH.
Qed.

Lemma match_literals l k :
  forallb (λ x, negb (startsWith (js ":") x)) l = true →
  Forall2 (λ x a, segment_matches x a = true) l k ↔ k = l.
Proof.
  revert k. induction l as [|x l IH]; intros k H; [split; [by inversion 1|intros ->; constructor]|].
  simpl in H. apply andb_true_iff in H as [Hx Hl]. apply negb_true_iff in Hx. split.
  - inversion 1 as [|? a ? k' Ha Hk]; subst. unfold segment_matches in Ha. rewrite Hx in Ha.
    apply bool_decide_eq_true in Ha as <-. f_equal. by apply IH.
  - intros ->. constructor; [|by apply IH]. unfold segment_matches. by rewrite Hx, bool_decide_eq_true_2.
Qed.

Lemma match_last l v k :
  forallb (λ x, negb (startsWith (js ":") x)) l = true → startsWith (js ":") v = true →
  Forall2 (λ x a, segment_matches x a = true) (l ++ [v]) k ↔ ∃ a, truthy a = true ∧ k = l ++ [a].
Proof.
  intros Hl Hv. split.
  - intros (k1 & k2 & H1 & H2 & ->)%Forall2_app_inv_l. apply match_literals in H1 as ->; [|done].
    inversion H2 as [|? a ? k3 Ha Hk]; subst. inversion Hk; subst. unfold segment_matches in Ha. rewrite Hv in Ha.
    by exists a.
  - intros (a & Ha & ->). apply Forall2_app; [by apply match_literals|]. constructor; [|constructor].
    unfold segment_matches. by rewrite Hv.
Qed.

Lemma rule_literal (m : HttpMethod) pat l method path :
  segments pat = l → forallb (λ x, negb (startsWith (js ":") x)) l = true →
  bool_decide (m = method) && matchPath pat (normalizePath path) = true ↔ (method, segments path) = (m, l).
Proof.
  intros E Hl. rewrite andb_true_iff, bool_decide_eq_true, matchPath_spec, segments_normalize, E.
  rewrite match_literals by done. split; [by intros [-> ->]|by intros [= -> ->]].
Qed.

Lemma rule_parameter (m : HttpMethod) pat l v method path :
  segments pat = l ++ [v] → forallb (λ x, negb (startsWith (js ":") x)) l = true →
  startsWith (js ":") v = true →
  bool_decide (m = method) && matchPath pat (normalizePath path) = true ↔
  ∃ a, truthy a = true ∧ (method, segments path) = (m, l ++ [a]).
Proof.
  intros E Hl Hv. rewrite andb_true_iff, bool_decide_eq_true, matchPath_spec, segments_normalize, E.
  rewrite match_last by done. split; [intros [-> (a & Ha & ->)]; eauto|].
  intros (a & Ha & [= -> ->]). eauto.
Qed.

(** the routes that need no identity, for a value [a] of their parameter *)
Definition public_routes (a : jstr) : list (HttpMethod * list jstr) :=
  let v1 l := js "api" :: js "v1" :: l in [
  (GET, [js "health"]);
  (GET, v1 [js "protocol"; js "health"]);
  (GET, v1 [js "protocol"; js "info"]);
  (GET, v1 [js "blockchain"; js "balance"; a]);
  (GET, v1 [js "web4"; js "domains"; js "status"; a]);
  (GET, v1 [js "identity"; js "username"; js "available"; a]);
  (POST, v1 [js "identity"; js "recover"]);
  (POST, v1 [js "identity"; js "migrate"]);
  (POST, v1 [js "identity"; js "register"]);
  (GET, v1 [js "blockchain"; js "fee-config"]);
  (GET, v1 [js "chain"; js "info"]);
  (GET, v1 [js "blockchain"; js "status"]);
  (GET, v1 [js "blockchain"; js "tip"])].

(** * Properties *)

(** an atom of a right-nested disjunction that an assumption proves *)
Ltac pick_disjunct :=
  first [exact I | assumption | eexists; split; eassumption | left; pick_disjunct | right; pick_disjunct].

(** Default deny: a request without an override goes out unauthenticated
    exactly when its method and the non-empty segments of its path are one of
    thirteen public routes, the parameter of a route being any one non-empty
    segment. *)
Fact public_exactly_on_table method path o :
  alpnOverride o = None →
  (alpn_of method path o = public ↔ ∃ a, truthy a = true ∧ (method, segments path) ∈ public_routes a).
Proof.
  intros Ho. unfold alpn_of. rewrite Ho.
  transitivity (isPublicEndpoint method path = true); [by destruct (isPublicEndpoint _ _)|].
  unfold isPublicEndpoint, PUBLIC_ENDPOINTS, public_routes.
  cbn [existsb fst snd]. rewrite !orb_true_iff.
  repeat match goal with
  | |- context [bool_decide (?m = method) && matchPath ?pat (normalizePath path) = true] =>
      let l := eval vm_compute in (segments pat) in
      first [rewrite (rule_literal m pat l) by reflexivity
            |let i := eval vm_compute in (removelast l) in let v := eval vm_compute in (List.last l []) in
             rewrite (rule_parameter m pat i v) by reflexivity]
  end.
  generalize (method, segments path). clear. intros x. setoid_rewrite list_elem_of_In. split.
  - intros H. repeat (destruct H as [H|H]); try done;
      first [destruct H as (a & Ha & H); exists a|exists (js "x")]; (split; [done|]); rewrite H; vm_compute; tauto.
  - intros (a & Ha & H). vm_compute in H.
    repeat (destruct H as [H|H]); try done; symmetry in H; pick_disjunct.
Qed.

(** ** What one call shows *)

(** a request handed to the native module, with its answer; the answer of the
    identity storage; a cancellation of the pooled sessions *)
Inductive event :=
| Sent (url : jstr) (q : QuicRequestOptions) (answer : error + QuicRawResponse)
| Held (stored : error + option jstr)
| Cancelled.

Definition shown (R : Set) (c : req R) : error + R → list event :=
  match c in req R return error + R → list event with
  | NativeQuic_request url q => λ a, [Sent url q a]
  | getIdentityId => λ a, [Held a]
  | NativeQuic_cancelAll => λ _, [Cancelled]
  | _ => λ _, []
  end.

Abbreviation traced t tr r := (trace shown t tr r).

(** the answers that call for another attempt *)
Definition desynced (alpn : Alpn) (answer : error + QuicRawResponse) : bool :=
  bool_decide (alpn = authenticated) &&
  match answer with
  | inl e => matchesSessionDesync (message e)
  | inr r => (status r =? 401) && matchesSessionDesync (body r)
  end.

Section Traces.
Context (NativeQuic has_cancelAll has_getCurrentSessionIdPrefix : bool).
Context (DEFAULT_NODE_HOST : jstr) (DEFAULT_NODE_PORT : Z).

Definition reset_events : list event := if NativeQuic && has_cancelAll then [Cancelled] else [].

Definition attempt_events (url : jstr) (q : QuicRequestOptions) (failed : list (error + QuicRawResponse))
    (answer : error + QuicRawResponse) : list event :=
  flat_map (λ a, Sent url q a :: reset_events) failed ++ [Sent url q answer].

Lemma trace_reset tr r :
  traced (resetAuthSession NativeQuic has_cancelAll) tr r ↔ tr = reset_events ∧ r = inr tt.
Proof.
  unfold resetAuthSession, reset_events. destruct (NativeQuic && has_cancelAll); simpl.
  - split.
    + intros (_ & a & tr' & -> & H). by destruct a; destruct H as (_ & -> & ->).
    + intros [-> ->]. exists (mkTransport 0 QuicSession.initial None (mkTarget [] 0 [])), (inr true), []. simpl.
      split; [done|]. by exists (mkTransport 0 QuicSession.initial None (mkTarget [] 0 [])).
  - split; [by intros (_ & -> & ->)|]. intros [-> ->].
    by exists (mkTransport 0 QuicSession.initial None (mkTarget [] 0 [])).
Qed.

Lemma trace_retry (t : prog QuicRawResponse) tr r :
  traced (await (resetAuthSession NativeQuic has_cancelAll);; t) tr r ↔
  ∃ tr', tr = reset_events ++ tr' ∧ traced t tr' r.
Proof.
  unfold mbind, quic_bind. rewrite trace_bind. setoid_rewrite trace_await. setoid_rewrite trace_reset. split.
  - intros [(e & [_ ?] & _)|(a & tr1 & tr2 & -> & [-> _] & H)]; [done|eauto].
  - intros (tr' & -> & H). right. by exists tt, reset_events, tr'.
Qed.

Lemma trace_attempt more url q alpn tr r :
  traced (attempts_left NativeQuic has_cancelAll (S more) url q alpn) tr r ↔
  ∃ a tr', tr = Sent url q a :: tr' ∧
    if desynced alpn a && (0 <? more)%nat
    then ∃ tr2, tr' = reset_events ++ tr2 ∧
           traced (attempts_left NativeQuic has_cancelAll more url q alpn) tr2 r
    else tr' = [] ∧ r = a.
Proof.
  cbn [attempts_left]. rewrite trace_bindR. setoid_rewrite trace_call. split.
  - intros (a & tr1 & tr2 & -> & -> & H). exists a, tr2. split; [done|].
    destruct a as [e|c]; unfold desynced.
    + destruct (bool_decide _ && matchesSessionDesync _), more as [|more]; simpl in *; try done.
      by apply trace_retry in H.
    + rewrite andb_assoc.
      destruct (bool_decide _ && _ && matchesSessionDesync _), more as [|more]; simpl in *; try done.
      by apply trace_retry in H.
  - intros (a & tr' & -> & H). exists a, [Sent url q a], tr'. split; [done|]. split; [done|].
    destruct a as [e|c]; unfold desynced in H.
    + destruct (bool_decide _ && matchesSessionDesync _), more as [|more]; simpl in *; try done.
      by apply trace_retry.
    + rewrite andb_assoc in H.
      destruct (bool_decide _ && _ && matchesSessionDesync _), more as [|more]; simpl in *; try done.
      by apply trace_retry.
Qed.

Lemma trace_attempts more url q alpn tr r :
  traced (attempts_left NativeQuic has_cancelAll (S more) url q alpn) tr r ↔
  ∃ failed, tr = attempt_events url q failed r ∧ Forall (λ a, desynced alpn a = true) failed ∧
    (length failed ≤ more)%nat ∧ (desynced alpn r = true → length failed = more).
Proof.
  revert tr. induction more as [|more IH]; intros tr; rewrite trace_attempt.
  - setoid_rewrite andb_false_r. split.
    + intros (a & tr' & -> & -> & ->). exists []. by repeat split.
    + intros ([|] & -> & _ & Hl & _); [|simpl in Hl; lia]. by exists r, [].
  - split.
    + intros (a & tr' & -> & H). destruct (desynced alpn a) eqn:Ed; simpl in H.
      * destruct H as (tr2 & -> & (failed & -> & Hf & Hl & Hr)%IH). exists (a :: failed).
        unfold attempt_events. simpl. rewrite <-!app_assoc. split; [done|]. split; [by constructor|].
        split; [lia|]. intros H. by rewrite Hr.
      * destruct H as [-> ->]. exists []. repeat split; [constructor|simpl; lia|congruence].
    + intros ([|a failed] & -> & Hf & Hl & Hr).
      * exists r, []. split; [done|]. destruct (desynced alpn r); [|done]. by specialize (Hr eq_refl).
      * apply list.Forall_cons in Hf as [Ha Hf]. exists a, (reset_events ++ attempt_events url q failed r).
        unfold attempt_events. simpl. rewrite <-!app_assoc. split; [done|]. rewrite Ha. simpl.
        exists (attempt_events url q failed r). split; [done|]. apply IH. exists failed. simpl in *.
        repeat split; [done|lia|]. intros H. specialize (Hr H). lia.
Qed.

(** C6: recovery is bounded and transparent: a request is attempted again exactly
    when it is authenticated, its answer is an error or a 401 that names a lost
    session, and attempts remain; before each new attempt the pooled sessions
    are cancelled, all attempts are the same request, there are at most
    [maxAttempts], and the caller gets the answer of the last one. *)
Theorem recovery_is_transparent url q alpn maxAttempts tr r :
  (1 ≤ maxAttempts)%nat →
  traced (runWithSessionRecovery NativeQuic has_cancelAll url q alpn maxAttempts) tr r ↔
  ∃ failed, tr = attempt_events url q failed r ∧ Forall (λ a, desynced alpn a = true) failed ∧
    (length failed < maxAttempts)%nat ∧ (desynced alpn r = true → length failed = maxAttempts - 1)%nat.
Proof.
  intros Hm. destruct maxAttempts as [|more]; [lia|]. unfold runWithSessionRecovery. rewrite trace_attempts.
  by replace (S more - 1)%nat with more by lia; setoid_rewrite Nat.lt_succ_r.
Qed.

(** ** A whole request *)

Lemma populate_unchanged body path method i : populateIdentityFields body path method i = Some body.
Proof. unfold populateIdentityFields. destruct body as [b|]; [|done]. by destruct (_ || _). Qed.

Definition the_request (o : RequestOptions) (active : Target) (method : HttpMethod) (alpn : Alpn)
    (headers : jsmap jstr jstr) : QuicRequestOptions :=
  mkRequest method (inject_sni DEFAULT_NODE_HOST o active headers) (o_body o) alpn
    (default defaultTimeout (o_timeout o)).

Lemma trace_send path o method alpn headers tr r :
  traced (send_request NativeQuic has_cancelAll DEFAULT_NODE_HOST DEFAULT_NODE_PORT path o method alpn headers
    (o_body o)) tr r →
  ∃ active failed, tr = attempt_events (request_url DEFAULT_NODE_HOST DEFAULT_NODE_PORT o active path)
      (the_request o active method alpn headers) failed r ∧ (length failed < MAX_ATTEMPTS)%nat.
Proof.
  unfold send_request, mbind, quic_bind. rewrite trace_bind.
  intros [(e & (s & _ & [=])%trace_gets & _)|(active & tr1 & tr2 & -> & (s & -> & [= ->])%trace_gets & H)].
  rewrite trace_bind in H. setoid_rewrite trace_await in H.
  exists (activeTarget s). simpl. destruct H as [(e & H & ->)|(resp & tr1 & tr3 & -> & H & Hk)].
  - apply trace_attempts in H as (failed & -> & _ & Hl & _). exists failed. split; [done|]. unfold MAX_ATTEMPTS. lia.
  - apply trace_attempts in H as (failed & -> & _ & Hl & _). exists failed.
    assert (tr3 = [] ∧ r = inr resp) as [-> ->].
    { rewrite trace_bind in Hk. destruct Hk as [(e & Hm & _)|(u & tr1 & tr2 & -> & Hm & [-> ->])].
      - destruct alpn, (sessionIdPrefix resp) as [sid|]; try (by destruct Hm).
        destruct (is_prefix16 sid); [by apply trace_modify in Hm as [_ ?]|by destruct Hm].
      - rewrite app_nil_r. split; [|done]. destruct alpn, (sessionIdPrefix resp) as [sid|]; try (by destruct Hm).
        destruct (is_prefix16 sid); [by apply trace_modify in Hm as [-> _]|by destruct Hm]. }
    rewrite app_nil_r. split; [done|]. unfold MAX_ATTEMPTS. lia.
Qed.

Lemma trace_raw path o tr r :
  NativeQuic = true →
  let method := default GET (o_method o) in
  let alpn := alpn_of method path o in
  let sends headers tr := ∃ active failed,
    tr = attempt_events (request_url DEFAULT_NODE_HOST DEFAULT_NODE_PORT o active path)
      (the_request o active method alpn headers) failed r ∧ (length failed < MAX_ATTEMPTS)%nat in
  traced (rawRequest NativeQuic has_cancelAll DEFAULT_NODE_HOST DEFAULT_NODE_PORT path o) tr r →
  if bool_decide (alpn = authenticated) then
    ∃ stored tr', tr = Held stored :: tr' ∧
      match stored with
      | inl e => tr' = [] ∧ r = inl e
      | inr st =>
          match identity_for method path (o_body o) st with
          | None => tr' = [] ∧ r = inl (Error (js "Missing identity for authenticated request"))
          | Some i => sends (mset IDENTITY_HEADER (normalizeIdentityId i) (o_headers o)) tr'
          end
      end
  else sends (o_headers o) tr.
Proof.
  intros Hn method alpn sends H. apply (f_equal negb) in Hn. simpl in Hn.
  unfold rawRequest, mbind, quic_bind in H. rewrite Hn in H. cbv zeta iota in H.
  fold method in H. fold alpn in H. clearbody alpn.
  rewrite trace_bind in H. destruct H as [(e & [_ [=]] & _)|(u & tr0 & tr1 & -> & [-> _] & H)].
  cbn [app]. revert H. destruct (bool_decide (alpn = authenticated)); intros H; [|by apply trace_send in H].
  rewrite trace_bind in H. destruct H as [(e & Hc%trace_call & ->)|(st & tr2 & tr3 & -> & Hc%trace_call & H)].
  { by exists (inl e), []. }
  subst tr2. exists (inr st), tr3. split; [done|].
  revert H. destruct (identity_for method path (o_body o) st) as [i|]; intros H; [|done].
  rewrite populate_unchanged, trace_bind in H.
  destruct H as [(e & [_ [=]] & _)|(b & tr4 & tr5 & -> & [-> [= ->]] & H)].
  by apply trace_send in H.
Qed.

Lemma sent_attempt url q url' q' failed a a' :
  Sent url' q' a' ∈ attempt_events url q failed a → url' = url ∧ q' = q.
Proof.
  unfold attempt_events. rewrite elem_of_app, list_elem_of_singleton, list_elem_of_In, in_flat_map.
  intros [(b & _ & [[= <- <- <-]|H])|[= -> -> ->]]; [done| |done].
  unfold reset_events in H. by destruct (NativeQuic && has_cancelAll); [destruct H|].
Qed.

Lemma held_attempt url q failed a h : Held h ∉ attempt_events url q failed a.
Proof.
  unfold attempt_events. rewrite elem_of_app, list_elem_of_singleton, list_elem_of_In, in_flat_map.
  intros [(b & _ & [[=]|H])|[=]].
  unfold reset_events in H. by destruct (NativeQuic && has_cancelAll); [destruct H|].
Qed.

Lemma inject_sni_other o active headers k :
  k ≠ SNI_HEADER → mget k (inject_sni DEFAULT_NODE_HOST o active headers) = mget k headers.
Proof. intros H. unfold inject_sni. destruct (_ && _); [|done]. by rewrite mget_set_ne. Qed.

Lemma identity_for_held method path body st i :
  identity_for method path body st = Some i →
  truthy i = true ∧
  (st = Some i ∨ isIdentityRegisterPath method path = true ∧ deriveIdentityIdFromBody body = Some i).
Proof.
  unfold identity_for. destruct st as [j|]; simpl.
  - destruct (truthy j) eqn:Ej; simpl; [rewrite Ej; intros [= ->]; eauto|].
    destruct (isIdentityRegisterPath _ _); [|done].
    destruct (deriveIdentityIdFromBody body) as [d|]; [|done]. destruct (truthy d) eqn:Ed; [|done].
    intros [= ->]; eauto.
  - destruct (isIdentityRegisterPath _ _); [|done].
    destruct (deriveIdentityIdFromBody body) as [d|]; [|done]. destruct (truthy d) eqn:Ed; [|done].
    intros [= ->]; eauto.
Qed.

(** C23: what leaves the device: every request handed to the native layer, the
    retries among them, has the caller's method and body and the ALPN of its
    route; an authenticated one carries in X-Zhtp-Identity the stored identity
    without its did:zhtp: prefix, or on the registration route that of the body,
    whatever header the caller set; an unauthenticated one carries the caller's
    headers only, the SNI hint apart, and the identity is not even read. *)
Theorem requests_carry_identity path o tr r url q a :
  NativeQuic = true →
  traced (rawRequest NativeQuic has_cancelAll DEFAULT_NODE_HOST DEFAULT_NODE_PORT path o) tr r →
  Sent url q a ∈ tr →
  let method := default GET (o_method o) in
  q_method q = method ∧ q_body q = o_body o ∧ q_alpn q = alpn_of method path o ∧
  (∀ k, k ≠ SNI_HEADER → k ≠ IDENTITY_HEADER → mget k (q_headers q) = mget k (o_headers o)) ∧
  match q_alpn q with
  | authenticated => ∃ i, truthy i = true ∧ mget IDENTITY_HEADER (q_headers q) = Some (normalizeIdentityId i) ∧
      (Held (inr (Some i)) ∈ tr ∨
       isIdentityRegisterPath method path = true ∧ deriveIdentityIdFromBody (o_body o) = Some i)
  | public => mget IDENTITY_HEADER (q_headers q) = mget IDENTITY_HEADER (o_headers o) ∧ ∀ h, Held h ∉ tr
  end.
Proof.
  intros Hn H Hs method. apply trace_raw in H; [|done]. fold method in H.
  destruct (alpn_of method path o) eqn:Ea; simpl in H.
  - destruct H as (active & failed & -> & _). destruct (sent_attempt _ _ _ _ _ _ _ Hs) as [-> ->]. simpl.
    repeat split; [intros k Hk _; by apply inject_sni_other|by apply inject_sni_other|apply held_attempt].
  - destruct H as (st & tr' & -> & H). apply list_elem_of_In in Hs as [?|Hs%list_elem_of_In]; [done|].
    destruct st as [e|st]; [destruct H as [-> _]; by apply elem_of_nil in Hs|].
    destruct (identity_for method path (o_body o) st) as [i|] eqn:Ei; [|destruct H as [-> _]; by apply elem_of_nil in Hs].
    destruct H as (active & failed & -> & _). destruct (sent_attempt _ _ _ _ _ _ _ Hs) as [-> ->]. simpl.
    repeat split.
    + intros k Hk Hi. rewrite inject_sni_other by done. by apply mget_set_ne.
    + destruct (identity_for_held _ _ _ _ _ Ei) as [Ht Hi]. exists i. split; [done|]. split.
      * rewrite inject_sni_other by done. apply mget_set_eq.
      * destruct Hi as [->|Hi]; [left; left|by right].
Qed.

(** no request was handed out: what was thrown instead *)
Definition refused (tr : list event) (e : error) : Prop :=
  (∀ url q a, Sent url q a ∉ tr) ∧
  (e = Error (js "NativeQuic module not available") ∨
   e = Error (js "Missing identity for authenticated request") ∨ Held (inl e) ∈ tr).

Lemma raw_outcome path o tr r :
  traced (rawRequest NativeQuic has_cancelAll DEFAULT_NODE_HOST DEFAULT_NODE_PORT path o) tr r →
  (∃ url q pre, tr = pre ++ [Sent url q r]) ∨ (∃ e, r = inl e ∧ refused tr e).
Proof.
  intros H. destruct NativeQuic eqn:Hn.
  2:{ right. destruct H as [-> ->]. eexists. split; [done|]. split; [intros ???; apply not_elem_of_nil|by left]. }
  rewrite <-Hn in H. apply trace_raw in H; [|done]. destruct (bool_decide _).
  - destruct H as (st & tr' & -> & H). destruct st as [e|st].
    + destruct H as [-> ->]. right. exists e. split; [done|]. split; [|right; right; left].
      by intros url q a ?%list_elem_of_singleton.
    + destruct (identity_for _ _ _ _) as [i|].
      * destruct H as (active & failed & -> & _). left. unfold attempt_events. rewrite app_comm_cons. by eexists _, _, _.
      * destruct H as [-> ->]. right. eexists. split; [done|]. split; [|right; by left].
        by intros url q a ?%list_elem_of_singleton.
  - destruct H as (active & failed & -> & _). left. by eexists _, _, _.
Qed.

(** A typed request ends in exactly one of four ways: with the parsed body of
    the last answer, which was ok; with a QuicError that carries the status of
    the last answer, its body as JSON with the code it holds, or as text when it
    is not JSON; with a SyntaxError for an ok answer that is not JSON; with the
    error of the transport itself. When nothing was sent, the module or the
    identity was missing. *)
Fact typed_results path o tr r :
  traced (quicRequest NativeQuic has_cancelAll DEFAULT_NODE_HOST DEFAULT_NODE_PORT path o) tr r →
  (∃ url q pre resp, tr = pre ++ [Sent url q (inr resp)] ∧
    match json_parse (body resp), r with
    | Some v, inr v' => ok resp = true ∧ v' = v
    | parsed, inl (QuicError s t c b) =>
        ok resp = false ∧ s = status resp ∧ t = statusText resp ∧
        match parsed with
        | Some v => b = inl v ∧ c = jfield (js "code") Some v
        | None => b = inr (body resp) ∧ c = None
        end
    | None, inl SyntaxError => ok resp = true
    | _, _ => False
    end) ∨
  (∃ e, r = inl e ∧ ((∃ url q pre, tr = pre ++ [Sent url q (inl e)]) ∨ refused tr e)).
Proof.
  unfold quicRequest, mbind, quic_bind. rewrite trace_bind. setoid_rewrite trace_await.
  intros [(e & H & ->)|(resp & tr1 & tr2 & -> & H & Ht)]; apply raw_outcome in H.
  - right. exists e. split; [done|]. destruct H as [H|(e' & [= <-] & H)]; auto.
  - destruct H as [(url & q & pre & ->)|(e & [=] & _)].
    left. exists url, q, pre, resp. unfold typed, error_of in Ht.
    destruct (ok resp) eqn:Eo, (json_parse (body resp)) as [v|]; destruct Ht as [-> ->]; rewrite app_nil_r; done.
Qed.

End Traces.

(** ** The calls of the application, interleaved *)

Section Interleaved.
Context (NativeQuic has_cancelAll has_getCurrentSessionIdPrefix : bool).
Context (DEFAULT_NODE_HOST : jstr) (DEFAULT_NODE_PORT : Z).

Inductive call_event :=
| call_quicRequest (path : jstr) (o : RequestOptions)
| call_publicQuicRequest (path : jstr) (o : RequestOptions)
| call_quicRequestRaw (path : jstr) (o : RequestOptions)
| call_prefix (forceRefresh : bool)
| call_supported
| call_cancelAll.

(** the result is the session id prefix where the call asks for it *)
Definition handler (e : call_event) : prog jstr :=
  let raw := rawRequest NativeQuic has_cancelAll DEFAULT_NODE_HOST DEFAULT_NODE_PORT in
  match e with
  | call_quicRequest p o => quicRequest NativeQuic has_cancelAll DEFAULT_NODE_HOST DEFAULT_NODE_PORT p o;; ret []
  | call_publicQuicRequest p o =>
      publicQuicRequest NativeQuic has_cancelAll DEFAULT_NODE_HOST DEFAULT_NODE_PORT p o;; ret []
  | call_quicRequestRaw p o => quicRequestRaw NativeQuic has_cancelAll DEFAULT_NODE_HOST DEFAULT_NODE_PORT p o;; ret []
  | call_prefix f =>
      sid ← getCurrentAuthSessionIdPrefix NativeQuic has_cancelAll has_getCurrentSessionIdPrefix
              DEFAULT_NODE_HOST DEFAULT_NODE_PORT f;
      ret (default [] sid)
  | call_supported => isQuicSupported NativeQuic;; ret []
  | call_cancelAll => cancelAllQuicConnections NativeQuic;; ret []
  end.

(** Meanwhile time passes, NetworkBootstrap.ts selects another target, and
    identities are bound and sessions opened. *)
Inductive outside : transport → transport → Prop :=
| outside_intro t m target x :
    QuicSession.step (sessions x) m ∨ m = sessions x → clock x ≤ t →
    outside x (mkTransport t m (latestAuthSessionIdPrefix x) target).

Definition any_answer (R : Set) (c : req R) (r : error + R) : Prop := True.

Definition transport_start (t : Z) (target : Target) : world transport error req :=
  mkWorld (mkTransport t QuicSession.initial None target) 0 [].

Definition transport_reachable (w : world transport error req) : Prop :=
  ∃ t target, rtc (step handler outside any_answer) (transport_start t target) w.

(** sixteen lower-case hexadecimal digits *)
Definition session_prefix (p : jstr) : Prop :=
  length p = 16%nat ∧ Forall (λ c, is_hex c = true ∧ lower_char c = c) p.

Definition prefix_ok (x : transport) : Prop := ∀ p, latestAuthSessionIdPrefix x = Some p → session_prefix p.

Lemma lower_prefix s : is_prefix16 s = true → session_prefix (toLowerCase s).
Proof.
  unfold is_prefix16. intros [Hl Hh%forallb_Forall]%andb_true_iff. split.
  - rewrite toLowerCase_length. by apply Nat.eqb_eq.
  - unfold toLowerCase. apply Forall_map. eapply list.Forall_impl; [exact Hh|]. intros c Hc. simpl.
    split; [|apply lower_char_idemp]. revert Hc. clear. by destruct c as [[] [] [] [] [] [] [] []].
Qed.

Definition any_request (R : Set) (c : req R) : Prop := True.
Definition any_result (R : Set) (c : req R) (r : R) : Prop := True.
Definition any_error (e : error) : Prop := True.
Definition prefix_result (ty : ptype) (r : jstr) : Prop := r = [] ∨ session_prefix r.

Abbreviation qspec := (spec prefix_ok any_request any_result prefix_result any_error).

Lemma qspec_any {A} (t : prog A) P : qspec t P → qspec t (λ _, True).
Proof. intros H. by eapply spec_weaken. Qed.

Lemma set_prefix_spec s : is_prefix16 s = true → qspec (modify (set_prefix (Some (toLowerCase s)))) (λ _, True).
Proof. intros H. apply spec_modify. intros x _ p [= <-]. by apply lower_prefix. Qed.

Lemma clear_prefix_spec : qspec (modify (set_prefix None)) (λ _, True).
Proof. apply spec_modify. by intros x _ p. Qed.

Lemma pause_spec : qspec pause (λ _, True).
Proof. by apply spec_await, spec_ret. Qed.

Lemma qcall_spec {R : Set} (c : req R) : qspec (call c) (λ _, True).
Proof. by eapply spec_call. Qed.

Lemma reset_spec : qspec (resetAuthSession NativeQuic has_cancelAll) (λ _, True).
Proof.
  unfold resetAuthSession. eapply spec_bind; [by apply spec_modify|]. intros _ _.
  apply spec_if; intros _; [by apply spec_ret|].
  eapply spec_bind.
  - apply (spec_try_catch _ _ _ _ _ _ _ (λ _, True)); [|intros; by apply spec_ret].
    eapply spec_bind; [apply qcall_spec|]. intros. by apply spec_ret.
  - intros _ _. eapply spec_bind; [apply clear_prefix_spec|]. intros. apply pause_spec.
Qed.

Lemma attempts_spec left url q alpn : qspec (attempts_left NativeQuic has_cancelAll left url q alpn) (λ _, True).
Proof.
  induction left as [|more IH]; [by apply spec_throw|]. cbn [attempts_left].
  eapply spec_bindR; [apply qcall_spec|]. intros [e|c] _; apply spec_if; intros _;
    first [by apply spec_throw|by apply spec_ret|
           eapply spec_bind; [apply spec_await, reset_spec|]; intros _ _; apply IH].
Qed.

Lemma send_spec path o method alpn headers b :
  qspec (send_request NativeQuic has_cancelAll DEFAULT_NODE_HOST DEFAULT_NODE_PORT path o method alpn headers b)
    (λ _, True).
Proof.
  eapply spec_bind; [by apply (spec_gets _ _ _ _ _ _ (λ _, True))|]. intros active _.
  eapply spec_bind; [apply spec_await, attempts_spec|]. intros resp _.
  eapply (spec_bind _ _ _ _ _ _ _ (λ _, True)); [|intros; by apply spec_ret].
  destruct alpn, (sessionIdPrefix resp) as [sid|]; try by apply spec_ret.
  apply spec_if; [apply set_prefix_spec|intros; by apply spec_ret].
Qed.

Lemma raw_spec path o :
  qspec (rawRequest NativeQuic has_cancelAll DEFAULT_NODE_HOST DEFAULT_NODE_PORT path o) (λ _, True).
Proof.
  unfold rawRequest. apply spec_if; intros _; [by apply spec_throw|].
  eapply spec_bind; [apply pause_spec|]. intros _ _. cbv zeta. apply spec_if; intros _; [|apply send_spec].
  eapply spec_bind; [apply qcall_spec|]. intros st _.
  destruct (identity_for _ _ _ _) as [i|]; [|by apply spec_throw].
  rewrite populate_unchanged. eapply (spec_bind _ _ _ _ _ _ _ (λ _, True)); [by apply spec_ret|].
  intros b _. apply send_spec.
Qed.

Lemma typed_spec resp : qspec (typed resp) (λ _, True).
Proof.
  apply spec_if; intros _; [by apply spec_throw|]. unfold or_syntax_error.
  destruct (json_parse _); [by apply spec_ret|by apply spec_throw].
Qed.

Lemma prefix_spec f :
  qspec (getCurrentAuthSessionIdPrefix NativeQuic has_cancelAll has_getCurrentSessionIdPrefix
    DEFAULT_NODE_HOST DEFAULT_NODE_PORT f) (λ r, ∀ p, r = Some p → session_prefix p).
Proof.
  eapply spec_bind; [by apply (spec_gets _ _ _ _ _ _ (λ r, ∀ p, r = Some p → session_prefix p))|].
  intros latest Hl. apply spec_if; intros _; [by apply spec_ret|]. apply spec_if; intros _; [by apply spec_ret|].
  eapply spec_bind; [apply qcall_spec|]. intros [i|] _; [|by apply spec_ret].
  apply spec_if; intros _; [by apply spec_ret|].
  eapply (spec_bind _ _ _ _ _ _ _ (λ _, True)).
  - apply spec_if; intros _; [|by apply spec_ret]. eapply spec_bind; [apply clear_prefix_spec|]. intros _ _.
    apply spec_try_catch; [|intros; by apply spec_ret].
    eapply spec_bind; [apply spec_await, raw_spec|]. intros _ _. apply pause_spec.
  - intros _ _. apply spec_try_catch; [|intros; by apply spec_ret].
    eapply spec_bind; [apply qcall_spec|]. intros [s|] _; [|by apply spec_ret].
    apply spec_if; intros Hs; [|by apply spec_ret].
    eapply spec_bind; [by apply set_prefix_spec|]. intros _ _. by apply spec_gets.
Qed.

Lemma quic_handler_spec e : qspec (handler e) (λ r, r = [] ∨ session_prefix r).
Proof.
  destruct e as [p o|p o|p o|f| |]; cbn [handler].
  1,2: eapply spec_bind; [eapply spec_bind; [apply spec_await, raw_spec|]; intros; apply typed_spec|];
    intros; apply spec_ret; by left.
  - eapply spec_bind; [apply raw_spec|]. intros; apply spec_ret; by left.
  - eapply spec_bind; [apply prefix_spec|]. intros [sid|] H; apply spec_ret; [right; by apply H|by left].
  - eapply (spec_bind _ _ _ _ _ _ _ (λ _, True)); [|intros; apply spec_ret; by left].
    apply spec_if; intros _; [by apply spec_ret|]. apply spec_try_catch; [apply qcall_spec|intros; by apply spec_ret].
  - eapply (spec_bind _ _ _ _ _ _ _ (λ _, True)); [|intros; apply spec_ret; by left].
    apply spec_if; intros _; [by apply spec_ret|apply qcall_spec].
Qed.

(** The id of the authenticated session that signatures are bound to is, in
    every interleaving of the application's calls and whatever the native layer
    answers, absent or exactly sixteen lower-case hexadecimal digits, where it
    is cached and where a call returns it. *)
Fact session_prefix_wellformed w :
  transport_reachable w →
  (∀ p, latestAuthSessionIdPrefix (ws w) = Some p → session_prefix p) ∧
  (∀ i r, (i, Done (inr r)) ∈ wthreads w → r = [] ∨ session_prefix r).
Proof.
  intros (t & target & Hr).
  destruct (spec_reachable prefix_ok any_request any_result prefix_result any_error
    handler outside (transport_start t target) w quic_handler_spec) as (H1 & _ & H3); try done.
  - intros s s' Ho Hs p. destruct Ho. apply Hs.
  - eapply rtc_subrel; [|exact Hr]. intros x y Hs. destruct Hs; econstructor; eauto. by destruct r.
  - split; [exact H1|]. intros i r Hin. exact (H3 _ _ Hin).
Qed.

End Interleaved.

(** ** Instances *)

Definition demo_did : jstr := js "did:zhtp:00ff".
Definition demo_target : Target := mkTarget (js "10.0.0.1") 9334 (js "g1.example").
Definition demo_lost : QuicRawResponse := mkResponse 401 (js "Unauthorized") (js "Invalid counter") false None.
Definition demo_ok : QuicRawResponse :=
  mkResponse 200 (js "OK") (js "[1]") true (Some (js "00112233445566AA")).
Definition demo_state : transport := mkTransport 0 QuicSession.initial None demo_target.

(** the request of the instances: the wallet list, at the active target *)
Definition demo_request : QuicRequestOptions :=
  mkRequest GET [(IDENTITY_HEADER, js "00ff"); (SNI_HEADER, js "g1.example")] None authenticated 30.
Definition demo_url : jstr := js "quic://10.0.0.1:9334/api/v1/wallet/list".

Lemma public_exactly_on_table_witness :
  alpn_of GET (js "/api/v1//blockchain/balance/abc/") no_options = public ∧
  alpn_of DELETE (js "/health") no_options = authenticated.
Proof.
  split.
  - apply (public_exactly_on_table GET (js "/api/v1//blockchain/balance/abc/") no_options eq_refl).
    exists (js "abc"). split; [reflexivity|]. do 3 right. left.
  - reflexivity.
Defined.

Lemma recovery_is_transparent_witness :
  traced (runWithSessionRecovery true true demo_url demo_request authenticated 3)
    [Sent demo_url demo_request (inr demo_lost); Cancelled; Sent demo_url demo_request (inr demo_ok)] (inr demo_ok).
Proof.
  apply (recovery_is_transparent true true demo_url demo_request authenticated 3); [lia|].
  exists [inr demo_lost]. split; [reflexivity|]. split; [repeat constructor|].
  split; [simpl; lia|]. vm_compute. discriminate.
Defined.

Lemma demo_raw :
  traced (rawRequest true true [] 0 (js "/api/v1/wallet/list") no_options)
    [Held (inr (Some demo_did)); Sent demo_url demo_request (inr demo_lost); Cancelled;
     Sent demo_url demo_request (inr demo_ok)] (inr demo_ok).
Proof.
  exists (inr (Some demo_did)). eexists. split; [reflexivity|]. exists demo_state.
  exists (inr demo_lost). eexists. split; [vm_compute; reflexivity|].
  exists demo_state. exists (inr true). eexists. split; [reflexivity|]. exists demo_state.
  exists (inr demo_ok). eexists. split; [reflexivity|]. exists demo_state. by vm_compute.
Qed.

Lemma requests_carry_identity_witness :
  ∃ i, truthy i = true ∧ mget IDENTITY_HEADER (q_headers demo_request) = Some (normalizeIdentityId i).
Proof.
  destruct (requests_carry_identity true true [] 0 (js "/api/v1/wallet/list") no_options _ _ demo_url demo_request
    (inr demo_lost) eq_refl demo_raw ltac:(right; left)) as (_ & _ & _ & _ & i & Hi & Hh & _).
  by exists i.
Defined.

Lemma typed_results_witness :
  traced (quicRequest true true [] 0 (js "/api/v1/wallet/list") no_options)
    [Held (inr (Some demo_did)); Sent demo_url demo_request (inr demo_lost); Cancelled;
     Sent demo_url demo_request (inr demo_ok)] (inr (JArr [JNum 1])) ∧
  ok demo_ok = true.
Proof.
  assert (traced (quicRequest true true [] 0 (js "/api/v1/wallet/list") no_options)
    [Held (inr (Some demo_did)); Sent demo_url demo_request (inr demo_lost); Cancelled;
     Sent demo_url demo_request (inr demo_ok)] (inr (JArr [JNum 1]))) as H.
  { unfold quicRequest, mbind, quic_bind. apply trace_bind. right. exists demo_ok. eexists. exists [].
    split; [|split; [apply trace_await, demo_raw|by vm_compute]]. done. }
  split; [exact H|].
  destruct (typed_results true true [] 0 (js "/api/v1/wallet/list") no_options _ _ H)
    as [(url & q & pre & resp & E & Hm)|(e & [=] & _)].
  apply (f_equal (@List.rev event)) in E. rewrite rev_app_distr in E. injection E as _ _ <- _. by vm_compute in Hm.
Defined.

Definition demo_answer (R : Set) (c : req R) : error + R :=
  match c in req R return error + R with
  | NativeQuic_request _ _ => inr demo_ok
  | NativeQuic_cancelAll => inr true
  | NativeQuic_isSupported => inr true
  | NativeQuic_getCurrentSessionIdPrefix _ => inr None
  | getIdentityId => inr (Some demo_did)
  end.

Definition demo_world : world transport error req :=
  resume demo_answer 0 (resume demo_answer 0 (resume demo_answer 0 (resume demo_answer 0
    (launch (handler true true true [] 0 (call_quicRequestRaw (js "/api/v1/wallet/list") no_options))
      (transport_start 0 demo_target))))).

Lemma demo_world_reachable : transport_reachable true true true [] 0 demo_world.
Proof.
  exists 0, demo_target. unfold demo_world.
  eapply rtc_trans; [|by apply resume_steps]. eapply rtc_trans; [|by apply resume_steps].
  eapply rtc_trans; [|by apply resume_steps]. eapply rtc_trans; [|by apply resume_steps].
  apply launch_step.
Qed.

Lemma session_prefix_wellformed_witness :
  latestAuthSessionIdPrefix (ws demo_world) = Some (js "00112233445566aa") ∧
  session_prefix (js "00112233445566aa").
Proof.
  split; [vm_compute; reflexivity|].
  apply (proj1 (session_prefix_wellformed true true true [] 0 demo_world demo_world_reachable)).
  vm_compute. reflexivity.
Defined.
