(* ===== verification/PouwToken.v ===== *)
(** * Proof-of-useful-work challenges: the parsers of
      src/lib-client-react-native-js/PoUWController.ts, lines 1 to 507

    A challenge arrives as JSON, or as a token: text in Base64 or hexadecimal
    around JSON or a protocol-buffer message.  Bytes are [Z]; the bit operations
    of the language work on 32-bit signed integers, which is written out.  The
    platform has no [Buffer], so the branches without it are the ones modelled. *)

From stdpp Require Import strings.
From S2P Require Import Prelude JsString JsMap Json Codec.

(** ** Proof types, tokens *)

Inductive ProofType := p_hash | p_merkle | p_signature | p_web4manifestroute | p_web4contentserved.

#[export] Instance ProofType_eq_dec : EqDecision ProofType.
Proof. solve_decision. Defined.

(** a number of the language: m / 10^e *)
Definition num : Type := Z * nat.
Definition int_num (z : Z) : num := (z, 0%nat).
Definition num_add (a : num) (z : Z) : num := (a.1 + z * 10 ^ Z.of_nat a.2, a.2).
Definition num_leb (a : num) (z : Z) : bool := a.1 <=? z * 10 ^ Z.of_nat a.2.
Definition as_number (v : json) : option num :=
  match v with JNum n => Some (n, 0%nat) | JDec m e => Some (m, e) | _ => None end.

Record Policy := mkPolicy {
  max_receipts : num; max_bytes_total : num; min_bytes_per_receipt : num;
  allowed_proof_types : list ProofType }.

Record ChallengeToken := mkChallenge {
  c_version : num; node_id : jstr; task_id : jstr; challenge_nonce : jstr;
  issued_at : num; expires_at : num; policy : Policy; node_signature : jstr }.

Definition MIN_BYTES_PER_RECEIPT : Z := 1024.

(** ** Text and bytes *)

Definition normalizeBase64 (input : jstr) : jstr :=
  let normalized := map (λ c, if bool_decide (c = "-"%char) then "+"%char
                              else if bool_decide (c = "_"%char) then "/"%char else c) input in
  let remainder := (length normalized mod 4)%nat in
  if (remainder =? 0)%nat then normalized else normalized ++ replicate (4 - remainder) "="%char.

(** [None] is a throw *)
Definition base64ToBytes (b64 : jstr) : option bytes := atob (normalizeBase64 b64).

Definition bytesToHex (bs : bytes) : jstr := bytes_hex bs.
Definition base64ToHex (b64 : jstr) : option jstr := bytesToHex <$> base64ToBytes b64.

Definition decodeUtf8 (bs : bytes) : jstr := map chr bs.
Definition encodeUtf8 (s : jstr) : bytes := map code s.

Definition isHexString (value : jstr) : bool :=
  (length value mod 2 =? 0)%nat && (truthy value && forallb is_hex value).

Fixpoint hex_pairs (s : jstr) : bytes :=
  match s with a :: b :: s' => (16 * hex_val a + hex_val b) :: hex_pairs s' | _ => [] end.

Definition hexToBytes (hex : jstr) : option bytes :=
  if negb (truthy hex && forallb is_hex hex) || negb (length hex mod 2 =? 0)%nat then None
  else Some (hex_pairs hex).

Definition noPrefix (trimmed : jstr) : jstr :=
  if startsWith (js "0x") trimmed || startsWith (js "0X") trimmed then drop 2 trimmed else trimmed.

Definition decodeHexMaybe (value : jstr) : option bytes :=
  let h := noPrefix (trim value) in
  if negb (isHexString h) then None else hexToBytes h.

Definition normalizeIdentifier (value : jstr) : option jstr :=
  let trimmed := trim value in
  if negb (truthy trimmed) then None
  else
    let h := noPrefix trimmed in
    if isHexString h then Some (toLowerCase h)
    else
      match base64ToBytes h with
      | Some (b :: bs) => Some (bytesToHex (b :: bs))
      | _ => None
      end.

(** ** Properties of an object in the order of the language: array indices first *)

Definition is_index (k : jstr) : bool :=
  all_digits k && bool_decide (dec_str (dec_val k) = k) && (dec_val k <? 2 ^ 32 - 1).

Definition own_order {A} (l : list (jstr * A)) : list (jstr * A) :=
  js_sort (λ a b, dec_val a.1 - dec_val b.1) (List.filter (λ e, is_index e.1) l)
  ++ List.filter (λ e, negb (is_index e.1)) l.

(** the first result that is a non-empty string *)
Definition first_found (l : list (option jstr)) : option jstr :=
  match List.find (λ o, match o with Some s => truthy s | None => false end) l with
  | Some o => o
  | None => None
  end.

Definition is_key_with_string (keys : list jstr) (kv : jstr * json) : bool :=
  bool_decide (kv.1 ∈ keys) && match kv.2 with JStr _ => true | _ => false end.

Fixpoint findStringValue (keys : list jstr) (value : json) : option jstr :=
  match value with
  | JArr l => first_found (map (findStringValue keys) l)
  | JObj l =>
      match List.find (is_key_with_string keys) l with
      | Some (_, JStr s) => Some s
      | _ => first_found (map snd (own_order (map (λ kv, (kv.1, findStringValue keys kv.2)) l)))
      end
  | _ => None
  end.

(** ** Protocol buffers *)

Definition to_int32 (z : Z) : Z := (z + 2 ^ 31) mod 2 ^ 32 - 2 ^ 31.
(** [a << s] *)
Definition shl32 (a s : Z) : Z := to_int32 (Z.shiftl a (s mod 32)).

Definition size (bs : bytes) : Z := Z.of_nat (length bs).
(** [bytes[index]] as a bit operation reads it: outside the array it is
    [undefined], that counts as 0 *)
Definition byte_at (bs : bytes) (index : Z) : Z :=
  if index <? 0 then 0 else default 0 (bs !! Z.to_nat index).
(** [bytes.slice(from, to)]: a negative index counts from the end *)
Definition slice_index (bs : bytes) (i : Z) : Z := if i <? 0 then Z.max (size bs + i) 0 else Z.min i (size bs).
Definition bytes_slice (bs : bytes) (from to : Z) : bytes :=
  take (Z.to_nat (slice_index bs to - slice_index bs from)) (drop (Z.to_nat (slice_index bs from)) bs).

(** the loop of [readVarint]; with [shift <= 63] it runs at most ten times *)
Fixpoint read_loop (fuel : nat) (bs : bytes) (index shift value : Z) : option (Z * Z) :=
  match fuel with
  | O => None
  | S f =>
      if (index <? size bs) && (shift <=? 63) then
        let b := byte_at bs index in
        let index := index + 1 in
        let value := Z.lor value (shl32 (Z.land b 127) shift) in
        if Z.land b 128 =? 0 then Some (value, index)
        else read_loop f bs index (shift + 7) value
      else None
  end.

Definition varint_fuel : nat := 11.
Definition readVarint (bs : bytes) (start : Z) : option (Z * Z) := read_loop varint_fuel bs start 0 0.

(** the fields the parser keeps *)
Record fields := mkFields { taskIdBytes : option bytes; challengeNonceBytes : option bytes }.

Inductive outcome := out_of_fuel | malformed | parsed (f : fields).

(** [index] is a number of the language, that a negative length would move
    backwards *)
Fixpoint proto_loop (fuel : nat) (bs : bytes) (index : Z) (acc : fields) : outcome :=
  match fuel with
  | O => out_of_fuel
  | S f =>
      if index <? size bs then
        match readVarint bs index with
        | None => malformed
        | Some (key, index) =>
            let fieldNumber := Z.shiftr key 3 in
            let wireType := Z.land key 7 in
            if wireType =? 0 then
              match readVarint bs index with
              | None => malformed
              | Some (_, index) => proto_loop f bs index acc
              end
            else if wireType =? 1 then
              if size bs <? index + 8 then malformed else proto_loop f bs (index + 8) acc
            else if wireType =? 2 then
              match readVarint bs index with
              | None => malformed
              | Some (len, index) =>
                  if (len <? 0) || (size bs <? index + len) then malformed
                  else
                    let value := bytes_slice bs index (index + len) in
                    let index := index + len in
                    let acc := if fieldNumber =? 3 then mkFields (Some value) (challengeNonceBytes acc) else acc in
                    let acc := if fieldNumber =? 4 then mkFields (taskIdBytes acc) (Some value) else acc in
                    proto_loop f bs index acc
              end
            else if wireType =? 5 then
              if size bs <? index + 4 then malformed else proto_loop f bs (index + 4) acc
            else malformed
        end
      else parsed acc
  end.

(** every round of the loop reads a byte *)
Definition proto_fuel (bs : bytes) : nat := S (length bs).

Definition parse_fields (bs : bytes) : outcome := proto_loop (proto_fuel bs) bs 0 (mkFields None None).

Definition parseChallengeTokenProtobuf (bs : bytes) : option (jstr * jstr) :=
  match parse_fields bs with
  | parsed (mkFields (Some (t :: ts)) (Some (n :: ns))) => Some (bytesToHex (t :: ts), bytesToHex (n :: ns))
  | _ => None
  end.

(** ** A challenge from an object *)

Definition TASK_KEYS : list jstr := [js "task_id"; js "taskId"; js "task"; js "task_id_hex"; js "taskHex"].
Definition NONCE_KEYS : list jstr :=
  [js "challenge_nonce"; js "challengeNonce"; js "nonce"; js "challenge_nonce_hex"; js "nonceHex"].

Definition normalizeProofType (value : jstr) : option ProofType :=
  let n := toLowerCase (trim value) in
  if bool_decide (n = js "hash") then Some p_hash
  else if bool_decide (n = js "merkle") then Some p_merkle
  else if bool_decide (n = js "signature") then Some p_signature
  else if bool_decide (n = js "web4manifestroute") then Some p_web4manifestroute
  else if bool_decide (n = js "web4contentserved") then Some p_web4contentserved
  else None.

(** [raw ? normalizeIdentifier(raw) : null], then the test that it is not empty *)
Definition identifier (raw : option jstr) : option jstr :=
  match raw with
  | Some r =>
      if truthy r then
        match normalizeIdentifier r with Some i => if truthy i then Some i else None | None => None end
      else None
  | None => None
  end.

Definition allowed_from (rawPolicy : json) : list ProofType :=
  match jget (js "allowed_proof_types") rawPolicy with
  | Some (JArr l) => omap (λ v, s ← as_str v; normalizeProofType s) l
  | _ => []
  end.

(** [Array.from(new Set(l))] *)
Definition unique {A} `{EqDecision A} (l : list A) : list A :=
  fold_left (λ acc x, if bool_decide (x ∈ acc) then acc else acc ++ [x]) l [].

(** [now]: [Math.floor(Date.now() / 1000)] *)
Definition parseChallengeObject (now : Z) (candidate : json) (requestedProofs : list ProofType)
    : option ChallengeToken :=
  match identifier (findStringValue TASK_KEYS candidate), identifier (findStringValue NONCE_KEYS candidate) with
  | Some taskId, Some nonce =>
      let issuedAt := default (int_num now) (jfield (js "issued_at") as_number candidate) in
      let expiresAt := default (num_add issuedAt 60) (jfield (js "expires_at") as_number candidate) in
      let rawPolicy := match jget (js "policy") candidate with
                       | Some (JObj l) => JObj l
                       | _ => JObj []
                       end in
      let allowed := allowed_from rawPolicy in
      Some (mkChallenge
        (default (int_num 1) (jfield (js "version") as_number candidate))
        (default [] (jfield (js "node_id") as_str candidate))
        taskId nonce issuedAt expiresAt
        (mkPolicy
          (default (int_num 64) (jfield (js "max_receipts") as_number rawPolicy))
          (default (int_num (10 * 1024 * 1024)) (jfield (js "max_bytes_total") as_number rawPolicy))
          (default (int_num MIN_BYTES_PER_RECEIPT) (jfield (js "min_bytes_per_receipt") as_number rawPolicy))
          (match allowed with [] => unique (p_hash :: requestedProofs) | _ => allowed end))
        (default [] (jfield (js "node_signature") as_str candidate)))
  | _, _ => None
  end.

(** ** A challenge from a token *)

Definition or_else {A} (o : option A) (p : option A) : option A := match o with Some _ => o | None => p end.

(** [levels] is 3 less the depth: nesting is followed while the depth is below 2 *)
Fixpoint parseDecodedTokenPayload (levels : nat) (now : Z) (payload : bytes) (requestedProofs : list ProofType)
    : option ChallengeToken :=
  match levels with
  | O => None
  | S deeper =>
      let text := decodeUtf8 payload in
      or_else (v ← json_parse text; parseChallengeObject now v requestedProofs)
        (match parseChallengeTokenProtobuf payload with
         | Some (t, n) =>
             parseChallengeObject now (JObj [(js "task_id", JStr t); (js "challenge_nonce", JStr n)]) requestedProofs
         | None =>
             let innerText := trim text in
             if (0 <? deeper)%nat && truthy innerText then
               or_else (b ← base64ToBytes innerText; parseDecodedTokenPayload deeper now b requestedProofs)
                 (b ← decodeHexMaybe innerText; parseDecodedTokenPayload deeper now b requestedProofs)
             else None
         end)
  end.

Definition parse_payload := parseDecodedTokenPayload 3.

Definition TOKEN_KEYS : list jstr :=
  [js "token"; js "challenge"; js "challenge_token"; js "challengeToken"; js "raw_token"; js "rawToken"].

(** none of the keys is an array index, so the order of the entries is theirs *)
Fixpoint collectTokenStrings (value : json) : list jstr :=
  match value with
  | JStr s => [s]
  | JArr l => concat (map collectTokenStrings l)
  | JObj l => concat (map (λ kv, if bool_decide (kv.1 ∈ TOKEN_KEYS) then collectTokenStrings kv.2 else []) l)
  | _ => []
  end.

Fixpoint first_some {A B} (f : A → option B) (l : list A) : option B :=
  match l with [] => None | x :: l' => or_else (f x) (first_some f l') end.

Definition parse_token (now : Z) (requestedProofs : list ProofType) (token : jstr) : option ChallengeToken :=
  let payload b := parse_payload now b requestedProofs in
  let parts := split_on "." token in
  let jwtSegments := match parts with first :: second :: _ => [second; first] | _ => [] end in
  or_else (payload (encodeUtf8 token))
    (or_else (b ← base64ToBytes token; payload b)
      (or_else (b ← decodeHexMaybe token; payload b)
        (first_some (λ seg, b ← base64ToBytes seg; payload b) jwtSegments))).

(** the outer [None]: [response.data] of [null] throws *)
Definition parseChallengeAny (now : Z) (response : json) (requestedProofs : list ProofType)
    : option (option ChallengeToken) :=
  match parseChallengeObject now response requestedProofs with
  | Some c => Some (Some c)
  | None =>
      match response with
      | JNull => None
      | _ =>
          let object k := match jget k response with
                          | Some (JObj l) => [JObj l] | Some (JArr l) => [JArr l] | _ => []
                          end in
          let nestedCandidates := object (js "data") ++ object (js "result") in
          Some (or_else (first_some (λ n, parseChallengeObject now n requestedProofs) nestedCandidates)
            (first_some (parse_token now requestedProofs)
              (collectTokenStrings response ++ concat (map collectTokenStrings nestedCandidates))))
      end
  end.

(** * The encoder, as the protocol-buffer wire format defines it *)

(** base-128 groups, the least significant first *)
Fixpoint varint_groups (n : nat) (v : Z) : bytes :=
  match n with
  | O => []
  | S n => if v <? 128 then [v] else (v mod 128 + 128) :: varint_groups n (v / 128)
  end.
Definition varint (v : Z) : bytes := varint_groups 10 v.

Inductive field :=
| FVarint (number value : Z)
| FFixed64 (number : Z) (value : bytes)
| FBytes (number : Z) (value : bytes)
| FFixed32 (number : Z) (value : bytes).

Definition encode_field (f : field) : bytes :=
  match f with
  | FVarint n v => varint (8 * n) ++ varint v
  | FFixed64 n b => varint (8 * n + 1) ++ b
  | FBytes n b => varint (8 * n + 2) ++ varint (Z.of_nat (length b)) ++ b
  | FFixed32 n b => varint (8 * n + 5) ++ b
  end.
Definition encode_message (fs : list field) : bytes := flat_map encode_field fs.

Definition number_ok (n : Z) : Prop := 0 ≤ n < 2 ^ 28.

(** fields the format allows, of lengths a message can have *)
Definition field_ok (f : field) : Prop :=
  match f with
  | FVarint n v => number_ok n ∧ 0 ≤ v < 2 ^ 64
  | FFixed64 n b => number_ok n ∧ length b = 8%nat
  | FBytes n b => number_ok n ∧ Z.of_nat (length b) < 2 ^ 31
  | FFixed32 n b => number_ok n ∧ length b = 4%nat
  end.

(** what the parser is meant to keep of a field *)
Definition keep_field (acc : fields) (f : field) : fields :=
  match f with
  | FBytes n b =>
      if n =? 3 then mkFields (Some b) (challengeNonceBytes acc)
      else if n =? 4 then mkFields (taskIdBytes acc) (Some b) else acc
  | _ => acc
  end.

(** ** Messages the parser should take

    A varint is one group or more, of at most ten, that all but the last
    announce another one. *)
Inductive groups : nat → bytes → Prop :=
| last_group n b : Z.land b 128 = 0 → groups (S n) [b]
| more_groups n b g : Z.land b 128 ≠ 0 → groups n g → groups (S n) (b :: g).
Definition max_groups : nat := 10.

(** its value, put together with the language's 32-bit shift *)
Fixpoint groups_value (k : nat) (g : bytes) : Z :=
  match g with
  | [] => 0
  | b :: g' => Z.lor (shl32 (Z.land b 127) (7 * Z.of_nat k)) (groups_value (S k) g')
  end.
Definition wire_value : bytes → Z := groups_value 0.

(** [wire_field b acc f]: the bytes are one whole field of one of the four wire
    types, with as many bytes as it announces; what is kept of it turns [acc]
    into [f] *)
Inductive wire_field : bytes → fields → fields → Prop :=
| wire_varint key v acc :
    groups max_groups key → Z.land (wire_value key) 7 = 0 → groups max_groups v →
    wire_field (key ++ v) acc acc
| wire_fixed64 key b acc :
    groups max_groups key → Z.land (wire_value key) 7 = 1 → length b = 8%nat →
    wire_field (key ++ b) acc acc
| wire_bytes key len b acc :
    groups max_groups key → Z.land (wire_value key) 7 = 2 →
    groups max_groups len → wire_value len = size b →
    wire_field (key ++ len ++ b) acc (keep_field acc (FBytes (Z.shiftr (wire_value key) 3) b))
| wire_fixed32 key b acc :
    groups max_groups key → Z.land (wire_value key) 7 = 5 → length b = 4%nat →
    wire_field (key ++ b) acc acc.

(** whole fields, one after the other *)
Inductive wire : bytes → fields → fields → Prop :=
| wire_end acc : wire [] acc acc
| wire_next b rest acc acc' f : wire_field b acc acc' → wire rest acc' f → wire (b ++ rest) acc f.

(** * Lemmas *)

(** ** Varints *)

Lemma to_int32_id z : - 2 ^ 31 ≤ z < 2 ^ 31 → to_int32 z = z.
Proof. intros H. unfold to_int32. rewrite Z.mod_small by lia. lia. Qed.

Lemma lor_disjoint a b s : 0 ≤ s → 0 ≤ a < 2 ^ s → Z.lor a (b * 2 ^ s) = a + b * 2 ^ s.
Proof.
  intros Hs Ha. rewrite <-Z.shiftl_mul_pow2 by lia.
  assert (Z.land a (Z.shiftl b s) = 0) as E.
  { apply Z.bits_inj'. intros n Hn. rewrite Z.land_spec, Z.bits_0.
    destruct (Z.lt_ge_cases n s).
    - rewrite (Z.shiftl_spec_low _ _ _ H). apply andb_false_r.
    - rewrite <-(Z.mod_small a (2 ^ s)) by lia. by rewrite Z.mod_pow2_bits_high by lia. }
  rewrite <-Z.lxor_lor by done. by rewrite Z.add_nocarry_lxor.
Qed.

Lemma land_low v : Z.land v 127 = v mod 128.
Proof. change 127 with (Z.ones 7). rewrite Z.land_ones by lia. done. Qed.

Lemma continues v : 0 ≤ v < 128 → Z.land v 128 = 0 ∧ Z.land (v + 128) 128 = 128 ∧ Z.land (v + 128) 127 = v.
Proof.
  intros H. pose (p v := (Z.land v 128 =? 0) && (Z.land (v + 128) 128 =? 128) && (Z.land (v + 128) 127 =? v)).
  assert (p v = true) as E by (apply (range_check p 128); [vm_compute; reflexivity|lia]).
  unfold p in E. rewrite !andb_true_iff, !Z.eqb_eq in E. tauto.
Qed.

Lemma size_app pre l : size (pre ++ l) = size pre + size l.
Proof. unfold size. rewrite length_app. lia. Qed.

Lemma size_nonneg bs : 0 ≤ size bs.
Proof. unfold size. lia. Qed.

Lemma byte_at_app pre b l : byte_at (pre ++ b :: l) (size pre) = b.
Proof.
  unfold byte_at, size, bytes. destruct (_ <? 0) eqn:E; breflect; [lia|].
  by rewrite Nat2Z.id, list_lookup_middle.
Qed.

Lemma size_cons b l : size (b :: l) = 1 + size l.
Proof. unfold size. simpl length. lia. Qed.

Ltac sizes :=
  rewrite ?size_app, ?size_cons; change (size []) with 0;
  repeat match goal with |- context [size ?l] => is_var l; lazymatch goal with
    | _ : 0 ≤ size l |- _ => fail | _ => pose proof (size_nonneg l) end end; lia.

(** one group, the [k]-th of a varint *)
Lemma read_step fuel pre b l k acc :
  (k < 10)%nat →
  read_loop (S fuel) (pre ++ b :: l) (size pre) (7 * Z.of_nat k) acc
    = let value := Z.lor acc (shl32 (Z.land b 127) (7 * Z.of_nat k)) in
      if Z.land b 128 =? 0 then Some (value, size (pre ++ [b]))
      else read_loop fuel ((pre ++ [b]) ++ l) (size (pre ++ [b])) (7 * Z.of_nat (S k)) value.
Proof.
  intros Hk. cbn [read_loop]. rewrite byte_at_app.
  assert ((size pre <? size (pre ++ b :: l)) = true) as -> by (apply Z.ltb_lt; sizes).
  assert ((7 * Z.of_nat k <=? 63) = true) as -> by (apply Z.leb_le; lia).
  rewrite <-app_assoc. cbn [andb app]. cbv zeta.
  replace (size pre + 1) with (size (pre ++ [b])) by sizes.
  by replace (7 * Z.of_nat (S k)) with (7 * Z.of_nat k + 7) by lia.
Qed.

Lemma read_loop_end fuel pre k acc : read_loop fuel pre (size pre) k acc = None.
Proof. destruct fuel; [done|]. cbn [read_loop]. unfold size. by rewrite Z.ltb_irrefl. Qed.

(** what [read_loop] reads are groups, and it reads all groups *)
Lemma read_loop_groups fuel k l pre acc r j :
  (k ≤ 10)%nat →
  read_loop fuel (pre ++ l) (size pre) (7 * Z.of_nat k) acc = Some (r, j) →
  ∃ g rest, l = g ++ rest ∧ groups (10 - k) g ∧ r = Z.lor acc (groups_value k g) ∧ j = size (pre ++ g).
Proof.
  revert k l pre acc. induction fuel as [|fuel IH]; intros k l pre acc Hk H; [done|].
  destruct l as [|b l]; [by rewrite app_nil_r, read_loop_end in H|].
  destruct (decide (k = 10%nat)) as [->|].
  { cbn [read_loop] in H. by rewrite andb_false_r in H. }
  rewrite read_step in H by lia. cbv zeta in H. replace (10 - k)%nat with (S (10 - S k)) by lia.
  destruct (_ =? 0) eqn:E; breflect.
  - injection H as <- <-. exists [b], l. split_and!; [done|by constructor| |done].
    simpl. by rewrite Z.lor_0_r.
  - apply IH in H as (g & rest & -> & Hg & -> & ->); [|lia]. exists (b :: g), rest.
    split_and!; [done|by constructor|simpl; by rewrite Z.lor_assoc|by rewrite <-app_assoc].
Qed.

Lemma groups_read_loop n g : groups n g → ∀ fuel k rest pre acc,
  (k + n ≤ 10)%nat → (n ≤ fuel)%nat →
  read_loop fuel (pre ++ g ++ rest) (size pre) (7 * Z.of_nat k) acc
    = Some (Z.lor acc (groups_value k g), size (pre ++ g)).
Proof.
  induction 1 as [n b Hb|n b g Hb Hg IH]; intros fuel k rest pre acc Hk Hf; (destruct fuel as [|fuel]; [lia|]);
    cbn [app]; rewrite read_step by lia; cbv zeta; cbn [groups_value].
  - rewrite Z.lor_0_r. by rewrite Hb.
  - destruct (_ =? 0) eqn:E; breflect; [done|]. rewrite IH by lia. by rewrite Z.lor_assoc, <-app_assoc.
Qed.

Lemma read_wire pre l r j :
  readVarint (pre ++ l) (size pre) = Some (r, j) →
  ∃ g rest, l = g ++ rest ∧ groups max_groups g ∧ r = wire_value g ∧ j = size (pre ++ g).
Proof. intros (g & rest & H)%(read_loop_groups _ 0); [|lia]. rewrite Z.lor_0_l in H. eauto. Qed.

Lemma wire_read pre g rest :
  groups max_groups g →
  readVarint (pre ++ g ++ rest) (size pre) = Some (wire_value g, size (pre ++ g)).
Proof.
  intros H. unfold readVarint. change 0 with (7 * Z.of_nat 0) at 1.
  rewrite (groups_read_loop _ _ H) by (unfold max_groups, varint_fuel; lia). by rewrite Z.lor_0_l.
Qed.

Lemma groups_length n g : groups n g → (1 ≤ length g)%nat.
Proof. destruct 1; simpl; lia. Qed.

(** the groups of [v] are groups; they stand for [v] when it fits *)
Lemma varint_groups_ok n v k :
  n ≠ 0%nat → 0 ≤ v < 2 ^ (7 * Z.of_nat n) →
  groups n (varint_groups n v) ∧
  (v * 2 ^ (7 * Z.of_nat k) < 2 ^ 31 → groups_value k (varint_groups n v) = v * 2 ^ (7 * Z.of_nat k)).
Proof.
  revert v k. induction n as [|n IH]; intros v k Hn Hv; [done|]. cbn [varint_groups].
  assert (0 < 2 ^ (7 * Z.of_nat k)) by (apply Z.pow_pos_nonneg; lia).
  assert (∀ d, 0 ≤ d < 128 → d * 2 ^ (7 * Z.of_nat k) < 2 ^ 31 →
    shl32 d (7 * Z.of_nat k) = d * 2 ^ (7 * Z.of_nat k)) as Hshl.
  { intros d Hd Hs. destruct (decide (d = 0)) as [->|Hd0].
    - unfold shl32. by rewrite Z.shiftl_0_l.
    - assert (7 * Z.of_nat k < 31) by (apply (Z.pow_lt_mono_r_iff 2); [lia..|]; nia).
      unfold shl32. rewrite (Z.mod_small _ 32), Z.shiftl_mul_pow2 by lia. apply to_int32_id. nia. }
  destruct (v <? 128) eqn:E; breflect.
  - destruct (continues v) as (C1 & _ & _); [lia|]. split; [by constructor|]. intros Hs. cbn [groups_value].
    rewrite land_low, Z.mod_small, Z.lor_0_r by lia. apply Hshl; lia.
  - pose proof (Z.mod_pos_bound v 128). pose proof (Z.div_mod v 128).
    destruct (continues (v mod 128)) as (_ & C2 & C3); [lia|].
    assert (0 ≤ v / 128 < 2 ^ (7 * Z.of_nat n)) as Hq.
    { split; [apply Z.div_pos; lia|]. apply Z.div_lt_upper_bound; [lia|].
      replace (7 * Z.of_nat (S n)) with (7 + 7 * Z.of_nat n) in Hv by lia. rewrite Z.pow_add_r in Hv by lia. lia. }
    destruct (IH (v / 128) (S k)) as [Hg Hr]; [|done|].
    { intros ->. simpl in Hq. assert (1 ≤ v / 128) by (apply Z.div_le_lower_bound; lia). lia. }
    split; [constructor; [rewrite C2; done|done]|]. intros Hs. cbn [groups_value]. rewrite C3.
    replace (7 * Z.of_nat (S k)) with (7 * Z.of_nat k + 7) in Hr by lia.
    rewrite Z.pow_add_r in Hr by lia. change (2 ^ 7) with 128 in Hr.
    set (P := 2 ^ (7 * Z.of_nat k)) in *.
    assert (v * P = v / 128 * (P * 128) + v mod 128 * P) as EP by nia.
    assert (0 ≤ v / 128 * (P * 128)) by (apply Z.mul_nonneg_nonneg; lia).
    assert (0 ≤ v mod 128 * P) by nia.
    rewrite Hr, Hshl by lia. rewrite EP.
    replace (v / 128 * (P * 128)) with (v / 128 * 2 ^ (7 * Z.of_nat k + 7))
      by (unfold P; rewrite Z.pow_add_r by lia; change (2 ^ 7) with 128; lia).
    rewrite lor_disjoint; [lia|lia|]. rewrite Z.pow_add_r by lia. change (2 ^ 7) with 128. fold P. nia.
Qed.

Lemma varint_ok v : 0 ≤ v < 2 ^ 70 → groups max_groups (varint v) ∧ (v < 2 ^ 31 → wire_value (varint v) = v).
Proof.
  intros H. destruct (varint_groups_ok 10 v 0) as [Hg Hv]; [done|simpl; lia|]. split; [exact Hg|].
  intros Hs. unfold wire_value, varint. rewrite Hv; simpl; lia.
Qed.

(** ** Messages *)

Lemma slice_app pre b rest : bytes_slice (pre ++ b ++ rest) (size pre) (size pre + size b) = b.
Proof.
  assert (∀ a l, slice_index (a ++ l) (size a) = size a) as H.
  { intros a l. unfold slice_index. pose proof (size_nonneg a).
    destruct (_ <? 0) eqn:E; breflect; [lia|]. apply Z.min_l. sizes. }
  unfold bytes_slice. rewrite <-size_app. rewrite H. rewrite app_assoc, H, <-app_assoc, size_app.
  replace (size pre + size b - size pre) with (size b) by lia. unfold size. rewrite !Nat2Z.id.
  by rewrite drop_app_length, take_app_length.
Qed.

Lemma keep_bytes acc n b :
  (let acc := if n =? 3 then mkFields (Some b) (challengeNonceBytes acc) else acc in
   if n =? 4 then mkFields (taskIdBytes acc) (Some b) else acc) = keep_field acc (FBytes n b).
Proof.
  cbn [keep_field]. destruct (n =? 3) eqn:E3; [|by destruct (n =? 4)]. breflect. by subst n.
Qed.

(** a round on a whole field *)
Lemma round_field b acc acc' fuel pre rest :
  wire_field b acc acc' →
  proto_loop (S fuel) (pre ++ b ++ rest) (size pre) acc
    = proto_loop fuel ((pre ++ b) ++ rest) (size (pre ++ b)) acc'.
Proof.
  assert (∀ key l, groups max_groups key → (size pre <? size (pre ++ key ++ l)) = true) as Hin.
  { intros key l H%groups_length. apply Z.ltb_lt. rewrite !size_app. pose proof (size_nonneg l). unfold size. lia. }
  assert (∀ a b rest, (size (a ++ b ++ rest) <? size a + size b) = false) as Hfix.
  { intros a c l. apply Z.ltb_ge. sizes. }
  intros H. destruct H as [key v acc Hk Hw Hv|key b acc Hk Hw Hb|key len b acc Hk Hw Hl Hb|key b acc Hk Hw Hb];
    cbn [proto_loop]; rewrite <-?app_assoc, Hin, (wire_read _ _ _ Hk), Hw by done; simpl Z.eqb; cbv iota;
    rewrite (app_assoc pre key).
  - rewrite (wire_read _ _ _ Hv). by rewrite <-!app_assoc.
  - change 8 with (Z.of_nat 8). rewrite <-Hb. fold (size b). rewrite Hfix. by rewrite <-size_app, <-!app_assoc.
  - rewrite (wire_read _ _ _ Hl), Hb, (app_assoc (pre ++ key) len), Hfix.
    pose proof (size_nonneg b). destruct (_ <? 0) eqn:E; breflect; [lia|]. cbn [orb].
    by rewrite slice_app, keep_bytes, <-size_app, <-!app_assoc.
  - change 4 with (Z.of_nat 4). rewrite <-Hb. fold (size b). rewrite Hfix. by rewrite <-size_app, <-!app_assoc.
Qed.

Lemma wire_field_length b acc acc' : wire_field b acc acc' → (1 ≤ length b)%nat.
Proof. destruct 1; rewrite !length_app; repeat match goal with H : groups _ _ |- _ => apply groups_length in H end; lia. Qed.

(** the bytes a bounds check leaves room for *)
Lemma room (pre l : bytes) n :
  (size (pre ++ l) <? size pre + n) = false → 0 ≤ n → ∃ b rest, l = b ++ rest ∧ size b = n.
Proof.
  intros H Hn. breflect. rewrite size_app in H. exists (take (Z.to_nat n) l), (drop (Z.to_nat n) l).
  rewrite take_drop. split; [done|]. unfold size in *. rewrite length_take. lia.
Qed.

(** a round either refuses or reads a whole field *)
Lemma round_cases fuel pre l acc :
  l ≠ [] →
  proto_loop (S fuel) (pre ++ l) (size pre) acc = malformed ∨
  ∃ b rest acc', l = b ++ rest ∧ wire_field b acc acc'.
Proof.
  intros Hl. cbn [proto_loop]. destruct (_ <? _) eqn:E; breflect.
  2: { rewrite size_app in E. unfold size in E. destruct l; [done|simpl length in E; lia]. }
  destruct (readVarint _ _) as [[key j]|] eqn:Ek; [|by left]. apply read_wire in Ek as (g & l' & -> & Hg & -> & ->).
  rewrite app_assoc.
  destruct (_ =? 0) eqn:W0; breflect.
  { destruct (readVarint _ _) as [[v j']|] eqn:Ev; [|by left]. apply read_wire in Ev as (g' & l'' & -> & Hg' & -> & ->).
    right. exists (g ++ g'), l'', acc. split; [by rewrite <-app_assoc|by constructor]. }
  destruct (_ =? 1) eqn:W1; breflect.
  { destruct (size _ <? _) eqn:El; [by left|]. apply room in El as (b & rest & -> & Hb); [|done].
    right. exists (g ++ b), rest, acc. split; [by rewrite <-app_assoc|constructor; [done..|by apply Nat2Z.inj]]. }
  destruct (_ =? 2) eqn:W2; breflect.
  { destruct (readVarint _ _) as [[len j']|] eqn:Ev; [|by left]. apply read_wire in Ev as (g' & l'' & -> & Hg' & -> & ->).
    rewrite app_assoc. destruct (_ || _) eqn:El; [by left|]. apply orb_false_iff in El as [El1%Z.ltb_ge El2].
    apply room in El2 as (b & rest & -> & Hb); [|done].
    right. eexists (g ++ g' ++ b), rest, _. split; [by rewrite <-!app_assoc|by apply wire_bytes]. }
  destruct (_ =? 5) eqn:W5; breflect; [|by left].
  destruct (size _ <? _) eqn:El; [by left|]. apply room in El as (b & rest & -> & Hb); [|done].
  right. exists (g ++ b), rest, acc. split; [by rewrite <-app_assoc|apply wire_fixed32; [done..|by apply Nat2Z.inj]].
Qed.

Lemma loop_done fuel pre acc : proto_loop (S fuel) (pre ++ []) (size pre) acc = parsed acc.
Proof. cbn [proto_loop]. rewrite app_nil_r. by rewrite Z.ltb_irrefl. Qed.

(** with a round per byte left, the loop ends, and on whole fields only *)
Lemma loop_sound fuel pre l acc :
  (length l < fuel)%nat →
  match proto_loop fuel (pre ++ l) (size pre) acc with
  | out_of_fuel => False
  | malformed => True
  | parsed f => wire l acc f
  end.
Proof.
  revert pre l acc. induction fuel as [|fuel IH]; intros pre l acc Hf; [lia|].
  destruct (decide (l = [])) as [->|Hl]; [rewrite loop_done; constructor|].
  destruct (round_cases fuel pre l acc Hl) as [->|(b & rest & acc' & -> & Hb)]; [done|].
  rewrite (round_field _ _ _ _ _ _ Hb). apply wire_field_length in Hb as Hlen. rewrite length_app in Hf.
  specialize (IH (pre ++ b) rest acc'). destruct (proto_loop _ _ _ _); [by apply IH; lia|done|].
  econstructor; [done|]. apply IH. lia.
Qed.

Lemma loop_complete l acc f : wire l acc f → ∀ fuel pre,
  (length l < fuel)%nat → proto_loop fuel (pre ++ l) (size pre) acc = parsed f.
Proof.
  induction 1 as [acc|b rest acc acc' f Hb _ IH]; intros fuel pre Hf; (destruct fuel as [|fuel]; [lia|]).
  - apply loop_done.
  - apply wire_field_length in Hb as Hlen. rewrite length_app in Hf.
    rewrite (round_field _ _ _ _ _ _ Hb). apply IH. lia.
Qed.

(** the encoder makes whole fields *)
Lemma key_ok n w :
  number_ok n → 0 ≤ w < 8 →
  groups max_groups (varint (8 * n + w)) ∧
  Z.shiftr (wire_value (varint (8 * n + w))) 3 = n ∧ Z.land (wire_value (varint (8 * n + w))) 7 = w.
Proof.
  unfold number_ok. intros Hn Hw. destruct (varint_ok (8 * n + w)) as [Hg Hv]; [lia|]. rewrite Hv by lia.
  split_and!; [done|..].
  - rewrite Z.shiftr_div_pow2 by lia. change (2 ^ 3) with 8. rewrite Z.mul_comm, Z.div_add_l by lia.
    rewrite Z.div_small by lia. lia.
  - change 7 with (Z.ones 3). rewrite Z.land_ones by lia. change (2 ^ 3) with 8.
    rewrite Z.add_comm, Z.mul_comm, Z.mod_add, Z.mod_small by lia. done.
Qed.

Lemma encode_wire f acc : field_ok f → wire_field (encode_field f) acc (keep_field acc f).
Proof.
  destruct f as [n v|n b|n b|n b]; intros [Hn Hv]; cbn [encode_field].
  - destruct (key_ok n 0) as (H1 & H2 & H3); [done|lia|]. rewrite Z.add_0_r in *.
    apply wire_varint; [done..|]. apply varint_ok. lia.
  - destruct (key_ok n 1) as (H1 & H2 & H3); [done|lia|]. by apply wire_fixed64.
  - destruct (key_ok n 2) as (H1 & H2 & H3); [done|lia|]. rewrite <-H2 at 2.
    destruct (varint_ok (Z.of_nat (length b))) as [Hg Hl]; [lia|]. apply wire_bytes; auto.
  - destruct (key_ok n 5) as (H1 & H2 & H3); [done|lia|]. by apply wire_fixed32.
Qed.

Lemma encode_message_wire fs acc : Forall field_ok fs → wire (encode_message fs) acc (fold_left keep_field fs acc).
Proof.
  revert acc. induction fs as [|f fs IH]; intros acc H; [constructor|].
  apply list.Forall_cons in H as [H1 H2]. apply wire_next with (keep_field acc f); [by apply encode_wire|by apply IH].
Qed.

(** ** Identifiers *)

Lemma lower_hex_app s t : lower_hex_text (s ++ t) ↔ lower_hex_text s ∧ lower_hex_text t.
Proof. apply Forall_app. Qed.

Lemma hex_char_lower d : 0 ≤ d < 16 → is_digit (hex_char d) || in_range 97 102 (hex_char d) = true.
Proof.
  intros H. apply (range_check (λ d, is_digit (hex_char d) || in_range 97 102 (hex_char d)) 16); [|lia].
  vm_compute. reflexivity.
Qed.

Lemma bytes_hex_lower bs : Forall byte_ok bs → lower_hex_text (bytes_hex bs).
Proof.
  induction 1 as [|b bs Hb _ IH]; [constructor|]. destruct (byte_nibbles b Hb). unfold bytes_hex. simpl.
  repeat constructor; auto using hex_char_lower.
Qed.

Lemma bytes_hex_length bs : length (bytes_hex bs) = (2 * length bs)%nat.
Proof. induction bs as [|b bs IH]; [done|]. unfold bytes_hex in *. simpl. rewrite IH. lia. Qed.

Lemma toLowerCase_hex s : forallb is_hex s = true → lower_hex_text (toLowerCase s).
Proof.
  intros H%forallb_Forall. apply Forall_map. eapply list.Forall_impl; [exact H|]. intros c. apply lower_hex_char.
Qed.

Lemma list_ind4 {A} (P : list A → Prop) :
  P [] → (∀ a, P [a]) → (∀ a b, P [a; b]) → (∀ a b c, P [a; b; c]) →
  (∀ a b c d l, P l → P (a :: b :: c :: d :: l)) → ∀ l, P l.
Proof. intros H0 H1 H2 H3 H4. fix IH 1. intros [|a [|b [|c [|d l]]]]; [exact H0|apply H1|apply H2|apply H3|apply H4, IH]. Qed.

Lemma b64_decode_ok vs bs : Forall (λ n, 0 ≤ n < 64) vs → b64_decode vs = Some bs → Forall byte_ok bs.
Proof.
  revert bs. induction vs as [|a|a b|a b c|a b c d l IH] using list_ind4; intros bs H E; cbn [b64_decode] in E;
    repeat match goal with H : Forall _ (_ :: _) |- _ => apply list.Forall_cons in H as [? H] end;
    [by injection E as <-|done| | |apply bind_Some in E as (r & Er & E)]; injection E as <-;
    repeat (apply list.Forall_cons; split); auto; unfold byte_ok; Z.div_mod_to_equations; lia.
Qed.

Lemma b64_val_range c n : b64_val c = Some n → 0 ≤ n < 64.
Proof. destruct c as [[] [] [] [] [] [] [] []]; vm_compute; try done; intros [= <-]; split; congruence. Qed.

Lemma atob_ok s bs : atob s = Some bs → Forall byte_ok bs.
Proof.
  unfold atob. intros (vs & Hv & Hd)%bind_Some. eapply b64_decode_ok; [|exact Hd].
  apply mapM_Some_1 in Hv. clear -Hv. induction Hv; constructor; eauto using b64_val_range.
Qed.

(** what an identifier of a challenge looks like *)
Definition hex_identifier (s : jstr) : Prop := s ≠ [] ∧ (length s mod 2 = 0)%nat ∧ lower_hex_text s.

Lemma normalizeIdentifier_ok v s : normalizeIdentifier v = Some s → hex_identifier s.
Proof.
  unfold normalizeIdentifier. destruct (truthy (trim v)); [|done]. simpl.
  destruct (isHexString _) eqn:E.
  - intros [= <-]. unfold isHexString in E. apply andb_true_iff in E as [El E]. apply andb_true_iff in E as [Et Eh].
    split; [|split; [|by apply toLowerCase_hex]].
    + intros H. apply (f_equal length) in H. rewrite toLowerCase_length in H.
      apply truthy_true in Et. by apply Et, nil_length_inv.
    + rewrite toLowerCase_length. by apply Nat.eqb_eq.
  - destruct (base64ToBytes _) as [[|b bs]|] eqn:Eb; [done| |done]. intros [= <-]. split; [done|].
    split; [|apply (bytes_hex_lower (b :: bs)); by eapply atob_ok].
    change ((length (bytes_hex (b :: bs)) mod 2)%nat = 0%nat). rewrite bytes_hex_length.
    rewrite Nat.mul_comm. apply Nat.Div0.mod_mul.
Qed.

Lemma identifier_ok raw s : identifier raw = Some s → hex_identifier s.
Proof.
  unfold identifier. destruct raw as [r|]; [|done]. destruct (truthy r); [|done].
  destruct (normalizeIdentifier r) as [i|] eqn:E; [|done]. destruct (truthy i); [|done].
  intros [= <-]. by eapply normalizeIdentifier_ok.
Qed.

(** ** Accepted challenges *)

Lemma unique_nonempty {A} `{EqDecision A} (x : A) l : unique (x :: l) ≠ [].
Proof.
  unfold unique. simpl. assert (∀ acc, acc ≠ [] →
    fold_left (λ acc x, if bool_decide (x ∈ acc) then acc else acc ++ [x]) l acc ≠ []) as H.
  { induction l as [|y l IH]; intros acc Ha; [done|]. simpl. apply IH.
    destruct (bool_decide (y ∈ acc)); [done|]. by destruct acc. }
  by apply H.
Qed.

Definition challenge_ok (c : ChallengeToken) : Prop :=
  hex_identifier (task_id c) ∧ hex_identifier (challenge_nonce c) ∧ allowed_proof_types (policy c) ≠ [].

Definition option_ok (o : option ChallengeToken) : Prop := ∀ c, o = Some c → challenge_ok c.

Lemma object_ok now v ps : option_ok (parseChallengeObject now v ps).
Proof.
  intros c. unfold parseChallengeObject.
  destruct (identifier (findStringValue TASK_KEYS v)) as [t|] eqn:Et; [|done].
  destruct (identifier (findStringValue NONCE_KEYS v)) as [n|] eqn:En; [|done].
  intros [= <-]. split; [by eapply identifier_ok|]. split; [by eapply identifier_ok|]. simpl.
  destruct (allowed_from _); [apply unique_nonempty|done].
Qed.

Lemma or_else_ok o p : option_ok o → option_ok p → option_ok (or_else o p).
Proof. intros H1 H2 c. destruct o; [apply H1|apply H2]. Qed.

Lemma bind_ok {A} (o : option A) f : (∀ a, option_ok (f a)) → option_ok (o ≫= f).
Proof. intros H c. destruct o as [a|]; [apply H|done]. Qed.

Lemma first_some_ok {A} (f : A → option ChallengeToken) l : (∀ a, option_ok (f a)) → option_ok (first_some f l).
Proof. intros H. induction l as [|a l IH]; [done|]. by apply or_else_ok. Qed.

Lemma payload_ok levels now b ps : option_ok (parseDecodedTokenPayload levels now b ps).
Proof.
  revert b. induction levels as [|levels IH]; intros b; [done|]. cbn [parseDecodedTokenPayload].
  apply or_else_ok; [apply bind_ok; intros v; apply object_ok|].
  destruct (parseChallengeTokenProtobuf b) as [[t n]|]; [apply object_ok|].
  destruct (_ && _); [|done]. apply or_else_ok; by apply bind_ok.
Qed.

Lemma token_ok now ps token : option_ok (parse_token now ps token).
Proof.
  unfold parse_token, parse_payload.
  apply or_else_ok; [apply payload_ok|]. apply or_else_ok; [apply bind_ok; intros b; apply payload_ok|].
  apply or_else_ok; [apply bind_ok; intros b; apply payload_ok|].
  apply first_some_ok. intros seg. apply bind_ok. intros b. apply payload_ok.
Qed.

Lemma any_ok now response ps c : parseChallengeAny now response ps = Some (Some c) → challenge_ok c.
Proof.
  unfold parseChallengeAny. destruct (parseChallengeObject now response ps) as [c'|] eqn:E.
  - intros [= <-]. by eapply object_ok.
  - assert (∀ o, option_ok o → Some o = Some (Some c) → challenge_ok c) as H by (intros o Ho [= Hc]; by apply Ho).
    destruct response; [done|..]; apply H;
      (apply or_else_ok; apply first_some_ok; [intros a; apply object_ok|apply token_ok]).
Qed.

(** * Properties *)

(** C37: the wire format is read back: whatever fields of the format a message is
    made of, of numbers below 2^28 and lengths below 2^31, in any order and with
    repetitions, the parser consumes exactly the message and keeps the last
    field 3 and the last field 4; a message that ends with both gives their
    bytes in hexadecimal. *)
Theorem protobuf_roundtrip fs :
  Forall field_ok fs →
  parse_fields (encode_message fs) = parsed (fold_left keep_field fs (mkFields None None)) ∧
  (∀ t n, t ≠ [] → n ≠ [] → field_ok (FBytes 3 t) → field_ok (FBytes 4 n) →
    parseChallengeTokenProtobuf (encode_message (fs ++ [FBytes 3 t; FBytes 4 n]))
      = Some (bytesToHex t, bytesToHex n)).
Proof.
  assert (∀ fs, Forall field_ok fs →
    parse_fields (encode_message fs) = parsed (fold_left keep_field fs (mkFields None None))) as H.
  { intros gs Hg. eapply (loop_complete _ _ _ (encode_message_wire gs _ Hg) _ []). unfold proto_fuel. lia. }
  intros Hf. split; [by apply H|]. intros t n Ht Hn Ht3 Hn4. unfold parseChallengeTokenProtobuf.
  rewrite H by (apply Forall_app; split; [done|repeat constructor; try apply Ht3; apply Hn4]).
  rewrite fold_left_app. simpl. by destruct t, n.
Qed.

(** C39: parsing any bytes terminates, within one round per byte, and it
    accepts exactly the bytes it should: whole fields of the four wire types,
    each with as many bytes as it announces (a negative length, a field that
    runs past the end, a varint without an end or of more than ten groups and
    another wire type are refused), of which it keeps the last field 3 and the
    last field 4. A length is what the language's 32-bit operators make of its
    groups. *)
Theorem protobuf_parse_terminates bs :
  parse_fields bs ≠ out_of_fuel ∧
  ∀ f, parse_fields bs = parsed f ↔ wire bs (mkFields None None) f.
Proof.
  pose proof (loop_sound (proto_fuel bs) [] bs (mkFields None None)) as H. unfold proto_fuel at 1 in H.
  split; [|intros f; split].
  - intros E. change (proto_loop _ _ _ _) with (parse_fields bs) in H. rewrite E in H. apply H. lia.
  - intros E. change (proto_loop _ _ _ _) with (parse_fields bs) in H. rewrite E in H. apply H. lia.
  - intros Hw. apply (loop_complete bs _ f Hw _ []). unfold proto_fuel. lia.
Qed.

(** C40: a challenge is only accepted with usable identifiers: whatever JSON the
    node answers with, and whatever tokens are nested in it, the task id and the
    nonce of an accepted challenge are non-empty lower-case hexadecimal of even
    length, and at least one proof type is allowed. *)
Theorem accepted_challenge_wellformed now response ps c :
  parseChallengeAny now response ps = Some (Some c) → challenge_ok c.
Proof.
  apply any_ok.
Qed.

(** A length prefix beyond 31 bits is read modulo 2^32: the value 2^32 is read
    as 0, and the field after it is taken from the bytes of this one. *)
Fact varint_wraps : readVarint (varint (2 ^ 32)) 0 = Some (0, 5).
Proof. reflexivity. Qed.

(** A length of -6 would move the loop back to its start, for ever. *)
Fact negative_length_refused :
  wire_value [250; 255; 255; 255; 15] = -6 ∧ parse_fields [2; 250; 255; 255; 255; 15] = malformed.
Proof. split; reflexivity. Qed.

Definition demo_message : list field := [FVarint 1 1; FFixed64 2 [1;2;3;4;5;6;7;8]; FFixed32 9 [0;0;0;0]].

Lemma protobuf_roundtrip_witness :
  Forall field_ok demo_message ∧
  parseChallengeTokenProtobuf (encode_message (demo_message ++ [FBytes 3 [171]; FBytes 4 [1; 255]]))
    = Some (js "ab", js "01ff").
Proof.
  assert (Forall field_ok demo_message) as H by (unfold number_ok; repeat constructor; simpl; lia).
  split; [exact H|].
  apply (proj2 (protobuf_roundtrip demo_message H) [171] [1; 255]); try done; unfold field_ok, number_ok; simpl; lia.
Defined.

(** a token in Base64 around a protocol-buffer message, inside the field "token" *)
Definition demo_response : json := JObj [(js "token", JStr (js "GgGrIgIB/w"))].

Definition demo_challenge : ChallengeToken :=
  mkChallenge (int_num 1) [] (js "ab") (js "01ff") (int_num 100) (int_num 160)
    (mkPolicy (int_num 64) (int_num 10485760) (int_num 1024) [p_hash; p_web4manifestroute]) [].

Lemma accepted_challenge_wellformed_witness :
  parseChallengeAny 100 demo_response [p_web4manifestroute] = Some (Some demo_challenge) ∧
  challenge_ok demo_challenge.
Proof.
  split; [vm_compute; reflexivity|].
  apply (accepted_challenge_wellformed 100 demo_response [p_web4manifestroute]). vm_compute. reflexivity.
Defined.
