(* ===== verification/Pouw.v ===== *)
(** * The proof-of-useful-work controller: the class PoUWController of
      src/lib-client-react-native-js/PoUWController.ts, lines 509 to 855

    The fields of the one instance are the record [controller]; a call that is
    suspended is an entry of [calls] with the await it stands at, and what it
    still needs.  Each method is cut at its awaits into functions on the record;
    [step] runs them in any order and is labelled with the receipts that enter
    the queue and the batches the node has taken. *)

From stdpp Require Import strings.
From S2P Require Import Prelude JsString JsMap Json Codec PouwToken.

Definition POUW_VERSION : Z := 1.
Definition DEFAULT_MAX_BATCH_SIZE : nat := 20.

Record Receipt := mkReceipt {
  r_version : Z; r_task_id : jstr; client_did : jstr; client_node_id : jstr;
  provider_id : jstr; content_id : jstr; proof_type : ProofType; bytes_verified : Z;
  result_ok : bool; started_at : Z; finished_at : Z; receipt_nonce : jstr;
  r_challenge_nonce : jstr; aux : jstr }.

Record SignedReceipt := mkSigned { receipt : Receipt; sig_scheme : jstr; signature : jstr }.

Definition proof_str (p : ProofType) : jstr :=
  match p with
  | p_hash => js "hash" | p_merkle => js "merkle" | p_signature => js "signature"
  | p_web4manifestroute => js "web4manifestroute" | p_web4contentserved => js "web4contentserved"
  end.

(** the text that is signed: the properties in the order of their sorted names *)
Definition receipt_json (r : Receipt) : json := JObj [
  (js "aux", JStr (aux r)); (js "bytes_verified", JNum (bytes_verified r));
  (js "challenge_nonce", JStr (r_challenge_nonce r)); (js "client_did", JStr (client_did r));
  (js "client_node_id", JStr (client_node_id r)); (js "content_id", JStr (content_id r));
  (js "finished_at", JNum (finished_at r)); (js "proof_type", JStr (proof_str (proof_type r)));
  (js "provider_id", JStr (provider_id r)); (js "receipt_nonce", JStr (receipt_nonce r));
  (js "result_ok", JBool (result_ok r)); (js "started_at", JNum (started_at r));
  (js "task_id", JStr (r_task_id r)); (js "version", JNum (r_version r))].
Definition receipt_text (r : Receipt) : jstr := stringify (receipt_json r).

(** ** The instance *)

(** whom a refresh of the challenge is for *)
Inductive purpose := for_start | for_receipt (pt : ProofType) (bytesVerified : Z) (aux : jstr).
Inductive after_submit := then_done | then_stop.

Inductive await :=
| at_identity
| at_challenge (cap : list ProofType) (p : purpose)
| at_fallback (cap : list ProofType) (p : purpose)
| at_refreshed (p : purpose)
| at_ensured (pt : ProofType) (bytesVerified : Z) (aux : jstr)
| at_signature (r : Receipt)
| at_answer (batch : list SignedReceipt) (k : after_submit)
| at_stop.

Record controller := mkController {
  clock : Z;                              (* Date.now() *)
  pendingReceipts : list SignedReceipt;
  activeChallenge : option ChallengeToken;
  batchTimer : option nat;
  intervals : list nat;                   (* the timers that are set *)
  next_interval : nat;
  clientDid : option jstr;
  clientNodeId : option jstr;
  isRunning : bool;
  calls : jsmap nat await;
  next_call : nat;
}.

Definition initial (t : Z) : controller := mkController t [] None None [] 0 None None false [] 0.

Definition set_pending p x := mkController (clock x) p (activeChallenge x) (batchTimer x) (intervals x)
  (next_interval x) (clientDid x) (clientNodeId x) (isRunning x) (calls x) (next_call x).
Definition set_challenge c x := mkController (clock x) (pendingReceipts x) c (batchTimer x) (intervals x)
  (next_interval x) (clientDid x) (clientNodeId x) (isRunning x) (calls x) (next_call x).
Definition set_timer t l n x := mkController (clock x) (pendingReceipts x) (activeChallenge x) t l n
  (clientDid x) (clientNodeId x) (isRunning x) (calls x) (next_call x).
Definition set_client d n x := mkController (clock x) (pendingReceipts x) (activeChallenge x) (batchTimer x)
  (intervals x) (next_interval x) d n (isRunning x) (calls x) (next_call x).
Definition set_running b x := mkController (clock x) (pendingReceipts x) (activeChallenge x) (batchTimer x)
  (intervals x) (next_interval x) (clientDid x) (clientNodeId x) b (calls x) (next_call x).
Definition set_calls m n x := mkController (clock x) (pendingReceipts x) (activeChallenge x) (batchTimer x)
  (intervals x) (next_interval x) (clientDid x) (clientNodeId x) (isRunning x) m n.
Definition set_clock t x := mkController t (pendingReceipts x) (activeChallenge x) (batchTimer x)
  (intervals x) (next_interval x) (clientDid x) (clientNodeId x) (isRunning x) (calls x) (next_call x).

(** the call [i] goes on to an await, or ends (by returning or by throwing) *)
Definition goes_to (i : nat) (a : await) (x : controller) : controller :=
  set_calls (mset i a (calls x)) (next_call x) x.
Definition ends (i : nat) (x : controller) : controller := set_calls (mdelete i (calls x)) (next_call x) x.

(** a new call *)
Definition spawn (f : nat → controller → controller) (x : controller) : controller :=
  f (next_call x) (set_calls (calls x) (S (next_call x)) x).

Section Controller.
Context (maxBatchSize : nat).

Definition nowSecs (x : controller) : Z := clock x / 1000.
Definition held (o : option jstr) : bool := match o with Some s => truthy s | None => false end.

(** ** Submitting *)

Definition submitBatch (i : nat) (k : after_submit) (x : controller) : controller :=
  match pendingReceipts x with
  | [] => match k with then_done => ends i x | then_stop => goes_to i at_stop x end
  | _ :: _ =>
      if held (clientDid x) then
        goes_to i (at_answer (take maxBatchSize (pendingReceipts x)) k)
          (set_pending (drop maxBatchSize (pendingReceipts x)) x)
      else match k with then_done => ends i x | then_stop => goes_to i at_stop x end
  end.

Definition answer_arrives (i : nat) (batch : list SignedReceipt) (k : after_submit) (ok : bool) (x : controller)
    : controller :=
  let x := if ok then x else set_pending (batch ++ pendingReceipts x) x in
  match k with then_done => ends i x | then_stop => goes_to i at_stop x end.

Definition flush (x : controller) : controller := spawn (λ i, submitBatch i then_done) x.
Definition timer_fires (x : controller) : controller := flush x.

Definition stop (x : controller) : controller :=
  let x := match batchTimer x with
           | Some t => set_timer None (List.filter (λ u, negb (u =? t)%nat) (intervals x)) (next_interval x) x
           | None => x
           end in
  spawn (λ i, submitBatch i then_stop) x.

Definition stop_ends (i : nat) (x : controller) : controller := ends i (set_running false x).

(** ** Challenges *)

Definition isChallengeValidForProofs (challenge : option ChallengeToken) (proofTypes : list ProofType)
    (x : controller) : bool :=
  match challenge with
  | None => false
  | Some c =>
      if num_leb (expires_at c) (nowSecs x + 30) then false
      else forallb (λ pt, bool_decide (pt ∈ allowed_proof_types (policy c))) proofTypes
  end.

(** what the first request, and the one without [cap], accept; [response] is
    [None] when the request failed *)
Definition accept_challenge (now : Z) (cap : list ProofType) (response : option json) : option ChallengeToken :=
  match v ← response; parseChallengeAny now v cap with
  | Some (Some c) =>
      if forallb (λ pt, bool_decide (pt ∈ allowed_proof_types (policy c))) cap then Some c else None
  | _ => None
  end.

Definition accept_fallback (now : Z) (cap : list ProofType) (response : option json) : option ChallengeToken :=
  match v ← response; parseChallengeAny now v cap with
  | Some (Some c) =>
      if existsb (λ pt, bool_decide (pt ∈ cap)) (allowed_proof_types (policy c)) then Some c else None
  | _ => None
  end.

Definition challenge_arrives (i : nat) (cap : list ProofType) (p : purpose) (response : option json)
    (x : controller) : controller :=
  match accept_challenge (nowSecs x) cap response with
  | Some c => goes_to i (at_refreshed p) (set_challenge (Some c) x)
  | None => goes_to i (at_fallback cap p) x
  end.

Definition fallback_arrives (i : nat) (cap : list ProofType) (p : purpose) (response : option json)
    (x : controller) : controller :=
  goes_to i (at_refreshed p) (set_challenge (accept_fallback (nowSecs x) cap response) x).

Definition allows_hash (o : option ChallengeToken) : bool :=
  match o with Some c => bool_decide (p_hash ∈ allowed_proof_types (policy c)) | None => false end.

(** [refreshChallenge] has returned: the rest of [start], or of [ensureChallenge] *)
Definition refreshed (i : nat) (p : purpose) (x : controller) : controller :=
  match p with
  | for_start =>
      let t := next_interval x in
      ends i (set_running true (set_timer (Some t) (intervals x ++ [t]) (S t) x))
  | for_receipt pt bytes aux =>
      if isChallengeValidForProofs (activeChallenge x) [pt] x || allows_hash (activeChallenge x)
      then goes_to i (at_ensured pt bytes aux) x else ends i x
  end.

(** ** Starting *)

Definition start (x : controller) : controller :=
  if isRunning x then x else spawn (λ i, goes_to i at_identity) x.

(** the DID and the node id in Base64, or [None] for an error *)
Definition identity_arrives (i : nat) (answer : option (jstr * jstr)) (x : controller) : controller :=
  match answer with
  | None => ends i x
  | Some (did, nodeId) =>
      let x := set_client (Some did) (clientNodeId x) x in
      match base64ToHex nodeId with
      | None => ends i x
      | Some hex => goes_to i (at_challenge [p_web4manifestroute; p_web4contentserved] for_start)
                      (set_client (clientDid x) (Some hex) x)
      end
  end.

(** ** Receipts *)

Definition createAndQueueReceipt (pt : ProofType) (bytes : Z) (aux : jstr) (x : controller) : controller :=
  spawn (λ i x,
    if isChallengeValidForProofs (activeChallenge x) [pt] x then goes_to i (at_ensured pt bytes aux) x
    else goes_to i (at_challenge [pt] (for_receipt pt bytes aux)) x) x.

Definition recordWeb4ManifestRoute (manifestCid domain : jstr) (routeHops manifestSizeBytes : Z)
    (quicSessionId : bytes) : controller → controller :=
  createAndQueueReceipt p_web4manifestroute (Z.max manifestSizeBytes MIN_BYTES_PER_RECEIPT)
    (stringify (JObj [(js "manifest_cid", JStr manifestCid); (js "domain", JStr domain);
       (js "route_hops", JNum routeHops); (js "quic_session_id", JStr (bytesToHex (take 8 quicSessionId)))])).

Definition recordWeb4ContentServed (manifestCid domain : jstr) (contentSizeBytes : Z) (servedFromCache : bool)
    (quicSessionId : bytes) : controller → controller :=
  createAndQueueReceipt p_web4contentserved (Z.max contentSizeBytes MIN_BYTES_PER_RECEIPT)
    (stringify (JObj [(js "manifest_cid", JStr manifestCid); (js "domain", JStr domain);
       (js "served_from_cache", JBool servedFromCache);
       (js "quic_session_id", JStr (bytesToHex (take 8 quicSessionId)))])).

Definition effective_type (pt : ProofType) (allowed : list ProofType) : option ProofType :=
  if bool_decide (pt ∈ allowed) then Some pt
  else if bool_decide (p_hash ∈ allowed) then Some p_hash else None.

(** [contentId] and [nonce] are the two calls of [randomHex(32)] *)
Definition ensured (i : nat) (pt : ProofType) (bytes : Z) (aux contentId nonce : jstr) (x : controller) : controller :=
  match activeChallenge x, clientDid x, clientNodeId x with
  | Some c, Some did, Some node =>
      if negb (truthy did) || negb (truthy node) then ends i x
      else
        match effective_type pt (allowed_proof_types (policy c)) with
        | None => ends i x
        | Some effective =>
            let now := nowSecs x in
            goes_to i (at_signature (mkReceipt POUW_VERSION (task_id c) did node [] contentId effective bytes
              true (now - 1) now nonce (challenge_nonce c) aux)) x
        end
  | _, _, _ => ends i x
  end.

(** what [signReceipt] returns for the native signature; [None] when it throws *)
Definition signReceipt (r : Receipt) (sigB64 : option jstr) : option SignedReceipt :=
  b ← sigB64; s ← base64ToHex b; Some (mkSigned r (js "dilithium5") s).

Definition signature_arrives (i : nat) (r : Receipt) (sigB64 : option jstr) (x : controller) : controller :=
  match signReceipt r sigB64 with
  | None => ends i x
  | Some signed =>
      let x := set_pending (pendingReceipts x ++ [signed]) x in
      if (maxBatchSize <=? length (pendingReceipts x))%nat then submitBatch i then_done x else ends i x
  end.

Definition pendingCount (x : controller) : nat := length (pendingReceipts x).

(** ** The controller as a labelled step relation *)

Inductive event := silent | queued (r : SignedReceipt) | delivered (batch : list SignedReceipt).

Inductive step : controller → event → controller → Prop :=
| do_time x t : clock x ≤ t → step x silent (set_clock t x)
| do_start x : step x silent (start x)
| do_stop x : step x silent (stop x)
| do_flush x : step x silent (flush x)
| do_timer x t : t ∈ intervals x → step x silent (timer_fires x)
| do_route x c d h n s : step x silent (recordWeb4ManifestRoute c d h n s x)
| do_content x c d n b s : step x silent (recordWeb4ContentServed c d n b s x)
| do_identity x i a : mget i (calls x) = Some at_identity → step x silent (identity_arrives i a x)
| do_challenge x i cap p v :
    mget i (calls x) = Some (at_challenge cap p) → step x silent (challenge_arrives i cap p v x)
| do_fallback x i cap p v :
    mget i (calls x) = Some (at_fallback cap p) → step x silent (fallback_arrives i cap p v x)
| do_refreshed x i p : mget i (calls x) = Some (at_refreshed p) → step x silent (refreshed i p x)
| do_ensured x i pt n a c1 c2 :
    mget i (calls x) = Some (at_ensured pt n a) → step x silent (ensured i pt n a c1 c2 x)
| do_signature x i r s :
    mget i (calls x) = Some (at_signature r) →
    step x (match signReceipt r s with Some signed => queued signed | None => silent end) (signature_arrives i r s x)
| do_answer x i batch k ok :
    mget i (calls x) = Some (at_answer batch k) →
    step x (if (ok : bool) then delivered batch else silent) (answer_arrives i batch k ok x)
| do_stopped x i : mget i (calls x) = Some at_stop → step x silent (stop_ends i x).

Inductive steps : controller → list event → controller → Prop :=
| steps_refl x : steps x [] x
| steps_snoc x es y e z : steps x es y → step y e z → steps x (es ++ [e]) z.

Definition reachable (x : controller) : Prop := ∃ t es, steps (initial t) es x.

End Controller.

(** * The abstract queue

    What the controller promises about its receipts, whatever the network does:
    a bag that only signing adds to and only a batch the node took is removed
    from. *)

Definition ledger : Type := list SignedReceipt.

Inductive ledger_step : ledger → event → ledger → Prop :=
| ledger_stutters l l' : l ≡ₚ l' → ledger_step l silent l'
| ledger_queues l r l' : r :: l ≡ₚ l' → ledger_step l (queued r) l'
| ledger_delivers l b l' : l ≡ₚ b ++ l' → ledger_step l (delivered b) l'.

Inductive ledger_steps : ledger → list event → ledger → Prop :=
| ledger_refl l : ledger_steps l [] l
| ledger_snoc l es l' e l'' : ledger_steps l es l' → ledger_step l' e l'' → ledger_steps l (es ++ [e]) l''.

(** the receipts that entered a run and those that left it *)
Definition queued_in (es : list event) : list SignedReceipt :=
  flat_map (λ e, match e with queued r => [r] | _ => [] end) es.
Definition delivered_in (es : list event) : list SignedReceipt :=
  flat_map (λ e, match e with delivered b => b | _ => [] end) es.

Definition batch_of (a : await) : list SignedReceipt := match a with at_answer b _ => b | _ => [] end.
Definition in_flight (m : jsmap nat await) : list SignedReceipt := flat_map (λ e, batch_of e.2) m.

(** the receipts the controller still answers for: queued, or in a batch under way *)
Definition accounted (x : controller) : ledger := pendingReceipts x ++ in_flight (calls x).

(** * Lemmas *)

(** ** The calls *)

Lemma mdelete_set_same (i : nat) (a : await) m : mdelete i (mset i a m) = mdelete i m.
Proof.
  induction m as [|[j b] m IH]; simpl; [by rewrite decide_True|].
  destruct (decide (i = j)) as [->|Hn]; simpl; [by rewrite decide_True|]. by rewrite decide_False, IH.
Qed.

Lemma in_flight_delete i m :
  mwf m →
  in_flight m ≡ₚ (match mget i m with Some a => batch_of a | None => [] end) ++ in_flight (mdelete i m).
Proof.
  unfold mwf. induction m as [|[j b] m IH]; simpl; [done|]. intros [Hn Hd]%list.NoDup_cons.
  destruct (decide (i = j)) as [->|Hne].
  - rewrite mdelete_id; [done|]. by apply mget_None_in.
  - simpl. rewrite IH by done. rewrite !(assoc_L app). f_equiv. apply Permutation_app_comm.
Qed.

Lemma in_flight_set i a m : mwf m → in_flight (mset i a m) ≡ₚ batch_of a ++ in_flight (mdelete i m).
Proof.
  intros H. rewrite (in_flight_delete i (mset i a m)) by (by apply mwf_set).
  by rewrite mget_set_eq, mdelete_set_same.
Qed.

(** what the other calls have under way *)
Definition others (i : nat) (x : controller) : list SignedReceipt := in_flight (mdelete i (calls x)).

Definition calls_ok (x : controller) : Prop :=
  mwf (calls x) ∧ ∀ i, (next_call x ≤ i)%nat → mget i (calls x) = None.

Lemma accounted_at i a x :
  calls_ok x → mget i (calls x) = Some a → accounted x ≡ₚ pendingReceipts x ++ batch_of a ++ others i x.
Proof. intros [H _] E. unfold accounted, others. rewrite (in_flight_delete i) by done. by rewrite E. Qed.

Lemma accounted_goes i a x :
  calls_ok x → accounted (goes_to i a x) ≡ₚ pendingReceipts x ++ batch_of a ++ others i x.
Proof. intros [H _]. unfold accounted, others. simpl. by rewrite in_flight_set. Qed.

Lemma accounted_ends i x : accounted (ends i x) = pendingReceipts x ++ others i x.
Proof. done. Qed.

Lemma calls_ok_goes i a x : calls_ok x → (i < next_call x)%nat → calls_ok (goes_to i a x).
Proof.
  intros [H Hf] Hi. split; [by apply mwf_set|]. intros j Hj. simpl in *. rewrite mget_set_ne by lia. by apply Hf.
Qed.

Lemma calls_ok_ends i x : calls_ok x → calls_ok (ends i x).
Proof.
  intros [H Hf]. split; [by apply mwf_delete|]. intros j Hj. simpl in *. rewrite mget_delete.
  destruct (decide _); [done|]. by apply Hf.
Qed.

Lemma calls_ok_lt x i a : calls_ok x → mget i (calls x) = Some a → (i < next_call x)%nat.
Proof. intros [_ Hf] E. destruct (Nat.lt_ge_cases i (next_call x)) as [|H]; [done|]. by rewrite Hf in E. Qed.

Section Invariants.
Context (maxBatchSize : nat).

Abbreviation submitBatch := (submitBatch maxBatchSize).
Abbreviation step := (step maxBatchSize).

Lemma accounted_submit i k x :
  calls_ok x → accounted (submitBatch i k x) ≡ₚ pendingReceipts x ++ others i x.
Proof.
  intros H. unfold Pouw.submitBatch. destruct (pendingReceipts x) as [|r l] eqn:E.
  - destruct k; [by rewrite accounted_ends, E|]. by rewrite accounted_goes, E.
  - rewrite <-E. destruct (held (clientDid x)).
    + rewrite accounted_goes by done. simpl. rewrite (assoc_L app). apply Permutation_app; [|done].
      rewrite Permutation_app_comm. by rewrite take_drop.
    + destruct k; [by rewrite accounted_ends|]. by rewrite accounted_goes.
Qed.

(** ** The simulation *)

Lemma silent_step l l' : l ≡ₚ l' → ledger_step l silent l'.
Proof. apply ledger_stutters. Qed.

(** the call [i], which has no batch under way, goes on without one *)
Lemma goes_silently i a b x y :
  calls_ok x → mget i (calls x) = Some a → batch_of a = [] → batch_of b = [] →
  pendingReceipts y = pendingReceipts x → calls y = calls x →
  ledger_step (accounted x) silent (accounted (goes_to i b y)).
Proof.
  intros H E Ea Eb Ep Ec. apply silent_step. rewrite (accounted_at i a) by done.
  unfold accounted. simpl. rewrite Ep, Ec, in_flight_set by apply H.
  by rewrite Ea, Eb.
Qed.

Lemma ends_silently i a x y :
  calls_ok x → mget i (calls x) = Some a → batch_of a = [] →
  pendingReceipts y = pendingReceipts x → calls y = calls x →
  ledger_step (accounted x) silent (accounted (ends i y)).
Proof.
  intros H E Ea Ep Ec. apply silent_step. rewrite (accounted_at i a), Ea by done.
  by rewrite accounted_ends, Ep; unfold others; rewrite Ec.
Qed.

(** a new call has nothing under way *)
Lemma spawned x : calls_ok x →
  calls_ok (set_calls (calls x) (S (next_call x)) x) ∧ others (next_call x) x = in_flight (calls x).
Proof.
  intros [H Hf]. split; [split; [done|]; intros i Hi; apply Hf; simpl in Hi; lia|].
  unfold others. by rewrite mdelete_id by (apply Hf; lia).
Qed.

Lemma submit_spawned k x y :
  calls_ok x → pendingReceipts y = pendingReceipts x → calls y = calls x → next_call y = next_call x →
  ledger_step (accounted x) silent (accounted (spawn (λ i, submitBatch i k) y)).
Proof.
  intros H Ep Ec En. assert (calls_ok y) as Hy by (destruct H; split; rewrite Ec; [done|by rewrite En]).
  apply silent_step. destruct (spawned y Hy) as [H1 H2]. unfold spawn. rewrite accounted_submit by done.
  unfold accounted, others in *. simpl. by rewrite H2, Ep, Ec.
Qed.

Lemma goes_spawned a x : calls_ok x → batch_of a = [] →
  ledger_step (accounted x) silent (accounted (spawn (λ i, goes_to i a) x)).
Proof.
  intros H Ea. apply silent_step. destruct (spawned x H) as [H1 H2]. unfold spawn. rewrite accounted_goes by done.
  rewrite Ea. unfold accounted, others in *. simpl. by rewrite H2.
Qed.

Lemma record_spawned pt n a x : calls_ok x →
  ledger_step (accounted x) silent (accounted (createAndQueueReceipt pt n a x)).
Proof.
  intros H. unfold createAndQueueReceipt.
  destruct (isChallengeValidForProofs (activeChallenge x) [pt] x) eqn:E.
  - unfold spawn. cbn [activeChallenge set_calls].
    change (isChallengeValidForProofs (activeChallenge x) [pt] (set_calls (calls x) (S (next_call x)) x))
      with (isChallengeValidForProofs (activeChallenge x) [pt] x). rewrite E. by apply goes_spawned.
  - unfold spawn. cbn [activeChallenge set_calls].
    change (isChallengeValidForProofs (activeChallenge x) [pt] (set_calls (calls x) (S (next_call x)) x))
      with (isChallengeValidForProofs (activeChallenge x) [pt] x). rewrite E.
    by apply (goes_spawned (at_challenge [pt] (for_receipt pt n a))).
Qed.

Lemma step_simulated x e y : calls_ok x → step x e y → ledger_step (accounted x) e (accounted y).
Proof.
  intros H Hs. destruct Hs as [x t Ht|x|x|x|x t Ht|x c d h n s|x c d n b s|x i a Hi|x i cap p v Hi|x i cap p v Hi
    |x i p Hi|x i pt n a c1 c2 Hi|x i r s Hi|x i batch k ok Hi|x i Hi].
  - by apply silent_step.
  - unfold start. destruct (isRunning x); [by apply silent_step|by apply goes_spawned].
  - unfold stop. destruct (batchTimer x); by apply submit_spawned.
  - by apply submit_spawned.
  - by apply submit_spawned.
  - by apply record_spawned.
  - by apply record_spawned.
  - unfold identity_arrives. destruct a as [[did nodeId]|]; [|by eapply ends_silently].
    destruct (base64ToHex nodeId); [by eapply goes_silently|by eapply ends_silently].
  - unfold challenge_arrives. destruct (accept_challenge _ _ _); by eapply goes_silently.
  - by eapply goes_silently.
  - unfold refreshed. destruct p as [|pt n a]; [by eapply ends_silently|].
    destruct (_ || _); [by eapply goes_silently|by eapply ends_silently].
  - unfold ensured. destruct (activeChallenge x), (clientDid x), (clientNodeId x); try by eapply ends_silently.
    destruct (_ || _); [by eapply ends_silently|].
    destruct (effective_type _ _); [by eapply goes_silently|by eapply ends_silently].
  - unfold signature_arrives. destruct (signReceipt r s) as [signed|]; [|by eapply ends_silently].
    apply ledger_queues. rewrite (accounted_at i (at_signature r)) by done. simpl.
    assert (signed :: pendingReceipts x ++ others i x ≡ₚ (pendingReceipts x ++ [signed]) ++ others i x) as E
      by (by rewrite <-Permutation_cons_append).
    destruct (_ <=? _)%nat; [|by rewrite accounted_ends]. by rewrite accounted_submit.
  - unfold answer_arrives. pose proof (accounted_at i _ x H Hi) as E. simpl in E. destruct ok.
    + apply ledger_delivers. rewrite E, (assoc_L app), (Permutation_app_comm (pendingReceipts x)), <-(assoc_L app).
      f_equiv. destruct k; [done|]. by rewrite accounted_goes.
    + apply silent_step. rewrite E, (assoc_L app), (Permutation_app_comm (pendingReceipts x)).
      destruct k; [done|]. by rewrite accounted_goes.
  - by eapply ends_silently.
Qed.

(** ** The invariant *)

(** the receipt names an accepted challenge and a proof type its policy allows *)
Definition receipt_sound (r : Receipt) : Prop :=
  r_version r = POUW_VERSION ∧ MIN_BYTES_PER_RECEIPT ≤ bytes_verified r ∧ result_ok r = true ∧
  finished_at r = started_at r + 1 ∧ truthy (client_did r) = true ∧ truthy (client_node_id r) = true ∧
  ∃ c, challenge_ok c ∧ r_task_id r = task_id c ∧ r_challenge_nonce r = challenge_nonce c ∧
       proof_type r ∈ allowed_proof_types (policy c).

Definition all_sound (l : list SignedReceipt) : Prop := Forall (λ s, receipt_sound (receipt s)) l.

Definition purpose_ok (p : purpose) : Prop :=
  match p with for_start => True | for_receipt _ n _ => MIN_BYTES_PER_RECEIPT ≤ n end.

Definition await_ok (a : await) : Prop :=
  match a with
  | at_challenge _ p | at_fallback _ p | at_refreshed p => purpose_ok p
  | at_ensured _ n _ => MIN_BYTES_PER_RECEIPT ≤ n
  | at_signature r => receipt_sound r
  | at_answer b _ => (1 ≤ length b)%nat ∧ (length b ≤ maxBatchSize)%nat ∧ all_sound b
  | at_identity | at_stop => True
  end.

Record pouw_ok (x : controller) : Prop := {
  po_calls : calls_ok x;
  po_challenge : ∀ c, activeChallenge x = Some c → challenge_ok c;
  po_pending : all_sound (pendingReceipts x);
  po_awaits : mall (λ _ a, await_ok a) (calls x);
}.

Hypothesis batch_positive : (1 ≤ maxBatchSize)%nat.

Lemma ok_goes i a x : pouw_ok x → (i < next_call x)%nat → await_ok a → pouw_ok (goes_to i a x).
Proof. intros [] Hi Ha. constructor; auto; [by apply calls_ok_goes|by apply mall_set]. Qed.

Lemma ok_ends i x : pouw_ok x → pouw_ok (ends i x).
Proof. intros []. constructor; auto; [by apply calls_ok_ends|by apply mall_delete]. Qed.

Lemma ok_spawned x : pouw_ok x → pouw_ok (set_calls (calls x) (S (next_call x)) x).
Proof. intros []. constructor; auto. by apply spawned. Qed.

Lemma ok_set_challenge o x : (∀ c, o = Some c → challenge_ok c) → pouw_ok x → pouw_ok (set_challenge o x).
Proof. intros Ho []. by constructor. Qed.

Lemma ok_set_pending l x : all_sound l → pouw_ok x → pouw_ok (set_pending l x).
Proof. intros Hl []. by constructor. Qed.

Lemma ok_submit i k x : pouw_ok x → (i < next_call x)%nat → pouw_ok (submitBatch i k x).
Proof.
  intros H Hi. unfold Pouw.submitBatch. destruct (pendingReceipts x) as [|r l] eqn:E.
  - destruct k; [by apply ok_ends|by apply ok_goes].
  - rewrite <-E. destruct (held _); [|destruct k; [by apply ok_ends|by apply ok_goes]].
    pose proof (po_pending _ H) as Hp. apply ok_goes; [|done|].
    + apply ok_set_pending; [by apply Forall_drop|done].
    + cbn [await_ok]. rewrite length_take. split; [rewrite E; simpl; lia|]. split; [lia|by apply Forall_take].
Qed.

Lemma accept_challenge_ok now cap v c : accept_challenge now cap v = Some c → challenge_ok c.
Proof.
  unfold accept_challenge. destruct v as [v|]; [|done]. simpl.
  destruct (parseChallengeAny now v cap) as [[c'|]|] eqn:E; [|done..]. destruct (forallb _ _); [|done].
  intros [= <-]. by eapply any_ok.
Qed.

Lemma accept_fallback_ok now cap v c : accept_fallback now cap v = Some c → challenge_ok c.
Proof.
  unfold accept_fallback. destruct v as [v|]; [|done]. simpl.
  destruct (parseChallengeAny now v cap) as [[c'|]|] eqn:E; [|done..]. destruct (existsb _ _); [|done].
  intros [= <-]. by eapply any_ok.
Qed.

Lemma effective_allowed pt l e : effective_type pt l = Some e → e ∈ l.
Proof.
  unfold effective_type. destruct (bool_decide (pt ∈ l)) eqn:E1; breflect; [by intros [= <-]|].
  destruct (bool_decide (p_hash ∈ l)) eqn:E2; breflect; [by intros [= <-]|done].
Qed.

Lemma ok_ensured i pt n a c1 c2 x :
  pouw_ok x → (i < next_call x)%nat → MIN_BYTES_PER_RECEIPT ≤ n → pouw_ok (ensured i pt n a c1 c2 x).
Proof.
  intros H Hi Hn. unfold ensured. destruct (activeChallenge x) as [c|] eqn:Ec; [|by apply ok_ends].
  destruct (clientDid x) as [did|]; [|by apply ok_ends]. destruct (clientNodeId x) as [node|]; [|by apply ok_ends].
  destruct (negb (truthy did) || negb (truthy node)) eqn:Et; [by apply ok_ends|]. breflect.
  destruct (effective_type _ _) as [e|] eqn:Ee; [|by apply ok_ends]. apply ok_goes; [done..|].
  unfold await_ok, receipt_sound. simpl. repeat split; auto; [lia|]. exists c.
  split; [by apply (po_challenge _ H)|]. repeat split. by eapply effective_allowed.
Qed.

Lemma ok_record pt n a x : pouw_ok x → MIN_BYTES_PER_RECEIPT ≤ n → pouw_ok (createAndQueueReceipt pt n a x).
Proof.
  intros H Hn. unfold createAndQueueReceipt, spawn. apply ok_spawned in H.
  destruct (isChallengeValidForProofs _ _ _); apply ok_goes; simpl; auto; lia.
Qed.

Lemma pouw_ok_step x e y : step x e y → pouw_ok x → pouw_ok y.
Proof.
  intros Hs H. destruct Hs as [x t Ht|x|x|x|x t Ht|x c d h n s|x c d n b s|x i a Hi|x i cap p v Hi|x i cap p v Hi
    |x i p Hi|x i pt n a c1 c2 Hi|x i r s Hi|x i batch k ok Hi|x i Hi];
    try (pose proof (calls_ok_lt _ _ _ (po_calls _ H) Hi) as Hl; pose proof (po_awaits _ H i _ Hi) as Ha; simpl in Ha).
  - by destruct H.
  - unfold start. destruct (isRunning x); [done|]. apply ok_spawned in H. apply ok_goes; simpl; auto; lia.
  - unfold stop, spawn. apply ok_submit; [|simpl; lia]. apply ok_spawned. destruct (batchTimer x); by destruct H.
  - unfold flush, spawn. apply ok_submit; [by apply ok_spawned|simpl; lia].
  - unfold timer_fires, flush, spawn. apply ok_submit; [by apply ok_spawned|simpl; lia].
  - apply ok_record; [done|lia].
  - apply ok_record; [done|lia].
  - unfold identity_arrives. destruct a as [[did nodeId]|]; [|by apply ok_ends].
    assert (∀ d n, pouw_ok (set_client d n x)) as Hc by (intros d n; by destruct H).
    destruct (base64ToHex nodeId) as [hex|]; [|by apply ok_ends].
    apply ok_goes; [exact (Hc (Some did) (Some hex))|done|done].
  - unfold challenge_arrives. destruct (accept_challenge _ _ _) as [c|] eqn:E; [|by apply ok_goes].
    apply ok_goes; [|done..]. apply ok_set_challenge; [|done]. intros ? [= <-]. by eapply accept_challenge_ok.
  - apply ok_goes; [|done..]. apply ok_set_challenge; [|done]. intros c. apply accept_fallback_ok.
  - unfold refreshed. destruct p as [|pt n a].
    + apply ok_ends. by destruct H.
    + destruct (_ || _); [by apply ok_goes|by apply ok_ends].
  - by apply ok_ensured.
  - unfold signature_arrives. destruct (signReceipt r s) as [signed|] eqn:E; [|by apply ok_ends].
    assert (receipt signed = r) as Er.
    { unfold signReceipt in E. apply bind_Some in E as (b & _ & E). apply bind_Some in E as (t & _ & E). by injection E as <-. }
    assert (pouw_ok (set_pending (pendingReceipts x ++ [signed]) x)) as Hp.
    { apply ok_set_pending; [|done]. apply Forall_app. split; [apply H|]. constructor; [by rewrite Er|constructor]. }
    destruct (_ <=? _)%nat; [by apply ok_submit|by apply ok_ends].
  - unfold answer_arrives. set (y := if ok then x else _).
    assert (pouw_ok y) as Hy.
    { subst y. destruct ok; [done|]. apply ok_set_pending; [|done]. apply Forall_app. split; [apply Ha|apply H]. }
    assert (next_call y = next_call x) as En by (subst y; by destruct ok).
    destruct k; [by apply ok_ends|]. apply ok_goes; [done|by rewrite En|done].
  - unfold stop_ends. apply ok_ends. by destruct H.
Qed.

Lemma pouw_ok_initial t : pouw_ok (initial t).
Proof. constructor; simpl; [split; [apply mwf_nil|done]|done|constructor|apply mall_nil]. Qed.

Lemma steps_ok t es x : steps maxBatchSize (initial t) es x → pouw_ok x.
Proof.
  remember (initial t) as x0 eqn:E. induction 1 as [x|x es y e z H IH Hs]; subst; [apply pouw_ok_initial|].
  eapply pouw_ok_step; [exact Hs|]. by apply IH.
Qed.

(** ** Runs *)

Lemma delivered_snoc es e : delivered_in (es ++ [e]) = delivered_in es ++ match e with delivered b => b | _ => [] end.
Proof. unfold delivered_in. rewrite flat_map_app. simpl. by rewrite app_nil_r. Qed.

Lemma queued_snoc es e : queued_in (es ++ [e]) = queued_in es ++ match e with queued r => [r] | _ => [] end.
Proof. unfold queued_in. rewrite flat_map_app. simpl. by rewrite app_nil_r. Qed.

(** a ledger that starts empty holds what was queued and not delivered *)
Lemma ledger_balance l es l' : ledger_steps l es l' → l ++ queued_in es ≡ₚ l' ++ delivered_in es.
Proof.
  induction 1 as [l|l es l' e l'' H IH Hs]; [done|]. rewrite queued_snoc, delivered_snoc.
  rewrite (assoc_L app l), IH. destruct Hs as [l' l'' E|l' r l'' E|l' b l'' E]; rewrite ?app_nil_r.
  - by rewrite E.
  - rewrite <-E, Permutation_app_comm. done.
  - rewrite E, <-(assoc_L app), Permutation_app_comm. by rewrite (assoc_L app).
Qed.

(** * Properties *)

(** C28: no receipt is lost or sent twice: in every interleaving of recording,
    flushing, stopping and timers, with batches that fail and overlap, the
    controller implements the abstract queue. What it answers for, queued or in
    a batch under way, changes exactly as the queue does, and a run's signed
    receipts are, as a bag, those it still answers for and those of the batches
    the node took. *)
Theorem controller_refines_ledger t es x :
  steps maxBatchSize (initial t) es x →
  ledger_steps [] es (accounted x) ∧ queued_in es ≡ₚ accounted x ++ delivered_in es.
Proof.
  intros H. assert (ledger_steps [] es (accounted x)) as Hl.
  { remember (initial t) as x0 eqn:E. induction H as [x|x es y e z H IH Hs]; subst; [constructor|].
    eapply ledger_snoc; [by apply IH|]. eapply step_simulated; [|exact Hs]. by eapply po_calls, steps_ok. }
  split; [done|]. by apply (ledger_balance []).
Qed.

(** Every receipt the node can be sent is sound: it names an accepted
    challenge, a proof type that challenge's policy allows, at least a kilobyte,
    and an identity; and a batch under way holds between one receipt and the
    limit. *)
Fact receipts_sound x :
  reachable maxBatchSize x →
  all_sound (accounted x) ∧
  (∀ i b k, mget i (calls x) = Some (at_answer b k) → (1 ≤ length b)%nat ∧ (length b ≤ maxBatchSize)%nat).
Proof.
  intros (t & es & H%steps_ok). split.
  - unfold accounted. apply Forall_app. split; [apply H|]. unfold in_flight. apply Forall_flat_map.
    apply list.Forall_forall. intros [i a] Hin. destruct (po_calls _ H) as [Hw _].
    pose proof (po_awaits _ H i a (in_mget_Some _ _ _ Hw Hin)) as Ha. destruct a; try constructor. apply Ha.
  - intros i b k E. destruct (po_awaits _ H i _ E) as (H1 & H2 & _). by split.
Qed.

End Invariants.

(** A timer can survive a stop: a run exists in which two overlapping calls
    of [start] both pass the guard, each sets an interval, the first of which is
    then forgotten, and after [stop] has finished it still fires. *)
Fact double_start_leaks_timer :
  ∃ x t, reachable DEFAULT_MAX_BATCH_SIZE x ∧
    isRunning x = false ∧ batchTimer x = None ∧ calls x = [] ∧ intervals x = [t].
Proof.
  pose (x1 := start (initial 0)). pose (x2 := start x1).
  pose (x3 := identity_arrives 0 (Some (js "did:zhtp:aa", js "AAAA")) x2).
  pose (x4 := identity_arrives 1 (Some (js "did:zhtp:aa", js "AAAA")) x3).
  pose (cap := [p_web4manifestroute; p_web4contentserved]).
  pose (x5 := challenge_arrives 0 cap for_start None x4). pose (x6 := challenge_arrives 1 cap for_start None x5).
  pose (x7 := fallback_arrives 0 cap for_start None x6). pose (x8 := fallback_arrives 1 cap for_start None x7).
  pose (x9 := refreshed 0 for_start x8). pose (x10 := refreshed 1 for_start x9).
  pose (x11 := stop DEFAULT_MAX_BATCH_SIZE x10). pose (x12 := stop_ends 2 x11).
  exists x12, 0%nat. split; [|vm_compute; repeat split; reflexivity]. exists 0. eexists.
  eapply steps_snoc; [|exact (do_stopped _ x11 2 eq_refl)]. eapply steps_snoc; [|exact (do_stop _ x10)].
  eapply steps_snoc; [|exact (do_refreshed _ x9 1 for_start eq_refl)].
  eapply steps_snoc; [|exact (do_refreshed _ x8 0 for_start eq_refl)].
  eapply steps_snoc; [|exact (do_fallback _ x7 1 cap for_start None eq_refl)].
  eapply steps_snoc; [|exact (do_fallback _ x6 0 cap for_start None eq_refl)].
  eapply steps_snoc; [|exact (do_challenge _ x5 1 cap for_start None eq_refl)].
  eapply steps_snoc; [|exact (do_challenge _ x4 0 cap for_start None eq_refl)].
  eapply steps_snoc; [|exact (do_identity _ x3 1 (Some (js "did:zhtp:aa", js "AAAA")) eq_refl)].
  eapply steps_snoc; [|exact (do_identity _ x2 0 (Some (js "did:zhtp:aa", js "AAAA")) eq_refl)].
  eapply steps_snoc; [|exact (do_start _ x1)]. eapply steps_snoc; [|exact (do_start _ (initial 0))].
  apply steps_refl.
Qed.

Lemma proof_str_inj p q : proof_str p = proof_str q → p = q.
Proof. by destruct p, q. Qed.

Lemma receipt_json_plain r : plain (receipt_json r).
Proof.
  apply plain_obj. split; [|repeat constructor].
  unfold mwf. apply (bool_decide_unpack (NoDup _)). vm_compute. exact I.
Qed.

(** A signature fixes its receipt: two receipts with the same signed text are
    the same in every field. *)
Fact receipt_text_injective r1 r2 : receipt_text r1 = receipt_text r2 → r1 = r2.
Proof.
  intros H. apply (f_equal json_parse) in H. unfold receipt_text in H.
  rewrite !json_parse_stringify in H by apply receipt_json_plain.
  destruct r1, r2. injection H. intros. simplify_eq/=. f_equal. by apply proof_str_inj.
Qed.

(** ** Instances: one receipt recorded and submitted *)

Definition demo_challenge_json : json :=
  JObj [(js "task_id", JStr (js "0xAB")); (js "nonce", JStr (js "ff"))].

Definition demo_run : controller :=
  let x := initial 5000 in
  let x := identity_arrives 0 (Some (js "did:zhtp:aa", js "AAAA")) (start x) in
  let x := challenge_arrives 0 [p_web4manifestroute; p_web4contentserved] for_start (Some demo_challenge_json) x in
  let x := refreshed 0 for_start x in
  let x := recordWeb4ManifestRoute (js "cid") (js "a.sov") 1 10 [1; 2; 3] x in
  x.
Definition demo_aux : jstr :=
  stringify (JObj [(js "manifest_cid", JStr (js "cid")); (js "domain", JStr (js "a.sov"));
       (js "route_hops", JNum 1); (js "quic_session_id", JStr (js "010203"))]).
Definition demo_ensured : controller := ensured 1 p_web4manifestroute 1024 demo_aux (js "c1") (js "c2") demo_run.
Definition demo_receipt : Receipt :=
  mkReceipt 1 (js "ab") (js "did:zhtp:aa") (js "000000") [] (js "c1") p_web4manifestroute 1024 true 4 5 (js "c2")
    (js "ff") demo_aux.
Definition demo_signed : SignedReceipt := mkSigned demo_receipt (js "dilithium5") (js "000000").
Definition demo_pending : controller := signature_arrives 20 1 demo_receipt (Some (js "AAAA")) demo_ensured.
Definition demo_flushed : controller := flush 20 demo_pending.

Lemma demo_steps : ∃ es, steps 20 (initial 5000) es demo_flushed ∧ queued_in es = [demo_signed] ∧ delivered_in es = [].
Proof.
  pose (x1 := start (initial 5000)).
  pose (x2 := identity_arrives 0 (Some (js "did:zhtp:aa", js "AAAA")) x1).
  pose (cap := [p_web4manifestroute; p_web4contentserved]).
  pose (x3 := challenge_arrives 0 cap for_start (Some demo_challenge_json) x2).
  pose (x4 := refreshed 0 for_start x3).
  eexists. split; [|split].
  - eapply steps_snoc; [|exact (do_flush _ demo_pending)].
    eapply steps_snoc; [|exact (do_signature 20 demo_ensured 1 demo_receipt (Some (js "AAAA")) eq_refl)].
    eapply steps_snoc; [|exact (do_ensured 20 demo_run 1 p_web4manifestroute 1024 demo_aux (js "c1") (js "c2") eq_refl)].
    eapply steps_snoc; [|exact (do_route 20 x4 (js "cid") (js "a.sov") 1 10 [1; 2; 3])].
    eapply steps_snoc; [|exact (do_refreshed 20 x3 0 for_start eq_refl)].
    eapply steps_snoc; [|exact (do_challenge 20 x2 0 cap for_start (Some demo_challenge_json) eq_refl)].
    eapply steps_snoc; [|exact (do_identity 20 x1 0 (Some (js "did:zhtp:aa", js "AAAA")) eq_refl)].
    eapply steps_snoc; [|exact (do_start 20 (initial 5000))]. apply steps_refl.
  - reflexivity.
  - reflexivity.
Qed.

Lemma controller_refines_ledger_witness : accounted demo_flushed ≡ₚ [demo_signed].
Proof.
  destruct demo_steps as (es & H & Eq & Ed).
  destruct (controller_refines_ledger 20 ltac:(lia) 5000 es demo_flushed H) as [_ E].
  rewrite Eq, Ed, app_nil_r in E. by symmetry.
Defined.

Lemma receipts_sound_witness :
  mget 2%nat (calls demo_flushed) = Some (at_answer [demo_signed] then_done) ∧ all_sound (accounted demo_flushed).
Proof.
  split; [vm_compute; reflexivity|].
  refine (proj1 (receipts_sound 20 ltac:(lia) demo_flushed _)). destruct demo_steps as (es & H & _). by exists 5000, es.
Defined.

Lemma receipt_text_injective_witness : receipt_text demo_receipt = receipt_text demo_receipt ∧ demo_receipt = demo_receipt.
Proof. split; [reflexivity|]. by apply receipt_text_injective. Defined.
