(* ===== verification/Outside.v ===== *)
(** * The outside of the services: keychain, AsyncStorage, native modules, node

    The services of src/src/services/ that keep secrets, sign and register are
    tasks (Async.v) over the requests of this file.  What answers them is not
    part of the model: [react-native-keychain], [AsyncStorage] and the native
    modules by their documented interface, the node through services/quic.ts
    (Quic.v says which requests reach it, with which identity, and what a typed
    answer can be).  [Storage] states what a service relies on: a write that
    succeeds is read back, a write touches no other entry, a read changes
    nothing; it promises nothing about a write that fails. *)

From stdpp Require Import strings gmap.
From S2P Require Import Prelude JsString JsMap Json Async.
From S2P Require Quic.

(** ** Errors *)

(** why a password session could not be had: src/src/types/lobby.ts *)
Inductive LobbyAuthErrorKind :=
| wrong_password | locked | ip_throttled | rate_limited | upgrade_required | username_taken
| request_expired | not_configured | network | unknown.

(** why a browser could not be signed in: src/src/services/BrowserAuthService.ts *)
Inductive BrowserAuthCode := invalid_signature | did_not_registered | challenge_expired | unknown_code.

(** an [Error] of the program or of the transport, one of a native module, with
    its [code] and its [userInfo.NSDebugDescription], a [LobbyAuthError] or a
    [BrowserAuthError] *)
Inductive error :=
| Js (e : Quic.error)
| NativeError (m : jstr) (code : option jstr) (debug : option jstr)
| LobbyAuthError (kind : LobbyAuthErrorKind) (m : jstr) (retryAfterSeconds : option Z)
| BrowserAuthError (status : Z) (code : BrowserAuthCode) (m : jstr).

Definition Error (m : jstr) : error := Js (Quic.Error m).
Definition TypeError : error := Error (js "TypeError").

Definition message (e : error) : jstr :=
  match e with Js e => Quic.message e | NativeError m _ _ | LobbyAuthError _ m _ | BrowserAuthError _ _ m => m end.

(** [e?.status] *)
Definition error_status (e : error) : option Z :=
  match e with Js (Quic.QuicError s _ _ _) | BrowserAuthError s _ _ => Some s | _ => None end.

(** ** Values of a JSON answer *)

Definition jtruthy (v : json) : bool :=
  match v with
  | JNull => false
  | JBool b => b
  | JNum n => negb (n =? 0)
  | JDec m _ => negb (m =? 0)
  | JStr s => truthy s
  | JArr _ | JObj _ => true
  end.

Definition otruthy (v : option json) : bool := match v with Some v => jtruthy v | None => false end.

(** [v || d] *)
Definition jor (v : option json) (d : json) : json := match v with Some w => if jtruthy w then w else d | None => d end.

(** [String(v)] *)
Fixpoint js_String (v : json) : jstr :=
  match v with
  | JNull => js "null"
  | JBool b => if b then js "true" else js "false"
  | JNum n => num_str n
  | JDec m e => dec_frac_str m e
  | JStr s => s
  | JArr l => JsString.join (js ",") (map (λ v, match v with JNull => [] | _ => js_String v end) l)
  | JObj _ => js "[object Object]"
  end.

(** [v.k as string], when the code needs the string *)
Definition str_field (k : jstr) (v : json) : option jstr := jfield k as_str v.

(** [v.k || d] of a string property *)
Definition str_or_else (o : option jstr) (d : jstr) : jstr :=
  match o with Some s => str_or s d | None => d end.

(** ** Requests *)

(** access control of a keychain entry: which class of [accessible], whether
    the user must authenticate, and hardware security *)
Inductive Accessible := WHEN_UNLOCKED | WHEN_UNLOCKED_THIS_DEVICE_ONLY | AFTER_FIRST_UNLOCK_THIS_DEVICE_ONLY.

Record Options := mkAccess {
  accessible : Accessible;
  accessControl : bool;
  secureHardware : bool;
}.

Inductive req : Set → Type :=
| setGenericPassword (service username password : jstr) (o : Options) : req unit
| getGenericPassword (service : jstr) : req (option (jstr * jstr))
| resetGenericPassword (service : jstr) : req unit
| setInternetCredentials (server username password : jstr) (o : Options) : req unit
| getInternetCredentials (server : jstr) : req (option (jstr * jstr))
| resetInternetCredentials (server : jstr) : req unit
| getSupportedBiometryType : req (option jstr)
| getItem (key : jstr) : req (option jstr)
| setItem (key value : jstr) : req unit
| removeItem (key : jstr) : req unit
(* a method of a native module; [undefined] is [JNull] *)
| native (module method : jstr) (args : list json) : req json
(* services/quic.ts *)
| quicRequest (path : jstr) (o : Quic.RequestOptions) : req json
| publicQuicRequest (path : jstr) (o : Quic.RequestOptions) : req json
| quicRequestRaw (path : jstr) (o : Quic.RequestOptions) : req Quic.QuicRawResponse
| Date_now : req Z
(* [Alert.alert]: the number of the button that is pressed *)
| alert (title body : jstr) (buttons : list jstr) : req nat.

Abbreviation prog S := (task S error req).

#[export] Instance outside_bind {S} : MBind (prog S) := λ A B f t, bind t f.
#[export] Instance outside_ret {S} : MRet (prog S) := λ A a, ret a.

(** [v.k] of a value that may be [null] or [undefined] *)
Definition dot {S} (v : json) (k : jstr) : prog S (option json) :=
  match v with JNull => throw TypeError | _ => ret (jget k v) end.

Definition or_syntax_error {S A} (o : option A) : prog S A :=
  match o with Some a => ret a | None => throw (Js Quic.SyntaxError) end.

(** [{ method: 'POST', body, headers: { 'Content-Type': 'application/json' } }] *)
Definition json_headers : jsmap jstr jstr := [(js "Content-Type", js "application/json")].
Definition post (headers : jsmap jstr jstr) (body : json) : Quic.RequestOptions :=
  Quic.mkOptions (Some Quic.POST) (Some (stringify body)) headers None None None None.
Definition get : Quic.RequestOptions :=
  Quic.mkOptions (Some Quic.GET) None [] None None None None.

(** ** What is seen of a call: its requests with their answers *)

Inductive event := Ev (R : Set) (c : req R) (r : error + R).
#[global] Arguments Ev {R} c r.
Definition obs (R : Set) (c : req R) (r : error + R) : list event := [Ev c r].

(** ** What the storage promises *)

Record contents := mkContents {
  generic : gmap jstr (jstr * jstr);      (* service: username and password *)
  internet : gmap jstr (jstr * jstr);     (* server: username and password *)
  items : gmap jstr jstr;                 (* AsyncStorage *)
}.

Definition set_generic k v c := mkContents (partial_alter (λ _, v) k (generic c)) (internet c) (items c).
Definition set_internet k v c := mkContents (generic c) (partial_alter (λ _, v) k (internet c)) (items c).
Definition set_items k v c := mkContents (generic c) (internet c) (partial_alter (λ _, v) k (items c)).

Lemma generic_set k v c : generic (set_generic k v c) !! k = v.
Proof. simpl. by rewrite lookup_partial_alter_eq. Qed.
Lemma generic_set_ne k k' v c : k' ≠ k → generic (set_generic k v c) !! k' = generic c !! k'.
Proof. intros H. simpl. by rewrite lookup_partial_alter_ne. Qed.
Lemma internet_set k v c : internet (set_internet k v c) !! k = v.
Proof. simpl. by rewrite lookup_partial_alter_eq. Qed.
Lemma items_set k v c : items (set_items k v c) !! k = v.
Proof. simpl. by rewrite lookup_partial_alter_eq. Qed.
Lemma items_set_ne k k' v c : k' ≠ k → items (set_items k v c) !! k' = items c !! k'.
Proof. intros H. simpl. by rewrite lookup_partial_alter_ne. Qed.

Lemma items_erase k k' c : items c !! k' = None → items (set_items k None c) !! k' = None.
Proof. intros H. destruct (decide (k' = k)) as [->|Hn]; [apply items_set|by rewrite items_set_ne]. Qed.

(** a write of [v] through [set]: done when it answers, anything in that entry
    when it fails *)
Definition written {V R} (set : option V → contents → contents) (v : option V) (c c' : contents)
    (r : error + R) : Prop :=
  match r with inr _ => c' = set v c | inl _ => ∃ w, c' = set w c end.

(** a read: an answer is the entry, and nothing changes *)
Definition read {V} (v : V) (c c' : contents) (r : error + V) : Prop :=
  c' = c ∧ match r with inr w => w = v | inl _ => True end.

Section Laws.
Context {D : Type} (handle : ∀ R : Set, req R → D → (error + R) * D) (view : D → contents).

Definition storage_law {R} (c : req R) (d : D) : (error + R) * D → Prop :=
  match c in req R return (error + R) * D → Prop with
  | setGenericPassword s u p _ => λ x, written (set_generic s) (Some (u, p)) (view d) (view x.2) x.1
  | resetGenericPassword s => λ x, written (set_generic s) None (view d) (view x.2) x.1
  | setInternetCredentials s u p _ => λ x, written (set_internet s) (Some (u, p)) (view d) (view x.2) x.1
  | resetInternetCredentials s => λ x, written (set_internet s) None (view d) (view x.2) x.1
  | setItem k v => λ x, written (set_items k) (Some v) (view d) (view x.2) x.1
  | removeItem k => λ x, written (set_items k) None (view d) (view x.2) x.1
  | getGenericPassword s => λ x, read (generic (view d) !! s) (view d) (view x.2) x.1
  | getInternetCredentials s => λ x, read (internet (view d) !! s) (view d) (view x.2) x.1
  | getItem k => λ x, read (items (view d) !! k) (view d) (view x.2) x.1
  | getSupportedBiometryType | Date_now | alert _ _ _ => λ x, view x.2 = view d
  (* native modules may hold keychain entries, not AsyncStorage *)
  | native _ _ _ | quicRequest _ _ | publicQuicRequest _ _ | quicRequestRaw _ _ =>
      λ x, items (view x.2) = items (view d)
  end.

Class Storage : Prop := storage : ∀ R (c : req R) d, storage_law c d (handle R c d).

End Laws.

#[global] Create Rewrite HintDb solo.
#[export] Hint Rewrite @solo_bind @solo_bindR @solo_await @solo_try_catch @solo_call @solo_ret @solo_throw
  @solo_modify @solo_gets @solo_modify_get @solo_try_finally : solo.

(** a storage that takes every deletion, and native modules that keep their
    entries apart from those of the app *)
Class Erases {D : Type} (handle : ∀ R : Set, req R → D → (error + R) * D) (view : D → contents) : Prop := {
  erases_generic : ∀ k d, ∃ d', handle _ (resetGenericPassword k) d = (inr tt, d') ∧ view d' = set_generic k None (view d);
  erases_internet : ∀ k d, ∃ d', handle _ (resetInternetCredentials k) d = (inr tt, d') ∧ view d' = set_internet k None (view d);
  erases_items : ∀ k d, ∃ d', handle _ (removeItem k) d = (inr tt, d') ∧ view d' = set_items k None (view d);
  native_apart : ∀ m f args d, view (handle _ (native m f args) d).2 = view d;
}.

(** the answer to the request of the goal, with what the storage promises of it *)
Ltac answer_by handle view promises r d' L :=
  match goal with
  | |- context [handle _ ?c ?d] =>
      pose proof (@storage _ handle view promises _ c d) as L; simpl in L;
      destruct (handle _ c d) as [r d']; simpl in L; cbn [fst snd]; cbn beta iota
  end.

(** evaluates a call alone up to its next undecided branch *)
Ltac enter :=
  unfold mbind, outside_bind, mret, outside_ret;
  repeat (progress (autorewrite with solo; cbn [fst snd])).

(** *** A call alone ends, and [R] relates the states around it *)

Section Settled.
Context {S D : Type} (handle : ∀ R : Set, req R → D → (error + R) * D).
Context (R : S → S → Prop) `{!PreOrder R}.

Definition settled {A} (t : prog S A) : Prop :=
  ∀ s d, ∃ r s' d', solo handle t s d = Some (r, s', d') ∧ R s s'.

Lemma settled_ret {A} (a : A) : settled (ret a).
Proof. intros s d. by eexists _, _, _. Qed.
Lemma settled_throw {A} e : settled (A := A) (throw e).
Proof. intros s d. by eexists _, _, _. Qed.
Lemma settled_call {X : Set} (c : req X) : settled (call c).
Proof. intros s d. rewrite solo_call. by eexists _, _, _. Qed.
Lemma settled_gets {A} (f : S → A) : settled (gets f).
Proof. intros s d. by eexists _, _, _. Qed.
Lemma settled_modify f : (∀ s, R s (f s)) → settled (modify f).
Proof. intros H s d. by eexists _, _, _. Qed.
Lemma settled_modify_get {A} (f : S → S * A) : (∀ s, R s (f s).1) → settled (modify_get f).
Proof. intros H s d. by eexists _, _, _. Qed.
Lemma settled_bindR {A B} (t : prog S A) (f : error + A → prog S B) :
  settled t → (∀ r, settled (f r)) → settled (bindR t f).
Proof.
  intros Ht Hf s d. destruct (Ht s d) as (r & s1 & d1 & E1 & R1), (Hf r s1 d1) as (r2 & s2 & d2 & E2 & R2).
  exists r2, s2, d2. rewrite solo_bindR, E1. split; [done|by etrans].
Qed.
Lemma settled_bind {A B} (t : prog S A) (f : A → prog S B) :
  settled t → (∀ a, settled (f a)) → settled (bind t f).
Proof. intros Ht Hf. apply settled_bindR; [done|]. intros [e|a]; [apply settled_throw|apply Hf]. Qed.
Lemma settled_try_catch {A} (t : prog S A) h :
  settled t → (∀ e, settled (h e)) → settled (try_catch t h).
Proof. intros Ht Hf. apply settled_bindR; [done|]. intros [e|a]; [apply Hf|apply settled_ret]. Qed.
Lemma settled_try_finally {A} (t : prog S A) f : settled t → settled f → settled (try_finally t f).
Proof. intros Ht Hf. apply settled_bindR; [done|]. intros r. apply settled_bindR; [done|]. intros _ s d. by eexists _, _, _. Qed.
Lemma settled_void (t : prog S unit) : settled t → settled (void t).
Proof.
  intros Ht s d. destruct (settled_bind t (λ _, ret ([] : jstr)) Ht (λ _, settled_ret _) s d) as (r & s1 & d1 & E & HR).
  exists (inr tt), s1, d1. split; [|done]. unfold void. cbn [solo]. change (list ascii) with jstr. by rewrite E.
Qed.

End Settled.

(** goes through a program, opening what it does not know, and leaves the writes
    of the state *)
Ltac settled_step :=
  lazymatch goal with
  | |- settled _ _ (mbind _ _) => unfold mbind, outside_bind
  | |- settled _ _ (mret _) => apply settled_ret; tc_solve
  | |- settled _ _ (bind _ _) => apply settled_bind; [tc_solve| |intros ?]
  | |- settled _ _ (bindR _ _) => apply settled_bindR; [tc_solve| |intros ?]
  | |- settled _ _ (try_catch _ _) => apply settled_try_catch; [tc_solve| |intros ?]
  | |- settled _ _ (try_finally _ _) => apply settled_try_finally; [tc_solve| |]
  | |- settled _ _ (ret _) => apply settled_ret; tc_solve
  | |- settled _ _ (throw _) => apply settled_throw; tc_solve
  | |- settled _ _ (modify _) => apply settled_modify; intros ?
  | |- settled _ _ (modify_get _) => apply settled_modify_get; intros ?
  | |- settled _ _ (gets _) => apply settled_gets; tc_solve
  | |- settled _ _ (call _) => apply settled_call; tc_solve
  | |- settled _ _ (void _) => apply settled_void; [tc_solve|]
  | |- settled _ _ (match ?x with _ => _ end) => destruct x
  | |- settled _ _ (let _ := _ in _) => cbv zeta
  | |- settled _ _ ?t => let h := get_head t in unfold h
  end.
Ltac settled_through := repeat settled_step.

(** ** Traces *)

Lemma trace_ret {S A} (a : A) tr r : trace obs (S := S) (E := error) (ret a) tr r → tr = [] ∧ r = inr a.
Proof. done. Qed.
Lemma trace_throw {S A} e tr r : trace obs (S := S) (A := A) (throw e) tr r → tr = [] ∧ r = inl e.
Proof. done. Qed.
Lemma trace_dot {S} v k tr r :
  trace obs (S := S) (dot v k) tr r →
  tr = [] ∧ (v = JNull ∧ r = inl TypeError ∨ v ≠ JNull ∧ r = inr (jget k v)).
Proof. destruct v; intros [-> ->]; auto. Qed.

Lemma trace_try_catch {S A} (t : prog S A) h tr r :
  trace obs (try_catch t h) tr r →
  (∃ a, r = inr a ∧ trace obs t tr (inr a)) ∨
  ∃ e tr1 tr2, tr = tr1 ++ tr2 ∧ trace obs t tr1 (inl e) ∧ trace obs (h e) tr2 r.
Proof.
  unfold try_catch. intros ([e|a] & tr1 & tr2 & -> & H1 & H2)%trace_bindR; [by right; exists e, tr1, tr2|].
  apply trace_ret in H2 as [-> ->]. left. exists a. by rewrite app_nil_r.
Qed.

(** a [catch] that throws another error *)
Lemma trace_rethrown {S A} (t : prog S A) f tr r :
  trace obs (try_catch t (λ e, throw (f e))) tr r →
  ∃ r', trace obs t tr r' ∧ r = match r' with inl e => inl (f e) | inr a => inr a end.
Proof.
  intros [(a & -> & H)|(e & tr1 & tr2 & -> & H & H2)]%trace_try_catch; [by exists (inr a)|].
  apply trace_throw in H2 as [-> ->]. exists (inl e). by rewrite app_nil_r.
Qed.

(** takes the trace of a program apart, one request at a time *)
Ltac untrace H :=
  unfold mbind, outside_bind, mret, outside_ret in H;
  lazymatch type of H with
  | trace _ (bind _ _) _ _ =>
      let a := fresh "a" in let H2 := fresh "H" in
      apply trace_bind in H as [(? & H & ->)|(a & ? & ? & -> & H & H2)]; [untrace H|untrace H; untrace H2]
  | trace _ (await _) _ _ => rewrite trace_await in H; untrace H
  | trace _ (call _) _ _ => apply trace_call in H; unfold obs in H; subst
  | trace _ (ret _) _ _ => apply trace_ret in H as [-> H]; simplify_eq
  | trace _ (throw _) _ _ => apply trace_throw in H as [-> H]; simplify_eq
  | trace _ (dot _ _) _ _ => apply trace_dot in H as [-> [[? H]|[? H]]]; simplify_eq
  | _ => idtac
  end.

Ltac untrace_all := repeat match goal with H : trace _ _ _ _ |- _ => progress untrace H end.

(** a call that ends alone has a trace *)
Lemma solo_trace {S D : Type} (handle : ∀ R : Set, req R → D → (error + R) * D) {A : Type} (t : prog S A) s d r s' d' :
  solo handle t s d = Some (r, s', d') → ∃ tr, trace obs t tr r.
Proof.
  revert s d. induction t as [A r0|A k IH|A s0 k IH|A R c k IH|A k IH|A ty t IHt k IH|A p k IH]; intros s d H; simpl in *.
  - simplify_eq. by exists [].
  - destruct (IH _ _ _ _ H) as [tr Ht]. eauto.
  - eauto.
  - destruct (IH _ _ _ _ H) as [tr Ht]. eexists _, _, tr. split; [reflexivity|exact Ht].
  - eauto.
  - destruct (solo handle t s d) as [[[r1 s1] d1]|]; [|done]. destruct (IH _ _ _ _ H) as [tr Ht]. eauto.
  - done.
Qed.

(** *** Every request of a call satisfies [P] *)

Definition emits {S A} (P : event → Prop) (t : prog S A) : Prop := ∀ tr r, trace obs t tr r → Forall P tr.

Section Emits.
Context {S : Type} (P : event → Prop).

Lemma emits_ret {A} (a : A) : emits (S := S) P (ret a).
Proof. by intros tr r [-> _]. Qed.
Lemma emits_throw {A} e : emits (S := S) (A := A) P (throw e).
Proof. by intros tr r [-> _]. Qed.
Lemma emits_call {R : Set} (c : req R) : (∀ r, P (Ev c r)) → emits (S := S) P (call c).
Proof. intros H tr r Ht. apply trace_call in Ht. subst. constructor; [apply H|constructor]. Qed.
Lemma emits_modify f : emits (S := S) P (modify f).
Proof. intros tr r H. apply trace_modify in H as [-> _]. constructor. Qed.
Lemma emits_gets {A} (f : S → A) : emits (S := S) P (gets f).
Proof. intros tr r H. apply trace_gets in H as (s & -> & _). constructor. Qed.
Lemma emits_modify_get {A} (f : S → S * A) : emits (S := S) P (modify_get f).
Proof. intros tr r H. destruct H as (s & -> & _). constructor. Qed.
Lemma emits_await {A} (t : prog S A) : emits P t → emits P (await t).
Proof. intros H tr r. rewrite trace_await. apply H. Qed.
Lemma emits_bindR {A B} (t : prog S A) (f : error + A → prog S B) :
  emits P t → (∀ r, emits P (f r)) → emits P (bindR t f).
Proof.
  intros Ht Hf tr r H. apply trace_bindR in H as (a & tr1 & tr2 & -> & H1 & H2).
  apply Forall_app. split; [by eapply Ht|by eapply Hf].
Qed.
Lemma emits_bind {A B} (t : prog S A) (f : A → prog S B) :
  emits P t → (∀ a, emits P (f a)) → emits P (bind t f).
Proof. intros Ht Hf. apply emits_bindR; [done|]. intros [e|a]; [apply emits_throw|apply Hf]. Qed.
Lemma emits_try_catch {A} (t : prog S A) h :
  emits P t → (∀ e, emits P (h e)) → emits P (try_catch t h).
Proof. intros Ht Hf. apply emits_bindR; [done|]. intros [e|a]; [apply Hf|apply emits_ret]. Qed.
Lemma emits_try_finally {A} (t : prog S A) f : emits P t → emits P f → emits P (try_finally t f).
Proof. intros Ht Hf. apply emits_bindR; [done|]. intros r. apply emits_bindR; [done|]. by intros _ tr r' [-> _]. Qed.
Lemma emits_dot v k : emits (S := S) P (dot v k).
Proof. destruct v; (apply emits_ret || apply emits_throw). Qed.
Lemma emits_or_syntax_error {A} (o : option A) : emits (S := S) P (or_syntax_error o).
Proof. destruct o; [apply emits_ret|apply emits_throw]. Qed.

End Emits.

(** goes through a program, leaving a goal for each request and each call of a
    program it does not know *)
Ltac emits_step :=
  lazymatch goal with
  | |- emits _ (mbind _ _) => unfold mbind, outside_bind
  | |- emits _ (mret _) => apply emits_ret
  | |- emits _ (bind _ _) => apply emits_bind; [|intros ?]
  | |- emits _ (try_catch _ _) => apply emits_try_catch; [|intros ?]
  | |- emits _ (try_finally _ _) => apply emits_try_finally
  | |- emits _ (ret _) => apply emits_ret
  | |- emits _ (throw _) => apply emits_throw
  | |- emits _ (modify _) => apply emits_modify
  | |- emits _ (modify_get _) => apply emits_modify_get
  | |- emits _ (await _) => apply emits_await
  | |- emits _ (gets _) => apply emits_gets
  | |- emits _ (dot _ _) => apply emits_dot
  | |- emits _ (or_syntax_error _) => apply emits_or_syntax_error
  | |- emits _ (call _) => apply emits_call; intros ?
  | |- emits _ (match ?x with _ => _ end) => destruct x
  | |- emits _ (let _ := _ in _) => cbv zeta
  end.
Ltac emits_through := repeat emits_step.

(** a program without requests *)
Lemma silent {S A} (t : Outside.prog S A) : emits (λ _, False) t → ∀ tr r, trace obs t tr r → tr = [].
Proof. intros He tr r H. apply He in H. by destruct tr; [|inversion H]. Qed.

(** [modify f;; t] *)
Lemma trace_after_modify {S A} (f : S → S) (t : Outside.prog S A) tr r :
  trace obs (bind (modify f) (λ _, t)) tr r → trace obs t tr r.
Proof.
  intros H. apply trace_bind in H as [(e & H & ->)|(a & tr1 & tr2 & -> & H1 & H2)].
  - by apply trace_modify in H as [_ ?].
  - by apply trace_modify in H1 as [-> _].
Qed.

(** [finally] that only sets *)
Lemma trace_finally_set {S A} (t : Outside.prog S A) f tr r :
  trace obs (try_finally t (modify f)) tr r → trace obs t tr r.
Proof.
  intros (r1 & tr1 & tr2 & -> & H & H2)%trace_bindR. apply trace_bindR in H2 as (r2 & tr3 & tr4 & -> & H2 & H3).
  apply trace_modify in H2 as [-> ->]. destruct H3 as [-> ->]. by rewrite app_nil_r.
Qed.

(** ** Invariants of the state of a screen

    [keeps I t]: whatever answers and whatever other handlers run at its awaits,
    [t] preserves [I]; reads are not needed, only what is set. *)

Section Keeps.
Context {S : Type} (I : S → Prop).

Definition keeps {A : Type} (t : prog S A) : Prop :=
  spec I (λ _ _, True) (λ _ _ _, True) (λ _ _, True) (λ _, True) t (λ _, True).

Lemma keeps_ret {A} (a : A) : keeps (ret a).
Proof. by apply spec_ret. Qed.
Lemma keeps_throw {A} e : keeps (A := A) (throw e).
Proof. by apply spec_throw. Qed.
Lemma keeps_call {R : Set} (c : req R) : keeps (call c).
Proof. by apply spec_call. Qed.
Lemma keeps_bindR {A B} (t : prog S A) (f : error + A → prog S B) : keeps t → (∀ r, keeps (f r)) → keeps (bindR t f).
Proof. intros Ht Hf. eapply spec_bindR; [exact Ht|]. intros r _. apply Hf. Qed.
Lemma keeps_bind {A B} (t : prog S A) (f : A → prog S B) : keeps t → (∀ a, keeps (f a)) → keeps (bind t f).
Proof. intros Ht Hf. eapply spec_bind; [exact Ht|]. intros a _. apply Hf. Qed.
Lemma keeps_try_catch {A} (t : prog S A) h : keeps t → (∀ e, keeps (h e)) → keeps (try_catch t h).
Proof. intros Ht Hh. apply spec_try_catch; [exact Ht|]. intros e _. apply Hh. Qed.
Lemma keeps_try_finally {A} (t : prog S A) f : keeps t → keeps f → keeps (try_finally t f).
Proof. apply spec_try_finally. Qed.
Lemma keeps_await {A} (t : prog S A) : keeps t → keeps (await t).
Proof. apply spec_await. Qed.
Lemma keeps_modify f : (∀ s, I s → I (f s)) → keeps (modify f).
Proof. apply spec_modify. Qed.
Lemma keeps_modify_get {A} (f : S → S * A) : (∀ s, I s → I (f s).1) → keeps (modify_get f).
Proof. intros H. apply spec_modify_get. auto. Qed.
Lemma keeps_gets {A} (f : S → A) : keeps (gets f).
Proof. by apply spec_gets. Qed.
Lemma keeps_void (t : prog S unit) : keeps t → keeps (void t).
Proof. by apply spec_void. Qed.

(** what a program over a part does to the rest *)
Lemma keeps_lift {T A : Type} (part : S → T) (put : T → S → S) (t : prog T A) :
  (∀ x s, I s → I (put x s)) → keeps (lift part put t).
Proof.
  intros Hp. unfold keeps, spec.
  assert (∀ (Q : error + A → S → Prop), (∀ r s, I s → Q r s) → ∀ s, I s →
    safe I (λ _ _, True) (answer (λ _ _ _, True) (λ _, True)) (Async.settled (λ _ _, True) (λ _, True)) (lift part put t) Q s) as H.
  { induction t as [A r0|A k IH|A x k IH|A R c k IH|A k IH|A ty t IHt k IH|A p k IH]; intros Q HQ s Hs; simpl; auto.
    split; [|auto]. apply IHt; [|done]. intros [e|a] s' Hs'; by split. }
  intros s Hs. apply H; [|done]. intros [e|a] s' Hs'; by split.
Qed.

(** every state that the handlers reach together *)
Lemma keeps_reachable {event : Type} (h : event → prog S unit) (env : S → S → Prop) w0 w :
  (∀ e, keeps (h e)) → (∀ s s', env s s' → I s → I s') → I (ws w0) → wthreads w0 = [] →
  rtc (step (λ e, bind (h e) (λ _, ret [])) env (λ _ _ _, True)) w0 w → I (ws w).
Proof.
  intros Hh He H0 Ht Hr.
  destruct (spec_reachable I (λ _ _, True) (λ _ _ _, True) (λ _ _, True) (λ _, True)
    (λ e, bind (h e) (λ _, ret [])) env w0 w) as [H _]; [|done..| |done].
  - intros e. apply (keeps_bind (h e) (λ _, ret [])); [apply Hh|intros _; apply keeps_ret].
  - eapply rtc_subrel; [|exact Hr]. intros x y Hs.
    destruct Hs as [s n l1 p R c k l2 r Ha|s n l1 p k l2|s n l1 p q k l2 r Hq|s n l e|s s' n l Hs];
      [apply step_answer; by destruct r|apply step_tick|by eapply step_join| |by apply step_env].
    exact (step_event (λ e, bind (h e) (λ _, ret [])) env _ s n l e).
Qed.
End Keeps.

(** goes through a program, leaving what it sets and the programs it does not know *)
Ltac keeps_step :=
  lazymatch goal with
  | |- keeps _ (mbind _ _) => unfold mbind, outside_bind
  | |- keeps _ (mret _) => apply keeps_ret
  | |- keeps _ (bind _ _) => apply keeps_bind; [|intros ?]
  | |- keeps _ (bindR _ _) => apply keeps_bindR; [|intros ?]
  | |- keeps _ (try_catch _ _) => apply keeps_try_catch; [|intros ?]
  | |- keeps _ (try_finally _ _) => apply keeps_try_finally
  | |- keeps _ (await _) => apply keeps_await
  | |- keeps _ (void _) => apply keeps_void
  | |- keeps _ (ret _) => apply keeps_ret
  | |- keeps _ (throw _) => apply keeps_throw
  | |- keeps _ (modify _) => apply keeps_modify; intros ?
  | |- keeps _ (modify_get _) => apply keeps_modify_get; intros ?
  | |- keeps _ (gets _) => apply keeps_gets
  | |- keeps _ (call _) => apply keeps_call
  | |- keeps _ (lift _ _ _) => apply keeps_lift; intros ? ?
  | |- keeps _ (match ?x with _ => _ end) => destruct x
  | |- keeps _ (let _ := _ in _) => cbv zeta
  end.
Ltac keeps_through := repeat keeps_step.

(** ** A phone that keeps its promises

    Entries in maps; the keychain refuses to read generic entries when [broken],
    and the native modules and the node answer as [modules], [node] and [raw]
    say. *)

Record phone := mkPhone {
  broken : option error;
  modules : jstr → list json → error + json;
  node : jstr → error + json;
  raw : jstr → error + Quic.QuicRawResponse;
  stored : contents;
}.
Definition upd_stored f p := mkPhone (broken p) (modules p) (node p) (raw p) (f (stored p)).

Definition phone_handle (R : Set) (c : req R) : phone → (error + R) * phone :=
  match c in req R return phone → (error + R) * phone with
  | setGenericPassword s u w _ => λ p, (inr tt, upd_stored (set_generic s (Some (u, w))) p)
  | resetGenericPassword s => λ p, (inr tt, upd_stored (set_generic s None) p)
  | setInternetCredentials s u w _ => λ p, (inr tt, upd_stored (set_internet s (Some (u, w))) p)
  | resetInternetCredentials s => λ p, (inr tt, upd_stored (set_internet s None) p)
  | setItem k v => λ p, (inr tt, upd_stored (set_items k (Some v)) p)
  | removeItem k => λ p, (inr tt, upd_stored (set_items k None) p)
  | getGenericPassword s => λ p, (match broken p with Some e => inl e | None => inr (generic (stored p) !! s) end, p)
  | getInternetCredentials s => λ p, (inr (internet (stored p) !! s), p)
  | getItem k => λ p, (inr (items (stored p) !! k), p)
  | getSupportedBiometryType => λ p, (inr None, p)
  | native _ m args => λ p, (modules p m args, p)
  | quicRequest path _ => λ p, (node p path, p)
  | publicQuicRequest path _ => λ p, (node p path, p)
  | quicRequestRaw path _ => λ p, (raw p path, p)
  | Date_now => λ p, (inr 1700000000000, p)
  | alert _ _ buttons => λ p, (inr (length buttons - 1)%nat, p)
  end.

#[export] Instance phone_storage : Storage phone_handle stored.
Proof. intros R c p. destruct c; simpl; try done. split; [done|]. by destruct (broken p). Qed.

#[export] Instance phone_erases : Erases phone_handle stored.
Proof. split; intros; try (eexists; split; [reflexivity|done]). done. Qed.

Definition no_answer : error := Error (js "no answer").
Definition new_phone : phone :=
  mkPhone None (λ _ _, inl no_answer) (λ _, inl no_answer) (λ _, inl no_answer) (mkContents ∅ ∅ ∅).
