(* ===== verification/Known.v ===== *)
(** * Programs that remember

    The program logic of Async.v lets a program keep an invariant of the state, but
    forgets at every await what the program knew of it.  Here the state moves along a
    preorder [Le], whatever runs in between: what is stable under it is still known
    when an answer comes, so that a program may rely on what it read before. *)

From stdpp Require Import list.
From S2P Require Import Prelude JsString Async Outside.

Section Known.
Context {S : Type} (I : S → Prop) (Le : S → S → Prop) (Ans : ∀ R : Set, req R → error + R → Prop).
Context `{!Reflexive Le, !Transitive Le}.

(** [t] started in [s] keeps [I] and moves along [Le], and an ended one has [Q] *)
Fixpoint steady {A : Type} (t : prog S A) (Q : error + A → S → Prop) (s : S) : Prop :=
  match t with
  | Ret r => Q r s
  | Get k => steady (k s) Q s
  | Put s' k => I s' ∧ Le s s' ∧ steady k Q s'
  | @Call _ _ _ _ R c k => ∀ r s', I s' → Le s s' → Ans R c r → steady (k r) Q s'
  | Tick k => ∀ s', I s' → Le s s' → steady k Q s'
  | Fork ty t k => steady t (λ _ _, True) s ∧ ∀ n s', I s' → Le s s' → steady (k (n, ty)) Q s'
  | Async.Join _ k => ∀ r s', I s' → Le s s' → steady (k r) Q s'
  end.

Lemma steady_mono {A} (t : prog S A) (Q Q' : error + A → S → Prop) s :
  (∀ r s', Q r s' → Q' r s') → steady t Q s → steady t Q' s.
Proof. intros HQ. revert s. induction t; simpl; intros s0; try naive_solver. Qed.

Lemma steady_bindR {A B} (t : prog S A) (f : error + A → prog S B) Q s :
  steady t (λ r s', steady (f r) Q s') s → steady (bindR t f) Q s.
Proof. revert s. induction t; simpl; naive_solver. Qed.

(** *** Worlds *)

Definition pending (st : status S error req jstr) (s : S) : Prop :=
  match st with
  | Done _ => True
  | @OnCall _ _ _ _ R c k => ∀ r s', I s' → Le s s' → Ans R c r → steady (k r) (λ _ _, True) s'
  | OnTick k => ∀ s', I s' → Le s s' → steady k (λ _ _, True) s'
  | OnJoin _ k => ∀ r s', I s' → Le s s' → steady (k r) (λ _ _, True) s'
  end.

Lemma pending_later st s s' : Le s s' → pending st s → pending st s'.
Proof. intros Hl. destruct st; simpl; [done|..]; intros H; intros; apply H; try done; by etrans. Qed.

Lemma run_steady {A} (t : prog S A) n s :
  ∀ Q, I s → steady t Q s →
  I (rs (run t n s)) ∧ Le s (rs (run t n s)) ∧
  (match rstatus (run t n s) with
   | Done r => Q r (rs (run t n s))
   | @OnCall _ _ _ _ R c k => ∀ r s', I s' → Le (rs (run t n s)) s' → Ans R c r → steady (k r) Q s'
   | OnTick k => ∀ s', I s' → Le (rs (run t n s)) s' → steady k Q s'
   | OnJoin _ k => ∀ r s', I s' → Le (rs (run t n s)) s' → steady (k r) Q s'
   end) ∧
  Forall (λ th, pending th.2 (rs (run t n s))) (rforked (run t n s)).
Proof.
  revert n s. induction t as [A r|A k IH|A s0 k IH|A R c k IH|A k IH|A ty t IHt k IH|A p k IH];
    intros n s Q HI H; simpl in *; try (split_and!; by auto).
  - by apply IH.
  - destruct H as (HI' & Hl & H). destruct (IH n s0 Q HI' H) as (H1 & H2 & H3 & H4). split_and!; try done. by etrans.
  - destruct H as [Ht Hk]. destruct (IHt (Datatypes.S n) s _ HI Ht) as (H1 & H2 & H3 & H4).
    destruct (IH (n, ty) (rnext (run t (Datatypes.S n) s)) _ Q H1 (Hk n _ H1 H2)) as (H5 & H6 & H7 & H8).
    split_and!; try done; [by etrans|]. constructor.
    + apply (pending_later _ _ _ H6). simpl. destruct (rstatus _); simpl; auto.
    + apply Forall_app. split; [|done]. eapply list.Forall_impl; [exact H4|]. intros th. by apply pending_later.
Qed.

Definition good (w : world S error req) : Prop := I (ws w) ∧ Forall (λ th, pending th.2 (ws w)) (wthreads w).

Lemma section_good l1 p l2 (t : prog S jstr) n s :
  I s → Forall (λ th, pending th.2 s) (l1 ++ l2) → steady t (λ _ _, True) s →
  good (let x := run t n s in mkWorld (rs x) (rnext x) (l1 ++ (p, rstatus x) :: l2 ++ rforked x)).
Proof.
  intros HI [H1 H2]%Forall_app Ht. destruct (run_steady t n s _ HI Ht) as (HI' & Hl & Hs & Hf). split; [done|]. cbn [ws wthreads].
  apply Forall_app. split; [eapply list.Forall_impl; [exact H1|]; intros th; by apply pending_later|].
  constructor; [simpl; destruct (rstatus _); simpl; auto|]. apply Forall_app. split; [|done].
  eapply list.Forall_impl; [exact H2|]. intros th. by apply pending_later.
Qed.

Lemma good_reachable {event : Type} (handler : event → prog S jstr) (env : S → S → Prop) w0 w :
  (∀ e s, I s → steady (handler e) (λ _ _, True) s) → (∀ s s', env s s' → I s → I s' ∧ Le s s') →
  I (ws w0) → wthreads w0 = [] → rtc (step handler env Ans) w0 w → I (ws w).
Proof.
  intros Hh He H0 Ht Hr. assert (good w0) as Hg by (split; [done|rewrite Ht; constructor]). clear H0 Ht.
  enough (good w) as [H _] by done. revert Hg. induction Hr as [|x y z Hs _ IH]; [done|]. intros [HI Hp]. apply IH. clear IH.
  destruct Hs as [s n l1 p R c k l2 r Ha|s n l1 p k l2|s n l1 p q k l2 r Hq|s n l e|s s' n l Hs]; cbn [ws wthreads] in *.
  - apply Forall_app in Hp as [H1 [Hc H2]%list.Forall_cons]. apply section_good; [done|by apply Forall_app|]. by apply Hc.
  - apply Forall_app in Hp as [H1 [Hc H2]%list.Forall_cons]. apply section_good; [done|by apply Forall_app|]. by apply Hc.
  - apply Forall_app in Hp as [H1 [Hc H2]%list.Forall_cons]. apply section_good; [done|by apply Forall_app|]. by apply Hc.
  - pose proof (section_good l (n, PVoid) [] (handler e) (Datatypes.S n) s HI) as H. rewrite app_nil_r in H. by apply H, Hh.
  - destruct (He _ _ Hs HI) as [HI' Hl]. split; [done|]. eapply list.Forall_impl; [exact Hp|]. intros th. by apply pending_later.
Qed.

(** *** Rules *)

(** under what is known, [t] gives results of [P] *)
Definition knows {A} (K : S → Prop) (t : prog S A) (P : A → Prop) : Prop :=
  ∀ s, I s → K s → steady t (λ r s', I s' ∧ K s' ∧ match r with inr a => P a | inl _ => True end) s.
Definition stable (K : S → Prop) : Prop := ∀ s s', K s → Le s s' → K s'.
Definition any {A} (a : A) : Prop := True.

Section Rules.
Context (K : S → Prop) (HK : stable K).

Lemma knows_ret {A} (a : A) (P : A → Prop) : P a → knows K (ret a) P.
Proof. by intros H s HI Hs. Qed.
Lemma knows_throw {A} e (P : A → Prop) : knows K (throw e) P.
Proof. by intros s HI Hs. Qed.
Lemma knows_bindR {A B} (t : prog S A) (f : error + A → prog S B) P Q :
  knows K t P → (∀ r, match r with inr a => P a | inl _ => True end → knows K (f r) Q) → knows K (bindR t f) Q.
Proof.
  intros Ht Hf s HI Hs. apply steady_bindR. eapply steady_mono; [|by apply Ht]. intros r s' (HI' & Hs' & Hr). by apply Hf.
Qed.
Lemma knows_bind {A B} (t : prog S A) (f : A → prog S B) P Q :
  knows K t P → (∀ a, P a → knows K (f a) Q) → knows K (bind t f) Q.
Proof. intros Ht Hf. eapply knows_bindR; [exact Ht|]. intros [e|a] Hr; [apply knows_throw|by apply Hf]. Qed.
Lemma knows_call {R : Set} (c : req R) (P : R → Prop) : (∀ r, Ans R c (inr r) → P r) → knows K (call c) P.
Proof. intros Hc s HI Hs r s' HI' Hl Ha. simpl. split; [done|]. split; [by eapply HK|]. destruct r; [done|by apply Hc]. Qed.
Lemma knows_modify f : (∀ s, I s → K s → I (f s) ∧ Le s (f s)) → knows K (modify f) any.
Proof. intros H s HI Hs. destruct (H s HI Hs) as [H1 H2]. simpl. split_and!; try done. by eapply HK. Qed.
Lemma knows_await {A} (t : prog S A) P : knows K t P → knows K (await t) P.
Proof.
  intros H s HI Hs. apply steady_bindR. eapply steady_mono; [|by apply H]. intros r s' (HI' & Hs' & Hr) s'' HI'' Hl. simpl.
  split_and!; try done. by eapply HK.
Qed.
Lemma knows_gets {A} (f : S → A) : knows K (gets f) any.
Proof. by intros s HI Hs. Qed.
Lemma knows_weaken {A} (t : prog S A) (P P' : A → Prop) : knows K t P → (∀ a, P a → P' a) → knows K t P'.
Proof.
  intros H HP s HI Hs. eapply steady_mono; [|by apply H]. intros [e|a] s' (H1 & H2 & H3); split_and!; auto.
Qed.
Lemma knows_try_catch {A} (t : prog S A) h P : knows K t P → (∀ e, knows K (h e) P) → knows K (try_catch t h) P.
Proof. intros Ht Hh. eapply knows_bindR; [exact Ht|]. intros [e|a] Hr; [apply Hh|by apply knows_ret]. Qed.
Lemma knows_try_finally {A} (t : prog S A) f P : knows K t P → knows K f any → knows K (try_finally t f) P.
Proof.
  intros Ht Hf. eapply knows_bindR; [exact Ht|]. intros r Hr. eapply knows_bindR; [exact Hf|]. intros [e|[]] _ s HI Hs; [done|].
  by split_and!.
Qed.
(** a program over a part that [I] and [Le] do not look at *)
Lemma knows_lift {T A : Type} (part : S → T) (put : T → S → S) (t : prog T A) :
  (∀ x s, I s → I (put x s) ∧ Le s (put x s)) → knows K (lift part put t) any.
Proof.
  intros Hp s HI Hs.
  assert (∀ (Q : error + A → S → Prop), (∀ r s, I s → K s → Q r s) → ∀ s, I s → K s → steady (lift part put t) Q s) as H.
  { clear s HI Hs. induction t as [A r|A k IH|A x k IH|A R c k IH|A k IH|A ty t IHt k IH|A p k IH]; intros Q HQ s HI Hs; simpl.
    - by apply HQ.
    - by apply IH.
    - destruct (Hp x s HI) as [H1 H2]. split_and!; try done. apply IH; try done. by eapply HK.
    - intros r s' HI' Hl _. apply IH; try done. by eapply HK.
    - intros s' HI' Hl. apply IH; try done. by eapply HK.
    - split; [by apply IHt|]. intros n s' HI' Hl. apply IH; try done. by eapply HK.
    - intros r s' HI' Hl. apply IH; try done. by eapply HK. }
  apply H; [|done..]. intros [e|a] s' HI' Hs'; by split_and!.
Qed.

End Rules.

(** what is read may be known from then on *)
Lemma knows_read {A B} (K : S → Prop) (f : S → A) (k : A → prog S B) P :
  (∀ s, I s → K s → steady (k (f s)) (λ r s', I s' ∧ K s' ∧ match r with inr a => P a | inl _ => True end) s) →
  knows K (bind (gets f) k) P.
Proof. intros H s HI Hs. by apply H. Qed.

(** a handler that knows nothing at its start *)
Lemma knows_handler {A} (t : prog S A) s : knows (λ _, True) t any → I s → steady (bind t (λ _, ret ([] : jstr))) (λ _ _, True) s.
Proof.
  intros H HI. apply steady_bindR. eapply steady_mono; [|by apply H]. by intros [e|a] s' _.
Qed.

End Known.

(** goes through a program, leaving what it sets and the programs it does not know *)
Ltac knows_step :=
  lazymatch goal with
  | |- knows _ _ _ _ (mbind _ _) _ => unfold mbind, outside_bind
  | |- knows _ _ _ _ (mret _) _ => apply knows_ret; [done]
  | |- knows _ _ _ _ (bind _ _) _ => eapply (knows_bind _ _ _ _ _ _ any); [|intros ? _]
  | |- knows _ _ _ _ (try_catch _ _) _ => apply knows_try_catch; [|intros ?]
  | |- knows _ _ _ _ (try_finally _ _) _ => apply knows_try_finally
  | |- knows _ _ _ _ (await _) _ => apply knows_await; [done|]
  | |- knows _ _ _ _ (ret _) _ => apply knows_ret; done
  | |- knows _ _ _ _ (throw _) _ => apply knows_throw
  | |- knows _ _ _ _ (modify _) _ => apply knows_modify; [done|intros ? ? ?]
  | |- knows _ _ _ _ (gets _) _ => apply knows_gets
  | |- knows _ _ _ _ (call _) _ => apply knows_call; [done|done]
  | |- knows _ _ _ _ (lift _ _ _) _ => apply knows_lift; [done|intros ? ? ?]
  | |- knows _ _ _ _ (match ?x with _ => _ end) _ => destruct x
  | |- knows _ _ _ _ (let _ := _ in _) _ => cbv zeta
  end.
Ltac knows_through := repeat knows_step.
