(* ===== verification/NativeIdentity.v ===== *)
(** * The bridge to the native identity module: src/services/NativeIdentityProvisioning.ts

    Each method forwards to the method of the same name of the native module
    [NativeModules.NativeIdentityProvisioning], which may be missing or too old
    to have it.  [nativeModule] is what the constructor found: [None], or the
    methods the module has.  Arguments are the JSON the bridge carries. *)

From stdpp Require Import strings.
From S2P Require Import Prelude JsString JsMap Json Async Outside.

Section Bridge.
Context {S : Type} (nativeModule : option (jstr → bool)).

Definition MODULE : jstr := js "NativeIdentityProvisioning".

Definition unavailable : error := Error (MODULE ++ js " not available on this platform").
Definition missing (method : jstr) : error := Error (MODULE ++ js "." ++ method ++ js " not available").
(** the dash of the message, U+2014, is written in ASCII *)
Definition rebuild (method : jstr) (hint : jstr) : error :=
  Error (MODULE ++ js "." ++ method ++ js " not available - " ++ hint).
Definition empty (method what : jstr) : error :=
  Error (MODULE ++ js "." ++ method ++ js " returned no " ++ what).

(** the method is called whether or not the module has it *)
Definition plain (method : jstr) (args : list json) : prog S json :=
  match nativeModule with
  | None => throw unavailable
  | Some has => if has method then call (native MODULE method args) else throw TypeError
  end.

(** the method is looked up first, [absent] is what happens without it *)
Definition checked (method : jstr) (absent : prog S json) (args : list json) : prog S json :=
  match nativeModule with
  | None => throw unavailable
  | Some has => if has method then call (native MODULE method args) else absent
  end.

(** [result?.field], which must not be empty *)
Definition required (method field what : jstr) (result : json) : prog S json :=
  match jget field result with
  | Some v => if jtruthy v then ret v else throw (empty method what)
  | None => throw (empty method what)
  end.

(** ** Keys and registration *)

Definition generateLocalIdentity (displayName : jstr) := plain (js "generateLocalIdentity") [JStr displayName].
Definition provisionIdentity (displayName serverUrl : jstr) :=
  plain (js "provisionIdentity") [JStr displayName; JStr serverUrl].
Definition createRegistrationProof (displayName : jstr) (didData : json) :=
  plain (js "createRegistrationProof") [JStr displayName; didData].
Definition storeProvisionedIdentity (identityId : json) (didData : json) :=
  plain (js "storeProvisionedIdentity") [identityId; didData].
Definition restoreIdentityToHandleStore (identityId : json) :=
  plain (js "restoreIdentityToHandleStore") [identityId].

(** a module without the method has no local identity *)
Definition getLocalIdentity (identityIdOrDid : json) :=
  checked (js "getLocalIdentity")
    (ret (JObj [(js "status", JStr (js "missing")); (js "reason", JStr (js "not_supported"))]))
    [identityIdOrDid].

(** ** Backup and recovery *)

Definition getSeedPhraseForBackup (did : json) := plain (js "getSeedPhraseForBackup") [did].
Definition getSeedPhraseFromStoredIdentity (identityIdOrDid : jstr) :=
  let m := js "getSeedPhraseFromStoredIdentity" in checked m (throw (missing m)) [JStr identityIdOrDid].
Definition exportKeystoreBase64 (identityIdOrDid : jstr) :=
  let m := js "exportKeystoreBase64" in checked m (throw (missing m)) [JStr identityIdOrDid].
Definition createBackupFile (fileName content : jstr) :=
  let m := js "createBackupFile" in checked m (throw (missing m)) [JStr fileName; JStr content].
Definition exportBackupFile (filePath : jstr) :=
  let m := js "exportBackupFile" in checked m (throw (missing m)) [JStr filePath].
Definition restoreIdentityFromPhrase (phrase : jstr) := plain (js "restoreIdentityFromPhrase") [JStr phrase].

(** ** Transactions; [params] is the object of the caller *)

Definition signTokenCreateTransaction (params : json) := plain (js "signTokenCreateTransaction") [params].
Definition signTokenMintTransaction (params : json) := plain (js "signTokenMintTransaction") [params].
Definition signTokenTransferTransaction (params : json) := plain (js "signTokenTransferTransaction") [params].
Definition signTokenBurnTransaction (params : json) := plain (js "signTokenBurnTransaction") [params].
Definition signSovWalletTransferTransaction (params : json) := plain (js "signSovWalletTransferTransaction") [params].
Definition signTokenWalletTransferTransaction (params : json) := plain (js "signTokenWalletTransferTransaction") [params].
Definition signDaoStakeTransaction (params : json) := plain (js "signDaoStakeTransaction") [params].
Definition setFeeConfig (configJson : jstr) := plain (js "setFeeConfig") [JStr configJson].
Definition quoteFeeForTxHex (txHex : jstr) := plain (js "quoteFeeForTxHex") [JStr txHex].
Definition signDomainRegisterRequestWithFeePayment (params : json) :=
  let m := js "signDomainRegisterRequestWithFeePayment" in
  checked m (throw (rebuild m (js "rebuild native lib-client"))) [params].
Definition signAssetLaunchTransaction (params : json) :=
  let m := js "signAssetLaunchTransaction" in
  checked m (throw (rebuild m (js "rebuild quic-jni / lib-client (M1 AssetLaunch bridge)"))) [params].
Definition signDomainRegisterRequest (params : json) :=
  let m := js "signDomainRegisterRequest" in checked m (throw (missing m)) [params].
Definition signDomainFeePaymentTx (params : json) :=
  let m := js "signDomainFeePaymentTx" in checked m (throw (rebuild m (js "rebuild the app"))) [params].
Definition signDomainUpdateRequest (params : json) :=
  let m := js "signDomainUpdateRequest" in checked m (throw (missing m)) [params].
Definition signDomainTransferRequest (params : json) :=
  let m := js "signDomainTransferRequest" in checked m (throw (missing m)) [params].

(** ** Messages and public material *)

Definition buildKyberKeyUpdate (timestampSec : Z) : prog S json :=
  let m := js "buildKyberKeyUpdate" in
  result ← checked m (throw (rebuild m (js "rebuild the app"))) [JNum timestampSec];
  required m (js "body") (js "body") result.
Definition signMessage (text : jstr) : prog S json :=
  let m := js "signMessage" in
  result ← checked m (throw (missing m)) [JStr text];
  required m (js "signature") (js "signature") result.
Definition getPublicIdentity :=
  let m := js "getPublicIdentity" in checked m (throw (missing m)) [].
Definition signPouwReceipt (receiptJson : jstr) :=
  let m := js "signPouwReceipt" in checked m (throw (missing m)) [JStr receiptJson].
Definition signMessageForDid (did text : jstr) : prog S json :=
  let m := js "signMessageForDid" in
  result ← checked m (throw (missing m)) [JStr did; JStr text];
  required m (js "signature") (js "signature") result.
Definition signMessageFromSeed (phrase text : jstr) : prog S json :=
  let m := js "signMessageFromSeed" in
  result ← checked m (throw (missing m)) [JStr phrase; JStr text];
  required m (js "signature") (js "signature") result.

(** the methods of the bridge, by name: what [nativeIdentityProvisioning.m] finds *)
Definition methods : list jstr :=
  map js ["generateLocalIdentity"; "provisionIdentity"; "createRegistrationProof"; "storeProvisionedIdentity";
    "restoreIdentityToHandleStore"; "getLocalIdentity"; "getSeedPhraseForBackup"; "getSeedPhraseFromStoredIdentity";
    "exportKeystoreBase64"; "createBackupFile"; "exportBackupFile"; "restoreIdentityFromPhrase";
    "signTokenCreateTransaction"; "signTokenMintTransaction"; "signTokenTransferTransaction";
    "signTokenBurnTransaction"; "signSovWalletTransferTransaction"; "signTokenWalletTransferTransaction";
    "signDaoStakeTransaction"; "setFeeConfig"; "quoteFeeForTxHex"; "signDomainRegisterRequestWithFeePayment";
    "signAssetLaunchTransaction"; "signDomainRegisterRequest"; "signDomainFeePaymentTx"; "signDomainUpdateRequest";
    "signDomainTransferRequest"; "buildKyberKeyUpdate"; "signMessage"; "getPublicIdentity"; "signPouwReceipt";
    "signMessageForDid"; "signMessageFromSeed"]%string.

End Bridge.

(** * Lemmas *)

(** a call of the bridge fails without a request, or is one request to the
    native method of its name *)
Lemma trace_plain {S} nativeModule method args tr r :
  trace obs (plain (S := S) nativeModule method args) tr r →
  (tr = [] ∧ ∃ e, r = inl e) ∨ tr = [Ev (native MODULE method args) r].
Proof.
  unfold plain. destruct nativeModule as [has|]; [destruct (has method)|]; intros H; untrace H; eauto.
Qed.

Lemma trace_checked {S} nativeModule method args (absent : prog S json) tr r :
  trace obs (checked nativeModule method absent args) tr r →
  (tr = [] ∧ ∃ e, r = inl e) ∨ trace obs absent tr r ∨ tr = [Ev (native MODULE method args) r].
Proof.
  unfold checked. destruct nativeModule as [has|]; [destruct (has method)|]; intros H; try (untrace H; by eauto); auto.
Qed.

Lemma trace_required {S} method field what v tr r :
  trace obs (required (S := S) method field what v) tr r →
  tr = [] ∧ ((∃ e, r = inl e) ∨ ∃ w, r = inr w ∧ jget field v = Some w ∧ jtruthy w = true).
Proof.
  unfold required. destruct (jget field v) as [w|]; [destruct (jtruthy w) eqn:E|]; intros H; untrace H; eauto 10.
Qed.
