(* ===== verification/Vault.v ===== *)
(** * What the device keeps: identity, credentials, seeds, bindings, sessions

    src/src/services/SecureIdentityStorage.ts, SeedVaultService.ts,
    WalletKeychainService.ts, ChainBindingStorage.ts, LobbySessionStore.ts and
    IdentityCleanup.ts: tasks over the keychain and AsyncStorage of Outside.v.
    An identity is the JSON object the code passes around; [undefined]
    properties are absent.  Log lines are left out, the tests they contain are
    not; [__DEV__] only chooses between log lines. *)

From stdpp Require Import strings gmap.
From S2P Require Import Prelude JsString JsMap Json Async Outside.
From S2P Require NativeIdentity.

(** ** Names of the entries *)

Definition IDENTITY_KEYCHAIN_SERVICE : jstr := js "sovnet_identity_secure".
Definition SESSION_TOKEN_KEYCHAIN_SERVICE : jstr := js "sovnet_session_token".
Definition LOGIN_CREDENTIAL_SERVER : jstr := js "sovnet.auth".
Definition IDENTITY_ID_ASYNC_STORAGE : jstr := js "sovnet_identity_id".
Definition IDENTITY_BACKUP_STORAGE : jstr := js "sovnet_identity_backup".
Definition CHAIN_BINDING_KEY : jstr := js "sovnet_chain_binding".
Definition SESSION_SERVICE : jstr := js "sovnet_lobby_session_v1".
Definition VAULT_SERVICE : jstr := js "SeedVault".
Definition VAULT_USERNAME : jstr := js "master_seed_phrase".

(** the properties of an identity that are stored, in the order they are written *)
Definition STORED_FIELDS : list jstr :=
  map js ["did"; "displayName"; "identityType"; "avatar"; "createdAt"; "citizenship"; "identityId"]%string.

Definition stored_fields (identity : json) : list (jstr * json) :=
  flat_map (λ k, opt_prop k (jget k identity)) STORED_FIELDS.

(** the object literal handed to [JSON.stringify] *)
Definition identity_data (identity : json) : json := JObj (stored_fields identity).

Record SecureIdentityStorageOptions := mkStorageOptions {
  requireBiometric : bool;
  accessibleAfterFirstUnlock : bool;
}.
Definition default_options : SecureIdentityStorageOptions := mkStorageOptions false true.

Section Vault.
Context {S : Type}.
Abbreviation prog := (Outside.prog S).

(** ** SecureIdentityStorage *)

Definition keychainOptions (o : SecureIdentityStorageOptions) : Options :=
  mkAccess (if accessibleAfterFirstUnlock o then WHEN_UNLOCKED_THIS_DEVICE_ONLY else WHEN_UNLOCKED)
    (requireBiometric o) true.

(** [AsyncStorage.setItem(key, v)]; the native side refuses what is no string *)
Definition setItem_value (key : jstr) (v : option json) : prog unit :=
  match v with Some (JStr s) => call (setItem key s) | _ => throw TypeError end.

Definition setIdentity (identity : json) (o : SecureIdentityStorageOptions) : prog unit :=
  if negb (jtruthy identity && otruthy (jget (js "did") identity))
  then throw (Error (js "Invalid identity: missing required fields"))
  else
    try_catch
      (let identityData := stringify (identity_data identity) in
       call (setGenericPassword IDENTITY_KEYCHAIN_SERVICE (js "identity_data") identityData (keychainOptions o));;
       call (setItem IDENTITY_BACKUP_STORAGE identityData);;
       setItem_value IDENTITY_ID_ASYNC_STORAGE (jget (js "did") identity))
      (λ _, throw (Error (js "Failed to store identity in secure storage"))).

Definition setSessionToken (token : json) : prog unit :=
  if negb (jtruthy token) then throw (Error (js "Invalid session token"))
  else match token with
       | JStr s => call (setGenericPassword SESSION_TOKEN_KEYCHAIN_SERVICE (js "session_token") s
                           (mkAccess WHEN_UNLOCKED_THIS_DEVICE_ONLY false true))
       | _ => throw TypeError
       end.

(** [JSON.parse] of an entry, [null] for an empty or a missing one *)
Definition parse_entry (raw : option jstr) : prog json :=
  match raw with
  | Some b => if truthy b then or_syntax_error (json_parse b) else ret JNull
  | None => ret JNull
  end.

Definition restoreFromBackup : prog json :=
  try_catch (backup ← call (getItem IDENTITY_BACKUP_STORAGE); parse_entry backup) (λ _, ret JNull).

Definition debug_of (e : error) : option jstr := match e with NativeError _ _ d => d | _ => None end.

Definition cancelled (e : error) : bool :=
  includes (js "cancelled") (message e)
  || match debug_of e with Some d => includes (js "cancelled") d | None => false end.

Definition decryption_failed (e : error) : bool :=
  includes (js "Decryption failed") (message e)
  || includes (js "Authentication tag verification failed") (message e)
  || includes (js "Signature/MAC verification failed") (message e).

(** the branch of a lost key: the backup, stored again when it can be *)
Definition recover_from_backup : prog json :=
  try_catch
    (backup ← restoreFromBackup;
     if jtruthy backup then
       try_catch (setIdentity backup (mkStorageOptions true true)) (λ _, ret tt);;
       ret backup
     else ret JNull)
    (λ _, ret JNull).

Definition getIdentity : prog json :=
  try_catch
    (credentials ← call (getGenericPassword IDENTITY_KEYCHAIN_SERVICE);
     match credentials with
     | None => restoreFromBackup
     | Some (_, password) => or_syntax_error (json_parse password)
     end)
    (λ error,
       if cancelled error then ret JNull
       else if decryption_failed error then recover_from_backup
       else ret JNull).

Definition clearIdentity : prog unit :=
  call (resetGenericPassword IDENTITY_KEYCHAIN_SERVICE);;
  call (removeItem IDENTITY_BACKUP_STORAGE);;
  call (removeItem IDENTITY_ID_ASYNC_STORAGE).

Definition hasIdentity : prog bool :=
  try_catch
    (did ← call (getItem IDENTITY_ID_ASYNC_STORAGE);
     ret (match did with Some d => truthy d | None => false end))
    (λ _, ret false).

Definition getCachedDidOnly : prog (option jstr) :=
  try_catch (call (getItem IDENTITY_ID_ASYNC_STORAGE)) (λ _, ret None).

Definition getIdentityId : prog (option jstr) :=
  try_catch
    (cachedDid ← getCachedDidOnly;
     match cachedDid with
     | Some d => if truthy d then ret (Some d) else ret None
     | None => ret None
     end)
    (λ _, ret None).

Definition getIdentityIfAvailable (suppressBiometric : bool) : prog json :=
  try_catch (if suppressBiometric then restoreFromBackup else getIdentity) (λ _, ret JNull).

Definition saveLoginCredentials (did password : jstr) : prog unit :=
  try_catch
    (call (setInternetCredentials LOGIN_CREDENTIAL_SERVER did password
             (mkAccess WHEN_UNLOCKED_THIS_DEVICE_ONLY false true)))
    (λ _, throw (Error (js "Failed to save login credentials"))).

Definition getLoginCredentials : prog (option (jstr * jstr)) :=
  try_catch (call (getInternetCredentials LOGIN_CREDENTIAL_SERVER)) (λ _, ret None).

Definition clearLoginCredentials : prog unit :=
  try_catch (call (resetInternetCredentials LOGIN_CREDENTIAL_SERVER)) (λ _, ret tt).

Definition syncBackup (identity : json) : prog unit :=
  try_catch (call (setItem IDENTITY_BACKUP_STORAGE (stringify (identity_data identity)))) (λ _, ret tt).

(** ** SeedVaultService *)

Definition BIOMETRIC_SECURE_OPTIONS : Options := mkAccess WHEN_UNLOCKED_THIS_DEVICE_ONLY true true.

(** [Keychain.BIOMETRY_TYPE.NONE], which a version of the library may not define *)
Context (BIOMETRY_NONE : option jstr).

(** [savedAt] is [new Date().toISOString()] *)
Definition serialize (seedWords : list jstr) (savedAt : jstr) : jstr :=
  stringify (JObj [(js "words", JArr (map JStr seedWords)); (js "savedAt", JStr savedAt)]).

Definition words_of (parsed : option json) : option (list json) :=
  v ← parsed; jfield (js "words") as_arr v.

(** [payload.trim().split(/\s+/)] of a payload that is no vault record *)
Fixpoint split_spaces_from (in_gap : bool) (s : jstr) : list jstr :=
  match s with
  | [] => [[]]
  | c :: s' =>
      if is_space c then
        if in_gap then split_spaces_from true s' else [] :: split_spaces_from true s'
      else match split_spaces_from false s' with
           | w :: l => (c :: w) :: l
           | [] => [[c]]
           end
  end.
Definition split_spaces (s : jstr) : list jstr := split_spaces_from false s.

Definition deserialize (payload : jstr) : list json :=
  match words_of (json_parse payload) with
  | Some l => l
  | None => map JStr (split_spaces (trim payload))
  end.

Definition isSecureStorageAvailable : prog bool :=
  try_catch
    (biometryType ← call getSupportedBiometryType;
     ret (match biometryType with Some b => truthy b && negb (bool_decide (Some b = BIOMETRY_NONE)) | None => false end))
    (λ _, ret false).

Definition saveSeedPhrase (seedPhrase : list jstr) (savedAt : jstr) : prog unit :=
  match seedPhrase with
  | [] => throw (Error (js "Seed phrase is empty"))
  | _ => call (setGenericPassword VAULT_SERVICE VAULT_USERNAME (serialize seedPhrase savedAt) BIOMETRIC_SECURE_OPTIONS)
  end.

Definition enableBiometricAuth : prog bool := isSecureStorageAvailable.

Definition getBiometryType : prog (option jstr) :=
  try_catch (call getSupportedBiometryType) (λ _, ret None).

Definition clearSeedPhrase : prog unit := call (resetGenericPassword VAULT_SERVICE).

Definition vault_invalidated (e : error) : bool :=
  includes (js "Authentication tag verification failed") (message e)
  || includes (js "CryptoFailedException") (message e).

Definition SEED_VAULT_INVALIDATED : error :=
  Error (js "Seed vault was invalidated (biometrics or screen lock changed). Trying native fallback.").

(** the [catch] of both readers; a failure of [clearSeedPhrase] is thrown *)
Definition vault_failed (e : error) : prog (option (list json)) :=
  if vault_invalidated e then
    clearSeedPhrase;;
    throw SEED_VAULT_INVALIDATED
  else ret None.

Definition read_vault : prog (option (list json)) :=
  credentials ← call (getGenericPassword VAULT_SERVICE);
  match credentials with
  | None => ret None
  | Some (_, password) => ret (Some (deserialize password))
  end.

Definition getSeedPhraseWithPasscode : prog (option (list json)) := try_catch read_vault vault_failed.

(** [return getSeedPhraseWithPasscode()] is not awaited inside the [try]: its
    errors are not caught again *)
Definition getSeedPhraseWithBiometric : prog (option (list json)) :=
  biometricAvailable ← enableBiometricAuth;
  if (biometricAvailable : bool) then try_catch read_vault vault_failed else getSeedPhraseWithPasscode.

Definition getSeedPhrase : prog (option (list json)) := getSeedPhraseWithBiometric.

(** ** WalletKeychainService: [has] is what the native iOS module offers *)

Section WalletKeychain.
Context (has : jstr → bool).

Definition WALLET_MODULE : jstr := js "WalletKeychain".
Definition seed_key (identityId : jstr) : jstr := js "master_seed_" ++ identityId.
Definition seed_service (identityId : jstr) : jstr := js "WalletKeychain:" ++ seed_key identityId.
Definition wallet_options : Options := mkAccess WHEN_UNLOCKED_THIS_DEVICE_ONLY false true.

Definition is_true (v : json) : bool := match v with JBool b => b | _ => false end.

Definition storeMasterSeedPhrase (seedPhrase identityId : jstr) : prog bool :=
  try_catch
    (if has (js "storeSecureString") then
       result ← call (native WALLET_MODULE (js "storeSecureString") [JStr (seed_key identityId); JStr seedPhrase]);
       ret (is_true result)
     else
       call (setGenericPassword (seed_service identityId) (js "seed") seedPhrase wallet_options);;
       ret true)
    (λ _, ret false).

Definition retrieveMasterSeedPhrase (identityId : jstr) : prog (option jstr) :=
  try_catch
    (if has (js "getSecureString") then
       seedPhrase ← call (native WALLET_MODULE (js "getSecureString") [JStr (seed_key identityId)]);
       match seedPhrase with JStr s => ret (if truthy s then Some s else None) | _ => ret None end
     else
       credentials ← call (getGenericPassword (seed_service identityId));
       match credentials with
       | None => ret None
       | Some (_, password) => ret (if truthy password then Some password else None)
       end)
    (λ _, ret None).

Definition deleteMasterSeedPhrase (identityId : jstr) : prog bool :=
  try_catch
    (if has (js "deleteSecureString") then
       result ← call (native WALLET_MODULE (js "deleteSecureString") [JStr (seed_key identityId)]);
       ret (is_true result)
     else
       call (resetGenericPassword (seed_service identityId));;
       ret true)
    (λ _, ret false).

End WalletKeychain.

(** ** ChainBindingStorage *)

Record LocalChainBinding := mkBinding {
  chainId : json;
  registeredHeight : json;
  identityId : jstr;
  primaryWalletId : jstr;
  ubiWalletId : jstr;
  savingsWalletId : jstr;
}.

Definition binding_json (b : LocalChainBinding) : json :=
  JObj [(js "chainId", chainId b); (js "registeredHeight", registeredHeight b);
        (js "identityId", JStr (identityId b)); (js "primaryWalletId", JStr (primaryWalletId b));
        (js "ubiWalletId", JStr (ubiWalletId b)); (js "savingsWalletId", JStr (savingsWalletId b))].

Definition getBinding : prog json :=
  try_catch (raw ← call (getItem CHAIN_BINDING_KEY); parse_entry raw) (λ _, ret JNull).

Definition setBinding (b : LocalChainBinding) : prog unit :=
  call (setItem CHAIN_BINDING_KEY (stringify (binding_json b))).

Definition clearBinding : prog unit := call (removeItem CHAIN_BINDING_KEY).

(** ** LobbySessionStore *)

Definition loadLobbySession : prog json :=
  try_catch
    (r ← call (getGenericPassword SESSION_SERVICE);
     match r with
     | None => ret JNull
     | Some (_, password) =>
         parsed ← or_syntax_error (json_parse password);
         token ← dot parsed (js "sessionToken");
         if negb (otruthy token) || negb (otruthy (jget (js "sessionKeyB64") parsed)) then ret JNull
         else ret parsed
     end)
    (λ _, ret JNull).

Definition saveLobbySession (session : json) : prog unit :=
  call (setGenericPassword SESSION_SERVICE (js "lobby_session") (stringify session)
          (mkAccess AFTER_FIRST_UNLOCK_THIS_DEVICE_ONLY false false)).

Definition clearLobbySession : prog unit :=
  try_catch (call (resetGenericPassword SESSION_SERVICE)) (λ _, ret tt).

(** ** IdentityCleanup: on a phone *)

Definition cleanAllIdentities : prog unit :=
  call (native NativeIdentity.MODULE (js "cleanKeystoreDirectory") []);;
  call (removeItem IDENTITY_ID_ASYNC_STORAGE);;
  try_catch clearIdentity (λ _, ret tt);;
  try_catch clearLoginCredentials (λ _, ret tt).

Definition cleanSpecificIdentity (identityId : jstr) : prog unit :=
  if negb (truthy identityId) then throw (Error (js "Identity ID is required"))
  else
    call (native NativeIdentity.MODULE (js "cleanKeystoreDirectoryForId") [JStr identityId]);;
    cachedDid ← call (getItem IDENTITY_ID_ASYNC_STORAGE);
    match cachedDid with
    | Some d => if includes identityId d then call (removeItem IDENTITY_ID_ASYNC_STORAGE) else ret tt
    | None => ret tt
    end.

End Vault.

(** * Lemmas *)

(** ** The stored identity *)

Lemma stored_keys identity : mkeys (stored_fields identity) `sublist_of` STORED_FIELDS.
Proof.
  unfold stored_fields. generalize STORED_FIELDS. intros l.
  induction l as [|k l IH]; simpl; [constructor|].
  destruct (jget k identity); simpl; by constructor.
Qed.

Lemma plain_identity_data identity : plain identity → plain (identity_data identity).
Proof.
  intros Hp. apply plain_obj. split.
  - apply (sublist_NoDup _ STORED_FIELDS); [|apply stored_keys]. by apply (bool_decide_eq_true_1 (NoDup STORED_FIELDS)).
  - unfold stored_fields. apply Forall_flat_map. apply list.Forall_forall. intros k _.
    destruct (jget k identity) as [v|] eqn:E; simpl; [|constructor]. repeat constructor. simpl.
    destruct identity as [| | | | | |l]; simpl in E; try done.
    apply plain_obj in Hp as [_ Hl]. apply mget_Some_in in E.
    rewrite list.Forall_forall in Hl. exact (Hl _ E).
Qed.

Lemma mget_opt_props (f : jstr → option json) k l m :
  mget k (flat_map (λ k, opt_prop k (f k)) l ++ m) =
  if decide (k ∈ l ∧ is_Some (f k)) then f k else mget k m.
Proof.
  induction l as [|k' l IH]; [by rewrite decide_False by set_solver|].
  simpl. rewrite <-app_assoc. destruct (decide (k = k')) as [->|Hne].
  - destruct (f k') as [v|] eqn:E; simpl.
    + rewrite decide_True by done. rewrite decide_True; [done|]. split; [set_solver|by eexists].
    + rewrite IH, !decide_False; rewrite ?E; [done|by intros [_ []]..].
  - transitivity (mget k (flat_map (λ k, opt_prop k (f k)) l ++ m)).
    + destruct (f k'); simpl; [by rewrite decide_False|done].
    + rewrite IH. apply decide_ext. set_solver.
Qed.

Lemma identity_data_did identity : jget (js "did") (identity_data identity) = jget (js "did") identity.
Proof.
  change (jget (js "did") (identity_data identity)) with (mget (js "did") (stored_fields identity)).
  unfold stored_fields.
  rewrite <-(app_nil_r (flat_map _ _)), mget_opt_props. destruct (decide _) as [|Hn]; [done|].
  destruct (jget (js "did") identity) eqn:E; [|done].
  destruct Hn. split; [by left|by eexists].
Qed.

Lemma stored_truthy identity : truthy (stringify (identity_data identity)) = true.
Proof. done. Qed.

Lemma stored_parses identity : plain identity → json_parse (stringify (identity_data identity)) = Some (identity_data identity).
Proof. intros H. by apply json_parse_stringify, plain_identity_data. Qed.

Lemma opt_props_idem (f : jstr → option json) l l' :
  (∀ k, k ∈ l → k ∈ l') →
  flat_map (λ k, opt_prop k (mget k (flat_map (λ k, opt_prop k (f k)) l'))) l = flat_map (λ k, opt_prop k (f k)) l.
Proof.
  induction l as [|k l IH]; intros Hl; [done|]. cbn [flat_map]. rewrite IH by (intros k' Hk; apply Hl; by right).
  f_equal. rewrite <-(app_nil_r (flat_map _ l')), mget_opt_props.
  destruct (decide _) as [|Hn]; [done|]. destruct (f k) eqn:E; [|done].
  destruct Hn. split; [apply Hl; by left|by eexists].
Qed.

(** what is stored of a stored identity is the same *)
Lemma identity_data_idem identity : identity_data (identity_data identity) = identity_data identity.
Proof. unfold identity_data, stored_fields. f_equal. by apply (opt_props_idem (λ k, jget k identity)). Qed.

#[export] Hint Resolve plain_identity_data stored_parses : sovnet.

(** ** The identity over a storage that keeps its promises *)

(** only the three entries of the identity may differ *)
Definition elsewhere (c c' : contents) : Prop :=
  (∀ k, k ≠ IDENTITY_KEYCHAIN_SERVICE → generic c' !! k = generic c !! k) ∧
  internet c' = internet c ∧
  (∀ k, k ≠ IDENTITY_BACKUP_STORAGE → k ≠ IDENTITY_ID_ASYNC_STORAGE → items c' !! k = items c !! k).

#[export] Instance elsewhere_preorder : PreOrder elsewhere.
Proof.
  split; [done|]. intros c1 c2 c3 (H1 & H2 & H3) (G1 & G2 & G3).
  split; [|split; [congruence|]]; intros; [by rewrite G1, H1|by rewrite G3, H3].
Qed.

(** the entries after a successful [setIdentity] *)
Definition holds (identity : json) (c : contents) : Prop :=
  generic c !! IDENTITY_KEYCHAIN_SERVICE = Some (js "identity_data", stringify (identity_data identity)) ∧
  items c !! IDENTITY_BACKUP_STORAGE = Some (stringify (identity_data identity)) ∧
  ∃ did, jget (js "did") identity = Some (JStr did) ∧ items c !! IDENTITY_ID_ASYNC_STORAGE = Some did.

Definition absent (c : contents) : Prop :=
  generic c !! IDENTITY_KEYCHAIN_SERVICE = None ∧ items c !! IDENTITY_BACKUP_STORAGE = None ∧
  items c !! IDENTITY_ID_ASYNC_STORAGE = None.

Lemma elsewhere_generic v c : elsewhere c (set_generic IDENTITY_KEYCHAIN_SERVICE v c).
Proof. split; [|done]. intros k Hk. by apply generic_set_ne. Qed.

Lemma elsewhere_items k v c :
  k = IDENTITY_BACKUP_STORAGE ∨ k = IDENTITY_ID_ASYNC_STORAGE → elsewhere c (set_items k v c).
Proof.
  intros Hk. split; [done|]. split; [done|]. intros k' H1 H2. apply items_set_ne. by destruct Hk as [->| ->].
Qed.

Lemma elsewhere_written {V R} (set : option V → contents → contents) v c c' (r : error + R) :
  (∀ w c, elsewhere c (set w c)) → written set v c c' r → elsewhere c c'.
Proof. intros H. destruct r; simpl; [intros [w ->]|intros ->]; apply H. Qed.

Lemma items_distinct : IDENTITY_BACKUP_STORAGE ≠ IDENTITY_ID_ASYNC_STORAGE.
Proof. by vm_compute. Qed.

#[local] Arguments stringify : simpl never.
#[local] Arguments json_parse : simpl never.
#[local] Arguments identity_data : simpl never.
#[local] Arguments restoreFromBackup : simpl never.
#[local] Arguments recover_from_backup : simpl never.
#[local] Arguments setIdentity : simpl never.
#[local] Arguments getIdentity : simpl never.
#[local] Arguments clearIdentity : simpl never.

Section Laws.
Context {S D : Type} (handle : ∀ R : Set, req R → D → (error + R) * D) (view : D → contents).
Context {promises : Storage handle view}.

Abbreviation run := (@solo S error req D handle _).

Ltac answer r d' L := answer_by handle view promises r d' L.

(** every run of [setIdentity] *)
Lemma setIdentity_run identity o (s : S) d :
  ∃ r d', run (setIdentity identity o) s d = Some (r, s, d') ∧ elsewhere (view d) (view d') ∧
    match r with
    | inr _ => holds identity (view d')
    | inl e => e = Error (js "Invalid identity: missing required fields") ∧ d' = d ∨
               e = Error (js "Failed to store identity in secure storage")
    end.
Proof.
  unfold setIdentity. destruct (jtruthy identity && otruthy (jget (js "did") identity)) eqn:E; cbn [negb];
    [|eexists _, _; split; [done|]; split; [done|]; by left].
  enter. answer r1 d1 L1. pose proof (elsewhere_written _ _ _ _ _ (elsewhere_generic) L1) as F1.
  destruct r1 as [e|[]]; enter; [eexists _, _; split; [done|]; split; [done|by right]|].
  answer r2 d2 L2.
  pose proof (elsewhere_written _ _ _ _ _ (λ w c, elsewhere_items _ w c (or_introl eq_refl)) L2) as F2.
  destruct r2 as [e|[]]; enter; [eexists _, _; split; [done|]; split; [by etrans|by right]|].
  destruct (jget (js "did") identity) as [v|] eqn:Ed; [|by rewrite andb_false_r in E].
  destruct v as [| | | |did| |]; cbn [setItem_value]; enter;
    try (eexists _, _; split; [done|]; split; [by etrans|by right]).
  answer r3 d3 L3.
  pose proof (elsewhere_written _ _ _ _ _ (λ w c, elsewhere_items _ w c (or_intror eq_refl)) L3) as F3.
  destruct r3 as [e|[]]; enter; (eexists _, _; split; [done|]; split; [by etrans; [|etrans]|]); [by right|].
  split; [|split; [|exists did; split; [done|]]]; rewrite L3, ?L2, ?L1.
  - apply generic_set.
  - rewrite items_set_ne by apply items_distinct. apply items_set.
  - apply items_set.
Qed.

(** what a backup restores *)
Definition backup_value (c : contents) : json :=
  match items c !! IDENTITY_BACKUP_STORAGE with
  | Some b => if truthy b then default JNull (json_parse b) else JNull
  | None => JNull
  end.

Lemma parse_entry_run raw (s : S) d :
  ∃ r, run (parse_entry raw) s d = Some (r, s, d) ∧
    match raw with
    | Some b => if truthy b then r = match json_parse b with Some v => inr v | None => inl (Js Quic.SyntaxError) end
                else r = inr JNull
    | None => r = inr JNull
    end.
Proof.
  destruct raw as [b|]; simpl; [|by eexists]. destruct (truthy b); [|by eexists].
  destruct (json_parse b); by eexists.
Qed.

Lemma restoreFromBackup_run (s : S) d :
  ∃ d', run restoreFromBackup s d =
        Some (inr (match (handle _ (getItem IDENTITY_BACKUP_STORAGE) d).1 with
                   | inr _ => backup_value (view d) | inl _ => JNull end), s, d') ∧ view d' = view d.
Proof.
  unfold restoreFromBackup, backup_value. enter. answer r d' L. destruct L as [Lv Lr].
  destruct r as [e|raw]; [by eexists|]. subst raw.
  destruct (parse_entry_run (items (view d) !! IDENTITY_BACKUP_STORAGE) s d') as (r & -> & H).
  destruct (items (view d) !! IDENTITY_BACKUP_STORAGE) as [b|]; [|subst r; by eexists].
  destruct (truthy b); subst r; [|by eexists]. destruct (json_parse b); by eexists.
Qed.

Lemma backup_holds identity d : plain identity → holds identity (view d) → backup_value (view d) = identity_data identity.
Proof. intros Hp (_ & H & _). unfold backup_value. rewrite H, stored_truthy. by rewrite stored_parses. Qed.

Lemma recover_from_backup_run (s : S) d :
  ∃ d', run recover_from_backup s d =
        Some (inr (match (handle _ (getItem IDENTITY_BACKUP_STORAGE) d).1 with
                   | inr _ => if jtruthy (backup_value (view d)) then backup_value (view d) else JNull
                   | inl _ => JNull end), s, d') ∧
    elsewhere (view d) (view d').
Proof.
  unfold recover_from_backup. enter. destruct (restoreFromBackup_run s d) as (d1 & Hr & Hv). rewrite Hr.
  destruct (handle _ (getItem IDENTITY_BACKUP_STORAGE) d).1 as [e|raw]; enter; [exists d1; by rewrite Hv|].
  destruct (jtruthy (backup_value (view d))) eqn:E; enter; [|exists d1; by rewrite Hv].
  destruct (setIdentity_run (backup_value (view d)) (mkStorageOptions true true) s d1)
    as (r & d2 & Hr2 & Hel & _). rewrite Hv in Hel. rewrite Hr2.
  destruct r as [e|[]]; enter; by exists d2.
Qed.

(** every answer of [getIdentity] *)
Lemma getIdentity_run (s : S) d :
  ∃ v d', run getIdentity s d = Some (inr v, s, d') ∧ elsewhere (view d) (view d') ∧
    let d1 := (handle _ (getGenericPassword IDENTITY_KEYCHAIN_SERVICE) d).2 in
    let backup := match (handle _ (getItem IDENTITY_BACKUP_STORAGE) d1).1 with
                  | inr _ => backup_value (view d) | inl _ => JNull end in
    match (handle _ (getGenericPassword IDENTITY_KEYCHAIN_SERVICE) d).1 with
    | inr _ => view d' = view d ∧
        match generic (view d) !! IDENTITY_KEYCHAIN_SERVICE with
        | Some (_, text) => v = default JNull (json_parse text)
        | None => v = backup
        end
    | inl e => v = if cancelled e || negb (decryption_failed e) then JNull
                   else if jtruthy backup then backup else JNull
    end.
Proof.
  unfold getIdentity. enter. answer r d1 L. destruct L as [Lv Lr].
  destruct r as [e|c].
  - destruct (cancelled e); [exists JNull, d1; by rewrite Lv|].
    destruct (decryption_failed e); [|exists JNull, d1; by rewrite Lv].
    destruct (recover_from_backup_run s d1) as (d2 & Hr & Hel). rewrite Lv in Hr, Hel. rewrite Hr.
    by destruct (handle _ (getItem IDENTITY_BACKUP_STORAGE) d1).1; eexists _, d2.
  - subst c. destruct (generic (view d) !! IDENTITY_KEYCHAIN_SERVICE) as [[u text]|].
    + destruct (json_parse text) as [v|] eqn:Ep; cbn [or_syntax_error]; enter; [exists v|exists JNull]; exists d1; by rewrite Lv.
    + destruct (restoreFromBackup_run s d1) as (d2 & Hr & Hv). rewrite Lv in Hr, Hv. rewrite Hr.
      eexists _, d2. rewrite Hv. split; [done|]. split; [done|]. by split.
Qed.

(** C26: What [setIdentity] stores is read back: after a success the backup
    and every keychain read that answers give the seven stored properties of the
    identity, and a keychain that can no longer decrypt (but was not cancelled)
    gives them too; the identity of authenticated requests is its DID.  No other
    entry changed. *)
Theorem identity_roundtrip identity o (s : S) d d' :
  plain identity → (∀ k e, ∃ v, (handle _ (getItem k) e).1 = inr v) →
  run (setIdentity identity o) s d = Some (inr tt, s, d') →
  elsewhere (view d) (view d') ∧
  (∃ d2, run (getIdentityIfAvailable true) s d' = Some (inr (identity_data identity), s, d2)) ∧
  (∃ did d2, jget (js "did") identity = Some (JStr did) ∧ run getIdentityId s d' = Some (inr (Some did), s, d2)) ∧
  ∃ d2, run getIdentity s d' =
    Some (inr (match (handle _ (getGenericPassword IDENTITY_KEYCHAIN_SERVICE) d').1 with
               | inr _ => identity_data identity
               | inl e => if cancelled e || negb (decryption_failed e) then JNull else identity_data identity
               end), s, d2).
Proof.
  intros Hp Ha Hset. destruct (setIdentity_run identity o s d) as (r & d1 & Hr & Hel & Hok).
  rewrite Hset in Hr. injection Hr as <- <-.
  split; [done|]. split; [|split].
  - unfold getIdentityIfAvailable. enter. destruct (restoreFromBackup_run s d') as (d2 & -> & _).
    destruct (Ha IDENTITY_BACKUP_STORAGE d') as [v ->]. exists d2. by rewrite (backup_holds identity).
  - destruct Hok as (_ & _ & did & Hd & Hi). exists did.
    assert (truthy did = true) as Ht.
    { revert Hset. unfold setIdentity. rewrite Hd. destruct did; [|done].
      change (otruthy (Some (JStr []))) with false. by rewrite andb_false_r. }
    unfold getIdentityId, getCachedDidOnly. enter. destruct (Ha IDENTITY_ID_ASYNC_STORAGE d') as [v Hv].
    revert Hv. answer a d2 L. intros ->. destruct L as [_ ->]. rewrite Hi, Ht. by eexists.
  - destruct (getIdentity_run s d') as (v & d2 & -> & _ & Hv). exists d2. do 3 f_equal.
    cbv zeta in Hv. destruct (Ha IDENTITY_BACKUP_STORAGE (handle _ (getGenericPassword IDENTITY_KEYCHAIN_SERVICE) d').2) as [b Hb].
    rewrite Hb, (backup_holds identity) in Hv by done.
    destruct (handle _ (getGenericPassword IDENTITY_KEYCHAIN_SERVICE) d').1 as [e|c]; [rewrite Hv; by destruct (_ || _)|].
    destruct Hv as [_ Hv]. destruct Hok as (Hg & _). rewrite Hg, stored_parses in Hv by done. by rewrite Hv.
Qed.

(** nothing is read back from a vault without the three entries *)
Lemma nothing_left (s : S) d :
  absent (view d) →
  (∃ d2, run getIdentity s d = Some (inr JNull, s, d2)) ∧
  (∀ b, ∃ d2, run (getIdentityIfAvailable b) s d = Some (inr JNull, s, d2)) ∧
  (∃ d2, run hasIdentity s d = Some (inr false, s, d2)) ∧
  ∃ d2, run getIdentityId s d = Some (inr None, s, d2).
Proof.
  intros (Hg & Hb & Hi). assert (backup_value (view d) = JNull) as Hv by (unfold backup_value; by rewrite Hb).
  assert (∃ d2, run getIdentity s d = Some (inr JNull, s, d2)) as H1.
  { destruct (getIdentity_run s d) as (v & d2 & -> & _ & H). exists d2. do 3 f_equal. cbv zeta in H.
    rewrite Hv, Hg in H. destruct (handle (option jstr) _ _).1;
      (destruct (handle _ (getGenericPassword _) d).1; [destruct (_ || _)|]); naive_solver. }
  assert (∃ d2, run getIdentityId s d = Some (inr None, s, d2)) as H3.
  { unfold getIdentityId, getCachedDidOnly. enter. answer a d2 L. destruct L as [_ L].
    destruct a as [e|w]; [|rewrite Hi in L; subst w]; by eexists. }
  split; [done|]. split; [|split; [|done]].
  - intros []; unfold getIdentityIfAvailable; enter; [|by destruct H1 as [d2 ->]; exists d2].
    destruct (restoreFromBackup_run s d) as (d2 & -> & _). rewrite Hv.
    exists d2. by destruct (handle _ _ d).1.
  - unfold hasIdentity. enter. answer a d2 L. destruct L as [_ L].
    destruct a as [e|w]; [|rewrite Hi in L; subst w]; by eexists.
Qed.

Lemma clearIdentity_run (s : S) d :
  ∃ r d', run clearIdentity s d = Some (r, s, d') ∧ elsewhere (view d) (view d') ∧ (r = inr tt → absent (view d')).
Proof.
  unfold clearIdentity. enter. answer r1 d1 L1.
  pose proof (elsewhere_written _ _ _ _ _ (elsewhere_generic) L1) as F1.
  destruct r1 as [e|[]]; enter; [by eexists _, d1|].
  answer r2 d2 L2.
  pose proof (elsewhere_written _ _ _ _ _ (λ w c, elsewhere_items _ w c (or_introl eq_refl)) L2) as F2.
  destruct r2 as [e|[]]; enter; [eexists _, d2; split; [done|]; split; [by etrans|done]|].
  answer r3 d3 L3.
  pose proof (elsewhere_written _ _ _ _ _ (λ w c, elsewhere_items _ w c (or_intror eq_refl)) L3) as F3.
  eexists r3, d3. split; [done|]. split; [by etrans; [|etrans]|]. intros ->.
  repeat split; rewrite L3, ?L2, ?L1; [apply generic_set| |apply items_set].
  rewrite items_set_ne by apply items_distinct. apply items_set.
Qed.

(** C34: [clearIdentity] erases the identity and nothing else: it changes no
    entry of the device but the three of the identity, the login credentials
    among those it keeps, also when it fails; when it succeeds the three are gone
    and no read made then, whatever the keychain answers, gives an identity.
    (The sign-out of the provider goes on to end the lobby session, whose entry
    is another one.) *)
Theorem clear_identity_erases (s : S) d :
  ∃ r d', run clearIdentity s d = Some (r, s, d') ∧ elsewhere (view d) (view d') ∧
    (r = inr tt → absent (view d') ∧
      (∃ d2, run getIdentity s d' = Some (inr JNull, s, d2)) ∧
      (∀ b, ∃ d2, run (getIdentityIfAvailable b) s d' = Some (inr JNull, s, d2)) ∧
      (∃ d2, run hasIdentity s d' = Some (inr false, s, d2)) ∧
      ∃ d2, run getIdentityId s d' = Some (inr None, s, d2)).
Proof.
  destruct (clearIdentity_run s d) as (r & d' & Hr & Hel & Ha). exists r, d'. split; [done|]. split; [done|].
  intros H. split; [by apply Ha|by apply nothing_left, Ha].
Qed.


(** with an AsyncStorage that takes writes, [setIdentity] fails only in the
    keychain, and then it has written nothing else *)
Lemma setIdentity_reliable identity did o (s : S) d :
  (∀ k v e, (handle _ (setItem k v) e).1 = inr tt) →
  jtruthy identity = true → jget (js "did") identity = Some (JStr did) → truthy did = true →
  ∃ r d', run (setIdentity identity o) s d = Some (r, s, d') ∧
    match r with inr _ => holds identity (view d') | inl _ => items (view d') = items (view d) end.
Proof.
  intros Ha Ht Hd Hdid. destruct (setIdentity_run identity o s d) as (r & d' & Hr & _ & Hh).
  destruct r as [e|[]]; [|by eexists _, _]. exists (inl e), d'. split; [done|].
  revert Hr. unfold setIdentity. rewrite Ht, Hd. cbn [otruthy jtruthy]. rewrite Hdid. cbn [andb negb].
  enter. answer r1 d1 L1. destruct r1 as [e1|[]]; enter.
  - intros [= _ <-]. by destruct L1 as [w ->].
  - rewrite Ha. enter. cbn [setItem_value]. enter. by rewrite Ha.
Qed.

(** the answers of the keychain to the next read that give the identity again:
    it still cannot decrypt; its entry is gone; it took the identity when that was
    stored again, or still has the text that was stored *)
Definition recoverable identity (c : contents) (a : error + option (jstr * jstr)) : Prop :=
  match a with
  | inl e => cancelled e = false ∧ decryption_failed e = true
  | inr None => True
  | inr (Some (_, text)) => holds identity c ∨ text = stringify (identity_data identity)
  end.

Lemma next_read identity (s : S) d :
  plain identity → (∀ k e, ∃ v, (handle _ (getItem k) e).1 = inr v) →
  items (view d) !! IDENTITY_BACKUP_STORAGE = Some (stringify (identity_data identity)) →
  recoverable identity (view d) (handle _ (getGenericPassword IDENTITY_KEYCHAIN_SERVICE) d).1 →
  ∃ d2, run getIdentity s d = Some (inr (identity_data identity), s, d2).
Proof.
  intros Hp Hread Hi Ha. destruct (getIdentity_run s d) as (v & d2 & Hr & _ & Hv). exists d2. rewrite Hr. do 4 f_equal.
  assert (backup_value (view d) = identity_data identity) as Hb.
  { unfold backup_value. by rewrite Hi, stored_truthy, stored_parses. }
  cbv zeta in Hv. destruct (Hread IDENTITY_BACKUP_STORAGE (handle _ (getGenericPassword IDENTITY_KEYCHAIN_SERVICE) d).2) as [b Eb].
  rewrite Eb, Hb in Hv. revert Ha Hv. answer a d1 L. clear Eb. destruct L as [_ L]. destruct a as [e|o].
  - intros [-> ->] ->. cbn [orb negb]. by change (jtruthy (identity_data identity)) with true.
  - subst o. intros Ha [_ Hv]. destruct (generic (view d) !! IDENTITY_KEYCHAIN_SERVICE) as [[u text]|] eqn:E; [|done].
    assert (text = stringify (identity_data identity)) as ->.
    { destruct Ha as [(Hg & _)| ->]; [|done]. rewrite E in Hg. by injection Hg. }
    by rewrite stored_parses in Hv.
Qed.

(** C35: A keystore reset does not lose the identity: with the entries in
    place and an AsyncStorage that answers, a keychain that can no longer
    decrypt makes [getIdentity] return the stored identity from its backup.  The
    three entries are then written anew, or AsyncStorage is as it was, because the
    keychain refused the write; either way the next read gives the identity again,
    whether the keychain still cannot decrypt, or has no entry, or gives what was
    stored ([recoverable]: only an entry the keychain made up itself when it
    refused could be read as something else).  No other entry changes. *)
Theorem keystore_reset_survived identity (s : S) d e :
  plain identity → holds identity (view d) → otruthy (jget (js "did") identity) = true →
  (∀ k e', ∃ v, (handle _ (getItem k) e').1 = inr v) → (∀ k v e', (handle _ (setItem k v) e').1 = inr tt) →
  (handle _ (getGenericPassword IDENTITY_KEYCHAIN_SERVICE) d).1 = inl e →
  cancelled e = false → decryption_failed e = true →
  ∃ d', run getIdentity s d = Some (inr (identity_data identity), s, d') ∧ elsewhere (view d) (view d') ∧
    (holds identity (view d') ∨ items (view d') = items (view d)) ∧
    (∀ s2 d2, view d2 = view d' →
       recoverable identity (view d2) (handle _ (getGenericPassword IDENTITY_KEYCHAIN_SERVICE) d2).1 →
       ∃ d3, run getIdentity s2 d2 = Some (inr (identity_data identity), s2, d3)).
Proof.
  intros Hp Hh Ht Hread Hwrite He Hc Hdec. enough (∃ d', run getIdentity s d = Some (inr (identity_data identity), s, d') ∧
    elsewhere (view d) (view d') ∧ (holds identity (view d') ∨ items (view d') = items (view d))) as (d' & Hr & Hel & Hi).
  { exists d'. split; [done|]. split; [done|]. split; [done|]. intros s2 d2 Hv. apply next_read; [done..|]. rewrite Hv.
    destruct Hi as [(_ & Hb & _)|Hi]; [done|]. rewrite Hi. by destruct Hh as (_ & Hb & _). }
  destruct (Hh) as (_ & _ & did & Hd & _).
  unfold getIdentity. enter. revert He. answer a d1 L. intros ->. destruct L as [Lv _].
  rewrite Hc, Hdec. unfold recover_from_backup. enter.
  destruct (restoreFromBackup_run s d1) as (d2 & -> & Hv). destruct (Hread IDENTITY_BACKUP_STORAGE d1) as [b ->].
  rewrite <-Lv in Hh. rewrite (backup_holds identity) by done.
  cbn beta iota. change (jtruthy (identity_data identity)) with true. enter.
  destruct (setIdentity_run (identity_data identity) (mkStorageOptions true true) s d2) as (r & d3 & Hr & Hel & _).
  destruct (setIdentity_reliable (identity_data identity) did (mkStorageOptions true true) s d2) as (r' & d3' & Hr' & Hi); auto.
  { by rewrite identity_data_did. } { by rewrite Hd in Ht. }
  rewrite Hr' in Hr. injection Hr as -> ->. rewrite Hr'. rewrite Hv, Lv in Hel, Hi.
  exists d3. destruct r as [e'|[]]; enter; (split; [done|]; split; [done|]); [by right|left].
  unfold holds in *. by rewrite identity_data_idem, identity_data_did in Hi.
Qed.

Lemma deserialize_serialize words savedAt : deserialize (serialize words savedAt) = map JStr words.
Proof.
  unfold deserialize, serialize. rewrite json_parse_stringify; [done|]. apply plain_obj. split.
  - by apply (bool_decide_eq_true_1 (NoDup _)).
  - repeat constructor. apply plain_arr. apply Forall_map. by apply list.Forall_true.
Qed.

(** an invalidated vault: the entry is deleted, or the error says that it could not be *)
Definition vault_dropped (r : error + option (list json)) (c c' : contents) : Prop :=
  r = inl SEED_VAULT_INVALIDATED ∧ c' = set_generic VAULT_SERVICE None c ∨
  ∃ e w d, r = inl e ∧ (handle _ (resetGenericPassword VAULT_SERVICE) d).1 = inl e ∧
           c' = set_generic VAULT_SERVICE w c.

(** a reader of the vault, whatever the prompt *)
Lemma read_vault_run (s : S) d :
  ∃ r d', run (try_catch read_vault vault_failed) s d = Some (r, s, d') ∧
    match (handle _ (getGenericPassword VAULT_SERVICE) d).1 with
    | inr _ => view d' = view d ∧
        r = inr (match generic (view d) !! VAULT_SERVICE with
                 | Some (_, password) => Some (deserialize password) | None => None end)
    | inl e => if vault_invalidated e then vault_dropped r (view d) (view d')
               else view d' = view d ∧ r = inr None
    end.
Proof.
  unfold read_vault. enter. answer a d1 L. destruct L as [Lv Lr]. destruct a as [e|c]; enter.
  - unfold vault_failed. destruct (vault_invalidated e) eqn:Ei; enter; [|eexists _, d1; by rewrite Lv].
    unfold clearSeedPhrase, vault_dropped. enter.
    pose proof (promises _ (resetGenericPassword VAULT_SERVICE) d1) as L2. cbn in L2. rewrite Lv in L2.
    destruct (handle _ (resetGenericPassword VAULT_SERVICE) d1) as [[e2|[]] d2] eqn:E2; enter; cbn in L2;
      (eexists _, d2; split; [done|]); [right|left; by rewrite L2].
    destruct L2 as [w ->]. exists e2, w, d1. by rewrite E2.
  - subst c. destruct (generic (view d) !! VAULT_SERVICE) as [[u p]|]; enter; eexists _, d1; by rewrite Lv.
Qed.

(** The seed vault gives back the words it was given: after a successful
    [saveSeedPhrase] a keychain that answers returns exactly those words, with
    or without biometrics; a keychain whose key was invalidated makes the read
    throw, never return other words, and the entry is deleted; any other failure
    gives [null] and keeps the entry. *)
Fact seed_vault_roundtrip none words savedAt (s : S) d d' :
  run (saveSeedPhrase words savedAt) s d = Some (inr tt, s, d') →
  let d1 := (handle _ getSupportedBiometryType d').2 in
  ∃ r d2, run (getSeedPhrase none) s d' = Some (r, s, d2) ∧
    match (handle _ (getGenericPassword VAULT_SERVICE) d1).1 with
    | inr _ => r = inr (Some (map JStr words)) ∧ view d2 = view d'
    | inl e => if vault_invalidated e
               then vault_dropped r (view d') (view d2)
               else r = inr None ∧ view d2 = view d'
    end.
Proof.
  intros Hs. cbv zeta. assert (generic (view d') !! VAULT_SERVICE = Some (VAULT_USERNAME, serialize words savedAt)) as Hg.
  { revert Hs. destruct words as [|w l]; [done|]. unfold saveSeedPhrase. enter. answer a d1 L.
    intros [= -> ->]. rewrite L. apply generic_set. }
  unfold getSeedPhrase, getSeedPhraseWithBiometric, enableBiometricAuth, isSecureStorageAvailable, getSeedPhraseWithPasscode.
  pose proof (read_vault_run s) as Hrun. set (read := try_catch read_vault vault_failed) in *. clearbody read.
  enter. answer b d1 L.
  destruct (Hrun d1) as (r & d2 & Hr & Hm). rewrite L, Hg, deserialize_serialize in Hm.
  exists r, d2. split.
  - destruct b as [e|[t|]]; enter; [done| |done]. by destruct (_ && _).
  - destruct (handle _ (getGenericPassword VAULT_SERVICE) d1).1; [destruct (vault_invalidated _)|]; naive_solver.
Qed.

(** Seeds of different identities do not meet: storing one changes no
    other keychain entry, neither the seed of another identity nor the identity,
    the vault or the sessions, and it is read back for its own identity. *)
Fact wallet_seeds_apart has phrase id (s : S) d d' :
  has (js "storeSecureString") = false → has (js "getSecureString") = false → truthy phrase = true →
  run (storeMasterSeedPhrase has phrase id) s d = Some (inr true, s, d') →
  (∀ id', id' ≠ id → generic (view d') !! seed_service id' = generic (view d) !! seed_service id') ∧
  (∀ k, k ∈ [IDENTITY_KEYCHAIN_SERVICE; SESSION_TOKEN_KEYCHAIN_SERVICE; VAULT_SERVICE; SESSION_SERVICE] →
    generic (view d') !! k = generic (view d) !! k) ∧
  internet (view d') = internet (view d) ∧ items (view d') = items (view d) ∧
  ∃ d2, run (retrieveMasterSeedPhrase has id) s d' =
    Some (inr (match (handle _ (getGenericPassword (seed_service id)) d').1 with
               | inr _ => Some phrase | inl _ => None end), s, d2).
Proof.
  intros Hs Hg Ht. unfold storeMasterSeedPhrase. rewrite Hs. enter. answer a d1 L. destruct a as [e|[]]; enter; [done|].
  intros [= ->]. cbn in L. rewrite L. split; [|split; [|split; [done|split; [done|]]]].
  - intros id' Hid. apply generic_set_ne. by intros ?%app_inv_head%app_inv_head.
  - intros k Hk. apply generic_set_ne. intros ->. apply list_elem_of_In in Hk.
    destruct Hk as [H|[H|[H|[H|[]]]]]; vm_compute in H; discriminate H.
  - unfold retrieveMasterSeedPhrase. rewrite Hg. enter. answer b d2 L2. destruct L2 as [_ L2].
    exists d2. destruct b as [e|c]; enter; [done|]. rewrite L2, L, generic_set. enter. by rewrite Ht.
Qed.

(** A stored identity has no username, although the object it was stored from
    had one. *)
Fact username_not_stored identity : jget (js "username") (identity_data identity) = None.
Proof.
  change (mget (js "username") (stored_fields identity) = None). unfold stored_fields.
  rewrite <-(app_nil_r (flat_map _ _)), mget_opt_props. rewrite decide_False; [done|]. intros [H _].
  by apply (bool_decide_eq_true_2 (js "username" ∈ STORED_FIELDS)) in H.
Qed.

(** There is one slot for login credentials: what is saved for a second identity
    replaces what was saved for the first. *)
Fact one_slot_of_credentials did1 pw1 did2 pw2 (s : S) d d1 d2 :
  run (saveLoginCredentials did1 pw1) s d = Some (inr tt, s, d1) →
  run (saveLoginCredentials did2 pw2) s d1 = Some (inr tt, s, d2) →
  internet (view d2) !! LOGIN_CREDENTIAL_SERVER = Some (did2, pw2).
Proof.
  intros _. unfold saveLoginCredentials. enter. answer a d3 L. destruct a as [e|[]]; enter; [done|].
  intros [= ->]. cbn in L. rewrite L. apply internet_set.
Qed.

End Laws.

(** ** Witnesses *)

Definition ann : json :=
  JObj [(js "did", JStr (js "did:zhtp:ab")); (js "displayName", JStr (js "Ann")); (js "username", JStr (js "ann"));
        (js "createdAt", JNum 1700000000)].
Definition after {A} (t : Outside.prog unit A) (p : phone) : phone :=
  match solo phone_handle t tt p with Some (_, _, p') => p' | None => p end.
Definition ann_phone : phone := after (setIdentity ann default_options) new_phone.
Definition reset_error : error := Error (js "Decryption failed").
Definition reset_phone : phone :=
  mkPhone (Some reset_error) (modules ann_phone) (node ann_phone) (raw ann_phone) (stored ann_phone).

Lemma ann_plain : plain ann.
Proof. split; [by apply (bool_decide_eq_true_1 (NoDup _))|done]. Qed.

Lemma ann_holds : holds ann (stored ann_phone).
Proof. split; [by vm_compute|]. split; [by vm_compute|]. exists (js "did:zhtp:ab"). split; by vm_compute. Qed.

Lemma identity_roundtrip_witness :
  ∃ p, solo phone_handle (getIdentityIfAvailable true) tt ann_phone = Some (inr (identity_data ann), tt, p).
Proof.
  apply (identity_roundtrip phone_handle stored ann default_options tt new_phone ann_phone ann_plain);
    [by eexists|by vm_compute].
Defined.

Lemma keystore_reset_survived_witness :
  ∃ p, solo phone_handle getIdentity tt reset_phone = Some (inr (identity_data ann), tt, p).
Proof.
  destruct (keystore_reset_survived phone_handle stored ann tt reset_phone reset_error) as (p & H & _);
    [exact ann_plain|exact ann_holds|done|by eexists|done|done|done|done|]. by exists p.
Defined.

Lemma seed_vault_roundtrip_witness :
  ∃ r p, solo phone_handle (getSeedPhrase None) tt
           (after (saveSeedPhrase [js "able"; js "baker"] (js "now")) new_phone) = Some (r, tt, p) ∧
         r = inr (Some [JStr (js "able"); JStr (js "baker")]).
Proof.
  destruct (seed_vault_roundtrip phone_handle stored None [js "able"; js "baker"] (js "now") tt new_phone
    (after (saveSeedPhrase [js "able"; js "baker"] (js "now")) new_phone)) as (r & p & H & Hr); [by vm_compute|].
  exists r, p. split; [exact H|]. apply Hr.
Defined.

Lemma wallet_seeds_apart_witness :
  ∃ p, solo phone_handle (retrieveMasterSeedPhrase (λ _, false) (js "ab")) tt
         (after (storeMasterSeedPhrase (λ _, false) (js "able baker") (js "ab")) new_phone)
       = Some (inr (Some (js "able baker")), tt, p).
Proof.
  apply (wallet_seeds_apart phone_handle stored (λ _, false) (js "able baker") (js "ab") tt new_phone); [done..|by vm_compute].
Defined.

Lemma clear_identity_erases_witness : absent (stored (after clearIdentity ann_phone)).
Proof.
  destruct (clear_identity_erases phone_handle stored tt ann_phone) as (r & p & H & _ & Hr).
  assert (after clearIdentity ann_phone = p ∧ r = inr tt) as [-> ->] by (split; [unfold after; by rewrite H|by vm_compute in H; inversion H]).
  by apply Hr.
Defined.
