(* ===== verification/Tokens.v ===== *)
(** * Tokens: src/src/services/TokenService.ts, AssetService.ts, BondingCurveService.ts

    A transaction is built in three moves: the nonce of the sender is fetched,
    the native module signs, the signed bytes are posted.  The services are
    tasks over the requests of Outside.v; [nativeModule] is what the bridge of
    NativeIdentity.v found.  Answers of the node are JSON values and are passed
    on as they are.  Log lines are left out except that their arguments are
    evaluated: [signed_tx.length] of a missing transaction throws.  A JavaScript
    number in JSON is rounded to 53 bits where the code computes with it. *)

From stdpp Require Import strings.
From S2P Require Import Prelude JsString JsMap Json Async Outside.
From S2P Require Doubles TokenUnits NativeIdentity.

(** ** Numbers *)

(** a JavaScript number: an integer, [m / 10^e], or not finite; a [bigint] *)
Inductive amount :=
| AString (s : jstr)
| AInt (n : Z)
| AFrac (m : Z) (e : nat)
| ANotFinite (s : jstr)
| ABigInt (n : Z).

Definition MAX_SAFE_INTEGER : Z := 2 ^ 53 - 1.

Definition amount_str (a : amount) : jstr :=
  match a with
  | AString s | ANotFinite s => s
  | AInt n | ABigInt n => dec_str n
  | AFrac m e => dec_frac_str m e
  end.

Definition coerceAmountAtoms (a : amount) : jstr + jstr :=
  let invalid := inl (js "coerceAmountAtoms: invalid number " ++ amount_str a) in
  let unsafe := inl (js "coerceAmountAtoms: number " ++ amount_str a
                     ++ js " is not a safe integer - pass the atoms as a decimal string instead") in
  match a with
  | ABigInt n => TokenUnits.validateAtomsString (dec_str n)
  | ANotFinite _ => invalid
  | AInt n =>
      if n <? 0 then invalid
      else if MAX_SAFE_INTEGER <? n then unsafe
      else TokenUnits.validateAtomsString (dec_str n)
  | AFrac m _ => if m <? 0 then invalid else unsafe
  | AString s => TokenUnits.validateAtomsString s
  end.

Definition normalizeDIDToAddress (did : jstr) : jstr :=
  if startsWith (js "did:zhtp:") did then drop (length (js "did:zhtp:")) did else did.

(** [Math.trunc] of the double nearest to [n / d], for [0 <= n] *)
Definition trunc_double (n d : Z) : Z :=
  let k := 52 - Z.log2 (n / d) in
  let k := if n <? d then 53 else k in
  if 0 <=? k then Z.shiftr (Doubles.round_div (n * 2 ^ k) d) k
  else Z.shiftl (Doubles.round_div n (d * 2 ^ (- k))) (- k).

Definition parse_number_atoms (m : Z) (e : nat) (v : json) : jstr + jstr :=
  if m <? 0 then inl (js "parseAtoms: invalid numeric atoms value " ++ js_String v)
  else inr (dec_str (trunc_double m (10 ^ Z.of_nat e))).

Definition js_typeof (v : json) : jstr :=
  match v with
  | JBool _ => js "boolean" | JStr _ => js "string" | JNum _ | JDec _ _ => js "number"
  | JNull | JArr _ | JObj _ => js "object"
  end.

(** [undefined] is [None] *)
Definition parseAtoms (v : option json) : jstr + jstr :=
  match v with
  | None | Some JNull => inr (js "0")
  | Some (JStr s) =>
      if negb (truthy s) then inr (js "0")
      else
        let trimmed := trim s in
        if negb (all_digits trimmed) then inl (js "parseAtoms: non-integer atoms string " ++ TokenUnits.quoted s)
        else inr (dec_str (dec_val trimmed))
  | Some (JNum n) => parse_number_atoms n 0 (JNum n)
  | Some (JDec m e) => parse_number_atoms m e (JDec m e)
  | Some w => inl (js "parseAtoms: unsupported atoms type " ++ js_typeof w)
  end.

Definition parseAtomsOrNull (v : option json) : jstr + json :=
  match v with
  | None | Some JNull => inr JNull
  | _ => match parseAtoms v with inl e => inl e | inr s => inr (JStr s) end
  end.

Section Tokens.
Context {S : Type} (nativeModule : option (jstr → bool)).
Abbreviation prog := (Outside.prog S).

Definition or_throw {A} (r : jstr + A) : prog A :=
  match r with inl m => throw (Error m) | inr a => ret a end.

(** [{ ...v, k: w }] *)
Definition spread (v : json) : list (jstr * json) :=
  match v with
  | JObj l => l
  | JArr l => imap (λ i w, (dec_str (Z.of_nat i), w)) l
  | JStr s => imap (λ i c, (dec_str (Z.of_nat i), JStr [c])) s
  | _ => []
  end.
Definition spread_set (k : jstr) (w : json) (v : json) : json := JObj (mset k w (spread v)).

Definition normalizeBalance (b : json) : prog json :=
  v ← dot b (js "balance"); s ← or_throw (parseAtoms v); ret (spread_set (js "balance") (JStr s) b).

Definition normalizeTokenInfo (t : json) : prog json :=
  v ← dot t (js "total_supply"); s ← or_throw (parseAtoms v);
  w ← or_throw (parseAtomsOrNull (jget (js "max_supply") t));
  ret (spread_set (js "max_supply") w (spread_set (js "total_supply") (JStr s) t)).

(** [signingResult.signed_tx], whose length is logged *)
Definition signed_tx (result : json) : prog json :=
  tx ← dot result (js "signed_tx");
  match tx with None | Some JNull => throw TypeError | Some v => ret v end.

(** [POST { signed_tx }]; the answer is read once for the log *)
Definition post_signed (path : jstr) (tx : json) (logged : jstr) : prog json :=
  data ← call (quicRequest path (post [] (JObj [(js "signed_tx", tx)])));
  dot data logged;;
  ret data.

(** ** TokenService *)

Definition getTokenNonce (tokenId address : jstr) : prog (option json) :=
  data ← call (quicRequest (js "/api/v1/token/nonce/" ++ tokenId ++ js "/" ++ address) Quic.no_options);
  dot data (js "nonce").

Record TokenMintRequest := mkMint { m_token : jstr; m_amount : amount; m_to : jstr }.

Definition mintToken (r : TokenMintRequest) : prog json :=
  atoms ← or_throw (coerceAmountAtoms (m_amount r));
  signing ← NativeIdentity.signTokenMintTransaction nativeModule
    (JObj [(js "tokenId", JStr (m_token r)); (js "amount", JStr atoms);
           (js "recipientDid", JStr (normalizeDIDToAddress (m_to r)))]);
  tx ← signed_tx signing;
  post_signed (js "/api/v1/token/mint") tx (js "amount_minted").

Record TokenTransferRequest := mkTransfer {
  t_token : jstr; t_from : option jstr; t_to : jstr; t_amount : amount; t_nonce : option Z }.

(** the address whose nonce is looked up *)
Definition senderForNonce (r : TokenTransferRequest) : jstr :=
  match t_from r with
  | Some f => if truthy f then normalizeDIDToAddress f else normalizeDIDToAddress (t_to r)
  | None => normalizeDIDToAddress (t_to r)
  end.

Definition transferToken (r : TokenTransferRequest) : prog json :=
  nonce ← match t_nonce r with
          | Some n => ret (Some (JNum n))
          | None => getTokenNonce (t_token r) (senderForNonce r)
          end;
  atoms ← or_throw (coerceAmountAtoms (t_amount r));
  signing ← NativeIdentity.signTokenTransferTransaction nativeModule
    (JObj ([(js "tokenId", JStr (t_token r)); (js "toAddress", JStr (normalizeDIDToAddress (t_to r)));
            (js "amount", JStr atoms)] ++ opt_prop (js "nonce") nonce));
  tx ← signed_tx signing;
  data ← call (quicRequest (js "/api/v1/token/transfer") (post [] (JObj [(js "signed_tx", tx)])));
  ret data.

Record WalletTransfer := mkWalletTransfer {
  w_token : jstr; w_from : jstr; w_to : jstr; w_amount : amount; w_chain : option Z }.

Definition transferTokenFromWallet (r : WalletTransfer) : prog json :=
  nonce ← getTokenNonce (w_token r) (w_from r);
  atoms ← or_throw (coerceAmountAtoms (w_amount r));
  signing ← NativeIdentity.signTokenWalletTransferTransaction nativeModule
    (JObj ([(js "tokenId", JStr (w_token r)); (js "fromWalletId", JStr (w_from r));
            (js "toWalletId", JStr (w_to r)); (js "amount", JStr atoms)]
           ++ opt_prop (js "nonce") nonce ++ opt_prop (js "chainId") (JNum <$> w_chain r)));
  tx ← signed_tx signing;
  data ← call (quicRequest (js "/api/v1/token/transfer") (post [] (JObj [(js "signed_tx", tx)])));
  ret data.

(** the first characters of the transaction are logged: it must be a string *)
Definition transferSov (r : WalletTransfer) : prog json :=
  nonce ← getTokenNonce (w_token r) (w_from r);
  atoms ← or_throw (coerceAmountAtoms (w_amount r));
  signing ← NativeIdentity.signSovWalletTransferTransaction nativeModule
    (JObj ([(js "fromWalletId", JStr (w_from r)); (js "toWalletId", JStr (w_to r)); (js "amount", JStr atoms)]
           ++ opt_prop (js "nonce") nonce));
  tx ← signed_tx signing;
  match tx with
  | JStr _ => post_signed (js "/api/v1/token/transfer") tx (js "tx_hash")
  | _ => throw TypeError
  end.

Definition getTokenInfo (tokenId : jstr) : prog json :=
  data ← call (quicRequest (js "/api/v1/token/" ++ tokenId) Quic.no_options);
  dot data (js "name");; normalizeTokenInfo data.

Definition getTokenBalance (tokenId address : jstr) : prog json :=
  data ← call (quicRequest (js "/api/v1/token/" ++ tokenId ++ js "/balance/" ++ address) Quic.no_options);
  normalizeBalance data.

(** [(v.k || []).map(f)]; a value that is no array has no [map] *)
Fixpoint map_prog (f : json → prog json) (l : list json) : prog (list json) :=
  match l with
  | [] => ret []
  | v :: l' => w ← f v; ws ← map_prog f l'; ret (w :: ws)
  end.
Definition map_field (v : option json) (f : json → prog json) : prog (list json) :=
  match v with
  | Some (JArr l) => map_prog f l
  | Some w => if jtruthy w then throw TypeError else ret []
  | None => ret []
  end.

(** [{ ...t, total_supply: parseAtoms(t.total_supply) }] *)
Definition normalizeListed (t : json) : prog json :=
  v ← dot t (js "total_supply"); s ← or_throw (parseAtoms v); ret (spread_set (js "total_supply") (JStr s) t).

Definition listTokens : prog json :=
  data ← call (quicRequest (js "/api/v1/token/list") Quic.no_options);
  dot data (js "count");;
  tokens ← map_field (jget (js "tokens") data) normalizeListed;
  ret (spread_set (js "tokens") (JArr tokens) data).

Definition getUserTokenBalances (address : jstr) : prog (list json) :=
  data ← call (quicRequest (js "/api/v1/token/balances/" ++ address) Quic.no_options);
  balances ← dot data (js "balances");
  map_field balances normalizeBalance.

Definition burnToken (token_id : jstr) (a : amount) : prog json :=
  atoms ← or_throw (coerceAmountAtoms a);
  signing ← NativeIdentity.signTokenBurnTransaction nativeModule
    (JObj [(js "tokenId", JStr token_id); (js "amount", JStr atoms)]);
  tx ← signed_tx signing;
  post_signed (js "/api/v1/token/burn") tx (js "amount_burned").

(** ** AssetService *)

Definition DEFAULT_DAO_TREASURY_KEY_ID_HEX : jstr :=
  js "6adb0279d2af625f4d292bafe0fcfe3e2020436478b0f90d98adaf820cac1547".

(** [/^\d+(\.\d+)?$/] and [split('.')] *)
Definition decimal_parts (s : jstr) : option (jstr * jstr) :=
  match split_on TokenUnits.dot s with
  | [w] => if all_digits w then Some (w, []) else None
  | [w; f] => if all_digits w && all_digits f then Some (w, f) else None
  | _ => None
  end.

Definition wholeSupplyToAtomsLoHi (whole : jstr) (decimals : Z) : jstr + (Z * Z) :=
  match decimal_parts (trim whole) with
  | None => inl (js "initial supply must be a non-negative number")
  | Some (intPart, fracPart) =>
      if decimals <? Z.of_nat (length fracPart)
      then inl (js "initial supply has more than " ++ dec_str decimals ++ js " decimal places")
      else
        let atoms := dec_val (intPart ++ padEnd (Z.to_nat decimals) "0"%char fracPart) in
        let mask := Z.shiftl 1 64 - 1 in
        inr (Z.land atoms mask, Z.shiftr atoms 64)
  end.

(** [.replace(/^0x/i, '')] *)
Definition strip_0x (s : jstr) : jstr :=
  match s with
  | z :: x :: s' => if bool_decide (z = "0"%char) && bool_decide (lower_char x = "x"%char) then s' else s
  | _ => s
  end.

Record AssetLaunchRequest := mkLaunch {
  l_name : jstr;
  l_symbol : jstr;
  l_supply : jstr;                  (* String(initialSupplyWhole) *)
  l_decimals : option Z;
  l_daoClass : option Z;
  l_burnBps : option Z;
  l_chainId : option Z;
  l_treasury : option jstr;
  l_enforce : option bool;
}.

Definition launch_symbol (r : AssetLaunchRequest) : jstr := toUpperCase (trim (l_symbol r)).
Definition symbol_ok (s : jstr) : bool :=
  forallb is_upper s && (1 <=? length s)%nat && (length s <=? 6)%nat.

(** [Number(s) >= 1000] of a finite number: exact on decimal literals up to the
    rounding of doubles below 1000; [other] says it of the literals that are no
    decimal number, which are refused after it *)
Definition at_least_1000 (other : jstr → bool) (s : jstr) : bool :=
  match decimal_parts (trim s) with
  | Some (w, f) =>
      let d := 10 ^ Z.of_nat (length f) in
      (1000 * 2 ^ 44 - 1) * d <=? (dec_val w * d + dec_val f) * 2 ^ 44
  | None => other s
  end.

Definition launchAsset (other : jstr → bool) (r : AssetLaunchRequest) : prog json :=
  let decimals := default 18 (l_decimals r) in
  let treasuryKeyIdHex := strip_0x (trim (str_or_else (l_treasury r) DEFAULT_DAO_TREASURY_KEY_ID_HEX)) in
  if negb (symbol_ok (launch_symbol r))
  then throw (Error (js "Symbol must be A-Z only, length 1-6 (DAO launch UI constraints)"))
  else if negb (at_least_1000 other (l_supply r))
  then throw (Error (js "Initial supply must be at least 1000 whole units"))
  else
    try_catch
      (feeConfig ← call (publicQuicRequest (js "/api/v1/blockchain/fee-config") Quic.no_options);
       NativeIdentity.setFeeConfig nativeModule (stringify feeConfig);; ret tt)
      (λ _, ret tt);;
    '(lo, hi) ← or_throw (wholeSupplyToAtomsLoHi (l_supply r) decimals);
    signing ← NativeIdentity.signAssetLaunchTransaction nativeModule
      (JObj [(js "name", JStr (trim (l_name r))); (js "symbol", JStr (launch_symbol r));
             (js "initialSupplyAtomsLo", JStr (dec_str lo)); (js "initialSupplyAtomsHi", JStr (dec_str hi));
             (js "decimals", JNum decimals); (js "treasuryKeyIdHex", JStr treasuryKeyIdHex);
             (js "daoClass", JNum (default 0 (l_daoClass r))); (js "burnBps", JNum (default 0 (l_burnBps r)));
             (js "chainId", JNum (default 2 (l_chainId r)))]);
    tx ← dot signing (js "signed_tx");
    data ← call (quicRequest (js "/api/v1/assets/launch")
      (post [] (JObj (opt_prop (js "signed_tx") tx
                      ++ [(js "enforce_dao_launch_constraints",
                           JBool (negb (bool_decide (l_enforce r = Some false))))]))));
    asset_id ← dot data (js "asset_id");
    let token_id := jget (js "token_id") data in
    let id := if negb (otruthy asset_id) && otruthy token_id then token_id else asset_id in
    ret (match id with
         | Some i => spread_set (js "token_id") i (spread_set (js "asset_id") i data)
         | None => data
         end).

Definition list_or_empty (v : option json) : json := match v with Some v => if jtruthy v then v else JArr [] | None => JArr [] end.

Definition listAssets : prog json :=
  data ← call (publicQuicRequest (js "/api/v1/assets") Quic.no_options);
  assets ← dot data (js "assets");
  ret (list_or_empty assets).

Definition asset_path (assetId : jstr) : jstr := js "/api/v1/assets/" ++ strip_0x assetId.
Definition getAsset (assetId : jstr) : prog json := call (publicQuicRequest (asset_path assetId) Quic.no_options).
Definition getAssetInterface (assetId : jstr) : prog json :=
  call (publicQuicRequest (asset_path assetId ++ js "/interface") Quic.no_options).

Definition checkSymbolAvailable (symbol : jstr) : prog bool :=
  data ← call (publicQuicRequest
    (js "/api/v1/assets/symbol/available/" ++ Quic.encodeURIComponent (toUpperCase (trim symbol))) Quic.no_options);
  available ← dot data (js "available");
  ret (otruthy available).

Definition getBalancesForAddress (address : jstr) : prog json :=
  let addr := normalizeDIDToAddress address in
  let ask path :=
    data ← call (quicRequest (path ++ addr) Quic.no_options);
    balances ← dot data (js "balances");
    ret (list_or_empty balances) in
  try_catch (ask (js "/api/v1/assets/balances/")) (λ _, ask (js "/api/v1/token/balances/")).

(** TokenService.createToken; [max_supply] is not among what it reads *)
Record TokenCreateRequest := mkCreate {
  c_name : jstr; c_symbol : jstr; c_initial_supply : jstr; c_decimals : Z; c_max_supply : option jstr }.

Definition launch_of (r : TokenCreateRequest) : AssetLaunchRequest :=
  mkLaunch (c_name r) (c_symbol r) (c_initial_supply r) (Some (c_decimals r)) (Some 0) None (Some 2) None (Some true).

Definition createToken (other : jstr → bool) (r : TokenCreateRequest) : prog json :=
  data ← launchAsset other (launch_of r);
  success ← dot data (js "success");
  let allocation k := js_String (jor (jget k data) (JStr (js "0"))) in
  ret (JObj [
    (js "success", JBool (match success with Some (JBool false) => false | _ => true end));
    (js "token_id", jor (jget (js "asset_id") data) (jor (jget (js "token_id") data) (JStr [])));
    (js "name", jor (jget (js "name") data) (JStr (c_name r)));
    (js "symbol", jor (jget (js "symbol") data) (JStr (c_symbol r)));
    (js "initial_supply", JStr (c_initial_supply r));
    (js "decimals", JNum (c_decimals r));
    (js "treasury_allocation_bps", JNum 2000);
    (js "treasury_recipient", JStr []);
    (js "creator_allocation", JStr (allocation (js "creator_allocation")));
    (js "treasury_allocation", JStr (allocation (js "treasury_allocation")));
    (js "tx_status", jor (jget (js "tx_status") data) (JStr (js "submitted_to_mempool")))]).

(** ** BondingCurveService: its six transactions call methods of the bridge by
    names the bridge may not have *)

Definition bridge_method (method : jstr) (params : json) : prog json :=
  if bool_decide (method ∈ NativeIdentity.methods) then NativeIdentity.plain nativeModule method [params]
  else throw TypeError.

Definition curve_transaction (method : jstr) (params : json) (path logged : jstr) : prog json :=
  signing ← bridge_method method params;
  tx ← signed_tx signing;
  post_signed path tx logged.

Inductive curve_type :=
| linear (base_price slope : jstr)
| exponential (base_price growth_rate_bps : jstr)
| sigmoid (max_price midpoint_supply steepness : jstr).

Definition curve_fields (c : curve_type) : list (jstr * json) :=
  let field k o := (js k, match o with Some s => JStr s | None => JNull end) in
  match c with
  | linear b s => [(js "curveType", JStr (js "linear")); field "basePrice" (Some b); field "slope" (Some s);
      field "growthRateBps" None; field "maxPrice" None; field "midpointSupply" None; field "steepness" None]
  | exponential b g => [(js "curveType", JStr (js "exponential")); field "basePrice" (Some b); field "slope" None;
      field "growthRateBps" (Some g); field "maxPrice" None; field "midpointSupply" None; field "steepness" None]
  | sigmoid m p s => [(js "curveType", JStr (js "sigmoid")); field "basePrice" None; field "slope" None;
      field "growthRateBps" None; field "maxPrice" (Some m); field "midpointSupply" (Some p); field "steepness" (Some s)]
  end%string.

(** [threshold]: its type and the bounds it has *)
Record CurveDeployRequest := mkDeploy {
  d_name : jstr; d_symbol : jstr; d_curve : curve_type; d_threshold : jstr;
  d_min_reserve : option jstr; d_min_supply : option jstr; d_min_time : option jstr; d_sell : bool }.

Definition or_null (o : option jstr) : json := match o with Some s => JStr s | None => JNull end.

Definition deployToken (r : CurveDeployRequest) : prog json :=
  curve_transaction (js "signBondingCurveDeployTransaction")
    (JObj ([(js "name", JStr (d_name r)); (js "symbol", JStr (d_symbol r))] ++ curve_fields (d_curve r)
           ++ [(js "thresholdType", JStr (d_threshold r)); (js "minReserve", or_null (d_min_reserve r));
               (js "minSupply", or_null (d_min_supply r)); (js "minTimeSeconds", or_null (d_min_time r));
               (js "sellEnabled", JBool (d_sell r))]))
    (js "/api/v1/curve/deploy") (js "token_id").

Definition buyTokens (token_id stable_amount : jstr) : prog json :=
  curve_transaction (js "signBondingCurveBuyTransaction")
    (JObj [(js "tokenId", JStr token_id); (js "stableAmount", JStr stable_amount)])
    (js "/api/v1/curve/buy") (js "tokens_received").

Definition sellTokens (token_id token_amount : jstr) : prog json :=
  curve_transaction (js "signBondingCurveSellTransaction")
    (JObj [(js "tokenId", JStr token_id); (js "tokenAmount", JStr token_amount)])
    (js "/api/v1/curve/sell") (js "tokens_sold").

Definition executeSwap (token_id pool_id amount_in min_amount_out : jstr) (token_to_sov : bool) : prog json :=
  curve_transaction (js "signSwapTransaction")
    (JObj [(js "tokenId", JStr token_id); (js "poolId", JStr pool_id); (js "amountIn", JStr amount_in);
           (js "minAmountOut", JStr min_amount_out); (js "tokenToSov", JBool token_to_sov)])
    (js "/api/v1/swap") (js "amount_out").

Definition addLiquidity (token_id pool_id token_amount sov_amount : jstr) : prog json :=
  curve_transaction (js "signAddLiquidityTransaction")
    (JObj [(js "tokenId", JStr token_id); (js "poolId", JStr pool_id); (js "tokenAmount", JStr token_amount);
           (js "sovAmount", JStr sov_amount)])
    (js "/api/v1/swap/liquidity/add") (js "lp_tokens_minted").

Definition removeLiquidity (token_id pool_id lp_amount : jstr) : prog json :=
  curve_transaction (js "signRemoveLiquidityTransaction")
    (JObj [(js "tokenId", JStr token_id); (js "poolId", JStr pool_id); (js "lpAmount", JStr lp_amount)])
    (js "/api/v1/swap/liquidity/remove") (js "lp_tokens_burned").

(** its queries *)
Definition curve_get (path logged : jstr) : prog json :=
  data ← call (publicQuicRequest path get); dot data logged;; ret data.

Definition listCurveTokens := curve_get (js "/api/v1/curve/list") (js "total_count").
Definition listTokensByPhase (phase : jstr) := curve_get (js "/api/v1/curve/list/" ++ phase) (js "count").
Definition getCurveTokenInfo (id : jstr) := curve_get (js "/api/v1/curve/" ++ id) (js "name").
Definition getTokenStats (id : jstr) := curve_get (js "/api/v1/curve/" ++ id ++ js "/stats") (js "total_trades").
Definition getTokenPrice (id : jstr) := curve_get (js "/api/v1/curve/" ++ id ++ js "/price") (js "price_usd_cents").
Definition canGraduate (id : jstr) := curve_get (js "/api/v1/curve/" ++ id ++ js "/can-graduate") (js "can_graduate").
Definition getReadyToGraduate := curve_get (js "/api/v1/curve/ready-to-graduate") (js "count").
Definition getPoolInfo (id : jstr) := curve_get (js "/api/v1/swap/pools/" ++ id) (js "exists").
Definition getTokenValuation (id : jstr) := curve_get (js "/api/v1/valuation/" ++ id) (js "price_usd_cents").
Definition getTokenPriceSimple (id priceType : jstr) :=
  curve_get (js "/api/v1/price/" ++ id ++ js "?price_type=" ++ priceType) (js "price").
Definition getBatchValuation (request : json) : prog json :=
  call (publicQuicRequest (js "/api/v1/valuation/batch") (post [] request)).

End Tokens.

(** * Lemmas *)

(** ** Amounts *)

Lemma dec_str_negative n : n < 0 → all_digits (dec_str n) = false.
Proof. intros H. unfold dec_str. by rewrite (proj2 (Z.ltb_lt _ _)). Qed.

Lemma validate_digits n s : 0 ≤ n →
  TokenUnits.validateAtomsString (dec_str n) = inr s ↔ n < 2 ^ 128 ∧ s = dec_str n ∧ dec_val s = n.
Proof.
  intros Hn. rewrite TokenUnits.validateAtomsString_iff, trim_digits by auto with sovnet.
  pose proof (dec_str_val n Hn). pose proof (dec_str_digits n Hn). pose proof (dec_str_nonempty n).
  split; [intros (-> & _ & _ & H4); repeat split; lia|]. intros (H4 & -> & _). repeat split; auto; lia.
Qed.

(** The gate in front of every signature accepts exactly the exact
    amounts: digit strings, safe non-negative integers and non-negative bigints
    below 2^128; what it hands on denotes the same number of atoms. *)
Fact coerceAmountAtoms_iff a s :
  coerceAmountAtoms a = inr s ↔
  match a with
  | AString t => s = trim t ∧ s ≠ [] ∧ digits s ∧ dec_val s < 2 ^ 128
  | AInt n => 0 ≤ n < 2 ^ 53 ∧ s = dec_str n ∧ dec_val s = n
  | ABigInt n => 0 ≤ n < 2 ^ 128 ∧ s = dec_str n ∧ dec_val s = n
  | AFrac _ _ | ANotFinite _ => False
  end.
Proof.
  destruct a as [t|n|m e|t|n]; simpl.
  - rewrite TokenUnits.validateAtomsString_iff. pose proof (dec_val_nonneg s). naive_solver lia.
  - unfold MAX_SAFE_INTEGER. destruct (n <? 0) eqn:E1; breflect; [split; [done|lia]|].
    destruct (2 ^ 53 - 1 <? n) eqn:E2; breflect; [split; [done|lia]|].
    rewrite validate_digits by done. split; intros; [|repeat split; try lia; naive_solver].
    repeat split; try lia; naive_solver.
  - by destruct (m <? 0).
  - done.
  - destruct (Z.lt_ge_cases n 0) as [Hn|Hn]; [|rewrite validate_digits by done; naive_solver lia].
    rewrite TokenUnits.validateAtomsString_iff. split; [|lia]. intros (Hs & Hne & Hd & _). exfalso.
    assert (trim (dec_str n) = dec_str n) as Ht.
    { apply trim_no_space. unfold dec_str. rewrite (proj2 (Z.ltb_lt _ _)) by done. constructor; [done|].
      rewrite <-dec_str_nonneg by lia. eapply list.Forall_impl; [apply dec_str_digits; lia|].
      apply is_digit_not_space. }
    rewrite Ht in Hs. subst s. pose proof (dec_str_negative n Hn) as Hf.
    assert (all_digits (dec_str n) = true) by (by apply all_digits_spec). congruence.
Qed.

(** An integer the node sends as a number is read exactly up to 2^53. *)
Fact parseAtoms_integer n : 0 ≤ n ≤ 2 ^ 53 → parseAtoms (Some (JNum n)) = inr (dec_str n).
Proof.
  intros Hn. simpl. unfold parse_number_atoms, trunc_double. rewrite (proj2 (Z.ltb_ge _ _)) by lia.
  change (10 ^ Z.of_nat 0) with 1. rewrite Z.div_1_r. do 2 f_equal.
  destruct (decide (n = 2 ^ 53)) as [->|Hne]; [by vm_compute|].
  assert (0 ≤ (if n <? 1 then 53 else 52 - Z.log2 n)) as Hk.
  { destruct (n <? 1) eqn:E; breflect; [lia|]. pose proof (Z.log2_lt_pow2 n 53). lia. }
  set (k := if n <? 1 then 53 else 52 - Z.log2 n) in *. rewrite (proj2 (Z.leb_le _ _)) by done.
  rewrite <-(Z.mul_1_r (n * 2 ^ k)), Doubles.round_div_exact by lia.
  rewrite <-Z.shiftl_mul_pow2, Z.shiftr_shiftl_l, Z.sub_diag by lia. apply Z.shiftl_0_r.
Qed.

(** A number that is no integer is not refused: its fraction is cut off. *)
Fact parseAtoms_truncates : parseAtoms (Some (JDec 15 1)) = inr (js "1").
Proof. by vm_compute. Qed.

(** Above 2^53 a number has already lost digits. *)
Fact parseAtoms_rounds : parseAtoms (Some (JNum 9007199254740993)) = inr (js "9007199254740992").
Proof. by vm_compute. Qed.

(** The supply of a launch is split exactly: the low half has 64 bits and
    the two halves together are the supply in atoms. *)
Fact supply_split_exact whole decimals lo hi :
  wholeSupplyToAtomsLoHi whole decimals = inr (lo, hi) →
  ∃ w f, decimal_parts (trim whole) = Some (w, f) ∧ digits w ∧ digits f ∧ Z.of_nat (length f) ≤ decimals ∧
    0 ≤ lo < 2 ^ 64 ∧ 0 ≤ hi ∧ lo + hi * 2 ^ 64 = TokenUnits.amount_atoms w f decimals.
Proof.
  unfold wholeSupplyToAtomsLoHi. destruct (decimal_parts (trim whole)) as [[w f]|] eqn:E; [|done].
  destruct (decimals <? Z.of_nat (length f)) eqn:El; [done|]. breflect. intros [= <- <-].
  assert (digits w ∧ digits f) as [Hw Hf].
  { revert E. unfold decimal_parts. destruct (split_on _ _) as [|x [|y [|z l]]]; try done.
    - destruct (all_digits x) eqn:Hx; [|done]. intros [= <- <-]. apply all_digits_spec in Hx as [_ ?]. split; [done|constructor].
    - destruct (all_digits x && all_digits y) eqn:Hx; [|done]. intros [= <- <-].
      apply andb_true_iff in Hx as [[_ ?]%all_digits_spec [_ ?]%all_digits_spec]. by split. }
  exists w, f. split; [done|]. split; [done|]. split; [done|]. split; [done|].
  set (atoms := dec_val _).
  assert (atoms = TokenUnits.amount_atoms w f decimals) as Ha.
  { unfold atoms, TokenUnits.amount_atoms, padEnd. rewrite !dec_val_app, dec_val_zeros, Z.add_0_r.
    rewrite length_app, !length_replicate.
    replace (Z.of_nat (length f + (Z.to_nat decimals - length f))) with decimals by lia.
    by replace (Z.of_nat (Z.to_nat decimals - length f)) with (decimals - Z.of_nat (length f)) by lia. }
  assert (0 ≤ atoms) as H0.
  { apply dec_val_nonneg. apply digits_app. split; [done|]. apply digits_app. auto with sovnet. }
  change (Z.shiftl 1 64 - 1) with (Z.ones 64).
  rewrite Z.land_ones, Z.shiftr_div_pow2, <-Ha by lia.
  pose proof (Z.mod_pos_bound atoms (2 ^ 64)). pose proof (Z.div_pos atoms (2 ^ 64)).
  pose proof (Z.div_mod atoms (2 ^ 64)). lia.
Qed.

(** The high half is not bounded by 64 bits: a supply beyond 2^128 atoms is
    handed to the signer. *)
Fact supply_beyond_u128 :
  ∃ lo hi, wholeSupplyToAtomsLoHi (js "1000000000000000000000") 18 = inr (lo, hi) ∧ 2 ^ 64 ≤ hi.
Proof. eexists _, _. split; [by vm_compute|]. by vm_compute. Qed.

(** ** Transactions *)

Section Transactions.
Context {S : Type} (nativeModule : option (jstr → bool)).

Inductive operation :=
| OpMint (r : TokenMintRequest)
| OpTransfer (r : TokenTransferRequest)
| OpWallet (r : WalletTransfer)
| OpSov (r : WalletTransfer)
| OpBurn (token_id : jstr) (a : amount).

Definition perform (op : operation) : prog S json :=
  match op with
  | OpMint r => mintToken nativeModule r
  | OpTransfer r => transferToken nativeModule r
  | OpWallet r => transferTokenFromWallet nativeModule r
  | OpSov r => transferSov nativeModule r
  | OpBurn t a => burnToken nativeModule t a
  end.

Definition op_amount (op : operation) : amount :=
  match op with
  | OpMint r => m_amount r | OpTransfer r => t_amount r | OpWallet r | OpSov r => w_amount r | OpBurn _ a => a
  end.

(** whose nonce is asked for: the wallet's that pays; without a nonce of the
    caller, that of the sender it names, or of the recipient when it names none; a
    mint and a burn ask for none *)
Definition op_lookup (op : operation) : option (jstr * jstr) :=
  match op with
  | OpMint _ | OpBurn _ _ => None
  | OpTransfer r =>
      match t_nonce r, t_from r with
      | Some _, _ => None
      | None, None | None, Some [] => Some (t_token r, normalizeDIDToAddress (t_to r))
      | None, Some from => Some (t_token r, normalizeDIDToAddress from)
      end
  | OpWallet r | OpSov r => Some (w_token r, w_from r)
  end.

Definition op_method (op : operation) : jstr :=
  js match op with
     | OpMint _ => "signTokenMintTransaction" | OpTransfer _ => "signTokenTransferTransaction"
     | OpWallet _ => "signTokenWalletTransferTransaction" | OpSov _ => "signSovWalletTransferTransaction"
     | OpBurn _ _ => "signTokenBurnTransaction"
     end%string.

Definition op_path (op : operation) : jstr :=
  js match op with
     | OpMint _ => "/api/v1/token/mint" | OpBurn _ _ => "/api/v1/token/burn" | _ => "/api/v1/token/transfer"
     end%string.

(** the parties, as they are signed *)
Definition op_parties (op : operation) : list (jstr * json) :=
  match op with
  | OpMint r => [(js "tokenId", JStr (m_token r)); (js "recipientDid", JStr (normalizeDIDToAddress (m_to r)))]
  | OpTransfer r => [(js "tokenId", JStr (t_token r)); (js "toAddress", JStr (normalizeDIDToAddress (t_to r)))]
  | OpWallet r => [(js "tokenId", JStr (w_token r)); (js "fromWalletId", JStr (w_from r)); (js "toWalletId", JStr (w_to r))]
  | OpSov r => [(js "fromWalletId", JStr (w_from r)); (js "toWalletId", JStr (w_to r))]
  | OpBurn t _ => [(js "tokenId", JStr t)]
  end.

Definition lookup_event (k : jstr * jstr) (a : error + json) : event :=
  Ev (quicRequest (js "/api/v1/token/nonce/" ++ k.1 ++ js "/" ++ k.2) Quic.no_options) a.

(** the nonce that is signed: the caller's, or what the node answered *)
Definition op_nonce (op : operation) (answer : option json) : option json :=
  match op with
  | OpTransfer r => match t_nonce r with Some n => Some (JNum n) | None => v ← answer; jget (js "nonce") v end
  | OpWallet _ | OpSov _ => v ← answer; jget (js "nonce") v
  | _ => None
  end.

Definition sign_event (op : operation) (fields : list (jstr * json)) (a : error + json) : event :=
  Ev (native NativeIdentity.MODULE (op_method op) [JObj fields]) a.
Definition post_event (op : operation) (tx : json) (a : error + json) : event :=
  Ev (quicRequest (op_path op) (post [] (JObj [(js "signed_tx", tx)]))) a.

(** what was signed: the parties, the exact amount and the nonce *)
Definition signs (op : operation) (answer : option json) (fields : list (jstr * json)) : Prop :=
  (∃ atoms, coerceAmountAtoms (op_amount op) = inr atoms ∧ mget (js "amount") fields = Some (JStr atoms)) ∧
  mget (js "nonce") fields = op_nonce op answer ∧
  Forall (λ kv, mget kv.1 fields = Some kv.2) (op_parties op).

(** the requests of an operation, after the nonce *)
Definition sign_and_post (op : operation) (answer : option json) (tr : list event) (r : error + json) : Prop :=
  (tr = [] ∧ ∃ e, r = inl e) ∨
  ∃ fields a, signs op answer fields ∧
    ((tr = [sign_event op fields a] ∧ ∃ e, r = inl e) ∨
     ∃ signed tx c, a = inr signed ∧ jget (js "signed_tx") signed = Some tx ∧ tx ≠ JNull ∧
       tr = [sign_event op fields a; post_event op tx c] ∧ (r = c ∨ c = inr JNull ∧ r = inl TypeError)).

Lemma trace_nonce k tr r :
  trace obs (getTokenNonce (S := S) k.1 k.2) tr r →
  ∃ a, tr = [lookup_event k a] ∧
    match a with inl e => r = inl e | inr v => (∃ e, r = inl e) ∨ r = inr (jget (js "nonce") v) end.
Proof.
  intros H. unfold getTokenNonce in H. untrace H.
  - by exists (inl x).
  - exists (inr JNull). eauto.
  - eexists (inr a). eauto.
Qed.

Lemma trace_signed_tx v tr r :
  trace obs (signed_tx (S := S) v) tr r →
  tr = [] ∧ ((∃ e, r = inl e) ∨ ∃ tx, r = inr tx ∧ jget (js "signed_tx") v = Some tx ∧ tx ≠ JNull).
Proof.
  intros H. unfold signed_tx in H. untrace H; [eauto|].
  destruct (jget (js "signed_tx") v) as [[]|]; untrace_all; split; eauto 10.
Qed.

Lemma trace_post_signed op logged tx tr r :
  trace obs (post_signed (S := S) (op_path op) tx logged) tr r →
  ∃ c, tr = [post_event op tx c] ∧ (r = c ∨ c = inr JNull ∧ r = inl TypeError).
Proof.
  intros H. unfold post_signed in H. untrace H; eexists; (split; [reflexivity|]); auto.
Qed.

(** what follows the nonce, for every operation *)
Lemma trace_submit op answer fields (finish : json → prog S json) tr r :
  signs op answer fields →
  (∀ tx tr r, trace obs (finish tx) tr r →
     (tr = [] ∧ ∃ e, r = inl e) ∨ ∃ c, tr = [post_event op tx c] ∧ (r = c ∨ c = inr JNull ∧ r = inl TypeError)) →
  trace obs (signing ← NativeIdentity.plain nativeModule (op_method op) [JObj fields];
             tx ← signed_tx signing; finish tx) tr r →
  sign_and_post op answer tr r.
Proof.
  intros Hs Hf H. unfold mbind, outside_bind in H. 
  apply trace_bind in H as [(e & H & ->)|(a & tr1 & tr2 & -> & H & H2)].
  - apply NativeIdentity.trace_plain in H as [[-> _]| ->]; [left; eauto|]. right. exists fields, (inl e). eauto.
  - apply NativeIdentity.trace_plain in H as [[_ [e He]]| ->]; [done|]. right. exists fields, (inr a). split; [done|].
    apply trace_bind in H2 as [(e & H & ->)|(tx & tr3 & tr4 & -> & H & H2)];
      apply trace_signed_tx in H as [-> H]; [left; eauto|].
    destruct H as [[e H]|(tx' & Htx & Hg & Hn)]; [done|]. injection Htx as <-.
    apply Hf in H2 as [[-> He]|(c & -> & Hr)]; [left; eauto|]. right. exists a, tx, c. eauto 10.
Qed.

Lemma trace_post op tx tr r :
  trace obs (data ← call (quicRequest (op_path op) (post [] (JObj [(js "signed_tx", tx)]))); ret data : prog S json) tr r →
  ∃ c, tr = [post_event op tx c] ∧ (r = c ∨ c = inr JNull ∧ r = inl TypeError).
Proof. intros H. untrace H; eexists; (split; [reflexivity|]); auto. Qed.

(** the fields an operation signs, and what it does with the transaction *)
Definition op_fields (op : operation) (nonce : option json) (atoms : jstr) : list (jstr * json) :=
  match op with
  | OpMint r => [(js "tokenId", JStr (m_token r)); (js "amount", JStr atoms);
                 (js "recipientDid", JStr (normalizeDIDToAddress (m_to r)))]
  | OpTransfer r => [(js "tokenId", JStr (t_token r)); (js "toAddress", JStr (normalizeDIDToAddress (t_to r)));
                     (js "amount", JStr atoms)] ++ opt_prop (js "nonce") nonce
  | OpWallet r => [(js "tokenId", JStr (w_token r)); (js "fromWalletId", JStr (w_from r));
                   (js "toWalletId", JStr (w_to r)); (js "amount", JStr atoms)]
                  ++ opt_prop (js "nonce") nonce ++ opt_prop (js "chainId") (JNum <$> w_chain r)
  | OpSov r => [(js "fromWalletId", JStr (w_from r)); (js "toWalletId", JStr (w_to r)); (js "amount", JStr atoms)]
               ++ opt_prop (js "nonce") nonce
  | OpBurn t _ => [(js "tokenId", JStr t); (js "amount", JStr atoms)]
  end.

Definition op_finish (op : operation) (tx : json) : prog S json :=
  match op with
  | OpMint _ => post_signed (op_path op) tx (js "amount_minted")
  | OpBurn _ _ => post_signed (op_path op) tx (js "amount_burned")
  | OpSov _ => match tx with JStr _ => post_signed (op_path op) tx (js "tx_hash") | _ => throw TypeError end
  | _ => data ← call (quicRequest (op_path op) (post [] (JObj [(js "signed_tx", tx)]))); ret data
  end.

Lemma trace_finish op tx tr r :
  trace obs (op_finish op tx) tr r →
  (tr = [] ∧ ∃ e, r = inl e) ∨ ∃ c, tr = [post_event op tx c] ∧ (r = c ∨ c = inr JNull ∧ r = inl TypeError).
Proof.
  destruct op; cbn [op_finish]; intros H; try (right; by apply trace_post_signed in H); try (right; by apply trace_post in H).
  destruct tx; try (untrace H; by eauto). right. by apply trace_post_signed in H.
Qed.

Lemma fields_signed op answer atoms :
  coerceAmountAtoms (op_amount op) = inr atoms → signs op answer (op_fields op (op_nonce op answer) atoms).
Proof.
  intros Ha. split; [exists atoms; split; [done|]|split].
  - by destruct op.
  - destruct op as [q|q|q|q|t a]; cbn [op_fields app]; [done| | | |done];
      destruct (op_nonce _ _); try done; by destruct (w_chain q).
  - destruct op; cbn [op_parties]; rewrite ?list.Forall_cons, list.Forall_nil; repeat split.
Qed.

(** what follows the nonce *)
Lemma after_nonce op answer tr r :
  trace obs (atoms ← or_throw (coerceAmountAtoms (op_amount op));
             signing ← NativeIdentity.plain nativeModule (op_method op) [JObj (op_fields op (op_nonce op answer) atoms)];
             tx ← signed_tx signing; op_finish op tx) tr r →
  sign_and_post op answer tr r.
Proof.
  destruct (coerceAmountAtoms (op_amount op)) as [m|atoms] eqn:Ea; intros H; [destruct H as [-> ->]; left; eauto|].
  eapply trace_submit; [by apply fields_signed|apply trace_finish|exact H].
Qed.

Lemma looked_up op k (rest : option json → prog S json) tr r :
  (∀ answer tr r, trace obs (rest (jget (js "nonce") answer)) tr r → sign_and_post op (Some answer) tr r) →
  trace obs (nonce ← getTokenNonce k.1 k.2; rest nonce) tr r →
  (∃ e, tr = [lookup_event k (inl e)] ∧ r = inl e) ∨
  ∃ answer rest, tr = lookup_event k (inr answer) :: rest ∧ sign_and_post op (Some answer) rest r.
Proof.
  intros Hr H. unfold mbind, outside_bind in H.
  apply trace_bind in H as [(e & H & ->)|(nonce & tr1 & tr2 & -> & H & H2)];
    apply trace_nonce in H as ([e'|v] & -> & H).
  - injection H as ->. left. eauto.
  - right. exists v, []. split; [done|]. left. eauto.
  - done.
  - right. exists v, tr2. split; [done|]. destruct H as [[e H]|H]; [done|]. injection H as ->. by apply Hr.
Qed.

(** the two transfers that start from a wallet *)
Lemma wallet_operation op q tr r :
  op = OpWallet q ∨ op = OpSov q → trace obs (perform op) tr r →
  (∃ e, tr = [lookup_event (w_token q, w_from q) (inl e)] ∧ r = inl e) ∨
  ∃ answer rest, tr = lookup_event (w_token q, w_from q) (inr answer) :: rest ∧ sign_and_post op (Some answer) rest r.
Proof.
  intros [-> | ->] H; eapply (looked_up _ (w_token q, w_from q)); [|exact H| |exact H];
    intros answer tr' r' H'; apply after_nonce; exact H'.
Qed.

(** C20: a transaction leaves in order and unchanged.  A transfer from a wallet asks
    first for the nonce of this wallet; a transfer without a nonce of the caller asks
    for that of the sender it names, or of the recipient when it names no sender; a
    mint and a burn ask for none.  The native module signs the caller's parties, the exact
    amount in atoms and that nonce, and exactly the bytes it returned are posted,
    once; an error at any of the three ends the operation there. *)
Theorem transactions_in_order op tr r :
  trace obs (perform op) tr r →
  match op_lookup op with
  | None => sign_and_post op None tr r
  | Some k =>
      (∃ e, tr = [lookup_event k (inl e)] ∧ r = inl e) ∨
      ∃ answer rest, tr = lookup_event k (inr answer) :: rest ∧ sign_and_post op (Some answer) rest r
  end.
Proof.
  destruct op as [q|q|q|q|t a]; cbn [perform op_lookup]; intros H.
  - exact (after_nonce (OpMint q) None tr r H).
  - unfold transferToken in H. destruct (t_nonce q) as [n|] eqn:En.
    + pose proof (after_nonce (OpTransfer q) None tr r) as Hn. cbn [op_nonce] in Hn. rewrite En in Hn. exact (Hn H).
    + apply (looked_up (OpTransfer q) (t_token q, senderForNonce q)) in H.
      * unfold senderForNonce in H. destruct (t_from q) as [[|c f]|]; exact H.
      * intros answer tr' r' H'. apply after_nonce. cbn [op_nonce]. rewrite En. exact H'.
  - apply (wallet_operation (OpWallet q) q) in H; [exact H|by left].
  - apply (wallet_operation (OpSov q) q) in H; [exact H|by right].
  - exact (after_nonce (OpBurn t a) None tr r H).
Qed.

End Transactions.

(** Without a sender the nonce that is fetched and signed is the recipient's. *)
Fact recipient_nonce_asked {S} nativeModule r tr res :
  t_from r = None → t_nonce r = None → trace obs (transferToken (S := S) nativeModule r) tr res →
  ∃ a, head tr = Some (lookup_event (t_token r, normalizeDIDToAddress (t_to r)) a).
Proof.
  intros Hf Hn. unfold transferToken, senderForNonce, mbind, outside_bind. rewrite Hf, Hn.
  intros [(e & H & ->)|(nonce & tr1 & tr2 & -> & H & _)]%trace_bind;
    apply (trace_nonce (t_token r, normalizeDIDToAddress (t_to r))) in H as (a & -> & _); by exists a.
Qed.

Lemma not_a_method {S} nativeModule m params path logged tr r :
  bool_decide (m ∈ NativeIdentity.methods) = false →
  trace obs (curve_transaction (S := S) nativeModule m params path logged) tr r → tr = [] ∧ r = inl TypeError.
Proof. unfold curve_transaction, bridge_method. intros ->. by intros [-> ->]. Qed.

(** None of the six transactions of the bonding curve can be sent: the bridge
    has no method to sign them, so each ends in a [TypeError] before any
    request. *)
Fact curve_transactions_fail {S} nativeModule (t : prog S json) tr r :
  (∃ q, t = deployToken nativeModule q) ∨ (∃ a b, t = buyTokens nativeModule a b) ∨
  (∃ a b, t = sellTokens nativeModule a b) ∨ (∃ a b c d e, t = executeSwap nativeModule a b c d e) ∨
  (∃ a b c d, t = addLiquidity nativeModule a b c d) ∨ (∃ a b c, t = removeLiquidity nativeModule a b c) →
  trace obs t tr r → tr = [] ∧ r = inl TypeError.
Proof. intros Ht H. destruct_or! Ht; repeat (match type of Ht with ex _ => destruct Ht as [? Ht] end); subst t; by apply not_a_method in H. Qed.

(** ** Witnesses *)

Lemma supply_split_exact_witness :
  ∃ w f, decimal_parts (trim (js "1000.5")) = Some (w, f) ∧
    4375820019684212736 + 54 * 2 ^ 64 = TokenUnits.amount_atoms w f 18.
Proof.
  destruct (supply_split_exact (js "1000.5") 18 4375820019684212736 54) as (w & f & H1 & _ & _ & _ & _ & _ & H2);
    [by vm_compute|]. exists w, f. split; [exact H1|exact H2].
Defined.

Definition demo_transfer : operation :=
  OpSov (mkWalletTransfer (js "aa") (js "bb") (js "cc") (AString (js " 5 ")) None).
Definition demo_fields : list (jstr * json) :=
  op_fields demo_transfer (Some (JNum 7)) (js "5").
Definition demo_trace : list event :=
  [lookup_event (js "aa", js "bb") (inr (JObj [(js "nonce", JNum 7)]));
   sign_event demo_transfer demo_fields (inr (JObj [(js "signed_tx", JStr (js "f00d"))]));
   post_event demo_transfer (JStr (js "f00d")) (inr (JObj [(js "tx_hash", JStr (js "ab"))]))].

Lemma transactions_in_order_witness :
  ∃ answer rest, demo_trace = lookup_event (js "aa", js "bb") (inr answer) :: rest ∧
    sign_and_post demo_transfer (Some answer) rest (inr (JObj [(js "tx_hash", JStr (js "ab"))])).
Proof.
  destruct (transactions_in_order (S := unit) (Some (λ _, true)) demo_transfer demo_trace
    (inr (JObj [(js "tx_hash", JStr (js "ab"))]))) as [(e & H & _)|H].
  - do 3 (eexists; eexists; split; [reflexivity|]). split; reflexivity.
  - discriminate H.
  - exact H.
Defined.
