(* ===== verification/Auth.v ===== *)
(** * Sign-up, sign-in and recovery: src/src/services/RealAuthService.ts

    Each method is a task over the requests of Outside.v: the native module
    holds the keys, the keychain the login credentials, the node the registry of
    identities.  The one field of the service, [lastSeedRecoveryNotFound], is a
    flag of the state [S], written by [set_notFound].  Identities and answers are
    JSON values; an [undefined] property is absent.  [withTimeout] races a native
    call against a timer: the call is answered, or fails with the label. *)

From stdpp Require Import strings.
From S2P Require Import Prelude JsString JsMap Json Async Outside.
From S2P Require NativeIdentity Vault Codec.

(** [v ?? d] of a JSON value *)
Definition coalesce (v d : json) : json := match v with JNull => d | _ => v end.
(** [v || w] of two values that may be [undefined] *)
Definition oor (v w : option json) : option json := if otruthy v then v else w.

Definition DID_PREFIX : jstr := js "did:zhtp:".

(** [did.startsWith(..) ? did.substring(..) : did] *)
Definition without_prefix (did : jstr) : jstr :=
  if startsWith DID_PREFIX did then drop (length DID_PREFIX) did else did.

(** [seedPhrase.toLowerCase().trim().split(/\s+/).filter(Boolean)] *)
Definition phrase_words (seedPhrase : jstr) : list jstr :=
  List.filter truthy (Vault.split_spaces (trim (toLowerCase seedPhrase))).

Record SignInCredentials := mkCredentials { identity_id : jstr; password : jstr }.
Record CreateIdentityData := mkCreate { display_name : jstr; new_password : jstr }.

Definition MIGRATION_REQUIRED : error := Error (js "MIGRATION_REQUIRED").

Section Auth.
Context {S : Type} (set_notFound : bool → S → S).
(** the bridge, the wallet keychain, the other native module, the platform and
    the configuration *)
Context (nativeModule : option (jstr → bool)) (wallet : jstr → bool) (NativeZhtpApi phone_os : bool).
Context (DEFAULT_SOV_NODE_URL : jstr).
Abbreviation prog := (Outside.prog S).

(** [undefined] and [''] have no id; what is no string has no [startsWith] *)
Definition stripDidPrefix (did : option json) : prog (option json) :=
  match did with
  | Some (JStr s) => ret (if truthy s then Some (JStr (without_prefix s)) else None)
  | Some v => if jtruthy v then throw TypeError else ret None
  | None => ret None
  end.

Definition ignore {A} (t : prog A) : prog unit := try_catch (t;; ret tt) (λ _, ret tt).

Definition did_data (did : option json) : json := JObj (opt_prop (js "did") did).

(** ** Storing *)

Definition storeIdentity (identity : json) : prog unit :=
  match jget (js "masterSeedPhrase") identity, jget (js "identityId") identity with
  | Some seed, Some id =>
      if jtruthy seed && jtruthy id then
        match seed with
        | JStr s => ignore (Vault.storeMasterSeedPhrase wallet s (js_String id))
        | _ => ret tt
        end
      else ret tt
  | _, _ => ret tt
  end.

(** ** Sign-in *)

Definition is_status (s : jstr) (v : json) : bool := bool_decide (str_field (js "status") v = Some s).

Definition local_found (local : json) : bool :=
  is_status (js "found") local && otruthy (jget (js "identity_id") local) && otruthy (jget (js "did") local).

(** the identity of a local key, under a name *)
Definition local_identity (local : json) (displayName : option json) : json :=
  JObj (opt_prop (js "identityId") (jget (js "identity_id") local) ++ opt_prop (js "did") (jget (js "did") local)
        ++ opt_prop (js "displayName") displayName
        ++ [(js "identityType", jor (jget (js "identity_type") local) (JStr (js "human")))]
        ++ opt_prop (js "deviceId") (jget (js "device_id") local)
        ++ opt_prop (js "createdAt") (jget (js "created_at") local)).

Definition NOT_ON_DEVICE : error := Error (js "Identity not found on this device").
Definition NO_CREDENTIALS : error := Error (js "No credentials stored - please recover your identity first").
Definition INVALID_PASSWORD : error := Error (js "Invalid password").
Definition NOT_RESTORED : error := Error (js "Failed to restore identity for signing").

Definition signIn (credentials : SignInCredentials) : prog json :=
  local ← NativeIdentity.getLocalIdentity nativeModule (JStr (identity_id credentials));
  if negb (local_found local) then throw NOT_ON_DEVICE
  else
    stored ← Vault.getLoginCredentials;
    match stored with
    | None => throw NO_CREDENTIALS
    | Some (_, stored_password) =>
        if negb (bool_decide (stored_password = password credentials)) then throw INVALID_PASSWORD
        else
          restore ← NativeIdentity.restoreIdentityToHandleStore nativeModule (jor (jget (js "identity_id") local) JNull);
          if negb (is_status (js "restored") restore) then throw NOT_RESTORED
          else
            let identity := local_identity local (jget (js "did") local) in
            storeIdentity identity;;
            ret identity
    end.

(** ** Sign-up *)

Definition checkUsernameAvailability (username : jstr) : prog bool :=
  let normalized := trim username in
  if negb (truthy normalized) then throw (Error (js "Username is required"))
  else
    data ← call (publicQuicRequest
      (js "/api/v1/identity/username/available/" ++ Quic.encodeURIComponent normalized) Quic.no_options);
    ret (otruthy (jget (js "available") data)).

(** [error.message] of what is thrown, with a text in front *)
Definition prefixed {A} (text : jstr) (t : prog A) : prog A :=
  try_catch t (λ e, throw (Error (text ++ message e))).

Definition registration_body (proof : json) (displayName identityType : json) : json :=
  JObj (opt_prop (js "public_key") (jget (js "public_key") proof)
        ++ opt_prop (js "kyber_public_key") (jget (js "kyber_public_key") proof)
        ++ opt_prop (js "device_id") (jget (js "device_id") proof)
        ++ [(js "display_name", displayName); (js "identity_type", identityType)]
        ++ opt_prop (js "registration_proof") (jget (js "registration_proof") proof)
        ++ opt_prop (js "timestamp") (jget (js "timestamp") proof)).

Definition REGISTER : jstr := js "/api/v1/identity/register".

Definition register_request (body : json) : req Quic.QuicRawResponse := quicRequestRaw REGISTER (post json_headers body).

Definition http_error (prefix : jstr) (r : Quic.QuicRawResponse) : error :=
  Error (prefix ++ js "HTTP " ++ dec_str (Quic.status r) ++ js ": " ++ Quic.body r).

(** [v.k || ''] as the string that is stored *)
Definition field_or_empty (k : jstr) (v : json) : jstr := js_String (jor (jget k v) (JStr [])).

Definition binding_of (chainId height : json) (identityId : jstr) (response : json) : Vault.LocalChainBinding :=
  Vault.mkBinding chainId height identityId (field_or_empty (js "primary_wallet_id") response)
    (field_or_empty (js "ubi_wallet_id") response) (field_or_empty (js "savings_wallet_id") response).

(** the first binding, best effort *)
Definition save_first_binding (identityId : jstr) (response : json) : prog unit :=
  ignore
    (chainInfo ← call (publicQuicRequest (js "/api/v1/chain/info") Quic.no_options);
     chain_id ← dot chainInfo (js "chain_id");
     Vault.setBinding (binding_of (default JNull chain_id) (default JNull (jget (js "height") chainInfo))
                         identityId response)).

(** the answer of the registration: the identity id and the DID to go on with *)
Definition registered (did : option json) (r : Quic.QuicRawResponse) : prog (jstr * option json) :=
  if negb (Quic.ok r) then
    if (Quic.status r =? 409) && includes (js "Identity already registered") (Quic.body r) then
      match did with
      | Some (JStr d) => ret (without_prefix d, did)
      | _ => throw TypeError
      end
    else throw (http_error [] r)
  else
    response ← or_syntax_error (json_parse (Quic.body r));
    id ← dot response (js "identity_id");
    let identityId := js_String (jor id (JStr [])) in
    let did' := oor (jget (js "did") response) did in
    save_first_binding identityId response;;
    ret (identityId, did').

(** [trailing slashes removed] *)
Definition nodeUrl : jstr := drop_while_end (λ c, bool_decide (c = "/"%char)) DEFAULT_SOV_NODE_URL.

Definition createIdentityDevice (data : CreateIdentityData) : prog json :=
  prefixed []
    (generated ← prefixed (js "Device-based key generation failed: ")
       (NativeIdentity.provisionIdentity nativeModule (display_name data) nodeUrl);
     did ← dot generated (js "did");
     proof ← prefixed (js "Failed to create registration proof: ")
       (NativeIdentity.createRegistrationProof nativeModule (display_name data) (did_data did));
     '(identityId, did) ← prefixed (js "Server registration failed: ")
       (dot proof (js "public_key");;
        response ← call (register_request
          (registration_body proof (JStr (display_name data)) (JStr (js "human"))));
        registered did response);
     ignore (NativeIdentity.storeProvisionedIdentity nativeModule (JStr identityId) (did_data did));;
     masterSeedPhrase ← try_catch (NativeIdentity.getSeedPhraseForBackup nativeModule (default JNull did))
       (λ _, ret (JStr []));
     ignore (NativeIdentity.restoreIdentityToHandleStore nativeModule (JStr identityId));;
     let identity := JObj (opt_prop (js "did") did
       ++ [(js "displayName", JStr (display_name data)); (js "identityId", JStr identityId);
           (js "identityType", JStr (js "human"))]
       ++ opt_prop (js "deviceId") (jget (js "deviceId") generated)
       ++ opt_prop (js "createdAt") (jget (js "timestamp") generated)
       ++ opt_prop (js "masterSeedPhrase") (if jtruthy masterSeedPhrase then Some masterSeedPhrase else None)) in
     storeIdentity identity;;
     ret identity).

Definition createIdentity (data : CreateIdentityData) : prog json :=
  if (length (display_name data) <? 2)%nat then throw (Error (js "Display name must be at least 2 characters"))
  else if (length (new_password data) <? 8)%nat then throw (Error (js "Password must be at least 8 characters"))
  else if phone_os then createIdentityDevice data
  else throw (Error (js "Identity creation not available on this platform")).

(** ** Recovery *)

Definition RECOVER : jstr := js "/api/v1/identity/recover".

Record recover_answer := mkRecover { payload : json; responseOk : bool; responseStatus : Z }.

(** [JSON.parse(body) ?? {}], or the text as a message *)
Definition parse_payload (b : jstr) : json :=
  match json_parse b with
  | Some v => coalesce v (JObj [])
  | None => if truthy b then JObj [(js "message", JStr b)] else JObj []
  end.

Definition callServerSeedRecover (phrase : jstr) : prog recover_answer :=
  try_catch
    (response ← call (quicRequestRaw RECOVER (post json_headers (JObj [(js "recovery_phrase", JStr phrase)])));
     ret (mkRecover (parse_payload (Quic.body response)) (Quic.ok response) (Quic.status response)))
    (λ _, ret (mkRecover (JObj []) false 0)).

Definition says_not_found (k : jstr) (p : json) : bool :=
  includes (js "not found") (toLowerCase (js_String (jor (jget k p) (JStr [])))).

Definition isRecoverNotFound (p : json) (status : Z) : bool :=
  (status =? 404) || says_not_found (js "message") p || says_not_found (js "error") p.

Definition recovery_failed (a : recover_answer) : error :=
  Error (js_String (jor (jget (js "message") (payload a))
    (JStr (js "HTTP " ++ dec_str (responseStatus a) ++ js ": Recovery failed")))).

Definition reactToRecoverResponse (a : recover_answer) : prog unit :=
  let token := jget (js "session_token") (payload a) in
  if responseOk a && otruthy token then ignore (Vault.setSessionToken (default JNull token))
  else if (responseStatus a =? 0) || responseOk a then ret tt
  else if isRecoverNotFound (payload a) (responseStatus a)
  then modify (set_notFound true);; throw MIGRATION_REQUIRED
  else throw (recovery_failed a).

(** [typeof v === 'string' && v.length > 0] *)
Definition non_empty_string (v : option json) : option json :=
  match v with Some (JStr s) => if truthy s then v else None | _ => None end.

(** the identity that is put together after the restore; [restored] is read
    without a guard *)
Definition recovered_identity (identityDid : option json) (identityId : json) (serverDisplayName : option json)
    (restored : json) (phrase : jstr) : prog json :=
  match restored with
  | JNull => throw TypeError
  | _ =>
      ret (JObj (opt_prop (js "did") identityDid
        ++ [(js "displayName", jor (oor serverDisplayName (jget (js "displayName") restored)) (JStr (js "Recovered Identity")));
            (js "identityId", identityId);
            (js "identityType", jor (jget (js "identityType") restored) (JStr (js "human")))]
        ++ opt_prop (js "deviceId") (jget (js "deviceId") restored)
        ++ opt_prop (js "createdAt") (jget (js "createdAt") restored)
        ++ [(js "masterSeedPhrase", JStr phrase)]))
  end.

(** [stripDidPrefix(identityDid) ?? serverIdentityId] *)
Definition nullish (v w : option json) : option json :=
  match v with None | Some JNull => w | _ => v end.

Definition NOT_24_WORDS : error := Error (js "Recovery phrase must be 24 words").

Definition recoverWithSeed (seedPhrase : jstr) : prog json :=
  modify (set_notFound false);;
  let words := phrase_words seedPhrase in
  if negb (length words =? 24)%nat then throw NOT_24_WORDS
  else
    let phrase := JsString.join (js " ") words in
    a ← callServerSeedRecover phrase;
    reactToRecoverResponse a;;
    restored ← NativeIdentity.restoreIdentityFromPhrase nativeModule phrase;
    let serverIdentity := if responseOk a then jget (js "identity") (payload a) else None in
    let of_server k := match serverIdentity with Some v => jget (js k) v | None => None end in
    let identityDid := oor (jget (js "did") restored) (of_server "did"%string) in
    stripped ← stripDidPrefix identityDid;
    match nullish stripped (of_server "identity_id"%string) with
    | Some identityId =>
        if negb (jtruthy identityId) then throw (Error (js "Recovery failed: missing identity id"))
        else
          ignore (NativeIdentity.storeProvisionedIdentity nativeModule identityId (did_data identityDid));;
          ignore (NativeIdentity.restoreIdentityToHandleStore nativeModule identityId);;
          identity ← recovered_identity identityDid identityId
            (non_empty_string (of_server "display_name"%string)) restored phrase;
          storeIdentity identity;;
          ret identity
    | None => throw (Error (js "Recovery failed: missing identity id"))
    end.

(** ** Migration: the keys of a seed phrase under a new registration *)

(** the message that is signed: name, public key, time in seconds *)
Definition migration_message (displayName newPublicKeyHex : jstr) (timestamp : Z) : jstr :=
  js "SEED_MIGRATE:" ++ displayName ++ js ":" ++ newPublicKeyHex ++ js ":" ++ dec_str timestamp.

Definition alreadyMigrated (p : json) : bool :=
  bool_decide (toLowerCase (js_String (jor (jget (js "status") p) (JStr []))) = js "conflict")
  || includes (js "already registered")
       (toLowerCase (js_String (jor (oor (jget (js "status_message") p) (jget (js "message") p)) (JStr [])))).

Definition migration_body (publicKey : jstr) (deviceId : option json) (displayName : jstr) (timestamp : Z)
    (signature : json) : json :=
  JObj ([(js "new_public_key", JStr publicKey)] ++ opt_prop (js "device_id") deviceId
        ++ [(js "display_name", JStr displayName); (js "timestamp", JNum timestamp); (js "signature", signature)]).

(** [as string], on which a string method is called *)
Definition must_be_string (v : json) : prog jstr := match v with JStr s => ret s | _ => throw TypeError end.

(** what is erased and stored once the node has accepted: [base64ToHex] is the
    Buffer of React Native *)
Definition replace_identity (done_before : bool) (phrase : jstr) (newIdentityId serverDid : jstr) : prog unit :=
  (if done_before then ret tt else Vault.cleanAllIdentities;; Vault.clearSeedPhrase);;
  ignore
    (if done_before
     then NativeIdentity.storeProvisionedIdentity nativeModule (JStr newIdentityId) (did_data (Some (JStr serverDid)))
     else
       restoredAfterCleanup ← NativeIdentity.restoreIdentityFromPhrase nativeModule phrase;
       NativeIdentity.storeProvisionedIdentity nativeModule (JStr newIdentityId)
         (did_data (Some (jor (jget (js "did") restoredAfterCleanup) (JStr serverDid)))));;
  ignore (NativeIdentity.restoreIdentityToHandleStore nativeModule (JStr newIdentityId)).

Definition migration_failed (p : json) (status : Z) : error :=
  Error (js_String (jor (jget (js "message") p) (JStr (js "HTTP " ++ dec_str status ++ js ": Migration failed")))).

Definition MIGRATE : jstr := js "/api/v1/identity/migrate".

Definition migrateIdentityFromSeed (base64ToHex : jstr → jstr) (displayName seedPhrase : jstr) : prog (json * list jstr) :=
  if negb (truthy (trim displayName)) then throw (Error (js "Display name is required"))
  else
    let words := phrase_words seedPhrase in
    if negb (length words =? 24)%nat then throw NOT_24_WORDS
    else
      let phrase := JsString.join (js " ") words in
      restored ← NativeIdentity.restoreIdentityFromPhrase nativeModule phrase;
      if negb (otruthy (jget (js "did") restored)) then throw (Error (js "Failed to restore identity from seed"))
      else if negb (otruthy (jget (js "publicDilithium") restored))
      then throw (Error (js "Missing public key from restored identity"))
      else
        publicDilithium ← must_be_string (jor (jget (js "publicDilithium") restored) JNull);
        now ← call Date_now;
        let publicKey := base64ToHex publicDilithium in
        let timestamp := now / 1000 in
        signature ← NativeIdentity.signMessageFromSeed nativeModule phrase (migration_message displayName publicKey timestamp);
        response ← call (quicRequestRaw MIGRATE
          (post json_headers (migration_body publicKey (jget (js "deviceId") restored) displayName timestamp signature)));
        let p := parse_payload (Quic.body response) in
        let done_before := alreadyMigrated p in
        if negb (Quic.ok response) && negb done_before then throw (migration_failed p (Quic.status response))
        else
          serverDid ← must_be_string
            (if done_before then jor (jget (js "did") restored) JNull
             else jor (oor (jget (js "new_did") p) (oor (jget (js "did") p) (jget (js "did") restored))) JNull);
          let newIdentityId := without_prefix serverDid in
          replace_identity done_before phrase newIdentityId serverDid;;
          ret (JObj ([(js "identityId", JStr newIdentityId); (js "did", JStr serverDid);
                      (js "displayName", JStr displayName); (js "identityType", JStr (js "human"))]
                     ++ opt_prop (js "deviceId") (jget (js "deviceId") restored)
                     ++ opt_prop (js "createdAt") (jget (js "createdAt") restored)
                     ++ [(js "masterSeedPhrase", JStr phrase)]), words).

(** ** Recovery by the other native module *)

Definition API_MODULE : jstr := js "NativeZhtpApi".
Definition API_MISSING : error := Error (js "NativeZhtpApi module not available").

(** [identity.masterSeedPhrase] of [null] throws inside the guarded store *)
Definition recover_by (method : jstr) (args : list json) : prog json :=
  if negb NativeZhtpApi then throw API_MISSING
  else
    identity ← call (native API_MODULE method (args ++ [JStr DEFAULT_SOV_NODE_URL]));
    storeIdentity identity;;
    ret identity.

Definition recoverWithBackup (fileContent pw : jstr) : prog json :=
  recover_by (js "recoverWithBackup") [JStr fileContent; JStr pw].
Definition recoverWithSocial (guardianIds : list json) : prog json :=
  recover_by (js "recoverWithSocial") [JArr guardianIds].

Definition getProtocolInfo : prog json :=
  try_catch
    (if negb NativeZhtpApi then throw API_MISSING
     else call (native API_MODULE (js "getProtocolInfo") [JStr DEFAULT_SOV_NODE_URL]))
    (λ _, ret JNull).

(** ** Registration of an existing identity on another chain *)

Definition reRegisterExistingIdentity (currentIdentity : json) (newChainId newHeight : json) : prog Vault.LocalChainBinding :=
  match jor (jget (js "identityId") currentIdentity) JNull with
  | JStr identityId =>
      prefixed (js "Failed to restore identity handle for re-registration: ")
        (NativeIdentity.restoreIdentityToHandleStore nativeModule (JStr identityId));;
      let displayName := jor (jget (js "displayName") currentIdentity) (JStr (js "Recovered Identity")) in
      proof ← NativeIdentity.createRegistrationProof nativeModule (js_String displayName)
        (did_data (jget (js "did") currentIdentity));
      dot proof (js "public_key");;
      response ← call (register_request
        (registration_body proof displayName (jor (jget (js "identityType") currentIdentity) (JStr (js "human")))));
      '(newIdentityId, ids) ←
        (if Quic.ok response then
           b ← or_syntax_error (json_parse (Quic.body response));
           id ← dot b (js "identity_id");
           ret (js_String (jor id (JStr identityId)), b)
         else if Quic.status response =? 409 then ret (identityId, JObj [])
         else throw (http_error (js "Re-registration failed: ") response));
      (if bool_decide (newIdentityId = identityId) then ret tt
       else
         ignore (NativeIdentity.storeProvisionedIdentity nativeModule (JStr newIdentityId)
                   (did_data (jget (js "did") currentIdentity)));;
         ignore (NativeIdentity.restoreIdentityToHandleStore nativeModule (JStr newIdentityId)));;
      let binding := binding_of newChainId newHeight newIdentityId ids in
      Vault.setBinding binding;;
      ret binding
  | _ => throw (Error (js "Cannot re-register: identity has no identityId"))
  end.

(** ** The registry of the chain *)

Definition claimUsername (username : jstr) : prog json :=
  call (quicRequest (js "/api/v1/identity/claim-username") (post json_headers (JObj [(js "username", JStr username)]))).

Definition fetchIdentityRecord (did : jstr) : prog json :=
  if negb (truthy did) then ret JNull
  else try_catch (call (quicRequest (js "/api/v1/identity/get/" ++ Quic.encodeURIComponent did) get)) (λ _, ret JNull).

End Auth.

(** * Properties *)

(** a request to a method of the native identity module *)
Definition native_call (methods : list jstr) (e : event) : bool :=
  match e with
  | @Ev _ c _ =>
      match c with native m f _ => bool_decide (m = NativeIdentity.MODULE) && bool_decide (f ∈ methods) | _ => false end
  end.

Definition restore_method : jstr := js "restoreIdentityToHandleStore".

(** the methods that make keys or read them from a phrase *)
Definition key_methods : list jstr :=
  map js ["generateLocalIdentity"; "provisionIdentity"; "restoreIdentityFromPhrase"]%string.

(** nothing is written on the device: neither an entry nor an identity *)
Definition stores_nothing (e : event) : Prop :=
  match e with
  | @Ev _ c _ =>
      match c with
      | setGenericPassword _ _ _ _ | setInternetCredentials _ _ _ _ | setItem _ _ => False
      | native _ f _ => f ≠ js "storeProvisionedIdentity" ∧ f ≠ js "storeSecureString"
      | _ => True
      end
  end.

Definition not_register (e : event) : Prop :=
  match e with @Ev _ c _ => match c with quicRequestRaw path _ => path ≠ REGISTER | _ => True end end.

(** the node has the identity: it took it, or it had it before *)
Definition accepted (r : Quic.QuicRawResponse) : bool := Quic.ok r || (Quic.status r =? 409).

(** the trace [H] is about has no such call, and no result *)
Ltac refused H :=
  exfalso; simpl app in H; destruct H as [H|[? [=]]]; repeat (apply Exists_cons in H as [H|H]; [by vm_compute in H|]);
  by apply Exists_nil in H.

Section Laws.
Context {S : Type} (set_notFound : bool → S → S).
Context (nativeModule : option (jstr → bool)) (wallet : jstr → bool) (NativeZhtpApi phone_os : bool).
Context (DEFAULT_SOV_NODE_URL : jstr).
Abbreviation prog := (Outside.prog S).

Lemma local_identity_no_seed local name : jget (js "masterSeedPhrase") (local_identity local name) = None.
Proof.
  unfold local_identity. destruct (jget (js "identity_id") local), (jget (js "did") local), name,
    (jget (js "device_id") local), (jget (js "created_at") local); reflexivity.
Qed.

Lemma storeIdentity_local local name : storeIdentity (S := S) wallet (local_identity local name) = ret tt.
Proof. unfold storeIdentity. by rewrite local_identity_no_seed. Qed.

Lemma trace_getLoginCredentials tr r :
  trace obs (Vault.getLoginCredentials (S := S)) tr r →
  ∃ a, tr = [Ev (getInternetCredentials Vault.LOGIN_CREDENTIAL_SERVER) a] ∧
       r = inr (match a with inr c => c | inl _ => None end).
Proof.
  unfold Vault.getLoginCredentials, try_catch. intros H. apply trace_bindR in H as (a & tr1 & tr2 & -> & H1 & H2).
  apply trace_call in H1. subst tr1. exists a. destruct a; apply trace_ret in H2 as [-> ->]; done.
Qed.

Lemma trace_local id tr r :
  trace obs (NativeIdentity.getLocalIdentity (S := S) nativeModule id) tr r →
  tr = [] ∧ ((∃ e, r = inl e) ∨ ∃ v, r = inr v ∧ local_found v = false) ∨
  tr = [Ev (native NativeIdentity.MODULE (js "getLocalIdentity") [id]) r].
Proof.
  intros [[-> [e ->]]|[[-> ->]| ->]]%NativeIdentity.trace_checked; [left; eauto| |by right].
  left. split; [done|]. right. by eexists.
Qed.

(** C25: Signing in asks for the key, then for the password, and opens the key
    only then: the native handle is restored only after the single stored
    password was equal to the one given, it is the handle of the identity the
    device found under the given id, an identity is returned only when the
    native side says restored, and it is that identity. *)
Theorem sign_in_sound credentials tr r :
  trace obs (signIn (S := S) nativeModule wallet credentials) tr r →
  Exists (native_call [restore_method]) tr ∨ (∃ identity, r = inr identity) →
  ∃ local u restore,
    tr = [Ev (native NativeIdentity.MODULE (js "getLocalIdentity") [JStr (identity_id credentials)]) (inr local);
          Ev (getInternetCredentials Vault.LOGIN_CREDENTIAL_SERVER) (inr (Some (u, password credentials)));
          Ev (native NativeIdentity.MODULE restore_method [jor (jget (js "identity_id") local) JNull]) restore] ∧
    local_found local = true ∧
    ∀ identity, r = inr identity →
      identity = local_identity local (jget (js "did") local) ∧
      ∃ v, restore = inr v ∧ is_status (js "restored") v = true.
Proof.
  unfold signIn. intros H Hr. untrace H.
  { apply trace_local in H as [[-> _]| ->]; refused Hr. }
  apply trace_local in H as [[-> [[e [=]]|(v & [= ->] & Hv)]]| ->].
  { rewrite Hv in H0. cbn [negb] in H0. untrace H0. refused Hr. }
  destruct (local_found a) eqn:Hl; cbn [negb] in H0; [|untrace H0; refused Hr].
  untrace H0.
  { apply trace_getLoginCredentials in H0 as (c & -> & _). refused Hr. }
  apply trace_getLoginCredentials in H0 as (c & -> & Hc).
  destruct a0 as [[u pw]|]; [|untrace H; refused Hr].
  destruct c as [e|c]; [discriminate|]. injection Hc as <-.
  destruct (bool_decide_reflect (pw = password credentials)) as [->|]; cbn [negb] in H; [|untrace H; refused Hr].
  exists a, u. untrace H.
  { apply NativeIdentity.trace_plain in H as [[-> _]| ->]; [refused Hr|]. by exists (inl x). }
  apply NativeIdentity.trace_plain in H as [[-> [e [=]]]| ->]. exists (inr a0).
  destruct (is_status _ a0) eqn:Hs; cbn [negb] in H0; [|by untrace H0].
  rewrite storeIdentity_local in H0. untrace H0. split; [done|]. split; [done|].
  intros identity [= <-]. eauto.
Qed.

Lemma trace_prefixed {A} text (t : prog A) tr r :
  trace obs (prefixed text t) tr r →
  ∃ r', trace obs t tr r' ∧ r = match r' with inl e => inl (Error (text ++ message e)) | inr a => inr a end.
Proof.
  apply trace_rethrown.
Qed.

Lemma emits_plain P method args :
  (∀ r, P (Ev (native NativeIdentity.MODULE method args) r)) →
  emits P (NativeIdentity.plain (S := S) nativeModule method args).
Proof. intros HP tr r [[-> _]| ->]%NativeIdentity.trace_plain; by repeat constructor. Qed.

Lemma emits_ignore {A} P (t : prog A) : emits P t → emits P (ignore t).
Proof. intros H. unfold ignore. emits_through; done. Qed.

Lemma emits_storeIdentity P identity :
  (∀ v r, P (Ev (native Vault.WALLET_MODULE (js "storeSecureString") v) r)) →
  (∀ s u w o r, P (Ev (setGenericPassword s u w o) r)) →
  emits P (storeIdentity (S := S) wallet identity).
Proof.
  intros H1 H2. unfold storeIdentity, Vault.storeMasterSeedPhrase, ignore. emits_through; (apply H1 || apply H2).
Qed.

Lemma emits_save_first_binding P id response :
  (∀ r, P (Ev (publicQuicRequest (js "/api/v1/chain/info") Quic.no_options) r)) →
  (∀ k v r, P (Ev (setItem k v) r)) → emits P (save_first_binding (S := S) id response).
Proof. intros H1 H2. unfold save_first_binding, Vault.setBinding, ignore. emits_through; (apply H1 || apply H2). Qed.

(** an answer by which the identity is registered, now or before *)
Definition registered_now (r : Quic.QuicRawResponse) : bool :=
  Quic.ok r || (Quic.status r =? 409) && includes (js "Identity already registered") (Quic.body r).

Lemma trace_registered did a tr r :
  trace obs (registered (S := S) did a) tr r →
  (tr = [] ∧ ∃ e, r = inl e) ∨ registered_now a = true ∧ Forall not_register tr.
Proof.
  unfold registered_now. intros H. revert tr r H. unfold registered.
  destruct (Quic.ok a); cbn [negb orb]; [intros tr r H; right; split; [done|]; revert tr r H|].
  - change (emits not_register
      (response ← or_syntax_error (json_parse (Quic.body a));
       id ← dot response (js "identity_id");
       save_first_binding (js_String (jor id (JStr []))) response;;
       ret (js_String (jor id (JStr [])), oor (jget (js "did") response) did) : prog _)).
    emits_through. by apply emits_save_first_binding.
  - destruct (_ && _); intros tr r H; [|untrace H; eauto].
    destruct did as [[]|]; untrace H; eauto.
Qed.

(** a call of the bridge inside [prefixed]: a request that is answered, or a
    failure after at most that request *)
Lemma trace_prefixed_plain text method args tr r :
  trace obs (prefixed text (NativeIdentity.plain (S := S) nativeModule method args)) tr r →
  match r with
  | inr v => tr = [Ev (native NativeIdentity.MODULE method args) (inr v)]
  | inl _ => tr = [] ∨ ∃ x, tr = [Ev (native NativeIdentity.MODULE method args) x]
  end.
Proof.
  intros (r' & H & ->)%trace_prefixed. apply NativeIdentity.trace_plain in H as [[-> [e ->]]| ->]; [by left|].
  destruct r'; eauto.
Qed.

Lemma trace_registration text did proof body tr r :
  trace obs (prefixed text (dot proof (js "public_key");;
     response ← call (register_request body); registered (S := S) did response)) tr r →
  Forall stores_nothing tr ∧ (∃ e, r = inl e) ∨
  ∃ a tr2, tr = Ev (register_request body) (inr a) :: tr2 ∧ registered_now a = true ∧ Forall not_register tr2.
Proof.
  intros (r' & H & ->)%trace_prefixed. unfold register_request in *. untrace H; cbn [app];
    [left; split; [by repeat constructor|by eauto]..|].
  apply trace_registered in H as [[-> [e ->]]|[? ?]]; [left; split; [by repeat constructor|by eauto]|].
  right. eauto 10.
Qed.

(** C27: Nothing is stored before the node has the identity: an identity is
    created by making the keys, signing the proof and registering it, in this
    order and each once; unless the node registers it, or says it already is,
    the call fails and writes nothing on the device. *)
Theorem registered_before_stored data tr r :
  trace obs (createIdentity (S := S) nativeModule wallet phone_os DEFAULT_SOV_NODE_URL data) tr r →
  (Forall stores_nothing tr ∧ ∃ e, r = inl e) ∨
  ∃ generated proof a tr2,
    let name := display_name data in
    tr = [Ev (native NativeIdentity.MODULE (js "provisionIdentity") [JStr name; JStr (nodeUrl DEFAULT_SOV_NODE_URL)]) (inr generated);
          Ev (native NativeIdentity.MODULE (js "createRegistrationProof")
                [JStr name; did_data (jget (js "did") generated)]) (inr proof);
          Ev (register_request (registration_body proof (JStr name) (JStr (js "human")))) (inr a)] ++ tr2 ∧
    registered_now a = true ∧ Forall not_register tr2 ∧
    (2 ≤ length name)%nat ∧ (8 ≤ length (new_password data))%nat.
Proof.
  unfold createIdentity. intros H.
  destruct (length (display_name data) <? 2)%nat eqn:H1; [untrace H; left; by eauto using Forall_nil|].
  destruct (length (new_password data) <? 8)%nat eqn:H2; [untrace H; left; by eauto using Forall_nil|].
  destruct phone_os; [|untrace H; left; by eauto using Forall_nil].
  apply Nat.ltb_ge in H1, H2. unfold createIdentityDevice in H.
  apply trace_prefixed in H as (r' & H & ->).
  apply trace_bind in H as [(e & H & ->)|(generated & t1 & t2 & -> & Hg & H)].
  { left. apply trace_prefixed_plain in H as [->|[x ->]]; (split; [by repeat constructor|eauto]). }
  apply trace_prefixed_plain in Hg as ->.
  apply trace_bind in H as [(e & H & ->)|(did & t1 & t2' & -> & Hd & H)].
  { apply trace_dot in H as [-> _]. left. split; [by repeat constructor|eauto]. }
  apply trace_dot in Hd as [-> [[_ [=]]|[_ [= ->]]]].
  apply trace_bind in H as [(e & H & ->)|(proof & t1 & t2 & -> & Hg & H)].
  { left. apply trace_prefixed_plain in H as [->|[x ->]]; (split; [by repeat constructor|eauto]). }
  apply trace_prefixed_plain in Hg as ->.
  apply trace_bind in H as [(e & H & ->)|([identityId did] & t1 & t3 & -> & Hg & H)].
  { apply trace_registration in H as [[Hs _]|(a & tr2 & -> & Ha & Hn)]; [left|right; by eexists _, _, a, tr2].
    split; [repeat constructor; done|by eauto]. }
  apply trace_registration in Hg as [[_ [e [=]]]|(a & tr2 & -> & Ha & Hn)].
  right. exists generated, proof, a, (tr2 ++ t3). split; [done|]. split; [done|]. split; [|done].
  apply Forall_app. split; [done|]. revert H. generalize t3 r'.
  match goal with |- ∀ tr r, trace obs ?t tr r → _ => change (emits not_register t) end.
  emits_through; [by apply emits_ignore, emits_plain|by apply emits_plain|by apply emits_ignore, emits_plain|
    by apply emits_storeIdentity].
Qed.

(** a step of a re-registration: no key is made or replaced, and a chain binding
    is not written *)
Definition keeps_keys (e : event) : Prop := negb (native_call key_methods e).
Definition before_binding (e : event) : Prop :=
  keeps_keys e ∧ match e with @Ev _ c _ => match c with setItem _ _ => False | _ => True end end.

Lemma keeps_keys_plain method args :
  bool_decide (method ∈ key_methods) = false → emits before_binding (NativeIdentity.plain (S := S) nativeModule method args).
Proof.
  intros H. apply emits_plain. intros r. split; [|done]. unfold keeps_keys, native_call.
  by rewrite H, andb_false_r.
Qed.

Lemma trace_after {A B} P (t : prog A) (f : A → prog B) tr r :
  emits P t → trace obs (bind t f) tr r →
  Forall P tr ∨ ∃ a l tr2, tr = l ++ tr2 ∧ Forall P l ∧ trace obs (f a) tr2 r.
Proof.
  intros Ht [(e & H & _)|(a & l & tr2 & -> & H1 & H2)]%trace_bind; [left; by eapply Ht|].
  right. exists a, l, tr2. split; [done|]. split; [by eapply Ht|done].
Qed.

Lemma trace_re_registration identity chain height tr r :
  trace obs (reRegisterExistingIdentity (S := S) nativeModule identity chain height) tr r →
  Forall before_binding tr ∨
  ∃ tr1 body a tr2 binding w,
    tr = tr1 ++ Ev (register_request body) (inr a) :: tr2 ++
      [Ev (setItem Vault.CHAIN_BINDING_KEY (stringify (Vault.binding_json binding))) w] ∧
    accepted a = true ∧ Forall before_binding tr1 ∧ Forall before_binding tr2 ∧
    Vault.chainId binding = chain ∧ Vault.registeredHeight binding = height ∧
    r = match w with inr _ => inr binding | inl e => inl e end.
Proof.
  unfold reRegisterExistingIdentity. intros H.
  destruct (jor _ _) as [| | | |id| |]; try (untrace H; left; constructor).
  unfold mbind, outside_bind in H.
  apply (trace_after before_binding) in H as [?|(v & l1 & t1 & -> & H1 & H)]; [by left| |
    unfold prefixed; emits_through; by apply keeps_keys_plain].
  apply (trace_after before_binding) in H as [?|(proof & l2 & t2 & -> & H2 & H)]; [| |by apply keeps_keys_plain].
  { left. by apply Forall_app. }
  apply (trace_after before_binding) in H as [?|(v2 & l3 & t3 & -> & H3 & H)]; [| |apply emits_dot].
  { left. by rewrite !Forall_app. }
  apply trace_bind in H as [(e & H & ->)|(a & l4 & t4 & -> & H4 & H)]; [apply trace_call in H|apply trace_call in H4].
  { subst. left. rewrite !Forall_app. by repeat constructor. }
  destruct (accepted a) eqn:Ha; unfold accepted in Ha.
  2:{ apply orb_false_iff in Ha as [Ho H9]. rewrite Ho, H9 in H. untrace H.
      subst. left. rewrite !Forall_app. by repeat constructor. }
  apply (trace_after before_binding) in H as [?|([id' ids] & l5 & t5 & -> & H5 & H)]; [| |emits_through].
  { subst. left. rewrite !Forall_app. by repeat constructor. }
  apply (trace_after before_binding) in H as [?|(u & l6 & t6 & -> & H6 & H)];
    [| |emits_through; by apply emits_ignore, keeps_keys_plain].
  { subst. left. rewrite !Forall_app. by repeat constructor. }
  right. exists (l1 ++ l2 ++ l3). eexists. exists a, (l5 ++ l6), (binding_of chain height id' ids).
  assert (∃ w, t6 = [Ev (setItem Vault.CHAIN_BINDING_KEY (stringify (Vault.binding_json
      (binding_of chain height id' ids)))) w] ∧
    r = match w with inr _ => inr (binding_of chain height id' ids) | inl e => inl e end) as (w & -> & ->).
  { unfold Vault.setBinding in H. untrace H; by eexists. }
  exists w. subst l4. split; [by rewrite <-!app_assoc|]. rewrite !Forall_app. by unfold accepted.
Qed.


(** Re-registration keeps the keys: whatever the bridge and the node answer,
    it never asks for a key to be made or restored from a phrase; and a chain
    binding is written only as the last step, after the node took the proof of
    this identity or answered that it has it, and it is the binding returned. *)
Fact re_registration_keeps_keys identity chain height tr r :
  trace obs (reRegisterExistingIdentity (S := S) nativeModule identity chain height) tr r →
  Forall keeps_keys tr ∧
  (Forall before_binding tr ∨
   ∃ tr1 body a tr2 binding w,
     tr = tr1 ++ Ev (register_request body) (inr a) :: tr2 ++
       [Ev (setItem Vault.CHAIN_BINDING_KEY (stringify (Vault.binding_json binding))) w] ∧
     accepted a = true ∧ Forall before_binding tr1 ∧ Forall before_binding tr2 ∧
     Vault.chainId binding = chain ∧ Vault.registeredHeight binding = height ∧
     r = match w with inr _ => inr binding | inl e => inl e end).
Proof.
  intros H. apply trace_re_registration in H as [H|(tr1 & body & a & tr2 & b & w & -> & Ha & H1 & H2 & Hb)].
  - split; [|by left]. eapply Forall_impl; [exact H|]. by intros e [].
  - split; [|by right; exists tr1, body, a, tr2, b, w].
    apply Forall_app. split; [|constructor; [done|apply Forall_app; split; [|by repeat constructor]]];
      (eapply Forall_impl; [eassumption|by intros e []]).
Qed.

(** What the node says to a recovery is final: a phrase that is not 24 words
    is refused without a request; an answer that is not a success ends the
    recovery after this one request, nothing read from or written to the device,
    with MIGRATION_REQUIRED and its flag exactly when the answer says that the
    node does not know the identity, and with the message of the node otherwise. *)
Fact seed_recovery_refused {D} (handle : ∀ R : Set, req R → D → (error + R) * D) seedPhrase (s : S) d :
  let words := phrase_words seedPhrase in
  let request := quicRequestRaw RECOVER
    (post json_headers (JObj [(js "recovery_phrase", JStr (JsString.join (js " ") words))])) in
  let run := solo handle (recoverWithSeed set_notFound nativeModule wallet seedPhrase) s d in
  (length words ≠ 24%nat → run = Some (inl NOT_24_WORDS, set_notFound false s, d)) ∧
  (length words = 24%nat → ∀ a d', handle _ request d = (inr a, d') → Quic.ok a = false → Quic.status a ≠ 0 →
    let answer := mkRecover (parse_payload (Quic.body a)) false (Quic.status a) in
    run = Some (if isRecoverNotFound (payload answer) (Quic.status a)
                then (inl MIGRATION_REQUIRED, set_notFound true (set_notFound false s), d')
                else (inl (recovery_failed answer), set_notFound false s, d'))).
Proof.
  cbv zeta. unfold recoverWithSeed. set (words := phrase_words seedPhrase). split; intros Hw.
  - apply Nat.eqb_neq in Hw. unfold modify. enter. cbn [solo]. rewrite Hw. enter. done.
  - intros a d' Ha Hok Hs. apply Nat.eqb_eq in Hw. unfold modify. enter. cbn [solo]. rewrite Hw. enter.
    cbn [negb]. unfold callServerSeedRecover. enter. rewrite Ha. cbn [fst snd]. enter. rewrite Hok.
    unfold reactToRecoverResponse. cbn [responseOk payload responseStatus andb].
    apply Z.eqb_neq in Hs. rewrite Hs. cbn [orb].
    destruct (isRecoverNotFound _ _); unfold modify; enter; reflexivity.
Qed.

End Laws.

(** ** Witnesses *)

Definition found_bb : json :=
  JObj [(js "status", JStr (js "found")); (js "identity_id", JStr (js "bb")); (js "did", JStr (js "did:zhtp:bb"))].
Definition restored_bb : json := JObj [(js "status", JStr (js "restored"))].
Definition bb_credentials : SignInCredentials := mkCredentials (js "bb") (js "secret-of-aa").
Definition bb_trace : list event :=
  [Ev (native NativeIdentity.MODULE (js "getLocalIdentity") [JStr (js "bb")]) (inr found_bb);
   Ev (getInternetCredentials Vault.LOGIN_CREDENTIAL_SERVER) (inr (Some (js "did:zhtp:aa", js "secret-of-aa")));
   Ev (native NativeIdentity.MODULE restore_method [JStr (js "bb")]) (inr restored_bb)].

Lemma sign_in_sound_witness : ∃ local, local_found local = true ∧
  local_identity found_bb (Some (JStr (js "did:zhtp:bb"))) = local_identity local (jget (js "did") local).
Proof.
  destruct (sign_in_sound (S := unit) (Some (λ _, true)) (λ _, false) bb_credentials bb_trace
    (inr (local_identity found_bb (Some (JStr (js "did:zhtp:bb")))))) as (local & u & restore & _ & Hl & Hr).
  - unfold bb_trace. do 3 (eexists; eexists; split; [reflexivity|]). split; reflexivity.
  - right. eexists. reflexivity.
  - exists local. split; [exact Hl|]. exact (proj1 (Hr _ eq_refl)).
Defined.

(** The single stored password opens any identity of the device: the credentials
    of one identity sign in another, for the name they were stored under is not
    compared. *)
Fact password_of_another_identity :
  ∃ p identity, stored p = set_internet Vault.LOGIN_CREDENTIAL_SERVER (Some (js "did:zhtp:aa", js "secret-of-aa")) (mkContents ∅ ∅ ∅) ∧
    solo phone_handle (signIn (S := unit) (Some (λ _, true)) (λ _, false) bb_credentials) tt p = Some (inr identity, tt, p) ∧
    jget (js "did") identity = Some (JStr (js "did:zhtp:bb")).
Proof.
  exists (mkPhone None (λ m _, if decide (m = js "getLocalIdentity") then inr found_bb else inr restored_bb)
    (λ _, inl no_answer) (λ _, inl no_answer)
    (set_internet Vault.LOGIN_CREDENTIAL_SERVER (Some (js "did:zhtp:aa", js "secret-of-aa")) (mkContents ∅ ∅ ∅))).
  eexists. split; [done|]. split; by vm_compute.
Qed.

Definition ann_data : CreateIdentityData := mkCreate (js "Ann") (js "long enough").
Definition ann_keys : json := JObj [(js "did", JStr (js "did:zhtp:ab"))].
Definition ann_proof : json := JObj [(js "public_key", JStr (js "k"))].
Definition conflict : Quic.QuicRawResponse := Quic.mkResponse 409 [] (js "Identity already registered") false None.
Definition node_url : jstr := js "quic://node:1".
(** the node has the identity already; nothing can be stored *)
Definition created_trace : list event :=
  [Ev (native NativeIdentity.MODULE (js "provisionIdentity") [JStr (js "Ann"); JStr node_url]) (inr ann_keys);
   Ev (native NativeIdentity.MODULE (js "createRegistrationProof") [JStr (js "Ann"); ann_keys]) (inr ann_proof);
   Ev (register_request (registration_body ann_proof (JStr (js "Ann")) (JStr (js "human")))) (inr conflict);
   Ev (native NativeIdentity.MODULE (js "storeProvisionedIdentity") [JStr (js "ab"); ann_keys]) (inl no_answer);
   Ev (native NativeIdentity.MODULE (js "getSeedPhraseForBackup") [JStr (js "did:zhtp:ab")]) (inl no_answer);
   Ev (native NativeIdentity.MODULE restore_method [JStr (js "ab")]) (inl no_answer)].

Lemma registered_before_stored_witness : ∃ a tr2, registered_now a = true ∧ Forall not_register tr2.
Proof.
  destruct (registered_before_stored (S := unit) (Some (λ _, true)) (λ _, false) true node_url ann_data created_trace
    (inr (JObj [(js "did", JStr (js "did:zhtp:ab")); (js "displayName", JStr (js "Ann"));
                (js "identityId", JStr (js "ab")); (js "identityType", JStr (js "human"))])))
    as [[_ [e H]]|(_ & _ & a & tr2 & _ & Ha & Hn & _)].
  - do 6 (eexists; eexists; split; [reflexivity|]). split; reflexivity.
  - discriminate H.
  - exists a, tr2. exact (conj Ha Hn).
Defined.

Lemma re_registration_keeps_keys_witness :
  Forall keeps_keys [Ev (native NativeIdentity.MODULE restore_method [JStr (js "ab")]) (inl no_answer)].
Proof.
  apply (re_registration_keeps_keys (S := unit) (Some (λ _, true)) (JObj [(js "identityId", JStr (js "ab"))]) (JNum 7) (JNum 100)
    [Ev (native NativeIdentity.MODULE restore_method [JStr (js "ab")]) (inl no_answer)]
    (inl (Error (js "Failed to restore identity handle for re-registration: no answer")))).
  eexists. eexists. split; [reflexivity|]. split; reflexivity.
Defined.

Definition twelve : jstr := js "a b c d e f g h i j k l ".
Definition no_such_identity : Quic.QuicRawResponse := Quic.mkResponse 404 [] [] false None.
Definition forgetful_phone : phone :=
  mkPhone None (λ _ _, inl no_answer) (λ _, inl no_answer) (λ _, inr no_such_identity) (mkContents ∅ ∅ ∅).

Lemma seed_recovery_refused_witness :
  solo phone_handle (recoverWithSeed (λ b _, b) (Some (λ _, true)) (λ _, false) (twelve ++ twelve)) false forgetful_phone
  = Some (inl MIGRATION_REQUIRED, true, forgetful_phone).
Proof.
  apply (seed_recovery_refused (λ b _, b) (Some (λ _, true)) (λ _, false) phone_handle (twelve ++ twelve) false forgetful_phone)
    with (a := no_such_identity); [by vm_compute|done|done|done].
Defined.
