(* ===== verification/Lobby.v ===== *)
(** * The password session: src/src/services/LobbyAuthService.ts, NativeLobbyAuth.ts

    OPAQUE in two rounds: a native call that holds the blinding state under a
    [stateId], a request to the node, a native call that consumes the state, and
    a last request.  [Native] says whether the bridge is registered.  What is
    thrown inside a flow is caught by it and becomes a [LobbyAuthError]. *)

From stdpp Require Import strings.
From S2P Require Import Prelude JsString JsMap Json Async Outside.
From S2P Require Quic Tokens.

(** ** Server errors *)

(** a regular expression from its left end, tried at each position *)
Fixpoint regex_search {A} (m : jstr → option A) (s : jstr) : option A :=
  match m s with
  | Some a => Some a
  | None => match s with [] => None | _ :: s' => regex_search m s' end
  end.

(** a literal of a regular expression with the flag [i] *)
Definition literal_i (t s : jstr) : option jstr :=
  if startsWith t (toLowerCase s) then Some (drop (length t) s) else None.
Definition spaces (s : jstr) : jstr := drop_while is_space s.
(** [(\d+)]: the digits and the rest *)
Definition digits_group (s : jstr) : option (jstr * jstr) :=
  if truthy (take_while is_digit s) then Some (take_while is_digit s, drop_while is_digit s) else None.

(** [/retry\s*after\s*(\d+)\s*s/i] and [/(\d+)\s*s\b/] *)
Definition retry_after_at (s : jstr) : option jstr :=
  s ← literal_i (js "retry") s;
  s ← literal_i (js "after") (spaces s);
  '(ds, s) ← digits_group (spaces s);
  literal_i (js "s") (spaces s);;
  Some ds.
Definition seconds_at (s : jstr) : option jstr :=
  '(ds, s) ← digits_group s;
  match spaces s with
  | c :: rest => if bool_decide (c = "s"%char) && negb (match rest with d :: _ => is_word d | [] => false end)
                 then Some ds else None
  | [] => None
  end.

(** [Number.parseInt] of digits, the nearest double, when it is finite *)
Definition finite_int (ds : jstr) : option Z :=
  let n := Tokens.trunc_double (dec_val ds) 1 in
  if n <? 2 ^ 1024 then Some n else None.

Definition parseRetryAfter (body : jstr) : option Z :=
  match regex_search retry_after_at body with
  | Some ds => finite_int ds
  | None => ds ← regex_search seconds_at body; finite_int ds
  end.

Definition contains_i (t s : jstr) : bool := includes t (toLowerCase s).

Definition mapServerError (status : Z) (text : jstr) : error :=
  match status with
  | 401 => LobbyAuthError wrong_password (js "Incorrect username or password.") None
  | 409 =>
      if contains_i (js "upgrade_required") text
      then LobbyAuthError upgrade_required (js "This account needs a one-time security upgrade.") None
      else LobbyAuthError username_taken (js "That username is already taken.") None
  | 410 | 404 => LobbyAuthError request_expired (js "The request timed out. Please try again.") None
  | 423 => LobbyAuthError locked (js "Account temporarily locked.") (parseRetryAfter text)
  | 429 =>
      let retry := parseRetryAfter text in
      if contains_i (js "locked") text then LobbyAuthError locked (js "Account temporarily locked.") retry
      else if contains_i (js "ip throttled") text
      then LobbyAuthError ip_throttled (js "Too many attempts from this network.") retry
      else LobbyAuthError rate_limited (js "Too many attempts. Please wait before trying again.") retry
  | 503 => LobbyAuthError not_configured (js "Lobby sign-in is not available on this network.") None
  | _ => LobbyAuthError unknown (js "Server error (" ++ dec_str status ++ js "). Please try again.") None
  end.

Definition code_of (e : error) : option jstr :=
  match e with
  | NativeError _ c _ => c
  | Js (Quic.QuicError _ _ (Some (JStr c)) _) => Some c
  | _ => None
  end.

Definition asLobbyError (e : error) : error :=
  match e with
  | LobbyAuthError _ _ _ => e
  | _ =>
      if bool_decide (code_of e = Some (js "WRONG_PASSWORD"))
      then LobbyAuthError wrong_password (js "Incorrect username or password.") None
      else LobbyAuthError network (str_or (message e) (js "Network error.")) None
  end.

Definition REGISTER_START : jstr := js "/api/v1/auth/opaque/register/start".
Definition REGISTER_FINISH : jstr := js "/api/v1/auth/opaque/register/finish".
Definition LOGIN_START : jstr := js "/api/v1/auth/opaque/login/start".
Definition LOGIN_FINISH : jstr := js "/api/v1/auth/opaque/login/finish".

Section Lobby.
Context {S : Type} (Native : bool).
Abbreviation prog := (Outside.prog S).

(** ** The native bridge *)

Definition LOBBY_MODULE : jstr := js "NativeLobbyAuth".
(** the dash of the message, U+2014, is written in ASCII *)
Definition unregistered : error :=
  Error (js "NativeLobbyAuth bridge not registered - rebuild the app after adding the OPAQUE FFI.").

Definition opaque (method : jstr) (args : list json) : prog json :=
  if Native then call (native LOBBY_MODULE method args) else throw unregistered.

(** [NativeLobbyAuth.m(stateId).catch(() => {})]: the bridge itself is looked up
    outside the promise *)
Definition release (method : jstr) (stateId : json) : prog unit :=
  if Native then try_catch (call (native LOBBY_MODULE method [stateId]);; ret tt) (λ _, ret tt)
  else throw unregistered.

(** ** Requests *)

Definition opaque_options (alpn : Quic.Alpn) (body : json) : Quic.RequestOptions :=
  Quic.mkOptions (Some Quic.POST) (Some (stringify body)) json_headers None None None (Some alpn).

Definition postOpaque (path : jstr) (body : json) (alpn : Quic.Alpn) : prog json :=
  res ← call (quicRequestRaw path (opaque_options alpn body));
  if negb (Quic.ok res) then throw (mapServerError (Quic.status res) (Quic.body res))
  else or_syntax_error (json_parse (Quic.body res)).

(** an [undefined] argument of a native method is [null] *)
Definition arg (v : option json) : json := default JNull v.

(** ** Registration *)

Record RegisterHandle := mkHandle { stateId : option json; requestId : option json; serverMsg2B64 : option json }.

Definition start_body (username : jstr) (msg1 : option json) : json :=
  JObj ([(js "username", JStr username)] ++ opt_prop (js "msg1_b64") msg1).

Definition opaqueRegisterBegin (username password : jstr) : prog RegisterHandle :=
  let username := toLowerCase (trim username) in
  started ← try_catch
    (started ← opaque (js "opaqueRegisterStart") [JStr password];
     id ← dot started (js "stateId");
     ret (id, jget (js "requestB64") started)) (λ e, throw (asLobbyError e));
  try_catch
    (startRes ← postOpaque REGISTER_START (start_body username started.2) Quic.public;
     request_id ← dot startRes (js "request_id");
     ret (mkHandle started.1 request_id (jget (js "msg2_b64") startRes)))
    (λ e, (if otruthy started.1 then release (js "opaqueRegisterCancel") (arg started.1) else ret tt);;
          throw (asLobbyError e)).

Definition opaqueRegisterComplete (handle : RegisterHandle) (password : jstr) (did : json) : prog unit :=
  try_catch
    (finished ← opaque (js "opaqueRegisterFinish") [arg (stateId handle); JStr password; arg (serverMsg2B64 handle)];
     recordB64 ← dot finished (js "recordB64");
     postOpaque REGISTER_FINISH
       (JObj (opt_prop (js "request_id") (requestId handle) ++ opt_prop (js "record_b64") recordB64
              ++ [(js "did", did)])) Quic.authenticated;;
     ret tt)
    (λ e, throw (asLobbyError e)).

Definition opaqueRegisterCancel (handle : RegisterHandle) : prog unit :=
  release (js "opaqueRegisterCancel") (arg (stateId handle)).

(** ** Login *)

Definition lobby_session (loginRes finished : json) (now : Z) : json :=
  JObj (opt_prop (js "sessionToken") (jget (js "session_token") loginRes)
        ++ opt_prop (js "sessionKeyB64") (jget (js "sessionKeyB64") finished)
        ++ opt_prop (js "did") (jget (js "did") loginRes)
        ++ opt_prop (js "username") (jget (js "username") loginRes)
        ++ opt_prop (js "accessZone") (jget (js "access_zone") loginRes)
        ++ [(js "createdAt", JNum now)]).

(** the request that takes the state of the login with it when it fails *)
Definition login_start (username : jstr) (started : json) : prog json :=
  postOpaque LOGIN_START (start_body username (jget (js "requestB64") started)) Quic.public.

(** after the native side has consumed the state *)
Definition login_finish (startRes finished : json) : prog json :=
  msg3 ← dot finished (js "msg3B64");
  loginRes ← postOpaque LOGIN_FINISH
    (JObj (opt_prop (js "request_id") (jget (js "request_id") startRes) ++ opt_prop (js "msg3_b64") msg3)) Quic.public;
  dot loginRes (js "session_token");;
  now ← call Date_now;
  ret (lobby_session loginRes finished now).

Definition rethrow {A} (t : prog A) : prog A := try_catch t (λ e, throw (asLobbyError e)).

Definition opaqueLogin (username password : jstr) : prog json :=
  let username := toLowerCase (trim username) in
  started ← rethrow (opaque (js "opaqueLoginStart") [JStr password]);
  id ← rethrow (dot started (js "stateId"));
  startRes ← try_catch (login_start username started)
    (λ serverErr, release (js "opaqueLoginCancel") (arg id);; throw (asLobbyError serverErr));
  finished ← try_catch
    (msg2 ← dot startRes (js "msg2_b64");
     opaque (js "opaqueLoginFinish") [arg id; JStr password; arg msg2])
    (λ e, (if otruthy id then release (js "opaqueLoginCancel") (arg id) else ret tt);; throw (asLobbyError e));
  rethrow (login_finish startRes finished).

End Lobby.

(** * Properties *)

(** *** What is visible without the password

    [redact] takes the password out of the calls of the native OPAQUE module and
    leaves every other request, those to the node among them, as it is. *)
Definition redact_args (method : jstr) (args : list json) : list json :=
  if bool_decide (method ∈ [js "opaqueRegisterStart"; js "opaqueLoginStart"]) then []
  else if bool_decide (method ∈ [js "opaqueRegisterFinish"; js "opaqueLoginFinish"])
  then match args with [id; _; msg2] => [id; msg2] | _ => args end
  else args.

Definition redact (e : event) : event :=
  match e with
  | @Ev _ c r =>
      match c in req R return error + R → event with
      | native m f args => λ r, Ev (native m f (if bool_decide (m = LOBBY_MODULE) then redact_args f args else args)) r
      | c => λ r, Ev c r
      end r
  end.

Section Blind.
Context {S : Type}.

Definition blind {A} (t t' : prog S A) : Prop :=
  ∀ tr r, trace obs t tr r → ∃ tr', trace obs t' tr' r ∧ map redact tr' = map redact tr.

Lemma blind_refl {A} (t : prog S A) : blind t t.
Proof. intros tr r H. by exists tr. Qed.

Lemma blind_bindR {A B} (t t' : prog S A) (f f' : error + A → prog S B) :
  blind t t' → (∀ r, blind (f r) (f' r)) → blind (bindR t f) (bindR t' f').
Proof.
  intros Ht Hf tr r (a & tr1 & tr2 & -> & H1 & H2)%trace_bindR.
  destruct (Ht _ _ H1) as (tr1' & H1' & E1). destruct (Hf _ _ _ H2) as (tr2' & H2' & E2).
  exists (tr1' ++ tr2'). split; [apply trace_bindR; by exists a, tr1', tr2'|].
  by rewrite !map_app, E1, E2.
Qed.

Lemma blind_bind {A B} (t t' : prog S A) (f f' : A → prog S B) :
  blind t t' → (∀ a, blind (f a) (f' a)) → blind (bind t f) (bind t' f').
Proof. intros Ht Hf. apply blind_bindR; [done|]. intros [e|a]; [apply blind_refl|apply Hf]. Qed.

Lemma blind_try_catch {A} (t t' : prog S A) h : blind t t' → blind (try_catch t h) (try_catch t' h).
Proof. intros Ht. apply blind_bindR; [done|]. intros r. apply blind_refl. Qed.

Lemma blind_opaque Native method args args' :
  redact_args method args = redact_args method args' →
  blind (opaque (S := S) Native method args) (opaque Native method args').
Proof.
  intros E tr r H. unfold opaque in *. destruct Native; [|by exists tr].
  apply trace_call in H. subst tr. eexists. split; [by apply trace_call|]. simpl. by rewrite E.
Qed.

End Blind.

Ltac blind_through :=
  repeat first [apply blind_bind; [|intros ?]|apply blind_try_catch|apply blind_opaque; reflexivity|apply blind_refl].

(** C22: The password stays on the device: whatever the native module and the node
    answer, the requests of a login, of the beginning of a registration and of
    its completion do not depend on the password, but for the arguments of the
    native OPAQUE calls: with another password the same answers lead to the same
    requests and the same outcome. *)
Theorem password_stays_native {S} Native username password password' handle did tr :
  (∀ r, trace obs (opaqueLogin (S := S) Native username password) tr r →
     ∃ tr', trace obs (opaqueLogin (S := S) Native username password') tr' r ∧ map redact tr' = map redact tr) ∧
  (∀ r, trace obs (opaqueRegisterBegin (S := S) Native username password) tr r →
     ∃ tr', trace obs (opaqueRegisterBegin (S := S) Native username password') tr' r ∧ map redact tr' = map redact tr) ∧
  (∀ r, trace obs (opaqueRegisterComplete (S := S) Native handle password did) tr r →
     ∃ tr', trace obs (opaqueRegisterComplete (S := S) Native handle password' did) tr' r ∧ map redact tr' = map redact tr).
Proof.
  split; [|split].
  - assert (blind (opaqueLogin (S := S) Native username password) (opaqueLogin Native username password')) as H.
    { unfold opaqueLogin, rethrow. cbv zeta. blind_through. }
    intros r. apply H.
  - assert (blind (opaqueRegisterBegin (S := S) Native username password) (opaqueRegisterBegin Native username password')) as H.
    { unfold opaqueRegisterBegin. cbv zeta. blind_through. }
    intros r. apply H.
  - assert (blind (opaqueRegisterComplete (S := S) Native handle password did) (opaqueRegisterComplete Native handle password' did)) as H.
    { unfold opaqueRegisterComplete. blind_through. }
    intros r. apply H.
Qed.

(** *** What becomes of the native state *)

Definition lobby_call (method : jstr) (args : list json) (e : event) : Prop :=
  ∃ r, e = Ev (native LOBBY_MODULE method args) r.

Definition lobby_error {A} (r : error + A) : Prop :=
  match r with inl (LobbyAuthError _ _ _) | inr _ => True | inl _ => False end.

Lemma asLobbyError_lobby {A} e : lobby_error (A := A) (inl (asLobbyError e)).
Proof. destruct e; simpl; try case_bool_decide; done. Qed.

Lemma trace_opaque {S} method args tr r :
  trace obs (opaque (S := S) true method args) tr r → tr = [Ev (native LOBBY_MODULE method args) r].
Proof. intros H. untrace H; unfold opaque in H; by untrace H. Qed.

Lemma trace_release {S} method id tr r :
  trace obs (release (S := S) true method id) tr r → r = inr tt ∧ ∃ x, tr = [Ev (native LOBBY_MODULE method [id]) x].
Proof.
  intros [([] & -> & H)|(e & tr1 & tr2 & -> & H & H2)]%trace_try_catch.
  - split; [done|]. apply trace_bind in H as [(e & _ & [=])|(a & t1 & t2 & -> & H & [-> _])].
    apply trace_call in H as ->. by eexists.
  - apply trace_ret in H2 as [-> ->]. split; [done|]. rewrite app_nil_r.
    apply trace_bind in H as [(e' & H & _)|(a & t1 & t2 & _ & _ & [_ [=]])]. apply trace_call in H as ->. by eexists.
Qed.

Lemma trace_abandon {S A} id e tr (r : error + A) :
  trace obs (bind (release (S := S) true (js "opaqueLoginCancel") id) (λ _, throw (asLobbyError e))) tr r →
  Exists (lobby_call (js "opaqueLoginCancel") [id]) tr ∧ r = inl (asLobbyError e).
Proof.
  intros [(e' & [[=] _]%trace_release & _)|([] & t1 & t2 & -> & H & [-> ->])]%trace_bind.
  apply trace_release in H as [_ [x ->]]. split; [|done]. left. by exists x.
Qed.

(** the state [id] was handed to the finish, or released after an error *)
Definition consumed (password : jstr) (id : option json) (tr : list event) (r : error + json) : Prop :=
  lobby_error r ∧
  ∀ i, id = Some i → jtruthy i = true →
    (∃ msg2, Exists (lobby_call (js "opaqueLoginFinish") [i; JStr password; msg2]) tr) ∨
    Exists (lobby_call (js "opaqueLoginCancel") [i]) tr ∧ ∃ e, r = inl e.

Lemma consumed_app password id tr1 tr2 r : consumed password id tr2 r → consumed password id (tr1 ++ tr2) r.
Proof.
  intros [Hl H]. split; [done|]. intros i Hi Ht. destruct (H i Hi Ht) as [[msg2 Hf]|[Hc He]];
    [left; exists msg2|right; split; [|done]]; apply Exists_app; by right.
Qed.

Lemma login_rest {S} username password started id tr r :
  trace obs
    (bind (try_catch (login_start (S := S) username started)
       (λ serverErr, bind (release true (js "opaqueLoginCancel") (arg id)) (λ _, throw (asLobbyError serverErr))))
     (λ startRes, bind (try_catch
       (bind (dot startRes (js "msg2_b64")) (λ msg2, opaque true (js "opaqueLoginFinish") [arg id; JStr password; arg msg2]))
       (λ e, bind (if otruthy id then release true (js "opaqueLoginCancel") (arg id) else ret tt)
               (λ _, throw (asLobbyError e))))
     (λ finished, rethrow (login_finish startRes finished)))) tr r →
  consumed password id tr r.
Proof.
  intros [(e & H & ->)|(startRes & t1 & t2 & -> & _ & H)]%trace_bind.
  { apply trace_try_catch in H as [(? & [=] & _)|(e' & t1 & t2 & -> & _ & H)]. apply trace_abandon in H as [Hc [= ->]].
    apply consumed_app. split; [apply asLobbyError_lobby|]. intros i -> _. right. eauto. }
  apply consumed_app. apply trace_bind in H as [(e & H & ->)|(finished & t3 & t4 & -> & Hf & H)].
  - apply trace_try_catch in H as [(? & [=] & _)|(e' & t3 & t4 & -> & _ & H)]. apply consumed_app.
    destruct (otruthy id) eqn:Ho.
    + apply trace_abandon in H as [Hc [= ->]]. split; [apply asLobbyError_lobby|]. intros i -> _. right. eauto.
    + untrace H. split; [apply asLobbyError_lobby|]. intros i -> Hi. cbn [otruthy] in Ho. congruence.
  - apply trace_rethrown in H as (r' & _ & ->). split; [destruct r'; [apply asLobbyError_lobby|done]|].
    intros i -> _. left. apply trace_try_catch in Hf as [(? & _ & Hf)|(e' & t5 & t6 & -> & _ & H)].
    + apply trace_bind in Hf as [(? & _ & [=])|(msg2 & t5 & t6 & -> & _ & Hf)].
      apply trace_opaque in Hf as ->.
      exists (arg msg2). apply Exists_app. left. apply Exists_app. right. left. by eexists.
    + exfalso. destruct (otruthy (Some i)); [by apply trace_abandon in H as [_ [=]]|].
      by apply trace_bind in H as [(? & _ & [=])|(? & ? & ? & _ & _ & [_ [=]])].
Qed.

(** A login leaves no native state behind and throws only [LobbyAuthError]s:
    when the native module gave a state, the trace gives that same state to the
    finish or releases it, and a session is returned only after the finish of
    that state and an answer of the node to the proof it made. *)
Fact login_state_consumed {S} username password tr r :
  trace obs (opaqueLogin (S := S) true username password) tr r →
  lobby_error r ∧
  ∃ started, head tr = Some (Ev (native LOBBY_MODULE (js "opaqueLoginStart") [JStr password]) started) ∧
    ∀ v id, started = inr v → jget (js "stateId") v = Some id → jtruthy id = true →
      (∃ msg2, Exists (lobby_call (js "opaqueLoginFinish") [id; JStr password; msg2]) tr) ∨
      Exists (lobby_call (js "opaqueLoginCancel") [id]) tr ∧ ∃ e, r = inl e.
Proof.
  unfold opaqueLogin. cbv zeta. intros H. unfold mbind, outside_bind in H.
  apply trace_bind in H as [(e & H & ->)|(started & t1 & t2 & -> & Hs & H)].
  { apply trace_rethrown in H as ([e'|?] & ->%trace_opaque & [= ->]). split; [apply asLobbyError_lobby|].
    by exists (inl e'). }
  apply trace_rethrown in Hs as ([?|v] & ->%trace_opaque & [= <-]).
  apply trace_bind in H as [(e & H & ->)|(id & t1 & t3 & -> & Hs & H)].
  { apply trace_rethrown in H as ([e'|?] & H & [= ->]). split; [apply asLobbyError_lobby|].
    exists (inr started). split; [done|]. apply trace_dot in H as [-> [[-> _]|[_ [=]]]]. naive_solver. }
  apply trace_rethrown in Hs as ([?|v] & Hs & [= <-]). apply trace_dot in Hs as [-> [[_ [=]]|[_ [= ->]]]].
  apply login_rest in H as [Hl H]. split; [done|]. exists (inr started). split; [done|].
  intros v i [= <-] Hi Ht. destruct (H i Hi Ht) as [[msg2 Hf]|[Hc He]]; [left; exists msg2; by right|right].
  split; [by right|done].
Qed.

(** ** Witnesses *)

Definition started : json := JObj [(js "stateId", JStr (js "s1")); (js "requestB64", JStr (js "m1"))].
Definition wrong : error := NativeError (js "bad") (Some (js "WRONG_PASSWORD")) None.
Definition reply : Quic.QuicRawResponse :=
  Quic.mkResponse 200 [] (stringify (JObj [(js "msg2_b64", JStr (js "m2")); (js "request_id", JStr (js "r1"))])) true None.
(** the node answers the first round, the native module refuses the password *)
Definition login_trace (password : jstr) : list event :=
  [Ev (native LOBBY_MODULE (js "opaqueLoginStart") [JStr password]) (inr started);
   Ev (quicRequestRaw LOGIN_START (opaque_options Quic.public
     (JObj [(js "username", JStr (js "ann")); (js "msg1_b64", JStr (js "m1"))]))) (inr reply);
   Ev (native LOBBY_MODULE (js "opaqueLoginFinish") [JStr (js "s1"); JStr password; JStr (js "m2")]) (inl wrong);
   Ev (native LOBBY_MODULE (js "opaqueLoginCancel") [JStr (js "s1")]) (inr JNull)].

Lemma login_trace_ok password : trace obs (opaqueLogin (S := unit) true (js " Ann") password) (login_trace password)
  (inl (asLobbyError wrong)).
Proof.
  do 4 (eexists; eexists; split; [reflexivity|]). split; reflexivity.
Qed.

Lemma password_stays_native_witness :
  ∃ tr', trace obs (opaqueLogin (S := unit) true (js " Ann") (js "other")) tr' (inl (asLobbyError wrong)) ∧
    map redact tr' = map redact (login_trace (js "secret")).
Proof.
  apply (password_stays_native (S := unit) true (js " Ann") (js "secret") (js "other") (mkHandle None None None) JNull).
  exact (login_trace_ok (js "secret")).
Defined.

Lemma login_state_consumed_witness :
  lobby_error (A := json) (inl (asLobbyError wrong)) ∧
  ∃ st, head (login_trace (js "secret")) = Some (Ev (native LOBBY_MODULE (js "opaqueLoginStart") [JStr (js "secret")]) st).
Proof.
  destruct (login_state_consumed (js " Ann") (js "secret") _ _ (login_trace_ok (js "secret"))) as [H (st & Hs & _)].
  split; [exact H|]. exists st. exact Hs.
Defined.
