(* ===== verification/AuthContext.v ===== *)
(** * The authentication state of the app: src/src/context/AuthContext.tsx

    The state of the provider, with the flag of RealAuthService.ts, the attempts
    of RateLimiter.ts and the manager of QuicSessionManager.ts that its operations
    also write, is the record [auth]; each callback is a task that composes the
    services (Auth.v, Lobby.v, Vault.v).  [setX(v)] of React is a write of the
    state; a callback reads the identity of the render it belongs to, which is
    the one at its start.  [void f()] runs on its own.  The mock service is not
    modelled: its flag is never true ([mock_never_used]).  What an effect does
    when the DID changes is in MsgStore.v, QuicSession.v and Inbound.v. *)

From stdpp Require Import strings gmap.
From S2P Require Import Prelude JsString JsMap Json Async Outside.
From S2P Require NativeIdentity Vault RateLimiter QuicSession Identifiers Tokens Auth Lobby Quic.

Record auth := mkAuth {
  currentIdentity : json;                  (* or [null] *)
  lobbySession : json;
  isLoading : bool;
  isBootstrapping : bool;
  error_text : option jstr;
  restoreWarning : option jstr;
  migrationRequired : bool;
  pendingPassword : option jstr;           (* pendingPasswordRef *)
  lastSeedRecoveryNotFound : bool;         (* RealAuthService *)
  login_attempts : RateLimiter.attempts_map;
  quic_manager : QuicSession.manager;
}.

Definition initial : auth := mkAuth JNull JNull false true None None false None false [] QuicSession.initial.

Definition setCurrentIdentity v x := mkAuth v (lobbySession x) (isLoading x) (isBootstrapping x) (error_text x) (restoreWarning x) (migrationRequired x) (pendingPassword x) (lastSeedRecoveryNotFound x) (login_attempts x) (quic_manager x).
Definition setLobbySession v x := mkAuth (currentIdentity x) v (isLoading x) (isBootstrapping x) (error_text x) (restoreWarning x) (migrationRequired x) (pendingPassword x) (lastSeedRecoveryNotFound x) (login_attempts x) (quic_manager x).
Definition setIsLoading v x := mkAuth (currentIdentity x) (lobbySession x) v (isBootstrapping x) (error_text x) (restoreWarning x) (migrationRequired x) (pendingPassword x) (lastSeedRecoveryNotFound x) (login_attempts x) (quic_manager x).
Definition setIsBootstrapping v x := mkAuth (currentIdentity x) (lobbySession x) (isLoading x) v (error_text x) (restoreWarning x) (migrationRequired x) (pendingPassword x) (lastSeedRecoveryNotFound x) (login_attempts x) (quic_manager x).
Definition setError v x := mkAuth (currentIdentity x) (lobbySession x) (isLoading x) (isBootstrapping x) v (restoreWarning x) (migrationRequired x) (pendingPassword x) (lastSeedRecoveryNotFound x) (login_attempts x) (quic_manager x).
Definition setRestoreWarning v x := mkAuth (currentIdentity x) (lobbySession x) (isLoading x) (isBootstrapping x) (error_text x) v (migrationRequired x) (pendingPassword x) (lastSeedRecoveryNotFound x) (login_attempts x) (quic_manager x).
Definition setMigrationRequired v x := mkAuth (currentIdentity x) (lobbySession x) (isLoading x) (isBootstrapping x) (error_text x) (restoreWarning x) v (pendingPassword x) (lastSeedRecoveryNotFound x) (login_attempts x) (quic_manager x).
Definition set_pending v x := mkAuth (currentIdentity x) (lobbySession x) (isLoading x) (isBootstrapping x) (error_text x) (restoreWarning x) (migrationRequired x) v (lastSeedRecoveryNotFound x) (login_attempts x) (quic_manager x).
Definition set_notFound v x := mkAuth (currentIdentity x) (lobbySession x) (isLoading x) (isBootstrapping x) (error_text x) (restoreWarning x) (migrationRequired x) (pendingPassword x) v (login_attempts x) (quic_manager x).
Definition upd_attempts f x := mkAuth (currentIdentity x) (lobbySession x) (isLoading x) (isBootstrapping x) (error_text x) (restoreWarning x) (migrationRequired x) (pendingPassword x) (lastSeedRecoveryNotFound x) (f (login_attempts x)) (quic_manager x).
Definition upd_manager f x := mkAuth (currentIdentity x) (lobbySession x) (isLoading x) (isBootstrapping x) (error_text x) (restoreWarning x) (migrationRequired x) (pendingPassword x) (lastSeedRecoveryNotFound x) (login_attempts x) (f (quic_manager x)).

(** ** Values *)

(** [v.k = w] in a spread copy; [undefined] leaves the property out *)
Definition with_prop (k : jstr) (w : option json) (v : json) : json :=
  match w with
  | Some w => Tokens.spread_set k w v
  | None => JObj (mdelete k (Tokens.spread v))
  end.

(** [a === b] of two properties; objects of two answers are never the same *)
Definition strict_eq (a b : option json) : bool :=
  match a, b with
  | None, None | Some JNull, Some JNull => true
  | Some (JBool x), Some (JBool y) => bool_decide (x = y)
  | Some (JNum x), Some (JNum y) => x =? y
  | Some (JDec m e), Some (JDec m' e') => (m =? m') && (e =? e')%nat
  | Some (JStr x), Some (JStr y) => bool_decide (x = y)
  | _, _ => false
  end.

(** [s.replaceAll(/\s+/g, '_')] *)
Fixpoint underscores (in_gap : bool) (s : jstr) : jstr :=
  match s with
  | [] => []
  | c :: s' =>
      if is_space c then if in_gap then underscores true s' else "_"%char :: underscores true s'
      else c :: underscores false s'
  end.

(** [s.split(t)] up to the first [t]: what is before it, and what is behind *)
Fixpoint split_first (t s : jstr) : jstr * option jstr :=
  if startsWith t s then ([], Some (drop (length t) s))
  else match s with [] => ([], None) | c :: s' => let r := split_first t s' in (c :: r.1, r.2) end.

Definition isSecureStorageUnavailableError (e : error) : bool :=
  let m := toLowerCase (message e) in
  includes (js "cryptofailedexception") m || includes (js "keystore") m || includes (js "strongbox") m
  || includes (js "secure hardware") m || includes (js "authentication tag verification failed") m
  || includes (js "user not authenticated") m || includes (js "biometry") m || includes (js "biometric") m
  || (includes (js "keychain") m && includes (js "unavailable") m).

Definition MIGRATION_REQUIRED_KEY : jstr := js "sovnet_migration_required".
Definition MIGRATION_REQUIRED_REASON_KEY : jstr := js "sovnet_migration_required_reason".

(** [/^did:zhtp:[0-9a-f]{64}$/] *)
Definition strict_did (s : jstr) : bool :=
  startsWith Auth.DID_PREFIX s && Identifiers.hex64 (drop (length Auth.DID_PREFIX) s).

(** [v ?? ''], on which a method of strings is called *)
Definition string_or_empty (v : option json) : option jstr :=
  match v with None | Some JNull => Some [] | Some (JStr s) => Some s | Some _ => None end.

(** ** The mock flag, a variable of the module, and whether listeners are told *)

Definition mock_flag : Type := option bool.
Definition getUseMockService (cachedUseMockService : mock_flag) : bool :=
  match cachedUseMockService with Some b => b | None => false end.
Definition setUseMockService (_value : bool) (cachedUseMockService : mock_flag) : mock_flag * bool :=
  let enforcedValue := false in
  if bool_decide (cachedUseMockService = Some enforcedValue) then (cachedUseMockService, false)
  else (Some enforcedValue, true).
Definition initializeMockServiceFlag (_removed : bool) (cachedUseMockService : mock_flag) : mock_flag := Some false.

Section AuthContext.
Context (nativeModule : option (jstr → bool)) (wallet : jstr → bool).
Context (NativeZhtpApi phone_os android NativeStorageModule Native : bool).
Context (DEFAULT_SOV_NODE_URL : jstr) (BIOMETRY_NONE : option jstr) (base64ToHex : jstr → jstr).
Abbreviation prog := (Outside.prog auth).

Definition ignore {A} (t : prog A) : prog unit := Auth.ignore t.
Definition set (f : auth → auth) : prog unit := modify f.

(** ** NativeStorage.ts: only on Android *)

Definition STORAGE_MODULE : jstr := js "NativeStorage".
Definition NativeStorage_setItem (key value : jstr) : prog unit :=
  if android && NativeStorageModule then call (native STORAGE_MODULE (js "setItem") [JStr key; JStr value]);; ret tt
  else ret tt.
Definition NativeStorage_getItem (key : jstr) : prog json :=
  if android && NativeStorageModule then call (native STORAGE_MODULE (js "getItem") [JStr key]) else ret JNull.
Definition NativeStorage_removeItem (key : jstr) : prog unit :=
  if android && NativeStorageModule then call (native STORAGE_MODULE (js "removeItem") [JStr key]);; ret tt
  else ret tt.

(** [storage]: NativeStorage on Android, AsyncStorage elsewhere *)
Definition storage_setItem (key value : jstr) : prog unit :=
  if android then NativeStorage_setItem key value else call (setItem key value).
Definition storage_removeItem (key : jstr) : prog unit :=
  if android then NativeStorage_removeItem key else call (removeItem key).

(** ** KyberKeyService.ts; the reason of a failure is a text of the log *)

Inductive KyberKeyUpdateResult := kyber_ok (did text : option json) | kyber_failed (status : option Z).

Definition KYBER_ROUTE : jstr := js "/api/v1/identity/update-kyber-key".

Definition status_of (e : error) : option Z := match e with Js (Quic.QuicError s _ _ _) => Some s | _ => None end.

Definition publishKyberKey (timestampSec : Z) : prog KyberKeyUpdateResult :=
  bindR (NativeIdentity.buildKyberKeyUpdate nativeModule timestampSec) (λ r,
    match r with
    | inr (JStr bodyJson) =>
        match json_parse bodyJson with
        | None => ret (kyber_failed None)
        | Some body =>
            try_catch
              (resp ← call (quicRequest KYBER_ROUTE
                 (Quic.mkOptions (Some Quic.POST) (Some bodyJson) json_headers None None None None));
               did ← dot resp (js "did");
               ret (kyber_ok did (jget (js "message") resp)))
              (λ e, match e with
                    | Js (Quic.QuicError _ _ _ _) => ret (kyber_failed (status_of e))
                    | _ => dot body (js "did");; ret (kyber_failed None)
                    end)
        end
    | _ => ret (kyber_failed None)
    end).

Definition publishKyberKeyBestEffort : prog KyberKeyUpdateResult :=
  now ← call Date_now; publishKyberKey (now / 1000).

(** [void publishKyberKeyBestEffort(..)] *)
Definition publish_kyber : prog unit := void (publishKyberKeyBestEffort;; ret tt).

(** ** Shared steps *)

Definition setMigrationRequiredFlag (reason : option jstr) : prog unit :=
  set (setMigrationRequired true);;
  call (setItem MIGRATION_REQUIRED_KEY (js "1"));;
  match reason with
  | Some r => if truthy r then call (setItem MIGRATION_REQUIRED_REASON_KEY r) else ret tt
  | None => ret tt
  end.

Definition clearMigrationRequiredFlag : prog unit :=
  set (setMigrationRequired false);;
  call (removeItem MIGRATION_REQUIRED_KEY);;
  call (removeItem MIGRATION_REQUIRED_REASON_KEY).

(** the name and the username of the chain, [None] when nothing differs *)
Definition hydrated (identity record : json) : option json :=
  let named :=
    match jget (js "display_name") record with
    | Some (JStr n) => if truthy n && negb (strict_eq (Some (JStr n)) (jget (js "displayName") identity)) then Some n else None
    | _ => None
    end in
  let renamed := negb (strict_eq (jget (js "username") record) (jget (js "username") identity)) in
  let next := match named with Some n => with_prop (js "displayName") (Some (JStr n)) identity | None => identity end in
  if renamed then Some (with_prop (js "username") (jget (js "username") record) next)
  else match named with Some _ => Some next | None => None end.

(** [None]: the same object *)
Definition hydrateIdentityFromChain (identity : json) : prog (option json) :=
  match jget (js "did") identity with
  | Some did =>
      if negb (jtruthy did) then ret None
      else
        record ← Auth.fetchIdentityRecord (js_String did);
        if negb (jtruthy record) then ret None
        else
          match hydrated identity record with
          | None => ret None
          | Some next => ignore (Vault.setIdentity next Vault.default_options);; ret (Some next)
          end
  | None => ret None
  end.

Definition adopt_hydrated (identity : json) : prog json :=
  h ← hydrateIdentityFromChain identity;
  match h with
  | Some next => set (setCurrentIdentity next);; ret next
  | None => ret identity
  end.

(** [NativeModules.NativeIdentityProvisioning.restoreIdentityToHandleStore(id)] when
    there is an id and a module *)
Definition restore_handle {A} (identity : json) (skip : A) (k : json → prog A) : prog A :=
  if otruthy (jget (js "identityId") identity) && bool_decide (is_Some nativeModule)
  then result ← NativeIdentity.restoreIdentityToHandleStore nativeModule (default JNull (jget (js "identityId") identity));
       k result
  else ret skip.

Definition or_undefined (v : option json) : jstr := match v with Some w => js_String w | None => js "undefined" end.

Definition skipped_warning (result : json) : jstr :=
  js "Handle store restore skipped: " ++ or_undefined (jget (js "reason") result)
  ++ (if otruthy (jget (js "error") result)
      then js " (" ++ or_undefined (jget (js "error") result) ++ js ")" else []).

Definition restore_with_warning (identity : json) : prog unit :=
  try_catch
    (restore_handle identity tt (λ result,
       if Auth.is_status (js "restored") result then set (setRestoreWarning None)
       else if Auth.is_status (js "skipped") result then set (setRestoreWarning (Some (skipped_warning result)))
       else ret tt))
    (λ _, set (setRestoreWarning (Some (js "Handle store restore failed")))).

(** [setError(null); setIsLoading(true); try { t } catch { .. } finally { .. }] *)
Definition shown {A} (fallback : jstr) (t : prog A) : prog A :=
  try_catch t (λ err, set (setError (Some (str_or (message err) fallback)));; throw err).
Definition loading {A} (t : prog A) : prog A :=
  set (setError None);; set (setIsLoading true);; try_finally t (set (setIsLoading false)).

(** ** Start-up *)

Definition did_ok (identity : json) : bool :=
  match jget (js "did") identity with Some (JStr d) => Identifiers.did_valid (Identifiers.isValidDid d) | _ => false end.

Definition restore_cached (identity : json) : prog unit :=
  if negb (did_ok identity) then
    ignore Vault.clearIdentity;;
    set (setCurrentIdentity JNull)
  else
    set (setCurrentIdentity identity);;
    ignore (restore_handle identity JNull (λ result, ret result));;
    void (ignore (h ← hydrateIdentityFromChain identity;
                  match h with Some next => set (setCurrentIdentity next) | None => ret tt end));;
    publish_kyber.

Definition restoreIdentity : prog unit :=
  try_finally
    (ignore
       (migrationFlag ← call (getItem MIGRATION_REQUIRED_KEY);
        if match migrationFlag with Some f => truthy f | None => false end then
          set (setMigrationRequired true);;
          Vault.cleanAllIdentities;;
          set (setCurrentIdentity JNull)
        else
          ignore (lobby ← Vault.loadLobbySession;
                  if jtruthy lobby then set (setLobbySession lobby) else ret tt);;
          identity ← Vault.getIdentityIfAvailable true;
          if jtruthy identity then restore_cached identity else ret tt))
    (set (setIsBootstrapping false)).

(** ** Sign-in, sign-up, recovery *)

Definition blocked_message (status : RateLimiter.RateLimitStatus) : jstr :=
  str_or_else (RateLimiter.reason status) (js "Too many login attempts. Please try again later.").

(** [rateLimiter.isBlocked], [recordAttempt] and [clearAttempts] on the clock *)
Definition check_limiter (id : jstr) : prog RateLimiter.RateLimitStatus :=
  now ← call Date_now;
  modify_get (λ x, let r := RateLimiter.isBlocked now id (login_attempts x) in (upd_attempts (λ _, r.2) x, r.1)).
Definition record_attempt (id : jstr) : prog unit :=
  now ← call Date_now; set (upd_attempts (RateLimiter.recordAttempt now id)).

(** what follows the check of the password, and what follows the limiter *)
Definition signed_in (identity : json) : prog json :=
  Vault.setIdentity identity Vault.default_options;;
  set (setCurrentIdentity identity);;
  restore_with_warning identity;;
  identity ← adopt_hydrated identity;
  publish_kyber;;
  ret identity.
Definition unlimited (id password : jstr) : prog json :=
  identity ← Auth.signIn nativeModule wallet (Auth.mkCredentials id password);
  set (upd_attempts (RateLimiter.clearAttempts id));;
  signed_in identity.

Definition signIn (identity_id password : jstr) : prog json :=
  let normalizedIdentityId := trim identity_id in
  loading
    (try_catch
       (rateLimitStatus ← check_limiter normalizedIdentityId;
        if RateLimiter.blocked rateLimitStatus then
          set (setError (Some (blocked_message rateLimitStatus)));;
          throw (Error (blocked_message rateLimitStatus))
        else unlimited normalizedIdentityId password)
       (λ err, record_attempt normalizedIdentityId;;
               set (setError (Some (str_or (message err) (js "Sign in failed"))));;
               throw err)).

Definition createIdentity (data : Auth.CreateIdentityData) : prog json :=
  loading (shown (js "Identity creation failed")
    (identity ← Auth.createIdentity nativeModule wallet phone_os DEFAULT_SOV_NODE_URL data;
     set (set_pending (Some (Auth.new_password data)));;
     ret identity)).

Definition checkUsernameAvailability (username : jstr) : prog bool := Auth.checkUsernameAvailability username.

(** the two parts of [data.split('|||')] that are read *)
Definition backup_parts (data : jstr) : jstr * option jstr :=
  let '(file, rest) := split_first (js "|||") data in
  (file, match rest with Some r => Some (split_first (js "|||") r).1 | None => None end).

Definition recover (method data : jstr) : prog json :=
  if bool_decide (method = js "seed") then Auth.recoverWithSeed set_notFound nativeModule wallet data
  else if bool_decide (method = js "backup") then
    let '(fileContent, password) := backup_parts data in
    Auth.recover_by wallet NativeZhtpApi DEFAULT_SOV_NODE_URL (js "recoverWithBackup")
      [JStr fileContent; match password with Some p => JStr p | None => JNull end]
  else if bool_decide (method = js "social") then
    guardianIds ← or_syntax_error (json_parse data);
    Auth.recover_by wallet NativeZhtpApi DEFAULT_SOV_NODE_URL (js "recoverWithSocial") [guardianIds]
  else throw (Error (js "Unknown recovery method")).

Definition NOT_FOUND_REASON : jstr := js "seed_recovery_not_found".

Definition recoverIdentity (method data : jstr) : prog json :=
  loading
    (try_catch
       (identity ← recover method data;
        notFound ← gets lastSeedRecoveryNotFound;
        if bool_decide (method = js "seed") && (notFound : bool) then
          setMigrationRequiredFlag (Some NOT_FOUND_REASON);;
          set (setCurrentIdentity JNull);;
          throw Auth.MIGRATION_REQUIRED
        else
          Vault.setIdentity identity Vault.default_options;;
          set (setCurrentIdentity identity);;
          restore_with_warning identity;;
          publish_kyber;;
          adopt_hydrated identity)
       (λ err,
          let m := str_or (message err) (js "Identity recovery failed") in
          if includes (js "MIGRATION_REQUIRED") m then
            setMigrationRequiredFlag (Some NOT_FOUND_REASON);;
            set (setCurrentIdentity JNull);;
            set (setError None);;
            throw err
          else set (setError (Some m));; throw err)).

(** [setCurrentIdentity] of the context: after the seed phrase was confirmed *)
Definition save_pending (identity : json) : prog unit :=
  pending ← gets pendingPassword;
  match pending, jget (js "did") identity with
  | Some password, Some (JStr did) =>
      if truthy password && strict_did did then
        Vault.saveLoginCredentials did password;;
        set (set_pending None)
      else ret tt
  | _, _ => ret tt
  end.

Definition setIdentity (identity : json) : prog unit :=
  shown (js "Failed to set identity")
    (Vault.setIdentity identity Vault.default_options;;
     save_pending identity;;
     set (setCurrentIdentity identity);;
     restore_with_warning identity;;
     publish_kyber;;
     adopt_hydrated identity;;
     ret tt).

Definition migrateIdentityFromSeed (displayName seedPhrase : jstr) : prog (json * list jstr) :=
  loading (shown (js "Migration failed")
    (result ← Auth.migrateIdentityFromSeed nativeModule base64ToHex displayName seedPhrase;
     Vault.setIdentity result.1 Vault.default_options;;
     clearMigrationRequiredFlag;;
     ret result)).

(** ** The profile *)

(** the callbacks that need an identity *)
Definition with_identity (k : json → prog unit) : prog unit :=
  identity ← gets currentIdentity;
  match identity with
  | JNull => set (setError (Some (js "No identity to update")))
  | _ => loading (k identity)
  end.

Definition updateProfile (displayName : jstr) (avatar : option jstr) : prog unit :=
  with_identity (λ identity,
    shown (js "Failed to update profile")
      (let avatar := match avatar with Some a => if truthy a then Some (JStr a) else jget (js "avatar") identity
                                     | None => jget (js "avatar") identity end in
       let updated := with_prop (js "avatar") avatar (with_prop (js "displayName") (Some (JStr displayName)) identity) in
       Vault.setIdentity updated Vault.default_options;;
       set (setCurrentIdentity updated))).

Definition PLAIN_IDENTITY_KEY : jstr := js "zhtp_identity".

Definition updatePassphrase (_newPassphrase : jstr) : prog unit :=
  with_identity (λ identity,
    shown (js "Failed to update passphrase")
      (storage_setItem PLAIN_IDENTITY_KEY (stringify identity);;
       set (setCurrentIdentity identity))).

Definition updateBiometric (enabled : bool) : prog unit :=
  with_identity (λ identity,
    shown (js "Failed to update biometric setting")
      (Vault.setIdentity identity (Vault.mkStorageOptions enabled true);;
       set (setCurrentIdentity identity))).

(** ** Sign-out *)

Definition signOut : prog unit :=
  set (setError None);; set (setRestoreWarning None);; set (setIsLoading true);;
  try_finally
    (shown (js "Sign out failed")
       (Vault.clearIdentity;;
        set (setCurrentIdentity JNull);;
        Vault.clearLobbySession;;
        set (setLobbySession JNull)))
    (set (setIsLoading false)).

Definition forceCleanupAndSignOut (reason : option jstr) : prog unit :=
  set (setError None);; set (setRestoreWarning None);; set (setIsLoading true);;
  try_finally
    (shown (js "Cleanup failed")
       (setMigrationRequiredFlag reason;;
        Vault.cleanAllIdentities;;
        set (setCurrentIdentity JNull)))
    (set (setIsLoading false)).

Definition clearError : prog unit := set (setError None).
Definition clearRestoreWarning : prog unit := set (setRestoreWarning None).

(** ** Reading *)

Definition loadIdentityOnDemand : prog json :=
  try_catch
    (current ← gets currentIdentity;
     if jtruthy current then ret current
     else
       identity ← Vault.getIdentity;
       if jtruthy identity then
         set (setCurrentIdentity identity);;
         ignore (Vault.syncBackup identity);;
         ret identity
       else ret JNull)
    (λ _, ret JNull).

Definition isBiometricAvailable : prog bool := Vault.enableBiometricAuth BIOMETRY_NONE.
Definition getBiometryType : prog (option jstr) := Vault.getBiometryType.

(** a source of the seed phrase: what it gave, and whether secure storage failed *)
Definition guarded_source (unavailable : bool) (t : prog json) : prog (json * bool) :=
  try_catch (v ← t; ret (v, unavailable)) (λ e, ret (JNull, unavailable || isSecureStorageUnavailableError e)).

Definition from_wallet (identity : json) : prog json :=
  match jget (js "identityId") identity with
  | Some id => if jtruthy id then
                 stored ← Vault.retrieveMasterSeedPhrase wallet (js_String id);
                 ret (match stored with Some s => JStr s | None => JNull end)
               else ret JNull
  | None => ret JNull
  end.

Definition joined (words : list json) : jstr :=
  JsString.join (js " ") (map (λ v, match v with JNull => [] | _ => js_String v end) words).

(** the vault throws on when its error is not one of the storage *)
Definition from_vault (unavailable : bool) : prog (json * bool) :=
  try_catch
    (vault ← Vault.getSeedPhraseWithBiometric BIOMETRY_NONE;
     ret (match vault with Some words => JStr (joined words) | None => JNull end, unavailable))
    (λ e, if isSecureStorageUnavailableError e then ret (JNull, true) else throw e).

(** the id or the DID to ask the native side for *)
Definition native_did : prog json :=
  match nativeModule with
  | None => ret JNull
  | Some has => if has (js "getCurrentIdentityDid")
                then try_catch (call (native NativeIdentity.MODULE (js "getCurrentIdentityDid") [])) (λ _, ret JNull)
                else throw TypeError
  end.
Definition identityIdOrDid (identity : json) : prog json :=
  if otruthy (jget (js "identityId") identity) then ret (default JNull (jget (js "identityId") identity))
  else if otruthy (jget (js "did") identity) then ret (default JNull (jget (js "did") identity))
  else native_did.

Definition SEED_UNAVAILABLE : error :=
  Error (js "Could not retrieve seed phrase from this device. If you have your 24-word seed phrase written down, enter it manually to recover.").

Definition from_native (id : json) (unavailable : bool) : prog (json * bool) :=
  '(v, unavailable) ←
    (if android then guarded_source unavailable (NativeIdentity.getSeedPhraseFromStoredIdentity nativeModule (js_String id))
     else ret (JNull, unavailable));
  if jtruthy v then ret (v, unavailable)
  else guarded_source unavailable (NativeIdentity.getSeedPhraseForBackup nativeModule id).

Definition getMasterSeedPhrase : prog json :=
  identity ← gets currentIdentity;
  '(v, unavailable) ← guarded_source false (from_wallet identity);
  if jtruthy v then ret v
  else
    '(v, unavailable) ← from_vault unavailable;
    match v with
    | JNull =>
        id ← identityIdOrDid identity;
        '(v, unavailable) ← (if jtruthy id then from_native id unavailable else ret (JNull, unavailable));
        if jtruthy v then ret v
        else if (unavailable : bool) then throw SEED_UNAVAILABLE
        else ret JNull
    | _ => ret v
    end.

(** ** Usernames *)

Definition is_set (v : option json) : bool :=
  match v with None | Some JNull => false | Some (JStr s) => truthy s | Some _ => true end.
Definition needsUsernameClaim (identity : json) : bool :=
  jtruthy identity && negb (is_set (jget (js "username") identity))
  && negb (is_set (jget (js "displayName") identity)).

Definition claimUsername (username : jstr) : prog unit :=
  id ← gets currentIdentity;
  if negb (jtruthy id) then throw (Error (js "No signed-in identity"))
  else
    result ← Auth.claimUsername username;
    name ← dot result (js "username");
    let next := with_prop (js "displayName") name (with_prop (js "username") name id) in
    ignore (Vault.setIdentity next Vault.default_options);;
    set (setCurrentIdentity next).

(** ** Username and password *)

Definition adoptLobbySession (session : json) : prog unit :=
  Vault.saveLobbySession session;;
  set (setLobbySession session).

Definition loadLocalWallet (did : json) (username : option json) : prog json :=
  local ← try_catch (NativeIdentity.getLocalIdentity nativeModule did) (λ _, ret JNull);
  if negb (Auth.local_found local) then ret JNull else ret (Auth.local_identity local username).

(** [bindQuicIdentity] of what may be a string *)
Definition bind_quic (did : option json) : prog unit :=
  set (upd_manager (QuicSession.bindIdentity (match did with Some (JStr d) => Some d | _ => None end))).

(** what the rollback of a registration undoes *)
Definition roll_back (handle : Lobby.RegisterHandle) (createdIdentity : option json) : prog unit :=
  ignore (Lobby.opaqueRegisterCancel Native handle);;
  match createdIdentity with
  | Some identity =>
      bind_quic None;;
      ignore Vault.clearIdentity;;
      ignore Vault.clearLoginCredentials;;
      match jget (js "identityId") identity with
      | Some id => if jtruthy id then ignore (Vault.cleanSpecificIdentity (js_String id)) else ret tt
      | None => ret tt
      end
  | None => ret tt
  end.

Definition register_failed {A} (handle : Lobby.RegisterHandle) (createdIdentity : option json) (err : error) : prog A :=
  roll_back handle createdIdentity;;
  set (setError (Some (str_or (message err) (js "Registration failed"))));;
  throw err.

(** what follows the creation of the wallet *)
Definition register_wallet (handle : Lobby.RegisterHandle) (username password : jstr) (identity : json) : prog (json * list jstr) :=
  Vault.setIdentity identity Vault.default_options;;
  bind_quic (jget (js "did") identity);;
  ignore (restore_handle identity JNull (λ result, ret result));;
  Lobby.opaqueRegisterComplete Native handle password (default JNull (jget (js "did") identity));;
  session ← Lobby.opaqueLogin Native username password;
  adoptLobbySession session;;
  ignore (Auth.claimUsername username);;
  seed ← match string_or_empty (jget (js "masterSeedPhrase") identity) with Some s => ret s | None => throw TypeError end;
  ret (identity, List.filter truthy (Vault.split_spaces (trim seed))).

(** the wallet and its credential, or neither *)
Definition registration (handle : Lobby.RegisterHandle) (displayName username password : jstr) : prog (json * list jstr) :=
  identity ← try_catch (createIdentity (Auth.mkCreate displayName password)) (register_failed handle None);
  try_catch (register_wallet handle username password identity) (register_failed handle (Some identity)).

(** the spinner is set before the first round, which no [finally] covers *)
Definition registerAccount (displayName password : jstr) : prog (json * list jstr) :=
  set (setError None);; set (setIsLoading true);;
  let username := underscores false (toLowerCase (trim displayName)) in
  handle ← Lobby.opaqueRegisterBegin Native username password;
  try_finally (registration handle (trim displayName) username password) (set (setIsLoading false)).

(** [null] when the key is not on this device *)
Definition enter_session (username password : jstr) : prog json :=
  session ← Lobby.opaqueLogin Native username password;
  adoptLobbySession session;;
  identity ← loadLocalWallet (default JNull (jget (js "did") session)) (jget (js "username") session);
  if jtruthy identity then setIdentity identity;; ret identity else ret JNull.

Definition passwordSignIn (username password : jstr) : prog json :=
  loading (shown (js "Sign-in failed") (enter_session (toLowerCase (trim username)) password)).

Definition RESTORE_FIRST : error :=
  Error (js "Restore your wallet on this device before upgrading this account.").

Definition upgradeLegacyAccount (username password : jstr) : prog json :=
  loading (shown (js "Account upgrade failed")
    (did ← Vault.getIdentityId;
     match did with
     | Some d =>
         if truthy d then
           let normalized := toLowerCase (trim username) in
           handle ← Lobby.opaqueRegisterBegin Native normalized password;
           try_catch (Lobby.opaqueRegisterComplete Native handle password (JStr d))
             (λ err, Lobby.opaqueRegisterCancel Native handle;; throw err);;
           enter_session normalized password
         else throw RESTORE_FIRST
     | None => throw RESTORE_FIRST
     end)).

End AuthContext.

(** * Properties *)

Section Laws.
Context (nativeModule : option (jstr → bool)) (wallet : jstr → bool).
Context (NativeZhtpApi phone_os android NativeStorageModule Native : bool).
Context (DEFAULT_SOV_NODE_URL : jstr) (BIOMETRY_NONE : option jstr) (base64ToHex : jstr → jstr).
Context {D : Type} (handle : ∀ R : Set, req R → D → (error + R) * D).
Abbreviation run := (solo handle).

(** a field of the state that a call does not write *)
Definition same {F} (f : auth → F) (s s' : auth) : Prop := f s' = f s.
#[local] Instance same_preorder {F} (f : auth → F) : PreOrder (same f).
Proof. split; [done|]. intros x y z H1 H2. unfold same in *. congruence. Qed.

Definition anything (s s' : auth) : Prop := True.
#[local] Instance anything_preorder : PreOrder anything.
Proof. by split. Qed.

Inductive operation :=
| OpStart
| OpSignIn (identity_id password : jstr)
| OpCreate (data : Auth.CreateIdentityData)
| OpRecover (method data : jstr)
| OpSetIdentity (identity : json)
| OpMigrate (displayName seedPhrase : jstr)
| OpUpdateProfile (displayName : jstr) (avatar : option jstr)
| OpUpdatePassphrase (newPassphrase : jstr)
| OpUpdateBiometric (enabled : bool)
| OpSignOut
| OpCleanup (reason : option jstr)
| OpLoad
| OpSeed
| OpClaim (username : jstr)
| OpRegister (displayName password : jstr)
| OpPasswordSignIn (username password : jstr)
| OpUpgrade (username password : jstr).

Definition perform (op : operation) : Outside.prog auth unit :=
  let drop {A} (t : Outside.prog auth A) : Outside.prog auth unit := t;; ret tt in
  match op with
  | OpStart => restoreIdentity nativeModule
  | OpSignIn i p => drop (signIn nativeModule wallet i p)
  | OpCreate data => drop (createIdentity nativeModule wallet phone_os DEFAULT_SOV_NODE_URL data)
  | OpRecover m d => drop (recoverIdentity nativeModule wallet NativeZhtpApi DEFAULT_SOV_NODE_URL m d)
  | OpSetIdentity i => setIdentity nativeModule i
  | OpMigrate n p => drop (migrateIdentityFromSeed nativeModule base64ToHex n p)
  | OpUpdateProfile n a => updateProfile n a
  | OpUpdatePassphrase p => updatePassphrase android NativeStorageModule p
  | OpUpdateBiometric b => updateBiometric b
  | OpSignOut => signOut
  | OpCleanup reason => forceCleanupAndSignOut reason
  | OpLoad => drop loadIdentityOnDemand
  | OpSeed => drop (getMasterSeedPhrase nativeModule wallet android BIOMETRY_NONE)
  | OpClaim u => claimUsername u
  | OpRegister n p => drop (registerAccount nativeModule wallet phone_os Native DEFAULT_SOV_NODE_URL n p)
  | OpPasswordSignIn u p => drop (passwordSignIn nativeModule Native u p)
  | OpUpgrade u p => drop (upgradeLegacyAccount nativeModule Native u p)
  end.

(** ended with the spinner off *)
Definition idle (t : Outside.prog auth unit) : Prop :=
  ∀ s d, isLoading s = false → ∃ r s' d', run t s d = Some (r, s', d') ∧ isLoading s' = false.

Lemma idle_settled t : settled handle (same isLoading) t → idle t.
Proof. intros H s d Hl. destruct (H s d) as (r & s' & d' & E & HR). exists r, s', d'. split; [done|]. by rewrite HR. Qed.

Lemma loading_idle {A} (t : Outside.prog auth A) s d :
  settled handle anything t → ∃ r s' d', run (loading t) s d = Some (r, s', d') ∧ isLoading s' = false.
Proof. intros H. unfold loading, set. enter. destruct (H (setIsLoading true (setError None s)) d) as (r & s1 & d1 & -> & _). enter. by eexists _, _, _. Qed.

Lemma loading_idle_drop {A} (t : Outside.prog auth A) : settled handle anything t → idle (loading t;; ret tt).
Proof.
  intros H s d _. destruct (loading_idle t s d H) as (r & s' & d' & E & Hl). enter. rewrite E.
  destruct r as [e|a]; enter; by eexists _, s', d'.
Qed.

Lemma with_identity_idle k : (∀ i, settled handle anything (k i)) → idle (with_identity k).
Proof.
  intros H s d Hl. unfold with_identity. enter.
  destruct (currentIdentity s); [by eexists _, _, _|apply loading_idle, H..].
Qed.

Lemma sign_off_idle t : settled handle anything t →
  idle (set (setError None);; set (setRestoreWarning None);; set (setIsLoading true);; try_finally t (set (setIsLoading false))).
Proof.
  intros H s d _. unfold set. enter.
  destruct (H (setIsLoading true (setRestoreWarning None (setError None s))) d) as (r & s1 & d1 & -> & _).
  enter. by eexists _, _, _.
Qed.

Lemma register_idle name password s d :
  ∃ r s' d', run (perform (OpRegister name password)) s d = Some (r, s', d') ∧
    (isLoading s' = true →
     ∃ e s1, r = inl e ∧
       run (Lobby.opaqueRegisterBegin Native (underscores false (toLowerCase (trim name))) password)
         (setIsLoading true (setError None s)) d = Some (inl e, s1, d')).
Proof.
  cbn [perform]. unfold registerAccount, set. cbv zeta. enter.
  assert (settled handle anything (Lobby.opaqueRegisterBegin (S := auth) Native
    (underscores false (toLowerCase (trim name))) password)) as Hb by settled_through.
  destruct (Hb (setIsLoading true (setError None s)) d) as ([e|h] & s1 & d1 & E & _); rewrite E.
  - exists (inl e), s1, d1. split; [done|]. intros _. by exists e, s1.
  - assert (settled handle anything (registration nativeModule wallet phone_os Native DEFAULT_SOV_NODE_URL h (trim name)
      (underscores false (toLowerCase (trim name))) password)) as Hr by (settled_through; done).
    enter. destruct (Hr s1 d1) as (r & s2 & d2 & -> & _). destruct r as [e|a]; enter; by eexists _, _, _.
Qed.

(** C30: Every call of the provider ends, whatever the storage, the native modules
    and the node answer, and takes its spinner down with it; only a registration
    whose first round fails leaves it up. *)
Theorem calls_settle op s d :
  isLoading s = false →
  ∃ r s' d', run (perform op) s d = Some (r, s', d') ∧
    (isLoading s' = true →
     ∃ name password e s1, op = OpRegister name password ∧ r = inl e ∧
       run (Lobby.opaqueRegisterBegin Native (underscores false (toLowerCase (trim name))) password)
         (setIsLoading true (setError None s)) d = Some (inl e, s1, d')).
Proof.
  intros Hl.
  assert (idle (perform op) → ∃ r s' d', run (perform op) s d = Some (r, s', d') ∧
    (isLoading s' = true → ∃ name password e s1, op = OpRegister name password ∧ r = inl e ∧
       run (Lobby.opaqueRegisterBegin Native (underscores false (toLowerCase (trim name))) password)
         (setIsLoading true (setError None s)) d = Some (inl e, s1, d'))) as Hi.
  { intros H. destruct (H s d Hl) as (r & s' & d' & E & Hf). exists r, s', d'. split; [done|congruence]. }
  destruct op as [| | | | | | | | | | | | | |name password| |].
  15: { destruct (register_idle name password s d) as (r & s' & d' & E & H). exists r, s', d'. split; [done|].
        intros Hs. destruct (H Hs) as (e & s1 & -> & Hb). by exists name, password, e, s1. }
  all: apply Hi; cbn [perform].
  1,5,12-14: apply idle_settled; settled_through; done.
  1,2,3,4: (unfold signIn, createIdentity, recoverIdentity, migrateIdentityFromSeed; cbv zeta; apply loading_idle_drop; settled_through; done).
  1,2,3: (apply with_identity_idle; intros ?; settled_through; done).
  1,2: (apply sign_off_idle; settled_through; done).
  1,2: (unfold passwordSignIn, upgradeLegacyAccount; apply loading_idle_drop; settled_through; done).
Qed.


(** the attempts are cleared once the password was verified, and not before *)
Lemma unlimited_attempts id password s d :
  ∃ r s' d' verified, run (unlimited nativeModule wallet id password) s d = Some (r, s', d') ∧
    (verified = true ↔ ∃ identity s1 d1, run (Auth.signIn nativeModule wallet (Auth.mkCredentials id password)) s d = Some (inr identity, s1, d1)) ∧
    login_attempts s' = (if verified then RateLimiter.clearAttempts id (login_attempts s) else login_attempts s) ∧
    (verified = false → ∃ e, r = inl e).
Proof.
  assert (settled handle (same login_attempts) (Auth.signIn nativeModule wallet (Auth.mkCredentials id password))) as Hs
    by (settled_through; done).
  unfold unlimited. enter. destruct (Hs s d) as ([e|identity] & s1 & d1 & E & R1); rewrite E.
  { exists (inl e), s1, d1, false. split_and!; try done; [|by eexists]. split; [done|]. intros (? & ? & ? & ?). congruence. }
  assert (settled handle (same login_attempts) (signed_in nativeModule identity)) as Hr by (settled_through; done).
  unfold set, modify. enter. cbn [solo]. enter.
  destruct (Hr (upd_attempts (RateLimiter.clearAttempts id) s1) d1) as (r2 & s2 & d2 & E2 & R2).
  exists r2, s2, d2, true. split; [exact E2|]. split; [by split; [intros _; eauto|]|]. split; [|done]. rewrite R2. simpl. by rewrite R1.
Qed.

(** C24: Sign-in attempts are limited and counted: a name that is blocked is
    turned away after reading the clock, with no request to the keychain or the
    native module; otherwise the limiter lets exactly this attempt through, an
    attempt that fails anywhere is recorded against the name with its time, and
    the earlier ones are cleared exactly when the password was verified and the
    key restored, never before: a wrong password is counted
    with those before it. *)
Theorem sign_in_limited identity_id password s d now d1 :
  handle _ Date_now d = (inr now, d1) → (∀ e, ∃ t, (handle _ Date_now e).1 = inr t) →
  let id := trim identity_id in
  let check := RateLimiter.isBlocked now id (login_attempts s) in
  ∃ r s' d' verified, run (signIn nativeModule wallet identity_id password) s d = Some (r, s', d') ∧
    (verified = true ↔ RateLimiter.blocked check.1 = false ∧
       ∃ identity s1 d2, run (Auth.signIn nativeModule wallet (Auth.mkCredentials id password))
         (upd_attempts (λ _, check.2) (setIsLoading true (setError None s))) d1 = Some (inr identity, s1, d2)) ∧
    match r with
    | inr _ => verified = true ∧ login_attempts s' = RateLimiter.clearAttempts id check.2
    | inl e => error_text s' = Some (str_or (message e) (js "Sign in failed")) ∧
        ∃ t, login_attempts s' =
          RateLimiter.recordAttempt t id (if verified then RateLimiter.clearAttempts id check.2 else check.2)
    end ∧
    (RateLimiter.blocked check.1 = true →
     r = inl (Error (blocked_message check.1)) ∧ d' = (handle _ Date_now d1).2).
Proof.
  intros Hn Hc. cbv zeta. unfold signIn, loading, check_limiter, record_attempt, set. enter. rewrite Hn. cbn [fst snd].
  enter. change (login_attempts (setIsLoading true (setError None s))) with (login_attempts s). cbn [fst snd].
  set (check := RateLimiter.isBlocked now (trim identity_id) (login_attempts s)).
  destruct (RateLimiter.blocked check.1) eqn:Hb.
  - enter. destruct (Hc d1) as [t ->]. enter. do 3 eexists. exists false. split; [done|].
    split; [by split; [|intros [? _]]|]. split; [|done]. split; [done|]. by exists t.
  - destruct (unlimited_attempts (trim identity_id) password
      (upd_attempts (λ _, check.2) (setIsLoading true (setError None s))) d1) as (r & s' & d' & verified & -> & Hv & Ha & Hf).
    assert (verified = true ↔ false = false ∧ ∃ identity s1 d2, run (Auth.signIn nativeModule wallet (Auth.mkCredentials (trim identity_id) password))
         (upd_attempts (λ _, check.2) (setIsLoading true (setError None s))) d1 = Some (inr identity, s1, d2)) as Hv'
      by (rewrite Hv; split; [intros H; split; [reflexivity|exact H]|intros [_ H]; exact H]).
    destruct r as [e|identity]; enter.
    + destruct (Hc d') as [t ->]. enter. do 3 eexists. exists verified. split; [done|]. split; [exact Hv'|]. split; [|done].
      split; [done|]. exists t. simpl in *. by rewrite Ha.
    + do 3 eexists. exists verified. split; [done|]. split; [exact Hv'|]. split; [|done].
      destruct verified; [by split|]. by destruct (Hf eq_refl).
Qed.


(** ** With a storage *)

Section WithStorage.
Context (view : D → contents) {promises : Storage handle view} {erasing : Erases handle view}.

(** nothing of an account is left: its entries, the login credentials, the session *)
Definition no_account (c : contents) : Prop :=
  Vault.absent c ∧ internet c !! Vault.LOGIN_CREDENTIAL_SERVER = None.

Lemma no_account_items k c : no_account c → no_account (set_items k None c).
Proof.
  intros [(H1 & H2 & H3) H4]. split; [|done]. split; [done|]. split; by apply items_erase.
Qed.

Lemma cleanSpecificIdentity_run id (s : auth) d :
  no_account (view d) → ∃ r d', run (Vault.cleanSpecificIdentity id) s d = Some (r, s, d') ∧ no_account (view d').
Proof.
  intros H. unfold Vault.cleanSpecificIdentity. destruct (negb (truthy id)); [enter; by eexists _, d|]. enter.
  match goal with |- context [handle _ (native ?m ?f ?a) d] => pose proof (native_apart m f a d) as Hn;
    destruct (handle _ (native m f a) d) as [r d1] end.
  cbn [fst snd] in *. rewrite <-Hn in H. destruct r as [e|v]; enter; [by eexists _, d1|].
  answer_by handle view promises c d2 L. destruct L as [L _]. rewrite <-L in H.
  destruct c as [e|[did|]]; enter; [by eexists _, d2| |by eexists _, d2].
  destruct (includes id did); [|enter; by eexists _, d2]. enter.
  destruct (erases_items Vault.IDENTITY_ID_ASYNC_STORAGE d2) as (d3 & -> & Hd). eexists _, d3. split; [done|].
  rewrite Hd. by apply no_account_items.
Qed.

Lemma clear_all_run (s : auth) d :
  ∃ d', run (Vault.clearIdentity) s d = Some (inr tt, s, d') ∧ Vault.absent (view d').
Proof.
  destruct (Vault.clearIdentity_run handle view s d) as (r & d' & Hr & _ & Ha). exists d'.
  enough (r = inr tt) as -> by auto.
  revert Hr. unfold Vault.clearIdentity. enter.
  destruct (erases_generic Vault.IDENTITY_KEYCHAIN_SERVICE d) as (d1 & -> & _). enter.
  destruct (erases_items Vault.IDENTITY_BACKUP_STORAGE d1) as (d2 & -> & _). enter.
  destruct (erases_items Vault.IDENTITY_ID_ASYNC_STORAGE d2) as (d3 & -> & _). enter. congruence.
Qed.

Lemma clearLoginCredentials_run (s : auth) d :
  Vault.absent (view d) → ∃ d', run Vault.clearLoginCredentials s d = Some (inr tt, s, d') ∧ no_account (view d').
Proof.
  intros H. unfold Vault.clearLoginCredentials. enter.
  destruct (erases_internet Vault.LOGIN_CREDENTIAL_SERVER d) as (d1 & -> & Hd). exists d1. split; [done|].
  split; [by rewrite Hd|]. rewrite Hd. apply internet_set.
Qed.

Lemma ignore_run {A} (t : Outside.prog auth A) s d r s' d' :
  run t s d = Some (r, s', d') → run (ignore t) s d = Some (inr tt, s', d').
Proof. intros E. unfold ignore, Auth.ignore. enter. rewrite E. destruct r; by enter. Qed.

Lemma unbound x : QuicSession.boundDid (QuicSession.bindIdentity None x) = None.
Proof. unfold QuicSession.bindIdentity. destruct (decide _) as [H|_]; [done|]. unfold QuicSession.close_live. simpl. by destruct (QuicSession.liveSessionId x). Qed.

(** the rollback of a registration *)
Lemma roll_back_run h identity (s : auth) d :
  ∃ s' d', run (roll_back Native h (Some identity)) s d = Some (inr tt, s', d') ∧
    no_account (view d') ∧ QuicSession.boundDid (quic_manager s') = None.
Proof.
  assert (settled handle anything (Lobby.opaqueRegisterCancel Native h)) as Hc by settled_through.
  unfold roll_back, bind_quic, set. enter.
  destruct (Hc s d) as (r & s1 & d1 & E & _). rewrite (ignore_run _ _ _ _ _ _ E). enter.
  destruct (clear_all_run (upd_manager (QuicSession.bindIdentity None) s1) d1) as (d2 & E2 & H2).
  rewrite (ignore_run _ _ _ _ _ _ E2). enter.
  destruct (clearLoginCredentials_run (upd_manager (QuicSession.bindIdentity None) s1) d2 H2) as (d3 & E3 & H3).
  rewrite (ignore_run _ _ _ _ _ _ E3). enter.
  assert (∃ d', run (match jget (js "identityId") identity with
    | Some id => if jtruthy id then ignore (Vault.cleanSpecificIdentity (js_String id)) else ret tt
    | None => ret tt end) (upd_manager (QuicSession.bindIdentity None) s1) d3
    = Some (inr tt, upd_manager (QuicSession.bindIdentity None) s1, d') ∧ no_account (view d')) as (d' & -> & H').
  { destruct (jget (js "identityId") identity) as [id|]; [|enter; by exists d3].
    destruct (jtruthy id); [|enter; by exists d3].
    destruct (cleanSpecificIdentity_run (js_String id) (upd_manager (QuicSession.bindIdentity None) s1) d3 H3) as (r4 & d4 & E4 & H4).
    rewrite (ignore_run _ _ _ _ _ _ E4). by exists d4. }
  eexists _, d'. split; [done|]. split; [done|]. apply unbound.
Qed.

Lemma register_failed_run {A} h created err (s : auth) d :
  ∃ s' d', run (register_failed (A := A) Native h created err) s d = Some (inl err, s', d') ∧
    (is_Some created → no_account (view d') ∧ QuicSession.boundDid (quic_manager s') = None).
Proof.
  unfold register_failed, set. destruct created as [identity|].
  - destruct (roll_back_run h identity s d) as (s1 & d1 & E & H). enter. rewrite E. enter. by eexists _, d1.
  - assert (settled handle anything (Lobby.opaqueRegisterCancel Native h)) as Hc by settled_through.
    destruct (Hc s d) as (r & s1 & d1 & E & _). unfold roll_back. enter. rewrite (ignore_run _ _ _ _ _ _ E). enter.
    eexists _, d1. split; [done|]. by intros [? [=]].
Qed.


End WithStorage.
End Laws.

(** The mock service is never used. *)
Fact mock_never_used (calls : list (mock_flag → mock_flag)) :
  (∀ f, f ∈ calls → (∃ v, f = λ c, (setUseMockService v c).1) ∨ ∃ b, f = initializeMockServiceFlag b) →
  getUseMockService (fold_left (λ c f, f c) calls None) = false.
Proof.
  intros H. assert (∀ c, c ≠ Some true → fold_left (λ c f, f c) calls c ≠ Some true) as Hc.
  { induction calls as [|f l IH]; [done|]. intros c Hc. simpl. apply IH; [intros g Hg; apply H; by right|].
    destruct (H f (list_elem_of_here _ _)) as [[v ->]|[b ->]]; [|done].
    unfold setUseMockService. by case_bool_decide. }
  specialize (Hc None ltac:(done)). by destruct (fold_left _ _ _) as [[]|].
Qed.

(** ** A phone, its native modules and a node *)

Definition hex64_of (c : string) : jstr := flat_map (λ _, js c) (seq 0 64).
Definition did_a : jstr := Auth.DID_PREFIX ++ hex64_of "a".
Definition did_b : jstr := Auth.DID_PREFIX ++ hex64_of "b".
Definition obj (l : list (string * jstr)) : json := JObj (map (λ kv, (js kv.1, JStr kv.2)) l).

Definition demo_modules (m : jstr) (_ : list json) : error + json :=
  match find (λ kv, bool_decide (js kv.1 = m))
    [("opaqueRegisterStart", obj [("stateId", js "s1"); ("requestB64", js "m1")]);
     ("provisionIdentity", obj [("did", did_a)]);
     ("createRegistrationProof", obj [("public_key", js "k")]);
     ("opaqueRegisterFinish", obj [("recordB64", js "r1")]);
     ("opaqueLoginStart", obj [("stateId", js "s2"); ("requestB64", js "m2")]);
     ("opaqueLoginFinish", obj [("msg3B64", js "m3"); ("sessionKeyB64", js "sk")]);
     ("getLocalIdentity", obj [("status", js "found"); ("identity_id", hex64_of "b"); ("did", did_b)])]%string with
  | Some kv => inr kv.2
  | None => inl no_answer
  end.

Definition ok_reply (v : json) : Quic.QuicRawResponse := Quic.mkResponse 200 [] (stringify v) true None.
Definition failing (status : Z) (text : string) : Quic.QuicRawResponse := Quic.mkResponse status [] (js text) false None.

(** the node refuses [refused]; everything else it takes *)
Definition demo_raw (refused path : jstr) : error + Quic.QuicRawResponse :=
  inr (if bool_decide (path = refused) then failing 500 "down"
       else if bool_decide (path = Auth.REGISTER) then failing 409 "Identity already registered"
       else if bool_decide (path = Lobby.LOGIN_FINISH) then ok_reply (obj [("session_token", js "t"); ("did", did_b); ("username", js "bob")]%string)
       else ok_reply (obj [("msg2_b64", js "x"); ("request_id", js "q")]%string)).

Definition demo_phone (refused : jstr) : phone :=
  mkPhone None demo_modules (λ _, inl no_answer) (demo_raw refused) (mkContents ∅ ∅ ∅).

Definition demo_has : option (jstr → bool) := Some (λ _, true).
Definition demo_register := registerAccount demo_has (λ _, false) true true (js "quic://node").

(** the state and the phone after a call *)
Definition afterwards {A} (t : Outside.prog auth A) (x : auth * phone) : auth * phone :=
  match solo phone_handle t x.1 x.2 with Some (_, s, p) => (s, p) | None => x end.

(** A registration whose first round is refused leaves the spinner up and says
    nothing of the error. *)
Fact spinner_left_up :
  let x := afterwards (demo_register (js "Ann") (js "long enough")) (initial, demo_phone Lobby.REGISTER_START) in
  isLoading x.1 = true ∧ error_text x.1 = None.
Proof. by vm_compute. Qed.

(** The password of a registration that failed is kept, and stored as the login
    password of the next identity, whatever its own password is. *)
Fact stale_password :
  let x := afterwards (demo_register (js "Ann") (js "of the failed one")) (initial, demo_phone Lobby.REGISTER_FINISH) in
  let y := afterwards (passwordSignIn demo_has true (js "bob") (js "of bob")) x in
  stored x.2 = mkContents ∅ ∅ ∅ ∧ currentIdentity x.1 = JNull ∧
  internet (stored y.2) !! Vault.LOGIN_CREDENTIAL_SERVER = Some (did_b, js "of the failed one").
Proof. vm_compute. done. Qed.

(** Changing the passphrase changes no credential; off Android it writes the whole
    identity, a master seed phrase included, as plain text, where a sign-out
    leaves it. *)
Fact identity_in_plain_storage identity p s q :
  currentIdentity s = identity → identity ≠ JNull →
  let x := afterwards signOut (afterwards (updatePassphrase false false p) (s, q)) in
  items (stored x.2) !! PLAIN_IDENTITY_KEY = Some (stringify identity) ∧
  internet (stored x.2) = internet (stored q).
Proof.
  intros Hi Hn.
  assert (∃ s1, afterwards (updatePassphrase false false p) (s, q) =
    (s1, upd_stored (set_items PLAIN_IDENTITY_KEY (Some (stringify identity))) q)) as [s1 ->].
  { unfold afterwards, updatePassphrase, with_identity, set. enter. rewrite Hi. eexists. by destruct identity. }
  generalize (stringify identity). intros text. cbv zeta. unfold afterwards. cbn. split; [|done].
  rewrite !lookup_partial_alter_ne by (by vm_compute). apply lookup_partial_alter_eq.
Qed.

(** An update of the profile stores the identity without access control, whatever
    [updateBiometric] had stored it with. *)
Fact profile_update_drops_biometrics displayName avatar :
  emits (λ e, match e with @Ev _ c _ =>
    match c with setGenericPassword _ _ _ o => accessControl o = false | _ => True end end)
    (updateProfile displayName avatar).
Proof.
  unfold updateProfile, with_identity, loading, shown, set, Vault.setIdentity, Vault.setItem_value.
  emits_through; done.
Qed.

Definition phrase_of (c : string) : jstr := flat_map (λ _, js c ++ js " ") (seq 0 24).
Definition known_phone (known : bool) : phone :=
  mkPhone None
    (λ m _, if bool_decide (m ∈ [js "restoreIdentityFromPhrase"; js "cleanKeystoreDirectory"])
            then inr (obj [("did", did_a)]%string) else inl no_answer)
    (λ _, inl no_answer)
    (λ _, inr (if known then ok_reply (JObj []) else failing 404 "not found")) (mkContents ∅ ∅ ∅).
Definition demo_recover (phrase : jstr) := recoverIdentity demo_has (λ _, false) false (js "quic://node") (js "seed") phrase.

(** The mark that an unknown phrase leaves is not taken away by a recovery that
    succeeds: the next start erases the recovered identity. *)
Fact recovered_identity_erased :
  let x := afterwards (demo_recover (phrase_of "wrong")) (initial, known_phone false) in
  let y := afterwards (demo_recover (phrase_of "right"))
             (x.1, mkPhone None (modules (known_phone true)) (node (known_phone true)) (raw (known_phone true)) (stored x.2)) in
  let z := afterwards (restoreIdentity demo_has) (initial, y.2) in
  jget (js "did") (currentIdentity y.1) = Some (JStr did_a) ∧
  items (stored y.2) !! Vault.IDENTITY_ID_ASYNC_STORAGE = Some did_a ∧
  currentIdentity z.1 = JNull ∧ Vault.absent (stored z.2).
Proof. vm_compute. done. Qed.

(** ** Witnesses *)

Lemma calls_settle_witness :
  ∃ r s' p, solo phone_handle (perform demo_has (λ _, false) true true true false true (js "quic://node") None id OpSignOut)
    initial (demo_phone []) = Some (r, s', p).
Proof.
  destruct (calls_settle demo_has (λ _, false) true true true false true (js "quic://node") None id phone_handle OpSignOut
    initial (demo_phone [])) as (r & s' & p & H & _); [reflexivity|]. exists r, s', p. exact H.
Defined.

(** five failures within the window *)
Definition blocked_bb : auth :=
  upd_attempts (λ _, [(js "bb", RateLimiter.mkAttempt 5 1699999990000 1699999995000)]) initial.

Lemma sign_in_limited_witness :
  ∃ s', solo phone_handle (signIn demo_has (λ _, false) (js " bb ") (js "guess")) blocked_bb (demo_phone []) =
    Some (inl (Error (js "Too many login attempts. Please try again in 1795 seconds.")), s', demo_phone []).
Proof.
  destruct (sign_in_limited demo_has (λ _, false) phone_handle (js " bb ") (js "guess") blocked_bb (demo_phone [])
    1700000000000 (demo_phone [])) as (r & s' & d' & verified & H & _ & _ & Hb); [reflexivity|by eexists|].
  exists s'. destruct Hb as [-> ->]; [by vm_compute|]. exact H.
Defined.

