(* ===== verification/Bootstrap.v ===== *)
(** * Choosing a gateway: src/src/services/NetworkBootstrap.ts, NetworkDirectoryService.ts

    The gateways of the configuration are tried in order: the native layer is told
    which DID the next peer must have, then that gateway is asked for the
    directory.  The state is the active target, a variable of the module.
    [Native_pin] and [Native_request] say which methods the native module has. *)

From stdpp Require Import strings.
From S2P Require Import Prelude JsString JsMap Json Async Outside.
From S2P Require Quic.

Record BootstrapGateway := mkGateway { gw_host : jstr; gw_ip : jstr; gw_did : jstr }.

(** ** The directory *)

Record DirectoryValidator := mkValidator {
  v_did : jstr;
  v_endpoint : jstr;
  v_host : jstr;
  v_port : Z;
  v_stake : json;
  v_status : jstr;
  v_healthy : bool;
}.

Record DirectoryView := mkView {
  validators : list DirectoryValidator;
  chain_height : option json;
  local_did : option jstr;
}.

(** [s.lastIndexOf(c)] *)
Fixpoint lastIndexOf (c : ascii) (s : jstr) : option nat :=
  match s with
  | [] => None
  | d :: s' => match lastIndexOf c s' with
               | Some i => Some (Datatypes.S i)
               | None => if bool_decide (d = c) then Some O else None
               end
  end.

(** [Number.parseInt(s, 10)], [None] for [NaN]; a value that is too large for a
    port is not rounded *)
Definition parseInt (s : jstr) : option Z :=
  let '(sign, s) := match drop_while is_space s with
                    | c :: s' => if bool_decide (c = "-"%char) then (-1, s')
                                 else if bool_decide (c = "+"%char) then (1, s') else (1, c :: s')
                    | [] => (1, [])
                    end in
  let ds := take_while is_digit s in
  if truthy ds then Some (sign * dec_val ds) else None.

Definition splitEndpoint (endpoint : jstr) : option (jstr * Z) :=
  colon ← lastIndexOf ":" endpoint;
  if (colon <=? 0)%nat then None
  else
    let host := trim (take colon endpoint) in
    port ← parseInt (trim (drop (Datatypes.S colon) endpoint));
    if negb (truthy host) || (port <=? 0) || (65536 <=? port) then None else Some (host, port).

Definition is_number (v : json) : bool := match v with JNum _ | JDec _ _ => true | _ => false end.

Definition toDirectoryValidator (o : json) : option DirectoryValidator :=
  did ← str_field (js "did") o;
  endpoint ← str_field (js "endpoint") o;
  stake ← jget (js "stake") o;
  if negb (is_number stake) then None
  else
    status ← str_field (js "status") o;
    '(host, port) ← splitEndpoint endpoint;
    Some (mkValidator did endpoint host port stake status (bool_decide (status = js "active"))).

(** the view of what [JSON.parse] gives *)
Definition directory_view (parsed : json) : option DirectoryView :=
  topology ← jget (js "topology") parsed;
  l ← jfield (js "validators") as_arr topology;
  Some (mkView (omap toDirectoryValidator l)
    (match jget (js "chain_height") parsed with Some h => if is_number h then Some h else None | None => None end)
    (match jget (js "this_node") parsed with Some n => str_field (js "did") n | None => None end)).

(** ** Ranking *)

(** the sign of [y - x] of two numbers *)
Definition decimal (v : json) : Z * Z :=
  match v with JNum n => (n, 1) | JDec m e => (m, 10 ^ Z.of_nat e) | _ => (0, 1) end.
Definition stake_order (x y : json) : Z :=
  let '(m, p) := decimal x in let '(n, q) := decimal y in n * p - m * q.

Definition rank_order (localeCompare : jstr → jstr → Z) (a b : DirectoryValidator) : Z :=
  if negb (eqb (v_healthy a) (v_healthy b)) then if v_healthy a then -1 else 1
  else if negb (stake_order (v_stake a) (v_stake b) =? 0) then stake_order (v_stake a) (v_stake b)
  else localeCompare (v_endpoint a) (v_endpoint b).

Definition rankValidators (localeCompare : jstr → jstr → Z) (l : list DirectoryValidator) : list DirectoryValidator :=
  js_sort (rank_order localeCompare) (List.filter (λ v, includes (js ":") (v_endpoint v)) l).

(** ** Requests *)

Section Bootstrap.
Context (Native_pin Native_request : bool) (QUIC_PORT defaultTimeout : Z) (BOOTSTRAP_GATEWAYS : list BootstrapGateway).
Context (DEFAULT_NODE_HOST : jstr) (DEFAULT_NODE_PORT : Z).
Abbreviation prog := (Outside.prog Quic.Target).

Definition QUIC_MODULE : jstr := js "NativeQuic".
Definition DIRECTORY_PATH : jstr := js "/api/v1/network/directory".
Definition LAST_VALIDATOR_KEY : jstr := js "sov:active_validator_v1".

Definition dial_host (gw : BootstrapGateway) : jstr := str_or (gw_ip gw) (gw_host gw).
Definition target_of (gw : BootstrapGateway) : Quic.Target := Quic.mkTarget (dial_host gw) QUIC_PORT (gw_host gw).

Definition initialTarget : Quic.Target :=
  match BOOTSTRAP_GATEWAYS with
  | gw :: _ => target_of gw
  | [] => Quic.mkTarget [] QUIC_PORT []
  end.

Definition getActiveTarget : prog Quic.Target := gets id.

Definition directory_request (t : Quic.Target) : req json :=
  native QUIC_MODULE (js "request")
    [JStr (js "quic://" ++ Quic.t_host t ++ js ":" ++ dec_str (Quic.t_port t) ++ DIRECTORY_PATH);
     JObj [(js "method", JStr (js "GET"));
           (js "headers", JObj (if truthy (Quic.t_sni t) && negb (bool_decide (Quic.t_sni t = Quic.t_host t))
                                then [(js "x-zhtp-sni", JStr (Quic.t_sni t))] else []));
           (js "alpn", JStr (js "public")); (js "timeout", JNum defaultTimeout)]].

(** the raw answer: [ok], then the parsed body *)
Definition read_directory (raw : json) : option DirectoryView :=
  if otruthy (jget (js "ok") raw) then
    body ← jget (js "body") raw; parsed ← json_parse (js_String body); directory_view parsed
  else None.

(** without a target, the node of the configuration *)
Definition fetchDirectory (target : option Quic.Target) : prog (option DirectoryView) :=
  if negb Native_request then ret None
  else
    try_catch
      (raw ← call (directory_request (default (Quic.mkTarget DEFAULT_NODE_HOST DEFAULT_NODE_PORT []) target));
       ret (read_directory raw))
      (λ _, ret None).

Definition pin_request (gw : BootstrapGateway) : req json :=
  native QUIC_MODULE (js "setActiveValidator")
    [JStr (dial_host gw); JNum QUIC_PORT; JStr (gw_did gw); JStr (gw_host gw)].

(** the answer names the expected DID, or none *)
Definition right_did (gw : BootstrapGateway) (dir : DirectoryView) : bool :=
  match local_did dir with Some d => negb (truthy d) || bool_decide (d = gw_did gw) | None => true end.

Definition tryBootstrapGateway (gw : BootstrapGateway) : prog (option DirectoryView) :=
  if negb Native_pin then ret None
  else
    pinned ← try_catch (call (pin_request gw);; modify (λ _, target_of gw);; ret true) (λ _, ret false);
    if (pinned : bool) then
      dir ← fetchDirectory (Some (target_of gw));
      ret (match dir with Some v => if right_did gw v then Some v else None | None => None end)
    else ret None.

Definition selection (gw : BootstrapGateway) (now : Z) : json :=
  JObj [(js "host", JStr (gw_host gw)); (js "port", JNum QUIC_PORT); (js "did", JStr (gw_did gw));
        (js "sni", JStr (gw_host gw)); (js "chosenAt", JNum now)].

Definition persistSelection (v : json) : prog unit :=
  try_catch (call (setItem LAST_VALIDATOR_KEY (stringify v))) (λ _, ret tt).

Definition entry_of (gw : BootstrapGateway) (dir : DirectoryView) : option DirectoryValidator :=
  find (λ v, bool_decide (v_did v = gw_did gw)) (validators dir).

Fixpoint try_gateways (l : list BootstrapGateway) : prog (option DirectoryValidator) :=
  match l with
  | [] => ret None
  | gw :: l =>
      dir ← tryBootstrapGateway gw;
      match dir with
      | None => try_gateways l
      | Some dir =>
          now ← call Date_now;
          persistSelection (selection gw now);;
          ret (entry_of gw dir)
      end
  end.

Definition refreshActiveValidator : prog (option DirectoryValidator) :=
  if negb Native_pin then ret None else try_gateways BOOTSTRAP_GATEWAYS.

End Bootstrap.

(** * Properties *)

(** ** Ranking *)

(** healthy first, then the higher stake *)
Definition precedes (a b : DirectoryValidator) : Prop :=
  v_healthy a = true ∧ v_healthy b = false ∨
  v_healthy a = v_healthy b ∧ stake_order (v_stake a) (v_stake b) ≤ 0.

Lemma decimal_pos v : 0 < (decimal v).2.
Proof. destruct v; simpl; lia. Qed.

Lemma stake_order_trans x y z : stake_order x y ≤ 0 → stake_order y z ≤ 0 → stake_order x z ≤ 0.
Proof.
  unfold stake_order. pose proof (decimal_pos x) as Hx. pose proof (decimal_pos y) as Hy. pose proof (decimal_pos z) as Hz.
  destruct (decimal x) as [m p], (decimal y) as [n q], (decimal z) as [o r]. simpl in *. intros H1 H2.
  assert (o * p * q ≤ m * r * q) as H3; [|nia].
  assert (o * q * p ≤ n * r * p) by nia. assert (n * p * r ≤ m * q * r) by nia. lia.
Qed.

Lemma stake_order_sym x y : stake_order y x = - stake_order x y.
Proof. unfold stake_order. destruct (decimal x), (decimal y). lia. Qed.

#[local] Instance precedes_trans : Transitive precedes.
Proof.
  intros a b c [[H1 H2]|[H1 H2]] [[H3 H4]|[H3 H4]]; unfold precedes; rewrite ?H1, ?H2, ?H3, ?H4 in *; try congruence; auto.
  right. split; [congruence|]. by eapply stake_order_trans.
Qed.

Lemma rank_order_precedes loc a b :
  (0 < rank_order loc a b → precedes b a) ∧ (rank_order loc a b ≤ 0 → precedes a b).
Proof.
  unfold rank_order, precedes. pose proof (stake_order_sym (v_stake a) (v_stake b)) as Hs.
  destruct (v_healthy a), (v_healthy b); simpl. 2,3: split; intros; auto; lia. all:
    destruct (stake_order (v_stake a) (v_stake b) =? 0) eqn:E; simpl; breflect; (split; intros H; right; (split; [done|]); lia).
Qed.

(** The ranking is a reordering of the validators that can be dialled, the
    healthy ones first and among equals the higher stake first, however the
    platform compares the names. *)
Fact rankValidators_sorted localeCompare l :
  rankValidators localeCompare l ≡ₚ List.filter (λ v, includes (js ":") (v_endpoint v)) l ∧
  Sorted.StronglySorted precedes (rankValidators localeCompare l).
Proof.
  split; [apply js_sort_perm|]. apply (js_sort_sorted_by precedes); intros a b; apply rank_order_precedes.
Qed.

(** ** The order of the attempts *)

Section Laws.
Context (QUIC_PORT defaultTimeout : Z).

(** a directory that came, under the expected DID or without one *)
Definition verified (gw : BootstrapGateway) (raw : error + json) : option DirectoryView :=
  match raw with
  | inl _ => None
  | inr raw =>
      match read_directory raw with
      | None => None
      | Some dir =>
          match local_did dir with
          | None | Some [] => Some dir
          | Some named => if decide (named = gw_did gw) then Some dir else None
          end
      end
  end.

Lemma verified_right gw raw :
  verified gw (inr raw) = match read_directory raw with Some v => if right_did gw v then Some v else None | None => None end.
Proof.
  simpl. destruct (read_directory raw) as [v|]; [|done]. unfold right_did. destruct (local_did v) as [[|c s]|]; [done| |done].
  cbn [truthy negb orb]. by destruct (decide _) as [E|E]; [rewrite bool_decide_true|rewrite bool_decide_false].
Qed.

Definition clock_ok (e : event) : Prop :=
  match e with @Ev _ c r => match c in req R return error + R → Prop with
                            | Date_now => λ r, match r with inl _ => False | inr _ => True end
                            | _ => λ _, True end r end.

Abbreviation pin := (pin_request QUIC_PORT).
Abbreviation ask gw := (directory_request defaultTimeout (target_of QUIC_PORT gw)).

(** what bootstrapping promises: a gateway is asked only after the native layer
    expects its DID, the next one is tried only when this one was refused, sent no
    directory or named another DID, and the first one that is verified is kept *)
Inductive attempts : list BootstrapGateway → list event → option DirectoryValidator → Prop :=
| att_none : attempts [] [] None
| att_refused gw l e tr o : attempts l tr o → attempts (gw :: l) (Ev (pin gw) (inl e) :: tr) o
| att_rejected gw l v raw tr o :
    verified gw raw = None → attempts l tr o →
    attempts (gw :: l) (Ev (pin gw) (inr v) :: Ev (ask gw) raw :: tr) o
| att_chosen gw l v raw dir now w :
    verified gw raw = Some dir →
    attempts (gw :: l)
      [Ev (pin gw) (inr v); Ev (ask gw) raw; Ev Date_now (inr now);
       Ev (setItem LAST_VALIDATOR_KEY (stringify (selection QUIC_PORT gw now))) w]
      (entry_of gw dir).

Lemma trace_try_gateway host port gw tr r :
  trace obs (tryBootstrapGateway true true QUIC_PORT defaultTimeout host port gw) tr r →
  (∃ e, tr = [Ev (pin gw) (inl e)] ∧ r = inr None) ∨
  ∃ v raw, tr = [Ev (pin gw) (inr v); Ev (ask gw) raw] ∧ r = inr (verified gw raw).
Proof.
  unfold tryBootstrapGateway, fetchDirectory. cbn [negb default]. intros H. unfold mbind, outside_bind in H.
  apply trace_bind in H as [(e & H & ->)|(pinned & t1 & t2 & -> & Hp & H)].
  { apply trace_try_catch in H as [(? & [=] & _)|(? & ? & ? & _ & _ & [_ [=]])]. }
  apply trace_try_catch in Hp as [(b & [= ->] & Hp)|(e & t3 & t4 & -> & Hp & [-> [= ->]])].
  - right. apply trace_bind in Hp as [(? & _ & [=])|(v & t3 & t4 & -> & Hc & Hp)]. apply trace_call in Hc as ->.
    apply trace_bind in Hp as [(? & _ & [=])|([] & t5 & t6 & -> & Hm & [-> [= ->]])]. apply trace_modify in Hm as [-> _].
    exists v. apply trace_bind in H as [(e & H & ->)|(dir & t5 & t6 & -> & Hd & [-> ->])].
    { apply trace_try_catch in H as [(? & [=] & _)|(? & ? & ? & _ & _ & [_ [=]])]. }
    apply trace_try_catch in Hd as [(o & [= ->] & Hd)|(e & t7 & t8 & -> & Hd & [-> [= ->]])].
    + apply trace_bind in Hd as [(? & _ & [=])|(raw & t7 & t8 & -> & Hc & [-> [= ->]])]. apply trace_call in Hc as ->.
      exists (inr raw). split; [done|]. by rewrite verified_right.
    + exists (inl e). apply trace_bind in Hd as [(e' & Hd & [= <-])|(? & ? & ? & _ & _ & [_ [=]])]. by apply trace_call in Hd as ->.
  - left. untrace H. exists e. split; [|done].
    apply trace_bind in Hp as [(e' & Hp & [= <-])|(v & t3' & t4 & -> & _ & Hp)]; [by apply trace_call in Hp as ->|].
    apply trace_bind in Hp as [(e' & Hp & _)|(? & ? & ? & _ & _ & [_ [=]])]. by apply trace_modify in Hp as [_ [=]].
Qed.

Lemma trace_persist v tr r :
  trace obs (persistSelection v) tr r → r = inr tt ∧ ∃ w, tr = [Ev (setItem LAST_VALIDATOR_KEY (stringify v)) w].
Proof.
  intros [([] & -> & H)|(e & t1 & t2 & -> & H & [-> ->])]%trace_try_catch; apply trace_call in H as ->; split; eauto.
Qed.

Lemma trace_try_gateways host port l tr r :
  trace obs (try_gateways true true QUIC_PORT defaultTimeout host port l) tr r → Forall clock_ok tr →
  ∃ o, r = inr o ∧ attempts l tr o.
Proof.
  revert tr r. induction l as [|gw l IH]; intros tr r H Hc; cbn [try_gateways] in H.
  { untrace H. exists None. split; [done|constructor]. }
  unfold mbind, outside_bind in H. apply trace_bind in H as [(e & H & ->)|(dir & t1 & t2 & -> & Hd & H)].
  { apply trace_try_gateway in H as [(? & _ & [=])|(? & ? & _ & [=])]. }
  apply Forall_app in Hc as [_ Hc].
  apply trace_try_gateway in Hd as [(e & -> & [= ->])|(v & raw & -> & [= ->])].
  { destruct (IH _ _ H Hc) as (o & -> & Ha). exists o. split; [done|]. by constructor. }
  destruct (verified gw raw) as [dir|] eqn:Ev.
  - apply trace_bind in H as [(e & H & ->)|(now & t3 & t4 & -> & Hn & H)].
    { apply trace_call in H as ->. by inversion_clear Hc. }
    apply trace_call in Hn as ->. apply trace_bind in H as [(e & H & ->)|([] & t5 & t6 & -> & Hp & [-> ->])].
    { by apply trace_persist in H as [[=] _]. }
    apply trace_persist in Hp as [_ [w ->]]. eexists. split; [done|]. by apply att_chosen.
  - destruct (IH _ _ H Hc) as (o & -> & Ha). exists o. split; [done|]. by constructor.
Qed.

(** C32: Bootstrapping tries the gateways as it promises ([attempts]): in their
    order, each one asked for the directory only right after the native layer
    expects its DID; the first one whose directory comes under that DID, or
    without any DID, is kept and recorded, and one that names another DID is
    passed over; it never throws. *)
Theorem bootstrap_refines gateways host port tr r :
  trace obs (refreshActiveValidator true true QUIC_PORT defaultTimeout gateways host port) tr r →
  Forall clock_ok tr → ∃ o, r = inr o ∧ attempts gateways tr o.
Proof. apply trace_try_gateways. Qed.

End Laws.

(** ** Two gateways *)

Definition gw1 : BootstrapGateway := mkGateway (js "g1") (js "10.0.0.1") (js "did:zhtp:aa").
Definition gw2 : BootstrapGateway := mkGateway (js "g2") (js "10.0.0.2") (js "did:zhtp:bb").
Definition silent_phone : phone :=
  mkPhone None (λ m _, if bool_decide (m = js "setActiveValidator") then inr (JObj []) else inl no_answer)
    (λ _, inl no_answer) (λ _, inl no_answer) (mkContents ∅ ∅ ∅).

(** When no gateway works the target stays on the last one tried, not on the
    primary. *)
Fact stays_on_last_attempted :
  solo phone_handle (refreshActiveValidator true true 9334 30000 [gw1; gw2] [] 0) (initialTarget 9334 [gw1; gw2]) silent_phone
  = Some (inr None, target_of 9334 gw2, silent_phone) ∧
  initialTarget 9334 [gw1; gw2] ≠ target_of 9334 gw2.
Proof. split; [by vm_compute|done]. Qed.

(** A directory that does not say whose it is keeps its gateway, and the next one
    is not tried. *)
Definition nameless_directory : json :=
  JObj [(js "ok", JBool true);
        (js "body", JStr (stringify (JObj [(js "topology", JObj [(js "validators", JArr [])])])))].
Definition nameless_phone : phone :=
  mkPhone None (λ m _, inr (if bool_decide (m = js "setActiveValidator") then JObj [] else nameless_directory))
    (λ _, inl no_answer) (λ _, inl no_answer) (mkContents ∅ ∅ ∅).

Fact nameless_gateway_kept :
  ∃ p, solo phone_handle (refreshActiveValidator true true 9334 30000 [gw1; gw2] [] 0) (initialTarget 9334 [gw2; gw1]) nameless_phone
       = Some (inr None, target_of 9334 gw1, p) ∧
    (items (stored p) !! LAST_VALIDATOR_KEY) = Some (stringify (selection 9334 gw1 1700000000000)).
Proof. eexists. split; by vm_compute. Qed.

(** ** Witnesses *)

(** the first gateway answers as another, the second as itself *)
Definition directory_of (did : string) : json :=
  JObj [(js "ok", JBool true);
        (js "body", JStr (stringify (JObj [(js "topology", JObj [(js "validators", JArr [])]);
                                           (js "this_node", JObj [(js "did", JStr (js did))])])))].
Definition asked (gw : BootstrapGateway) (did : string) : list event :=
  [Ev (pin_request 9334 gw) (inr (JObj [])); Ev (directory_request 30000 (target_of 9334 gw)) (inr (directory_of did))].
Definition demo_attempts : list event :=
  asked gw1 "did:zhtp:evil" ++ asked gw2 "did:zhtp:bb" ++
  [Ev Date_now (inr 1700000000000);
   Ev (setItem LAST_VALIDATOR_KEY (stringify (selection 9334 gw2 1700000000000))) (inr tt)].

Lemma bootstrap_refines_witness : ∃ o, attempts 9334 30000 [gw1; gw2] demo_attempts o.
Proof.
  destruct (bootstrap_refines 9334 30000 [gw1; gw2] [] 0 demo_attempts (inr None)) as (o & _ & H).
  - repeat first [eexists; eexists; split; [reflexivity|]|exists (target_of 9334 gw1)]. split; reflexivity.
  - repeat constructor.
  - exists o. exact H.
Defined.
