(* ===== verification/Rewards.v ===== *)
(** * Rewards: src/src/services/RewardsService.ts

    The client of the rewards node and the four triggers that claim on their
    own.  The triggers share the guards of the launch and run in any order, each
    suspended while its claim is under way ([Async.step]); a [ledger] of claims
    says what they promise together.  The clock is part of the state and moves
    between sections.  A [sleep] suspends; its length is not modelled. *)

From stdpp Require Import strings gmap.
From S2P Require Import Prelude JsString JsMap Json Async Outside.
From S2P Require Quic.

(** ** The client *)

Definition REWARDS_HOST : jstr := js "g1.thesovereignnetwork.org".
Definition REWARDS_PORT : Z := 9334.
Definition BASE : jstr := js "/api/v1/rewards".

Definition rewardsGet (path : jstr) : req json :=
  quicRequest path (Quic.mkOptions (Some Quic.GET) None [] None (Some REWARDS_HOST) (Some REWARDS_PORT) None).
Definition rewardsPost (path : jstr) (body : json) : req json :=
  quicRequest path
    (Quic.mkOptions (Some Quic.POST) (Some (stringify body)) json_headers None (Some REWARDS_HOST) (Some REWARDS_PORT) None).

Inductive RewardEvent := welcome | daily_checkin | active_session.

Definition event_name (e : RewardEvent) : jstr :=
  match e with
  | welcome => js "welcome"
  | daily_checkin => js "daily_checkin"
  | active_session => js "active_session"
  end.

Definition claimReward (did : jstr) (e : RewardEvent) : req json :=
  rewardsPost (BASE ++ js "/claim") (JObj [(js "did", JStr did); (js "event", JStr (event_name e))]).
Definition reportConversation (did peerDid : jstr) : req json :=
  rewardsPost (BASE ++ js "/conversation") (JObj [(js "did", JStr did); (js "peer_did", JStr peerDid)]).
Definition getRewardsBalance (did : jstr) : req json :=
  rewardsGet (BASE ++ js "/balance/" ++ Quic.encodeURIComponent did).
Definition getRewardsStatus (did : jstr) : req json :=
  rewardsGet (BASE ++ js "/status/" ++ Quic.encodeURIComponent did).

Definition history_params (limit : option Z) (cursor : option jstr) : list jstr :=
  (match limit with Some n => if n =? 0 then [] else [js "limit=" ++ num_str n] | None => [] end) ++
  (match cursor with Some c => if truthy c then [js "cursor=" ++ Quic.encodeURIComponent c] else [] | None => [] end).
Definition getRewardsHistory (did : jstr) (limit : option Z) (cursor : option jstr) : req json :=
  let params := history_params limit cursor in
  let suffix := match params with [] => [] | _ => js "?" ++ JsString.join (js "&") params end in
  rewardsGet (BASE ++ js "/history/" ++ Quic.encodeURIComponent did ++ suffix).

(** [None] is [undefined] *)
Definition isInsufficientRewardLiquidity (response : option json) : bool :=
  match response with
  | Some r =>
      if negb (jtruthy r) || otruthy (jget (js "awarded") r) then false
      else bool_decide (str_field (js "reason") r = Some (js "InsufficientRewardLiquidity"))
  | None => false
  end.

Definition isRewardsUnavailable (e : error) : bool :=
  bool_decide (error_status e = Some 503) || bool_decide (error_status e = None).

(** a member of [null] throws *)
Definition claimSkipMessage (response : json) : error + option jstr :=
  match response with
  | JNull => inl TypeError
  | _ =>
      inr (if otruthy (jget (js "awarded") response) then None
           else if isInsufficientRewardLiquidity (Some response)
           then Some (js "Rewards pool is temporarily underfunded. Try again later.") else None)
  end.

(** *** Thousands separators *)

(** [(\d{3})+(?!\d)] at the head of the string *)
Fixpoint triples_end (s : jstr) : bool :=
  match s with
  | a :: b :: c :: s' =>
      is_digit a && is_digit b && is_digit c &&
      (triples_end s' || negb (match s' with d :: _ => is_digit d | [] => false end))
  | _ => false
  end.
(** [\B] between [prev] and the head of the string *)
Definition within_word (prev : option ascii) (s : jstr) : bool :=
  eqb (match prev with Some c => is_word c | None => false end) (match s with c :: _ => is_word c | [] => false end).

(** [s.replace(/\B(?=(\d{3})+(?!\d))/g, ',')], past [prev] *)
Fixpoint separate (prev : option ascii) (s : jstr) : jstr :=
  (if within_word prev s && triples_end s then js "," else []) ++
  match s with [] => [] | c :: s' => c :: separate (Some c) s' end.

Definition formatBublDisplay (display : jstr) : jstr :=
  match split_on "." display with
  | [] => []
  | intPart :: parts =>
      let grouped := separate None intPart in
      match parts with
      | frac :: _ => if truthy frac then grouped ++ js "." ++ frac else grouped
      | [] => grouped
      end
  end.

(** ** The day of a time: [new Date(t).toISOString().slice(0, 10)] *)

(** days from 1970-01-01 to the first day of a year *)
Definition DayFromYear (y : Z) : Z :=
  365 * (y - 1970) + (y - 1969) / 4 - (y - 1901) / 100 + (y - 1601) / 400.
Definition YearFromDay (d : Z) : Z :=
  let y := 1970 + d * 400 / 146097 in
  if d <? DayFromYear y then y - 1 else if DayFromYear (y + 1) <=? d then y + 1 else y.
Definition leap_day (y : Z) : Z := DayFromYear (y + 1) - DayFromYear y - 365.
(** day of the year on which month [m] (from 0) starts *)
Definition month_start (leap m : Z) : Z :=
  nth (Z.to_nat m) [0; 31; 59; 90; 120; 151; 181; 212; 243; 273; 304; 334; 365] 365 + (if m <? 2 then 0 else leap).
Fixpoint month_of (months : nat) (leap d : Z) : Z :=
  match months with
  | O => 0
  | S k => if month_start leap (Z.of_nat months) <=? d then Z.of_nat months else month_of k leap d
  end.

Definition iso_year (y : Z) : jstr :=
  if (0 <=? y) && (y <=? 9999) then padStart 4 "0" (dec_str y)
  else (if y <? 0 then js "-" else js "+") ++ padStart 6 "0" (dec_str (Z.abs y)).
Definition iso_date (d : Z) : jstr :=
  let y := YearFromDay d in
  let n := d - DayFromYear y in
  let m := month_of 11 (leap_day y) n in
  iso_year y ++ js "-" ++ padStart 2 "0" (dec_str (m + 1)) ++ js "-" ++
  padStart 2 "0" (dec_str (n - month_start (leap_day y) m + 1)).

Definition MS_PER_DAY : Z := 86400000.
Definition day_key (t : Z) : jstr := take 10 (iso_date (t / MS_PER_DAY)).

(** ** The triggers *)

(** the guards of a launch, and [Date.now()] *)
Record launch := mkLaunch {
  welcomeFired : bool;
  lastCheckinUtcDay : option jstr;
  activeSessionFired : bool;
  conversationsReported : gset jstr;
  clock : Z;
}.

Definition set_welcome b x := mkLaunch b (lastCheckinUtcDay x) (activeSessionFired x) (conversationsReported x) (clock x).
Definition set_checkin d x := mkLaunch (welcomeFired x) d (activeSessionFired x) (conversationsReported x) (clock x).
Definition set_session b x := mkLaunch (welcomeFired x) (lastCheckinUtcDay x) b (conversationsReported x) (clock x).
Definition upd_conversations f x := mkLaunch (welcomeFired x) (lastCheckinUtcDay x) (activeSessionFired x) (f (conversationsReported x)) (clock x).

Abbreviation prog := (Outside.prog launch).

(** [sleep(ms)] *)
Definition sleep (_ : Z) : prog unit := await (ret tt).
Definition utcDayKey : prog jstr := gets (λ x, day_key (clock x)).

Definition backoffMs : list Z := [0; 8000; 24000].

Fixpoint claim_with_backoff (did : jstr) (backoff : list Z) : prog unit :=
  match backoff with
  | [] => ret tt
  | ms :: backoff =>
      (if 0 <? ms then sleep ms else ret tt);;
      claimed ← try_catch (call (claimReward did welcome);; ret true) (λ _, ret false);
      if (claimed : bool) then ret tt else claim_with_backoff did backoff
  end.

(** [None] is [null] or [undefined] *)
Definition fireWelcomeClaim (did : option jstr) : prog unit :=
  fired ← gets welcomeFired;
  match did with
  | Some did =>
      if negb (truthy did) || fired then ret tt
      else modify (set_welcome true);; claim_with_backoff did backoffMs
  | None => ret tt
  end.

Definition fireDailyCheckin (did : option jstr) : prog unit :=
  match did with
  | Some did =>
      if negb (truthy did) then ret tt
      else
        today ← utcDayKey;
        last ← gets lastCheckinUtcDay;
        if bool_decide (last = Some today) then ret tt
        else
          modify (set_checkin (Some today));;
          try_catch (call (claimReward did daily_checkin);; ret tt) (λ _, modify (set_checkin None))
  | None => ret tt
  end.

Definition fireActiveSession (did : option jstr) : prog unit :=
  fired ← gets activeSessionFired;
  match did with
  | Some did =>
      if negb (truthy did) || fired then ret tt
      else
        modify (set_session true);;
        try_catch (call (claimReward did active_session);; ret tt) (λ _, modify (set_session false))
  | None => ret tt
  end.

Definition conversation_key (did peerDid : jstr) : jstr := did ++ js "|" ++ peerDid.

Definition fireConversation (did peerDid : option jstr) : prog unit :=
  match did, peerDid with
  | Some did, Some peerDid =>
      if negb (truthy did) || negb (truthy peerDid) || bool_decide (did = peerDid) then ret tt
      else
        let key := conversation_key did peerDid in
        reported ← gets conversationsReported;
        if bool_decide (key ∈ reported) then ret tt
        else
          modify (upd_conversations (λ s, {[ key ]} ∪ s));;
          try_catch (call (reportConversation did peerDid);; ret tt)
            (λ _, modify (upd_conversations (λ s, s ∖ {[ key ]})))
  | _, _ => ret tt
  end.

Inductive trigger :=
| OnIdentity (did : option jstr)
| OnForeground (did : option jstr)
| OnMessagesTab (did : option jstr)
| OnChat (did peerDid : option jstr).

Definition fire (t : trigger) : prog unit :=
  match t with
  | OnIdentity did => fireWelcomeClaim did
  | OnForeground did => fireDailyCheckin did
  | OnMessagesTab did => fireActiveSession did
  | OnChat did peerDid => fireConversation did peerDid
  end.
Definition handler (t : trigger) : prog jstr := fire t;; ret [].

(** time passes, in any direction *)
Definition clock_moves (x y : launch) : Prop :=
  ∃ t, y = mkLaunch (welcomeFired x) (lastCheckinUtcDay x) (activeSessionFired x) (conversationsReported x) t.

Definition app_start (t : Z) : world launch error req := mkWorld (mkLaunch false None false ∅ t) 0 [].
Definition runs : relation (world launch error req) := step handler clock_moves (λ _ _ _, True).

(** ** What the triggers promise together

    A ledger has an entry for each trigger of the launch, in their order: the
    claim it posted and how far it got, or nothing. *)

Inductive claim :=
| Welcome (did : jstr)
| Checkin (did day : jstr)
| Session (did : jstr)
| Conversation (did peerDid : jstr).

Definition claim_request (c : claim) : req json :=
  match c with
  | Welcome did => claimReward did welcome
  | Checkin did _ => claimReward did daily_checkin
  | Session did => claimReward did active_session
  | Conversation did peerDid => reportConversation did peerDid
  end.

(** [Refused] is for good, [Asleep] waits for another attempt *)
Inductive progress := Sent | Asleep | Accepted | Refused.
#[export] Instance progress_eq_dec : EqDecision progress.
Proof. solve_decision. Defined.

Record job := mkJob { j_claim : claim; attempts : nat; state : progress }.
Definition ledger : Type := list (option job).

Definition live (j : job) : bool := bool_decide (state j = Sent) || bool_decide (state j = Accepted).
Definition is_welcome (j : job) : bool := match j_claim j with Welcome _ => true | _ => false end.
Definition is_session (j : job) : bool := match j_claim j with Session _ => live j | _ => false end.
Definition is_conversation (key : jstr) (j : job) : bool :=
  match j_claim j with Conversation did peerDid => bool_decide (conversation_key did peerDid = key) && live j | _ => false end.
Definition refused_checkin (j : job) : bool :=
  match j_claim j with Checkin _ _ => bool_decide (state j = Refused) | _ => false end.

Definition counts (p : job → bool) (l : ledger) : nat := length (List.filter (λ o, match o with Some j => p j | None => false end) l).

(** the days of the check-ins posted *)
Definition checkin_days (l : ledger) : list jstr :=
  omap (λ o, match o with Some (mkJob (Checkin _ day) _ _) => Some day | _ => None end) l.

(** what a claim may be posted after *)
Definition may (c : claim) (l : ledger) : Prop :=
  match c with
  | Welcome _ => counts is_welcome l = 0%nat
  | Session _ => counts is_session l = 0%nat
  | Conversation did peerDid => counts (is_conversation (conversation_key did peerDid)) l = 0%nat
  | Checkin _ day => last (checkin_days l) = Some day → (1 ≤ counts refused_checkin l)%nat
  end.

Inductive job_step : job → job → Prop :=
| accepts c n : job_step (mkJob c n Sent) (mkJob c n Accepted)
| refuses c : is_welcome (mkJob c 1 Sent) = false → job_step (mkJob c 1 Sent) (mkJob c 1 Refused)
| gives_up did : job_step (mkJob (Welcome did) 3 Sent) (mkJob (Welcome did) 3 Refused)
| backs_off did n : (n < 3)%nat → job_step (mkJob (Welcome did) n Sent) (mkJob (Welcome did) n Asleep)
| retries did n : job_step (mkJob (Welcome did) n Asleep) (mkJob (Welcome did) (S n) Sent).

Inductive ledger_step : relation ledger :=
| turns_away l : ledger_step l (l ++ [None])
| posts c l : may c l → ledger_step l (l ++ [Some (mkJob c 1 Sent)])
| moves l1 j j' l2 : job_step j j' → ledger_step (l1 ++ Some j :: l2) (l1 ++ Some j' :: l2).

(** what is seen of the thread of an entry *)
Definition shows (th : thread launch error req) (o : option job) : Prop :=
  match o with
  | Some (mkJob c _ Sent) => ∃ k, th.2 = OnCall (claim_request c) k
  | Some (mkJob _ _ Asleep) => ∃ k, th.2 = OnTick k
  | _ => th.2 = Done (inr [])
  end.

Fixpoint each_differs (l : list jstr) : Prop :=
  match l with
  | a :: l' => match l' with b :: _ => a ≠ b | [] => True end ∧ each_differs l'
  | [] => True
  end.

(** one welcome bonus, with three attempts at most, one live session, one live
    report of a conversation, and, as long as no check-in of the launch was
    refused, no two check-ins in a row for one day *)
Definition at_most_once (l : ledger) : Prop :=
  (counts is_welcome l ≤ 1)%nat ∧ Forall (λ o, match o with Some j => (1 ≤ attempts j ≤ 3)%nat | None => True end) l ∧
  (counts is_session l ≤ 1)%nat ∧ (∀ key, (counts (is_conversation key) l ≤ 1)%nat) ∧
  (counts refused_checkin l = 0%nat → each_differs (checkin_days l)).

(** * Properties *)

(** ** Thousands separators *)

Lemma mod_three n r k : (r < 3)%nat → n = (r + 3 * k)%nat → (n mod 3 =? 0)%nat = (r =? 0)%nat.
Proof.
  intros Hr ->. rewrite Nat.add_comm, Nat.mul_comm, Nat.add_comm, Nat.Div0.mod_add. by rewrite Nat.mod_small.
Qed.

Lemma triples_end_digits s : digits s → triples_end s = negb (length s =? 0)%nat && (length s mod 3 =? 0)%nat.
Proof.
  enough (∀ n s, (length s ≤ n)%nat → digits s →
    triples_end s = negb (length s =? 0)%nat && (length s mod 3 =? 0)%nat) as H by eauto.
  clear s. intros n. induction n as [|n IH]; intros [|a [|b [|c s]]] Hn Hs; simpl in Hn; try (reflexivity || lia).
  pose proof (Nat.div_mod_eq (length s) 3) as Hd. pose proof (Nat.mod_upper_bound (length s) 3 ltac:(lia)) as Hr.
  repeat (apply list.Forall_cons in Hs as [? Hs]). cbn [triples_end]. rewrite H, H0, H1, IH by (auto; lia).
  rewrite (mod_three (length (a :: b :: c :: s)) _ (S (length s / 3)) Hr) by (cbn [length]; lia).
  destruct s as [|d s]; [done|]. apply list.Forall_cons in Hs as [Hc _]. rewrite Hc. cbn [length Nat.eqb negb andb].
  by rewrite orb_false_r.
Qed.

Lemma digit_word c : is_digit c = true → is_word c = true.
Proof. unfold is_word. unfold is_digit. by intros ->. Qed.

Lemma separate_cons c s prev r k :
  digits (c :: s) → is_digit prev = true → (r < 3)%nat → length (c :: s) = (r + 3 * k)%nat →
  separate (Some prev) (c :: s) = (if (r =? 0)%nat then js "," else []) ++ c :: separate (Some c) s.
Proof.
  intros Hs Hp Hr Hl. assert (is_digit c = true) as Hc by by apply list.Forall_cons in Hs as [? _].
  cbn [separate]. rewrite triples_end_digits by done. unfold within_word. rewrite !digit_word by done.
  by rewrite (mod_three _ _ _ Hr Hl).
Qed.

Lemma separate_first c s : digits (c :: s) → separate None (c :: s) = c :: separate (Some c) s.
Proof.
  intros Hs. assert (is_digit c = true) as Hc by by apply list.Forall_cons in Hs as [? _].
  cbn [separate]. unfold within_word. by rewrite digit_word.
Qed.

(** a run of whole groups *)
Lemma separate_groups k s prev :
  digits s → is_digit prev = true → length s = (3 * k)%nat →
  ∃ gs, concat gs = s ∧ Forall (λ g, length g = 3%nat) gs ∧ separate (Some prev) s = concat (map (cons ","%char) gs).
Proof.
  revert s prev. induction k as [|k IH]; intros s prev Hs Hp Hl.
  - destruct s; [|simpl in Hl; lia]. exists []. repeat split; auto. simpl. by rewrite andb_false_r.
  - destruct s as [|a [|b [|c s]]]; simpl in Hl; try lia.
    pose proof Hs as [Ha [Hb [Hc Hs']%list.Forall_cons]%list.Forall_cons]%list.Forall_cons.
    destruct (IH s c Hs' Hc ltac:(lia)) as (gs & E & Hg & Hsep).
    exists ([a; b; c] :: gs). split; [by rewrite <-E|]. split; [by constructor|].
    rewrite (separate_cons a _ _ 0 (S k)), (separate_cons b _ _ 2 k), (separate_cons c _ _ 1 k), Hsep
      by (done || (repeat constructor; done) || (simpl; lia)).
    done.
Qed.

(** after one to three digits *)
Lemma separate_head g r k prev :
  digits (g ++ r) → is_digit prev = true → (length g < 3)%nat → length r = (3 * k)%nat →
  separate (Some prev) (g ++ r) = g ++ separate (Some (List.last g prev)) r.
Proof.
  revert prev. induction g as [|a g IH]; intros prev Hs Hp Hl Hr; [done|]. simpl in Hl.
  assert (is_digit a = true ∧ digits (g ++ r)) as [Ha Hs'] by by apply list.Forall_cons in Hs.
  change ((a :: g) ++ r) with (a :: (g ++ r)).
  rewrite (separate_cons a _ _ (S (length g)) k) by (done || (simpl; rewrite ?length_app; lia)).
  rewrite IH by (done || lia). by rewrite (last_default a g prev).
Qed.

Lemma last_digit g c : digits g → is_digit c = true → is_digit (List.last g c) = true.
Proof. revert c. induction g as [|a g IH]; intros c Hg Hc; [done|]. apply list.Forall_cons in Hg as [? ?]. rewrite last_default. auto. Qed.

Lemma separate_digits s :
  digits s → s ≠ [] →
  ∃ g gs, concat (g :: gs) = s ∧ (1 ≤ length g ≤ 3)%nat ∧ Forall (λ g, length g = 3%nat) gs ∧
    separate None s = concat (g :: map (cons ","%char) gs).
Proof.
  intros Hs Hn. pose (k := ((length s - 1) / 3)%nat). pose (h := (length s - 3 * k)%nat).
  assert (length s ≠ 0)%nat as Hl by by destruct s.
  pose proof (Nat.div_mod_eq (length s - 1) 3) as Hd. pose proof (Nat.mod_upper_bound (length s - 1) 3 ltac:(lia)) as Hu.
  assert (length (drop h s) = 3 * k ∧ 1 ≤ length (take h s) ≤ 3)%nat as [Hr Hg]
    by (rewrite length_drop, length_take; unfold h, k; lia).
  pose proof (take_drop h s) as Es. revert Es Hg Hr. generalize (drop h s) as r. generalize (take h s) as w.
  intros [|a g] r <- Hg Hr; [simpl in Hg; lia|]. clear Hl Hn Hd Hu.
  simpl in Hg. change ((a :: g) ++ r) with (a :: (g ++ r)) in *.
  pose proof Hs as [Ha [Hsg Hsr]%digits_app]%list.Forall_cons.
  destruct (separate_groups k r (List.last g a)) as (gs & E & Hgs & Hsep); [done|by apply last_digit|done|].
  exists (a :: g), gs. split; [by simpl; rewrite E|]. split; [simpl; lia|]. split; [done|].
  rewrite separate_first by done. erewrite separate_head by (done || lia || by apply digits_app). by rewrite Hsep.
Qed.

Lemma join_commas g gs : JsString.join (js ",") (g :: gs) = concat (g :: map (cons ","%char) gs).
Proof.
  revert g. induction gs as [|h gs IH]; intros g; [simpl; by rewrite app_nil_r|].
  change (JsString.join (js ",") (g :: h :: gs)) with (g ++ js "," ++ JsString.join (js ",") (h :: gs)). by rewrite IH.
Qed.

(** FormatBublDisplay writes the integer part of an amount in groups of
    three digits from the right, with a comma between them and at most three
    digits in front, and keeps its digits and its fraction. *)
Fact amounts_grouped_by_thousands i f :
  digits i → i ≠ [] → "."%char ∉ f →
  ∃ g gs, concat (g :: gs) = i ∧ (1 ≤ length g ≤ 3)%nat ∧ Forall (λ g, length g = 3%nat) gs ∧
    formatBublDisplay i = JsString.join (js ",") (g :: gs) ∧
    formatBublDisplay (i ++ js "." ++ f) = JsString.join (js ",") (g :: gs) ++ (if truthy f then js "." ++ f else []).
Proof.
  intros Hi Hn Hf. destruct (separate_digits i Hi Hn) as (g & gs & E & Hg & Hgs & Hs).
  assert ("."%char ∉ i) as Hd by (intros Hin; unfold digits in Hi; rewrite list.Forall_forall in Hi; by apply Hi in Hin).
  exists g, gs. repeat (split; [done|]). unfold formatBublDisplay.
  change (i ++ js "." ++ f) with (i ++ "."%char :: f).
  rewrite (split_on_none "."%char i) by done. rewrite split_on_app, split_on_none by done.
  cbv zeta. rewrite join_commas, Hs. split; [done|]. destruct (truthy f); [done|by rewrite app_nil_r].
Qed.

(** ** Days *)

Lemma YearFromDay_spec d : DayFromYear (YearFromDay d) ≤ d < DayFromYear (YearFromDay d + 1).
Proof.
  unfold YearFromDay. set (y := 1970 + d * 400 / 146097).
  assert (DayFromYear (y - 1) ≤ d < DayFromYear (y + 2)) as H.
  { unfold DayFromYear, y. Z.to_euclidean_division_equations. lia. }
  clearbody y. destruct (d <? DayFromYear y) eqn:E1; [replace (y - 1 + 1) with y by lia; lia|].
  destruct (DayFromYear (y + 1) <=? d) eqn:E2; [replace (y + 1 + 1) with (y + 2) by lia; lia|lia].
Qed.

Lemma leap_day_01 y : 0 ≤ leap_day y ≤ 1.
Proof. unfold leap_day, DayFromYear. Z.to_euclidean_division_equations. lia. Qed.

Lemma month_of_spec leap n :
  0 ≤ leap ≤ 1 → 0 ≤ n < 365 + leap →
  0 ≤ month_of 11 leap n ≤ 11 ∧ 1 ≤ n - month_start leap (month_of 11 leap n) + 1 ≤ 31.
Proof.
  intros Hl Hn. unfold month_of, month_start. simpl.
  repeat match goal with |- context [if ?a <=? ?b then _ else _] => destruct (Z.leb_spec a b) end; simpl; lia.
Qed.

Lemma iso_date_fields d :
  0 ≤ YearFromDay d ≤ 9999 →
  ∃ y m n, 0 ≤ y < 10 ^ 4 ∧ 0 ≤ m + 1 < 10 ^ 2 ∧ 0 ≤ n < 10 ^ 2 ∧
    d = DayFromYear y + month_start (leap_day y) m + n - 1 ∧
    iso_date d = padStart 4 "0" (dec_str y) ++ js "-" ++ padStart 2 "0" (dec_str (m + 1)) ++ js "-" ++ padStart 2 "0" (dec_str n).
Proof.
  intros Hy. pose proof (YearFromDay_spec d) as Hd. pose proof (leap_day_01 (YearFromDay d)) as Hl.
  assert (0 ≤ d - DayFromYear (YearFromDay d) < 365 + leap_day (YearFromDay d)) as Hn by (unfold leap_day in *; lia).
  pose proof (month_of_spec _ _ Hl Hn) as [Hm Hd'].
  eexists _, _, _. split; [|split; [|split; [|split]]]; cycle 4.
  - unfold iso_date, iso_year. cbv zeta.
    replace ((0 <=? YearFromDay d) && (YearFromDay d <=? 9999)) with true by (symmetry; apply andb_true_iff; lia). done.
  - lia.
  - lia.
  - lia.
  - lia.
Qed.

Lemma iso_date_inj d e : 0 ≤ YearFromDay d ≤ 9999 → 0 ≤ YearFromDay e ≤ 9999 → iso_date d = iso_date e → d = e.
Proof.
  intros (y & m & n & Hy & Hm & Hn & -> & Ed)%iso_date_fields (y' & m' & n' & Hy' & Hm' & Hn' & -> & Ee)%iso_date_fields E.
  rewrite Ed, Ee in E. apply (field_inj 3) in E as [-> E]; [|done..]. apply app_inv_head in E.
  apply (field_inj 1) in E as [Em E]; [|done..]. apply app_inv_head in E. replace m' with m by lia.
  rewrite <-(app_nil_r (padStart 2 _ (dec_str n))), <-(app_nil_r (padStart 2 _ (dec_str n'))) in E.
  by apply (field_inj 1) in E as [-> _].
Qed.

Lemma iso_date_length d : 0 ≤ YearFromDay d ≤ 9999 → length (iso_date d) = 10%nat.
Proof.
  intros (y & m & n & Hy & Hm & Hn & _ & ->)%iso_date_fields.
  rewrite !length_app, (field_length 3), !(field_length 1) by done. done.
Qed.

Lemma year_range d : 0 ≤ d < 2932897 → 0 ≤ YearFromDay d ≤ 9999.
Proof.
  intros Hd. pose proof (YearFromDay_spec d) as H. generalize dependent (YearFromDay d). intros y H.
  unfold DayFromYear in H. Z.to_euclidean_division_equations. lia.
Qed.

(** Until the end of the year 9999 the key of the check-in guard changes
    exactly at midnight UTC: two times have the same key exactly when they are in
    the same day. *)
Fact check_in_day_is_utc_day a b :
  0 ≤ a < 253402300800000 → 0 ≤ b < 253402300800000 →
  day_key a = day_key b ↔ a / MS_PER_DAY = b / MS_PER_DAY.
Proof.
  intros Ha Hb. unfold day_key, MS_PER_DAY in *. split; [|by intros ->].
  assert (0 ≤ YearFromDay (a / 86400000) ≤ 9999) as Ya by (apply year_range; Z.to_euclidean_division_equations; lia).
  assert (0 ≤ YearFromDay (b / 86400000) ≤ 9999) as Yb by (apply year_range; Z.to_euclidean_division_equations; lia).
  rewrite !take_ge by (rewrite iso_date_length by done; lia). by apply iso_date_inj.
Qed.

Lemma check_in_day_is_utc_day_witness :
  (0 ≤ 1700006399999 < 253402300800000) ∧ (0 ≤ 1700006400000 < 253402300800000) ∧
  day_key 1700006399999 ≠ day_key 1700006400000.
Proof.
  split; [lia|]. split; [lia|]. intros H.
  apply check_in_day_is_utc_day in H; [by vm_compute in H|lia|lia].
Defined.

(** ** The triggers keep a ledger *)

(** the rest of the call of an entry *)
Definition task_of (j : job) : prog jstr :=
  match j with
  | mkJob _ _ Accepted | mkJob _ _ Refused => ret []
  | mkJob (Welcome did) n Asleep => claim_with_backoff did (drop n backoffMs);; ret []
  | mkJob (Welcome did) n _ =>
      (claimed ← try_catch (call (claimReward did welcome);; ret true) (λ _, ret false);
       if (claimed : bool) then ret tt else claim_with_backoff did (drop n backoffMs));; ret []
  | mkJob (Checkin did _) _ _ =>
      try_catch (call (claimReward did daily_checkin);; ret tt) (λ _, modify (set_checkin None));; ret []
  | mkJob (Session did) _ _ =>
      try_catch (call (claimReward did active_session);; ret tt) (λ _, modify (set_session false));; ret []
  | mkJob (Conversation did peerDid) _ _ =>
      try_catch (call (reportConversation did peerDid);; ret tt)
        (λ _, modify (upd_conversations (λ s, s ∖ {[ conversation_key did peerDid ]})));; ret []
  end.
Definition status_of (o : option job) : status launch error req jstr :=
  match o with
  | Some j => rstatus (run (task_of j) 0 (mkLaunch false None false ∅ 0))
  | None => Done (inr [])
  end.

(** the guard a claim sets, and the one a refusal takes back *)
Definition guard (c : claim) (x : launch) : launch :=
  match c with
  | Welcome _ => set_welcome true x
  | Checkin _ day => set_checkin (Some day) x
  | Session _ => set_session true x
  | Conversation did peerDid => upd_conversations (λ s, {[ conversation_key did peerDid ]} ∪ s) x
  end.
Definition release (j : job) (x : launch) : launch :=
  if bool_decide (state j = Refused) then
    match j_claim j with
    | Welcome _ => x
    | Checkin _ _ => set_checkin None x
    | Session _ => set_session false x
    | Conversation did peerDid => upd_conversations (λ s, s ∖ {[ conversation_key did peerDid ]}) x
    end
  else x.
Definition open_for (c : claim) (x : launch) : Prop :=
  match c with
  | Welcome _ => welcomeFired x = false
  | Checkin _ day => lastCheckinUtcDay x ≠ Some day
  | Session _ => activeSessionFired x = false
  | Conversation did peerDid => conversation_key did peerDid ∉ conversationsReported x
  end.

Definition well_formed (j : job) : Prop :=
  match j_claim j, state j with
  | Welcome _, Asleep => (1 ≤ attempts j < 3)%nat
  | Welcome _, _ => (1 ≤ attempts j ≤ 3)%nat
  | _, Asleep => False
  | _, _ => attempts j = 1%nat
  end.

Lemma fire_cases t n x :
  run (handler t) n x = mkResult x n [] (Done (inr [])) ∨
  ∃ c, open_for c x ∧ run (handler t) n x = mkResult (guard c x) n [] (status_of (Some (mkJob c 1 Sent))).
Proof.
  destruct t as [[d|]|[d|]|[d|]|[d|] [p|]]; try (left; reflexivity); unfold handler, fire.
  - unfold fireWelcomeClaim. destruct d as [|a d]; [by left|]. destruct (welcomeFired x) eqn:E; [left|right].
    + simpl. by rewrite E.
    + exists (Welcome (a :: d)). split; [done|]. simpl. by rewrite E.
  - unfold fireDailyCheckin, utcDayKey. destruct d as [|a d]; [by left|].
    destruct (decide (lastCheckinUtcDay x = Some (day_key (clock x)))) as [E|E]; [left|right; exists (Checkin (a :: d) (day_key (clock x)))];
      [|split; [done|]]; cbn -[day_key claimReward]; [by rewrite bool_decide_true|by rewrite bool_decide_false].
  - unfold fireActiveSession. destruct d as [|a d]; [by left|]. destruct (activeSessionFired x) eqn:E; [left|right].
    + simpl. by rewrite E.
    + exists (Session (a :: d)). split; [done|]. simpl. by rewrite E.
  - unfold fireConversation. destruct d as [|a d]; [by left|]. destruct p as [|b p]; [by left|].
    cbn [truthy negb orb]. case_bool_decide; [by left|].
    destruct (decide (conversation_key (a :: d) (b :: p) ∈ conversationsReported x)) as [E|E];
      [left|right; exists (Conversation (a :: d) (b :: p)); split; [done|]];
      cbn -[conversation_key reportConversation]; [by rewrite bool_decide_true|by rewrite bool_decide_false].
Qed.

Ltac becomes j :=
  exists j; split; [solve [constructor; simpl; (done || lia)]|split; [unfold well_formed; simpl; (done || lia)|reflexivity]].

Lemma job_resumed j n x res :
  well_formed j → resumed (λ _ _ _, True) (status_of (Some j)) n x res →
  ∃ j', job_step j j' ∧ well_formed j' ∧ res = mkResult (release j' x) n [] (status_of (Some j')).
Proof.
  destruct j as [c m st]. intros Hw H. destruct st; try by destruct c.
  - destruct c as [did|did day|did|did peer]; unfold well_formed in Hw; simpl in Hw, H; destruct H as ([e|r] & _ & ->).
    + destruct m as [|[|[|[|m]]]]; try lia;
        [becomes (mkJob (Welcome did) 1 Asleep)|becomes (mkJob (Welcome did) 2 Asleep)|becomes (mkJob (Welcome did) 3 Refused)].
    + becomes (mkJob (Welcome did) m Accepted).
    + subst m. becomes (mkJob (Checkin did day) 1 Refused).
    + becomes (mkJob (Checkin did day) m Accepted).
    + subst m. becomes (mkJob (Session did) 1 Refused).
    + becomes (mkJob (Session did) m Accepted).
    + subst m. becomes (mkJob (Conversation did peer) 1 Refused).
    + becomes (mkJob (Conversation did peer) m Accepted).
  - destruct c; try done. unfold well_formed in Hw. simpl in Hw.
    destruct m as [|[|[|m]]]; try lia; simpl in H; subst res;
      [becomes (mkJob (Welcome did) 2 Sent)|becomes (mkJob (Welcome did) 3 Sent)].
Qed.

(** *** Counting *)

Lemma counts_app p l1 l2 : counts p (l1 ++ l2) = (counts p l1 + counts p l2)%nat.
Proof. unfold counts. by rewrite List.filter_app, length_app. Qed.

Lemma counts_entry p o l : counts p (o :: l) = ((if match o with Some j => p j | None => false end then 1 else 0) + counts p l)%nat.
Proof. unfold counts. simpl. by destruct (match o with Some j => p j | None => false end). Qed.

Lemma counts_nil p : counts p [] = 0%nat.
Proof. done. Qed.

Definition days_of (o : option job) : list jstr :=
  match o with Some (mkJob (Checkin _ day) _ _) => [day] | _ => [] end.

Lemma checkin_days_app l1 l2 : checkin_days (l1 ++ l2) = checkin_days l1 ++ checkin_days l2.
Proof. apply omap_app. Qed.
Lemma checkin_days_entry o l : checkin_days (o :: l) = days_of o ++ checkin_days l.
Proof. by destruct o as [[[]]|]. Qed.

Lemma each_differs_snoc l d : each_differs l → last l ≠ Some d → each_differs (l ++ [d]).
Proof.
  induction l as [|a [|b l] IH]; intros H Hd; [done|simpl in *; repeat split; congruence|].
  destruct H as [H1 H2]. split; [done|]. apply IH; [done|]. by rewrite last_cons_cons in Hd.
Qed.

(** *** The guards and the ledger agree *)

Record agree (x : launch) (l : ledger) : Prop := mkAgree {
  agree_welcome : (counts is_welcome l ≤ if welcomeFired x then 1 else 0)%nat;
  agree_session : (counts is_session l ≤ if activeSessionFired x then 1 else 0)%nat;
  agree_conversation : ∀ key, (counts (is_conversation key) l ≤ if bool_decide (key ∈ conversationsReported x) then 1 else 0)%nat;
  agree_checkin : counts refused_checkin l = 0%nat → last (checkin_days l) = lastCheckinUtcDay x ∧ each_differs (checkin_days l);
  agree_formed : Forall (λ o, match o with Some j => well_formed j | None => True end) l;
}.

Lemma agree_start t : agree (mkLaunch false None false ∅ t) [].
Proof. by split; simpl; intros; try lia. Qed.

Lemma agree_turned_away x l : agree x l → agree x (l ++ [None]).
Proof.
  intros [H1 H2 H3 H4 H5]. split; rewrite ?counts_app, ?checkin_days_app; simpl; rewrite ?Nat.add_0_r, ?app_nil_r; auto.
  - intros key. by rewrite counts_app, Nat.add_0_r.
  - apply Forall_app. by repeat constructor.
Qed.

Lemma agree_may c x l : agree x l → open_for c x → may c l.
Proof.
  intros [H1 H2 H3 H4 _] Ho. destruct c as [did|did day|did|did peer]; simpl in *.
  - rewrite Ho in H1. lia.
  - intros Hl. destruct (counts refused_checkin l); [|lia]. destruct (H4 eq_refl). congruence.
  - rewrite Ho in H2. lia.
  - specialize (H3 (conversation_key did peer)). rewrite bool_decide_false in H3 by done. lia.
Qed.

Lemma agree_posts c x l : agree x l → open_for c x → agree (guard c x) (l ++ [Some (mkJob c 1 Sent)]).
Proof.
  intros [H1 H2 H3 H4 H5] Ho.
  assert (counts refused_checkin (l ++ [Some (mkJob c 1 Sent)]) = counts refused_checkin l) as Hr.
  { rewrite counts_app, counts_entry. destruct c; apply Nat.add_0_r. }
  assert (Forall (λ o, match o with Some j => well_formed j | None => True end) (l ++ [Some (mkJob c 1 Sent)])) as Hf.
  { apply Forall_app. split; [done|]. repeat constructor. unfold well_formed. destruct c; simpl; lia. }
  destruct c as [did|did day|did|did peer]; (split; [| |intros key| |exact Hf]); rewrite ?Hr, ?counts_app, ?checkin_days_app;
    cbn [guard welcomeFired activeSessionFired conversationsReported lastCheckinUtcDay set_welcome set_session set_checkin upd_conversations];
    simpl in Ho; try rewrite Ho in *; rewrite ?counts_entry, ?checkin_days_entry; simpl; rewrite ?counts_nil, ?app_nil_r;
    try specialize (H3 key); try (done || lia).
  - intros [E Hd]%H4. rewrite last_snoc. split; [done|]. apply each_differs_snoc; congruence.
  - unfold is_conversation at 2. simpl. rewrite andb_true_r. destruct (decide (conversation_key did peer = key)) as [<-|Hn].
    + rewrite bool_decide_false in H3 by done. rewrite !bool_decide_true by set_solver. lia.
    + rewrite (bool_decide_false (_ = _)) by done.
      by rewrite (bool_decide_ext _ (key ∈ conversationsReported x)), !Nat.add_0_r by set_solver.
Qed.

Lemma agree_moves x l1 j j' l2 :
  job_step j j' → well_formed j' → agree x (l1 ++ Some j :: l2) → agree (release j' x) (l1 ++ Some j' :: l2).
Proof.
  intros Hs Hw [H1 H2 H3 H4 H5].
  assert (Forall (λ o, match o with Some j => well_formed j | None => True end) (l1 ++ Some j' :: l2)) as Hf.
  { apply Forall_app in H5 as [? [_ ?]%list.Forall_cons]. apply Forall_app. split; [done|]. by constructor. }
  assert (checkin_days (l1 ++ Some j' :: l2) = checkin_days (l1 ++ Some j :: l2)) as Ed.
  { rewrite !checkin_days_app, !checkin_days_entry. by destruct Hs. }
  (split; [| |intros key| |exact Hf]); rewrite ?Ed; rewrite ?counts_app, ?counts_entry in *;
    [| |specialize (H3 key); rewrite counts_app, counts_entry in H3|]; clear H5 Hf Hw Ed.
  - destruct Hs as [[] n|[]| | |]; done.
  - destruct Hs as [[] n|[]| | |]; try done. unfold is_session in *. simpl in *. destruct (activeSessionFired x); lia.
  - destruct Hs as [[] n|[]| | |]; try done. unfold is_conversation in H3 |- *. simpl in H3 |- *.
    rewrite andb_true_r in H3. rewrite andb_false_r. destruct (decide (conversation_key did peerDid = key)) as [<-|Hk]; [rewrite (bool_decide_true (_ = _)) in H3 by done|rewrite (bool_decide_false (_ = _)) in H3 by done].
    + rewrite bool_decide_false by set_solver. case_bool_decide; lia.
    + by rewrite (bool_decide_ext _ (key ∈ conversationsReported x)) by set_solver.
  - intros E. destruct Hs as [[] n|[]| | |]; try (apply H4, E). unfold refused_checkin in E. simpl in E. lia.
Qed.

Lemma agree_clock x y l : clock_moves x y → agree x l → agree y l.
Proof. by intros [t ->] [H1 H2 H3 H4 H5]. Qed.

(** every world of the triggers, step by step with a ledger *)
Lemma runs_ledger t w :
  rtc runs (app_start t) w →
  ∃ l, rtc ledger_step [] l ∧ agree (ws w) l ∧ Forall2 (λ th o, th.2 = status_of o) (wthreads w) l.
Proof.
  intros H. apply rtc_ind_r with (P := λ w, ∃ l, rtc ledger_step [] l ∧ agree (ws w) l ∧
    Forall2 (λ th o, th.2 = status_of o) (wthreads w) l) in H; [done| |].
  - exists []. split; [apply rtc_refl|]. split; [apply agree_start|constructor].
  - clear w H. intros w w' _ Hs (l & Hl & Ha & Hw). apply step_cases in Hs as
      [(l1 & p & st & l2 & res & Et & Hres & ->)|[(e & ->)|(y & Hc & ->)]].
    + rewrite Et in Hw. apply Forall2_app_inv_l in Hw as (m1 & m2 & Hw1 & Hw2 & ->).
      apply Forall2_cons_inv_l in Hw2 as (o & m3 & Ho & Hw2 & ->). simpl in Ho. subst st.
      destruct o as [j|]; [|done].
      pose proof (agree_formed _ _ Ha) as [_ [Hj _]%list.Forall_cons]%Forall_app.
      destruct (job_resumed _ _ _ _ Hj Hres) as (j' & Hjs & Hj' & ->).
      exists (m1 ++ Some j' :: m3). split; [by eapply rtc_r, moves|]. split; [by apply agree_moves with j|].
      simpl. rewrite app_nil_r. by apply Forall2_app; [|constructor].
    + destruct (fire_cases e (S (wnext w)) (ws w)) as [E|(c & Ho & E)]; unfold Async.launch; rewrite E; simpl.
      * exists (l ++ [None]). split; [eapply rtc_r, turns_away; done|]. split; [by apply agree_turned_away|].
        apply Forall2_app; [done|by repeat constructor].
      * exists (l ++ [Some (mkJob c 1 Sent)]). split; [by eapply rtc_r, posts, agree_may|].
        split; [by apply agree_posts|]. apply Forall2_app; [done|by repeat constructor].
    + exists l. split; [done|]. split; [by eapply agree_clock|done].
Qed.

Lemma status_shows th o : (∀ j, o = Some j → well_formed j) → th.2 = status_of o → shows th o.
Proof.
  intros Hw E. destruct o as [[c n st]|]; [|exact E]. specialize (Hw _ eq_refl). unfold well_formed in Hw.
  destruct st, c; simpl in Hw; try done; try (eexists; exact E).
  destruct n as [|[|[|n]]]; try lia; eexists; exact E.
Qed.

Lemma agree_at_most_once x l : agree x l → at_most_once l.
Proof.
  intros [H1 H2 H3 H4 H5]. split; [by etrans; [exact H1|destruct (welcomeFired x); lia]|].
  split; [|split; [by etrans; [exact H2|destruct (activeSessionFired x); lia]|]].
  - eapply list.Forall_impl; [exact H5|]. intros [[[] n []]|] H; unfold well_formed in H; simpl in *; (done || lia).
  - split; [|intros E; by apply H4]. intros key. etrans; [apply H3|]. case_bool_decide; lia.
Qed.


(** *** Runs *)

Definition answer_with (b : bool) (R : Set) (c : req R) : error + R :=
  match c with
  | quicRequest _ _ => if b then inr (JObj []) else inl (Error (js "no answer"))
  | _ => inl (Error (js "no answer"))
  end.
Definition play (l : list (trigger + nat * bool)) (w : world launch error req) : world launch error req :=
  fold_left (λ w x, match x with inl e => Async.launch (handler e) w | inr (i, b) => resume (answer_with b) i w end) l w.

Lemma play_runs l w : rtc runs w (play l w).
Proof.
  revert w. induction l as [|[e|[i b]] l IH]; intros w; [apply rtc_refl| |]; (etrans; [|apply IH]);
    [apply launch_step|by apply resume_steps].
Qed.

Definition alice : jstr := js "did:zhtp:a1".
Definition bob : jstr := js "did:zhtp:b2".

(** a failed welcome that sleeps, a chat reported twice, a check-in *)
Definition busy_launch : list (trigger + nat * bool) :=
  [inl (OnIdentity (Some alice)); inr (0%nat, false); inl (OnChat (Some alice) (Some bob));
   inl (OnChat (Some alice) (Some bob)); inl (OnForeground (Some alice))].


(** the welcome bonus and the check-in of the second identity of a launch are not
    claimed *)
Fact second_identity_unclaimed :
  ∃ w, rtc runs (app_start 1700000000000) w ∧
    map snd (wthreads w) = replicate 4 (Done (inr [])) ∧
    wthreads w = wthreads (play [inl (OnIdentity (Some alice)); inl (OnForeground (Some alice)); inr (0%nat, true); inr (1%nat, true);
      inl (OnIdentity (Some bob)); inl (OnForeground (Some bob))] (app_start 1700000000000)).
Proof. eexists. split; [apply play_runs|]. split; [|reflexivity]. by vm_compute. Qed.

(** path and body of the request of a thread *)
Definition in_flight (th : thread launch error req) : option (jstr * option jstr) :=
  match th.2 with OnCall (quicRequest path o) _ => Some (path, Quic.o_body o) | _ => None end.

(** a check-in refused after midnight takes back the guard of the new day, whose
    claim is in flight: it is posted again *)
Fact midnight_race :
  ∃ w body, rtc runs (app_start 1700006399000) w ∧ clock (ws w) = 1700006401000 ∧
    map in_flight (wthreads w) = [None; Some (BASE ++ js "/claim", body); Some (BASE ++ js "/claim", body)].
Proof.
  pose (w1 := play [inl (OnForeground (Some alice))] (app_start 1700006399000)).
  pose (w2 := mkWorld (mkLaunch false (lastCheckinUtcDay (ws w1)) false ∅ 1700006401000) (wnext w1) (wthreads w1)).
  exists (play [inl (OnForeground (Some alice)); inr (0%nat, false); inl (OnForeground (Some alice))] w2).
  exists (Some (stringify (JObj [(js "did", JStr alice); (js "event", JStr (js "daily_checkin"))]))).
  split; [|split; vm_compute; reflexivity].
  etrans; [apply (play_runs [inl (OnForeground (Some alice))])|]. fold w1. etrans; [|apply play_runs].
  apply rtc_once. apply (step_env handler clock_moves (λ _ _ _, True) (ws w1) (ws w2)). by exists 1700006401000.
Qed.
