(* ===== verification/BrowserAuth.v ===== *)
(** * Signing in a browser: src/src/services/BrowserAuthService.ts

    A link carries a challenge of 32 bytes; the app signs it with the time and
    posts it to its node.  What is signed is what is posted. *)

From stdpp Require Import strings.
From S2P Require Import Prelude JsString JsMap Json Codec Async Outside.
From S2P Require Quic NativeIdentity.

(** ** Challenges *)

(** [/^[0-9a-fA-F]{64}$/] *)
Definition CHALLENGE_REGEX (s : jstr) : bool := (length s =? 64)%nat && forallb is_hex s.

Definition validateChallenge (raw : json) : error + jstr :=
  match raw with
  | JStr raw =>
      let trimmed := trim raw in
      if negb (CHALLENGE_REGEX trimmed) then inl (Error (js "Challenge must be exactly 64 hex characters (32 bytes)"))
      else inr (toLowerCase trimmed)
  | _ => inl (Error (js "Challenge missing from auth link"))
  end.

(** ** Links *)

Record BrowserAuthChallenge := mkChallenge { challengeHex : jstr; node : option jstr }.

(** [None] is a [URIError], and a character beyond Latin-1, which is outside the
    model *)
Fixpoint decodeURIComponent (s : jstr) : option jstr :=
  match s with
  | [] => Some []
  | c :: s' =>
      if negb (bool_decide (c = "%"%char)) then cons c <$> decodeURIComponent s'
      else match s' with
      | a :: b :: s' =>
          if negb (is_hex a && is_hex b) then None
          else
            let u := 16 * hex_digit_val a + hex_digit_val b in
            if u <? 128 then cons (chr u) <$> decodeURIComponent s'
            else match s' with
            | p :: a' :: b' :: s' =>
                let v := 16 * hex_digit_val a' + hex_digit_val b' in
                if bool_decide (p = "%"%char) && is_hex a' && is_hex b' && (194 <=? u) && (u <? 196) && (128 <=? v) && (v <? 192)
                then cons (chr ((u - 192) * 64 + (v - 128))) <$> decodeURIComponent s'
                else None
            | _ => None
            end
      | _ => None
      end
  end.

(** a string cut at the first [sep], which is not kept *)
Fixpoint cut_at (sep : ascii) (s : jstr) : option (jstr * jstr) :=
  match s with
  | [] => None
  | c :: s' => if bool_decide (c = sep) then Some ([], s') else prod_map (cons c) id <$> cut_at sep s'
  end.

Definition add_param (params : jsmap jstr jstr) (part : jstr) : jsmap jstr jstr :=
  if negb (truthy part) then params
  else
    let '(rawKey, rawVal) := default (part, []) (cut_at "=" part) in
    match decodeURIComponent rawKey, decodeURIComponent rawVal with
    | Some key, Some val => mset key val params
    | _, _ => mset rawKey rawVal params
    end.

Definition authPrefix : jstr := js "zhtp://auth".

Definition parseBrowserAuthLink (url : option jstr) : error + option BrowserAuthChallenge :=
  match url with
  | None | Some [] => inr None
  | Some url =>
      let trimmed := trim url in
      if CHALLENGE_REGEX trimmed then inr (Some (mkChallenge (toLowerCase trimmed) None))
      else if negb (startsWith authPrefix (toLowerCase trimmed)) then inr None
      else
        let query := match cut_at "?" trimmed with Some (_, query) => query | None => [] end in
        let params := fold_left add_param (split_on "&" query) [] in
        let challengeRaw := mget (js "challenge") params in
        if negb (truthy (default [] challengeRaw)) then inl (Error (js "Auth link is missing the `challenge` parameter"))
        else
          match validateChallenge (JStr (default [] challengeRaw)) with
          | inl e => inl e
          | inr challengeHex =>
              let node := match mget (js "node") params with Some n => if truthy n then Some (trim n) else None | None => None end in
              inr (Some (mkChallenge challengeHex node))
          end
  end.

(** ** The answer *)

Section BrowserAuth.
Context {S : Type} (nativeModule : option (jstr → bool)).
Abbreviation prog := (Outside.prog S).

Definition BROWSER_AUTH : jstr := js "/api/v1/browser-auth".
Definition signed_text (challenge : jstr) (timestamp : Z) : jstr := challenge ++ js "|" ++ num_str timestamp.
Definition auth_body (challenge : jstr) (signature : json) (did : jstr) (timestamp : Z) : json :=
  JObj [(js "challenge", JStr challenge); (js "signature", signature); (js "did", JStr did); (js "timestamp", JNum timestamp)].

(** everything thrown is an [Error] *)
Definition auth_failed {A} (err : error) : prog A :=
  match error_status err with
  | Some 401 => throw (BrowserAuthError 401 invalid_signature
      (js "The node rejected the signature. Make sure the app is up to date and try again."))
  | Some 403 => throw (BrowserAuthError 403 did_not_registered
      (js "This identity is not yet registered on-chain. Finish registration from the welcome screen and retry."))
  | Some 410 => throw (BrowserAuthError 410 challenge_expired
      (js "The challenge has expired. Generate a new QR / link from the browser and try again."))
  | _ => throw err
  end.

Definition authenticated_session (response : json) : option json :=
  if negb (bool_decide (str_field (js "status") response = Some (js "authenticated")))
     || negb (otruthy (jget (js "session_id") response))
  then None else jget (js "session_id") response.

Definition submitBrowserAuth (challengeHex did : jstr) : prog (json * Z) :=
  match validateChallenge (JStr challengeHex) with
  | inl e => throw e
  | inr challenge =>
      if negb (truthy did) || negb (startsWith (js "did:zhtp:") did)
      then throw (Error (js "Active identity missing a valid DID"))
      else
        now ← call Date_now;
        let timestamp := now / 1000 in
        signature ← NativeIdentity.signMessage nativeModule (signed_text challenge timestamp);
        try_catch
          (response ← call (quicRequest BROWSER_AUTH (post json_headers (auth_body challenge signature did timestamp)));
           match authenticated_session response with
           | None => throw (BrowserAuthError 500 unknown_code (js "Node accepted the request but returned no session id"))
           | Some session_id => ret (session_id, timestamp)
           end)
          auth_failed
  end.

End BrowserAuth.

(** what one answer to a challenge asks and how it ends: the clock, a signature
    over challenge and time, and a post of what was signed *)
Inductive exchange (h did : jstr) : list event → error + (json * Z) → Prop :=
| clock_failed e : exchange h did [Ev Date_now (inl e)] (inl e)
| unsigned now tr e : (tr = [] ∨ ∃ a, tr = [Ev (native NativeIdentity.MODULE (js "signMessage") [JStr (signed_text h (now / 1000))]) a]) →
    exchange h did (Ev Date_now (inr now) :: tr) (inl e)
| posted now a signature answer r :
    jget (js "signature") a = Some signature → jtruthy signature = true →
    (∀ s t, r = inr (s, t) → t = now / 1000 ∧ jtruthy s = true ∧ ∃ response, answer = inr response ∧
       str_field (js "status") response = Some (js "authenticated") ∧ jget (js "session_id") response = Some s) →
    exchange h did
      [Ev Date_now (inr now);
       Ev (native NativeIdentity.MODULE (js "signMessage") [JStr (signed_text h (now / 1000))]) (inr a);
       Ev (quicRequest BROWSER_AUTH (post json_headers (auth_body h signature did (now / 1000)))) answer] r.

(** * Properties *)

(** ** What is signed is what is posted *)

Lemma validateChallenge_ok raw c :
  validateChallenge (JStr raw) = inr c → c = toLowerCase (trim raw) ∧ length c = 64%nat ∧ lower_hex_text c.
Proof.
  unfold validateChallenge, CHALLENGE_REGEX. destruct ((_ =? 64)%nat && _) eqn:E; [|done]. intros [= <-].
  apply andb_true_iff in E as [El Eh]. split; [done|]. rewrite toLowerCase_length. split; [by apply Nat.eqb_eq|].
  apply forallb_Forall in Eh. unfold lower_hex_text, toLowerCase. apply List.Forall_map.
  eapply list.Forall_impl; [exact Eh|]. apply lower_hex_char.
Qed.

Lemma auth_failed_throws {S A} e tr (r : error + A) :
  trace obs (auth_failed (S := S) e) tr r → tr = [] ∧ ∃ e', r = inl e'.
Proof.
  unfold auth_failed. intros H.
  repeat match type of H with trace _ (match ?x with _ => _ end) _ _ => destruct x end; untrace H; eauto.
Qed.

Lemma signMessage_trace {S} nativeModule text tr r :
  trace obs (NativeIdentity.signMessage (S := S) nativeModule text) tr r →
  ((∃ e, r = inl e) ∧ (tr = [] ∨ ∃ a, tr = [Ev (native NativeIdentity.MODULE (js "signMessage") [JStr text]) a])) ∨
  ∃ a signature, r = inr signature ∧ jget (js "signature") a = Some signature ∧ jtruthy signature = true ∧
    tr = [Ev (native NativeIdentity.MODULE (js "signMessage") [JStr text]) (inr a)].
Proof.
  unfold NativeIdentity.signMessage. cbv zeta. intros H. unfold mbind, outside_bind in H.
  apply trace_bind in H as [(e & H & ->)|(a & tr1 & tr2 & -> & H1 & H2)].
  - left. split; [by eexists|].
    apply NativeIdentity.trace_checked in H as [[-> _]|[H| ->]]; [by left| |by right; eexists]. untrace H. by left.
  - apply NativeIdentity.trace_required in H2 as [-> Hr]. rewrite app_nil_r.
    apply NativeIdentity.trace_checked in H1 as [[_ [e H1]]|[H1| ->]]; [done|untrace H1|].
    destruct Hr as [[e ->]|(w & -> & Hw & Ht)]; [left|right; by eexists _, _]. split; [by eexists|]. right. by eexists.
Qed.

Lemma authenticated_session_ok v s :
  authenticated_session v = Some s →
  str_field (js "status") v = Some (js "authenticated") ∧ jget (js "session_id") v = Some s ∧ jtruthy s = true.
Proof.
  unfold authenticated_session. case_bool_decide as E; [|done]. simpl.
  destruct (jget (js "session_id") v) as [w|]; simpl; [|done]. destruct (jtruthy w) eqn:Ew; [|done]. by intros [= <-].
Qed.

Lemma answered_trace {S} (c : req json) e0 t tr (r : error + (json * Z)) :
  trace obs (S := S)
    (try_catch (response ← call c;
                match authenticated_session response with Some s => ret (s, t) | None => throw e0 end) auth_failed) tr r →
  ∃ answer, tr = [Ev c answer] ∧
    ∀ s t', r = inr (s, t') → t' = t ∧ ∃ response, answer = inr response ∧ authenticated_session response = Some s.
Proof.
  unfold mbind, outside_bind. intros [([s t'] & -> & H)|(e & tr1 & tr2 & -> & H & Hf)]%trace_try_catch.
  - apply trace_bind in H as [(e & _ & E)|(v & tr1 & tr2 & -> & Hc & H)]; [done|]. apply trace_call in Hc as ->.
    destruct (authenticated_session v) as [s'|] eqn:Ev; [apply trace_ret in H as [-> E]|by apply trace_throw in H as [_ E]].
    injection E as -> ->. exists (inr v). split; [done|]. intros s1 t1 [= -> ->]. eauto.
  - apply auth_failed_throws in Hf as [-> [e' ->]].
    apply trace_bind in H as [(e1 & Hc & E)|(v & tr1' & tr2 & -> & Hc & H)]; apply trace_call in Hc as ->.
    + eexists. by split.
    + exists (inr v). split; [|done]. destruct (authenticated_session v); [by apply trace_ret in H as [_ E]|].
      by apply trace_throw in H as [-> _].
Qed.

(** An answer to a challenge asks for nothing unless the challenge is 64
    hexadecimal digits and the identity a DID; then it reads the clock, has the
    lower-case challenge with the time in seconds signed, and posts exactly that
    challenge, signature, DID and time, once; it succeeds only when the node says
    that the browser is authenticated and names the session. *)
Fact signed_challenge_is_posted {S : Type} nativeModule c did tr r :
  trace obs (submitBrowserAuth (S := S) nativeModule c did) tr r →
  (tr = [] ∧ ∃ e, r = inl e) ∨
  ∃ h, h = toLowerCase (trim c) ∧ length h = 64%nat ∧ lower_hex_text h ∧ startsWith (js "did:zhtp:") did = true ∧
    exchange h did tr r.
Proof.
  unfold submitBrowserAuth. destruct (validateChallenge (JStr c)) as [e|h] eqn:Eh; intros H; [untrace H; eauto|].
  destruct (negb (truthy did) || negb (startsWith (js "did:zhtp:") did)) eqn:Ed; [untrace H; eauto|]. breflect.
  apply validateChallenge_ok in Eh as (-> & Hl & Hh). right. exists (toLowerCase (trim c)). repeat (split; [done|]).
  unfold mbind, outside_bind in H. apply trace_bind in H as [(e & H & ->)|(now & tr1 & tr2 & -> & Hn & H)].
  { apply trace_call in H as ->. constructor. }
  apply trace_call in Hn as ->. unfold obs. cbv zeta in H.
  apply trace_bind in H as [(e & H & ->)|(signature & tr1 & tr3 & -> & Hs & H)];
    [apply signMessage_trace in H as [[_ H]|(a & w & E & _)]; [by constructor|done]|].
  apply signMessage_trace in Hs as [[(e & E) _]|(a & w & E & Ha & Ht & ->)]; simplify_eq.
  apply answered_trace in H as (answer & -> & Hr). eapply posted; [done..|].
  intros s t [-> (response & -> & Hok)]%Hr. apply authenticated_session_ok in Hok as (? & ? & ?). eauto 10.
Qed.

Definition a_challenge : jstr := flat_map (λ _, js "A1b2") (seq 0 16).
Definition a_text : jstr := signed_text (toLowerCase a_challenge) 1700000000.
Definition auth_trace : list event :=
  [Ev Date_now (inr 1700000000999);
   Ev (native NativeIdentity.MODULE (js "signMessage") [JStr a_text]) (inr (JObj [(js "signature", JStr (js "5a"))]));
   Ev (quicRequest BROWSER_AUTH (post json_headers (auth_body (toLowerCase a_challenge) (JStr (js "5a")) (js "did:zhtp:a1") 1700000000)))
     (inr (JObj [(js "status", JStr (js "authenticated")); (js "session_id", JStr (js "s1"))]))].

Lemma auth_trace_ok :
  trace obs (submitBrowserAuth (S := unit) (Some (λ _, true)) (a_challenge ++ js " ") (js "did:zhtp:a1")) auth_trace
    (inr (JStr (js "s1"), 1700000000)).
Proof. do 3 (eexists; eexists; split; [reflexivity|]). split; reflexivity. Qed.

Lemma signed_challenge_is_posted_witness :
  exchange (toLowerCase a_challenge) (js "did:zhtp:a1") auth_trace (inr (JStr (js "s1"), 1700000000)).
Proof.
  destruct (signed_challenge_is_posted (S := unit) (Some (λ _, true)) _ _ _ _ auth_trace_ok) as [[H _]|(h & -> & _ & _ & _ & H)];
    [discriminate H|exact H].
Defined.

(** ** Links *)

Lemma hex_pair b s :
  0 ≤ b < 256 → ∃ p a c, Quic.percent b ++ s = p :: a :: c :: s ∧ p = "%"%char ∧ is_hex a = true ∧ is_hex c = true ∧
    16 * hex_digit_val a + hex_digit_val c = b.
Proof.
  intros Hb. exists "%"%char, (Quic.upper_hex_char (b / 16)), (Quic.upper_hex_char (b mod 16)). split; [done|].
  pose (p := λ b, is_hex (Quic.upper_hex_char (b / 16)) && is_hex (Quic.upper_hex_char (b mod 16)) &&
    (16 * hex_digit_val (Quic.upper_hex_char (b / 16)) + hex_digit_val (Quic.upper_hex_char (b mod 16)) =? b)).
  assert (p b = true) as H by (apply (range_check p 256); [by vm_compute|lia]). unfold p in H. breflect. by repeat split.
Qed.

Lemma decode_encoded_char c s :
  decodeURIComponent ((if Quic.uri_unreserved c then [c] else flat_map Quic.percent (utf8_encode [c])) ++ s) =
  cons c <$> decodeURIComponent s.
Proof.
  destruct (Quic.uri_unreserved c) eqn:Ec.
  - cbn [app decodeURIComponent]. case_bool_decide as E; [subst c; discriminate Ec|done].
  - pose proof (code_range c) as Hc. unfold utf8_encode. cbn [flat_map]. rewrite app_nil_r. unfold utf8_encode_char.
    destruct (code c <? 128) eqn:E; breflect; cbn [flat_map]; rewrite ?app_nil_r.
    + destruct (hex_pair (code c) s) as (p & a & b & -> & -> & Ha & Hb & Hv); [lia|].
      cbn [decodeURIComponent]. rewrite Ha, Hb, Hv. cbn. rewrite (proj2 (Z.ltb_lt _ _)) by lia. by rewrite chr_code.
    + rewrite <-app_assoc.
      assert (2 ≤ code c / 64 < 4 ∧ 0 ≤ code c mod 64 < 64 ∧ code c = 64 * (code c / 64) + code c mod 64) as Hq
        by (Z.to_euclidean_division_equations; lia).
      generalize dependent (code c / 64). intros q. generalize dependent (code c mod 64). intros m.
      intros Hq. destruct (hex_pair (192 + q) (Quic.percent (128 + m) ++ s)) as (p & a & b & -> & -> & Ha & Hb & Hv); [lia|].
      destruct (hex_pair (128 + m) s) as (p & a' & b' & -> & -> & Ha' & Hb' & Hv'); [lia|].
      cbn [decodeURIComponent]. rewrite Ha, Hb, Hv, Ha', Hb', Hv'. cbn [negb andb].
      rewrite bool_decide_true by done. cbn [negb andb].
      replace (192 + q <? 128) with false by (symmetry; apply Z.ltb_ge; lia).
      replace (194 <=? 192 + q) with true by (symmetry; apply Z.leb_le; lia).
      replace (192 + q <? 196) with true by (symmetry; apply Z.ltb_lt; lia).
      replace (128 <=? 128 + m) with true by (symmetry; apply Z.leb_le; lia).
      replace (128 + m <? 192) with true by (symmetry; apply Z.ltb_lt; lia). cbn [andb].
      replace ((192 + q - 192) * 64 + (128 + m - 128)) with (code c) by lia. by rewrite chr_code.
Qed.

Lemma decode_encode s : decodeURIComponent (Quic.encodeURIComponent s) = Some s.
Proof.
  induction s as [|c s IH]; [done|]. unfold Quic.encodeURIComponent in *. cbn [flat_map].
  by rewrite decode_encoded_char, IH.
Qed.

(** no delimiter of a query and no white space *)
Definition plain_char (c : ascii) : bool := negb (is_space c) && negb (bool_decide (c ∈ js "&=")).

Lemma encoded_plain s : Forall (λ c, plain_char c = true) (Quic.encodeURIComponent s).
Proof.
  unfold Quic.encodeURIComponent. rewrite list.Forall_forall. intros x Hx. apply list_elem_of_In, in_flat_map in Hx as (c & _ & Hx).
  assert (forallb plain_char (if Quic.uri_unreserved c then [c] else flat_map Quic.percent (utf8_encode [c])) = true) as H.
  { rewrite <-(chr_code c). apply (range_check (λ n, forallb plain_char
      (if Quic.uri_unreserved (chr n) then [chr n] else flat_map Quic.percent (utf8_encode [chr n]))) 256); [by vm_compute|apply code_range]. }
  rewrite List.forallb_forall in H. by apply H.
Qed.

Lemma plain_not_in c s : plain_char c = false → Forall (λ c, plain_char c = true) s → c ∉ s.
Proof. intros Hc Hs Hin. rewrite list.Forall_forall in Hs. apply Hs in Hin. congruence. Qed.

Lemma cut_at_app sep s t : sep ∉ s → cut_at sep (s ++ sep :: t) = Some (s, t).
Proof.
  induction s as [|c s IH]; intros H; cbn [app cut_at]; [by rewrite bool_decide_true|].
  apply not_elem_of_cons in H as [Hc H]. by rewrite bool_decide_false, IH by congruence.
Qed.

Lemma add_param_encoded k v params :
  "="%char ∉ k → decodeURIComponent k = Some k → add_param params (k ++ "="%char :: Quic.encodeURIComponent v) = mset k v params.
Proof.
  intros Hk Hd. unfold add_param. rewrite cut_at_app by done. cbn [default from_option id].
  rewrite Hd, decode_encode. by destruct k.
Qed.

(** the link a browser shows *)
Definition auth_link (challenge node : jstr) : jstr :=
  js "zhtp://auth?challenge=" ++ Quic.encodeURIComponent challenge ++ js "&node=" ++ Quic.encodeURIComponent node.

Lemma auth_link_trimmed c n : trim (auth_link c n) = auth_link c n.
Proof.
  assert (∀ s, Forall (λ c, is_space c = false) (Quic.encodeURIComponent s)) as H.
  { intros s. eapply list.Forall_impl; [apply encoded_plain|]. unfold plain_char. simpl. intros x Hx. by breflect. }
  apply trim_no_space. unfold auth_link. repeat apply Forall_app_2; auto; by repeat constructor.
Qed.

(** A link that carries a challenge of 64 hexadecimal digits and a node, each
    percent-encoded, is read back as the challenge in lower case and the node,
    whatever characters the node has. *)
Fact auth_link_roundtrip c n :
  CHALLENGE_REGEX c = true → n ≠ [] →
  parseBrowserAuthLink (Some (auth_link c n)) = inr (Some (mkChallenge (toLowerCase c) (Some (trim n)))).
Proof.
  intros Hc Hn. unfold parseBrowserAuthLink. rewrite auth_link_trimmed.
  set (query := (js "challenge=" ++ Quic.encodeURIComponent c) ++ "&"%char :: js "node=" ++ Quic.encodeURIComponent n).
  replace (auth_link c n) with (authPrefix ++ "?"%char :: query) by (unfold auth_link, query; by rewrite <-app_assoc).
  assert (CHALLENGE_REGEX (authPrefix ++ "?"%char :: query) = false) as -> by apply andb_false_r.
  assert (startsWith authPrefix (toLowerCase (authPrefix ++ "?"%char :: query)) = true) as ->
    by (apply startsWith_spec; by eexists).
  assert (cut_at "?" (authPrefix ++ "?"%char :: query) = Some (authPrefix, query)) as -> by done.
  assert (split_on "&" query = [js "challenge=" ++ Quic.encodeURIComponent c; js "node=" ++ Quic.encodeURIComponent n]) as ->.
  { unfold query. rewrite split_on_app, split_on_none; [done| |].
    - rewrite elem_of_app. intros [H|H]; [by vm_compute in H; set_solver|]. by eapply plain_not_in in H; [|done|apply encoded_plain].
    - rewrite elem_of_app. intros [H|H]; [by vm_compute in H; set_solver|]. by eapply plain_not_in in H; [|done|apply encoded_plain]. }
  assert (fold_left add_param [js "challenge=" ++ Quic.encodeURIComponent c; js "node=" ++ Quic.encodeURIComponent n] []
    = [(js "challenge", c); (js "node", n)]) as ->.
  { change (fold_left add_param _ _) with (add_param (add_param [] (js "challenge" ++ "="%char :: Quic.encodeURIComponent c))
      (js "node" ++ "="%char :: Quic.encodeURIComponent n)).
    rewrite !add_param_encoded; (reflexivity || (vm_compute; set_solver)). }
  assert (trim c = c) as Ht.
  { apply trim_no_space. apply andb_true_iff in Hc as [_ Hc]. apply forallb_Forall in Hc. eapply list.Forall_impl; [exact Hc|].
    intros [[] [] [] [] [] [] [] []]; vm_compute; congruence. }
  assert (truthy c = true ∧ truthy n = true) as [Tc Tn] by (split; apply truthy_true; [by intros ->|done]).
  change (mget (js "challenge") _) with (Some c). change (mget (js "node") _) with (Some n). cbn [default negb from_option id].
  rewrite Tc, Tn. unfold validateChallenge. by rewrite Ht, Hc.
Qed.

Lemma auth_link_roundtrip_witness :
  CHALLENGE_REGEX a_challenge = true ∧ js "g1.node:9334 & b" ≠ [] ∧
  parseBrowserAuthLink (Some (auth_link a_challenge (js "g1.node:9334 & b"))) =
    inr (Some (mkChallenge (toLowerCase a_challenge) (Some (js "g1.node:9334 & b")))).
Proof. split; [done|]. split; [done|]. by apply (auth_link_roundtrip a_challenge (js "g1.node:9334 & b")). Defined.
