(* ===== verification/Notices.v ===== *)
(** * Small stores of the device: src/src/services/AddressBookService.ts,
    RemoteAnnouncement.ts, NotificationsService.ts

    The address book and the dismissed announcements are each one AsyncStorage
    entry that is read, changed and written back; the opt-in to release notices
    is read to subscribe again.  The fetch of an announcement is outside: its
    answer is an argument.  What is proved assumes a storage that answers
    ([Answers]). *)

From stdpp Require Import strings gmap.
From S2P Require Import Prelude JsString JsMap Json Async Outside.
From S2P Require Quic.

Section Stores.
Context {S : Type}.
Abbreviation prog := (Outside.prog S).

(** ** The address book *)

Definition STORAGE_KEY : jstr := js "@sovn:address_book".

Record AddressBookEntry := mkEntry { id : jstr; name : jstr; address : jstr; createdAt : Z }.
Definition entry_json (e : AddressBookEntry) : json :=
  JObj [(js "id", JStr (id e)); (js "name", JStr (name e)); (js "address", JStr (address e)); (js "createdAt", JNum (createdAt e))].

(** whatever is stored *)
Definition load : prog json :=
  try_catch
    (raw ← call (getItem STORAGE_KEY);
     match raw with
     | Some raw => if truthy raw then or_syntax_error (json_parse raw) else ret (JArr [])
     | None => ret (JArr [])
     end)
    (λ _, ret (JArr [])).
Definition save (entries : list json) : prog unit := call (setItem STORAGE_KEY (stringify (JArr entries))).

Definition getAll : prog json := load.

(** [[...v]] *)
Definition spread (v : json) : prog (list json) :=
  match v with
  | JArr l => ret l
  | JStr s => ret (map (λ c, JStr [c]) s)
  | _ => throw TypeError
  end.
(** the receiver of [map], [filter] and [find] *)
Definition as_array (v : json) : prog (list json) :=
  match v with JArr l => ret l | _ => throw TypeError end.

(** [e.k === s] *)
Definition has_string (k s : jstr) (e : json) : prog bool :=
  v ← dot e k; ret (match v with Some (JStr t) => bool_decide (t = s) | _ => false end).
(** [{ ...e, k: v }] *)
Definition with_field (k : jstr) (v e : json) : json :=
  JObj (mset k v (match e with JObj l => l | _ => [] end)).

(** [suffix] is what [Math.random().toString(36).slice(2)] gives *)
Definition addEntry (suffix newName newAddress : jstr) : prog AddressBookEntry :=
  entries ← load;
  t ← call Date_now;
  now ← call Date_now;
  let entry := mkEntry (num_str t ++ js "-" ++ suffix) (trim newName) (trim newAddress) now in
  l ← spread entries;
  save (l ++ [entry_json entry]);;
  ret entry.

Fixpoint rename_all (entryId newName : jstr) (l : list json) : prog (list json) :=
  match l with
  | [] => ret []
  | e :: l =>
      found ← has_string (js "id") entryId e;
      rest ← rename_all entryId newName l;
      ret ((if (found : bool) then with_field (js "name") (JStr (trim newName)) e else e) :: rest)
  end.
Definition updateEntry (entryId newName : jstr) : prog unit :=
  entries ← load; l ← as_array entries; l ← rename_all entryId newName l; save l.

Fixpoint filter_out (entryId : jstr) (l : list json) : prog (list json) :=
  match l with
  | [] => ret []
  | e :: l =>
      found ← has_string (js "id") entryId e;
      rest ← filter_out entryId l;
      ret (if (found : bool) then rest else e :: rest)
  end.
Definition removeEntry (entryId : jstr) : prog unit :=
  entries ← load; l ← as_array entries; l ← filter_out entryId l; save l.

Fixpoint find_first (k s : jstr) (l : list json) : prog (option json) :=
  match l with
  | [] => ret None
  | e :: l => found ← has_string k s e; if (found : bool) then ret (Some e) else find_first k s l
  end.
Definition findByAddress (wanted : jstr) : prog (option json) :=
  entries ← load; l ← as_array entries; find_first (js "address") wanted l.

(** ** Announcements *)

Definition DISMISSED_KEY : jstr := js "sov:dismissed_announcements".

Inductive AnnouncementSeverity := info | warning | critical.
(** [expires_at]: a number of seconds *)
Record RemoteAnnouncement := mkAnnouncement {
  a_id : jstr; a_message : jstr; severity : option AnnouncementSeverity; dismissable : option bool; expires_at : option json }.

Definition read_severity (v : option json) : option AnnouncementSeverity :=
  match v with
  | Some (JStr s) =>
      if bool_decide (s = js "info") then Some info
      else if bool_decide (s = js "warning") then Some warning
      else if bool_decide (s = js "critical") then Some critical else None
  | _ => None
  end.

Definition parseAnnouncement (raw : json) : option RemoteAnnouncement :=
  match raw with
  | JObj _ | JArr _ =>
      match jget (js "id") raw, jget (js "message") raw with
      | Some (JStr i), Some (JStr m) =>
          if negb (truthy i) || negb (truthy m) then None
          else Some (mkAnnouncement i m (read_severity (jget (js "severity") raw))
            (match jget (js "dismissable") raw with Some (JBool b) => Some b | _ => None end)
            (match jget (js "expires_at") raw with Some (JNum n) => Some (JNum n) | Some (JDec m e) => Some (JDec m e) | _ => None end))
      | _, _ => None
      end
  | _ => None
  end.

(** a number of seconds reached [n] *)
Definition reached (n : Z) (v : json) : bool :=
  match v with JNum t => t <=? n | JDec m e => m <=? n * 10 ^ Z.of_nat e | _ => false end.

(** [response]: [res.ok] and the text, or a fetch that failed; [now] is [Date.now()] *)
Definition fetchAnnouncement (response : option (bool * jstr)) (now : Z) : option RemoteAnnouncement :=
  match response with
  | None => None
  | Some (ok, text) =>
      if negb ok then None
      else
        let trimmed := trim text in
        if negb (truthy trimmed) || bool_decide (trimmed = js "{}") then None
        else
          parsed ← json_parse trimmed;
          ann ← parseAnnouncement parsed;
          match expires_at ann with
          | Some t => if reached (now / 1000) t then None else Some ann
          | None => Some ann
          end
  end.

(** [new Set(l)]: in the order of first occurrence *)
Definition new_set (l : list jstr) : list jstr := fold_left (λ s x, if bool_decide (x ∈ s) then s else s ++ [x]) l [].

Definition loadDismissedIds : prog (list jstr) :=
  try_catch
    (raw ← call (getItem DISMISSED_KEY);
     match raw with
     | None | Some [] => ret []
     | Some raw =>
         arr ← or_syntax_error (json_parse raw);
         ret (match arr with JArr l => new_set (omap as_str l) | _ => [] end)
     end)
    (λ _, ret []).

Definition recordDismissal (announcement : jstr) : prog unit :=
  try_catch
    (current ← loadDismissedIds;
     if bool_decide (announcement ∈ current) then ret tt
     else
       let arr := last_n 50 (current ++ [announcement]) in
       call (setItem DISMISSED_KEY (stringify (JArr (map JStr arr)))))
    (λ _, ret tt).

(** ** Release notices *)

Definition RELEASE_SUBSCRIBED_DID_KEY : jstr := js "notifications.releaseSubscribedDid".
Definition DID_PREFIX : jstr := js "did:zhtp:".
Definition DID_MAX_LEN : nat := 256.

(** the dash of the first message, U+2014, is written in ASCII *)
Definition assertCanonicalDid (did : jstr) : prog unit :=
  if negb (truthy did) then throw (Error (js "No identity - sign in before subscribing."))
  else if negb (startsWith DID_PREFIX did) then throw (Error (js "Identity DID must start with " ++ [dq] ++ DID_PREFIX ++ [dq] ++ js "."))
  else if (DID_MAX_LEN <? length did)%nat then throw (Error (js "Identity DID exceeds 256 characters."))
  else ret tt.

Definition did_post (did : jstr) : Quic.RequestOptions := post json_headers (JObj [(js "did", JStr did)]).
Definition subscribeToReleases (did : jstr) : prog json :=
  assertCanonicalDid did;; call (publicQuicRequest (js "/api/v1/notifications/subscribe") (did_post did)).
Definition unsubscribeFromReleases (did : jstr) : prog json :=
  assertCanonicalDid did;; call (publicQuicRequest (js "/api/v1/notifications/unsubscribe") (did_post did)).

Definition resubscribeIfOptedIn (did : option jstr) : prog unit :=
  match did with
  | None | Some [] => ret tt
  | Some did =>
      try_catch
        (raw ← call (getItem RELEASE_SUBSCRIBED_DID_KEY);
         match raw with
         | None => ret tt
         | Some raw =>
             let stored := match json_parse raw with Some v => v | None => JStr raw end in
             if negb (bool_decide (as_str stored = Some did)) then ret tt
             else await (subscribeToReleases did);; ret tt
         end)
        (λ _, ret tt)
  end.

End Stores.

(** ** A storage that answers *)

Class Answers {D : Type} (handle : ∀ R : Set, req R → D → (error + R) * D) (view : D → contents) : Prop := {
  answers_get : ∀ k d, ∃ d', handle _ (getItem k) d = (inr (items (view d) !! k), d') ∧ view d' = view d;
  answers_set : ∀ k v d, ∃ d', handle _ (setItem k v) d = (inr tt, d') ∧ view d' = set_items k (Some v) (view d);
  answers_clock : ∀ d, ∃ t d', handle _ Date_now d = (inr t, d') ∧ view d' = view d;
}.

#[export] Instance phone_answers : Answers phone_handle stored.
Proof. split; intros; try (eexists; split; [reflexivity|done]). by eexists _, _. Qed.

(** the entry of the address book holds the list [l] *)
Definition book (c : contents) (l : list AddressBookEntry) : Prop :=
  items c !! STORAGE_KEY = Some (stringify (JArr (map entry_json l))) ∨ l = [] ∧ items c !! STORAGE_KEY = None.
(** nothing but that entry changed *)
Definition rewritten (c c' : contents) (l : list AddressBookEntry) : Prop :=
  book c' l ∧ ∃ text, c' = set_items STORAGE_KEY (Some text) c.

(** the dismissed announcements are [l] *)
Definition dismissed (c : contents) (l : list jstr) : Prop :=
  NoDup l ∧ (items c !! DISMISSED_KEY = Some (stringify (JArr (map JStr l))) ∨ l = [] ∧ items c !! DISMISSED_KEY = None).

Definition renamed (entryId newName : jstr) (e : AddressBookEntry) : AddressBookEntry :=
  if bool_decide (id e = entryId) then mkEntry (id e) (trim newName) (address e) (createdAt e) else e.

(** * Properties *)

Section Laws.
Context {S D : Type} (handle : ∀ R : Set, req R → D → (error + R) * D) (view : D → contents) `{!Answers handle view}.
Implicit Types (s : S) (d : D) (l : list AddressBookEntry).

Lemma entries_plain l : plain (JArr (map entry_json l)).
Proof.
  apply plain_arr, List.Forall_map, list.Forall_true. intros e. apply plain_obj. split; [|by repeat constructor].
  apply (bool_decide_eq_true_1 (NoDup _)). by vm_compute.
Qed.

Lemma load_run s d l :
  book (view d) l → ∃ d', solo handle load s d = Some (inr (JArr (map entry_json l)), s, d') ∧ view d' = view d.
Proof.
  intros Hb. unfold load. destruct (answers_get STORAGE_KEY d) as (d' & E & Hv). enter. rewrite E. cbn [fst snd].
  destruct Hb as [Hb|[-> Hb]]; rewrite Hb; [|by exists d']. exists d'. split; [|done].
  replace (truthy (stringify (JArr (map entry_json l)))) with true by done.
  by rewrite json_parse_stringify by apply entries_plain.
Qed.

Lemma save_run s d l :
  ∃ d', solo handle (save (map entry_json l)) s d = Some (inr tt, s, d') ∧ rewritten (view d) (view d') l.
Proof.
  destruct (answers_set STORAGE_KEY (stringify (JArr (map entry_json l))) d) as (d' & E & Hv).
  exists d'. unfold save. rewrite solo_call, E. split; [done|]. rewrite Hv. split; [|by eexists].
  left. by rewrite items_set.
Qed.

Lemma has_string_run k t v s d :
  v ≠ JNull → solo handle (has_string k t v) s d = Some (inr (bool_decide (str_field k v = Some t)), s, d).
Proof.
  intros Hv. unfold has_string, str_field, jfield. destruct v; try done; enter; unfold dot; enter; try done.
  destruct (jget k (JObj l)) as [[]|]; try done. do 4 f_equal. simpl. apply bool_decide_ext. split; congruence.
Qed.

Lemma entry_id_run i e s d : solo handle (has_string (js "id") i (entry_json e)) s d = Some (inr (bool_decide (id e = i)), s, d).
Proof. rewrite has_string_run by done. do 4 f_equal. apply bool_decide_ext. split; [by intros [=]|by intros <-]. Qed.

Lemma entry_address_run i e s d :
  solo handle (has_string (js "address") i (entry_json e)) s d = Some (inr (bool_decide (address e = i)), s, d).
Proof. rewrite has_string_run by done. do 4 f_equal. apply bool_decide_ext. split; [by intros [=]|by intros <-]. Qed.

Lemma rename_run i n l s d :
  solo handle (rename_all i n (map entry_json l)) s d = Some (inr (map entry_json (map (renamed i n) l)), s, d).
Proof.
  induction l as [|e l IH]; [done|]. cbn [map rename_all]. enter. rewrite entry_id_run. enter. rewrite IH. enter.
  unfold renamed. by case_bool_decide.
Qed.

Lemma filter_run i l s d :
  solo handle (filter_out i (map entry_json l)) s d =
  Some (inr (map entry_json (List.filter (λ e, negb (bool_decide (id e = i))) l)), s, d).
Proof.
  induction l as [|e l IH]; [done|]. cbn [map filter_out]. enter. rewrite entry_id_run. enter. rewrite IH. enter.
  cbn [List.filter]. by case_bool_decide.
Qed.

Lemma find_run a l s d :
  solo handle (find_first (js "address") a (map entry_json l)) s d =
  Some (inr (entry_json <$> List.find (λ e, bool_decide (address e = a)) l), s, d).
Proof.
  induction l as [|e l IH]; [done|]. cbn [map find_first]. enter. rewrite entry_address_run. enter.
  cbn [List.find]. case_bool_decide; [done|]. by rewrite IH.
Qed.

(** On a storage that answers, the address book is the list of its entries:
    adding appends an entry with the trimmed name and address, renaming changes
    the name of exactly the entries with the id, removing drops exactly those, a
    search finds the first entry of the address; what is written is read back and
    no other entry of the storage changes. *)
Fact address_book_keeps_entries s d l :
  book (view d) l →
  (∃ d', solo handle getAll s d = Some (inr (JArr (map entry_json l)), s, d') ∧ view d' = view d) ∧
  (∀ suffix n a, ∃ t now d', let e := mkEntry (num_str t ++ js "-" ++ suffix) (trim n) (trim a) now in
     solo handle (addEntry suffix n a) s d = Some (inr e, s, d') ∧ rewritten (view d) (view d') (l ++ [e])) ∧
  (∀ i n, ∃ d', solo handle (updateEntry i n) s d = Some (inr tt, s, d') ∧ rewritten (view d) (view d') (map (renamed i n) l)) ∧
  (∀ i, ∃ d', solo handle (removeEntry i) s d = Some (inr tt, s, d') ∧
     rewritten (view d) (view d') (List.filter (λ e, negb (bool_decide (id e = i))) l)) ∧
  (∀ a, ∃ d', solo handle (findByAddress a) s d = Some (inr (entry_json <$> List.find (λ e, bool_decide (address e = a)) l), s, d') ∧
     view d' = view d).
Proof.
  intros Hb. destruct (load_run s d l Hb) as (d1 & El & Hv).
  split; [by exists d1|]. split; [|split; [|split]].
  - intros suffix n a. destruct (answers_clock d1) as (t & d2 & E2 & V2), (answers_clock d2) as (now & d3 & E3 & V3).
    exists t, now. pose (e := mkEntry (num_str t ++ js "-" ++ suffix) (trim n) (trim a) now).
    destruct (save_run s d3 (l ++ [e])) as (d4 & E4 & H4). exists d4. split; [|by rewrite V3, V2, Hv in H4].
    unfold addEntry. enter. rewrite El. enter. rewrite E2. enter. rewrite E3. enter. unfold spread. enter.
    change [entry_json _] with (map entry_json [e]). rewrite <-map_app, E4. by enter.
  - intros i n. destruct (save_run s d1 (map (renamed i n) l)) as (d2 & E2 & H2). exists d2. split; [|by rewrite Hv in H2].
    unfold updateEntry. enter. rewrite El. enter. unfold as_array. enter. by rewrite rename_run, E2.
  - intros i. destruct (save_run s d1 (List.filter (λ e, negb (bool_decide (id e = i))) l)) as (d2 & E2 & H2). exists d2.
    split; [|by rewrite Hv in H2]. unfold removeEntry. enter. rewrite El. enter. unfold as_array. enter. by rewrite filter_run, E2.
  - intros a. exists d1. split; [|done]. unfold findByAddress. enter. rewrite El. enter. unfold as_array. enter. apply find_run.
Qed.

(** *** Dismissals *)

Lemma new_set_id (l : list jstr) : NoDup l → new_set l = l.
Proof.
  unfold new_set.
  enough (∀ u, NoDup (u ++ l) → fold_left (λ u x, if bool_decide (x ∈ u) then u else u ++ [x]) l u = u ++ l) as H by exact (H []).
  induction l as [|x l IH]; intros u H; [by rewrite app_nil_r|].
  simpl. rewrite bool_decide_false.
  - replace (u ++ x :: l) with ((u ++ [x]) ++ l) in * by (by rewrite <-app_assoc). by apply IH.
  - apply NoDup_app in H as (_ & H & _). intros Hx. apply (H x Hx). by left.
Qed.

Lemma strings_plain (l : list jstr) : plain (JArr (map JStr l)).
Proof. apply plain_arr, List.Forall_map, list.Forall_true. done. Qed.

Lemma loadDismissedIds_run s d (l : list jstr) :
  dismissed (view d) l → ∃ d', solo handle loadDismissedIds s d = Some (inr l, s, d') ∧ view d' = view d.
Proof.
  intros [Hl Hb]. unfold loadDismissedIds. destruct (answers_get DISMISSED_KEY d) as (d' & E & Hv). exists d'. split; [|done].
  enter. rewrite E. cbn [fst snd]. destruct Hb as [-> | [-> ->]]; [|done].
  pose proof (json_parse_stringify _ (strings_plain l)) as Hp.
  destruct (stringify (JArr (map JStr l))) as [|c t] eqn:Es; [discriminate Es|]. rewrite Hp. cbn [or_syntax_error]. enter.
  replace (omap as_str (map JStr l)) with l by (clear; induction l as [|x l IH]; [done|by cbn; f_equal]). by rewrite new_set_id.
Qed.

(** Dismissing an announcement never throws, stores its id, keeps at most the
    last 50 ids and their order, and never forgets one of the others as long as
    there are fewer than 50. *)
Fact dismissals_bounded s d (l : list jstr) a :
  dismissed (view d) l → (length l ≤ 50)%nat →
  ∃ d' (l' : list jstr), solo handle (recordDismissal a) s d = Some (inr tt, s, d') ∧ dismissed (view d') l' ∧
    a ∈ l' ∧ (length l' ≤ 50)%nat ∧ (l' = l ∨ l' = last_n 50 (l ++ [a])) ∧ ((length l < 50)%nat → ∀ x, x ∈ l → x ∈ l').
Proof.
  intros Hd Hl. destruct (loadDismissedIds_run s d l Hd) as (d1 & E1 & V1). unfold recordDismissal.
  destruct (decide (a ∈ l)) as [Ha|Ha].
  - exists d1, l. split; [enter; rewrite E1; by rewrite bool_decide_true|]. rewrite V1. repeat split; auto; apply Hd.
  - destruct (answers_set DISMISSED_KEY (stringify (JArr (map JStr (last_n 50 (l ++ [a]))))) d1) as (d2 & E2 & V2).
    exists d2, (last_n 50 (l ++ [a])).
    split; [enter; rewrite E1; rewrite bool_decide_false by done; cbv zeta; rewrite solo_call, E2; done|].
    assert (NoDup (l ++ [a])) as Hn.
    { apply NoDup_app. split; [apply Hd|]. split; [|apply NoDup_singleton]. intros x Hx ->%list_elem_of_singleton. done. }
    split; [split; [|left; by rewrite V2, items_set]|split; [|split; [|split; [by right|]]]].
    + rewrite <-(take_drop (length (l ++ [a]) - 50) (l ++ [a])) in Hn. by apply NoDup_app in Hn as (_ & _ & Hn).
    + unfold last_n. rewrite skipn_app. apply elem_of_app. right. rewrite length_app. simpl.
      replace (length l + 1 - 50 - length l)%nat with 0%nat by lia. simpl. by left.
    + rewrite last_n_length. lia.
    + intros Hlt x Hx. unfold last_n. rewrite length_app. simpl. replace (length l + 1 - 50)%nat with 0%nat by lia.
      apply elem_of_app. by left.
Qed.

End Laws.

(** ** Release notices *)

(** [Some raw] allows [d] to be subscribed *)
Definition opted_in (d raw : jstr) : Prop :=
  startsWith DID_PREFIX d = true ∧ (length d ≤ 256)%nat ∧
  (json_parse raw = Some (JStr d) ∨ json_parse raw = None ∧ raw = d).

Lemma subscribe_trace {S : Type} d tr r :
  trace obs (subscribeToReleases (S := S) d) tr r →
  tr = [] ∨ startsWith DID_PREFIX d = true ∧ (length d ≤ 256)%nat ∧
    tr = [Ev (publicQuicRequest (js "/api/v1/notifications/subscribe") (did_post d)) r].
Proof.
  unfold subscribeToReleases, assertCanonicalDid. intros H.
  destruct (negb (truthy d)); [untrace H; by left|].
  destruct (startsWith DID_PREFIX d); cbn [negb] in H; [|untrace H; by left].
  destruct (DID_MAX_LEN <? length d)%nat eqn:El; [untrace H; by left|]. apply Nat.ltb_ge in El. right.
  unfold mbind, outside_bind in H. apply trace_bind in H as [(e & H & _)|(u & tr1 & tr2 & -> & Hu & H)]; [by apply trace_ret in H as [_ ?]|].
  apply trace_ret in Hu as [-> _]. by apply trace_call in H as ->.
Qed.

(** a silent subscription never throws, and is for a canonical DID that is the one
    stored on the device *)
Fact resubscribes_own_did {S : Type} did tr r :
  trace obs (resubscribeIfOptedIn (S := S) did) tr r →
  r = inr tt ∧ ((∀ path o a, ¬ In (Ev (publicQuicRequest path o) a) tr) ∨
    ∃ d raw a, did = Some d ∧ opted_in d raw ∧
      tr = [Ev (getItem RELEASE_SUBSCRIBED_DID_KEY) (inr (Some raw));
            Ev (publicQuicRequest (js "/api/v1/notifications/subscribe") (did_post d)) a]).
Proof.
  unfold resubscribeIfOptedIn. destruct did as [[|a did]|]; [intros [-> ->]; by auto| |intros [-> ->]; by auto].
  generalize (a :: did). clear a did. intros d H. apply trace_try_catch in H.
  assert (∃ tr', r = inr tt ∧ tr = tr' ∧ ∃ r', trace obs (S := S) (raw ← call (getItem RELEASE_SUBSCRIBED_DID_KEY);
    match raw with
    | None => ret tt
    | Some raw =>
        let stored := match json_parse raw with Some v => v | None => JStr raw end in
        if negb (bool_decide (as_str stored = Some d)) then ret tt else await (subscribeToReleases d);; ret tt
    end) tr' r') as (tr' & -> & -> & r' & Ht).
  { destruct H as [([] & -> & H)|(e & tr1 & tr2 & -> & H & Hr)]; [by eexists; eauto|].
    apply trace_ret in Hr as [-> ->]. exists tr1. rewrite app_nil_r. eauto. }
  clear H. split; [done|]. unfold mbind, outside_bind in Ht.
  apply trace_bind in Ht as [(e & Hg & _)|(raw & tr1 & tr2 & -> & Hg & Ht)]; apply trace_call in Hg as ->.
  { left. by intros path o a [?|[]]. }
  destruct raw as [raw|]; [|apply trace_ret in Ht as [-> _]; left; by intros path o a [?|[]]].
  cbv zeta in Ht. case_bool_decide as Hd; cbn [negb] in Ht; [|apply trace_ret in Ht as [-> _]; left; by intros path o a [?|[]]].
  assert (∃ r'', trace obs (subscribeToReleases (S := S) d) tr2 r'') as (r'' & Hs).
  { apply trace_bind in Ht as [(e & Ht & _)|(v & tr1 & tr3 & -> & Ht & H)]; rewrite trace_await in Ht; [by eauto|].
    apply trace_ret in H as [-> _]. rewrite app_nil_r. eauto. }
  apply subscribe_trace in Hs as [->|(Hp & Hl & ->)]; [left; by intros path o a [?|[]]|].
  right. exists d, raw, r''. split; [done|]. split; [|done]. split; [done|]. split; [done|].
  destruct (json_parse raw) as [[]|]; simplify_eq/=; auto.
Qed.

(** ** The address book without a storage that answers *)

(** a read that fails counts as an empty book, which the next entry replaces *)
Fact failed_read_forgets_the_book {S : Type} e t n a :
  let entry := mkEntry (num_str t ++ js "-" ++ js "x") (trim n) (trim a) t in
  trace obs (addEntry (S := S) (js "x") n a)
    [Ev (getItem STORAGE_KEY) (inl e); Ev Date_now (inr t); Ev Date_now (inr t);
     Ev (setItem STORAGE_KEY (stringify (JArr [entry_json entry]))) (inr tt)] (inr entry).
Proof. do 4 (eexists; eexists; split; [reflexivity|]). split; reflexivity. Qed.

(** ** Witnesses *)

Definition carol : AddressBookEntry := mkEntry (js "1-x") (js "Carol") (js "did:zhtp:c3") 1.
Definition with_carol : phone := upd_stored (set_items STORAGE_KEY (Some (stringify (JArr [entry_json carol])))) new_phone.

Lemma address_book_keeps_entries_witness :
  book (stored with_carol) [carol] ∧
  ∃ d', solo phone_handle (updateEntry (js "1-x") (js " Caro ")) tt with_carol = Some (inr tt, tt, d') ∧
    rewritten (stored with_carol) (stored d') [mkEntry (js "1-x") (js "Caro") (js "did:zhtp:c3") 1].
Proof.
  assert (book (stored with_carol) [carol]) as Hb by (left; apply items_set). split; [exact Hb|].
  exact (proj1 (proj2 (proj2 (address_book_keeps_entries phone_handle stored tt with_carol [carol] Hb))) (js "1-x") (js " Caro ")).
Defined.

Lemma dismissals_bounded_witness :
  dismissed (stored new_phone) [] ∧
  ∃ d' (l' : list jstr), solo phone_handle (recordDismissal (js "rst-1")) tt new_phone = Some (inr tt, tt, d') ∧
    dismissed (stored d') l' ∧ js "rst-1" ∈ l' ∧ (length l' ≤ 50)%nat ∧
    (l' = [] ∨ l' = last_n 50 ([] ++ [js "rst-1"])) ∧ ((0 < 50)%nat → ∀ x, x ∈ [] → x ∈ l').
Proof.
  assert (dismissed (stored new_phone) []) as Hd by (split; [constructor|by right]). split; [exact Hd|].
  exact (dismissals_bounded phone_handle stored tt new_phone [] (js "rst-1") Hd (Nat.le_0_l 50)).
Defined.
