(* ===== verification/Domains.v ===== *)
(** * Domains and stakes: src/src/services/DomainService.ts, DaoService.ts,
    src/src/hooks/useTokenRegistry.ts

    Both pay in SOV: the token is looked up in the registry, the nonce of the
    paying wallet is fetched, the native module signs, and what it signed is
    posted.  The state is the cache of the registry; a fetch of the registry that
    another call has under way and shares is not modelled. *)

From stdpp Require Import strings.
From S2P Require Import Prelude JsString JsMap Json Async Outside.
From S2P Require Quic TokenUnits NativeIdentity Tokens BrowserAuth.

Definition registry : Type := option (list json).

Section Domains.
Context (nativeModule : option (jstr → bool)).
Abbreviation prog := (Outside.prog registry).

(** ** The registry of tokens *)

(** [cachedTokens] *)
Definition fetchRegistry : prog (list json) :=
  response ← Tokens.listTokens;
  tokens ← dot response (js "tokens");
  match default (JArr []) tokens with
  | JArr tokens => modify (λ _, Some tokens);; ret tokens
  | _ => throw TypeError
  end.
Definition getTokenRegistry : prog (list json) :=
  cached ← gets (λ c : registry, c);
  match cached with Some tokens => ret tokens | None => fetchRegistry end.

(** [(t.symbol || '').toUpperCase() === target]; the target has ASCII letters *)
Definition has_symbol (symbol : jstr) (t : json) : prog bool :=
  v ← dot t (js "symbol");
  match v with
  | Some v =>
      if negb (jtruthy v) then ret (negb (truthy symbol))
      else match v with JStr s => ret (bool_decide (toLowerCase s = toLowerCase symbol)) | _ => throw TypeError end
  | None => ret (negb (truthy symbol))
  end.
Fixpoint find_symbol (symbol : jstr) (l : list json) : prog (option json) :=
  match l with
  | [] => ret None
  | t :: l => found ← has_symbol symbol t; if (found : bool) then ret (Some t) else find_symbol symbol l
  end.
Definition resolveTokenBySymbol (symbol : jstr) : prog (option json) :=
  tokens ← getTokenRegistry; find_symbol symbol tokens.

(** [token?.token_id], when it is not empty *)
Definition sov_token_id (missing : error) : prog json :=
  token ← resolveTokenBySymbol (js "SOV");
  match t ← token; jget (js "token_id") t with
  | Some id => if jtruthy id then ret id else throw missing
  | None => throw missing
  end.

(** ** DomainService *)

Definition DOMAIN_REGISTRATION_FEE_ATOMS : jstr := js "100000000000000000000".
Definition DOMAIN_CHAIN_ID : Z := 2.

Definition status_path (domain : jstr) : jstr := js "/api/v1/web4/domains/status/" ++ domain.

Definition checkAvailability (domain : jstr) : prog json :=
  data ← call (quicRequest (status_path domain) Quic.no_options);
  found ← dot data (js "found");
  let field k := opt_prop (js k) (jget (js k) data) in
  ret (JObj ([(js "available", JBool (negb (otruthy found)))] ++ field "classification"%string ++
    (if otruthy found
     then [(js "reason", JStr (js "Domain is already registered by " ++
             match jget (js "owner_did") data with Some v => js_String v | None => js "undefined" end))]
     else []) ++ field "registrar_fee"%string)).

Record DomainRegisterRequest := mkRegister {
  domain : jstr; primary_wallet_id : option jstr; asset_id : option jstr; content_mappings : option json }.

Definition INVALID_WALLET : error := Error (js "primary_wallet_id must be a 64-char hex wallet id (the owner's Primary wallet)").
Definition INVALID_ASSET : error := Error (js "asset_id must be a 64-char hex sovereign asset id (no 0x required)").
(** the dashes of these messages, U+2014, are written in ASCII *)
Definition NO_SOV_TOKEN : error := Error (js "SOV token not found in registry - cannot build domain fee tx").
Definition NO_DOMAIN_SIGNATURE : error := Error (js "domain_tx_signature_hex missing from signed request - rebuild the app so native lib-client includes the domain system tx signature (audit #2766)").

Definition primaryWalletIdHex (r : DomainRegisterRequest) : jstr := default [] (trim <$> primary_wallet_id r).
(** [asset_id?.replace(/^0x/i, '').trim() || undefined] *)
Definition assetIdHex (r : DomainRegisterRequest) : option jstr :=
  a ← asset_id r;
  let s := trim (if startsWith (js "0x") (toLowerCase a) then drop 2 a else a) in
  if truthy s then Some s else None.

Definition fee_params (wallet : jstr) (nonce : option json) : json :=
  JObj ([(js "senderWalletIdHex", JStr wallet); (js "amountAtoms", JStr DOMAIN_REGISTRATION_FEE_ATOMS)]
        ++ opt_prop (js "nonce") nonce ++ [(js "chainId", JNum DOMAIN_CHAIN_ID)]).
Definition register_params (r : DomainRegisterRequest) (fee : option json) : json :=
  JObj ([(js "domain", JStr (domain r))] ++ opt_prop (js "feePaymentTxHex") fee ++
        [(js "contentMappingsJson", match content_mappings r with Some m => JStr (stringify m) | None => JNull end);
         (js "metadataJson", JNull); (js "chainId", JNum DOMAIN_CHAIN_ID);
         (js "assetIdHex", match assetIdHex r with Some a => JStr a | None => JNull end)]).

(** [JSON.parse(request_json)] has a signature; the module promises a string *)
Definition signed_request (result : json) : prog jstr :=
  text ← dot result (js "request_json");
  match text with
  | Some (JStr text) =>
      body ← or_syntax_error (json_parse text);
      signature ← dot body (js "domain_tx_signature_hex");
      match signature with
      | Some (JStr s) => if truthy s then ret text else throw NO_DOMAIN_SIGNATURE
      | _ => throw NO_DOMAIN_SIGNATURE
      end
  | _ => throw (Js Quic.SyntaxError)
  end.

(** [{ method: 'POST', body }] *)
Definition post_text (text : jstr) : Quic.RequestOptions :=
  Quic.mkOptions (Some Quic.POST) (Some text) [] None None None None.

Definition DOMAIN_REGISTER : jstr := js "/api/v1/web4/domains/register".

Definition registerDomain (r : DomainRegisterRequest) : prog json :=
  let wallet := primaryWalletIdHex r in
  if negb (length wallet =? 64)%nat then throw INVALID_WALLET
  else if negb (match assetIdHex r with Some a => BrowserAuth.CHALLENGE_REGEX a | None => true end) then throw INVALID_ASSET
  else
    token ← sov_token_id NO_SOV_TOKEN;
    nonce ← Tokens.getTokenNonce (js_String token) wallet;
    feeTx ← NativeIdentity.signDomainFeePaymentTx nativeModule (fee_params wallet nonce);
    fee ← dot feeTx (js "fee_payment_tx_hex");
    result ← NativeIdentity.signDomainRegisterRequestWithFeePayment nativeModule (register_params r fee);
    text ← signed_request result;
    data ← call (quicRequest DOMAIN_REGISTER (post_text text));
    dot data (js "domain");;
    ret data.

Definition getUserDomains (ownerDid : jstr) : prog json :=
  data ← call (quicRequest (js "/api/v1/web4/domains?owner=" ++ Quic.encodeURIComponent ownerDid) Quic.no_options);
  dot data (js "count");;
  ret data.

Definition getDomainStatus (name : jstr) : prog json :=
  try_catch (call (quicRequest (status_path name) Quic.no_options))
    (λ e, if bool_decide (error_status e = Some 404)
          then ret (JObj [(js "domain", JStr name); (js "available", JBool true); (js "classification", JStr (js "commercial"))])
          else throw e).

Definition getDomainHistory (name : jstr) : prog json :=
  call (quicRequest (js "/api/v1/web4/domains/" ++ name ++ js "/history") Quic.no_options).

(** the length of the text is logged *)
Definition updateDomain (name newManifestCid expectedPreviousManifestCid : jstr) : prog json :=
  result ← NativeIdentity.signDomainUpdateRequest nativeModule
    (JObj [(js "domain", JStr name); (js "newManifestCid", JStr newManifestCid);
           (js "expectedPreviousManifestCid", JStr expectedPreviousManifestCid)]);
  text ← dot result (js "request_json");
  match text with
  | Some (JStr text) =>
      data ← call (quicRequest (js "/api/v1/web4/domains/update") (post_text text));
      dot data (js "domain");;
      ret data
  | _ => throw TypeError
  end.

Definition rollbackDomain (name : jstr) (version : Z) : prog json :=
  data ← call (quicRequest (js "/api/v1/web4/domains/" ++ name ++ js "/rollback") (post [] (JObj [(js "version", JNum version)])));
  dot data (js "domain");;
  ret data.

(** ** DaoService *)

(** the stake of a sector is paid into its wallet: id and wallet of [WELFARE_DAOS] *)
Definition WELFARE_DAOS : list (jstr * jstr) := [
  (js "food", js "5ad4d36b1d3a1aa783c05f316d67309b2b60de4fb76324428237dd25c2f9ffb4");
  (js "health", js "9f8d4ccf10869f9a95b4d3e76834da4140aed7fe6af7e8aa3af0d7074c4ac86c");
  (js "education", js "e4611cc1a4ebf28ad119e0c415b4300f53dd97703ee6aa793847c40fceea1d5d");
  (js "housing", js "ccf0caad2c80e51c2e43ceab4a8b5d1d34d4914da57534697ba8003cea3a4ca2");
  (js "energy", js "cb4fc86f2f0177f24be863874845ef3e4560dd89e981d1ff4fe07372ea693768")].

(** a finite number: [n * 10 ^ -e], without a trailing zero in [n] unless [e] is 0 *)
Record number := mkNumber { coefficient : Z; places : nat }.

(** [String(x)] of a positive number: plain digits from 1e-6 and below 1e21 *)
Definition number_text (x : number) : jstr :=
  let ds := dec_str (coefficient x) in
  let exponent := Z.of_nat (length ds) - 1 - Z.of_nat (places x) in
  if (exponent <? 21) && (-7 <? exponent) then
    match places x with O => ds | e => dec_frac_str (coefficient x) e end
  else
    let shown := strip_trailing_zeros ds in
    take 1 shown ++ (if truthy (drop 1 shown) then js "." ++ drop 1 shown else []) ++
    js "e" ++ (if exponent <? 0 then js "-" else js "+") ++ dec_str (Z.abs exponent).

Definition STAKE : jstr := js "/api/v1/dao/stake".

Definition stake_params (wallet atoms : jstr) (nonce : option json) (lockBlocks : Z) : json :=
  JObj ([(js "sectorDaoKeyId", JStr wallet); (js "amount", JStr atoms)] ++ opt_prop (js "nonce") nonce
        ++ [(js "lockBlocks", JNum lockBlocks)]).

(** [lockBlocks] is an integer; [None] is [NaN] or infinite *)
Definition stakeDao (daoId : jstr) (amountSov : option number) (lockBlocks : option Z) (stakerWalletId : option jstr) : prog json :=
  match mget daoId WELFARE_DAOS with
  | None => throw (Error (js "Unknown welfare DAO id: " ++ daoId))
  | Some dao =>
      match amountSov, lockBlocks, stakerWalletId with
      | Some amountSov, Some lockBlocks, Some staker =>
          if coefficient amountSov <=? 0 then throw (Error (js "amountSov must be a positive number"))
          else if lockBlocks <=? 0 then throw (Error (js "lockBlocks must be > 0"))
          else if negb (length staker =? 64)%nat then throw (Error (js "stakerWalletId must be a 64-char hex string (32 bytes)"))
          else
            token ← sov_token_id (Error (js "SOV token_id not available from registry"));
            nonce ← Tokens.getTokenNonce (js_String token) staker;
            match TokenUnits.humanToAtomic (number_text amountSov) 18 with
            | Some atoms =>
                if bool_decide (atoms = js "0")
                then throw (Error (js "amountSov " ++ number_text amountSov ++ js " converts to zero atoms"))
                else
                  result ← NativeIdentity.signDaoStakeTransaction nativeModule (stake_params dao atoms nonce lockBlocks);
                  tx ← Tokens.signed_tx result;
                  data ← call (quicRequest STAKE (post [] (JObj [(js "signed_tx", tx)])));
                  dot data (js "tx_hash");;
                  ret data
            | None => throw (Error (js "amountSov " ++ number_text amountSov ++ js " converts to zero atoms"))
            end
      | None, _, _ => throw (Error (js "amountSov must be a positive number"))
      | Some amountSov, None, _ =>
          if coefficient amountSov <=? 0 then throw (Error (js "amountSov must be a positive number"))
          else throw (Error (js "lockBlocks must be > 0"))
      | Some amountSov, Some lockBlocks, None =>
          if coefficient amountSov <=? 0 then throw (Error (js "amountSov must be a positive number"))
          else if lockBlocks <=? 0 then throw (Error (js "lockBlocks must be > 0"))
          else throw (Error (js "stakerWalletId must be a 64-char hex string (32 bytes)"))
      end
  end.

End Domains.

(** * Properties *)

(** ** Exact stakes *)

Lemma not_digits s c : c ∈ s → is_digit c = false → all_digits s = false.
Proof.
  intros Hc Hd. apply not_true_is_false. intros [_ H]%all_digits_spec. unfold digits in H.
  rewrite list.Forall_forall in H. apply H in Hc. congruence.
Qed.

Lemma digits_no_char s c : digits s → is_digit c = false → c ∉ s.
Proof. intros Hs Hc Hin. unfold digits in Hs. rewrite list.Forall_forall in Hs. apply Hs in Hin. congruence. Qed.

Lemma digits_no_space s : digits s → Forall (λ c, is_space c = false) s.
Proof. intros H. eapply list.Forall_impl; [exact H|]. apply is_digit_not_space. Qed.

(** an exponent is no amount *)
Lemma exponent_refused a t sign k :
  digits a → digits t → (sign = "-"%char ∨ sign = "+"%char) → 0 ≤ k →
  TokenUnits.humanToAtomic (a ++ (if truthy t then js "." ++ t else []) ++ js "e" ++ [sign] ++ dec_str k) 18 = None.
Proof.
  intros Ha Ht Hs Hk. set (x := js "e" ++ [sign] ++ dec_str k).
  assert (Forall (λ c, is_space c = false) x ∧ "."%char ∉ x) as [Hx Hdot].
  { pose proof (dec_str_digits k Hk) as Hd. unfold x. split.
    - repeat apply Forall_app_2; [by repeat constructor|destruct Hs as [-> | ->]; by repeat constructor|by apply digits_no_space].
    - rewrite !elem_of_app. intros [H|[H|H]]; [by vm_compute in H; set_solver|destruct Hs as [-> | ->]; by vm_compute in H; set_solver|].
      by apply digits_no_char in H. }
  unfold TokenUnits.humanToAtomic. rewrite trim_no_space.
  2: { apply Forall_app_2; [by apply digits_no_space|]. apply Forall_app_2; [|done].
       destruct (truthy t); [|constructor]. apply Forall_app_2; [by repeat constructor|by apply digits_no_space]. }
  destruct (negb (truthy _)); [done|]. cbv zeta. destruct (truthy t).
  - change (a ++ (js "." ++ t) ++ x) with (a ++ TokenUnits.dot :: (t ++ x)). rewrite split_on_app by by apply digits_no_char.
    rewrite split_on_none by (rewrite elem_of_app; intros [H|H]; [by apply digits_no_char in H|done]).
    change (default [] ([a; t ++ x] !! 1%nat)) with (t ++ x). change (default [] ([a; t ++ x] !! 0%nat)) with a.
    rewrite (not_digits (t ++ x) "e"%char) by (done || (apply elem_of_app; right; left)).
    replace (truthy (t ++ x)) with true by (by destruct t). by rewrite orb_true_r.
  - cbn [app]. rewrite split_on_none by (rewrite elem_of_app; intros [H|H]; [by apply digits_no_char in H|done]).
    change (default [] ([a ++ x] !! 0%nat)) with (a ++ x).
    by rewrite (not_digits (a ++ x) "e"%char) by (done || (apply elem_of_app; right; left)).
Qed.

Lemma scaled q f m c A B C E T : E = A * B → T = C * A → m = f * B → c = E * q + m → (q * T + f * C) * E = c * T.
Proof. intros -> -> -> ->. ring. Qed.

Lemma fraction_atoms c k atoms :
  0 < c → TokenUnits.humanToAtomic (dec_frac_str c (Datatypes.S k)) 18 = Some atoms →
  dec_val atoms * 10 ^ Z.of_nat (Datatypes.S k) = c * 10 ^ 18.
Proof.
  intros Hp H. unfold dec_frac_str in H. rewrite Z.abs_eq in H by lia. rewrite (proj2 (Z.ltb_ge _ _)) in H by lia. cbn [app] in H.
  set (e := Datatypes.S k) in *. set (E := 10 ^ Z.of_nat e) in *. assert (0 < E) as HE by (unfold E; lia).
  pose proof (Z.mod_pos_bound c E HE) as Hm. pose proof (Z.div_pos c E ltac:(lia) HE) as Hq.
  pose proof (Z.div_mod c E ltac:(lia)) as Hc.
  pose proof (field_length k (c mod E) Hm) as Hl. pose proof (field_val e (c mod E) (proj1 Hm)) as Hv.
  assert (digits (padStart e "0" (dec_str (c mod E)))) as Hpd
    by (apply digits_app; split; [apply digits_zeros|apply dec_str_digits; lia]).
  change (Datatypes.S k) with e in Hl. set (p := padStart e "0" (dec_str (c mod E))) in *.
  pose proof (TokenUnits.strip_trailing_zeros_val p) as Hs. pose proof (TokenUnits.strip_trailing_zeros_length p) as Hsl.
  pose proof (TokenUnits.strip_trailing_zeros_digits p Hpd) as Hfd. set (f := strip_trailing_zeros p) in *.
  assert (Z.of_nat (length f) ≤ 18) as H18.
  { destruct (decide (f = [])) as [->|Hf]; [simpl; lia|]. apply Z.nlt_ge. intros Hgt.
    change (js "." ++ f) with (TokenUnits.dot :: f) in H.
    rewrite (proj1 (TokenUnits.humanToAtomic_exact (dec_str (c / E)) f 18 (dec_str_nonempty _) (dec_str_digits _ Hq) Hf Hfd ltac:(lia))) in H.
    rewrite (proj2 (Z.leb_gt _ _)) in H by lia. done. }
  change (js "." ++ f) with (TokenUnits.dot :: f) in H.
  rewrite TokenUnits.humanToAtomic_dotted in H by (done || apply dec_str_nonempty || by apply dec_str_digits).
  assert (0 ≤ TokenUnits.amount_atoms (dec_str (c / E)) f 18) as Hn.
  { unfold TokenUnits.amount_atoms. pose proof (dec_val_nonneg f Hfd). rewrite dec_str_val by done. nia. }
  injection H as <-. rewrite dec_str_val by done. unfold TokenUnits.amount_atoms. rewrite dec_str_val by done.
  apply (scaled _ _ (c mod E) c (10 ^ Z.of_nat (length f)) (10 ^ Z.of_nat (e - length f))); [| |by rewrite Hv, Hl in Hs|done];
    [unfold E|]; rewrite <-Z.pow_add_r by lia; f_equal; lia.
Qed.

Lemma number_atoms x atoms :
  0 < coefficient x → TokenUnits.humanToAtomic (number_text x) 18 = Some atoms →
  dec_val atoms * 10 ^ Z.of_nat (places x) = coefficient x * 10 ^ 18.
Proof.
  intros Hp H. unfold number_text in H. destruct (_ && _).
  - destruct (places x) as [|e] eqn:Ee; [|by apply fraction_atoms].
    rewrite TokenUnits.humanToAtomic_whole in H; [|apply dec_str_nonempty|apply dec_str_digits; lia|lia].
    injection H as <-. rewrite !dec_str_val by (rewrite ?dec_str_val by lia; lia). simpl (Z.of_nat 0). lia.
  - exfalso. pose proof (TokenUnits.strip_trailing_zeros_digits _ (dec_str_digits (coefficient x) ltac:(lia))) as Hd.
    rewrite <-(take_drop 1 (strip_trailing_zeros _)) in Hd. apply digits_app in Hd as [Hd1 Hd2].
    set (k := Z.of_nat (length (dec_str (coefficient x))) - 1 - Z.of_nat (places x)) in *.
    replace (js "e" ++ (if k <? 0 then js "-" else js "+") ++ dec_str (Z.abs k))
      with (js "e" ++ [if k <? 0 then "-"%char else "+"%char] ++ dec_str (Z.abs k)) in H by by destruct (k <? 0).
    rewrite exponent_refused in H; [done|done|done|destruct (k <? 0); auto|lia].
Qed.

(** ** Requests *)

Definition list_request (e : event) : Prop := ∃ a, e = Ev (quicRequest (js "/api/v1/token/list") Quic.no_options) a.

Lemma emits_has_symbol symbol t : emits list_request (has_symbol symbol t).
Proof. unfold has_symbol. emits_through. Qed.
Lemma emits_find_symbol symbol l : emits list_request (find_symbol symbol l).
Proof. induction l as [|t l IH]; cbn [find_symbol]; emits_through; [apply emits_has_symbol|done]. Qed.

Lemma emits_sov_token_id e : emits list_request (sov_token_id e).
Proof.
  unfold sov_token_id, resolveTokenBySymbol, getTokenRegistry, fetchRegistry, Tokens.listTokens. emits_through.
  - by eexists.
  - unfold Tokens.map_field. emits_through. induction l as [|v l IH]; cbn [Tokens.map_prog]; unfold Tokens.normalizeListed;
      emits_through; try done. unfold Tokens.or_throw. emits_through.
  - apply emits_find_symbol.
Qed.

(** a signature of the bridge *)
Definition signs_with (method : jstr) (params : json) (a : error + json) : event :=
  Ev (native NativeIdentity.MODULE method [params]) a.

Lemma checked_trace {S} nativeModule method e params tr (r : error + json) :
  trace obs (NativeIdentity.checked (S := S) nativeModule method (throw e) [params]) tr r →
  (tr = [] ∧ ∃ e, r = inl e) ∨ tr = [signs_with method params r].
Proof. intros [[-> H]|[H| ->]]%NativeIdentity.trace_checked; [by left|untrace H; left; eauto|by right]. Qed.

(** the signed request of the bridge *)
Definition signed (result : json) (text : jstr) : Prop :=
  jget (js "request_json") result = Some (JStr text) ∧
  ∃ body s, json_parse text = Some body ∧ jget (js "domain_tx_signature_hex") body = Some (JStr s) ∧ s ≠ [].

Lemma signed_request_trace result tr r :
  trace obs (signed_request result) tr r →
  tr = [] ∧ ((∃ e, r = inl e) ∨ ∃ text, r = inr text ∧ signed result text).
Proof.
  unfold signed_request, mbind, outside_bind.
  intros [(e & H & ->)|(v & tr1 & tr2 & -> & Hv & H)]%trace_bind; [apply trace_dot in H as [-> _]; eauto|].
  apply trace_dot in Hv as [-> [[_ ?]|[_ Hv]]]; [done|]. injection Hv as ->. cbn [app].
  destruct (jget (js "request_json") result) as [[| | | |text| |]|] eqn:Et; try (apply trace_throw in H as [-> ->]; by eauto).
  apply trace_bind in H as [(e & H & ->)|(body & tr1 & tr3 & -> & Hb & H)].
  { destruct (json_parse text); [by apply trace_ret in H as [_ ?]|apply trace_throw in H as [-> _]; eauto]. }
  destruct (json_parse text) as [b|] eqn:Ep; [|by apply trace_throw in Hb as [_ ?]].
  apply trace_ret in Hb as [-> Hb]. injection Hb as ->. cbn [app].
  apply trace_bind in H as [(e & H & ->)|(sig & tr1 & tr2 & -> & Hs & H)]; [apply trace_dot in H as [-> _]; eauto|].
  apply trace_dot in Hs as [-> [[_ ?]|[_ Hs]]]; [done|]. injection Hs as ->. cbn [app].
  destruct (jget (js "domain_tx_signature_hex") b) as [[| | | |sg| |]|] eqn:Es; try (apply trace_throw in H as [-> ->]; by eauto).
  destruct (truthy sg) eqn:Eg; [|apply trace_throw in H as [-> ->]; by eauto].
  apply trace_ret in H as [-> ->]. split; [done|]. right. exists text. split; [done|]. split; [done|]. exists b, sg. by apply truthy_true in Eg.
Qed.

Lemma logged_post_trace {S} (c : req json) k tr (r : error + json) :
  trace obs (S := S) (data ← call c; dot data k;; ret data) tr r → ∃ a, tr = [Ev c a] ∧ ∀ v, r = inr v → a = inr v.
Proof.
  intros H. unfold mbind, outside_bind in H.
  apply trace_bind in H as [(e & H & ->)|(v & tr1 & tr2 & -> & Hc & H)]; [apply trace_call in H as ->; by eexists|].
  apply trace_call in Hc as ->. exists (inr v).
  apply trace_bind in H as [(e & H & ->)|(w & tr1 & tr3 & -> & Hd & H)]; [by apply trace_dot in H as [-> _]|].
  apply trace_dot in Hd as [-> _]. apply trace_ret in H as [-> ->]. split; [done|]. by intros w' [= ->].
Qed.

(** the requests after the registry, from the nonce to the post *)
Definition nonce_event (token wallet : jstr) (a : error + json) : event :=
  Ev (quicRequest (js "/api/v1/token/nonce/" ++ token ++ js "/" ++ wallet) Quic.no_options) a.
Definition domain_events (r : DomainRegisterRequest) (token : jstr) (nonce fee : option json) (text : jstr)
    (a1 a2 a3 a4 : error + json) : list event :=
  [nonce_event token (primaryWalletIdHex r) a1;
   signs_with (js "signDomainFeePaymentTx") (fee_params (primaryWalletIdHex r) nonce) a2;
   signs_with (js "signDomainRegisterRequestWithFeePayment") (register_params r fee) a3;
   Ev (quicRequest DOMAIN_REGISTER (post_text text)) a4].

Definition registration (r : DomainRegisterRequest) (tr : list event) (res : error + json) : Prop :=
  ∃ listed token nonce fee text a1 a2 a3 a4 n,
    tr = listed ++ take n (domain_events r token nonce fee text a1 a2 a3 a4) ∧ Forall list_request listed ∧ (n ≤ 4)%nat ∧
    (tr ≠ [] → length (primaryWalletIdHex r) = 64%nat ∧ ∀ a, assetIdHex r = Some a → BrowserAuth.CHALLENGE_REGEX a = true) ∧
    ((2 ≤ n)%nat → ∃ v, a1 = inr v ∧ nonce = jget (js "nonce") v) ∧
    ((3 ≤ n)%nat → ∃ v, a2 = inr v ∧ fee = jget (js "fee_payment_tx_hex") v) ∧
    ((4 ≤ n)%nat → ∃ v, a3 = inr v ∧ signed v text) ∧
    (∀ v, res = inr v → n = 4%nat ∧ a4 = inr v).

(** the stages, from the last *)
Section Stages.
Context (nativeModule : option (jstr → bool)) (r : DomainRegisterRequest).
Let none : error + json := inl TypeError.

Lemma signing_stage fee tr res :
  trace obs
    (result ← NativeIdentity.signDomainRegisterRequestWithFeePayment nativeModule (register_params r fee);
     text ← signed_request result;
     data ← call (quicRequest DOMAIN_REGISTER (post_text text)); dot data (js "domain");; ret data) tr res →
  ∃ text a3 a4 n,
    tr = take n [signs_with (js "signDomainRegisterRequestWithFeePayment") (register_params r fee) a3;
                 Ev (quicRequest DOMAIN_REGISTER (post_text text)) a4] ∧ (n ≤ 2)%nat ∧
    ((2 ≤ n)%nat → ∃ v, a3 = inr v ∧ signed v text) ∧ (∀ v, res = inr v → n = 2%nat ∧ a4 = inr v).
Proof.
  intros H. unfold mbind, outside_bind in H.
  apply trace_bind in H as [(e & H & ->)|(result & tr1 & tr2 & -> & Hs & H)].
  { apply checked_trace in H as [[-> _]| ->]; [exists [], none, none, 0%nat|exists [], (inl e), none, 1%nat];
      by repeat split; try lia. }
  apply checked_trace in Hs as [[_ [e ?]]| ->]; [done|].
  apply trace_bind in H as [(e & H & ->)|(text & tr1 & tr3 & -> & Ht & H)].
  { apply signed_request_trace in H as [-> _]. exists [], (inr result), none, 1%nat. by repeat split; try lia. }
  apply signed_request_trace in Ht as [-> [[e ?]|(text' & Ht & Hg)]]; [done|]. injection Ht as <-.
  apply (logged_post_trace (quicRequest DOMAIN_REGISTER (post_text text))) in H as (a & -> & Ha).
  exists text, (inr result), a, 2%nat. repeat split; eauto.
Qed.

Lemma paying_stage nonce tr res :
  trace obs
    (feeTx ← NativeIdentity.signDomainFeePaymentTx nativeModule (fee_params (primaryWalletIdHex r) nonce);
     fee ← dot feeTx (js "fee_payment_tx_hex");
     result ← NativeIdentity.signDomainRegisterRequestWithFeePayment nativeModule (register_params r fee);
     text ← signed_request result;
     data ← call (quicRequest DOMAIN_REGISTER (post_text text)); dot data (js "domain");; ret data) tr res →
  ∃ fee text a2 a3 a4 n,
    tr = take n (tail (domain_events r [] nonce fee text none a2 a3 a4)) ∧ (n ≤ 3)%nat ∧
    ((2 ≤ n)%nat → ∃ v, a2 = inr v ∧ fee = jget (js "fee_payment_tx_hex") v) ∧
    ((3 ≤ n)%nat → ∃ v, a3 = inr v ∧ signed v text) ∧ (∀ v, res = inr v → n = 3%nat ∧ a4 = inr v).
Proof.
  intros H. unfold mbind, outside_bind in H.
  apply trace_bind in H as [(e & H & ->)|(feeTx & tr1 & tr2 & -> & Hs & H)].
  { apply checked_trace in H as [[-> _]| ->]; [exists None, [], none, none, none, 0%nat|exists None, [], (inl e), none, none, 1%nat];
      by repeat split; try lia. }
  apply checked_trace in Hs as [[_ [e ?]]| ->]; [done|].
  apply trace_bind in H as [(e & H & ->)|(fee & tr1 & tr3 & -> & Hf & H)].
  { apply trace_dot in H as [-> _]. exists None, [], (inr feeTx), none, none, 1%nat. by repeat split; try lia. }
  apply trace_dot in Hf as [-> [[_ ?]|[_ Hf]]]; [done|]. injection Hf as ->.
  apply signing_stage in H as (text & a3 & a4 & n & -> & Hn & H3 & Hr).
  exists (jget (js "fee_payment_tx_hex") feeTx), text, (inr feeTx), a3, a4, (S n). repeat split; [lia|by eauto|intros; apply H3; lia|..];
    intros; destruct (Hr v); auto.
Qed.

Lemma nonce_stage token tr res :
  trace obs
    (nonce ← Tokens.getTokenNonce token (primaryWalletIdHex r);
     feeTx ← NativeIdentity.signDomainFeePaymentTx nativeModule (fee_params (primaryWalletIdHex r) nonce);
     fee ← dot feeTx (js "fee_payment_tx_hex");
     result ← NativeIdentity.signDomainRegisterRequestWithFeePayment nativeModule (register_params r fee);
     text ← signed_request result;
     data ← call (quicRequest DOMAIN_REGISTER (post_text text)); dot data (js "domain");; ret data) tr res →
  ∃ nonce fee text a1 a2 a3 a4 n,
    tr = take n (domain_events r token nonce fee text a1 a2 a3 a4) ∧ (n ≤ 4)%nat ∧
    ((2 ≤ n)%nat → ∃ v, a1 = inr v ∧ nonce = jget (js "nonce") v) ∧
    ((3 ≤ n)%nat → ∃ v, a2 = inr v ∧ fee = jget (js "fee_payment_tx_hex") v) ∧
    ((4 ≤ n)%nat → ∃ v, a3 = inr v ∧ signed v text) ∧ (∀ v, res = inr v → n = 4%nat ∧ a4 = inr v).
Proof.
  intros H. unfold mbind, outside_bind in H.
  apply trace_bind in H as [(e & H & ->)|(nonce & tr1 & tr2 & -> & Hs & H)];
    pose proof (Tokens.trace_nonce (S := registry) (token, primaryWalletIdHex r)) as Hl; cbn [fst snd] in Hl.
  - apply Hl in H as (a & -> & _). exists None, None, [], a, none, none, none, 1%nat. by repeat split; try lia.
  - apply Hl in Hs as ([e|v] & -> & Hn); [done|]. destruct Hn as [[e ?]|Hn]; [done|]. injection Hn as ->.
    apply paying_stage in H as (fee & text & a2 & a3 & a4 & n & -> & Hn & H2 & H3 & Hr).
    exists (jget (js "nonce") v), fee, text, (inr v), a2, a3, a4, (S n).
    repeat split; [lia|by eauto|intros; apply H2; lia|intros; apply H3; lia|..]; intros; destruct (Hr v0); auto.
Qed.

Lemma no_request e : registration r [] (inl e).
Proof. exists [], [], None, None, [], none, none, none, none, 0%nat. by repeat split; try lia. Qed.

Lemma registry_failed e tr :
  Forall list_request tr →
  (tr ≠ [] → length (primaryWalletIdHex r) = 64%nat ∧ ∀ a, assetIdHex r = Some a → BrowserAuth.CHALLENGE_REGEX a = true) →
  registration r tr (inl e).
Proof.
  intros Hl Hg. exists tr, [], None, None, [], none, none, none, none, 0%nat. rewrite app_nil_r.
  split; [done|]. split; [done|]. split; [lia|]. split; [done|]. by repeat split; try lia.
Qed.

End Stages.

(** A registration asks for nothing unless the wallet has 64 characters and
    the asset, if there is one, 64 hexadecimal digits.  After the registry it
    fetches the nonce of that wallet, has a payment of exactly 100 SOV from that
    wallet with that nonce signed, has the registration of the caller's domain
    signed over that payment, and posts exactly the signed text, which carries a
    signature of the domain transaction; each step only after the one before
    answered, and it succeeds only with the answer of the post. *)
Fact domain_fee_signed_first nativeModule r tr res :
  trace obs (registerDomain nativeModule r) tr res → registration r tr res.
Proof.
  unfold registerDomain. cbv zeta. intros H.
  destruct (length (primaryWalletIdHex r) =? 64)%nat eqn:Ew; cbn [negb] in H.
  2: { apply trace_throw in H as [-> ->]. by apply no_request. }
  destruct (match assetIdHex r with Some a => BrowserAuth.CHALLENGE_REGEX a | None => true end) eqn:Ea; cbn [negb] in H.
  2: { apply trace_throw in H as [-> ->]. by apply no_request. }
  assert (length (primaryWalletIdHex r) = 64%nat ∧ ∀ a, assetIdHex r = Some a → BrowserAuth.CHALLENGE_REGEX a = true) as Hg.
  { split; [by apply Nat.eqb_eq|]. intros a Hsa. by rewrite Hsa in Ea. }
  unfold mbind at 1, outside_bind at 1 in H.
  apply trace_bind in H as [(e & H & ->)|(token & tr1 & tr2 & -> & Hs & H)].
  - by apply registry_failed; [exact (emits_sov_token_id NO_SOV_TOKEN _ _ H)|].
  - pose proof (emits_sov_token_id NO_SOV_TOKEN _ _ Hs) as Hl.
    apply nonce_stage in H as (nonce & fee & text & a1 & a2 & a3 & a4 & n & -> & Hn & H1 & H2 & H3 & Hr).
    exists tr1, (js_String token), nonce, fee, text, a1, a2, a3, a4, n. repeat split; auto; try apply Hg; by destruct (Hr v).
Qed.

(** ** Stakes *)

Section Stakes.
Context (nativeModule : option (jstr → bool)).
Let none : error + json := inl TypeError.

Definition stake_events (dao staker token atoms : jstr) (nonce : option json) (lockBlocks : Z) (tx : json)
    (a1 a2 a3 : error + json) : list event :=
  [nonce_event token staker a1;
   signs_with (js "signDaoStakeTransaction") (stake_params dao atoms nonce lockBlocks) a2;
   Ev (quicRequest STAKE (post [] (JObj [(js "signed_tx", tx)]))) a3].

Definition staking (daoId : jstr) (amountSov : option number) (lockBlocks : option Z) (stakerWalletId : option jstr)
    (tr : list event) (res : error + json) : Prop :=
  tr = [] ∧ (∃ e, res = inl e) ∨
  ∃ dao x lock staker listed token atoms nonce tx a1 a2 a3 n,
    mget daoId WELFARE_DAOS = Some dao ∧ amountSov = Some x ∧ 0 < coefficient x ∧ lockBlocks = Some lock ∧ 0 < lock ∧
    stakerWalletId = Some staker ∧ length staker = 64%nat ∧
    tr = listed ++ take n (stake_events dao staker token atoms nonce lock tx a1 a2 a3) ∧ Forall list_request listed ∧ (n ≤ 3)%nat ∧
    ((2 ≤ n)%nat → (∃ v, a1 = inr v ∧ nonce = jget (js "nonce") v) ∧
       dec_val atoms * 10 ^ Z.of_nat (places x) = coefficient x * 10 ^ 18) ∧
    ((3 ≤ n)%nat → ∃ v, a2 = inr v ∧ jget (js "signed_tx") v = Some tx) ∧
    (∀ v, res = inr v → n = 3%nat ∧ a3 = inr v).

Lemma staking_stage params tr (res : error + json) :
  trace obs
    (result ← NativeIdentity.signDaoStakeTransaction nativeModule params;
     tx ← Tokens.signed_tx result;
     data ← call (quicRequest STAKE (post [] (JObj [(js "signed_tx", tx)]))); dot data (js "tx_hash");; ret data : Outside.prog registry json) tr res →
  ∃ tx a2 a3 n,
    tr = take n [signs_with (js "signDaoStakeTransaction") params a2; Ev (quicRequest STAKE (post [] (JObj [(js "signed_tx", tx)]))) a3] ∧
    (n ≤ 2)%nat ∧ ((2 ≤ n)%nat → ∃ v, a2 = inr v ∧ jget (js "signed_tx") v = Some tx) ∧ (∀ v, res = inr v → n = 2%nat ∧ a3 = inr v).
Proof.
  intros H. unfold mbind, outside_bind in H.
  apply trace_bind in H as [(e & H & ->)|(result & tr1 & tr2 & -> & Hs & H)].
  { apply NativeIdentity.trace_plain in H as [[-> _]| ->]; [exists JNull, none, none, 0%nat|exists JNull, (inl e), none, 1%nat];
      by repeat split; try lia. }
  apply NativeIdentity.trace_plain in Hs as [[_ [e ?]]| ->]; [done|].
  apply trace_bind in H as [(e & H & ->)|(tx & tr1 & tr3 & -> & Ht & H)].
  { apply Tokens.trace_signed_tx in H as [-> _]. exists JNull, (inr result), none, 1%nat. by repeat split; try lia. }
  apply Tokens.trace_signed_tx in Ht as [-> [[e ?]|(tx' & Ht & Hg & _)]]; [done|]. injection Ht as <-.
  apply (logged_post_trace (quicRequest STAKE (post [] (JObj [(js "signed_tx", tx)])))) in H as (a & -> & Ha).
  exists tx, (inr result), a, 2%nat. repeat split; eauto.
Qed.

(** A stake asks for nothing unless the sector is one of five, the amount and
    the lock are positive and the wallet has 64 characters.  Then, after the
    registry and the nonce of the wallet, it has a stake for the wallet of the
    sector signed whose atoms are exactly the amount times 10^18, and posts the
    signed transaction; each step only after the one before answered. *)
Fact stakes_exact_amount daoId amountSov lockBlocks stakerWalletId tr res :
  trace obs (stakeDao nativeModule daoId amountSov lockBlocks stakerWalletId) tr res →
  staking daoId amountSov lockBlocks stakerWalletId tr res.
Proof.
  unfold stakeDao. destruct (mget daoId WELFARE_DAOS) as [dao|] eqn:Ed; [|intros [-> ->]; left; eauto].
  destruct amountSov as [x|]; [|intros [-> ->]; left; eauto].
  destruct (Z.leb_spec (coefficient x) 0) as [|Hx]; [destruct lockBlocks, stakerWalletId; intros [-> ->]; left; eauto|].
  destruct lockBlocks as [lock|]; [|intros [-> ->]; left; eauto].
  destruct (Z.leb_spec lock 0) as [|Hlk]; [destruct stakerWalletId; intros [-> ->]; left; eauto|].
  destruct stakerWalletId as [staker|]; [|intros [-> ->]; left; eauto].
  destruct (length staker =? 64)%nat eqn:Ew; [apply Nat.eqb_eq in Ew|intros [-> ->]; left; eauto]. cbn [negb].
  intros H. right. unfold mbind, outside_bind in H.
  apply trace_bind in H as [(e & H & ->)|(token & listed & tr2 & -> & Hs & H)].
  { pose proof (emits_sov_token_id _ _ _ H) as Hl.
    exists dao, x, lock, staker, tr, [], [], None, JNull, none, none, none, 0%nat. rewrite app_nil_r. by repeat split; try lia. }
  pose proof (emits_sov_token_id _ _ _ Hs) as Hl. exists dao, x, lock, staker, listed, (js_String token).
  apply trace_bind in H as [(e & H & ->)|(nonce & tr1 & tr3 & -> & Hn & H)];
    pose proof (Tokens.trace_nonce (S := registry) (js_String token, staker)) as Ht; cbn [fst snd] in Ht.
  { apply Ht in H as (a & -> & _). exists [], None, JNull, a, none, none, 1%nat. by repeat split; try lia. }
  apply Ht in Hn as ([e|v] & -> & Hn); [done|]. destruct Hn as [[e ?]|Hn]; [done|]. injection Hn as ->.
  destruct (TokenUnits.humanToAtomic (number_text x) 18) as [atoms|] eqn:Ea; [case_bool_decide|];
    [apply trace_throw in H as [-> ->]; exists [], None, JNull, (inr v), none, none, 1%nat; by repeat split; try lia| |
     apply trace_throw in H as [-> ->]; exists [], None, JNull, (inr v), none, none, 1%nat; by repeat split; try lia].
  apply number_atoms in Ea; [|done].
  apply staking_stage in H as (tx & a2 & a3 & n & -> & Hn & H2 & Hr).
  exists atoms, (jget (js "nonce") v), tx, (inr v), a2, a3, (S n).
  repeat split; auto; [lia|by eauto|intros; apply H2; lia|..]; intros; destruct (Hr v0); auto.
Qed.

End Stakes.

(** ** Witnesses *)

Definition a_wallet : jstr := flat_map (λ _, js "0a1b") (seq 0 16).
Definition sov : registry := Some [JObj [(js "symbol", JStr (js "sov")); (js "token_id", JStr (js "aa"))]].
Definition stake_trace : list event :=
  stake_events (js "5ad4d36b1d3a1aa783c05f316d67309b2b60de4fb76324428237dd25c2f9ffb4") a_wallet (js "aa") (js "1500000000000000000")
    (Some (JNum 7)) 216000 (JStr (js "f0"))
    (inr (JObj [(js "nonce", JNum 7)])) (inr (JObj [(js "signed_tx", JStr (js "f0"))])) (inr (JObj [(js "tx_hash", JStr (js "h"))])).

Lemma stake_trace_ok :
  trace obs (stakeDao (Some (λ _, true)) (js "food") (Some (mkNumber 15 1)) (Some 216000) (Some a_wallet)) stake_trace
    (inr (JObj [(js "tx_hash", JStr (js "h"))])).
Proof.
  exists sov. do 3 (eexists; eexists; split; [reflexivity|]). split; reflexivity.
Qed.

Lemma stakes_exact_amount_witness :
  ∃ atoms, In (signs_with (js "signDaoStakeTransaction")
      (stake_params (js "5ad4d36b1d3a1aa783c05f316d67309b2b60de4fb76324428237dd25c2f9ffb4") atoms (Some (JNum 7)) 216000)
      (inr (JObj [(js "signed_tx", JStr (js "f0"))]))) stake_trace ∧
    staking (js "food") (Some (mkNumber 15 1)) (Some 216000) (Some a_wallet) stake_trace (inr (JObj [(js "tx_hash", JStr (js "h"))])).
Proof.
  exists (js "1500000000000000000"). split; [right; by left|].
  exact (stakes_exact_amount (Some (λ _, true)) _ _ _ _ _ _ stake_trace_ok).
Defined.

Definition a_registration : DomainRegisterRequest := mkRegister (js "ann.sov") (Some (js " " ++ a_wallet)) (Some (js "0x" ++ a_wallet)) None.
Definition a_text : jstr := stringify (JObj [(js "domain_tx_signature_hex", JStr (js "5a"))]).
Definition registration_trace : list event :=
  domain_events a_registration (js "aa") (Some (JNum 7)) (Some (JStr (js "fe"))) a_text
    (inr (JObj [(js "nonce", JNum 7)])) (inr (JObj [(js "fee_payment_tx_hex", JStr (js "fe"))]))
    (inr (JObj [(js "request_json", JStr a_text)])) (inr (JObj [(js "domain", JStr (js "ann.sov"))])).

Lemma registration_trace_ok :
  trace obs (registerDomain (Some (λ _, true)) a_registration) registration_trace (inr (JObj [(js "domain", JStr (js "ann.sov"))])).
Proof. exists sov. do 4 (eexists; eexists; split; [reflexivity|]). split; reflexivity. Qed.

Lemma domain_fee_signed_first_witness :
  length registration_trace = 4%nat ∧
  registration a_registration registration_trace (inr (JObj [(js "domain", JStr (js "ann.sov"))])).
Proof. split; [reflexivity|]. exact (domain_fee_signed_first (Some (λ _, true)) _ _ _ registration_trace_ok). Defined.
