(* ===== verification/Balances.v ===== *)
(** * Balances: src/src/utils/tokenUnits.ts (atomsToNumber),
    src/src/hooks/useWalletList.ts, useWalletBalance.ts, useUserTokenBalances.ts,
    src/src/services/AppService.ts

    Amounts of the node are strings of atoms; the screens compute with doubles.
    What the hooks derive from an answer is a pure function of it, and fields of
    an answer are read at the type the source declares for them: a field of
    another type counts as absent.  AppService forwards one request per method
    and reads the answer once for its log. *)

From Stdlib Require Import QArith Lqa.
From stdpp Require Import strings.
From S2P Require Import Prelude JsString JsMap Json Async Outside Doubles.
From S2P Require Quic TokenUnits Tokens.

#[local] Open Scope Z_scope.

(** ** Atoms as a number of whole tokens *)

(** [Number(big / divisor) + Number(big % divisor) / Number(divisor)] *)
Definition units (big divisor : Z) : double :=
  add (of_Z (big / divisor)) (div (of_Z (big mod divisor)) (of_Z divisor)).

Definition atomsToNumber (atoms : jstr) (decimals : Z) : double :=
  if negb (all_digits atoms) then zero
  else if decimals <=? 0 then of_Z (dec_val atoms)
  else units (dec_val atoms) (10 ^ decimals).

(** a number of a JSON answer *)
Definition of_json (v : json) : option double :=
  match v with
  | JNum n => Some (of_Z n)
  | JDec m e => Some (of_ratio m (10 ^ Z.of_nat e))
  | _ => None
  end.

(** the integer of fewest significant digits that reads back as the same double *)
Fixpoint shortest_from (fuel k : nat) (v : Z) : Z :=
  let p := 10 ^ Z.of_nat k in
  let s := round_div v p * p in
  match fuel with
  | O => s
  | S fuel => if bool_decide (nearest s 1 = nearest v 1) then s else shortest_from fuel (pred k) v
  end.
Definition shortest (v : Z) : Z := let n := pred (length (dec_str v)) in shortest_from n n v.

(** [String(n)] of an integral double; from 10^21 on it has an exponent *)
Definition integer_text (n : Z) : jstr :=
  let v := nearest (Z.abs n) 1 in
  if 10 ^ 21 <=? v then js "e" else (if n <? 0 then js "-" else []) ++ dec_str (shortest v).

Definition SOV_ATOMS_PER_UNIT : Z := 10 ^ 18.

(** [typeof v === 'number' ? String(Math.trunc(v)) : String(v).trim()] *)
Definition atoms_text (v : json) : jstr :=
  match v with
  | JNum n => integer_text n
  | JDec m e => integer_text (Z.sgn m * Tokens.trunc_double (Z.abs m) (10 ^ Z.of_nat e))
  | _ => trim (js_String v)
  end.

Definition atomsToSov (v : option json) : double :=
  match v with
  | None | Some JNull => zero
  | Some v =>
      let s := atoms_text v in
      if negb (all_digits s) then zero else units (dec_val s) SOV_ATOMS_PER_UNIT
  end.

(** ** useWalletList *)

Record WalletDisplay := mkWallet {
  id : jstr;
  name : jstr;
  wallet_type : jstr;
  available_balance : double;
  staked_balance : double;
  pending_rewards : double;
  total_balance : double;
  permissions : option json;
  created_at : option json;
  description : option json;
}.

Definition text (k : jstr) (v : json) : jstr := default [] (str_field k v).

(** [a ?? b] of two fields *)
Definition nullish (a b : option json) : option json := match a with None | Some JNull => b | _ => a end.

Definition resolveWalletId (wallet : json) : jstr :=
  let summaryId :=
    ids ← jget (js "summary") wallet ≫= jget (js "id");
    match ids with JArr (JStr i :: _) => Some i | JStr (c :: _) => Some [c] | _ => None end in
  if truthy (text (js "wallet_id") wallet) then text (js "wallet_id") wallet
  else if truthy (text (js "id") wallet) then text (js "id") wallet
  else default [] summaryId.

Definition toWalletDisplay (wallet : json) : WalletDisplay :=
  let type := str_field (js "wallet_type") wallet in
  mkWallet (resolveWalletId wallet)
    (default (default (js "undefined") type ++ js " Wallet") (str_field (js "name") wallet))
    (default (js "Unknown") type)
    (atomsToSov (jget (js "available_balance") wallet))
    (atomsToSov (jget (js "staked_balance") wallet))
    (atomsToSov (jget (js "pending_rewards") wallet))
    (atomsToSov (nullish (jget (js "total_balance") wallet) (jget (js "balance") wallet)))
    (jget (js "permissions") wallet) (jget (js "created_at") wallet) (jget (js "description") wallet).

Definition normalizeIdentityId (identityId : option jstr) : option jstr :=
  match identityId with
  | Some i =>
      if truthy i then
        let trimmed := trim i in
        Some (if startsWith (js "did:zhtp:") trimmed then drop 9 trimmed else trimmed)
      else None
  | None => None
  end.

Record WalletListData := mkWalletList {
  identityId : option json;
  totalBalance : double;
  wallets : list WalletDisplay;
  walletByType : jsmap jstr WalletDisplay;
}.

Definition sum_balances (l : list WalletDisplay) : double := fold_left (λ s w, add s (total_balance w)) l zero.

(** [data] is the last answer, [null] before the first *)
Definition walletData (data : option json) (identity : option jstr) : WalletListData :=
  let field k := data ≫= jget k in
  let rows := match field (js "wallets") with Some (JArr l) => l | _ => [] end in
  let wallets := map toWalletDisplay rows in
  let fromServer := atomsToSov (field (js "total_balance")) in
  mkWalletList (nullish (field (js "identity_id")) (JStr <$> identity))
    (if gt fromServer zero then fromServer else sum_balances wallets)
    wallets
    (fold_left (λ acc w, mset (toLowerCase (wallet_type w)) w acc) wallets []).

(** the wallet a transfer starts from: the primary one, or the first *)
Definition is_primary (w : WalletDisplay) : bool := bool_decide (toLowerCase (wallet_type w) = js "primary").
Definition primaryWallet (l : list WalletDisplay) : option WalletDisplay :=
  match List.find is_primary l with Some w => Some w | None => head l end.

(** [Math.floor] of a finite double, in units of 2^-1074 *)
Definition floor (x : double) : option Z := match x with Fin u => Some (u / 2 ^ 1074) | _ => None end.

(** ** useUserTokenBalances *)

Record TokenDisplay := mkToken {
  d_id : jstr; d_symbol : jstr; d_name : jstr; decimals : option Z; balance : option jstr;
  atomicBalance : jstr; unusable : option jstr }.

Definition NO_DECIMALS : jstr := js "Missing decimals metadata".

(** [decimals] of an answer: a number of decimals is integral *)
Definition decimals_of (v : json) : option Z := jfield (js "decimals") as_num v.

Definition buildDisplay (token_id symbol name : jstr) (decimalsRaw : option Z) (atoms : jstr) : TokenDisplay :=
  match decimalsRaw with
  | Some d =>
      if d <? 0 then mkToken token_id symbol name None None atoms (Some NO_DECIMALS)
      else mkToken token_id symbol name (Some d) (Some (TokenUnits.atomsToDisplayLocale atoms d 4)) atoms None
  | None => mkToken token_id symbol name None None atoms (Some NO_DECIMALS)
  end.

Definition balance_of (v : option json) : jstr := default (js "0") (v ≫= str_field (js "balance")).

Definition mergeRegistryWithBalances (registry : list json) (balances : option (list json)) : list TokenDisplay :=
  let held := default [] balances in
  let balanceMap := fold_left (λ m b, mset (text (js "token_id") b) b m) held ([] : jsmap jstr json) in
  let build item decimals atoms :=
    buildDisplay (text (js "token_id") item) (text (js "symbol") item) (text (js "name") item) decimals atoms in
  map (λ item,
         let match_ := mget (text (js "token_id") item) balanceMap in
         build item (match decimals_of item with Some d => Some d | None => match_ ≫= decimals_of end) (balance_of match_))
      registry
  ++ omap (λ b,
         if existsb (λ t, bool_decide (text (js "token_id") t = text (js "token_id") b)) registry then None
         else Some (build b (decimals_of b) (balance_of (Some b))))
      held.

Example nine_tenths : atomsToNumber (js "900000000000000000") 18 = of_ratio 9 10.
Proof. by vm_compute. Qed.
Example small_number : atomsToSov (Some (JNum (5 * 10 ^ 18))) = of_Z 5.
Proof. by vm_compute. Qed.
(** a thousand SOV sent as a JSON number reads as none: [String(1e21)] has an exponent *)
Example large_number_lost : atomsToSov (Some (JNum (10 ^ 21))) = zero.
Proof. by vm_compute. Qed.
Example large_string_kept : atomsToSov (Some (JStr (dec_str (10 ^ 21)))) = of_Z 1000.
Proof. by vm_compute. Qed.
Example shortest_digits : integer_text (123456789012345678901 - 1) = js "123456789012345680000".
Proof. by vm_compute. Qed.

(** ** AppService *)

Section Services.
Context {S : Type}.
Abbreviation prog := (Outside.prog S).

Definition timed (seconds : Z) : Quic.RequestOptions :=
  Quic.mkOptions None None [] (Some seconds) None None None.

(** a request whose answer is read once for the log *)
Definition queried (path : jstr) (o : Quic.RequestOptions) (field : string) : prog json :=
  data ← call (quicRequest path o); dot data (js field);; ret data.

Definition getWalletList (identity : jstr) : prog json :=
  queried (js "/api/v1/wallet/list/" ++ identity) (timed 10) "wallets".
Definition getIdentity (identity : jstr) : prog json :=
  queried (js "/api/v1/identities/" ++ identity) (timed 10) "did".
Definition getRewards (clientDid : jstr) : prog json :=
  call (quicRequest (js "/api/v1/pouw/rewards/" ++ Quic.encodeURIComponent clientDid) (timed 15)).
Definition getEpochRewards (epoch : Z) : prog json :=
  queried (js "/api/v1/pouw/epochs/" ++ dec_str epoch) (timed 15) "total_rewards".
Definition getPoUWHealth : prog json := queried (js "/api/v1/pouw/health") (timed 10) "status".
Definition submitReceipts (clientDid : jstr) (receipts : list json) : prog json :=
  queried (js "/api/v1/pouw/submit")
    (Quic.mkOptions (Some Quic.POST)
       (Some (stringify (JObj [(js "version", JNum 1); (js "client_did", JStr clientDid); (js "receipts", JArr receipts)])))
       [] (Some 30) None None None) "accepted".
Definition getWalletTransactions (identityIdHex : jstr) : prog json :=
  queried (js "/api/v1/wallet/transactions/" ++ identityIdHex) (timed 15) "total_transactions".

(** the fetch of useWalletList; a key of the wrong size ends the session *)
Definition INVALID_KEY : jstr := js "invalid dilithium secret key size".
Definition fetch_wallets (forceCleanupAndSignOut : jstr → prog unit) (identity : jstr) : prog json :=
  try_catch (getWalletList identity)
    (λ err,
      (if includes INVALID_KEY (toLowerCase (message err))
       then forceCleanupAndSignOut (js "invalid_dilithium_key_size") else ret tt);;
      throw err).

End Services.

(** ** Rounding of balances *)

Lemma pow10_pos d : 0 ≤ d → 0 < 10 ^ d.
Proof. intros. by apply Z.pow_pos_nonneg. Qed.

(** a quotient and its remainder, each rounded, divided and added *)
Lemma units_near v d :
  0 ≤ v ≤ 2 ^ 1000 → 0 < d ≤ 2 ^ 1000 → near 4 (units v d) (inject_Z v / inject_Z d).
Proof.
  intros Hv Hd. unfold units.
  pose proof (Z.mod_pos_bound v d ltac:(lia)) as Hm. pose proof (Z.div_pos v d ltac:(lia) ltac:(lia)) as Hq.
  assert (v / d ≤ v) as Hle by (apply Z.div_le_upper_bound; nia).
  assert (2 ^ 1000 ≤ 2 ^ 1023) by done.
  pose proof (inject_pos d ltac:(lia)) as Hd0.
  assert (inject_Z v / inject_Z d == inject_Z (v / d) + inject_Z (v mod d) / inject_Z d)%Q as E.
  { rewrite (Z.div_mod v d) at 1 by lia. rewrite inject_Z_plus, inject_Z_mult. field. lra. }
  assert (near 4 (add (of_Z (v / d)) (div (of_Z (v mod d)) (of_Z d)))
            (inject_Z (v / d) + inject_Z (v mod d) / inject_Z d)) as (u & Ex & Hu & W).
  { apply near_add; [done| | | | | |].
    - apply (near_le 1); [lia|]. apply near_of_Z. lia.
    - apply near_quotient; [done|apply Hd].
    - destruct (Z.eq_dec (v / d) 0) as [->|Hn]; [by left|right].
      rewrite <-inject_Z_mult. change 1%Q with (inject_Z 1). rewrite <-Zle_Qle. assert (1 ≤ 2 ^ 1000) by done. nia.
    - destruct (Z.eq_dec (v mod d) 0) as [->|Hn]; [left; unfold Qdiv; apply Qmult_0_l|right].
      assert (inject_Z (v mod d) / inject_Z d * inject_Z (2 ^ 1000) == inject_Z (v mod d * 2 ^ 1000) / inject_Z d)%Q as ->
        by (rewrite inject_Z_mult; field; lra).
      apply Qle_shift_div_l; [done|]. rewrite Qmult_1_l, <-Zle_Qle. nia.
    - rewrite <-Zle_Qle. assert (2 ^ 1000 ≤ 2 ^ 1001) by done. lia.
    - apply Qle_shift_div_r; [done|]. rewrite <-inject_Z_mult, <-Zle_Qle. assert (1 ≤ 2 ^ 1001) by done. nia. }
  exists u. split; [done|]. split; [done|]. eapply within_proper; [reflexivity|exact E|exact W].
Qed.

(** a balance of at most 10^300 atoms is shown within four roundings *)
Lemma atomsToSov_near s :
  all_digits s = true → dec_val s ≤ 2 ^ 1000 →
  near 4 (atomsToSov (Some (JStr s))) (inject_Z (dec_val s) / inject_Z SOV_ATOMS_PER_UNIT).
Proof.
  intros Hs Hv. pose proof Hs as [Hne Hd]%all_digits_spec. unfold atomsToSov, atoms_text. cbn [js_String].
  rewrite trim_digits, Hs by done. apply units_near; [split; [by apply dec_val_nonneg|exact Hv]|]. unfold SOV_ATOMS_PER_UNIT. lia.
Qed.

(** ** Two readings of an amount

    A form is validated by [parseFloat] and signed by [humanToAtomic]. *)

Lemma round_div_scale n d c : 0 < d → 0 < c → round_div (n * c) (d * c) = round_div n d.
Proof.
  intros Hd Hc. unfold round_div. rewrite Z.div_mul_cancel_r, Z.mul_mod_distr_r by lia.
  replace (2 * (n mod d * c) <? d * c) with (2 * (n mod d) <? d) by
    (apply Bool.eq_iff_eq_true; rewrite !Z.ltb_lt; nia).
  replace (2 * (n mod d * c) =? d * c) with (2 * (n mod d) =? d) by
    (apply Bool.eq_iff_eq_true; rewrite !Z.eqb_eq; nia).
  done.
Qed.

Lemma nearest_scale n d c : 0 < d → 0 < c → nearest (n * c) (d * c) = nearest n d.
Proof.
  intros Hd Hc. unfold nearest. rewrite Z.div_mul_cancel_r by lia.
  set (k := excess (n / d)). pose proof (pow_pos k (excess_nonneg _)).
  replace (d * c * 2 ^ k) with (d * 2 ^ k * c) by ring. by rewrite round_div_scale by nia.
Qed.

Lemma of_ratio_scale n d c : 0 < d → 0 < c → of_ratio (n * c) (d * c) = of_ratio n d.
Proof.
  intros Hd Hc. unfold of_ratio, fit. replace (n * c * 2 ^ 1074) with (n * 2 ^ 1074 * c) by ring.
  rewrite Z.abs_mul, (Z.abs_eq c), nearest_scale, Z.sgn_mul, (Z.sgn_pos c), Z.mul_1_r by lia.
  replace (n * 2 ^ 1074 * c <? 0) with (n * 2 ^ 1074 <? 0); [done|].
  apply Bool.eq_iff_eq_true. rewrite !Z.ltb_lt. set (m := n * 2 ^ 1074). clearbody m. nia.
Qed.

(** what follows the digits of an amount: nothing, or a dot *)
Definition dotted_rest (s : jstr) : Prop := s = [] ∨ ∃ t, s = TokenUnits.dot :: t.

Lemma take_digits w s : digits w → dotted_rest s → take_while is_digit (w ++ s) = w ∧ drop_while is_digit (w ++ s) = s.
Proof.
  intros Hw Hs. induction Hw as [|c w Hc _ [IH1 IH2]]; simpl.
  - by destruct Hs as [->|(t & ->)].
  - by rewrite Hc, IH1, IH2.
Qed.

Lemma split_on_dotted s w ps : split_on TokenUnits.dot s = w :: ps →
  match ps with [] => s = w | p :: ps' => s = w ++ TokenUnits.dot :: JsString.join [TokenUnits.dot] ps end.
Proof.
  intros E. pose proof (join_split_on TokenUnits.dot s) as J. rewrite E in J. by destruct ps.
Qed.

(** the digits before and after the first dot *)
Lemma amount_shape s decimals atoms :
  TokenUnits.humanToAtomic s decimals = Some atoms →
  ∃ w f rest, w ≠ [] ∧ digits w ∧ digits f ∧ Z.of_nat (length f) ≤ decimals ∧ dotted_rest rest ∧
    (trim s = w ∧ f = [] ∨ trim s = w ++ TokenUnits.dot :: f ++ rest) ∧
    atoms = dec_str (dec_val (w ++ f) * 10 ^ (decimals - Z.of_nat (length f))).
Proof.
  unfold TokenUnits.humanToAtomic. set (t := trim s). destruct (truthy t) eqn:Et; [|done]. cbn [negb].
  destruct (split_on TokenUnits.dot t) as [|w ps] eqn:Es; [by apply split_on_nonempty in Es|].
  change (default [] ((w :: ps) !! 0%nat)) with w. set (f := default [] ((w :: ps) !! 1%nat)).
  destruct (all_digits w) eqn:Ew; [|done]. cbn [negb orb]. apply all_digits_spec in Ew as [Hne Hw].
  destruct (truthy f && negb (all_digits f)) eqn:Ef; [done|].
  assert (digits f) as Hf.
  { destruct (truthy f) eqn:T; [|apply truthy_false in T; rewrite T; constructor].
    simpl in Ef. apply negb_false_iff, all_digits_spec in Ef. tauto. }
  destruct (decimals <? Z.of_nat (length f)) eqn:El; [done|]. breflect. intros [= <-].
  apply split_on_dotted in Es.
  assert (str_or (strip_leading_zeros (w ++ padEnd (Z.to_nat decimals) "0"%char f)) (js "0")
          = dec_str (dec_val (w ++ f) * 10 ^ (decimals - Z.of_nat (length f)))) as Hv.
  { rewrite TokenUnits.combine_atoms by done. f_equal.
    unfold TokenUnits.amount_atoms. rewrite dec_val_app, Z.mul_add_distr_r, <-Z.mul_assoc, <-Z.pow_add_r by lia.
    do 3 f_equal. lia. }
  destruct ps as [|p ps].
  - exists w, [], []. subst f. simpl in *. repeat split; auto; try (by left); constructor.
  - assert (f = p) as -> by done. exists w, p, (match ps with [] => [] | _ => TokenUnits.dot :: JsString.join [TokenUnits.dot] ps end).
    repeat split; auto.
    + destruct ps; [by left|right; eauto].
    + right. rewrite Es. do 2 f_equal. destruct ps; simpl; [by rewrite app_nil_r|done].
Qed.

Lemma no_infinity w s : w ≠ [] → digits w → startsWith (js "Infinity") (w ++ s) = false.
Proof.
  intros Hne Hw. destruct w as [|c w]; [done|]. apply list.Forall_cons in Hw as [Hc _].
  apply not_true_iff_false. intros (t & H)%startsWith_spec. cbn [app] in H. injection H as -> _. discriminate Hc.
Qed.

Lemma plain_head c s : is_digit c = true →
  drop_while is_space (c :: s) = c :: s ∧ parseFloat (c :: s) = parse_unsigned (c :: s).
Proof.
  intros Hc. assert (drop_while is_space (c :: s) = c :: s) as E by (simpl; by rewrite (is_digit_not_space _ Hc)).
  split; [done|]. unfold parseFloat. rewrite E. destruct c as [[] [] [] [] [] [] [] []]; try done.
Qed.

Lemma dotted_exponent s : dotted_rest s → exponent s = 0.
Proof. by intros [->|(t & ->)]. Qed.

Lemma atoms_nonneg w f d : digits w → digits f → 0 ≤ dec_val (w ++ f) * 10 ^ d.
Proof.
  intros. apply Z.mul_nonneg_nonneg; [by apply dec_val_nonneg, digits_app|]. by apply Z.pow_nonneg.
Qed.

(** an amount in atoms is written in digits *)
Lemma humanToAtomic_digits s decimals atoms : TokenUnits.humanToAtomic s decimals = Some atoms → digits atoms.
Proof.
  intros H. apply amount_shape in H as (w & f & rest & _ & Hw & Hf & _ & _ & _ & ->).
  apply dec_str_digits. by apply atoms_nonneg.
Qed.

(** [n] times 10^-[k], read by both *)
Lemma amount_parts s decimals atoms :
  TokenUnits.humanToAtomic s decimals = Some atoms →
  ∃ n k, 0 ≤ n ∧ 0 ≤ k ≤ decimals ∧ parseFloat (trim s) = of_decimal n (- k) ∧ dec_val atoms = n * 10 ^ (decimals - k).
Proof.
  intros H. apply amount_shape in H as (w & f & rest & Hne & Hw & Hf & Hl & Hr & Hs & ->).
  exists (dec_val (w ++ f)), (Z.of_nat (length f)).
  rewrite dec_str_val by by apply atoms_nonneg. split; [by apply dec_val_nonneg, digits_app|]. split; [lia|]. split; [|done].
  destruct w as [|c w]; [done|]. pose proof Hw as [Hc _]%list.Forall_cons.
  destruct Hs as [[-> ->]| ->]; cbn [app]; (rewrite (proj2 (plain_head c _ Hc)); unfold parse_unsigned).
  - rewrite <-(app_nil_r (c :: w)). rewrite no_infinity by done.
    destruct (take_digits (c :: w) []) as [-> ->]; [done|by left|done].
  - change (c :: w ++ ?x) with ((c :: w) ++ x). rewrite no_infinity by done.
    destruct (take_digits (c :: w) (TokenUnits.dot :: f ++ rest)) as [-> ->]; [done|by right; eauto|].
    change (TokenUnits.dot :: f ++ rest) with ("."%char :: f ++ rest). cbn match.
    destruct (take_digits f rest) as [-> ->]; [done|done|].
    rewrite (proj2 (truthy_true (c :: w))) by done. cbn [orb]. rewrite dotted_exponent by done. f_equal; lia.
Qed.

Lemma decimal_ratio n k d : 0 ≤ k ≤ d → of_decimal n (- k) = of_ratio (n * 10 ^ (d - k)) (10 ^ d).
Proof.
  intros Hk. replace (10 ^ d) with (10 ^ k * 10 ^ (d - k)) by (rewrite <-Z.pow_add_r by lia; f_equal; lia).
  rewrite of_ratio_scale by (apply pow10_pos; lia). unfold of_decimal. rewrite Z.opp_involutive.
  destruct (0 <=? - k) eqn:E; breflect; [|done]. replace k with 0 by lia. change (- 0) with 0. by rewrite Z.pow_0_r, Z.mul_1_r.
Qed.

(** C38: an amount that [humanToAtomic] takes is read as the same number by
    [parseFloat]: what a form checks against a balance is the double nearest to
    the atoms it signs over 10^decimals. *)
Theorem amount_checked_is_signed s decimals atoms :
  TokenUnits.humanToAtomic s decimals = Some atoms →
  parseFloat (trim s) = of_ratio (dec_val atoms) (10 ^ decimals).
Proof. intros (n & k & _ & Hk & -> & ->)%amount_parts. by apply decimal_ratio. Qed.

(** ** No holding is lost *)

Lemma find_snoc {B} (p : B → bool) l x :
  List.find p (l ++ [x]) = match List.find p l with Some y => Some y | None => if p x then Some x else None end.
Proof. induction l as [|y l IH]; simpl; [by destruct (p x)|]. by destruct (p y). Qed.

Lemma mget_fold_set {B} (key : B → jstr) l m k :
  mget k (fold_left (λ m b, mset (key b) b m) l m) =
  match List.find (λ b, bool_decide (key b = k)) (rev l) with Some b => Some b | None => mget k m end.
Proof.
  revert m. induction l as [|b l IH]; intros m; [done|]. simpl fold_left. rewrite IH. simpl rev.
  rewrite find_snoc. destruct (List.find _ (rev l)); [done|]. simpl. rewrite mget_set.
  destruct (decide (k = key b)) as [->|Hn]; [by rewrite bool_decide_true|by rewrite bool_decide_false].
Qed.

Lemma find_unique {B} (key : B → jstr) l b :
  b ∈ l → NoDup (map key l) → List.find (λ x, bool_decide (key x = key b)) (rev l) = Some b.
Proof.
  intros Hb Hn. destruct (List.find _ (rev l)) as [x|] eqn:E.
  - apply find_some in E as [Hx Hk]. apply bool_decide_eq_true in Hk. apply in_rev, list_elem_of_In in Hx.
    apply list_elem_of_lookup in Hb as [i Hi], Hx as [j Hj]. f_equal.
    assert (map key l !! i = Some (key b) ∧ map key l !! j = Some (key b)) as [Mi Mj].
    { change (map key l) with (key <$> l). rewrite !list_lookup_fmap, Hi, Hj. simpl. by rewrite Hk. }
    pose proof (NoDup_lookup _ _ _ _ Hn Mi Mj) as ->. congruence.
  - apply list_elem_of_In, in_rev in Hb. pose proof (find_none _ _ E b Hb) as H. simpl in H.
    by rewrite bool_decide_true in H.
Qed.

Lemma buildDisplay_atoms i s n d atoms :
  d_id (buildDisplay i s n d atoms) = i ∧ atomicBalance (buildDisplay i s n d atoms) = atoms ∧
  match balance (buildDisplay i s n d atoms) with
  | Some t => ∃ k, d = Some k ∧ 0 ≤ k ∧ t = TokenUnits.atomsToDisplayLocale atoms k 4
  | None => unusable (buildDisplay i s n d atoms) = Some NO_DECIMALS
  end.
Proof. unfold buildDisplay. destruct d as [d|]; [|done]. destruct (d <? 0) eqn:E; [done|]. breflect. simpl. eauto 10. Qed.

(** The merge of the registry with the balances of a wallet loses no holding:
    when no token is listed twice, each has an entry with its atoms, whether or not
    the registry knows the token; and a shown balance is the exact text of those
    atoms at the decimals of the token, or the entry says it is unusable. *)
Fact holdings_shown registry held b :
  b ∈ held → NoDup (map (text (js "token_id")) held) →
  ∃ t, t ∈ mergeRegistryWithBalances registry (Some held) ∧ d_id t = text (js "token_id") b ∧
    atomicBalance t = balance_of (Some b) ∧
    match balance t with
    | Some shown => ∃ k, 0 ≤ k ∧ shown = TokenUnits.atomsToDisplayLocale (atomicBalance t) k 4
    | None => unusable t = Some NO_DECIMALS
    end.
Proof.
  intros Hb Hn. unfold mergeRegistryWithBalances. cbn [default].
  assert (∀ i s n d, ∃ t, t = buildDisplay i s n d (balance_of (Some b)) ∧ d_id t = i ∧
    atomicBalance t = balance_of (Some b) ∧
    match balance t with
    | Some shown => ∃ k, 0 ≤ k ∧ shown = TokenUnits.atomsToDisplayLocale (atomicBalance t) k 4
    | None => unusable t = Some NO_DECIMALS
    end) as Hd.
  { intros i s n d. exists (buildDisplay i s n d (balance_of (Some b))).
    destruct (buildDisplay_atoms i s n d (balance_of (Some b))) as (H1 & H2 & H3). rewrite H2.
    repeat split; auto. destruct (balance _); naive_solver. }
  destruct (existsb (λ t, bool_decide (text (js "token_id") t = text (js "token_id") b)) registry) eqn:E.
  - apply existsb_exists in E as (item & Hi & Hk). apply bool_decide_eq_true in Hk.
    destruct (Hd (text (js "token_id") item) (text (js "symbol") item) (text (js "name") item)
      (match decimals_of item with Some d => Some d | None => decimals_of b end)) as (t & Et & H1 & H2).
    exists t. rewrite <-Hk. split; [|done]. apply elem_of_app. left. apply list_elem_of_In, in_map_iff.
    exists item. split; [|done]. rewrite mget_fold_set, Hk, find_unique by done. by rewrite Et, Hk.
  - destruct (Hd (text (js "token_id") b) (text (js "symbol") b) (text (js "name") b) (decimals_of b)) as (t & Et & H).
    exists t. split; [|done]. apply elem_of_app. right. apply list_elem_of_omap. exists b. split; [done|]. by rewrite E, Et.
Qed.

(** ** Witness *)

Lemma amount_checked_is_signed_witness : parseFloat (trim (js " 2.5 ")) = of_ratio 250000000 (10 ^ 8).
Proof. exact (amount_checked_is_signed (js " 2.5 ") 8 (js "250000000") eq_refl). Defined.

Lemma holdings_shown_witness :
  ∃ t, t ∈ mergeRegistryWithBalances [] (Some [JObj [(js "token_id", JStr (js "aa")); (js "balance", JStr (js "5"))]]) ∧
    atomicBalance t = js "5".
Proof.
  destruct (holdings_shown [] [JObj [(js "token_id", JStr (js "aa")); (js "balance", JStr (js "5"))]]
    (JObj [(js "token_id", JStr (js "aa")); (js "balance", JStr (js "5"))])) as (t & H1 & _ & H2 & _).
  - left.
  - apply NoDup_singleton.
  - exists t. split; [exact H1|exact H2].
Defined.
