(* ===== verification/Send.v ===== *)
(** * Sending tokens: src/src/screens/SendTokensScreen.tsx

    The handlers of the screen are tasks over the requests of Outside.v.  A
    handler belongs to one rendering of the screen: what it reads of the props,
    the other hooks and the state is what that rendering captured ([render]);
    what it sets goes to the state of the screen ([screen]), which other handlers
    may set meanwhile.  Fields of answers are read at their declared types, as in
    Balances.v. *)

From Stdlib Require Import QArith Lqa.
From stdpp Require Import strings.
From S2P Require Import Prelude JsString JsMap Json Async Outside Doubles Balances.
From S2P Require Quic TokenUnits NativeIdentity Tokens Domains.

#[local] Open Scope Z_scope.

(** the [tokenId]s of [WELFARE_DAOS] *)
Definition WELFARE_TOKEN_IDS : list jstr := [
  js "c5f7418e4cf9dd65d945a6026ad95645a6873099366b168a459dc7bd60a9438b";
  js "3fcaf4ee0d54d5c136ed6165f1ea98f0429e88540e577956d2a2b8fa5a60f8b7";
  js "97743bb8df6d441dbfcc10540627330186084e54c73c458a34e9608ed9e2a912";
  js "44e4b6b99b10f2a9a06399688d79a743410b5a1674c85d323331f9f7abf1ce90";
  js "e043aca01bc700d49d31976f258db9c64217b4e09bf5998c3de9d76e67665b18"].
Definition is_welfare (i : jstr) : bool := bool_decide (i ∈ WELFARE_TOKEN_IDS).

Definition SOV_DECIMALS : Z := 18.
Definition TRACKED_TOKENS_KEY : jstr := js "sov:tracked_tokens".
Definition LEGACY_CREATED_TOKENS_KEY : jstr := js "sov:created_tokens".

Inductive sort := sov | custom.
#[export] Instance sort_eq_dec : EqDecision sort.
Proof. solve_decision. Defined.

(** an absent [token_id] is [""] *)
Record SendableToken := mkSendable {
  s_id : jstr; symbol : jstr; s_name : jstr; s_balance : double; s_sort : sort; token_id : jstr; s_decimals : option Z }.

(** an error of a field of the form *)
Inductive complaint := Says (m : jstr) | InsufficientBalance (available : double).

Record screen := mkScreen {
  cachedTokens : Domains.registry;
  allTokens : list SendableToken;
  selectedToken : option SendableToken;
  tokensLoading : bool;
  tokensError : option jstr;
  errors : option complaint * option complaint;    (* of the recipient, of the amount *)
  isTransferring : bool;
  showConfirmation : bool;
  selectedFromWallet : option jstr;
  transferStatus : option (bool * jstr);           (* whether it succeeded, and the message *)
  savingContact : option jstr;
  newContactName : jstr;
  walletRefreshes : nat;                           (* calls of [refreshWallets] *)
  goneBack : bool;                                 (* [navigation.goBack] was called *)
}.

Definition setCachedTokens x s := mkScreen x (allTokens s) (selectedToken s) (tokensLoading s) (tokensError s) (errors s) (isTransferring s) (showConfirmation s) (selectedFromWallet s) (transferStatus s) (savingContact s) (newContactName s) (walletRefreshes s) (goneBack s).
Definition setAllTokens x s := mkScreen (cachedTokens s) x (selectedToken s) (tokensLoading s) (tokensError s) (errors s) (isTransferring s) (showConfirmation s) (selectedFromWallet s) (transferStatus s) (savingContact s) (newContactName s) (walletRefreshes s) (goneBack s).
Definition setSelectedToken x s := mkScreen (cachedTokens s) (allTokens s) x (tokensLoading s) (tokensError s) (errors s) (isTransferring s) (showConfirmation s) (selectedFromWallet s) (transferStatus s) (savingContact s) (newContactName s) (walletRefreshes s) (goneBack s).
Definition setTokensLoading x s := mkScreen (cachedTokens s) (allTokens s) (selectedToken s) x (tokensError s) (errors s) (isTransferring s) (showConfirmation s) (selectedFromWallet s) (transferStatus s) (savingContact s) (newContactName s) (walletRefreshes s) (goneBack s).
Definition setTokensError x s := mkScreen (cachedTokens s) (allTokens s) (selectedToken s) (tokensLoading s) x (errors s) (isTransferring s) (showConfirmation s) (selectedFromWallet s) (transferStatus s) (savingContact s) (newContactName s) (walletRefreshes s) (goneBack s).
Definition setErrors x s := mkScreen (cachedTokens s) (allTokens s) (selectedToken s) (tokensLoading s) (tokensError s) x (isTransferring s) (showConfirmation s) (selectedFromWallet s) (transferStatus s) (savingContact s) (newContactName s) (walletRefreshes s) (goneBack s).
Definition setIsTransferring x s := mkScreen (cachedTokens s) (allTokens s) (selectedToken s) (tokensLoading s) (tokensError s) (errors s) x (showConfirmation s) (selectedFromWallet s) (transferStatus s) (savingContact s) (newContactName s) (walletRefreshes s) (goneBack s).
Definition setShowConfirmation x s := mkScreen (cachedTokens s) (allTokens s) (selectedToken s) (tokensLoading s) (tokensError s) (errors s) (isTransferring s) x (selectedFromWallet s) (transferStatus s) (savingContact s) (newContactName s) (walletRefreshes s) (goneBack s).
Definition setSelectedFromWallet x s := mkScreen (cachedTokens s) (allTokens s) (selectedToken s) (tokensLoading s) (tokensError s) (errors s) (isTransferring s) (showConfirmation s) x (transferStatus s) (savingContact s) (newContactName s) (walletRefreshes s) (goneBack s).
Definition setTransferStatus x s := mkScreen (cachedTokens s) (allTokens s) (selectedToken s) (tokensLoading s) (tokensError s) (errors s) (isTransferring s) (showConfirmation s) (selectedFromWallet s) x (savingContact s) (newContactName s) (walletRefreshes s) (goneBack s).
Definition saveContact a s := mkScreen (cachedTokens s) (allTokens s) (selectedToken s) (tokensLoading s) (tokensError s) (errors s) (isTransferring s) (showConfirmation s) (selectedFromWallet s) (transferStatus s) (Some a) [] (walletRefreshes s) (goneBack s).
Definition refreshWallets s := mkScreen (cachedTokens s) (allTokens s) (selectedToken s) (tokensLoading s) (tokensError s) (errors s) (isTransferring s) (showConfirmation s) (selectedFromWallet s) (transferStatus s) (savingContact s) (newContactName s) (S (walletRefreshes s)) (goneBack s).
Definition goBack s := mkScreen (cachedTokens s) (allTokens s) (selectedToken s) (tokensLoading s) (tokensError s) (errors s) (isTransferring s) (showConfirmation s) (selectedFromWallet s) (transferStatus s) (savingContact s) (newContactName s) (walletRefreshes s) true.

(** what a rendering captures; [transferForm] is its recipient and its amount *)
Record render := mkRender {
  did : option jstr;                    (* currentIdentity?.did *)
  preselectedTokenId : option jstr;
  r_wallets : list WalletDisplay;
  r_token : option SendableToken;       (* selectedToken *)
  r_from : option jstr;                 (* selectedFromWallet *)
  recipient : jstr;
  amount : jstr;
  book : list jstr;                     (* addresses of the address book *)
}.

Definition getDefaultSovWalletId (wallets : list WalletDisplay) : option jstr := id <$> primaryWallet wallets.

(** ** Validation *)

Definition isHex (value : jstr) : bool := truthy value && forallb is_hex value.
Definition normalizeRecipient (value : jstr) : jstr :=
  let trimmed := trim value in
  if startsWith (js "did:zhtp:") trimmed then drop 9 trimmed else trimmed.
Definition isValidRecipient (value : jstr) : bool :=
  let hex := normalizeRecipient value in
  isHex hex && ((length hex =? 64)%nat || bool_decide (Z.of_nat (length hex) = 5184)).
Definition isValidSovRecipient (value : jstr) : bool :=
  let trimmed := trim value in (length trimmed =? 64)%nat && isHex trimmed.

Definition is_sort (k : sort) (t : option SendableToken) : bool := bool_decide (s_sort <$> t = Some k).
(** a string that is neither [null] nor empty *)
Definition set_ (s : option jstr) : option jstr := s ← s; if truthy s then Some s else None.

Definition validateRecipient (v : render) : option complaint :=
  if negb (truthy (trim (recipient v))) then Some (Says (js "Recipient is required"))
  else if is_sort sov (r_token v) then
    if isValidSovRecipient (recipient v) then None
    else Some (Says (js "Recipient wallet ID must be 64 hex characters"))
  else if isValidRecipient (recipient v) then None
  else Some (Says (js "Recipient must be DID (did:zhtp:...) or hex key id/pubkey")).

Definition find_wallet (i : jstr) (l : list WalletDisplay) : option WalletDisplay :=
  List.find (λ w, bool_decide (id w = i)) l.

Definition validateAmount (v : render) : option complaint :=
  let trimmed := trim (amount v) in
  if negb (truthy trimmed) then Some (Says (js "Amount is required"))
  else
    let amount := parseFloat trimmed in
    if isNaN amount || le amount zero then Some (Says (js "Amount must be greater than 0"))
    else
      match r_token v, (if is_sort sov (r_token v) then set_ (r_from v) else None) with
      | Some _, Some from =>
          match find_wallet from (r_wallets v) with
          | Some w => if gt amount (available_balance w) then Some (InsufficientBalance (available_balance w)) else None
          | None => None
          end
      | Some t, None => if gt amount (s_balance t) then Some (InsufficientBalance (s_balance t)) else None
      | None, _ => None
      end.

Definition valid (v : render) : bool :=
  match validateRecipient v, validateAmount v with None, None => true | _, _ => false end.

(** ** The list of tokens *)

Definition is_sov (s : jstr) : bool := bool_decide (toLowerCase s = js "sov").

Record loaded := mkLoaded { tokens : list SendableToken; tokenMap : list jstr }.
Definition push (t : SendableToken) (i : jstr) (l : loaded) : loaded := mkLoaded (tokens l ++ [t]) (i :: tokenMap l).
Definition known (i : jstr) (l : loaded) : bool := bool_decide (i ∈ tokenMap l).
Definition has_sov (l : list SendableToken) : bool := existsb (λ t, is_sort sov (Some t)) l.

(** 1. SOV of the wallets *)
Definition from_wallets (wallets : list WalletDisplay) : loaded :=
  let total := sum_balances wallets in
  mkLoaded (if gt total zero then [mkSendable (js "SOV") (js "SOV") (js "Sovereign") total sov [] (Some SOV_DECIMALS)] else []) [].

(** 2. a balance of the primary wallet; [sovEntry] is found before the first *)
Definition merge_sov (i : jstr) (d : Z) (t : SendableToken) : SendableToken :=
  if is_sort sov (Some t) then mkSendable (s_id t) (symbol t) (s_name t) (s_balance t) sov i (Some d) else t.
Definition add_balance (sovEntry : bool) (l : loaded) (token : json) : loaded :=
  let i := text (js "token_id") token in
  if is_welfare i then l
  else
    match decimals_of token with
    | None => l
    | Some decimals =>
        if is_sov (text (js "symbol") token) && sovEntry
        then mkLoaded (map (merge_sov i decimals) (tokens l)) (i :: tokenMap l)
        else push (mkSendable i (str_or (text (js "symbol") token) (js "Token")) (str_or (text (js "name") token) (js "Unknown"))
                     (atomsToNumber (balance_of (Some token)) decimals) custom i (Some decimals)) i l
    end.
Definition with_balances (l : loaded) (allBalances : list json) : loaded :=
  let sovEntry := has_sov (tokens l) in
  let l' := fold_left (add_balance sovEntry) allBalances l in
  if sovEntry then l'
  else
    match List.find (λ t, is_sov (text (js "symbol") t)) allBalances with
    | Some t =>
        match decimals_of t with
        | Some d =>
            mkLoaded (mkSendable (js "SOV") (js "SOV") (str_or (text (js "name") t) (js "Sovereign"))
                        (atomsToNumber (balance_of (Some t)) d) sov (text (js "token_id") t) (Some d) :: tokens l') (tokenMap l')
        | None => l'
        end
    | None => l'
    end.

(** 4. a token of the registry *)
Definition add_registered (l : loaded) (item : json) : loaded :=
  let i := text (js "token_id") item in
  if is_welfare i || known i l then l
  else if is_sov (text (js "symbol") item) && has_sov (tokens l) then l
  else
    match decimals_of item with
    | None => l
    | Some d =>
        push (mkSendable i (str_or (text (js "symbol") item) (js "Token")) (str_or (text (js "name") item) (js "Unknown"))
                zero custom i (Some d)) i l
    end.

(** the token shown first *)
Definition preferred (preselected : option jstr) (l : list SendableToken) : option SendableToken :=
  let named := p ← set_ preselected; List.find (λ t, bool_decide (token_id t = p) || bool_decide (s_id t = p)) l in
  match named with
  | Some t => Some t
  | None => match List.find (λ t, is_sort sov (Some t)) l with Some t => Some t | None => head l end
  end.

Section Send.
Context (nativeModule : option (jstr → bool)) (CHAIN_ID : Z).
Abbreviation prog := (Outside.prog screen).

Definition set (f : screen → screen) : prog unit := modify f.
Definition setTimeout (f : screen → screen) : prog unit := void (await (ret tt);; set f).

(** 3. the tokens the user follows; the old key is moved to the new one *)
Definition parse_ids (s : jstr) : prog json := or_syntax_error (json_parse s).
Definition stored_ids : prog json :=
  trackedTokensJson ← call (getItem TRACKED_TOKENS_KEY);
  match set_ trackedTokensJson with
  | Some s => parse_ids s
  | None =>
      legacy ← call (getItem LEGACY_CREATED_TOKENS_KEY);
      match set_ legacy with
      | Some s =>
          ids ← parse_ids s;
          call (setItem TRACKED_TOKENS_KEY (stringify ids));;
          call (removeItem LEGACY_CREATED_TOKENS_KEY);;
          ret ids
      | None => ret (JArr [])
      end
  end.
(** [for (const tokenId of ids)] *)
Definition iterated (ids : json) : prog (list jstr) :=
  match ids with
  | JArr l => ret (omap as_str l)
  | JStr s => ret (map (λ c, [c]) s)
  | _ => throw TypeError
  end.
Definition add_tracked (l : loaded) (i : jstr) : prog loaded :=
  if is_welfare i || known i l then ret l
  else
    try_catch
      (info ← Tokens.getTokenInfo i;
       ret (push (mkSendable i (str_or (text (js "symbol") info) (js "Token")) (str_or (text (js "name") info) (js "Unknown"))
                    zero custom i (Some (default 0 (decimals_of info)))) i l))
      (λ _, ret l).
Fixpoint add_all_tracked (l : loaded) (ids : list jstr) : prog loaded :=
  match ids with [] => ret l | i :: ids => l' ← add_tracked l i; add_all_tracked l' ids end.

(** a step that leaves the list as it is when it fails *)
Definition or_else (l : loaded) (t : prog loaded) : prog loaded := try_catch t (λ _, ret l).

Definition balanceLookupAddress (did : jstr) (v : render) : jstr :=
  let identityHex := if startsWith (js "did:zhtp:") did then drop 9 did else did in
  match primaryWallet (r_wallets v) with Some w => str_or (id w) identityHex | None => identityHex end.

Definition loadAllTokens (v : render) : prog unit :=
  match set_ (did v) with
  | None => ret tt
  | Some did =>
      set (setTokensLoading true);;
      set (setTokensError None);;
      try_finally
        (let l0 := from_wallets (r_wallets v) in
         l1 ← or_else l0 (balances ← Tokens.getUserTokenBalances (balanceLookupAddress did v); ret (with_balances l0 balances));
         l2 ← or_else l1 (ids ← stored_ids; ids ← iterated ids; add_all_tracked l1 ids);
         l3 ← or_else l2 (registry ← lift cachedTokens setCachedTokens Domains.getTokenRegistry;
                          ret (fold_left add_registered registry l2));
         set (setAllTokens (tokens l3));;
         (match preferred (preselectedTokenId v) (tokens l3) with
          | Some t => set (setSelectedToken (Some t)) | None => ret tt end);;
         match r_wallets v, set_ (r_from v) with
         | _ :: _, None => set (setSelectedFromWallet (getDefaultSovWalletId (r_wallets v)))
         | _, _ => ret tt
         end)
        (set (setTokensLoading false))
  end.

(** the effect that keeps the paying wallet among the wallets *)
Definition keepSelection (v : render) : prog unit :=
  if negb (is_sort sov (r_token v)) then ret tt
  else
    match r_wallets v with
    | [] => ret tt
    | _ =>
        let has := match set_ (r_from v) with
                   | Some f => existsb (λ w, bool_decide (id w = f)) (r_wallets v) | None => false end in
        if has then ret tt else set (setSelectedFromWallet (getDefaultSovWalletId (r_wallets v)))
    end.

(** ** Reviewing and sending *)

Definition validateTransfer (v : render) : prog bool :=
  set (setErrors (validateRecipient v, validateAmount v));; ret (valid v).

Definition handleReview (v : render) : prog unit :=
  match r_token v with
  | None => ret tt
  | Some _ => ok ← validateTransfer v; if (ok : bool) then set (setShowConfirmation true) else ret tt
  end.

Definition too_precise (decimals : Z) : error :=
  Error (js "Amount must have at most " ++ dec_str decimals ++ js " decimals").

Definition transfer (v : render) (t : SendableToken) : prog unit :=
  let decimals := default SOV_DECIMALS (s_decimals t) in
  match TokenUnits.humanToAtomic (amount v) decimals with
  | None => throw (too_precise decimals)
  | Some baseUnits =>
      match s_sort t with
      | sov =>
          match set_ (r_from v) with
          | None => throw (Error (js "Please select a source wallet"))
          | Some from =>
              Tokens.transferSov nativeModule
                (Tokens.mkWalletTransfer (token_id t) from (trim (recipient v)) (Tokens.AString baseUnits) None);; ret tt
          end
      | custom =>
          if negb (truthy (token_id t)) then throw (Error (js "Token ID missing for selected token."))
          else
            match set_ (id <$> primaryWallet (r_wallets v)) with
            | None => throw (Error (js "No wallet available to send from."))
            | Some from =>
                Tokens.transferTokenFromWallet nativeModule
                  (Tokens.mkWalletTransfer (token_id t) from (trim (recipient v)) (Tokens.AString baseUnits) (Some CHAIN_ID));; ret tt
            end
      end
  end.

Definition SUBMITTED : jstr := js "Transfer submitted - check Activity for confirmation.".

Definition handleTransfer (v : render) : prog unit :=
  set (setShowConfirmation false);;
  match r_token v with
  | None => ret tt
  | Some t =>
      ok ← validateTransfer v;
      if negb ok then ret tt
      else
        set (setIsTransferring true);;
        set (setTransferStatus None);;
        try_finally
          (try_catch
             (transfer v t;;
              set (setTransferStatus (Some (true, SUBMITTED)));;
              set refreshWallets;;
              let recipient := trim (recipient v) in
              if bool_decide (recipient ∈ book v) then setTimeout goBack
              else setTimeout (saveContact recipient))
             (λ error, set (setTransferStatus (Some (false, str_or (message error) (js "Failed to transfer token"))))))
          (set (setIsTransferring false))
  end.

End Send.

(** ** Which tokens are offered *)

(** a token other than SOV is not a welfare token, and is listed under its id *)
Definition offered (t : SendableToken) : Prop :=
  s_sort t = custom → is_welfare (token_id t) = false ∧ s_id t = token_id t.
Definition all_offered (l : loaded) : Prop := Forall offered (tokens l).

Lemma offered_push t i l : offered t → all_offered l → all_offered (push t i l).
Proof. intros Ht Hl. apply Forall_app. split; [done|]. by constructor. Qed.

Lemma offered_sov i n b t d : offered (mkSendable i n n b sov t d).
Proof. done. Qed.

Lemma offered_wallets wallets : all_offered (from_wallets wallets).
Proof. unfold all_offered, from_wallets. simpl. destruct (gt _ _); by repeat constructor. Qed.

Lemma offered_merge i d t : offered t → offered (merge_sov i d t).
Proof. unfold merge_sov. destruct (is_sort _ _); done. Qed.

Lemma offered_balance sovEntry l token : all_offered l → all_offered (add_balance sovEntry l token).
Proof.
  intros Hl. unfold add_balance. destruct (is_welfare _) eqn:Ew; [done|]. destruct (decimals_of token) as [d|]; [|done].
  destruct (_ && _); [|by apply offered_push].
  apply List.Forall_map. eapply list.Forall_impl; [exact Hl|]. intros t. apply offered_merge.
Qed.

Lemma offered_fold {B} (f : loaded → B → loaded) xs l :
  (∀ l x, all_offered l → all_offered (f l x)) → all_offered l → all_offered (fold_left f xs l).
Proof. intros Hf. revert l. induction xs as [|x xs IH]; intros l Hl; [done|]. simpl. auto. Qed.

Lemma offered_balances l bs : all_offered l → all_offered (with_balances l bs).
Proof.
  intros Hl. unfold with_balances.
  pose proof (offered_fold (add_balance (has_sov (tokens l))) bs l (λ l x, offered_balance _ l x) Hl) as H.
  destruct (has_sov _); [done|]. destruct (List.find _ bs) as [t|]; [|done]. destruct (decimals_of t); [|done].
  by constructor.
Qed.

Lemma offered_registered l item : all_offered l → all_offered (add_registered l item).
Proof.
  intros Hl. unfold add_registered. destruct (is_welfare _) eqn:Ew; [done|]. destruct (known _ _); [done|].
  cbn [orb]. destruct (_ && _); [done|]. destruct (decimals_of item); [|done]. by apply offered_push.
Qed.

(** a program that ends, with an outcome in [Q] *)
Section Ends.
Context {S D : Type} (handle : ∀ R : Set, req R → D → (error + R) * D).

Definition ends {A} (t : Outside.prog S A) (Q : error + A → Prop) : Prop :=
  ∀ s d, ∃ r s' d', solo handle t s d = Some (r, s', d') ∧ Q r.

Definition any_state (s s' : S) : Prop := True.
#[export] Instance any_state_preorder : PreOrder any_state.
Proof. by split. Qed.

Lemma ends_settled {A} (t : Outside.prog S A) : settled handle any_state t → ends t (λ _, True).
Proof. intros H s d. destruct (H s d) as (r & s' & d' & E & _). eauto 10. Qed.

Lemma ends_bindR {A B} (t : Outside.prog S A) (f : error + A → Outside.prog S B) P Q :
  ends t P → (∀ r, P r → ends (f r) Q) → ends (bindR t f) Q.
Proof.
  intros Ht Hf s d. destruct (Ht s d) as (r & s1 & d1 & E & Hr), (Hf r Hr s1 d1) as (r2 & s2 & d2 & E2 & H2).
  exists r2, s2, d2. by rewrite solo_bindR, E.
Qed.
Lemma ends_ret {A} (a : A) (Q : error + A → Prop) : Q (inr a) → ends (ret a) Q.
Proof. intros H s d. by eexists _, _, _. Qed.

Lemma ends_mono {A} (t : Outside.prog S A) (P Q : error + A → Prop) : (∀ r, P r → Q r) → ends t P → ends t Q.
Proof. intros HQ Ht s d. destruct (Ht s d) as (r & s' & d' & E & H). eauto 10. Qed.

Definition result {A} (P : A → Prop) (r : error + A) : Prop := match r with inr a => P a | inl _ => True end.

Lemma ends_bind {A B} (t : Outside.prog S A) (f : A → Outside.prog S B) P Q :
  ends t (result P) → (∀ a, P a → ends (f a) (result Q)) → ends (bind t f) (result Q).
Proof.
  intros Ht Hf. eapply ends_bindR; [exact Ht|]. intros [e|a] H; [|by apply Hf].
  intros s d. by eexists _, _, _.
Qed.
Lemma ends_catch {A} (t : Outside.prog S A) h P :
  ends t (result P) → (∀ e, ends (h e) (λ r, ∃ a, r = inr a ∧ P a)) → ends (try_catch t h) (λ r, ∃ a, r = inr a ∧ P a).
Proof. intros Ht Hh. eapply ends_bindR; [exact Ht|]. intros [e|a] H; [apply Hh|]. apply ends_ret. eauto. Qed.

Lemma settled_map_prog f l :
  (∀ v, settled handle any_state (f v)) → settled handle any_state (Tokens.map_prog f l).
Proof. intros Hf. induction l as [|v l IH]; cbn [Tokens.map_prog]; settled_through; auto. Qed.

Lemma settled_map_field v f :
  (∀ v, settled handle any_state (f v)) → settled handle any_state (Tokens.map_field v f).
Proof. intros Hf. unfold Tokens.map_field. destruct v as [[]|]; settled_through. by apply settled_map_prog. Qed.

End Ends.

Section Offered.
Context {D : Type} (handle : ∀ R : Set, req R → D → (error + R) * D) (nativeModule : option (jstr → bool)).

Lemma settles {A} (t : Outside.prog screen A) : settled handle any_state t → ends handle t (result (λ _, True)).
Proof. intros H s d. destruct (ends_settled handle t H s d) as (r & s' & d' & E & _). exists r, s', d'. by destruct r. Qed.

Lemma settled_user_balances a : settled handle any_state (Tokens.getUserTokenBalances (S := screen) a).
Proof.
  unfold Tokens.getUserTokenBalances. do 2 (apply settled_bind; [tc_solve|settled_through|intros ?]).
  apply settled_map_field. intros v. settled_through.
Qed.

Lemma settled_registry : settled handle any_state (lift cachedTokens setCachedTokens Domains.getTokenRegistry).
Proof.
  assert (settled handle any_state Domains.getTokenRegistry) as H.
  { unfold Domains.getTokenRegistry. apply settled_bind; [tc_solve|settled_through|intros [l|]]; [settled_through|].
    unfold Domains.fetchRegistry. apply settled_bind; [tc_solve| |by intros ?; settled_through].
    unfold Tokens.listTokens. do 2 (apply settled_bind; [tc_solve|settled_through|intros ?]).
    apply settled_bind; [tc_solve| |intros ?; settled_through].
    apply settled_map_field. intros v. settled_through. }
  intros s x. destruct (H (cachedTokens s) x) as (r & c' & x' & E & _). exists r, (setCachedTokens c' s), x'.
  rewrite solo_lift, E by (by intros; match goal with s : screen |- _ => destruct s end). done.
Qed.

Lemma offered_or_else l t :
  all_offered l → ends handle t (result all_offered) → ends handle (or_else l t) (λ r, ∃ l', r = inr l' ∧ all_offered l').
Proof. intros Hl Ht. apply ends_catch; [done|]. intros e. apply ends_ret. eauto. Qed.

Lemma offered_tracked l i : all_offered l → ends handle (add_tracked l i) (result all_offered).
Proof.
  intros Hl. unfold add_tracked. destruct (is_welfare i) eqn:Ew; [by apply ends_ret|]. destruct (known i l); [by apply ends_ret|].
  cbn [orb]. eapply ends_mono; [|apply ends_catch with (P := all_offered)].
  - by intros r (l' & -> & Hl').
  - eapply ends_bind; [apply settles; settled_through|]. intros info _. apply ends_ret. by apply offered_push.
  - intros e. apply ends_ret. eauto.
Qed.

Lemma offered_all_tracked l ids : all_offered l → ends handle (add_all_tracked l ids) (result all_offered).
Proof.
  revert l. induction ids as [|i ids IH]; intros l Hl; [by apply ends_ret|].
  cbn [add_all_tracked]. eapply ends_bind; [by apply offered_tracked|]. apply IH.
Qed.

(** the screen after the load *)
Definition listed (s : screen) : Prop :=
  tokensLoading s = false ∧ Forall offered (allTokens s) ∧
  (allTokens s ≠ [] → ∃ t, selectedToken s = Some t ∧ t ∈ allTokens s).

Lemma preferred_in p l t : preferred p l = Some t → t ∈ l.
Proof.
  unfold preferred. intros H.
  destruct (p' ← set_ p; List.find _ l) as [t'|] eqn:E.
  - injection H as ->. destruct (set_ p); [|done]. simpl in E. apply find_some in E as [E _]. by apply list_elem_of_In.
  - destruct (List.find _ l) as [t'|] eqn:E2.
    + injection H as ->. apply find_some in E2 as [E2 _]. by apply list_elem_of_In.
    + destruct l; [done|]. injection H as ->. left.
Qed.

Lemma preferred_some p l : l ≠ [] → ∃ t, preferred p l = Some t.
Proof. intros H. unfold preferred. destruct (_ ≫= _); [eauto|]. destruct (List.find _ l); [eauto|]. destruct l; [done|]. simpl. eauto. Qed.

(** the next step of the load, with what it adds *)
Ltac next_step l1 s1 x1 H1 :=
  match goal with
  | Hl : all_offered ?l |- context [solo handle (or_else ?l ?t) ?s ?x] =>
      let E := fresh "E" in let P := fresh "P" in
      assert (ends handle t (result all_offered)) as P;
      [|destruct (offered_or_else l t Hl P s x) as (? & s1 & x1 & E & l1 & -> & H1); rewrite E; clear E P; cbn beta iota]
  end.

(** The list of the send screen, whatever the node and the storage answer:
    loading it ends, none of the welfare tokens is in it other than as SOV, the
    screen leaves its loading state, and when the list is not empty the selected
    token is one of it. *)
Fact loads_offered_tokens v d s x :
  set_ (did v) = Some d →
  ∃ s' x', solo handle (loadAllTokens v) s x = Some (inr tt, s', x') ∧ listed s'.
Proof.
  intros Hd. unfold loadAllTokens. rewrite Hd. enter.
  pose proof (offered_wallets (r_wallets v)) as H0. set (l0 := from_wallets (r_wallets v)) in *.
  next_step l1 s1 x1 H1.
  { eapply ends_bind; [apply settles, settled_user_balances|intros bs _; apply ends_ret; by apply offered_balances]. }
  rewrite solo_bind. next_step l2 s2 x2 H2.
  { eapply ends_bind; [apply settles; settled_through|]. intros ids _.
    eapply ends_bind; [apply settles; settled_through|]. intros l _. by apply offered_all_tracked. }
  rewrite solo_bind. next_step l3 s3 x3 H3.
  { eapply ends_bind; [apply settles|intros reg _; apply ends_ret; apply offered_fold; [|done]; intros; by apply offered_registered].
    apply settled_registry. }
  enter. pose proof (preferred_some (preselectedTokenId v) (tokens l3)) as Hs.
  destruct (preferred (preselectedTokenId v) (tokens l3)) as [t|] eqn:Ep; enter;
    destruct (r_wallets v) as [|w ws]; try destruct (set_ (r_from v)); enter;
    (do 2 eexists; split; [reflexivity|]; split; [reflexivity|]; split; [exact H3|]; cbn; intros Hn);
    solve [exists t; split; [done|by eapply preferred_in]|destruct (Hs Hn) as [? ?]; done].
Qed.

End Offered.

(** ** What is sent is what was reviewed *)

Lemma validated v : valid v = true → validateRecipient v = None ∧ validateAmount v = None.
Proof. unfold valid. destruct (validateRecipient v), (validateAmount v); done. Qed.

Lemma set_Some s x : set_ s = Some x → s = Some x ∧ x ≠ [].
Proof.
  unfold set_. destruct s as [y|]; [|done]. simpl. destruct (truthy y) eqn:E; [|done]. intros [= <-].
  split; [done|]. by apply truthy_true.
Qed.

Lemma sov_recipient v t :
  r_token v = Some t → s_sort t = sov → validateRecipient v = None →
  length (trim (recipient v)) = 64%nat ∧ isHex (trim (recipient v)) = true.
Proof.
  intros Ht Hs. unfold validateRecipient. rewrite Ht. destruct (truthy _); [|done]. cbn [negb].
  replace (is_sort sov (Some t)) with true by (symmetry; apply bool_decide_eq_true; simpl; by rewrite Hs).
  unfold isValidSovRecipient. destruct (_ =? 64)%nat eqn:E; [|done]. destruct (isHex _); [|done]. by breflect.
Qed.

(** the amount the native module is given: the exact atoms of the text *)
Lemma gate_keeps s d atoms a :
  TokenUnits.humanToAtomic s d = Some atoms → Tokens.coerceAmountAtoms (Tokens.AString atoms) = inr a → a = atoms.
Proof.
  intros H. cbn [Tokens.coerceAmountAtoms]. unfold TokenUnits.validateAtomsString.
  destruct (all_digits (trim atoms)) eqn:E; [|done]. cbn [negb]. destruct (_ <? _); [done|]. intros [= <-].
  by apply trim_digits, (humanToAtomic_digits s d).
Qed.

Lemma gate_bound atoms : Tokens.coerceAmountAtoms (Tokens.AString atoms) = inr atoms → dec_val atoms ≤ 2 ^ 128.
Proof.
  cbn [Tokens.coerceAmountAtoms]. unfold TokenUnits.validateAtomsString. destruct (negb _); [done|].
  destruct (TokenUnits.U128_MAX <? dec_val (trim atoms)) eqn:E; [done|]. breflect. intros [= Ht]. rewrite Ht in E.
  change TokenUnits.U128_MAX with (2 ^ 128 - 1) in E. lia.
Qed.

(** the transfer of a rendering that passes validation *)
Definition reviewed (CHAIN_ID : Z) (v : render) (op : Tokens.operation) (from atoms : jstr) : Prop :=
  ∃ t, r_token v = Some t ∧ valid v = true ∧ from ≠ [] ∧
    TokenUnits.humanToAtomic (amount v) (default SOV_DECIMALS (s_decimals t)) = Some atoms ∧
    match s_sort t with
    | sov => r_from v = Some from ∧
             length (trim (recipient v)) = 64%nat ∧ isHex (trim (recipient v)) = true ∧
             op = Tokens.OpSov (Tokens.mkWalletTransfer (token_id t) from (trim (recipient v)) (Tokens.AString atoms) None)
    | custom => id <$> primaryWallet (r_wallets v) = Some from ∧ token_id t ≠ [] ∧
             op = Tokens.OpWallet (Tokens.mkWalletTransfer (token_id t) from (trim (recipient v)) (Tokens.AString atoms) (Some CHAIN_ID))
    end.

(** the requests of a transfer: the nonce of the paying wallet, the signature, the
    post of what was signed *)
Definition transferred (op : Tokens.operation) (tr : list event) : Prop :=
  ∃ k, Tokens.op_lookup op = Some k ∧
    ((∃ e, tr = [Tokens.lookup_event k (inl e)]) ∨
     ∃ answer rest r, tr = Tokens.lookup_event k (inr answer) :: rest ∧ Tokens.sign_and_post op (Some answer) rest r).

(** programs without requests: what is around a call does not change its trace *)
Definition silent {S A} (t : Outside.prog S A) : Prop := ∀ tr r, trace obs t tr r → tr = [].

Lemma silent_set (f : screen → screen) : silent (set f).
Proof. intros tr r H. by apply trace_modify in H as [-> _]. Qed.
Lemma silent_ret {S A} (a : A) : silent (S := S) (ret a).
Proof. by intros tr r [-> _]. Qed.
Lemma silent_timeout f : silent (setTimeout f).
Proof. intros tr r (n & -> & _). done. Qed.
Lemma prefix_bind {S A B} (t : Outside.prog S A) (f : A → Outside.prog S B) tr r :
  (∀ a, silent (f a)) → trace obs (bind t f) tr r → ∃ r', trace obs t tr r'.
Proof.
  intros Hf [(e & H & _)|(a & tr1 & tr2 & -> & H & H2)]%trace_bind; [eauto|].
  apply Hf in H2 as ->. rewrite app_nil_r. eauto.
Qed.
Lemma silent_bind {S A B} (t : Outside.prog S A) (f : A → Outside.prog S B) :
  silent t → (∀ a, silent (f a)) → silent (bind t f).
Proof. intros Ht Hf tr r H. apply prefix_bind in H as [r' H]; [|done]. by apply Ht in H. Qed.

(** [try { t } catch { h } finally { f }] around [t] *)
Lemma guarded_trace (t : Outside.prog screen unit) h f tr r :
  (∀ e, silent (set (h e))) → trace obs (try_finally (try_catch t (λ e, set (h e))) (set f)) tr r →
  r = inr tt ∧ ∃ r', trace obs t tr r'.
Proof.
  intros Hh H. apply trace_bindR in H as (a & tr1 & tr2 & -> & H & H2).
  apply trace_bindR in H2 as (b & tr3 & tr4 & -> & H2 & H3). apply silent_set in H2 as ->.
  destruct H3 as [-> ->]. rewrite app_nil_r.
  apply trace_try_catch in H as [([] & -> & H)|(e & tr5 & tr6 & -> & H & H4)]; [eauto|].
  apply trace_modify in H4 as [-> ->]. rewrite app_nil_r. eauto.
Qed.

(** an amount the native module is given to sign *)
Definition signed_amount (e : event) : option json :=
  match e with Ev c _ => match c with native _ _ [JObj fields] => mget (js "amount") fields | _ => None end end.

Lemma signs_exactly op from atoms v chain tr :
  reviewed chain v op from atoms → transferred op tr → ∀ e a, e ∈ tr → signed_amount e = Some a → a = JStr atoms.
Proof.
  intros (t & _ & _ & _ & Ha & Hop) (k & _ & H) e a He.
  assert (∀ fields answer, Tokens.signs op answer fields → mget (js "amount") fields = Some (JStr atoms)) as Hs.
  { intros fields answer [(b & Hb & Hf) _]. rewrite Hf. do 2 f_equal. eapply gate_keeps; [exact Ha|].
    destruct (s_sort t); destruct_and! Hop; subst op; exact Hb. }
  destruct H as [(e' & ->)|(answer & rest & r & -> & H)].
  - apply list_elem_of_singleton in He as ->. done.
  - apply elem_of_cons in He as [-> |He]; [done|].
    destruct H as [[-> _]|(fields & b & Hf & [[-> _]|(signed & tx & c & _ & _ & _ & -> & _)])]; [by apply not_elem_of_nil in He|..].
    + apply list_elem_of_singleton in He as ->. simpl. rewrite (Hs _ _ Hf). by intros [= <-].
    + apply elem_of_cons in He as [-> |He]; [simpl; rewrite (Hs _ _ Hf); by intros [= <-]|].
      apply list_elem_of_singleton in He as ->. done.
Qed.

Section Sent.
Context (nativeModule : option (jstr → bool)) (CHAIN_ID : Z).

Lemma transfer_trace v t tr r :
  r_token v = Some t → valid v = true → trace obs (transfer nativeModule CHAIN_ID v t) tr r →
  tr = [] ∨ ∃ op from atoms, reviewed CHAIN_ID v op from atoms ∧ transferred op tr.
Proof.
  intros Ht Hv. unfold transfer. pose proof (validated v Hv) as [Hr _].
  destruct (TokenUnits.humanToAtomic _ _) as [atoms|] eqn:Ea; [|intros [-> _]; by left].
  assert (∀ op q, op = Tokens.OpWallet q ∨ op = Tokens.OpSov q →
    trace obs (Tokens.perform nativeModule op;; ret tt : Outside.prog screen unit) tr r → transferred op tr) as Hop.
  { intros op q Hq H. unfold mbind, outside_bind in H.
    assert (∃ r', trace (S := screen) obs (Tokens.perform nativeModule op) tr r') as [r' H'].
    { apply trace_bind in H as [(e & H & _)|(a & tr1 & tr2 & -> & H & H2)]; [eauto|].
      apply trace_ret in H2 as [-> _]. rewrite app_nil_r. eauto. }
    apply (Tokens.wallet_operation nativeModule op q) in H'; [|done].
    exists (Tokens.w_token q, Tokens.w_from q). split; [by destruct Hq as [-> | ->]|].
    destruct H' as [(e & -> & _)|(answer & rest & -> & H')]; [left|right]; eauto 10. }
  destruct (s_sort t) eqn:Es.
  - destruct (set_ (r_from v)) as [from|] eqn:Ef; [|intros [-> _]; by left]. intros H.
    apply set_Some in Ef as [Ef Hn]. destruct (sov_recipient v t Ht Es Hr) as [Hl Hh]. right.
    eexists _, from, atoms. split; [|eapply Hop; [right; reflexivity|exact H]].
    exists t. rewrite Es. auto 10.
  - destruct (truthy (token_id t)) eqn:Et; [apply truthy_true in Et|intros [-> _]; by left]. cbn [negb].
    destruct (set_ (id <$> primaryWallet (r_wallets v))) as [from|] eqn:Ef; [|intros [-> _]; by left]. intros H.
    apply set_Some in Ef as [Ef Hn]. right.
    eexists _, from, atoms. split; [|eapply Hop; [left; reflexivity|exact H]].
    exists t. rewrite Es. auto 10.
Qed.

(** C19: confirming a transfer requests nothing unless the rendering it belongs to
    passes validation with a token selected; and then only the transfer that was
    reviewed: of the selected token, from the selected wallet for SOV and from the
    primary wallet for the others, to the recipient as it was typed - for SOV 64
    hex digits - in the order nonce, signature, post, and the amount signed is the
    typed one in atoms, exactly.  The handler itself never fails. *)
Theorem sends_what_was_reviewed v tr r :
  trace obs (handleTransfer nativeModule CHAIN_ID v) tr r →
  r = inr tt ∧
  (tr = [] ∨ ∃ op from atoms, reviewed CHAIN_ID v op from atoms ∧ transferred op tr ∧
     ∀ e a, e ∈ tr → signed_amount e = Some a → a = JStr atoms).
Proof.
  unfold handleTransfer, set. intros H. unfold mbind, outside_bind in H.
  apply trace_bind in H as [(e & H & ->)|(u & tr1 & tr2 & -> & H & H2)]; apply trace_modify in H as [-> Hu]; [done|].
  cbn [app]. destruct (r_token v) as [t|] eqn:Ht; [|apply trace_ret in H2 as [-> ->]; eauto].
  apply trace_bind in H2 as [(e & H & ->)|(ok & tr3 & tr4 & -> & H & H2)];
    (apply trace_bind in H as [(e' & H & Hr)|(u' & tr5 & tr6 & -> & H & H3)]; apply trace_modify in H as [-> Hu']; try done);
    apply trace_ret in H3 as [-> Hok]; [done|]. injection Hok as ->. cbn [app].
  destruct (valid v) eqn:Hv; [|apply trace_ret in H2 as [-> ->]; eauto]. cbn [negb] in H2.
  do 2 (let Hq := fresh in apply trace_bind in H2 as [(? & Hq & ->)|(? & ? & ? & -> & Hq & H2)]; apply trace_modify in Hq as [-> ?]; [done|]).
  apply guarded_trace in H2 as [-> [r' H2]]; [|intros; apply silent_set].
  split; [done|]. apply prefix_bind in H2 as [r2 H2]; [|].
  { destruct (transfer_trace v t _ _ Ht Hv H2) as [-> |(op & from & atoms & Hr & Hop)]; [by left|right].
    exists op, from, atoms. split; [done|]. split; [done|]. by eapply signs_exactly. }
  intros _. apply silent_bind; [apply silent_set|intros _]. apply silent_bind; [apply silent_set|intros _].
  cbv zeta. case_bool_decide; apply silent_timeout.
Qed.
End Sent.

(** *** The balance is compared in doubles *)

(** C21: the margin of the check of an SOV transfer: an amount that passes, of the
    wallet whose balance the node gave as atoms, exceeds those atoms by less than
    one part in 2^49. *)
Theorem sov_within_balance v t from row b atoms :
  r_token v = Some t → s_sort t = sov → s_decimals t = Some 18 → valid v = true →
  set_ (r_from v) = Some from → find_wallet from (r_wallets v) = Some (toWalletDisplay row) →
  jget (js "available_balance") row = Some (JStr b) → all_digits b = true → dec_val b ≤ 2 ^ 1000 →
  TokenUnits.humanToAtomic (amount v) 18 = Some atoms →
  Tokens.coerceAmountAtoms (Tokens.AString atoms) = inr atoms →
  dec_val atoms * 2 ^ 49 ≤ dec_val b * (2 ^ 49 + 1).
Proof.
  intros Ht Hs Hd Hv Hf Hw Hb Hdig Hbig Ha Hc. apply validated in Hv as [_ Hv]. unfold validateAmount in Hv.
  destruct (truthy _); [|done]. cbn [negb] in Hv. destruct (_ || _); [done|].
  rewrite Ht in Hv. replace (is_sort sov (Some t)) with true in Hv
    by (symmetry; apply bool_decide_eq_true; simpl; by rewrite Hs).
  rewrite Hf, Hw in Hv. destruct (gt _ _) eqn:Hg; [done|]. clear Hv.
  unfold toWalletDisplay in Hg. cbn [available_balance] in Hg. rewrite Hb in Hg.
  apply amount_parts in Ha as (n & k & Hn & Hk & Hp & Hval). rewrite Hp, (decimal_ratio _ _ 18), <-Hval in Hg by done.
  destruct (atomsToSov_near b Hdig Hbig) as (y & Ey & Hy & Wy). rewrite Ey in Hg.
  assert (0 ≤ dec_val atoms ≤ 2 ^ 128) as Hr.
  { split; [rewrite Hval; pose proof (pow10_pos (18 - k)); nia|by apply gate_bound]. }
  destruct (near_of_ratio (dec_val atoms) (10 ^ 18)) as (x & Ex & Hx & Wx); [done| | |].
  { destruct (Z.eq_dec (dec_val atoms) 0); [by left|right]. assert (10 ^ 18 ≤ 1 * 2 ^ 1022) by (by vm_compute). nia. }
  { assert (2 ^ 128 ≤ 2 ^ 1023 * 10 ^ 18) by done. lia. }
  rewrite Ex in Hg. apply gt_false in Hg.
  destruct Wx as (_ & _ & _ & H1), Wy as (_ & _ & H2 & _). unfold slack, step in H1, H2.
  change (inject_Z (10 ^ 18)) with (1000000000000000000 # 1)%Q in *.
  change (inject_Z SOV_ATOMS_PER_UNIT) with (1000000000000000000 # 1)%Q in *.
  assert (inject_Z (dec_val atoms) * inject_Z (2 ^ 49) <= inject_Z (dec_val b) * inject_Z (2 ^ 49 + 1))%Q as H.
  { change (inject_Z (2 ^ 49)) with (562949953421312 # 1)%Q. change (inject_Z (2 ^ 49 + 1)) with (562949953421313 # 1)%Q.
    assert (0 <= inject_Z (dec_val b))%Q as H0.
    { apply inject_nonneg, dec_val_nonneg. by apply all_digits_spec in Hdig as [_ ?]. }
    set (p := inject_Z (dec_val atoms)) in *. set (q := inject_Z (dec_val b)) in *.
    assert (p / (1000000000000000000 # 1) == p * (1 # 1000000000000000000))%Q as Ep by (field; lra).
    assert (q / (1000000000000000000 # 1) == q * (1 # 1000000000000000000))%Q as Eq by (field; lra).
    rewrite Ep in H1. rewrite Eq in H2. lra. }
  by rewrite <-!inject_Z_mult, <-Zle_Qle in H.
Qed.

(** The margin is there: one atom more than the balance passes. *)
Definition one_more (book : list jstr) : render :=
  mkRender (Some (js "did:zhtp:aa")) None
    [toWalletDisplay (JObj [(js "wallet_id", JStr (js "w1")); (js "wallet_type", JStr (js "Primary"));
                            (js "available_balance", JStr (js "1000000000000000000"))])]
    (Some (mkSendable (js "SOV") (js "SOV") (js "Sovereign") (of_Z 1) sov (js "aa") (Some 18))) (Some (js "w1"))
    (replicate 64 "a"%char) (js "1.000000000000000001") book.
Example one_atom_more_passes :
  valid (one_more []) = true ∧
  TokenUnits.humanToAtomic (amount (one_more [])) 18 = Some (js "1000000000000000001").
Proof. by vm_compute. Qed.

Lemma sov_within_balance_witness :
  valid (one_more []) = true ∧ 1000000000000000001 * 2 ^ 49 ≤ 1000000000000000000 * (2 ^ 49 + 1).
Proof.
  split; [by vm_compute|].
  pose proof (sov_within_balance (one_more []) _ (js "w1")
    (JObj [(js "wallet_id", JStr (js "w1")); (js "wallet_type", JStr (js "Primary"));
           (js "available_balance", JStr (js "1000000000000000000"))])
    (js "1000000000000000000") (js "1000000000000000001") eq_refl eq_refl eq_refl) as H.
  revert H. vm_compute. intros H. apply H; done.
Defined.

(** *** A recipient with the prefix of a DID passes for a token other than SOV, and
    is sent as it is *)
Definition a_token : SendableToken := mkSendable (js "cb") (js "CBE") (js "CBE") (of_Z 5) custom (js "cb") (Some 8).
Definition to_a_did : render :=
  mkRender (Some (js "did:zhtp:aa")) None
    [toWalletDisplay (JObj [(js "wallet_id", JStr (js "w1")); (js "wallet_type", JStr (js "primary"))])]
    (Some a_token) None (js "did:zhtp:" ++ replicate 64 "b"%char) (js " 2.5 ") [].
Definition did_transfer : Tokens.operation :=
  Tokens.OpWallet (Tokens.mkWalletTransfer (js "cb") (js "w1") (js "did:zhtp:" ++ replicate 64 "b"%char)
    (Tokens.AString (js "250000000")) (Some 2)).
Definition did_trace : list event :=
  [Tokens.lookup_event (js "cb", js "w1") (inr (JObj [(js "nonce", JNum 7)]));
   Tokens.sign_event did_transfer (Tokens.op_fields did_transfer (Some (JNum 7)) (js "250000000")) (inr (JObj [(js "signed_tx", JStr (js "f0"))]));
   Tokens.post_event did_transfer (JStr (js "f0")) (inr (JObj []))].

Definition blank : screen := mkScreen None [] None true None (None, None) false false None None None [] 0 false.

Lemma did_trace_ok : trace obs (handleTransfer (Some (λ _, true)) 2 to_a_did) did_trace (inr tt).
Proof.
  assert (valid to_a_did = true) as Hv by by vm_compute.
  unfold handleTransfer, validateTransfer. rewrite Hv. do 4 exists blank. do 3 (eexists; eexists; split; [reflexivity|]).
  do 2 exists blank. exists O, blank. split; reflexivity.
Qed.

Lemma sends_what_was_reviewed_witness :
  Forall (λ e, match signed_amount e with Some a => a = JStr (js "250000000") | None => True end) did_trace ∧
  ∃ op from atoms, reviewed 2 to_a_did op from atoms ∧ transferred op did_trace.
Proof.
  split; [repeat constructor|].
  destruct (sends_what_was_reviewed (Some (λ _, true)) 2 to_a_did _ _ did_trace_ok) as [_ [H|(op & from & atoms & H1 & H2 & _)]].
  - discriminate H.
  - exists op, from, atoms. split; [exact H1|exact H2].
Defined.

Lemma loads_offered_tokens_witness :
  ∃ s' x', solo phone_handle (loadAllTokens (one_more [])) blank new_phone = Some (inr tt, s', x') ∧
    length (allTokens s') = 0%nat ∧ listed s'.
Proof.
  destruct (loads_offered_tokens phone_handle (one_more []) (js "did:zhtp:aa") blank new_phone) as (s' & x' & E & H); [reflexivity|].
  exists s', x'. split; [exact E|]. split; [|exact H]. revert E. vm_compute. intros [= <- _]. reflexivity.
Defined.

(** SOV that only the balances name is listed twice: as the native token and as
    another one. *)
Example sov_listed_twice :
  map s_sort (tokens (with_balances (from_wallets [])
    [JObj [(js "token_id", JStr (js "aa")); (js "symbol", JStr (js "SOV")); (js "decimals", JNum 18); (js "balance", JStr (js "5"))]]))
  = [sov; custom].
Proof. by vm_compute. Qed.
