(* ===== verification/OracleHook.v ===== *)
(** * The polling data hook: src/src/hooks/useOracleData.ts

    One mounted instance of the hook as a machine.  React is modelled by what its
    documentation says of the hooks used here: a callback of [useCallback] is
    that of the last rendering in which a dependency changed, with what it
    captured then; effects run after a rendering in which a dependency changed,
    after the cleanup of their last run.  The events are renderings, answers,
    timers and the user's retry, in any order; a fetch or a read that was started
    may be answered at any later time.  A fetcher is known by the path it asks
    for. *)

From stdpp Require Import strings.
From S2P Require Import Prelude JsString JsMap Json Outside.
From S2P Require Quic.
#[local] Open Scope Z_scope.

(** ** The cache *)

Record CacheEnvelope := mkEnvelope { env_data : json; env_fetchedAt : json }.

Definition CACHE_NAMESPACE : jstr := js "oracle:v1:".

Definition is_number (v : json) : bool := match v with JNum _ | JDec _ _ => true | _ => false end.
Definition is_one (v : option json) : bool := match v with Some (JNum n) => n =? 1 | _ => false end.

(** what [readCache] makes of what the storage answers; [None] is a rejection.
    A missing [data] is [undefined], which no screen tells from [null]. *)
Definition readCache (answer : option (option jstr)) : option CacheEnvelope :=
  '(raw) ← answer; raw ← raw;
  if negb (truthy raw) then None
  else
    parsed ← json_parse raw;
    if negb (is_one (jget (js "v") parsed)) then None
    else
      fetchedAt ← jget (js "fetchedAt") parsed;
      if negb (is_number fetchedAt) then None
      else Some (mkEnvelope (default JNull (jget (js "data") parsed)) fetchedAt).

Definition envelope (fetchedAt : Z) (data : json) : json :=
  JObj [(js "v", JNum 1); (js "fetchedAt", JNum fetchedAt); (js "data", data)].

(** ** The instance *)

(** the dependencies of the main effect are [cacheKey] and [deps] *)
Record options := mkOptions { cacheKey : jstr; fetcher : jstr; intervalMs : Z; deps : list jstr }.

(** [scheduleNext] of a rendering: its interval, and the key of the [runFetch] of
    the same rendering, which is the one its timer runs *)
Record scheduler := mkScheduler { s_interval : Z; s_key : jstr }.
(** [runFetch] of a rendering: its key and its [scheduleNext] *)
Record runner := mkRunner { r_key : jstr; r_schedule : scheduler }.

Record hook := mkHook {
  (* what the screen is given *)
  data : json; loading : bool; error : option jstr; stale : bool;
  lastFetchedAt : json; nextRefetchAt : option Z;
  (* refs *)
  fetcherRef : jstr; mountedRef : bool; intervalRef : option nat;
  (* of the last rendering *)
  rendered : options; scheduleNext : scheduler; runFetch : runner;
  (* the run of the main effect whose [cancelled] is still false *)
  effect : option nat;
  (* outside: timers that are armed, fetches and reads under way, what was
     given to the storage *)
  timers : list (nat * runner);
  fetches : list (nat * (runner * jstr));
  reads : list (nat * (nat * jstr));
  written : list (jstr * jstr);
  fresh : nat;
}.

Definition set_view d l e s f (x : hook) : hook :=
  mkHook d l e s f (nextRefetchAt x) (fetcherRef x) (mountedRef x) (intervalRef x) (rendered x) (scheduleNext x)
    (runFetch x) (effect x) (timers x) (fetches x) (reads x) (written x) (fresh x).
Definition setLoading (l : bool) (x : hook) : hook := set_view (data x) l (error x) (stale x) (lastFetchedAt x) x.
Definition set_timer (n : option Z) (r : option nat) (t : list (nat * runner)) (k : nat) (x : hook) : hook :=
  mkHook (data x) (loading x) (error x) (stale x) (lastFetchedAt x) n (fetcherRef x) (mountedRef x) r (rendered x)
    (scheduleNext x) (runFetch x) (effect x) t (fetches x) (reads x) (written x) k.
Definition set_calls (f : list (nat * (runner * jstr))) (r : list (nat * (nat * jstr))) (w : list (jstr * jstr)) (k : nat) (x : hook) : hook :=
  mkHook (data x) (loading x) (error x) (stale x) (lastFetchedAt x) (nextRefetchAt x) (fetcherRef x) (mountedRef x)
    (intervalRef x) (rendered x) (scheduleNext x) (runFetch x) (effect x) (timers x) f r w k.
Definition set_effect (m : bool) (e : option nat) (k : nat) (x : hook) : hook :=
  mkHook (data x) (loading x) (error x) (stale x) (lastFetchedAt x) (nextRefetchAt x) (fetcherRef x) m
    (intervalRef x) (rendered x) (scheduleNext x) (runFetch x) e (timers x) (fetches x) (reads x) (written x) k.

(** removes the entry [i] *)
Definition without {A} (i : nat) (l : list (nat * A)) : list (nat * A) := List.filter (λ p, negb (p.1 =? i)%nat) l.
Definition entry {A} (i : nat) (l : list (nat * A)) : option A := snd <$> List.find (λ p, (p.1 =? i)%nat) l.

(** [clearTimeout(intervalRef.current); intervalRef.current = null] *)
Definition clear (x : hook) : hook :=
  match intervalRef x with
  | Some i => set_timer (nextRefetchAt x) None (without i (timers x)) (fresh x) x
  | None => x
  end.

Definition schedule (s : scheduler) (now : Z) (x : hook) : hook :=
  let x := clear x in
  set_timer (Some (now + s_interval s)) (Some (fresh x))
    ((fresh x, mkRunner (s_key s) s) :: timers x) (S (fresh x)) x.

(** [runFetch], up to the answer *)
Definition run (r : runner) (x : hook) : hook :=
  let x := setLoading true x in
  set_calls ((fresh x, (r, fetcherRef x)) :: fetches x) (reads x) (written x) (S (fresh x)) x.

Definition FETCH_FAILED : jstr := js "Oracle fetch failed".

(** what [runFetch] sets on the answer: [inr] a result, [inl] what was thrown,
    with its message when it is an [Error] *)
Definition outcome (r : runner) (answer : option jstr + json) (now saved : Z) (x : hook) : hook :=
  match answer with
  | inr result =>
      let x := set_view result (loading x) None false (JNum now) x in
      set_calls (fetches x) (reads x)
        (written x ++ [(CACHE_NAMESPACE ++ r_key r, stringify (envelope saved result))]) (fresh x) x
  | inl caught => set_view (data x) (loading x) (Some (default FETCH_FAILED caught)) true (lastFetchedAt x) x
  end.

(** [runFetch], from the answer on; the clock is read three times *)
Definition settle (r : runner) (answer : option jstr + json) (now saved next : Z) (x : hook) : hook :=
  if negb (mountedRef x) then x
  else schedule (r_schedule r) next (setLoading false (outcome r answer now saved x)).

(** the main effect: reset, read the cache, fetch *)
Definition start (x : hook) : hook :=
  let x := set_view JNull true None true JNull x in
  let e := fresh x in
  let x := set_effect (mountedRef x) (Some e) (S e) x in
  let x := set_calls (fetches x) ((fresh x, (e, cacheKey (rendered x))) :: reads x) (written x) (S (fresh x)) x in
  run (runFetch x) x.
Definition cleanup (x : hook) : hook := clear (set_effect (mountedRef x) None (fresh x) x).

(** [.then(entry => ...)] of the read, whose effect run is [e] *)
Definition hydrate (e : nat) (found : option CacheEnvelope) (x : hook) : hook :=
  if bool_decide (effect x ≠ Some e) || negb (mountedRef x) then x
  else
    match found with
    | Some c => set_view (env_data c) (loading x) (error x) (stale x) (env_fetchedAt c) x
    | None => x
    end.

(** the callbacks of a rendering *)
Definition memo_schedule (o : options) (x : hook) : scheduler :=
  if bool_decide (intervalMs o = intervalMs (rendered x)) then scheduleNext x else mkScheduler (intervalMs o) (cacheKey o).
Definition memo_run (o : options) (x : hook) : runner :=
  if bool_decide (cacheKey o = cacheKey (rendered x) ∧ intervalMs o = intervalMs (rendered x)) then runFetch x
  else mkRunner (cacheKey o) (memo_schedule o x).

Definition set_rendered (o : options) (s : scheduler) (r : runner) (x : hook) : hook :=
  mkHook (data x) (loading x) (error x) (stale x) (lastFetchedAt x) (nextRefetchAt x) (fetcher o) (mountedRef x)
    (intervalRef x) o s r (effect x) (timers x) (fetches x) (reads x) (written x) (fresh x).

(** a rendering with its effects *)
Definition render (o : options) (x : hook) : hook :=
  let changed := negb (bool_decide (cacheKey o = cacheKey (rendered x) ∧ deps o = deps (rendered x))) in
  let x := set_rendered o (memo_schedule o x) (memo_run o x) x in
  if changed then start (cleanup x) else x.

(** the first rendering; [disk] is what the storage was given before *)
Definition mount (o : options) (disk : list (jstr * jstr)) : hook :=
  let s := mkScheduler (intervalMs o) (cacheKey o) in
  start (mkHook JNull true None true JNull None (fetcher o) true None o s (mkRunner (cacheKey o) s) None [] [] [] disk O).

Definition unmount (x : hook) : hook := cleanup (set_effect false (effect x) (fresh x) x).

Inductive event :=
| Render (o : options)
| Unmount
| Answer (i : nat) (answer : option jstr + json) (now saved next : Z)
| Fire (i : nat)
| ReadDone (i : nat) (answer : option (option jstr))
| Retry.

Definition step (x : hook) (e : event) : hook :=
  match e with
  | Render o => if mountedRef x then render o x else x
  | Unmount => if mountedRef x then unmount x else x
  | Answer i answer now saved next =>
      match entry i (fetches x) with
      | Some (r, _) => settle r answer now saved next (set_calls (without i (fetches x)) (reads x) (written x) (fresh x) x)
      | None => x
      end
  | Fire i =>
      match entry i (timers x) with
      | Some r => run r (set_timer (nextRefetchAt x) (intervalRef x) (without i (timers x)) (fresh x) x)
      | None => x
      end
  | ReadDone i answer =>
      match entry i (reads x) with
      | Some (e, _) => hydrate e (readCache answer) (set_calls (fetches x) (without i (reads x)) (written x) (fresh x) x)
      | None => x
      end
  | Retry => run (runFetch x) x
  end.
Definition history (x : hook) (l : list event) : hook := fold_left step l x.

(** ** Polling never stops *)

Record steady (x : hook) : Prop := {
  l_timers : timers x = [] ∨ ∃ i r at', timers x = [(i, r)] ∧ intervalRef x = Some i ∧ nextRefetchAt x = Some at';
  l_stale : stale x = true ∨ error x = None ∧ lastFetchedAt x ≠ JNull;
  l_fetcher : fetcherRef x = fetcher (rendered x);
}.
(** a fetch is under way while [loading], a timer is armed otherwise *)
Definition pending (x : hook) : Prop :=
  if mountedRef x then (if loading x then fetches x ≠ [] else timers x ≠ []) else timers x = [].
Definition live (x : hook) : Prop := steady x ∧ pending x.

Lemma clear_timers x : steady x → timers (clear x) = [].
Proof.
  intros [Ht _ _]. unfold clear. destruct Ht as [Ht|(i & r & at' & Ht & Hi & _)].
  - destruct (intervalRef x); simpl; by rewrite Ht.
  - rewrite Hi. simpl. rewrite Ht. simpl. by rewrite Nat.eqb_refl.
Qed.
Lemma clear_keeps x : ∃ n r t, clear x = set_timer n r t (fresh x) x.
Proof. unfold clear. destruct (intervalRef x); [by do 3 eexists|]. exists (nextRefetchAt x), (intervalRef x), (timers x). by destruct x. Qed.

Lemma steady_clear x : steady x → steady (clear x).
Proof.
  intros H. pose proof (clear_timers x H) as Ht. destruct (clear_keeps x) as (n & r & t & E). rewrite E in *.
  destruct H as [_ Hs Hf]. split; [by left|done..].
Qed.
Lemma steady_schedule s now x : steady x → steady (schedule s now x).
Proof.
  intros H. pose proof (clear_timers x H) as Ht. unfold schedule. rewrite Ht.
  destruct (clear_keeps x) as (n & r & t & E). rewrite E in *. destruct H as [_ Hs Hf].
  split; simpl; [right; by do 3 eexists|done..].
Qed.
Lemma outcome_keeps r a now saved x : mountedRef (outcome r a now saved x) = mountedRef x.
Proof. by destruct a. Qed.
Lemma steady_settle r a now saved next x : steady x → steady (settle r a now saved next x).
Proof.
  intros H. unfold settle. destruct (mountedRef x); [|done]. apply steady_schedule.
  destruct H as [Ht Hs Hf], a; split; try done; [by left|by right].
Qed.
Lemma pending_settle r a now saved next x : (mountedRef x = false → timers x = []) → pending (settle r a now saved next x).
Proof.
  intros Hn. unfold settle, pending. pose proof (outcome_keeps r a now saved x) as Ho.
  destruct (mountedRef x) eqn:Hm; cbn [negb]; [|by rewrite Hm, Hn]. unfold schedule.
  destruct (clear_keeps (setLoading false (outcome r a now saved x))) as (n & i & t & ->). simpl. by rewrite Ho.
Qed.

(** the main effect, started with no timer armed *)
Lemma live_start x : timers x = [] → fetcherRef x = fetcher (rendered x) → live (start x).
Proof.
  intros Ht Hf. split; [split; simpl; [by left|by left|done]|]. unfold pending. simpl. by destruct (mountedRef x).
Qed.

Lemma readCache_number a c : readCache a = Some c → env_fetchedAt c ≠ JNull.
Proof.
  unfold readCache. destruct a as [[raw|]|]; simpl; [|done..]. destruct (negb (truthy raw)); [done|].
  destruct (json_parse raw) as [v|]; simpl; [|done]. destruct (negb (is_one _)); [done|].
  destruct (jget (js "fetchedAt") v) as [f|]; simpl; [|done]. by destruct f; intros [= <-].
Qed.

Lemma live_step x e : live x → live (step x e).
Proof.
  intros [H Hp]. destruct e as [o| |i a now saved next|i|i a|]; simpl.
  - destruct (mountedRef x) eqn:Hm; [|done]. unfold render. case_bool_decide; simpl.
    + destruct H. split; [by split|]. exact Hp.
    + unfold cleanup. set (y := set_effect _ _ _ _). assert (steady y) as Hy by (destruct H; by split).
      apply live_start; [by apply clear_timers|]. by destruct (steady_clear y Hy).
  - destruct (mountedRef x) eqn:Hm; [|done]. unfold unmount, cleanup. simpl.
    set (y := set_effect false None (fresh x) _). assert (steady y) as Hy by (destruct H; by split).
    split; [by apply steady_clear|]. pose proof (clear_timers y Hy) as Ht. unfold pending.
    destruct (clear_keeps y) as (n & r & t & E). by rewrite E in *.
  - destruct (entry i (fetches x)) as [[r p]|]; [|done]. split; [apply steady_settle; destruct H; by split|].
    apply pending_settle. unfold pending in Hp. simpl. intros Hm. by rewrite Hm in Hp.
  - destruct (entry i (timers x)) as [r|] eqn:E; [|done]. destruct H as [Ht Hs Hf].
    assert (without i (timers x) = []) as Hw.
    { destruct Ht as [Ht|(j & r' & at' & Ht & _)]; rewrite Ht in *; [done|]. unfold entry in E. simpl in *.
      by destruct (j =? i)%nat. }
    split; [split; simpl; [by left|done..]|]. unfold pending in *. simpl. by destruct (mountedRef x).
  - destruct (entry i (reads x)) as [[e k]|]; [|done]. unfold hydrate. simpl.
    destruct (_ || _); [split; [destruct H; by split|exact Hp]|].
    destruct (readCache a) as [c|] eqn:Ec; [|split; [destruct H; by split|exact Hp]].
    split; [|exact Hp]. destruct H as [Ht Hs Hf]. split; simpl; [done| |done].
    destruct Hs as [Hs|[Hs _]]; [by left|right]. split; [done|by eapply readCache_number].
  - split; [destruct H; by split|]. unfold pending in *. simpl. by destruct (mountedRef x).
Qed.

Lemma live_history l x : live x → live (history x l).
Proof. revert x. induction l as [|e l IH]; intros x H; [done|]. apply IH. by apply live_step. Qed.

(** The hook keeps polling, whatever happens and in whatever order.  Mounted, it
    is [loading] with a fetch under way, or exactly one timer is armed and
    announced; its expiry starts a fetch from the path of the last rendering.
    Unmounted, no timer is left.  What is shown as fresh carries no error and the
    time it was fetched. *)
Fact polling_survives o disk l :
  let x := history (mount o disk) l in
  (if mountedRef x then
     if loading x then fetches x ≠ []
     else ∃ i r at', timers x = [(i, r)] ∧ nextRefetchAt x = Some at' ∧
       fetches (step x (Fire i)) = (fresh x, (r, fetcher (rendered x))) :: fetches x
   else timers x = []) ∧
  (length (timers x) ≤ 1)%nat ∧
  (stale x = true ∨ error x = None ∧ lastFetchedAt x ≠ JNull).
Proof.
  destruct (live_history l (mount o disk)) as [[Ht Hs Hf] Hp]; [by apply live_start|]. simpl.
  set (x := history (mount o disk) l) in *. split; [|split; [|done]].
  - unfold pending in Hp. destruct (mountedRef x); [|done]. destruct (loading x); [done|].
    destruct Ht as [Ht|(i & r & at' & Ht & _ & Ha)]; [done|]. exists i, r, at'. split_and!; [done..|].
    unfold entry. rewrite Ht. simpl. rewrite Nat.eqb_refl. simpl. by rewrite Hf.
  - destruct Ht as [->|(i & r & at' & -> & _)]; simpl; lia.
Qed.

(** ** The cache of one selection

    [answers path v] says that the node answers [v] to [path]. *)

Section Cache.
Context (answers : jstr → json → Prop) (k p : jstr).

Definition of_key (kv : jstr * jstr) : Prop :=
  kv.1 = CACHE_NAMESPACE ++ k → ∃ at' v, kv.2 = stringify (envelope at' v) ∧ plain v ∧ answers p v.

(** the node answers the path that was asked, and the storage gives back what it
    was given under the key *)
Definition allowed (x : hook) (e : event) : Prop :=
  match e with
  | Render o => cacheKey o = k ∧ fetcher o = p
  | Answer i (inr v) _ _ _ => ∀ r path, entry i (fetches x) = Some (r, path) → plain v ∧ answers path v
  | ReadDone i (Some (Some raw)) => ∀ e key, entry i (reads x) = Some (e, key) → (CACHE_NAMESPACE ++ key, raw) ∈ written x
  | _ => True
  end.
Fixpoint allowed_run (x : hook) (l : list event) : Prop :=
  match l with [] => True | e :: l => allowed x e ∧ allowed_run (step x e) l end.

Record one_key (x : hook) : Prop := {
  o_rendered : cacheKey (rendered x) = k ∧ fetcher (rendered x) = p ∧ fetcherRef x = p;
  o_schedule : s_key (scheduleNext x) = k;
  o_run : r_key (runFetch x) = k ∧ s_key (r_schedule (runFetch x)) = k;
  o_timers : Forall (λ t, r_key t.2 = k ∧ s_key (r_schedule t.2) = k) (timers x);
  o_fetches : Forall (λ f, (r_key f.2.1 = k ∧ s_key (r_schedule f.2.1) = k) ∧ f.2.2 = p) (fetches x);
  o_reads : Forall (λ f, f.2.2 = k) (reads x);
  o_written : Forall of_key (written x);
  o_data : data x = JNull ∨ answers p (data x);
}.

Lemma entry_Forall {A} (Q : nat * A → Prop) i l a : Forall Q l → entry i l = Some a → ∃ j, Q (j, a).
Proof.
  unfold entry. intros H. destruct (List.find _ l) as [[j b]|] eqn:E; simpl; [|done]. intros [= ->].
  apply List.find_some in E as [Hin _]. exists j. by eapply list.Forall_forall; [|apply list_elem_of_In].
Qed.
Lemma without_Forall {A} (Q : nat * A → Prop) i l : Forall Q l → Forall Q (without i l).
Proof.
  rewrite !list.Forall_forall. intros H q Hq. apply H. apply list_elem_of_In. apply list_elem_of_In in Hq.
  by apply filter_In in Hq as [Hq _].
Qed.

(** what is written under the key is read back *)
Lemma envelope_read at' v : plain v → readCache (Some (Some (stringify (envelope at' v)))) = Some (mkEnvelope v (JNum at')).
Proof.
  intros Hv. unfold readCache. cbn [mbind option_bind]. assert (truthy (stringify (envelope at' v)) = true) as -> by done.
  cbn [negb]. rewrite json_parse_stringify; [done|].
  apply plain_obj. split; [by apply (bool_decide_eq_true_1 _)|]. repeat constructor; done.
Qed.
Lemma cached_read raw c :
  of_key (CACHE_NAMESPACE ++ k, raw) → readCache (Some (Some raw)) = Some c → answers p (env_data c).
Proof.
  intros H. destruct H as (at' & v & Hraw & Hv & Ha); [done|]. cbn [snd] in Hraw. subst raw.
  rewrite envelope_read by done. by intros [= <-].
Qed.

Lemma one_key_clear x : one_key x → one_key (clear x).
Proof.
  intros [? ? ? ? ? ? ? ?]. unfold clear. destruct (intervalRef x); split; try done. by apply without_Forall.
Qed.
Lemma one_key_start x : one_key x → one_key (start x).
Proof.
  intros [Hr ? ? ? ? ? ? ?]. split; simpl; try done; [|constructor; [|done]|by left].
  - constructor; [|done]. simpl. split; [done|apply Hr].
  - apply Hr.
Qed.
Lemma one_key_settle r a now saved next x :
  one_key x → r_key r = k ∧ s_key (r_schedule r) = k →
  (∀ v, a = inr v → plain v ∧ answers p v) → one_key (settle r a now saved next x).
Proof.
  intros Hx [Hr Hs] Ha. unfold settle. destruct (mountedRef x); [|done]. cbn [negb].
  assert (one_key (setLoading false (outcome r a now saved x))) as H.
  { destruct Hx as [? ? ? ? ? ? Hw ?], a as [e|v]; split; try done; [|right; by apply Ha].
    apply list.Forall_app. split; [done|]. constructor; [|done]. intros _. exists saved, v. split; [done|by apply Ha]. }
  apply one_key_clear in H. unfold schedule. destruct H. split; try done. by constructor.
Qed.

Lemma one_key_step x e : one_key x → allowed x e → one_key (step x e).
Proof.
  intros H Ha. destruct e as [o| |i a now saved next|i|i a|]; simpl.
  - destruct (mountedRef x); [|done]. destruct Ha as [Hk Hp]. unfold render.
    assert (one_key (set_rendered o (memo_schedule o x) (memo_run o x) x)) as H'.
    { assert (s_key (memo_schedule o x) = k) as Hs by (unfold memo_schedule; case_bool_decide; [apply H|done]).
      destruct H. split; try done. unfold memo_run. case_bool_decide; [done|]. by split. }
    destruct (negb _); [|done]. unfold cleanup. apply one_key_start, one_key_clear. destruct H'. by split.
  - destruct (mountedRef x); [|done]. unfold unmount, cleanup. apply one_key_clear. destruct H. by split.
  - destruct (entry i (fetches x)) as [[r path]|] eqn:E; [|done].
    destruct (entry_Forall _ _ _ _ (o_fetches x H) E) as [j [Hr Hp]]. simpl in Hr, Hp. subst path.
    apply one_key_settle; [|done|].
    + destruct H. split; try done. by apply without_Forall.
    + intros v ->. simpl in Ha. by apply (Ha r p).
  - destruct (entry i (timers x)) as [r|] eqn:E; [|done].
    destruct (entry_Forall _ _ _ _ (o_timers x H) E) as [j Hr]. destruct H as [Ho ? ? Ht ? ? ? ?].
    split; try done; [by apply without_Forall|]. constructor; [|done]. split; [done|apply Ho].
  - destruct (entry i (reads x)) as [[e key]|] eqn:E; [|done].
    destruct (entry_Forall _ _ _ _ (o_reads x H) E) as [j Hk]. simpl in Hk. subst key.
    assert (one_key (set_calls (fetches x) (without i (reads x)) (written x) (fresh x) x)) as H'
      by (destruct H; split; try done; by apply without_Forall).
    unfold hydrate. destruct (_ || _); [done|]. destruct (readCache a) as [c|] eqn:Ec; [|done].
    destruct a as [[raw|]|]; [|done..]. destruct H'. split; try done. right. simpl in Ha.
    eapply cached_read; [|done]. eapply list.Forall_forall; [|by apply (Ha e k)]. apply H.
  - destruct H as [Ho ? Hr ? ? ? ? ?]. split; try done. constructor; [|done]. split; [done|apply Ho].
Qed.

Lemma one_key_history l x : one_key x → allowed_run x l → one_key (history x l).
Proof. revert x. induction l as [|e l IH]; intros x H; [done|]. intros [He Hl]. apply IH; [|done]. by apply one_key_step. Qed.
End Cache.

(** As long as the rendered selection stays the same, what the screen shows and
    what is cached under its key are answers of the node to the path of that
    selection, and what is cached is read back by the next mount. *)
Fact cache_keeps_selection (answers : jstr → json → Prop) o disk l :
  Forall (of_key answers (cacheKey o) (fetcher o)) disk →
  allowed_run answers (cacheKey o) (fetcher o) (mount o disk) l →
  let x := history (mount o disk) l in
  (data x = JNull ∨ answers (fetcher o) (data x)) ∧
  ∀ raw, (CACHE_NAMESPACE ++ cacheKey o, raw) ∈ written x →
    ∃ at' v, readCache (Some (Some raw)) = Some (mkEnvelope v (JNum at')) ∧ answers (fetcher o) v.
Proof.
  intros Hd Hl. destruct (one_key_history answers (cacheKey o) (fetcher o) l (mount o disk)) as [_ _ _ _ _ _ Hw Hs]; [|done|].
  - unfold mount. apply one_key_start. split; try done. by left.
  - split; [done|]. intros raw Hin. rewrite list.Forall_forall in Hw. destruct (Hw _ Hin) as (at' & v & Hraw & Hv & Ha); [done|].
    exists at', v. split; [|done]. cbn [snd] in Hraw. subst raw. by apply envelope_read.
Qed.

(** ** The oracle dashboard: src/src/services/OracleService.ts *)

Definition query_pair (p : jstr * option jstr) : list jstr :=
  match p.2 with Some v => [p.1 ++ js "=" ++ Quic.encodeURIComponent v] | None => [] end.
Definition buildQuery (params : list (jstr * option jstr)) : jstr :=
  match flat_map query_pair params with [] => [] | l => js "?" ++ JsString.join (js "&") l end.

Definition oracle_price (pair : option jstr) : jstr := js "/api/v1/oracle/price" ++ buildQuery [(js "pair", pair)].
Definition oracle_variation (pair period : option jstr) : jstr :=
  js "/api/v1/oracle/variation" ++ buildQuery [(js "pair", pair); (js "period", period)].

Definition ORACLE_POLL_MS : Z := 30000.
Definition price_options (pair : jstr) : options :=
  mkOptions (js "price:" ++ pair) (oracle_price (Some pair)) ORACLE_POLL_MS [pair].
Definition variation_options (pair period : jstr) : options :=
  mkOptions (js "variation:" ++ pair ++ js ":" ++ period) (oracle_variation (Some pair) (Some period)) ORACLE_POLL_MS [pair; period].

Example variation_path :
  oracle_variation (Some (js "SOV/USD")) (Some (js "24h")) = js "/api/v1/oracle/variation?pair=SOV%2FUSD&period=24h".
Proof. reflexivity. Qed.

Definition SOV_USD : jstr := js "SOV/USD".
Definition CBE_USD : jstr := js "CBE/USD".
Definition quote_of (price : Z) : json := JObj [(js "price", JNum price)].

(** a cached price, a fetch that fails, the next poll *)
Lemma cache_keeps_selection_witness :
  let answers (path : jstr) v := path = oracle_price (Some SOV_USD) ∧ v = quote_of 3 in
  let x := history (mount (price_options SOV_USD) [(CACHE_NAMESPACE ++ js "price:SOV/USD", stringify (envelope 5 (quote_of 3)))])
    [ReadDone 1 (Some (Some (stringify (envelope 5 (quote_of 3))))); Answer 2 (inl None) 10 10 10; Fire 3;
     Answer 4 (inr (quote_of 3)) 20 21 22] in
  data x = JNull ∨ answers (oracle_price (Some SOV_USD)) (data x).
Proof.
  assert (plain (quote_of 3)) as Hq.
  { apply plain_obj. split; [by apply (bool_decide_eq_true_1 _)|]. by repeat constructor. }
  refine (proj1 (cache_keeps_selection (λ path v, path = oracle_price (Some SOV_USD) ∧ v = quote_of 3)
    (price_options SOV_USD) [(CACHE_NAMESPACE ++ js "price:SOV/USD", stringify (envelope 5 (quote_of 3)))]
    [ReadDone 1 (Some (Some (stringify (envelope 5 (quote_of 3))))); Answer 2 (inl None) 10 10 10; Fire 3;
     Answer 4 (inr (quote_of 3)) 20 21 22] _ _)).
  - constructor; [|done]. intros _. by exists 5, (quote_of 3).
  - split; [|split; [done|split; [done|split; [|done]]]].
    + intros e key [= <- <-]. by constructor.
    + intros r path. vm_compute entry. intros [= _ <-]. done.
Defined.

(** The pair is changed while the first price is under way: the price of SOV is
    shown as that of CBE, fresh and without an error. *)
Example shown_under_the_wrong_pair :
  let x := history (mount (price_options SOV_USD) [])
    [Render (price_options CBE_USD); Answer 2 (inr (quote_of 3)) 10 10 10] in
  rendered x = price_options CBE_USD ∧ data x = quote_of 3 ∧ stale x = false ∧ error x = None.
Proof. vm_compute. done. Qed.

(** After a change of the pair the timer runs the [runFetch] of the first
    rendering: what CBE is quoted at is cached as the price of SOV, and shown by
    the next mount. *)
Example cached_under_the_wrong_pair :
  let x := history (mount (price_options SOV_USD) [])
    [Answer 2 (inr (quote_of 3)) 10 10 10; Render (price_options CBE_USD); Answer 6 (inr (quote_of 7)) 20 20 20; Fire 7;
     Answer 8 (inr (quote_of 7)) 30 30 30] in
  List.last (written x) ([], []) = (CACHE_NAMESPACE ++ js "price:SOV/USD", stringify (envelope 30 (quote_of 7))).
Proof. vm_compute. done. Qed.

(** A read of the cache that is answered after the fetch replaces the fresh value
    by the cached one, which stays marked as fresh. *)
Example late_cache_replaces_fresh :
  let x := history (mount (price_options SOV_USD) [])
    [Answer 2 (inr (quote_of 7)) 10 10 10; ReadDone 1 (Some (Some (stringify (envelope 5 (quote_of 3)))))] in
  data x = quote_of 3 ∧ stale x = false ∧ lastFetchedAt x = JNum 5.
Proof. vm_compute. done. Qed.

(** Two fetches at once: the first answer ends [loading] while the other is still
    under way. *)
Example not_loading_while_fetching :
  let x := history (mount (price_options SOV_USD) []) [Retry; Answer 2 (inl None) 10 10 10] in
  loading x = false ∧ fetches x ≠ [].
Proof. vm_compute. done. Qed.
