(* ===== verification/NodeStatus.v ===== *)
(** * The status of the node: src/src/hooks/useNodeConnectionStatus.ts

    The hook shares one polling loop among its consumers: counts of consumers, an
    interval, and checks that wait for the platform and for the node.  The module
    is a machine over the mounts of consumers, the interval, the state of the
    application and the answers, in any order.  What a consumer shows is what its
    last rendering read. *)

From stdpp Require Import strings.
From S2P Require Import Prelude JsString JsMap Json Async Outside.
From S2P Require NativeIdentity.
From S2P Require Quic.
#[local] Open Scope Z_scope.

(** ** The health check: src/src/services/quic.ts *)

Record QuicHealthCheckResult := mkHealth {
  success : bool; health_data : option json; health_error : option jstr; health_latencyMs : Z }.

(** [answer] is that of the native module, [now] the clock when it comes *)
Definition testQuicHealthCheck (startTime : Z) (answer : jstr + Quic.QuicRawResponse) (now : Z) : QuicHealthCheckResult :=
  match answer with
  | inr response =>
      if Quic.ok response then
        mkHealth true (Some (default (JStr (Quic.body response)) (json_parse (Quic.body response)))) None (now - startTime)
      else
        mkHealth false None
          (Some (js "HTTP " ++ dec_str (Quic.status response) ++ js ": " ++ Quic.statusText response)) (now - startTime)
  | inl thrown => mkHealth false None (Some thrown) (now - startTime)
  end.

(** ** The module *)

Inductive Status := idle | checking | connected | disconnected.

(** a check waits for [isQuicSupported], or for the health check it started then *)
Inductive stage := AwaitSupported | AwaitHealth (startTime : Z).

(** what a rendering of a consumer reads *)
Definition view : Set := Status * option Z.

Record node := mkNode {
  _status : Status;
  _latencyMs : option Z;
  _listeners : list nat;             (* consumers, in the order they were added *)
  _refCount : Z;
  _intervalId : bool;
  _appStateSub : bool;
  _checkInFlight : bool;
  checks : list stage;               (* calls of [_check] that wait *)
  shown : jsmap nat view;
  feeRefreshes : nat;                (* calls of [refreshFeeConfig] *)
}.
Definition initial : node := mkNode idle None [] 0 false false false [] [] O.

Definition set_status (s : Status) (l : option Z) (x : node) : node :=
  mkNode s l (_listeners x) (_refCount x) (_intervalId x) (_appStateSub x) (_checkInFlight x) (checks x) (shown x) (feeRefreshes x).
Definition set_checks (b : bool) (c : list stage) (x : node) : node :=
  mkNode (_status x) (_latencyMs x) (_listeners x) (_refCount x) (_intervalId x) (_appStateSub x) b c (shown x) (feeRefreshes x).
Definition set_shown (m : jsmap nat view) (x : node) : node :=
  mkNode (_status x) (_latencyMs x) (_listeners x) (_refCount x) (_intervalId x) (_appStateSub x) (_checkInFlight x) (checks x) m (feeRefreshes x).
Definition set_polling (l : list nat) (n : Z) (i a : bool) (x : node) : node :=
  mkNode (_status x) (_latencyMs x) l n i a (_checkInFlight x) (checks x) (shown x) (feeRefreshes x).
Definition refreshFee (x : node) : node :=
  mkNode (_status x) (_latencyMs x) (_listeners x) (_refCount x) (_intervalId x) (_appStateSub x) (_checkInFlight x) (checks x) (shown x)
    (S (feeRefreshes x)).

(** every listener renders its consumer again *)
Definition _notify (x : node) : node :=
  set_shown (fold_left (λ m c, mset c (_status x, _latencyMs x) m) (_listeners x) (shown x)) x.

Definition removeAt {A} (i : nat) (l : list A) : list A := take i l ++ drop (S i) l.

(** [_check], up to its first [await] *)
Definition _check (x : node) : node :=
  if _checkInFlight x then x else set_checks true (checks x ++ [AwaitSupported]) x.

(** the [finally] of the check *)
Definition finish (x : node) : node := _notify (set_checks false (checks x) x).

(** [result.latencyMs ? Math.round(result.latencyMs) : null] *)
Definition rounded (latencyMs : Z) : option Z := if latencyMs =? 0 then None else Some latencyMs.

(** [_check] from the answer of [isQuicSupported] on; [now] is when the health
    check starts *)
Definition supported (i : nat) (answer : bool) (now : Z) (x : node) : node :=
  if answer then
    let x := _notify (set_status checking (_latencyMs x) x) in
    set_checks (_checkInFlight x) (take i (checks x) ++ AwaitHealth now :: drop (S i) (checks x)) x
  else
    let x := set_checks (_checkInFlight x) (removeAt i (checks x)) x in
    finish (_notify (set_status disconnected (_latencyMs x) x)).

Definition health (i : nat) (result : QuicHealthCheckResult) (x : node) : node :=
  let x := set_checks (_checkInFlight x) (removeAt i (checks x)) x in
  finish (if success result then refreshFee (set_status connected (rounded (health_latencyMs result)) x)
          else set_status disconnected None x).

Definition _startPolling (x : node) : node :=
  if _intervalId x then x
  else let x := _check x in set_polling (_listeners x) (_refCount x) true true x.
Definition _stopPolling (x : node) : node := set_polling (_listeners x) (_refCount x) false false x.

(** a consumer with [autoCheck]: its first rendering and its effect *)
Definition mount (c : nat) (x : node) : node :=
  let x := set_shown (mset c (_status x, _latencyMs x) (shown x)) x in
  _startPolling (set_polling (_listeners x ++ [c]) (_refCount x + 1) (_intervalId x) (_appStateSub x) x).
Definition unmount (c : nat) (x : node) : node :=
  let x := set_polling (List.filter (λ d, negb (d =? c)%nat) (_listeners x)) (_refCount x - 1) (_intervalId x) (_appStateSub x) x in
  if _refCount x <=? 0 then _stopPolling (set_polling (_listeners x) 0 (_intervalId x) (_appStateSub x) x) else x.

Inductive event :=
| Mount (c : nat)
| Unmount (c : nat)
| Interval
| AppState (active : bool)
| CheckNow                                   (* [checkNodeConnection] of a consumer *)
| Supported (i : nat) (answer : bool) (now : Z)
| Health (i : nat) (answer : jstr + Quic.QuicRawResponse) (now : Z).

Definition step (x : node) (e : event) : node :=
  match e with
  | Mount c => if bool_decide (c ∈ _listeners x) then x else mount c x
  | Unmount c => if bool_decide (c ∈ _listeners x) then unmount c x else x
  | Interval => if _intervalId x then _check x else x
  | AppState active => if _appStateSub x && active then _check x else x
  | CheckNow => _check x
  | Supported i answer now => match checks x !! i with Some AwaitSupported => supported i answer now x | _ => x end
  | Health i answer now =>
      match checks x !! i with Some (AwaitHealth startTime) => health i (testQuicHealthCheck startTime answer now) x | _ => x end
  end.
Definition history (l : list event) : node := fold_left step l initial.

(** ** The invariant *)

Record shared (x : node) : Prop := {
  i_count : _refCount x = Z.of_nat (length (_listeners x)) ∧ NoDup (_listeners x);
  i_polling : _intervalId x = (0 <? _refCount x) ∧ _appStateSub x = _intervalId x;
  i_flight :
    match checks x with
    | [] => _checkInFlight x = false ∧ _status x ≠ checking
    | [AwaitSupported] => _checkInFlight x = true ∧ _status x ≠ checking
    | [AwaitHealth _] => _checkInFlight x = true ∧ _status x = checking
    | _ => False
    end;
  i_shown : Forall (λ c, mget c (shown x) = Some (_status x, _latencyMs x)) (_listeners x);
}.

Lemma notified (v : view) l (m : jsmap nat view) c :
  mget c (fold_left (λ m c, mset c v m) l m) = if decide (c ∈ l) then Some v else mget c m.
Proof.
  revert m. induction l as [|d l IH]; intros m; [done|]. cbn [fold_left]. rewrite IH, mget_set.
  destruct (decide (c ∈ l)) as [H|H], (decide (c ∈ d :: l)) as [H'|H']; try done; rewrite elem_of_cons in H'.
  - destruct H'. by right.
  - rewrite decide_True; [done|]. by destruct H'.
  - rewrite decide_False; [done|]. intros ->. apply H'. by left.
Qed.
Lemma shown_notify x : Forall (λ c, mget c (shown (_notify x)) = Some (_status x, _latencyMs x)) (_listeners x).
Proof. apply list.Forall_forall. intros c Hc. simpl. rewrite notified. by rewrite decide_True. Qed.

Lemma shared_quiet x y :
  shared x → _refCount y = _refCount x → _listeners y = _listeners x → _intervalId y = _intervalId x →
  _appStateSub y = _appStateSub x → checks y = checks x → _checkInFlight y = _checkInFlight x →
  _status y = _status x → _latencyMs y = _latencyMs x → shown y = shown x → shared y.
Proof. intros [] E1 E2 E3 E4 E5 E6 E7 E8 E9. by split; rewrite ?E1, ?E2, ?E3, ?E4, ?E5, ?E6, ?E7, ?E8, ?E9. Qed.

Lemma shared_check x : shared x → shared (_check x).
Proof.
  intros [Hc Hp Hf Hs]. unfold _check. destruct (_checkInFlight x) eqn:E; [by split; rewrite ?E|].
  split; try done. simpl. destruct (checks x) as [|[|t] [|]]; simpl in *; naive_solver.
Qed.

Lemma shared_start x :
  _refCount x = Z.of_nat (length (_listeners x)) ∧ NoDup (_listeners x) → _listeners x ≠ [] →
  _appStateSub x = _intervalId x →
  shared (set_polling (_listeners x) (_refCount x) (0 <? _refCount x) (0 <? _refCount x) x) → shared (_startPolling x).
Proof.
  intros [Hc Hn] Hl Ha H. unfold _startPolling. assert ((0 <? _refCount x) = true) as Hr.
  { apply Z.ltb_lt. rewrite Hc. destruct (_listeners x); [done|]. cbn [length]. lia. }
  rewrite Hr in H. destruct (_intervalId x) eqn:E.
  - eapply shared_quiet; [exact H|done..].
  - apply shared_check in H. eapply shared_quiet; [exact H| |..]; unfold _check; simpl; by destruct (_checkInFlight x).
Qed.

Lemma shared_mount c x : c ∉ _listeners x → shared x → shared (mount c x).
Proof.
  intros Hc [[Hr Hn] [Hi Ha] Hf Hs]. unfold mount. apply shared_start; simpl.
  - split; [rewrite length_app; cbn [length]; lia|]. apply NoDup_app. split_and!; [done|set_solver|apply NoDup_singleton].
  - by destruct (_listeners x).
  - done.
  - split; simpl; try done.
    + split; [rewrite length_app; cbn [length]; lia|]. apply NoDup_app. split_and!; [done|set_solver|apply NoDup_singleton].
    + apply list.Forall_app. split; [|constructor; [|done]; by rewrite mget_set, decide_True].
      rewrite list.Forall_forall in *. intros d Hd. rewrite mget_set, decide_False; [by apply Hs|]. by intros ->.
Qed.

Lemma filter_out_length c (l : list nat) :
  NoDup l → c ∈ l → length l = S (length (List.filter (λ d, negb (d =? c)%nat) l)).
Proof.
  induction 1 as [|d l Hd Hn IH]; [set_solver|]. simpl. destruct (d =? c)%nat eqn:E; simpl.
  - apply Nat.eqb_eq in E as ->. intros _. f_equal. induction l as [|e l IHl]; [done|]. simpl.
    assert ((e =? c)%nat = false) as -> by (apply Nat.eqb_neq; set_solver). simpl. f_equal.
    inversion Hn. apply IHl; [set_solver|done|]. intros Hc. set_solver.
  - apply Nat.eqb_neq in E. intros [->|Hc]%elem_of_cons; [done|]. by rewrite <-IH.
Qed.
Lemma filter_out_Forall (P : nat → Prop) c l : Forall P l → Forall P (List.filter (λ d, negb (d =? c)%nat) l).
Proof. rewrite !list.Forall_forall. intros H d Hd. apply H. apply list_elem_of_In in Hd. apply filter_In in Hd as [Hd _]. by apply list_elem_of_In. Qed.

Lemma shared_unmount c x : c ∈ _listeners x → shared x → shared (unmount c x).
Proof.
  intros Hc [[Hr Hn] [Hi Ha] Hf Hs]. unfold unmount. pose proof (filter_out_length c _ Hn Hc) as Hl. simpl.
  assert (NoDup (List.filter (λ d, negb (d =? c)%nat) (_listeners x))) as Hn' by by apply NoDup_ListNoDup, List.NoDup_filter, NoDup_ListNoDup.
  assert (_refCount x - 1 = Z.of_nat (length (List.filter (λ d, negb (d =? c)%nat) (_listeners x)))) as Hr' by lia.
  destruct (_refCount x - 1 <=? 0) eqn:E; breflect.
  - split; simpl; try done; [split; [lia|done]|]. by apply filter_out_Forall.
  - split; simpl; try done; [split; [|done]|by apply filter_out_Forall].
    rewrite Hi. transitivity true; [apply Z.ltb_lt; lia|symmetry; apply Z.ltb_lt; lia].
Qed.

Lemma shared_supported i answer now x : shared x → checks x !! i = Some AwaitSupported → shared (supported i answer now x).
Proof.
  intros [Hc Hp Hf Hs] Hi. destruct (checks x) as [|[|t] [|]] eqn:E; try done; [|by destruct i].
  destruct i; [|done]. destruct Hf as [Hf Hst]. unfold supported. destruct answer.
  - split; simpl; try done; [by rewrite E|]. apply (shown_notify (set_status checking (_latencyMs x) x)).
  - split; simpl; try done; [by rewrite E|].
    apply (shown_notify (set_checks false [] (_notify (set_status disconnected (_latencyMs x) (set_checks true [] x))))).
Qed.

Lemma shared_health i t r x : shared x → checks x !! i = Some (AwaitHealth t) → shared (health i r x).
Proof.
  intros [Hc Hp Hf Hs] Hi. destruct (checks x) as [|[|t'] [|]] eqn:E; try done; [by destruct i|].
  destruct i; [|done]. unfold health. destruct (success r); (split; simpl; try done; [by rewrite E|]).
  - apply (shown_notify (set_status connected (rounded (health_latencyMs r)) x)).
  - apply (shown_notify (set_status disconnected None x)).
Qed.

Lemma shared_step x e : shared x → shared (step x e).
Proof.
  intros H. destruct e as [c|c| |a| |i a now|i a now]; simpl.
  - case_bool_decide; [done|by apply shared_mount].
  - case_bool_decide; [by apply shared_unmount|done].
  - destruct (_intervalId x); [by apply shared_check|done].
  - destruct (_ && _); [by apply shared_check|done].
  - by apply shared_check.
  - destruct (checks x !! i) as [[|t]|] eqn:E; [by apply shared_supported|done..].
  - destruct (checks x !! i) as [[|t]|] eqn:E; [done| |done]. by eapply shared_health.
Qed.
Lemma shared_history l : shared (history l).
Proof.
  unfold history. assert (shared initial) as H by by repeat split; try constructor.
  revert H. generalize initial. induction l as [|e l IH]; intros x H; [done|]. by apply IH, shared_step.
Qed.

(** One loop serves all consumers.  It polls exactly while there is a consumer;
    at most one check is under way, and the flag that keeps others out is set
    exactly then, so no check locks out the next for ever; the status is
    [checking] exactly while the node is asked; and every consumer shows the
    current status and latency. *)
Fact one_poll_shared l :
  let x := history l in
  _refCount x = Z.of_nat (length (_listeners x)) ∧
  _intervalId x = (0 <? _refCount x) ∧ _appStateSub x = _intervalId x ∧
  (length (checks x) ≤ 1)%nat ∧ _checkInFlight x = bool_decide (checks x ≠ []) ∧
  (_status x = checking ↔ ∃ startTime, checks x = [AwaitHealth startTime]) ∧
  Forall (λ c, mget c (shown x) = Some (_status x, _latencyMs x)) (_listeners x).
Proof.
  destruct (shared_history l) as [[Hc Hn] [Hi Ha] Hf Hs]. simpl. split_and!; try done.
  - destruct (checks _) as [|[] []]; simpl; try done; lia.
  - destruct (checks _) as [|[] []]; simpl; try done; by destruct Hf as [-> _].
  - destruct (checks _) as [|[|t] []]; try done; destruct Hf as [_ Hst]; split; try done; [by intros [? ?]..|by exists t].
Qed.

(** A consumer is told that the node is not connected during every check, also
    when it is. *)
Example each_check_disconnects :
  let ok := Quic.mkResponse 200 (js "OK") (js "{}") true None in
  map (λ l, shown (history l))
    [[Mount 0; Supported 0 true 100; Health 0 (inr ok) 150];
     [Mount 0; Supported 0 true 100; Health 0 (inr ok) 150; Interval; Supported 0 true 200]] =
  [[(0%nat, (connected, Some 50))]; [(0%nat, (checking, Some 50))]].
Proof. reflexivity. Qed.

(** ** Notices: src/src/services/NoticesService.ts, src/src/hooks/useNetworkNotices.ts

    [getTime] is the milliseconds of an ISO 8601 date, [None] for [NaN]. *)

Inductive NoticeLevel := info | warning | error_level.
Record NetworkNotice := mkNotice { n_id : jstr; n_level : NoticeLevel; n_message : jstr; expires_at : option jstr }.

Record notices_cache := mkNotices { _cache : list NetworkNotice; _lastFetchAt : Z }.
Definition CACHE_TTL_MS : Z := 5 * 60 * 1000.

(** [answer]: the notices of the file, [None] when the request or its body fails;
    [Some None] a file whose [notices] is not a list *)
Definition fetchOperatorNotices (now : Z) (answer : option (option (list NetworkNotice))) (c : notices_cache) : notices_cache :=
  if now - _lastFetchAt c <? CACHE_TTL_MS then c
  else match answer with Some l => mkNotices (default [] l) now | None => c end.

Definition LEVEL_PRIORITY (l : NoticeLevel) : Z := match l with error_level => 3 | warning => 2 | info => 1 end.

Section NetworkNotices.
Context (getTime : jstr → option Z).

Definition isExpired (now : Z) (n : NetworkNotice) : bool :=
  match expires_at n with
  | Some s => truthy s && match getTime s with Some t => t <? now | None => false end
  | None => false
  end.

Definition DISCONNECTED : NetworkNotice :=
  mkNotice (js "__node_disconnected") error_level
    (js "Cannot reach the Sovereign Network node. Some features may be unavailable.") None.
Definition slow (latencyMs : Z) : NetworkNotice :=
  mkNotice (js "__node_slow") warning
    (js "Node response is slow (" ++ dec_str latencyMs ++ js "ms). Transactions may take longer than usual.") None.

Definition autoNotices (s : Status) (latencyMs : option Z) : list NetworkNotice :=
  match s, latencyMs with
  | disconnected, _ => [DISCONNECTED]
  | connected, Some ms => if 800 <? ms then [slow ms] else []
  | _, _ => []
  end.

Definition candidates (now : Z) (v : view) (operatorNotices : list NetworkNotice) (dismissed : list jstr) : list NetworkNotice :=
  List.filter (λ n, negb (bool_decide (n_id n ∈ dismissed)))
    (autoNotices v.1 v.2 ++ List.filter (λ n, negb (isExpired now n)) operatorNotices).
Definition activeNotice (now : Z) (v : view) (operatorNotices : list NetworkNotice) (dismissed : list jstr) : option NetworkNotice :=
  head (js_sort (λ a b, LEVEL_PRIORITY (n_level b) - LEVEL_PRIORITY (n_level a)) (candidates now v operatorNotices dismissed)).

(** The notice shown is the first of the most severe ones that are neither
    dismissed nor expired, and there is one unless there is none to show. *)
Fact most_severe_first now v ops dismissed :
  match activeNotice now v ops dismissed with
  | Some n => ∃ l r, candidates now v ops dismissed = l ++ n :: r ∧
      Forall (λ m, LEVEL_PRIORITY (n_level m) < LEVEL_PRIORITY (n_level n)) l ∧
      Forall (λ m, LEVEL_PRIORITY (n_level m) ≤ LEVEL_PRIORITY (n_level n)) r
  | None => candidates now v ops dismissed = []
  end.
Proof.
  unfold activeNotice. generalize (candidates now v ops dismissed) as l. induction l as [|x l IH]; [done|].
  change (js_sort ?cmp (x :: l)) with (sort_insert cmp x (js_sort cmp l)).
  destruct (js_sort _ l) as [|y s]; simpl in *.
  - subst l. exists [], []. by repeat split.
  - destruct IH as (l1 & r & -> & H1 & H2). destruct (0 <? _) eqn:E; breflect; simpl.
    + exists (x :: l1), r. split; [done|]. split; [|done]. constructor; [lia|done].
    + exists [], (l1 ++ y :: r). split; [done|]. split; [done|]. apply list.Forall_app.
      split; [eapply list.Forall_impl; [exact H1|]; simpl; lia|constructor; [lia|]].
      eapply list.Forall_impl; [exact H2|]. simpl. lia.
Qed.

End NetworkNotices.

(** among notices of one level the one of the device comes before those of the operators *)
Example disconnected_first :
  n_id <$> activeNotice (λ _, None) 0 (disconnected, None) [mkNotice (js "a") error_level [] None; mkNotice (js "b") info [] None] [] =
  Some (js "__node_disconnected").
Proof. reflexivity. Qed.

(** ** Fees: src/src/services/FeeConfigService.ts *)

Record fee_state := mkFee { lastUpdatedAt : option json; lastChainHeight : option json }.

Section Fees.
Context (nativeModule : option (jstr → bool)).
#[local] Abbreviation prog := (Outside.prog fee_state).

Definition FEE_CONFIG_PATH : jstr := js "/api/v1/blockchain/fee-config".
Definition is_object (v : json) : bool := match v with JObj _ | JArr _ => true | _ => false end.

Definition refreshFeeConfig : prog unit :=
  config ← call (publicQuicRequest FEE_CONFIG_PATH Quic.no_options);
  if negb (is_object config) || otruthy (jget (js "error") config) then
    throw (Outside.Error (js "Server returned invalid fee config: " ++ take 200 (stringify config)))
  else
    result ← NativeIdentity.setFeeConfig nativeModule (stringify config);
    updatedAt ← dot result (js "updatedAt");
    chainHeight ← dot result (js "chainHeight");
    modify (λ _, mkFee updatedAt chainHeight).

(** a height that is not a number is compared as [NaN] *)
Definition shouldRefresh (currentHeight : Z) (x : fee_state) : bool :=
  match lastChainHeight x with
  | Some (JNum h) => (h =? 0) || (50 <=? currentHeight - h)
  | _ => false
  end.

Context {D : Type} (handle : ∀ R : Set, req R → D → (error + R) * D).

(** What the native module computes fees from is the text of the node's own
    configuration, and what is remembered of it is what the module answered; a
    refresh that fails forgets nothing. *)
Fact fee_config_of_the_node x d :
  match solo handle refreshFeeConfig x d with
  | Some (inr _, x', d') =>
      ∃ config d1 result, handle _ (publicQuicRequest FEE_CONFIG_PATH Quic.no_options) d = (inr config, d1) ∧
        handle _ (native NativeIdentity.MODULE (js "setFeeConfig") [JStr (stringify config)]) d1 = (inr result, d') ∧
        x' = mkFee (jget (js "updatedAt") result) (jget (js "chainHeight") result)
  | Some (inl _, x', _) => x' = x
  | None => False
  end.
Proof.
  unfold refreshFeeConfig. enter. destruct (handle _ _ d) as [[e|config] d1] eqn:E1; enter; [done|].
  destruct (negb _ || _); enter; [done|]. unfold NativeIdentity.setFeeConfig, NativeIdentity.plain.
  destruct nativeModule as [has|]; enter; [|done]. destruct (has _); enter; [|done].
  destruct (handle _ (native _ _ _) d1) as [[e|result] d2] eqn:E2; enter; [done|].
  destruct result; enter; try done; by eexists _, _, _.
Qed.

End Fees.
