(* ===== verification/Migration.v ===== *)
(** * MigrationSeedScreen

    src/src/screens/MigrationSeedScreen.tsx over the provider of AuthContext.v: the
    inputs of a phrase, the five steps of the wizard and the handler of the last
    one.  A handler closes over what its rendering captured (the form, an argument)
    and sets the state of the screen, which other handlers may set meanwhile.
    Rendering, the focus of inputs and logs are left out. *)

From stdpp Require Import strings.
From S2P Require Import Prelude JsString JsMap Json Async Outside.
From S2P Require Vault AuthContext.
#[local] Open Scope Z_scope.

(** ** The inputs of a phrase *)

Definition words_of (text : jstr) : list jstr := List.filter truthy (Vault.split_spaces (trim text)).

(** [parts.forEach] from the input [cursor] on, as far as there are inputs *)
Fixpoint spread_words (cursor : nat) (parts : list jstr) (seedWords : list jstr) : list jstr :=
  match parts with [] => seedWords | part :: parts => spread_words (S cursor) parts (<[cursor := part]> seedWords) end.

(** [onChangeText] of the input [index] *)
Definition typed (index : nat) (text : jstr) (seedWords : list jstr) : list jstr :=
  let lower := toLowerCase text in
  let parts := words_of lower in
  if (length parts <=? 1)%nat then <[index := List.filter (λ c, negb (is_space c)) lower]> seedWords
  else spread_words index parts seedWords.

Definition normalized (seedWords : list jstr) : list jstr :=
  List.filter truthy (map (λ word, toLowerCase (trim word)) seedWords).

(** ** The wizard *)

Record form := mkForm {
  seedWords : list jstr; displayName : jstr; newPassword : jstr; confirmNewPassword : jstr;
  step : Z; localError : option jstr }.

Definition set_words w (x : form) := mkForm w (displayName x) (newPassword x) (confirmNewPassword x) (step x) (localError x).
Definition setDisplayName n (x : form) := mkForm (seedWords x) n (newPassword x) (confirmNewPassword x) (step x) (localError x).
Definition setNewPassword p (x : form) := mkForm (seedWords x) (displayName x) p (confirmNewPassword x) (step x) (localError x).
Definition setConfirm p (x : form) := mkForm (seedWords x) (displayName x) (newPassword x) p (step x) (localError x).
Definition setStep s (x : form) := mkForm (seedWords x) (displayName x) (newPassword x) (confirmNewPassword x) s (localError x).
Definition setLocalError e (x : form) := mkForm (seedWords x) (displayName x) (newPassword x) (confirmNewPassword x) (step x) e.

(** the phrase of the route, or 24 empty inputs *)
Definition opened (route : list jstr) : form :=
  mkForm (match route with [] => replicate 24 [] | l => l end) [] [] [] 1 None.

Definition NOT_24 : jstr := js "Recovery phrase must be 24 words.".
Definition NO_NAME : jstr := js "Display name is required.".
Definition SHORT_PASSWORD : jstr := js "Password must be at least 8 characters.".
Definition NOT_PERSISTED : jstr := js "Migration succeeded, but failed to persist seed phrase.".
Definition MISMATCH : jstr := js "Passwords do not match.".

(** what keeps [goNext] on the step *)
Definition blocked (x : form) : option jstr :=
  if (step x =? 2) && negb (length (normalized (seedWords x)) =? 24)%nat then Some NOT_24
  else if (step x =? 3) && negb (truthy (trim (displayName x))) then Some NO_NAME
  else if (step x =? 4) && (length (newPassword x) <? 8)%nat then Some SHORT_PASSWORD
  else if (step x =? 4) && negb (bool_decide (newPassword x = confirmNewPassword x)) then Some MISMATCH
  else None.
Definition goNext (x : form) : form :=
  match blocked x with
  | Some e => setLocalError (Some e) x
  | None => setStep (Z.min (step x + 1) 5) (setLocalError None x)
  end.
Definition goBack (x : form) : form := setStep (Z.max (step x - 1) 1) (setLocalError None x).

(** what the user may do: each step shows its own inputs, and the buttons *)
Inductive action :=
| TypeWord (index : nat) (text : jstr)
| TypeName (text : jstr)
| TypePassword (text : jstr)
| TypeConfirm (text : jstr)
| Next
| Back.
Definition act (x : form) (a : action) : form :=
  match a with
  | TypeWord i text => if step x =? 2 then set_words (typed i text (seedWords x)) x else x
  | TypeName text => if step x =? 3 then setDisplayName text x else x
  | TypePassword text => if step x =? 4 then setNewPassword text x else x
  | TypeConfirm text => if step x =? 4 then setConfirm text x else x
  | Next => if step x <? 5 then goNext x else x
  | Back => if 1 <? step x then goBack x else x
  end.
Definition filled (route : list jstr) (l : list action) : form := fold_left act l (opened route).

(** the screen with the provider; [shown] is what is handed to the screen of the
    new phrase *)
Record state := mkState { view : form; provider : AuthContext.auth; shown : list (list jstr * json) }.
Definition set_view (f : form → form) (x : state) : state := mkState (f (view x)) (provider x) (shown x).
Definition put_provider (a : AuthContext.auth) (x : state) : state := mkState (view x) a (shown x).
Definition navigate (seed : list jstr) (identity : json) (x : state) : state :=
  mkState (view x) (provider x) (shown x ++ [(seed, identity)]).

Section Handlers.
Context (nativeModule : option (jstr → bool)) (base64ToHex : jstr → jstr).
#[local] Abbreviation prog := (Outside.prog state).

(** [savedAt] is the date the vault puts beside the phrase *)
Definition handleMigrate (v : form) (savedAt : jstr) : prog unit :=
  modify (set_view (setLocalError None));;
  let words := normalized (seedWords v) in
  if negb (length words =? 24)%nat then modify (set_view (setLocalError (Some NOT_24)))
  else if negb (truthy (trim (displayName v))) then modify (set_view (setLocalError (Some NO_NAME)))
  else
    try_catch
      ('(identity, newSeedPhrase) ← await (lift provider put_provider
          (AuthContext.migrateIdentityFromSeed nativeModule base64ToHex (trim (displayName v)) (JsString.join (js " ") words)));
       match jget (js "did") identity with
       | Some d => if jtruthy d then Vault.saveLoginCredentials (js_String d) (newPassword v) else ret tt
       | None => ret tt
       end;;
       try_catch (Vault.saveSeedPhrase newSeedPhrase savedAt)
         (λ saveError, modify (set_view (setLocalError
            (Some (str_or (message saveError) NOT_PERSISTED)))));;
       modify (navigate newSeedPhrase identity))
      (λ err, modify (set_view (setLocalError (Some (str_or (message err) (js "Migration failed")))))).

End Handlers.

(** * Properties *)


Definition password_ok (x : form) : Prop := (8 ≤ length (newPassword x))%nat ∧ newPassword x = confirmNewPassword x.

(** what the steps behind the current one have established *)
Record checked (x : form) : Prop := {
  c_step : 1 ≤ step x ≤ 5;
  c_words : 2 < step x → length (normalized (seedWords x)) = 24%nat;
  c_name : 3 < step x → truthy (trim (displayName x)) = true;
  c_password : 4 < step x → password_ok x;
}.

Lemma checked_next x : checked x → step x < 5 → checked (goNext x).
Proof.
  intros [Hs Hw Hn Hp] H5. unfold goNext. destruct (blocked x) as [e|] eqn:E; [by split|].
  unfold blocked in E. split; simpl; [lia|intros H; destruct (decide (step x = 2)) as [H2|]..].
  - rewrite H2 in E. simpl in E. by destruct (_ =? 24)%nat eqn:E24; [apply Nat.eqb_eq in E24|].
  - apply Hw. lia.
  - lia.
  - destruct (decide (step x = 3)) as [H3|]; [|apply Hn; lia]. rewrite H3 in E. simpl in E. by destruct (truthy _).
  - lia.
  - destruct (decide (step x = 4)) as [H4|]; [|apply Hp; lia]. rewrite H4 in E. simpl in E.
    destruct (_ <? 8)%nat eqn:E8; [done|]. apply Nat.ltb_ge in E8. split; [done|]. by case_bool_decide.
Qed.

Lemma checked_act x a : checked x → checked (act x a).
Proof.
  intros H. pose proof H as [Hs Hw Hn Hp]. destruct a as [i t|t|t|t| |]; simpl.
  - destruct (step x =? 2) eqn:E; [|done]. breflect. split; simpl; [lia|intros; lia..].
  - destruct (step x =? 3) eqn:E; [|done]. breflect. split; simpl; [lia|intros; apply Hw; lia|intros; lia..].
  - destruct (step x =? 4) eqn:E; [|done]. breflect. split; simpl; [lia|intros; apply Hw; lia|intros; apply Hn; lia|intros; lia].
  - destruct (step x =? 4) eqn:E; [|done]. breflect. split; simpl; [lia|intros; apply Hw; lia|intros; apply Hn; lia|intros; lia].
  - destruct (step x <? 5) eqn:E; [|done]. breflect. by apply checked_next.
  - destruct (1 <? step x) eqn:E; [|done]. breflect.
    split; simpl; [lia|intros; apply Hw; lia|intros; apply Hn; lia|intros; apply Hp; lia].
Qed.
Lemma checked_filled route l : checked (filled route l).
Proof.
  unfold filled. assert (checked (opened route)) as H by (split; simpl; lia).
  revert H. generalize (opened route). induction l as [|a l IH]; intros x H; [done|]. by apply IH, checked_act.
Qed.

(** what a migration that answered leaves on the device *)
Definition credentials_kept (v : form) (identity : json) (tr : list event) : Prop :=
  match jget (js "did") identity with
  | Some d =>
      if jtruthy d then ∃ r, tr = [Ev (setInternetCredentials Vault.LOGIN_CREDENTIAL_SERVER (js_String d) (newPassword v)
        (mkAccess WHEN_UNLOCKED_THIS_DEVICE_ONLY false true)) r]
      else tr = []
  | None => tr = []
  end.
Definition phrase_kept (seed : list jstr) (savedAt : jstr) (tr : list event) : Prop :=
  match seed with
  | [] => tr = []
  | _ => ∃ r, tr = [Ev (setGenericPassword Vault.VAULT_SERVICE Vault.VAULT_USERNAME (Vault.serialize seed savedAt)
      Vault.BIOMETRIC_SECURE_OPTIONS) r]
  end.

Lemma kept_credentials {S} v identity tr r :
  trace obs (S := S) (match jget (js "did") identity with
       | Some d => if jtruthy d then Vault.saveLoginCredentials (js_String d) (newPassword v) else ret tt
       | None => ret tt
       end) tr r → credentials_kept v identity tr.
Proof.
  unfold credentials_kept. destruct (jget _ identity) as [d|]; [destruct (jtruthy d)|]; intros H; [|by untrace H..].
  unfold Vault.saveLoginCredentials in H. apply trace_rethrown in H as (r' & H & _). untrace H. by exists r'.
Qed.
Lemma kept_phrase {S} seed savedAt tr r (h : error → Outside.prog S unit) :
  (∀ e tr r, trace obs (h e) tr r → tr = []) →
  trace obs (try_catch (Vault.saveSeedPhrase seed savedAt) h) tr r → phrase_kept seed savedAt tr.
Proof.
  intros Hh H. assert (∀ tr r, trace obs (S := S) (Vault.saveSeedPhrase seed savedAt) tr r → phrase_kept seed savedAt tr) as Hs.
  { unfold Vault.saveSeedPhrase, phrase_kept. destruct seed; intros tr' r' H'; untrace H'; [done|by exists r']. }
  apply trace_try_catch in H as [(a & _ & H)|(e & tr1 & tr2 & -> & H1 & H2)]; [by eapply Hs|].
  rewrite (Hh _ _ _ H2), app_nil_r. by eapply Hs.
Qed.

Section Asked.
Context (nativeModule : option (jstr → bool)) (base64ToHex : jstr → jstr) (v : form) (savedAt : jstr).

Definition asked : Outside.prog AuthContext.auth (json * list jstr) :=
  AuthContext.migrateIdentityFromSeed nativeModule base64ToHex (trim (displayName v))
    (JsString.join (js " ") (normalized (seedWords v))).
Definition kept (identity : json) (seed : list jstr) (tr : list event) : Prop :=
  credentials_kept v identity tr ∨
  ∃ tr1 tr2, tr = tr1 ++ tr2 ∧ credentials_kept v identity tr1 ∧ phrase_kept seed savedAt tr2.

Lemma kept_stages identity seed (f : error → state → state) tr r :
  trace obs (bind (match jget (js "did") identity with
       | Some d => if jtruthy d then Vault.saveLoginCredentials (js_String d) (newPassword v) else ret tt
       | None => ret tt
       end) (λ _, bind (try_catch (Vault.saveSeedPhrase seed savedAt) (λ e, modify (f e))) (λ _, modify (navigate seed identity)))) tr r →
  kept identity seed tr.
Proof.
  intros H. apply trace_bind in H as [(e & H & _)|([] & tr1 & tr2 & -> & H1 & H2)]; [left; by eapply kept_credentials|].
  apply kept_credentials in H1. right. exists tr1, tr2. split; [done|]. split; [done|].
  assert (∀ e tr r, trace obs (modify (f e)) tr r → tr = []) as Hf by (intros e tr' r' H; by apply trace_modify in H as [-> _]).
  apply trace_bind in H2 as [(e & H & _)|([] & tr3 & tr4 & -> & H3 & H4)];
    [eapply kept_phrase; [|exact H]; exact Hf|].
  apply trace_modify in H4 as [-> _]. rewrite app_nil_r. eapply kept_phrase; [|exact H3]; exact Hf.
Qed.

Lemma migrate_trace tr r :
  length (normalized (seedWords v)) = 24%nat → truthy (trim (displayName v)) = true →
  trace obs (handleMigrate nativeModule base64ToHex v savedAt) tr r →
  r = inr tt ∧ ∃ tr1 r1 tr2, tr = tr1 ++ tr2 ∧ trace obs asked tr1 r1 ∧
    match r1 with inl _ => tr2 = [] | inr (identity, seed) => kept identity seed tr2 end.
Proof.
  intros Hw Hn H. apply trace_after_modify in H. cbv zeta in H. rewrite Hw, Hn in H. cbn [negb Nat.eqb] in H.
  apply trace_try_catch in H as [([] & -> & H)|(e & tr1 & tr2 & -> & H & H2)].
  - split; [done|]. apply trace_bind in H as [(e & _ & [=])|([identity seed] & tr1 & tr2 & -> & H1 & H2)].
    rewrite trace_await in H1. apply trace_lift in H1. exists tr1, (inr (identity, seed)), tr2. split; [done|]. split; [done|].
    eapply (kept_stages identity seed (λ e, set_view (setLocalError (Some (str_or (message e) NOT_PERSISTED))))). exact H2.
  - apply trace_modify in H2 as [-> ->]. rewrite app_nil_r. split; [done|].
    apply trace_bind in H as [(e' & H & _)|([identity seed] & tr2 & tr3 & -> & H1 & H2)].
    + rewrite trace_await in H. apply trace_lift in H. exists tr1, (inl e'), []. by rewrite app_nil_r.
    + rewrite trace_await in H1. apply trace_lift in H1. exists tr2, (inr (identity, seed)), tr3. split; [done|]. split; [done|].
      eapply (kept_stages identity seed (λ e, set_view (setLocalError (Some (str_or (message e) NOT_PERSISTED))))). exact H2.
Qed.
End Asked.

(** A migration is asked for exactly what the steps have checked: when the user
    reaches the last step, the phrase has 24 words, the name is not blank and the
    password has eight characters and was repeated; the button then migrates with
    this phrase and this name.  What answers is kept in order - the login with the
    new password, then the phrase - and only as long as the keychain takes it; a
    migration that fails leaves nothing.  The handler itself never fails. *)
Fact migration_asks_what_was_checked nativeModule base64ToHex route l savedAt tr r :
  let v := filled route l in
  step v = 5 →
  trace obs (handleMigrate nativeModule base64ToHex v savedAt) tr r →
  length (normalized (seedWords v)) = 24%nat ∧ truthy (trim (displayName v)) = true ∧ password_ok v ∧ r = inr tt ∧
  ∃ tr1 r1 tr2, tr = tr1 ++ tr2 ∧
    trace obs (asked nativeModule base64ToHex v) tr1 r1 ∧
    match r1 with
    | inl _ => tr2 = []
    | inr (identity, seed) => kept v savedAt identity seed tr2
    end.
Proof.
  intros v H5 H. destruct (checked_filled route l) as [Hs Hw Hn Hp]. fold v in Hs, Hw, Hn, Hp.
  specialize (Hw ltac:(lia)). specialize (Hn ltac:(lia)). specialize (Hp ltac:(lia)).
  apply migrate_trace in H as [-> H]; [|done..]. done.
Qed.

(** ** Witnesses *)

Section Witnesses.
Definition words_24 : list jstr := replicate 24 (js "able").
Definition migrating_phone : phone :=
  mkPhone None
    (λ m _, inr (if bool_decide (m = js "signMessageFromSeed") then AuthContext.obj [("signature", js "00")]%string
                 else AuthContext.obj [("did", AuthContext.did_a); ("publicDilithium", js "AA"); ("status", js "found")]%string))
    (λ _, inl no_answer) (λ _, inr (AuthContext.ok_reply (AuthContext.obj [("new_did", AuthContext.did_b)]%string))) (mkContents ∅ ∅ ∅).

Definition steps_done : list action :=
  [Next; TypeWord 0 (js "Able"); Next; TypeName (js "ann"); Next; TypePassword (js "longenough"); TypeConfirm (js "longenough"); Next].

Definition before_migration : state :=
  mkState (filled words_24 steps_done) AuthContext.initial [].

(** on a phone that takes it, the phrase and the login are stored and the phrase
    is shown *)
Example migration_done :
  match solo phone_handle (handleMigrate AuthContext.demo_has id (filled words_24 steps_done) (js "now")) before_migration migrating_phone with
  | Some (r, x, p) =>
      r = inr tt ∧ map fst (shown x) = [words_24] ∧
      internet (stored p) !! Vault.LOGIN_CREDENTIAL_SERVER = Some (AuthContext.did_b, js "longenough")
  | None => False
  end.
Proof. vm_compute. done. Qed.

Lemma migration_asks_what_was_checked_witness :
  ∃ tr r, trace obs (handleMigrate AuthContext.demo_has id (filled words_24 steps_done) (js "now")) tr r ∧ r = inr tt.
Proof.
  destruct (solo phone_handle (handleMigrate AuthContext.demo_has id (filled words_24 steps_done) (js "now")) before_migration migrating_phone)
    as [[[r x] p]|] eqn:E; [|by vm_compute in E].
  destruct (solo_trace _ _ _ _ _ _ _ E) as [tr H]. exists tr, r. split; [exact H|].
  apply (migration_asks_what_was_checked AuthContext.demo_has id words_24 steps_done (js "now") tr r); [reflexivity|exact H].
Defined.
End Witnesses.
