(* ===== verification/Recover.v ===== *)
(** * RecoverIdentityScreen

    src/src/screens/RecoverIdentityScreen.tsx over the provider of AuthContext.v:
    the phrase, the sign-in that comes before the recovery, and what the handlers
    keep of each other's state when they run together.  Handlers close over their
    rendering as in Migration.v; texts of the translation are arguments. *)

From stdpp Require Import strings.
From S2P Require Import Prelude JsString JsMap Json Async Outside.
From S2P Require Vault AuthContext.
#[local] Open Scope Z_scope.
From S2P Require Migration.
Import Migration(words_of, typed, normalized).

Inductive phase := Seed | Password.
Inductive vault := idle | saving | saved | failed.

Record form := mkForm {
  seedWords : list jstr; recoveryPhase : phase; validatedSeedData : option jstr;
  username : jstr; signinPassword : jstr; localError : option jstr;
  showMigration : bool; vaultState : vault; vaultError : option jstr }.

Definition initial : form := mkForm (replicate 24 []) Seed None [] [] None false idle None.

Definition set_words w (x : form) := mkForm w (recoveryPhase x) (validatedSeedData x) (username x) (signinPassword x) (localError x) (showMigration x) (vaultState x) (vaultError x).
Definition setPhase p (x : form) := mkForm (seedWords x) p (validatedSeedData x) (username x) (signinPassword x) (localError x) (showMigration x) (vaultState x) (vaultError x).
Definition setValidated s (x : form) := mkForm (seedWords x) (recoveryPhase x) s (username x) (signinPassword x) (localError x) (showMigration x) (vaultState x) (vaultError x).
Definition setUsername u (x : form) := mkForm (seedWords x) (recoveryPhase x) (validatedSeedData x) u (signinPassword x) (localError x) (showMigration x) (vaultState x) (vaultError x).
Definition setPassword p (x : form) := mkForm (seedWords x) (recoveryPhase x) (validatedSeedData x) (username x) p (localError x) (showMigration x) (vaultState x) (vaultError x).
Definition setLocalError e (x : form) := mkForm (seedWords x) (recoveryPhase x) (validatedSeedData x) (username x) (signinPassword x) e (showMigration x) (vaultState x) (vaultError x).
(** [setShowMigration(true); setShowMigrationBanner(true)] *)
Definition offer_migration (x : form) := mkForm (seedWords x) (recoveryPhase x) (validatedSeedData x) (username x) (signinPassword x) (localError x) true (vaultState x) (vaultError x).
Definition setVault v e (x : form) := mkForm (seedWords x) (recoveryPhase x) (validatedSeedData x) (username x) (signinPassword x) (localError x) (showMigration x) v e.

(** the screen with the provider; [entered] are the names the application was
    entered with *)
Record state := mkState { view : form; provider : AuthContext.auth; entered : list json }.
Definition set_view (f : form → form) (x : state) : state := mkState (f (view x)) (provider x) (entered x).
Definition put_provider (a : AuthContext.auth) (x : state) : state := mkState (view x) a (entered x).
Definition enter_app (name : json) (x : state) : state := mkState (view x) (provider x) (entered x ++ [name]).

Section Handlers.
Context (nativeModule : option (jstr → bool)) (wallet : jstr → bool).
Context (NativeZhtpApi android Native : bool) (DEFAULT_SOV_NODE_URL : jstr) (BIOMETRY_NONE : option jstr).
(* texts of the translation: recoveryFailed, seedRequired, seedInvalid *)
Context (t_recoveryFailed t_seedRequired t_seedInvalid : jstr).
#[local] Abbreviation prog := (Outside.prog state).

Definition set (f : form → form) : prog unit := modify (set_view f).
Definition of_provider {A} (t : Outside.prog AuthContext.auth A) : prog A := lift provider put_provider t.

Definition NO_SEED : jstr := js "No validated seed to save".

Definition handleSaveSeedToChain (v : form) (savedAt : jstr) : prog unit :=
  match validatedSeedData v with
  | Some s =>
      if truthy s then
        set (setVault saving None);;
        try_catch (Vault.saveSeedPhrase (Vault.split_spaces (trim s)) savedAt;; modify (λ x, set_view (setVault saved (vaultError (view x))) x))
          (λ err, set (setVault failed (Some (str_or (message err) (js "Failed to save to secure storage")))))
      else set (setVault failed (Some NO_SEED))
  | None => set (setVault failed (Some NO_SEED))
  end.

Definition handleFillFromKeychain : prog unit :=
  set (setLocalError None);;
  try_catch
    (phrase ← await (of_provider (AuthContext.getMasterSeedPhrase nativeModule wallet android BIOMETRY_NONE));
     if negb (jtruthy phrase) then set (setLocalError (Some (js "No seed phrase found in Keychain for this device.")))
     else
       let words := words_of (js_String phrase) in
       if negb (length words =? 24)%nat then set (setLocalError (Some (js "Stored seed phrase must be 24 words.")))
       else set (set_words words))
    (λ err, set (setLocalError (Some (str_or (message err) (js "Failed to load seed phrase from Keychain."))))).

Definition entry_name (identity : json) : json :=
  match jget (js "displayName") identity with
  | Some n => if jtruthy n then n else JStr (js "back")
  | None => JStr (js "back")
  end.

Definition runRecovery (seed : jstr) : prog unit :=
  set (setLocalError None);;
  try_catch
    (identity ← await (of_provider (AuthContext.recoverIdentity nativeModule wallet NativeZhtpApi DEFAULT_SOV_NODE_URL (js "seed") seed));
     notFound ← gets (λ x, AuthContext.lastSeedRecoveryNotFound (provider x));
     if (notFound : bool) then set offer_migration
     else modify (enter_app (entry_name identity)))
    (λ err,
       let m := str_or (message err) t_recoveryFailed in
       if bool_decide (m = js "MIGRATION_REQUIRED") then set offer_migration;; set (setLocalError None)
       else
         set (setLocalError (Some m));;
         if includes (js "not found") (toLowerCase m) then set offer_migration else ret tt).

(** [lobbySession] is that of the rendering *)
Definition handleValidateSeed (v : form) (lobbySession : json) : prog unit :=
  set (setLocalError None);;
  let words := normalized (seedWords v) in
  match words with
  | [] => set (setLocalError (Some t_seedRequired))
  | _ =>
      if negb (length words =? 24)%nat then set (setLocalError (Some t_seedInvalid))
      else
        let seed := JsString.join (js " ") words in
        set (setValidated (Some seed));;
        if jtruthy lobbySession then void (runRecovery seed) else set (setPhase Password)
  end.

Definition handleRecover (v : form) : prog unit :=
  set (setLocalError None);;
  match validatedSeedData v with
  | Some seed =>
      if negb (truthy seed) then set (setLocalError (Some (js "Seed phrase not validated")))
      else
        let u := toLowerCase (trim (username v)) in
        if negb (truthy u) || negb (truthy (signinPassword v))
        then set (setLocalError (Some (js "Enter your username and password.")))
        else
          r ← bindR (await (of_provider (AuthContext.passwordSignIn nativeModule Native u (signinPassword v)))) ret;
          match r with
          | inl err => set (setLocalError (Some (str_or (message err) (js "Sign-in failed"))))
          | inr _ => runRecovery seed
          end
  | None => set (setLocalError (Some (js "Seed phrase not validated")))
  end.

End Handlers.

(** * Properties *)

Section Laws.
Context (nativeModule : option (jstr → bool)) (wallet : jstr → bool).
Context (NativeZhtpApi android Native : bool) (DEFAULT_SOV_NODE_URL : jstr) (BIOMETRY_NONE : option jstr).
Context (t_recoveryFailed t_seedRequired t_seedInvalid : jstr).

(** the request for the wallet of a phrase *)
Definition recovery (seed : jstr) : Outside.prog AuthContext.auth json :=
  AuthContext.recoverIdentity nativeModule wallet NativeZhtpApi DEFAULT_SOV_NODE_URL (js "seed") seed.
Definition sign_in (v : form) : Outside.prog AuthContext.auth json :=
  AuthContext.passwordSignIn nativeModule Native (toLowerCase (trim (username v))) (signinPassword v).

Lemma run_recovery_trace seed tr r :
  trace obs (runRecovery nativeModule wallet NativeZhtpApi DEFAULT_SOV_NODE_URL t_recoveryFailed seed) tr r →
  r = inr tt ∧ ∃ r', trace obs (recovery seed) tr r'.
Proof.
  unfold runRecovery. intros H. apply trace_after_modify in H.
  apply trace_try_catch in H as [([] & -> & H)|(e & tr1 & tr2 & -> & H & H2)].
  - split; [done|]. apply trace_bind in H as [(e & _ & [=])|(identity & tr1 & tr2 & -> & H1 & H2)].
    unfold of_provider in H1. rewrite trace_await in H1. apply trace_lift in H1.
    apply trace_bind in H2 as [(e & _ & [=])|(notFound & tr3 & tr4 & -> & H2 & H3)].
    apply trace_gets in H2 as (? & -> & _).
    assert (tr4 = []) as -> by (by destruct notFound; apply trace_modify in H3 as [-> _]).
    rewrite !app_nil_r. by exists (inr identity).
  - assert (tr2 = [] ∧ r = inr tt) as [-> ->].
    { cbv zeta in H2. case_bool_decide; apply trace_after_modify in H2; [by apply trace_modify in H2|].
      destruct (includes _ _); [by apply trace_modify in H2|by apply trace_ret in H2]. }
    rewrite app_nil_r. split; [done|].
    clear H2. apply trace_bind in H as [(e' & H & _)|(identity & tr3 & tr4 & -> & H1 & H2)].
    + unfold of_provider in H. rewrite trace_await in H. apply trace_lift in H. eauto.
    + apply trace_bind in H2 as [(e' & H & _)|(notFound & tr5 & tr6 & -> & H & H3)].
      * by apply trace_gets in H as (? & _ & [=]).
      * destruct notFound; by apply trace_modify in H3 as [_ [=]].
Qed.

Lemma recover_trace v tr r :
  trace obs (handleRecover nativeModule wallet NativeZhtpApi Native DEFAULT_SOV_NODE_URL t_recoveryFailed v) tr r →
  r = inr tt ∧
  (tr = [] ∨ (∃ e, trace obs (sign_in v) tr (inl e)) ∨
   ∃ seed identity tr1 tr2 r2, validatedSeedData v = Some seed ∧ tr = tr1 ++ tr2 ∧
     trace obs (sign_in v) tr1 (inr identity) ∧ trace obs (recovery seed) tr2 r2).
Proof.
  unfold handleRecover. intros H. apply trace_after_modify in H.
  destruct (validatedSeedData v) as [seed|]; [|by apply trace_modify in H as [-> ->]; auto].
  destruct (negb (truthy seed)); [by apply trace_modify in H as [-> ->]; auto|]. cbv zeta in H.
  destruct (negb (truthy _) || _); [by apply trace_modify in H as [-> ->]; auto|].
  apply trace_bind in H as [(e & H & ->)|(r1 & tr1 & tr2 & -> & H1 & H2)].
  - apply trace_bindR in H as (a & tr1 & tr2 & _ & _ & H). by apply trace_ret in H as [_ ?].
  - apply trace_bindR in H1 as (a & tr3 & tr4 & -> & H1 & H3). apply trace_ret in H3 as [-> [= ->]].
    rewrite app_nil_r. unfold of_provider in H1. rewrite trace_await in H1. apply trace_lift in H1.
    destruct a as [e|identity].
    + apply trace_modify in H2 as [-> ->]. rewrite app_nil_r. split; [done|]. right. left. by exists e.
    + apply run_recovery_trace in H2 as [-> [r2 H2]]. split; [done|]. right. right. by eexists seed, identity, tr3, tr2, r2.
Qed.

(** a validated phrase is 24 words *)
Definition of_24_words (seed : jstr) : Prop :=
  ∃ words, length words = 24%nat ∧ Forall (λ w, w ≠ []) words ∧ seed = JsString.join (js " ") words.
Definition validated_ok (x : state) : Prop :=
  match validatedSeedData (view x) with Some seed => of_24_words seed | None => True end.

Inductive recover_action :=
| EnterWord (index : nat) (text : jstr) | EnterUsername (text : jstr) | EnterPassword (text : jstr) | BackToSeed
| Fill | Validate (v : form) (lobbySession : json) | Recovering (v : form) | Save (v : form) (savedAt : jstr).
Definition handler (a : recover_action) : Outside.prog state unit :=
  match a with
  | EnterWord i text => set (λ x, set_words (typed i text (seedWords x)) x)
  | EnterUsername text => set (setUsername text)
  | EnterPassword text => set (setPassword text)
  | BackToSeed => set (λ x, setLocalError None (setPhase Seed x))
  | Fill => handleFillFromKeychain nativeModule wallet android BIOMETRY_NONE
  | Validate v session =>
      handleValidateSeed nativeModule wallet NativeZhtpApi DEFAULT_SOV_NODE_URL t_recoveryFailed t_seedRequired t_seedInvalid v session
  | Recovering v => handleRecover nativeModule wallet NativeZhtpApi Native DEFAULT_SOV_NODE_URL t_recoveryFailed v
  | Save v savedAt => handleSaveSeedToChain v savedAt
  end.

(** the provider changes as it likes *)
Definition elsewhere (x y : state) : Prop := ∃ a, y = put_provider a x.
Definition opened_screen (a : AuthContext.auth) : world state error req := mkWorld (mkState initial a []) 0 [].

Lemma normalized_words l : Forall (λ w, w ≠ []) (normalized l).
Proof.
  apply list.Forall_forall. intros w Hw. apply list_elem_of_In, filter_In in Hw as [_ Hw]. by apply truthy_true.
Qed.

Lemma keeps_recovery seed :
  keeps validated_ok (runRecovery nativeModule wallet NativeZhtpApi DEFAULT_SOV_NODE_URL t_recoveryFailed seed).
Proof. unfold runRecovery, set, of_provider. keeps_through; done. Qed.
Ltac kept := lazymatch goal with |- keeps _ _ => apply keeps_recovery | |- validated_ok _ → _ => by intros ? end.
Lemma keeps_fill : keeps validated_ok (handleFillFromKeychain nativeModule wallet android BIOMETRY_NONE).
Proof. unfold handleFillFromKeychain, set, of_provider. keeps_through; done. Qed.
Lemma keeps_save v savedAt : keeps validated_ok (handleSaveSeedToChain v savedAt).
Proof. unfold handleSaveSeedToChain, Vault.saveSeedPhrase, set. keeps_through; done. Qed.
Lemma keeps_recover v :
  keeps validated_ok (handleRecover nativeModule wallet NativeZhtpApi Native DEFAULT_SOV_NODE_URL t_recoveryFailed v).
Proof. unfold handleRecover, set, of_provider. keeps_through; kept. Qed.

Lemma keeps_handler a : keeps validated_ok (handler a).
Proof.
  destruct a as [i text|text|text| | |v session|v|v savedAt]; cbn [handler]; unfold set;
    [by apply keeps_modify..|apply keeps_fill| |apply keeps_recover|apply keeps_save].
  unfold handleValidateSeed, set.
  destruct (normalized (seedWords v)) as [|w words] eqn:E; [keeps_through; done|].
  apply keeps_bind; [by apply keeps_modify|intros _].
  destruct (length (w :: words) =? 24)%nat eqn:E24; cbn [negb]; [|keeps_through; done]. apply Nat.eqb_eq in E24.
  keeps_through; try kept. intros _. exists (w :: words). split; [done|]. split; [|done].
  rewrite <-E. apply normalized_words.
Qed.

End Laws.

(** Whatever the user does on the screen while its calls are under way, and
    whatever the provider does meanwhile: the phrase that is recovered when the user
    presses the button is one of 24 words, and the wallet is asked for only after
    the sign-in with the typed name and password was accepted; a sign-in that fails
    is all that is asked.  The handler itself never fails. *)
Fact recovers_only_after_sign_in nativeModule wallet NativeZhtpApi android Native DEFAULT_SOV_NODE_URL BIOMETRY_NONE
    t_recoveryFailed t_seedRequired t_seedInvalid a w tr r :
  let v := view (ws w) in
  rtc (Async.step (λ e, bind (handler nativeModule wallet NativeZhtpApi android Native DEFAULT_SOV_NODE_URL BIOMETRY_NONE
    t_recoveryFailed t_seedRequired t_seedInvalid e) (λ _, ret [])) elsewhere (λ _ _ _, True)) (opened_screen a) w →
  trace obs (handleRecover nativeModule wallet NativeZhtpApi Native DEFAULT_SOV_NODE_URL t_recoveryFailed v) tr r →
  r = inr tt ∧
  (tr = [] ∨ (∃ e, trace obs (sign_in nativeModule Native v) tr (inl e)) ∨
   ∃ seed identity tr1 tr2 r2, of_24_words seed ∧ tr = tr1 ++ tr2 ∧
     trace obs (sign_in nativeModule Native v) tr1 (inr identity) ∧
     trace obs (recovery nativeModule wallet NativeZhtpApi DEFAULT_SOV_NODE_URL seed) tr2 r2).
Proof.
  intros v Hw H. assert (validated_ok (ws w)) as Hv.
  { eapply keeps_reachable; [apply keeps_handler|..|exact Hw]; [|done..]. by intros x y [b ->]. }
  apply recover_trace in H as [-> H]. split; [done|]. destruct H as [H|[H|H]]; [by left|by right; left|right; right].
  destruct H as (seed & identity & tr1 & tr2 & r2 & Es & H). exists seed, identity, tr1, tr2, r2. split; [|done].
  unfold validated_ok in Hv. fold v in Hv. by rewrite Es in Hv.
Qed.


(** ** Witnesses *)

Section Witnesses.
(** the words are filled in, validated, and the name and the password typed *)
Definition demo_handler := handler AuthContext.demo_has (λ _, false) false true true (js "quic://node") None [] [] [].
Definition validated_world : world state error req :=
  fold_left (λ w e, launch (bind (demo_handler e) (λ _, ret [])) w)
    [Validate (set_words Migration.words_24 initial) JNull; EnterUsername (js "bob"); EnterPassword (js "secret")]
    (opened_screen AuthContext.initial).
Definition demo_view : form := view (ws validated_world).

Lemma validated_reachable :
  rtc (Async.step (λ e, bind (demo_handler e) (λ _, ret [])) elsewhere (λ _ _ _, True)) (opened_screen AuthContext.initial) validated_world.
Proof.
  unfold validated_world. cbn [fold_left].
  etrans; [apply (launch_step (λ e, bind (demo_handler e) (λ _, ret [])))|].
  etrans; [apply (launch_step (λ e, bind (demo_handler e) (λ _, ret [])))|].
  apply (launch_step (λ e, bind (demo_handler e) (λ _, ret []))).
Qed.

Definition demo_handle_recover :=
  handleRecover AuthContext.demo_has (λ _, false) false true (js "quic://node") [] demo_view.
Definition demo_recover_state : state := mkState demo_view AuthContext.initial [].

Lemma recovers_only_after_sign_in_witness :
  validatedSeedData demo_view = Some (JsString.join (js " ") Migration.words_24) ∧
  ∃ tr r, trace obs demo_handle_recover tr r ∧ r = inr tt.
Proof.
  split; [by vm_compute|].
  destruct (solo phone_handle demo_handle_recover demo_recover_state (AuthContext.demo_phone [])) as [[[r x] p]|] eqn:E; [|by vm_compute in E].
  destruct (solo_trace _ _ _ _ _ _ _ E) as [tr H]. exists tr, r. split; [exact H|].
  apply (recovers_only_after_sign_in AuthContext.demo_has (λ _, false) false true true (js "quic://node") None [] [] [] AuthContext.initial
    validated_world tr r); [exact validated_reachable|exact H].
Defined.
End Witnesses.
