(* ===== verification/Backup.v ===== *)
(** * BackupIdentityScreen

    src/src/screens/BackupIdentityScreen.tsx over the provider of AuthContext.v: the
    phrase that is shown, the backup file and its download.  Handlers close over
    their rendering as in Migration.v; texts of the translation are arguments. *)

From stdpp Require Import strings.
From S2P Require Import Prelude JsString JsMap Json Async Outside.
From S2P Require NativeIdentity Auth AuthContext Rewards.
#[local] Open Scope Z_scope.

Record form := mkForm {
  seedPhrase : jstr; backupPassword : jstr; confirmPassword : jstr; backupError : option jstr;
  creating : bool; backupCreated : bool; backupFileUri : option json; backupFilePath : option json }.
Definition initial : form := mkForm [] [] [] None false false None None.

Definition setSeedPhrase s (x : form) := mkForm s (backupPassword x) (confirmPassword x) (backupError x) (creating x) (backupCreated x) (backupFileUri x) (backupFilePath x).
Definition setBackupError e (x : form) := mkForm (seedPhrase x) (backupPassword x) (confirmPassword x) e (creating x) (backupCreated x) (backupFileUri x) (backupFilePath x).
Definition setCreating b (x : form) := mkForm (seedPhrase x) (backupPassword x) (confirmPassword x) (backupError x) b (backupCreated x) (backupFileUri x) (backupFilePath x).
Definition setFile u p (x : form) := mkForm (seedPhrase x) (backupPassword x) (confirmPassword x) (backupError x) (creating x) (backupCreated x) u p.
Definition setBackupCreated (x : form) := mkForm (seedPhrase x) (backupPassword x) (confirmPassword x) (backupError x) (creating x) true (backupFileUri x) (backupFilePath x).

(** the screen with the provider; [alerts] are the titles and texts of the alerts *)
Record state := mkState { view : form; provider : AuthContext.auth; alerts : list (jstr * jstr) }.
Definition set_view (f : form → form) (x : state) : state := mkState (f (view x)) (provider x) (alerts x).
Definition put_provider (a : AuthContext.auth) (x : state) : state := mkState (view x) a (alerts x).
Definition alert (title text : jstr) (x : state) : state := mkState (view x) (provider x) (alerts x ++ [(title, text)]).

(** [JSON.stringify(o, null, 2)] of an object of strings and numbers *)
Definition pretty_member (kv : jstr * json) : jstr := js "  " ++ quote kv.1 ++ js ": " ++ stringify kv.2.
Definition nl : jstr := [chr 10].
Definition pretty (l : list (jstr * json)) : jstr :=
  js "{" ++ nl ++ JsString.join (js "," ++ nl) (map pretty_member l) ++ nl ++ js "}".

(** [new Date(t).toISOString()] of a time in milliseconds *)
Definition two (n : Z) : jstr := padStart 2 "0" (dec_str n).
Definition toISOString (t : Z) : jstr :=
  let ms := t mod Rewards.MS_PER_DAY in
  Rewards.iso_date (t / Rewards.MS_PER_DAY) ++ js "T" ++ two (ms / 3600000) ++ js ":" ++ two (ms / 60000 mod 60) ++ js ":" ++
  two (ms / 1000 mod 60) ++ js "." ++ padStart 3 "0" (dec_str (ms mod 1000)) ++ js "Z".

Example iso_example : toISOString 1700000000123 = js "2023-11-14T22:13:20.123Z".
Proof. vm_compute. reflexivity. Qed.

(** the texts of the translation *)
Record texts := mkTexts { passwordRequired : jstr; passwordMinLength : jstr; passwordMismatch : jstr; successTitle : jstr; successMessage : jstr }.

Section Handlers.
Context (nativeModule : option (jstr → bool)) (wallet : jstr → bool) (android : bool) (BIOMETRY_NONE : option jstr) (t : texts).
#[local] Abbreviation prog := (Outside.prog state).

Definition set (f : form → form) : prog unit := modify (set_view f).

(** [shown] is what the rendering captured of the phrase *)
Definition loadSeedPhraseOnDemand (shown : jstr) (currentIdentity : json) : prog unit :=
  if truthy shown then ret tt
  else
    match jget (js "masterSeedPhrase") currentIdentity with
    | Some (JStr (c :: s)) => set (setSeedPhrase (c :: s))
    | _ =>
        try_catch
          (stored ← await (lift provider put_provider (AuthContext.getMasterSeedPhrase nativeModule wallet android BIOMETRY_NONE));
           if jtruthy stored then set (setSeedPhrase (js_String stored))
           else modify (alert (js "Seed Phrase Unavailable")
             (js "No seed phrase was found on this device. If you have not backed it up yet, recover using your original 24 words.")))
          (λ err, modify (alert (js "Seed Vault Error") (str_or (message err) (js "Failed to load seed phrase from secure storage."))))
    end.

(** what keeps [handleCreateBackupFile] from a file *)
Definition refused (v : form) (did : option jstr) : option jstr :=
  match did with
  | None | Some [] => Some (js "No identity to backup")
  | Some _ =>
      if negb (truthy (trim (backupPassword v))) then Some (str_or (passwordRequired t) (js "Please enter a backup password"))
      else if (length (backupPassword v) <? 6)%nat then Some (str_or (passwordMinLength t) (js "Password must be at least 6 characters"))
      else if negb (bool_decide (backupPassword v = confirmPassword v)) then Some (str_or (passwordMismatch t) (js "Passwords do not match"))
      else None
  end.

Definition payload (created_at did : jstr) (identity_id keystore : json) : list (jstr * json) :=
  [(js "version", JNum 1); (js "type", JStr (js "zhtp_identity_backup")); (js "created_at", JStr created_at);
   (js "did", JStr did); (js "identity_id", identity_id); (js "keystore_base64", keystore)].
Definition file_name (normalizedDid : jstr) (now : Z) : jstr :=
  js "sov-identity-backup-" ++ take 12 normalizedDid ++ js "-" ++ dec_str now ++ js ".zkdid.json".

(** [identityId] and [did] are those of the identity *)
Definition create (identityId : option jstr) (did : jstr) : prog unit :=
  let identityLookup := str_or_else identityId did in
  let did := trim did in
  let normalizedDid := Auth.without_prefix did in
  keystoreBase64 ← NativeIdentity.exportKeystoreBase64 nativeModule identityLookup;
  created ← call Date_now;
  now ← call Date_now;
  fileResult ← NativeIdentity.createBackupFile nativeModule (file_name normalizedDid now)
    (pretty (payload (toISOString created) did (JStr (str_or_else identityId normalizedDid)) keystoreBase64));
  uri ← dot fileResult (js "uri");
  path ← dot fileResult (js "path");
  set (setFile (Some (if otruthy uri then default JNull uri
                      else JStr (js "file://" ++ match path with Some p => js_String p | None => js "undefined" end))) path);;
  set setBackupCreated;;
  modify (alert (str_or (successTitle t) (js "Success")) (str_or (successMessage t) (js "Backup file created and ready to download"))).

Definition handleCreateBackupFile (v : form) (identityId did : option jstr) : prog unit :=
  match refused v did with
  | Some e => set (setBackupError (Some e))
  | None =>
      set (setBackupError None);;
      set (setCreating true);;
      try_finally
        (try_catch (create identityId (default [] did))
           (λ error,
              set (setBackupError (Some (str_or (message error) (js "Failed to create backup"))));;
              modify (alert (js "Error") (str_or (message error) (js "Failed to create backup file")))))
        (set (setCreating false))
  end.

(** [Share.share] of the platform *)
Definition share (l : list (jstr * json)) : prog unit := call (native (js "Share") (js "share") [JObj l]);; ret tt.

Definition handleDownloadBackup (v : form) : prog unit :=
  try_catch
    (match backupFileUri v with
     | Some uri =>
         if negb (jtruthy uri) then modify (alert (js "Backup Not Ready") (js "Create the backup file first."))
         else if negb android && otruthy (backupFilePath v) then
           result ← NativeIdentity.exportBackupFile nativeModule (match backupFilePath v with Some p => js_String p | None => [] end);
           if negb (otruthy (jget (js "saved") result)) && negb (otruthy (jget (js "cancelled") result))
           then modify (alert (js "Export Failed") (js "Could not save backup file.")) else ret tt
         else share [(js "url", uri); (js "title", JStr (js "Download Backup"))]
     | None => modify (alert (js "Backup Not Ready") (js "Create the backup file first."))
     end)
    (λ _, modify (alert (js "Share Failed") (js "Could not share backup file. Please try again."))).

End Handlers.

(** * Properties *)

Section Laws.
Context (nativeModule : option (jstr → bool)) (t : texts).

(** the texts handed to [createBackupFile], and what the keystore was exported as *)
Definition file_of (e : event) : option jstr :=
  match e with
  | @Ev _ c _ =>
      match c with
      | native _ f [_; JStr content] => if bool_decide (f = js "createBackupFile") then Some content else None
      | _ => None
      end
  end.
Definition keystore_of (e : event) : option json :=
  match e with
  | @Ev R c r =>
      match c in req R return error + R → option json with
      | native _ f _ => λ r, if bool_decide (f = js "exportKeystoreBase64") then match r with inr v => Some v | inl _ => None end else None
      | _ => λ _, None
      end r
  end.

(** the text of the file *)
Definition backup_text (identityId : option jstr) (did : jstr) (created : Z) (keystore : json) : jstr :=
  pretty (payload (toISOString created) (trim did) (JStr (str_or_else identityId (Auth.without_prefix (trim did)))) keystore).

Definition plain_backup identityId did (tr : list event) : Prop :=
  omap file_of tr = [] ∨
  ∃ created keystore, omap file_of tr = [backup_text identityId did created keystore] ∧ omap keystore_of tr = [keystore].

Lemma create_trace identityId did tr r :
  trace obs (create nativeModule t identityId did) tr r → plain_backup identityId did tr.
Proof.
  unfold create, NativeIdentity.exportKeystoreBase64, NativeIdentity.createBackupFile, NativeIdentity.checked. cbv zeta.
  destruct nativeModule as [has|]; [|intros H; untrace H; by left]. intros H.
  destruct (has (js "exportKeystoreBase64")); [|untrace H; by left].
  apply trace_bind in H as [(e & H & _)|(ks & tr1 & tr2 & -> & H & H2)]; apply trace_call in H; unfold obs in H; subst; [by left|].
  apply trace_bind in H2 as [(e & H & _)|(created & tr3 & tr4 & -> & H & H2)]; apply trace_call in H; unfold obs in H; subst; [by left|].
  apply trace_bind in H2 as [(e & H & _)|(now & tr5 & tr6 & -> & H & H2)]; apply trace_call in H; unfold obs in H; subst; [by left|].
  destruct (has (js "createBackupFile")); [|untrace H2; by left]. right. exists created, ks.
  apply trace_bind in H2 as [(e & H & _)|(f & tr7 & tr8 & -> & H & H2)]; apply trace_call in H; unfold obs in H; subst; [done|].
  enough (tr8 = []) as -> by done. eapply silent; [|exact H2]. unfold set. emits_through.
Qed.

Lemma handler_trace v identityId did tr r :
  trace obs (handleCreateBackupFile nativeModule t v identityId did) tr r →
  plain_backup identityId (default [] did) tr.
Proof.
  unfold handleCreateBackupFile. intros H. destruct (refused t v did) as [e|]; [apply trace_modify in H as [-> _]; by left|].
  do 2 apply trace_after_modify in H. apply trace_bindR in H as (a & tr1 & tr2 & -> & H & H2).
  assert (tr2 = []) as ->.
  { eapply silent; [|exact H2]. apply emits_bindR; [apply emits_modify|]. intros _ tr' r' [-> _]. constructor. }
  rewrite app_nil_r.
  apply trace_try_catch in H as [(b & _ & H)|(e & tr3 & tr4 & -> & H & H4)]; [by eapply create_trace|].
  assert (tr4 = []) as -> by (eapply silent; [|exact H4]; unfold set; emits_through).
  rewrite app_nil_r. by eapply create_trace.
Qed.
End Laws.


(** C18: the password of a backup protects nothing.  Two passwords that the form
    accepts make the same file, and the text of the file is the exported keystore
    in the clear, beside the identity and the date. *)
Theorem backup_is_not_encrypted nativeModule t v v' identityId did tr r :
  refused t v did = None → refused t v' did = None →
  trace obs (handleCreateBackupFile nativeModule t v identityId did) tr r →
  trace obs (handleCreateBackupFile nativeModule t v' identityId did) tr r ∧
  (omap file_of tr = [] ∨
   ∃ created keystore, omap file_of tr = [backup_text identityId (default [] did) created keystore] ∧
     omap keystore_of tr = [keystore]).
Proof.
  intros Hv Hv' H. split; [|by eapply handler_trace]. unfold handleCreateBackupFile in *. by rewrite Hv in H; rewrite Hv'.
Qed.


(** ** Witnesses *)

Section Witnesses.
Definition demo_texts : texts := mkTexts [] [] [] [] [].
Definition backup_form (p : string) : form := mkForm [] (js p) (js p) None false false None None.
Definition backup_phone : phone :=
  mkPhone None (λ m _, inr (if bool_decide (m = js "exportKeystoreBase64") then JStr (js "c2VjcmV0") else AuthContext.obj [("path", js "/backup")]%string))
    (λ _, inl no_answer) (λ _, inl no_answer) (mkContents ∅ ∅ ∅).
Definition demo_backup (p : string) := handleCreateBackupFile AuthContext.demo_has demo_texts (backup_form p) None (Some AuthContext.did_a).

(** the file is made, and its text holds the exported keystore *)
Example backup_made :
  ∃ x p, solo phone_handle (demo_backup "hunter2") (mkState (backup_form "hunter2") AuthContext.initial []) backup_phone = Some (inr tt, x, p) ∧
    backupCreated (view x) = true ∧
    includes (js "c2VjcmV0") (backup_text None AuthContext.did_a 0 (JStr (js "c2VjcmV0"))) = true.
Proof. eexists _, _. split; [vm_compute; reflexivity|]. by vm_compute. Qed.

Lemma backup_is_not_encrypted_witness :
  ∃ tr r, trace obs (demo_backup "hunter2") tr r ∧ trace obs (demo_backup "another password") tr r.
Proof.
  destruct (solo phone_handle (demo_backup "hunter2") (mkState (backup_form "hunter2") AuthContext.initial []) backup_phone)
    as [[[r x] p]|] eqn:E; [|by vm_compute in E].
  destruct (solo_trace _ _ _ _ _ _ _ E) as [tr H]. exists tr, r. split; [exact H|].
  apply (backup_is_not_encrypted AuthContext.demo_has demo_texts (backup_form "hunter2") (backup_form "another password") None (Some AuthContext.did_a) tr r);
    [reflexivity|reflexivity|exact H].
Defined.
End Witnesses.
