(* ===== verification/TokenCreator.v ===== *)
(** * Launching a token: src/src/screens/TokenCreatorScreen.tsx

    The form, its validation, and the handler that launches the asset, notes its
    id, waits for it to appear and offers a domain, over TokenService.createToken
    (Tokens.v) and DomainService.registerDomain (Domains.v).  A handler closes over
    the form of its rendering as in Send.v.  The dash of an alert is written in
    ASCII; [Number(s) >= 1000] of literals that are no decimals is [other]. *)

From stdpp Require Import strings.
From S2P Require Import Prelude JsString JsMap Json Async Outside.
From stdpp Require Import gmap.
From S2P Require Doubles Balances Bootstrap Tokens Domains NativeIdentity TokenUnits.
#[local] Open Scope Z_scope.

Definition TRACKED_TOKENS_KEY : jstr := js "sov:tracked_tokens".
Definition LEGACY_CREATED_TOKENS_KEY : jstr := js "sov:created_tokens".

(** the fields of the form *)
Record form := mkForm { name : jstr; symbol : jstr; initialSupply : jstr; decimals : jstr; maxSupply : jstr }.
Definition empty_form : form := mkForm [] [] [] (js "18") [].

Record CreateFormErrors := mkErrors {
  e_name : option jstr; e_symbol : option jstr; e_initial_supply : option jstr;
  e_decimals : option jstr; e_max_supply : option jstr }.
Definition no_errors : CreateFormErrors := mkErrors None None None None None.
Definition is_none (o : option jstr) : bool := match o with None => true | Some _ => false end.
(** [Object.keys(newErrors).length === 0] *)
Definition without_errors (e : CreateFormErrors) : bool :=
  is_none (e_name e) && is_none (e_symbol e) && is_none (e_initial_supply e) && is_none (e_decimals e) && is_none (e_max_supply e).

(** the state of the screen; a status is whether it is a success, an error or
    neither, and its text *)
Record screen := mkScreen {
  fields : form; errors : CreateFormErrors; loading : bool; status : option bool * jstr;
  symbolStatus : option bool * bool; closed : bool; cachedTokens : Domains.registry }.

Definition setFields x s := mkScreen x (errors s) (loading s) (status s) (symbolStatus s) (closed s) (cachedTokens s).
Definition setErrors x s := mkScreen (fields s) x (loading s) (status s) (symbolStatus s) (closed s) (cachedTokens s).
Definition setLoading x s := mkScreen (fields s) (errors s) x (status s) (symbolStatus s) (closed s) (cachedTokens s).
Definition setStatus k m s := mkScreen (fields s) (errors s) (loading s) (k, m) (symbolStatus s) (closed s) (cachedTokens s).
Definition setSymbolStatus x s := mkScreen (fields s) (errors s) (loading s) (status s) x (closed s) (cachedTokens s).
Definition onClose s := mkScreen (fields s) (errors s) (loading s) (status s) (symbolStatus s) true (cachedTokens s).
Definition setCachedTokens x s := mkScreen (fields s) (errors s) (loading s) (status s) (symbolStatus s) (closed s) x.

(** what a rendering captures *)
Record render := mkRender {
  r_form : form; did : option jstr; primaryWallet : option jstr; (* the id of the primary wallet *)
  has_onClose : bool }.

(** ** Validation *)

Definition name_error (v : form) : option jstr :=
  if negb (truthy (trim (name v))) then Some (js "Token name is required")
  else if (length (trim (name v)) <? 3)%nat then Some (js "Token name must be at least 3 characters")
  else None.
Definition symbol_error (v : form) : option jstr :=
  let upper := toUpperCase (symbol v) in
  let n := length (trim (symbol v)) in
  if negb (truthy (trim (symbol v))) then Some (js "Token symbol is required")
  else if negb (truthy upper && forallb is_upper upper) then Some (js "Symbol must be A-Z only (DAO launch)")
  else if (n <? 1)%nat || (6 <? n)%nat then Some (js "Symbol must be 1-6 characters")
  else None.
Definition supply_error (v : form) : option jstr :=
  if negb (truthy (trim (initialSupply v))) then Some (js "Initial supply is required")
  else
    let supply := Doubles.parseFloat (initialSupply v) in
    if Doubles.isNaN supply || Doubles.gt (Doubles.of_Z 1000) supply
    then Some (js "Initial supply must be at least 1000") else None.
Definition decimals_error (v : form) : option jstr :=
  if truthy (decimals v) then
    match Bootstrap.parseInt (decimals v) with
    | Some dec => if (dec <? 0) || (18 <? dec) then Some (js "Decimals must be between 0 and 18") else None
    | None => Some (js "Decimals must be between 0 and 18")
    end
  else None.
Definition max_error (v : form) : option jstr :=
  if truthy (trim (maxSupply v)) then
    let max := Doubles.parseFloat (maxSupply v) in
    let initial := Doubles.parseFloat (initialSupply v) in
    if Doubles.isNaN max || Doubles.le max Doubles.zero then Some (js "Max supply must be a positive number")
    else if Doubles.gt initial max then Some (js "Max supply must be greater than or equal to initial supply")
    else None
  else None.
Definition form_errors (v : form) : CreateFormErrors :=
  mkErrors (name_error v) (symbol_error v) (supply_error v) (decimals_error v) (max_error v).

(** [Number.parseInt(decimals, 10) || 18] *)
Definition request_decimals (v : form) : Z :=
  match Bootstrap.parseInt (decimals v) with Some d => if d =? 0 then 18 else d | None => 18 end.
Definition createRequest (v : form) : Tokens.TokenCreateRequest :=
  Tokens.mkCreate (trim (name v)) (toUpperCase (trim (symbol v))) (trim (initialSupply v)) (request_decimals v)
    (if truthy (trim (maxSupply v)) then Some (trim (maxSupply v)) else None).

(** the label of the domain that is offered: [/[^a-z0-9-]/g] is removed *)
Definition label_char (c : ascii) : bool := is_lower c || is_digit c || bool_decide (c = "-"%char).
Definition offered_domain (v : form) : jstr :=
  str_or (List.filter label_char (toLowerCase (trim (symbol v)))) (js "dao") ++ js ".sov".

(** ** The tracked tokens *)

(** [v.length === 0] *)
Definition no_length (v : json) : prog screen bool :=
  match v with
  | JNull => throw TypeError
  | JArr l => ret (match l with [] => true | _ => false end)
  | JStr s => ret (negb (truthy s))
  | JObj l => ret (match mget (js "length") l with Some (JNum 0) => true | _ => false end)
  | _ => ret false
  end.
Definition is_text (s : jstr) (v : json) : bool := match v with JStr t => bool_decide (t = s) | _ => false end.

(** [if (!l.includes(assetId)) l.push(assetId)]: the array with the id, when it was not there *)
Definition pushed (assetId : jstr) (v : json) : prog screen (option json) :=
  match v with
  | JArr l => ret (if existsb (is_text assetId) l then None else Some (JArr (l ++ [JStr assetId])))
  | JStr s => if includes assetId s then ret None else throw TypeError
  | _ => throw TypeError
  end.
Definition stored_list (o : option jstr) : prog screen (option json) :=
  match o with
  | Some s => if truthy s then v ← or_syntax_error (json_parse s); ret (Some v) else ret None
  | None => ret None
  end.
Definition trackAsset (assetId : jstr) : prog screen unit :=
  trackedTokensJson ← call (getItem TRACKED_TOKENS_KEY);
  stored ← stored_list trackedTokensJson;
  let stored := default (JArr []) stored in
  empty ← no_length stored;
  tracked ← (if (empty : bool) then
               legacyJson ← call (getItem LEGACY_CREATED_TOKENS_KEY);
               legacy ← stored_list legacyJson; ret (default stored legacy)
             else ret stored);
  if negb (truthy assetId) then ret tt
  else
    new ← pushed assetId tracked;
    match new with
    | Some l =>
        call (setItem TRACKED_TOKENS_KEY (stringify l));;
        call (removeItem LEGACY_CREATED_TOKENS_KEY)
    | None => ret tt
    end.

(** ** Waiting for the asset *)

Definition MAX_POLLS : nat := 30.
Definition sleep : prog screen unit := await (ret tt).

(** [info && info.asset_id] *)
Definition has_asset_id (info : json) : bool := otruthy (jget (js "asset_id") info).
Fixpoint poll (n : nat) (assetId : jstr) : prog screen bool :=
  match n with
  | O => ret false
  | Datatypes.S n =>
      sleep;;
      found ← try_catch (info ← Tokens.getAsset assetId; ret (has_asset_id info)) (λ _, ret false);
      if (found : bool) then ret true else poll n assetId
  end.

(** ** Handlers *)

Definition set (f : screen → screen) : prog screen unit := modify f.

Section Handlers.
Context (nativeModule : option (jstr → bool)) (other : jstr → bool).

(** [onChangeText] of a field; the symbol is written in capitals *)
Inductive field := Name | Symbol | InitialSupply | Decimals | MaxSupply.
Definition typed (f : field) (text : jstr) (v : form) : form :=
  match f with
  | Name => mkForm text (symbol v) (initialSupply v) (decimals v) (maxSupply v)
  | Symbol => mkForm (name v) (toUpperCase text) (initialSupply v) (decimals v) (maxSupply v)
  | InitialSupply => mkForm (name v) (symbol v) text (decimals v) (maxSupply v)
  | Decimals => mkForm (name v) (symbol v) (initialSupply v) text (maxSupply v)
  | MaxSupply => mkForm (name v) (symbol v) (initialSupply v) (decimals v) text
  end.
Definition cleared (f : field) (e : CreateFormErrors) : CreateFormErrors :=
  match f with
  | Name => mkErrors None (e_symbol e) (e_initial_supply e) (e_decimals e) (e_max_supply e)
  | Symbol => mkErrors (e_name e) None (e_initial_supply e) (e_decimals e) (e_max_supply e)
  | InitialSupply => mkErrors (e_name e) (e_symbol e) None (e_decimals e) (e_max_supply e)
  | Decimals => mkErrors (e_name e) (e_symbol e) (e_initial_supply e) None (e_max_supply e)
  | MaxSupply => mkErrors (e_name e) (e_symbol e) (e_initial_supply e) (e_decimals e) None
  end.
Definition onChangeText (f : field) (text : jstr) : prog screen unit :=
  set (λ s, setErrors (cleared f (errors s)) (setFields (typed f text (fields s)) s));;
  match f with Symbol => set (setSymbolStatus (None, false)) | _ => ret tt end.

Definition checkSymbolAvailability (sym : jstr) : prog screen unit :=
  if negb (truthy (trim sym)) then set (setSymbolStatus (None, false))
  else
    set (setSymbolStatus (None, true));;
    try_catch
      (available ← Tokens.checkSymbolAvailable (toUpperCase (trim sym));
       set (setSymbolStatus (Some available, false)))
      (λ _, set (setSymbolStatus (None, false))).

Definition fee_text : jstr := js "100".
Definition claim_offer (assetId : jstr) : req nat :=
  alert (js "Claim .sov domain?")
    (js "Launch succeeded." ++ ["010"%char] ++ js "asset_id: " ++ assetId ++ ["010"%char; "010"%char] ++
     js "Domain is optional (" ++ fee_text ++ js " SOV). Skip anytime - launch stays valid.")
    [js "Skip"; js "Claim domain"].
Definition acknowledged (title body : jstr) : prog screen unit := call (alert title body [js "OK"]);; ret tt.

Definition domain_request (v : render) (wallet assetId : jstr) : Domains.DomainRegisterRequest :=
  Domains.mkRegister (offered_domain (r_form v)) (Some wallet) (Some assetId) None.
Definition claimDomain (v : render) (assetId : jstr) : prog screen unit :=
  let domain := offered_domain (r_form v) in
  let missing := acknowledged (js "Wallet required") (js "Primary wallet needed for domain fee. Launch is already complete.") in
  match primaryWallet v with
  | Some wallet =>
      if negb (length wallet =? 64)%nat then missing
      else
        try_catch
          (lift cachedTokens setCachedTokens (Domains.registerDomain nativeModule (domain_request v wallet assetId));;
           acknowledged (js "Domain claimed") (domain ++ js " bound to asset_id " ++ assetId))
          (λ domainErr,
            acknowledged (js "Domain failed - launch kept")
              (message domainErr ++ ["010"%char; "010"%char] ++ js "Your DAO (asset_id " ++ assetId ++
               js ") remains valid. Retry domain later."))
  | None => missing
  end.
Definition offerDomainClaim (v : render) (assetId : jstr) : prog screen unit :=
  button ← call (claim_offer assetId);
  if bool_decide (button = 1%nat) then claimDomain v assetId else ret tt.

Definition shareLink (assetId : jstr) : jstr := js "zhtp://asset/" ++ assetId.
Definition launched_text (confirmed : bool) (assetId : jstr) : jstr :=
  (if confirmed then js "DAO launched. asset_id: " else js "Submitted. asset_id: ") ++ assetId ++ ["010"%char] ++ shareLink assetId.

(** what follows a launch the node took *)
Definition after_launch (v : render) (assetId : jstr) : prog screen unit :=
  try_catch (trackAsset assetId) (λ _, ret tt);;
  set (setStatus (Some true) (js "Submitted to mempool. Confirming..."));;
  confirmed ← poll MAX_POLLS assetId;
  set (setStatus (Some true) (launched_text confirmed assetId));;
  offerDomainClaim v assetId;;
  set (setFields empty_form);;
  set (setStatus None []);;
  if has_onClose v then set onClose else ret tt.

Definition handleCreate (v : render) : prog screen unit :=
  set (setErrors (form_errors (r_form v)));;
  if negb (without_errors (form_errors (r_form v))) then ret tt
  else if negb (truthy (default [] (did v))) then set (setStatus (Some false) (js "Identity not available"))
  else
    set (setLoading true);;
    set (setStatus None []);;
    try_finally
      (try_catch
         (response ← Tokens.createToken nativeModule other (createRequest (r_form v));
          after_launch v (Balances.text (js "token_id") response))
         (λ error, set (setStatus (Some false) (str_or (message error) (js "Failed to create token")))))
      (set (setLoading false)).

End Handlers.

(** * Properties *)

(** ** The requests of a launch *)

Section Spec.
Context (nativeModule : option (jstr → bool)) (other : jstr → bool) (v : render).
#[local] Abbreviation f := (r_form v).

Definition has_method (m : jstr) : bool := match nativeModule with Some has => has m | None => false end.
Definition bridge (m : jstr) (params : json) (a : error + json) : event := Ev (native NativeIdentity.MODULE m [params]) a.

(** the fees are asked for, and handed to a bridge that takes them *)
Definition fee_question (a : error + json) : event :=
  Ev (publicQuicRequest (js "/api/v1/blockchain/fee-config") Quic.no_options) a.
Definition fees (tr : list event) : Prop :=
  ∃ a, match a with
       | inl _ => tr = [fee_question a]
       | inr config =>
           if has_method (js "setFeeConfig")
           then ∃ b, tr = [fee_question a; bridge (js "setFeeConfig") (JStr (stringify config)) b]
           else tr = [fee_question a]
       end.

(** what is signed: the fields of the form, and the two halves of the supply *)
Definition launch_params (lo hi : Z) : json :=
  JObj [(js "name", JStr (trim (name f))); (js "symbol", JStr (toUpperCase (symbol f)));
        (js "initialSupplyAtomsLo", JStr (dec_str lo)); (js "initialSupplyAtomsHi", JStr (dec_str hi));
        (js "decimals", JNum (request_decimals f));
        (js "treasuryKeyIdHex", JStr (js "6adb0279d2af625f4d292bafe0fcfe3e2020436478b0f90d98adaf820cac1547"));
        (js "daoClass", JNum 0); (js "burnBps", JNum 0); (js "chainId", JNum 2)].
Definition launch_post (tx : option json) (c : error + json) : event :=
  Ev (quicRequest (js "/api/v1/assets/launch")
    (post [] (JObj (opt_prop (js "signed_tx") tx ++ [(js "enforce_dao_launch_constraints", JBool true)])))) c.
(** the id in the answer of the node *)
Definition launched_id (data : json) : jstr :=
  match jor (jget (js "asset_id") data) (jor (jget (js "token_id") data) (JStr [])) with JStr s => s | _ => [] end.

(** one signature, and one post of what was signed; [taken] is the id when the
    node took it *)
Definition signed_and_posted (lo hi : Z) (tr : list event) (taken : option jstr) : Prop :=
  ∃ a, let signature := bridge (js "signAssetLaunchTransaction") (launch_params lo hi) a in
  match a with
  | inl _ | inr JNull => tr = [signature] ∧ taken = None
  | inr signed =>
      ∃ c, tr = [signature; launch_post (jget (js "signed_tx") signed) c] ∧
           taken = match c with inl _ | inr JNull => None | inr data => Some (launched_id data) end
  end.

(** the supply that is typed is a decimal number of no more digits than the
    token has, and the bridge can sign a launch *)
Definition launched (tr : list event) (taken : option jstr) : Prop :=
  if (6 <? length (toUpperCase (symbol f)))%nat || negb (Tokens.at_least_1000 other (trim (initialSupply f)))
  then tr = [] ∧ taken = None
  else
    ∃ fee rest, tr = fee ++ rest ∧ fees fee ∧
    match Tokens.decimal_parts (trim (initialSupply f)) with
    | Some (whole, fraction) =>
        if (Z.of_nat (length fraction) <=? request_decimals f) && has_method (js "signAssetLaunchTransaction")
        then ∃ lo hi, 0 ≤ lo < 2 ^ 64 ∧ lo + hi * 2 ^ 64 = TokenUnits.amount_atoms whole fraction (request_decimals f) ∧
                      signed_and_posted lo hi rest taken
        else rest = [] ∧ taken = None
    | None => rest = [] ∧ taken = None
    end.

(** ** The requests that follow it *)

Context (assetId : jstr).

(** the list a stored text holds, [None] when it is no list *)
Definition ids_in (stored : option jstr) : option (list json) :=
  match stored with
  | None | Some [] => Some []
  | Some text => match json_parse text with Some (JArr l) => Some l | _ => None end
  end.
(** the id is added to the list, and the old key is given up *)
Definition written (l : list json) (tr : list event) : Prop :=
  if negb (truthy assetId) || existsb (is_text assetId) l then tr = []
  else ∃ a, let write := Ev (setItem TRACKED_TOKENS_KEY (stringify (JArr (l ++ [JStr assetId])))) a in
    match a with
    | inl _ => tr = [write]
    | inr _ => ∃ b, tr = [write; Ev (removeItem LEGACY_CREATED_TOKENS_KEY) b]
    end.
(** requests for the two keys, when what is stored is no list *)
Definition tracked_key (e : event) : Prop :=
  match e with @Ev _ c _ =>
    match c with
    | getItem k | setItem k _ | removeItem k => k ∈ [TRACKED_TOKENS_KEY; LEGACY_CREATED_TOKENS_KEY]
    | _ => False
    end
  end.
Definition noted (tr : list event) : Prop :=
  ∃ a rest, tr = Ev (getItem TRACKED_TOKENS_KEY) a :: rest ∧
  match a with
  | inl _ => rest = []
  | inr stored =>
      match ids_in stored with
      | Some (i :: l) => written (i :: l) rest
      | Some [] =>
          ∃ b rest', rest = Ev (getItem LEGACY_CREATED_TOKENS_KEY) b :: rest' ∧
          match b with
          | inl _ => rest' = []
          | inr legacy => match ids_in legacy with Some l => written l rest' | None => Forall tracked_key rest' end
          end
      | None => Forall tracked_key rest
      end
  end.

(** the asset is asked for until the node has it, thirty times at most *)
Definition question (a : error + json) : event :=
  Ev (publicQuicRequest (Tokens.asset_path assetId) Quic.no_options) a.
Definition confirms (a : error + json) : bool := match a with inr info => has_asset_id info | inl _ => false end.
Definition polled (n : nat) (tr : list event) : Prop :=
  ∃ answers, tr = map question answers ∧
    (length answers = n ∧ forallb (λ a, negb (confirms a)) answers = true ∨
     ∃ before a, answers = before ++ [a] ∧ (length answers ≤ n)%nat ∧
       forallb (λ a, negb (confirms a)) before = true ∧ confirms a = true).

Definition ok_alert (e : event) : Prop := ∃ title body a, e = Ev (alert title body [js "OK"]) a.
(** the registration of the offered domain, for the asset that was launched, paid
    from the primary wallet *)
Definition names_domain (tr : list event) : Prop :=
  match primaryWallet v with
  | Some wallet =>
      if (length wallet =? 64)%nat
      then ∃ tr1 alerts res, tr = tr1 ++ alerts ∧ Forall ok_alert alerts ∧
        let label := List.filter label_char (toLowerCase (trim (symbol f))) in
        trace obs (Domains.registerDomain nativeModule
          (Domains.mkRegister (str_or label (js "dao") ++ js ".sov") (Some wallet) (Some assetId) None)) tr1 res
      else Forall ok_alert tr
  | None => Forall ok_alert tr
  end.
Definition offered (tr : list event) : Prop :=
  ∃ a rest, tr = Ev (claim_offer assetId) a :: rest ∧
    match a with inr 1%nat => names_domain rest | _ => rest = [] end.

Definition followed (tr : list event) : Prop :=
  ∃ tr1 tr2 tr3, tr = tr1 ++ tr2 ++ tr3 ∧ noted tr1 ∧ polled 30 tr2 ∧ offered tr3.

End Spec.

Section Laws.
Context (nativeModule : option (jstr → bool)) (other : jstr → bool).

Lemma plain_exact {S} m params tr r :
  trace obs (NativeIdentity.plain (S := S) nativeModule m [params]) tr r →
  if has_method nativeModule m then tr = [bridge m params r] else tr = [] ∧ ∃ e, r = inl e.
Proof.
  unfold NativeIdentity.plain, has_method. destruct nativeModule as [has|]; [destruct (has m)|].
  - by intros ->%trace_call.
  - intros [-> ->]. eauto.
  - intros [-> ->]. eauto.
Qed.

Lemma checked_exact {S} m e params tr r :
  trace obs (NativeIdentity.checked (S := S) nativeModule m (throw e) [params]) tr r →
  if has_method nativeModule m then tr = [bridge m params r] else tr = [] ∧ ∃ e, r = inl e.
Proof.
  unfold NativeIdentity.checked, has_method. destruct nativeModule as [has|]; [destruct (has m)|].
  - by intros ->%trace_call.
  - intros [-> ->]. eauto.
  - intros [-> ->]. eauto.
Qed.

Lemma fees_trace {S} tr r :
  trace obs (S := S)
    (try_catch (feeConfig ← call (publicQuicRequest (js "/api/v1/blockchain/fee-config") Quic.no_options);
                NativeIdentity.setFeeConfig nativeModule (stringify feeConfig);; ret tt) (λ _, ret tt)) tr r →
  r = inr tt ∧ fees nativeModule tr.
Proof.
  assert (∀ tr r, trace obs (S := S) (feeConfig ← call (publicQuicRequest (js "/api/v1/blockchain/fee-config") Quic.no_options);
                NativeIdentity.setFeeConfig nativeModule (stringify feeConfig);; ret tt) tr r → fees nativeModule tr) as H.
  { clear. intros tr r. unfold mbind, outside_bind.
    intros [(e & H & ->)|(config & tr1 & tr2 & -> & Hc & H)]%trace_bind; [apply trace_call in H as ->; by exists (inl e)|].
    apply trace_call in Hc as ->. exists (inr config).
    apply trace_bind in H as [(e & H & ->)|(u & tr1 & tr3 & -> & Hs & H)].
    - apply plain_exact in H. destruct (has_method _ _); [subst; by exists (inl e)|by destruct H as [-> _]].
    - apply trace_ret in H as [-> ->]. apply plain_exact in Hs. rewrite app_nil_r.
      destruct (has_method _ _); [subst; by exists (inr u)|by destruct Hs as [-> _]]. }
  intros [([] & -> & Ht)|(e & tr1 & tr2 & -> & Ht & H2)]%trace_try_catch; [by split; [|eapply H]|].
  apply trace_ret in H2 as [-> ->]. rewrite app_nil_r. split; [done|by eapply H].
Qed.

(** the capitals of a symbol without errors are the symbol that is launched *)
Lemma upper_char_fix c : is_upper c = true → upper_char c = [c] ∧ is_space c = false.
Proof. destruct c as [[] [] [] [] [] [] [] []]; by vm_compute. Qed.
Lemma upper_char_space c : is_space c = true → forallb is_upper (upper_char c) = false.
Proof. destruct c as [[] [] [] [] [] [] [] []]; by vm_compute. Qed.

Lemma capitals_fixed s : forallb is_upper s = true → toUpperCase s = s ∧ trim s = s.
Proof.
  intros H. assert (Forall (λ c, is_upper c = true) s) as Hf by (apply list.Forall_forall; intros c Hc; apply list_elem_of_In in Hc; by eapply forallb_forall in H).
  split; [|apply trim_no_space; eapply list.Forall_impl; [exact Hf|]; intros c Hc; by apply upper_char_fix].
  induction Hf as [|c l Hc _ IH]; [done|]. unfold toUpperCase in *. cbn [flat_map]. apply upper_char_fix in Hc as [-> _].
  simpl in *. f_equal. apply IH. by apply andb_true_iff in H as [_ ?].
Qed.

Lemma no_space_symbol s : forallb is_upper (toUpperCase s) = true → trim s = s.
Proof.
  intros H. apply trim_no_space. induction s as [|c l IH]; [constructor|]. unfold toUpperCase in *. cbn [flat_map] in H.
  rewrite forallb_app in H. apply andb_true_iff in H as [H1 H2]. constructor; [|by apply IH].
  destruct (is_space c) eqn:E; [|done]. apply upper_char_space in E. congruence.
Qed.

Lemma symbol_launched v :
  symbol_error v = None →
  Tokens.launch_symbol (Tokens.launch_of (createRequest v)) = toUpperCase (symbol v) ∧
  Tokens.symbol_ok (toUpperCase (symbol v)) = negb (6 <? length (toUpperCase (symbol v)))%nat.
Proof.
  unfold symbol_error. cbv zeta. destruct (truthy (trim (symbol v))) eqn:Et; cbn [negb]; [|done].
  destruct (truthy (toUpperCase (symbol v)) && forallb is_upper (toUpperCase (symbol v))) eqn:Eu; cbn [negb]; [|done].
  apply andb_true_iff in Eu as [E1 E2]. intros _. unfold Tokens.launch_symbol. simpl.
  rewrite (no_space_symbol _ E2). destruct (capitals_fixed _ E2) as [E3 E4]. rewrite E4, E3. split; [done|].
  unfold Tokens.symbol_ok. rewrite E2. cbn [andb]. destruct (toUpperCase (symbol v)) as [|c l]; [done|]. 
  rewrite (Nat.leb_antisym 6). reflexivity.
Qed.

(** the id a launch ends with *)
Definition settles (taken : option jstr) (res : error + json) : Prop :=
  match taken with
  | None => ∃ e, res = inl e
  | Some id => ∃ data, res = inr data ∧ data ≠ JNull ∧ id = launched_id data
  end.

Lemma launched_id_spread i data :
  launched_id (Tokens.spread_set (js "token_id") i (Tokens.spread_set (js "asset_id") i data)) =
  match (if jtruthy i then i else JStr []) with JStr s => s | _ => [] end.
Proof.
  unfold launched_id, Tokens.spread_set. cbn [Tokens.spread jget]. rewrite mget_set_eq, mget_set_ne, mget_set_eq by done.
  cbn [jor]. by destruct (jtruthy i).
Qed.

Lemma signing_exact {S} v lo hi tr res :
  has_method nativeModule (js "signAssetLaunchTransaction") = true →
  trace obs (S := S)
    (signing ← NativeIdentity.signAssetLaunchTransaction nativeModule (launch_params v lo hi);
     tx ← dot signing (js "signed_tx");
     data ← call (quicRequest (js "/api/v1/assets/launch")
       (post [] (JObj (opt_prop (js "signed_tx") tx ++ [(js "enforce_dao_launch_constraints", JBool true)]))));
     asset_id ← dot data (js "asset_id");
     let token_id := jget (js "token_id") data in
     let id := if negb (otruthy asset_id) && otruthy token_id then token_id else asset_id in
     ret (match id with
          | Some i => Tokens.spread_set (js "token_id") i (Tokens.spread_set (js "asset_id") i data)
          | None => data
          end)) tr res →
  ∃ taken, signed_and_posted v lo hi tr taken ∧ settles taken res.
Proof.
  intros Hm H. unfold mbind, outside_bind in H.
  apply trace_bind in H as [(e & H & ->)|(signing & tr1 & tr2 & -> & Hs & H)].
  { apply checked_exact in H. rewrite Hm in H. subst tr. exists None. split; [by exists (inl e)|by eexists]. }
  apply checked_exact in Hs. rewrite Hm in Hs. subst tr1.
  apply trace_bind in H as [(e & H & ->)|(tx & tr1 & tr3 & -> & Ht & H)].
  { apply trace_dot in H as [-> [[-> _]|[_ ?]]]; [|done]. exists None. split; [by exists (inr JNull)|by eexists]. }
  apply trace_dot in Ht as [-> [[_ ?]|[Hn [= ->]]]]; [done|]. cbn [app].
  assert (∀ c tr' taken, tr' = [bridge (js "signAssetLaunchTransaction") (launch_params v lo hi) (inr signing);
      launch_post (jget (js "signed_tx") signing) c] →
    taken = match c with inl _ | inr JNull => None | inr data => Some (launched_id data) end →
    signed_and_posted v lo hi tr' taken) as Hp.
  { intros c tr' taken -> ->. exists (inr signing). cbv zeta. destruct signing; try done; by exists c. }
  apply trace_bind in H as [(e & H & ->)|(data & tr1 & tr2 & -> & Hd & H)].
  { apply trace_call in H as ->. exists None. split; [by eapply (Hp (inl e))|by eexists]. }
  apply trace_call in Hd as ->.
  apply trace_bind in H as [(e & H & ->)|(asset & tr4 & tr5 & -> & Ha & H)].
  { apply trace_dot in H as [-> [[-> _]|[_ ?]]]; [|done]. exists None. split; [by eapply (Hp (inr JNull))|by eexists]. }
  apply trace_dot in Ha as [-> [[_ ?]|[Hd [= ->]]]]; [done|]. apply trace_ret in H as [-> ->].
  exists (Some (launched_id data)). split; [apply (Hp (inr data)); [done|by destruct data]|].
  eexists. split; [reflexivity|].
  destruct (negb (otruthy (jget (js "asset_id") data)) && otruthy (jget (js "token_id") data)) eqn:E.
  - apply andb_true_iff in E as [E1 E2]. destruct (jget (js "token_id") data) as [i|] eqn:Ei; [|done].
    split; [done|]. rewrite launched_id_spread. cbn [otruthy] in E2. rewrite E2. unfold launched_id. rewrite Ei.
    destruct (jget (js "asset_id") data) as [j|]; cbn [otruthy jor] in *; rewrite ?E2; [|done]. by destruct (jtruthy j).
  - destruct (jget (js "asset_id") data) as [i|] eqn:Ei; [|done]. split; [done|]. rewrite launched_id_spread.
    unfold launched_id. rewrite Ei. cbn [otruthy jor] in *. destruct (jtruthy i); [done|]. cbn [negb andb] in E.
    destruct (jget (js "token_id") data) as [j|]; [|done]. cbn [otruthy jor] in *. by rewrite E.
Qed.

Lemma launch_exact {S} v tr res :
  symbol_error (r_form v) = None →
  trace obs (Tokens.launchAsset (S := S) nativeModule other (Tokens.launch_of (createRequest (r_form v)))) tr res →
  ∃ taken, launched nativeModule other v tr taken ∧ settles taken res.
Proof.
  intros Hs. destruct (symbol_launched _ Hs) as [El Eo].
  unfold Tokens.launchAsset, launched. cbv zeta. rewrite El, Eo, negb_involutive.
  cbn [Tokens.l_supply Tokens.launch_of createRequest Tokens.c_initial_supply].
  destruct (6 <? _)%nat; cbn [orb negb].
  { intros [-> ->]. exists None. split; [done|by eexists]. }
  destruct (Tokens.at_least_1000 other _); cbn [orb negb].
  2: { intros [-> ->]. exists None. split; [done|by eexists]. }
  unfold mbind, outside_bind.
  intros [(e & [? _]%fees_trace & ->)|(u & fee & rest & -> & [_ Hf]%fees_trace & H)]%trace_bind; [done|].
  change (default 18 _) with (request_decimals (r_form v)) in H. unfold Tokens.wholeSupplyToAtomsLoHi in H.
  pose proof (Tokens.supply_split_exact (trim (initialSupply (r_form v))) (request_decimals (r_form v))) as Hx.
  unfold Tokens.wholeSupplyToAtomsLoHi in Hx. rewrite trim_idemp in H, Hx.
  destruct (Tokens.decimal_parts _) as [[w fr]|] eqn:Ed.
  2: { destruct H as [-> ->]. exists None. split; [by exists fee, []|by eexists]. }
  rewrite Z.ltb_antisym in H, Hx.
  destruct (Z.of_nat (length fr) <=? request_decimals (r_form v)) eqn:El2; cbn [negb andb] in H, Hx |- *.
  2: { destruct H as [-> ->]. exists None. split; [by exists fee, []|by eexists]. }
  cbv zeta in H, Hx. destruct (Hx _ _ eq_refl) as (w' & f' & [= <- <-] & _ & _ & _ & Hlo & _ & Heq).
  set (lo := Z.land _ _) in *. set (hi := Z.shiftr _ _) in *. clearbody lo hi.
  apply trace_bind in H as [(e & [_ ?]%trace_ret & ->)|(p & tr1 & tr2 & -> & [-> [= ->]]%trace_ret & H)]; [done|].
  cbn [app] in *. change (trim (Tokens.l_name _)) with (trim (trim (name (r_form v)))) in H. rewrite trim_idemp in H.
  destruct (has_method nativeModule (js "signAssetLaunchTransaction")) eqn:Em.
  - destruct (signing_exact v lo hi tr2 res Em H) as (taken & Hp & Ht). exists taken. split; [|exact Ht].
    exists fee, tr2. eauto 10.
  - apply trace_bind in H as [(e & H & ->)|(signing & tr1 & tr3 & -> & H & _)]; apply checked_exact in H; rewrite Em in H.
    + destruct H as [-> _]. exists None. split; [|by eexists]. by exists fee, [].
    + by destruct H as [_ [e ?]].
Qed.

Lemma created_exact {S} v tr res :
  symbol_error (r_form v) = None →
  trace obs (Tokens.createToken (S := S) nativeModule other (createRequest (r_form v))) tr res →
  ∃ taken, launched nativeModule other v tr taken ∧
    match taken with
    | None => ∃ e, res = inl e
    | Some id => ∃ response, res = inr response ∧ id = Balances.text (js "token_id") response
    end.
Proof.
  intros Hs H. unfold Tokens.createToken, mbind, outside_bind in H.
  apply trace_bind in H as [(e & H & ->)|(data & tr1 & tr2 & -> & Hd & H)].
  { apply launch_exact in H as (taken & Hl & Ht); [|done]. exists taken. split; [done|].
    destruct taken; [by destruct Ht as (? & ? & _)|by eexists]. }
  apply launch_exact in Hd as (taken & Hl & Ht); [|done]. destruct taken as [id|]; [|by destruct Ht].
  destruct Ht as (data' & [= <-] & Hn & ->).
  apply trace_bind in H as [(e & H & _)|(s & tr3 & tr4 & -> & Hq & H)];
    [by apply trace_dot in H as [_ [[? _]|[_ ?]]]|].
  apply trace_dot in Hq as [-> _]. apply trace_ret in H as [-> ->]. rewrite !app_nil_r.
  exists (Some (launched_id data)). split; [done|]. eexists. split; [reflexivity|].
  unfold launched_id, Balances.text, str_field, jfield. cbn [jget]. by destruct (jor _ _).
Qed.

(** ** What follows it *)

Lemma set_trace f tr (r : error + unit) : trace obs (set f) tr r → tr = [] ∧ r = inr tt.
Proof. apply trace_modify. Qed.

Lemma stored_list_trace o tr r :
  trace obs (stored_list o) tr r →
  tr = [] ∧ match ids_in o with
            | Some l => r = inr (Some (JArr l)) ∨ l = [] ∧ r = inr None
            | None => match r with inr (Some (JArr _)) | inr None => False | _ => True end
            end.
Proof.
  unfold stored_list, ids_in. destruct o as [[|c t]|]; cbn [truthy]; [intros [-> ->]; auto| |intros [-> ->]; auto].
  destruct (json_parse (c :: t)) as [w|]; unfold mbind, outside_bind.
  - intros [(e & [_ ?]%trace_ret & _)|(w' & tr1 & tr2 & -> & [-> [= ->]]%trace_ret & [-> ->]%trace_ret)]%trace_bind; [done|].
    split; [done|]. by destruct w; auto.
  - intros [(e & [-> _]%trace_throw & ->)|(w' & tr1 & tr2 & -> & [_ ?]%trace_throw & _)]%trace_bind; done.
Qed.

(** what is written of a list *)
Definition note (assetId : jstr) (tracked : json) : prog screen unit :=
  if negb (truthy assetId) then ret tt
  else
    new ← pushed assetId tracked;
    match new with
    | Some l => call (setItem TRACKED_TOKENS_KEY (stringify l));; call (removeItem LEGACY_CREATED_TOKENS_KEY)
    | None => ret tt
    end.

Lemma note_list assetId l tr r : trace obs (note assetId (JArr l)) tr r → written assetId l tr.
Proof.
  unfold note, written. destruct (truthy assetId); cbn [negb orb]; [|by intros [-> _]].
  cbn [pushed]. unfold mbind, outside_bind.
  intros [(e & [_ ?]%trace_ret & _)|(w & tr1 & tr2 & -> & [-> [= ->]]%trace_ret & H)]%trace_bind; [done|]. cbn [app].
  destruct (existsb _ l); [by apply trace_ret in H as [-> _]|].
  apply trace_bind in H as [(e & H & ->)|([] & tr3 & tr4 & -> & H & H2)]; apply trace_call in H as ->; [by exists (inl e)|].
  exists (inr tt). apply trace_call in H2 as ->. eauto.
Qed.

Lemma note_keys assetId v : emits tracked_key (note assetId v).
Proof. unfold note, pushed. emits_through; solve [left|right; left]. Qed.

Lemma legacy_trace assetId tr r :
  trace obs (bind (bind (call (getItem LEGACY_CREATED_TOKENS_KEY))
    (λ legacyJson, bind (stored_list legacyJson) (λ legacy, ret (default (JArr []) legacy)))) (note assetId)) tr r →
  ∃ b rest, tr = Ev (getItem LEGACY_CREATED_TOKENS_KEY) b :: rest ∧
    match b with
    | inl _ => rest = []
    | inr legacy => match ids_in legacy with Some l => written assetId l rest | None => Forall tracked_key rest end
    end.
Proof.
  intros [(e & H & ->)|(tracked & tr1 & tr2 & -> & H & Hn)]%trace_bind;
    apply trace_bind in H as [(e' & H & ?)|(o & tr3 & tr4 & -> & H & H2)]; simplify_eq; apply trace_call in H as ->.
  - by exists (inl e'), [].
  - exists (inr o), tr4. split; [done|].
    apply trace_bind in H2 as [(e' & H & _)|(stored & tr5 & tr6 & -> & _ & [_ ?]%trace_ret)]; [|done].
    apply stored_list_trace in H as [-> Hi]. destruct (ids_in o); [by destruct Hi as [?|[_ ?]]|constructor].
  - exists (inr o), (tr4 ++ tr2). split; [done|].
    apply trace_bind in H2 as [(e' & _ & ?)|(stored & tr5 & tr6 & -> & H & H2)]; [done|].
    apply stored_list_trace in H as [-> Hi]. apply trace_ret in H2 as [-> [= ->]]. cbn [app].
    destruct (ids_in o) as [l|]; [|by eapply note_keys].
    destruct Hi as [[= ->]|[-> [= ->]]]; by eapply note_list.
Qed.

Lemma track_trace assetId tr r : trace obs (trackAsset assetId) tr r → noted assetId tr.
Proof.
  unfold trackAsset, mbind, outside_bind.
  intros [(e & H & ->)|(o & tr1 & tr2 & -> & H & H2)]%trace_bind; apply trace_call in H as ->; [by exists (inl e), []|].
  exists (inr o), tr2. split; [done|].
  apply trace_bind in H2 as [(e & H & ->)|(stored & tr3 & tr4 & -> & H & H2)]; apply stored_list_trace in H as [-> Hi].
  { destruct (ids_in o) as [l|]; [by destruct Hi as [?|[_ ?]]|constructor]. }
  cbn [app]. fold (note assetId) in H2. destruct (ids_in o) as [[|i l]|].
  - assert (default (JArr []) stored = JArr []) as E by by destruct Hi as [[= ->]|[_ [= ->]]]. rewrite E in H2. clear E.
    cbn [no_length] in H2.
    apply trace_bind in H2 as [(e & [_ ?]%trace_ret & _)|(b & tr5 & tr6 & -> & [-> [= ->]]%trace_ret & H)]; [done|].
    by apply legacy_trace in H.
  - destruct Hi as [[= ->]|[? _]]; [|done]. cbn [default from_option id no_length] in H2.
    apply trace_bind in H2 as [(e & [_ ?]%trace_ret & _)|(b & tr5 & tr6 & -> & [-> [= ->]]%trace_ret & H)]; [done|].
    apply trace_bind in H as [(e & [_ ?]%trace_ret & _)|(w & tr5 & tr7 & -> & [-> [= ->]]%trace_ret & H)]; [done|].
    by eapply note_list.
  - revert H2. clear. generalize (default (JArr []) stored). intros v0. revert tr4 r.
    change (emits tracked_key (bind (no_length v0) (λ empty : bool, bind
      (if empty then bind (call (getItem LEGACY_CREATED_TOKENS_KEY)) (λ j, bind (stored_list j) (λ l, ret (default v0 l))) else ret v0)
      (note assetId)))).
    assert (∀ o, emits tracked_key (stored_list o)) as Hl by (intros o'; unfold stored_list; emits_through).
    unfold no_length. emits_through; try apply Hl; try apply note_keys; solve [left|right; left].
Qed.

Lemma poll_trace n assetId tr r :
  trace obs (poll n assetId) tr r → (∃ confirmed, r = inr confirmed) ∧ polled assetId n tr.
Proof.
  revert tr r. induction n as [|n IH]; intros tr r H; cbn [poll] in H.
  { apply trace_ret in H as [-> ->]. split; [by eexists|]. exists []. split; [done|]. by left. }
  unfold mbind, outside_bind in H.
  apply trace_bind in H as [(e & H & ->)|(u & tr1 & tr2 & -> & Hs & H)].
  { unfold sleep in H. rewrite trace_await in H. by apply trace_ret in H as [_ ?]. }
  unfold sleep in Hs. rewrite trace_await in Hs. apply trace_ret in Hs as [-> _]. cbn [app].
  apply trace_bind in H as [(e & H & ->)|(found & tr3 & tr4 & -> & Hf & H)].
  { apply trace_try_catch in H as [(? & ? & _)|(? & ? & ? & _ & _ & H)]; [done|by apply trace_ret in H as [_ ?]]. }
  assert (∃ a, tr3 = [question assetId a] ∧ found = confirms a) as (a & -> & ->).
  { unfold Tokens.getAsset, mbind, outside_bind in Hf. apply trace_try_catch in Hf as [(b & [= <-] & Hf)|(e & t1 & t2 & -> & Hf & H2)];
      apply trace_bind in Hf as [(e' & Hf & He)|(info & t3 & t4 & -> & Hf & H3)]; try done; apply trace_call in Hf as ->.
    - apply trace_ret in H3 as [-> [= ->]]. by exists (inr info).
    - apply trace_ret in H2 as [-> [= ->]]. by exists (inl e').
    - by apply trace_ret in H3 as [_ ?]. }
  destruct (confirms a) eqn:Ec.
  - apply trace_ret in H as [-> ->]. split; [by eexists|]. exists [a]. split; [done|]. right.
    exists [], a. repeat split; [simpl; lia|done].
  - apply IH in H as (Hr & answers & -> & Ha). split; [done|]. exists (a :: answers). split; [done|].
    destruct Ha as [[<- Hall]|(before & b & -> & Hl & Hall & Hb)]; [left|right].
    + split; [done|]. simpl. by rewrite Ec, Hall.
    + exists (a :: before), b. split; [done|]. split; [simpl; lia|]. simpl. by rewrite Ec, Hall.
Qed.

Lemma acknowledged_trace title body tr r : trace obs (acknowledged title body) tr r → Forall ok_alert tr.
Proof. apply (λ (H : emits ok_alert _), H tr r). unfold acknowledged. emits_through. by eexists _, _, _. Qed.

Lemma claim_trace v assetId tr r :
  trace obs (claimDomain nativeModule v assetId) tr r → names_domain nativeModule v assetId tr.
Proof.
  unfold claimDomain, names_domain. cbv zeta. destruct (primaryWallet v) as [wallet|]; [|apply acknowledged_trace].
  destruct (length wallet =? 64)%nat; cbn [negb]; [|apply acknowledged_trace].
  change (Domains.mkRegister _ _ _ _) with (domain_request v wallet assetId).
  unfold mbind, outside_bind. intros [(a & -> & H)|(e & tr1 & tr2 & -> & H & H2)]%trace_try_catch.
  - apply trace_bind in H as [(e & _ & ?)|(x & tr1 & tr2 & -> & H1 & H2)]; [done|]. apply trace_lift in H1.
    exists tr1, tr2, (inr x). split; [done|]. split; [by eapply acknowledged_trace|done].
  - apply acknowledged_trace in H2.
    apply trace_bind in H as [(e' & H & _)|(x & tr3 & tr4 & -> & H1 & H4)].
    + apply trace_lift in H. exists tr1, tr2, (inl e'). done.
    + apply trace_lift in H1. apply acknowledged_trace in H4. exists tr3, (tr4 ++ tr2), (inr x). rewrite app_assoc. split; [done|].
      split; [by apply Forall_app|done].
Qed.

(** what precedes a step that cannot fail *)
Lemma trace_then {A B} (t : prog screen A) (k : A → prog screen B) tr r :
  (∀ tr' e, ¬ trace obs t tr' (inl e)) → trace obs (bind t k) tr r →
  ∃ a tr1 tr2, tr = tr1 ++ tr2 ∧ trace obs t tr1 (inr a) ∧ trace obs (k a) tr2 r.
Proof. intros Ht [(e & H & ->)|H]%trace_bind; [by apply Ht in H|exact H]. Qed.

Lemma offer_trace v assetId tr r :
  trace obs (offerDomainClaim nativeModule v assetId) tr r → offered nativeModule v assetId tr.
Proof.
  unfold offerDomainClaim, mbind, outside_bind.
  intros [(e & H & _)|(b & t1 & t2 & -> & H & H2)]%trace_bind; apply trace_call in H as ->; [by exists (inl e), []|].
  exists (inr b), t2. split; [done|]. case_bool_decide as Eb; [subst b; by eapply claim_trace|].
  apply trace_ret in H2 as [-> _]. by destruct b as [|[|b]].
Qed.

Lemma caught_trace (t : prog screen unit) tr r :
  trace obs (try_catch t (λ _, ret tt)) tr r → r = inr tt ∧ ∃ r', trace obs t tr r'.
Proof.
  intros [([] & -> & H)|(e & tr1 & tr2 & -> & H & H2)]%trace_try_catch; [eauto|].
  apply trace_ret in H2 as [-> ->]. rewrite app_nil_r. eauto.
Qed.

Lemma after_launch_trace v assetId tr r :
  trace obs (after_launch nativeModule v assetId) tr r → followed nativeModule v assetId tr.
Proof.
  unfold after_launch, mbind, outside_bind. intros H.
  apply trace_then in H as ([] & tr1 & tr2 & -> & Ht & H); [|by intros tr' e [? _]%caught_trace].
  apply caught_trace in Ht as [_ [r1 Hb%track_trace]].
  apply trace_after_modify in H.
  apply trace_then in H as (confirmed & tr3 & tr4 & -> & Hp & H); [|by intros tr' e ([? ?] & _)%poll_trace].
  apply poll_trace in Hp as [_ Hp]. apply trace_after_modify in H.
  assert (∃ r, trace obs (offerDomainClaim nativeModule v assetId) tr4 r) as [r4 Ho%offer_trace].
  { apply trace_bind in H as [(e & H & _)|([] & t1 & t2 & -> & H & H2)]; [eauto|].
    assert (t2 = []) as ->; [|rewrite app_nil_r; eauto]. do 2 (apply trace_after_modify in H2).
    destruct (has_onClose v); [by apply set_trace in H2 as [-> _]|by apply trace_ret in H2 as [-> _]]. }
  by exists tr1, tr3, tr4.
Qed.

Lemma no_error e : is_none e = true → e = None.
Proof. by destruct e. Qed.


End Laws.

(** ** What the form means and what is launched *)

Definition demo_form (decimals maxSupply : string) : form :=
  mkForm (js " My DAO ") (js "MYDAO") (js "1234.5") (js decimals) (js maxSupply).

(** The form accepts any number of decimals from 0 to 18, and a launch with 0 is
    one with 18. *)
Fact zero_decimals_become_18 :
  without_errors (form_errors (demo_form "0" "")) = true ∧
  Tokens.l_decimals (Tokens.launch_of (createRequest (demo_form "0" ""))) = Some 18.
Proof. split; by vm_compute. Qed.

(** The maximal supply is compared with the initial one and then dropped. *)
Fact max_supply_is_not_launched v max :
  Tokens.launch_of (createRequest (mkForm (name v) (symbol v) (initialSupply v) (decimals v) max)) =
  Tokens.launch_of (createRequest v).
Proof. done. Qed.

(** ** Witness *)

Definition demo_render : render :=
  mkRender (demo_form "2" "5000") (Some (js "did:zhtp:ann")) (Some Domains.a_wallet) true.
Definition demo_asset : jstr := Domains.a_wallet.
Definition demo_phone : phone :=
  mkPhone None
    (λ m _, inr (JObj [(js "signed_tx", JStr (js "f0")); (js "fee_payment_tx_hex", JStr (js "fe"));
                       (js "request_json", JStr Domains.a_text)]))
    (λ path, inr (JObj [(js "asset_id", JStr demo_asset); (js "domain", JStr (js "mydao.sov")); (js "nonce", JNum 7)]))
    (λ _, inl no_answer) (mkContents ∅ ∅ ∅).
Definition demo_screen : screen := mkScreen (demo_form "2" "5000") no_errors false (None, []) (None, false) false Domains.sov.
Abbreviation demo_run :=
  (solo phone_handle (handleCreate (Some (λ _, true)) (λ _, false) demo_render) demo_screen demo_phone).

(** the screen after the launch, and what was noted *)
Example demo_launched :
  match demo_run with
  | Some (r, s, p) =>
      r = inr tt ∧ closed s = true ∧ loading s = false ∧ fields s = empty_form ∧
      items (stored p) !! TRACKED_TOKENS_KEY = Some (stringify (JArr [JStr demo_asset]))
  | None => False
  end.
Proof. vm_compute. auto. Qed.

Lemma demo_ends : is_Some demo_run.
Proof. vm_compute. by eexists. Qed.
Lemma demo_traced : ∃ tr r, trace obs (handleCreate (Some (λ _, true)) (λ _, false) demo_render) tr r.
Proof.
  destruct demo_ends as [[[r s] p] E].
  destruct (solo_trace phone_handle _ _ _ _ _ _ E) as [tr H]. exists tr, r. exact H.
Qed.

