(* ===== verification/DomainRegister.v ===== *)
(** * Registering a domain: src/src/screens/DomainRegistrationScreen.tsx

    The name is normalised while it is typed, checked at the node after a pause,
    and registered by DomainService (Domains.v); the entry is kept in AsyncStorage.
    Handlers close over the form of their rendering as in Send.v; the timer of a
    check is an entry of [timers] that may fire while it is there.  The identity
    comes from the provider of AuthContext.v.  The date of the success message is
    left out, dashes of messages are written in ASCII. *)

From stdpp Require Import strings gmap.
From S2P Require Import Prelude JsString JsMap Json Codec Async Outside.
From S2P Require Doubles Balances DomainValidation Domains Vault AuthContext Backup.
#[local] Open Scope Z_scope.

Definition REGISTERED_DOMAINS_KEY : jstr := js "sov:registered_domains".
Definition DOMAIN_REGISTRATION_FEE_SOV : Z := 100.
Definition DOMAIN_REGISTRATION_DURATION_SECS : Z := 365 * 86400.

Record form := mkForm {
  domain : jstr; years : jstr; e_domain : option jstr; e_years : option jstr; loading : bool;
  status : option bool * jstr;            (* whether a success, an error or neither, and the text *)
  available : option bool; checking : bool; registrarFee : option json;
  debounceTimer : option nat;
  resolvedIdentityDid : option jstr; identityLoading : bool; identityError : option jstr;
  closed : bool }.
Definition opened (did : option jstr) : form :=
  mkForm [] (js "1") None None false (None, []) None false None None did false None false.

Definition setDomain d (x : form) := mkForm d (years x) (e_domain x) (e_years x) (loading x) (status x) (available x) (checking x) (registrarFee x) (debounceTimer x) (resolvedIdentityDid x) (identityLoading x) (identityError x) (closed x).
Definition setYears y (x : form) := mkForm (domain x) y (e_domain x) (e_years x) (loading x) (status x) (available x) (checking x) (registrarFee x) (debounceTimer x) (resolvedIdentityDid x) (identityLoading x) (identityError x) (closed x).
Definition setErrors d y (x : form) := mkForm (domain x) (years x) d y (loading x) (status x) (available x) (checking x) (registrarFee x) (debounceTimer x) (resolvedIdentityDid x) (identityLoading x) (identityError x) (closed x).
Definition setLoading b (x : form) := mkForm (domain x) (years x) (e_domain x) (e_years x) b (status x) (available x) (checking x) (registrarFee x) (debounceTimer x) (resolvedIdentityDid x) (identityLoading x) (identityError x) (closed x).
Definition setStatus k m (x : form) := mkForm (domain x) (years x) (e_domain x) (e_years x) (loading x) (k, m) (available x) (checking x) (registrarFee x) (debounceTimer x) (resolvedIdentityDid x) (identityLoading x) (identityError x) (closed x).
Definition setAvailability a c f (x : form) := mkForm (domain x) (years x) (e_domain x) (e_years x) (loading x) (status x) a c f (debounceTimer x) (resolvedIdentityDid x) (identityLoading x) (identityError x) (closed x).
Definition setDebounceTimer t (x : form) := mkForm (domain x) (years x) (e_domain x) (e_years x) (loading x) (status x) (available x) (checking x) (registrarFee x) t (resolvedIdentityDid x) (identityLoading x) (identityError x) (closed x).
Definition setIdentity d l e (x : form) := mkForm (domain x) (years x) (e_domain x) (e_years x) (loading x) (status x) (available x) (checking x) (registrarFee x) (debounceTimer x) d l e (closed x).
Definition onClose (x : form) := mkForm (domain x) (years x) (e_domain x) (e_years x) (loading x) (status x) (available x) (checking x) (registrarFee x) (debounceTimer x) (resolvedIdentityDid x) (identityLoading x) (identityError x) true.

(** the screen with the timers that run, the provider and the cache of the registry *)
Record screen := mkScreen {
  view : form; timers : list (nat * jstr); next_timer : nat; provider : AuthContext.auth; cachedTokens : Domains.registry }.
Definition set_view f s := mkScreen (f (view s)) (timers s) (next_timer s) (provider s) (cachedTokens s).
Definition set_timers l s := mkScreen (view s) l (next_timer s) (provider s) (cachedTokens s).
Definition put_provider a s := mkScreen (view s) (timers s) (next_timer s) a (cachedTokens s).
Definition setCachedTokens c s := mkScreen (view s) (timers s) (next_timer s) (provider s) c.

#[local] Abbreviation prog := (Outside.prog screen).
Definition set (f : form → form) : prog unit := modify (set_view f).

(** ** The name that is typed *)

Definition hyphen : ascii := "-"%char.
Definition is_hyphen (c : ascii) : bool := bool_decide (c = hyphen).
Definition name_char (c : ascii) : bool := is_lower c || is_hyphen c.
Definition without_sov (s : jstr) : jstr := if endsWith (js ".sov") s then slice 0 (-4) s else s.
Definition normalised (text : jstr) : jstr :=
  drop_while_end is_hyphen (drop_while is_hyphen (List.filter name_char (without_sov (trim (toLowerCase text))))).

Definition full_name (d : jstr) : jstr := d ++ js ".sov".

(** ** Validation *)

Definition domain_error (v : form) : option jstr :=
  if negb (truthy (trim (domain v))) then Some (js "Domain name is required")
  else
    let r := DomainValidation.validateDomainFormat (full_name (domain v)) in
    if DomainValidation.dv_valid r then None
    else Some (str_or (default [] (head (DomainValidation.dv_errors r))) (js "Invalid domain format")).
Definition years_error (v : form) : option jstr :=
  let r := DomainValidation.validateDomainDuration (inl (DomainValidation.parseInt10 (years v))) in
  if DomainValidation.dur_valid r then None
  else Some (str_or (default [] (DomainValidation.dur_error r)) (js "Invalid duration")).
Definition validateForm (v : form) : prog bool :=
  set (setErrors (domain_error v) (years_error v));;
  ret (match domain_error v, years_error v with None, None => true | _, _ => false end).

(** ** Availability *)

Definition checkDomainAvailability (domainToCheck : jstr) : prog unit :=
  if negb (truthy (trim domainToCheck)) then set (setAvailability None false None)
  else
    set (λ x, setAvailability (available x) true (registrarFee x) x);;
    try_catch
      (result ← lift cachedTokens setCachedTokens (Domains.checkAvailability domainToCheck);
       set (setAvailability (Some (otruthy (jget (js "available") result))) false (jget (js "registrar_fee") result)))
      (λ _, set (setAvailability None false None)).

Definition clearTimeout (t : nat) : prog unit := modify (λ s, set_timers (List.filter (λ e, negb (e.1 =? t)%nat) (timers s)) s).
(** [setTimeout] of a check, and [setDebounceTimer] of its number *)
Definition schedule (name : jstr) : prog unit :=
  modify (λ s, mkScreen (setDebounceTimer (Some (next_timer s)) (view s)) (timers s ++ [(next_timer s, name)])
                 (S (next_timer s)) (provider s) (cachedTokens s)).
Definition when_timer (t : option nat) : prog unit := match t with Some t => clearTimeout t | None => ret tt end.

Definition handleDomainChange (v : form) (text : jstr) : prog unit :=
  let normalizedText := normalised text in
  set (setDomain normalizedText);;
  set (λ x, setErrors None (e_years x) x);;
  when_timer (debounceTimer v);;
  if truthy normalizedText then schedule (full_name normalizedText) else ret tt.

Definition handleDomainBlur (v : form) : prog unit :=
  when_timer (debounceTimer v);;
  if truthy (domain v) then checkDomainAvailability (full_name (domain v)) else ret tt.

(** the timer fires, unless it was cleared *)
Definition fire (t : nat) : prog unit :=
  l ← gets timers;
  match List.find (λ e, (e.1 =? t)%nat) l with
  | Some (_, name) => clearTimeout t;; checkDomainAvailability name
  | None => ret tt
  end.

(** [onPress] of a duration; only one year is offered *)
Definition chooseYears (value : jstr) : prog unit :=
  if bool_decide (value = js "1") then set (λ x, setErrors (e_domain x) None (setYears value x)) else ret tt.

(** ** The identity *)

Definition UNLOCK : jstr := js "Unlock identity to register domain".
Definition ensureIdentityAvailable (v : form) (isBootstrapping : bool) : prog (option jstr) :=
  if isBootstrapping || truthy (default [] (resolvedIdentityDid v)) then ret (resolvedIdentityDid v)
  else
    set (λ x, setIdentity (resolvedIdentityDid x) true None x);;
    try_finally
      (try_catch
         (identity ← await (lift provider put_provider AuthContext.loadIdentityOnDemand);
          match jget (js "did") identity with
          | Some (JStr did) =>
              if truthy did then set (λ x, setIdentity (Some did) (identityLoading x) (identityError x) x);; ret (Some did)
              else set (λ x, setIdentity (resolvedIdentityDid x) (identityLoading x) (Some UNLOCK) x);; ret None
          | _ => set (λ x, setIdentity (resolvedIdentityDid x) (identityLoading x) (Some UNLOCK) x);; ret None
          end)
         (λ _, set (λ x, setIdentity (resolvedIdentityDid x) (identityLoading x) (Some (js "Unable to access identity")) x);; ret None))
      (set (λ x, setIdentity (resolvedIdentityDid x) false (identityError x) x)).

(** ** Registering *)

Definition content_mappings (full : jstr) : json :=
  JObj [(js "/", JObj [(js "content", JStr (js "<html><body>" ++ full ++ js "</body></html>"));
                       (js "content_type", JStr (js "text/html"))])].
Definition request (v : form) (wallet : jstr) : Domains.DomainRegisterRequest :=
  Domains.mkRegister (full_name (domain v)) (Some wallet) None (Some (content_mappings (full_name (domain v)))).

(** [new Date(secs * 1000).toISOString()] *)
Definition RangeError : error := Error (js "Invalid time value").
Definition iso (secs : Z) : prog jstr :=
  if 8640000000000000 <? Z.abs (secs * 1000) then throw RangeError else ret (Backup.toISOString (secs * 1000)).
(** a number of seconds, as the type of the answer says *)
Definition as_int (v : json) : option Z := match v with JNum n => Some n | _ => None end.

Definition entry_of (response : json) (expires tx registered : jstr) : json :=
  JObj (opt_prop (js "domain") (JStr <$> str_field (js "domain") response) ++
        opt_prop (js "owner") (JStr <$> str_field (js "owner") response) ++
        [(js "expires_at", JStr expires); (js "tx_hash", JStr tx); (js "registered_at", JStr registered)]).

(** [d.domain?.toLowerCase()] *)
Definition domain_key (d : json) : prog (option jstr) :=
  v ← dot d (js "domain");
  match v with
  | None | Some JNull => ret None
  | Some (JStr s) => ret (Some (toLowerCase s))
  | Some _ => throw TypeError
  end.
Fixpoint filter_out (k : option jstr) (l : list json) : prog (list json) :=
  match l with
  | [] => ret []
  | d :: l => k' ← domain_key d; rest ← filter_out k l; ret (if bool_decide (k' = k) then rest else d :: rest)
  end.

Definition storeDomain (newDomain : json) : prog unit :=
  storedDomainsJson ← call (getItem REGISTERED_DOMAINS_KEY);
  storedDomains ← match storedDomainsJson with
                  | Some s => if truthy s then or_syntax_error (json_parse s) else ret (JArr [])
                  | None => ret (JArr [])
                  end;
  match storedDomains with
  | JArr l =>
      k ← domain_key newDomain;
      deduped ← filter_out k l;
      call (setItem REGISTERED_DOMAINS_KEY (stringify (JArr (deduped ++ [newDomain]))))
  | _ => throw TypeError
  end.

Section Handlers.
Context (nativeModule : option (jstr → bool)).

(** what follows an answer of the node; [registered] is the text of the success *)
Definition registered_text : jstr := js "Domain registered. Expires: ".
Definition after_registration (response : json) : prog unit :=
  registeredAtSecs ← match v ← jget (js "registered_at") response; as_int v with
                     | Some n => ret n | None => now ← call Date_now; ret (now / 1000) end;
  expiresAtIso ← iso (registeredAtSecs + DOMAIN_REGISTRATION_DURATION_SECS);
  registeredIso ← iso registeredAtSecs;
  storeDomain (entry_of response expiresAtIso (Balances.text (js "blockchain_transaction") response) registeredIso);;
  set (setStatus (Some true) registered_text);;
  set (setDomain []);; set (setYears (js "1"));; set (setErrors None None);;
  void (await (ret tt);; set onClose).

Definition register (v : form) (wallet : jstr) : prog unit :=
  set (setLoading true);;
  set (setStatus None []);;
  try_finally
    (try_catch
       (set (setStatus None (js "Signing transaction..."));;
        response ← lift cachedTokens setCachedTokens (Domains.registerDomain nativeModule (request v wallet));
        after_registration response)
       (λ error, set (setStatus (Some false) (str_or (message error) (js "Failed to register domain")))))
    (set (setLoading false)).

(** [walletByType?.primary] *)
Definition primaryWallet (l : Balances.WalletListData) : option Balances.WalletDisplay := mget (js "primary") (Balances.walletByType l).
(** [walletList] is that of the rendering *)
Definition handleRegister (v : form) (isBootstrapping : bool) (walletList : Balances.WalletListData) : prog unit :=
  ok ← validateForm v;
  if negb ok then ret tt
  else
    ownerDid ← match resolvedIdentityDid v with Some d => ret (Some d) | None => ensureIdentityAvailable v isBootstrapping end;
    if negb (truthy (default [] ownerDid)) then set (setStatus (Some false) UNLOCK)
    else if bool_decide (available v = Some false) then set (setStatus (Some false) (js "Domain is not available"))
    else
      match primaryWallet walletList with
      | None => set (setStatus (Some false) (js "Primary wallet not found - cannot pay registration fee"))
      | Some w =>
          if negb (truthy (Balances.id w))
          then set (setStatus (Some false) (js "Primary wallet not found - cannot pay registration fee"))
          else if Doubles.gt (Doubles.of_Z DOMAIN_REGISTRATION_FEE_SOV) (Balances.total_balance w)
          then set (setStatus (Some false) (js "Insufficient SOV - need " ++ dec_str DOMAIN_REGISTRATION_FEE_SOV ++ js " SOV to register a domain"))
          else register v (Balances.id w)
      end.

Inductive action :=
| Change (v : form) (text : jstr) | Blur (v : form) | Fire (t : nat) | Years (value : jstr)
| Unlock (v : form) (isBootstrapping : bool) | Register (v : form) (isBootstrapping : bool) (walletList : Balances.WalletListData)
| IdentityChanged (did : option jstr).
Definition handler (a : action) : prog unit :=
  match a with
  | Change v text => handleDomainChange v text
  | Blur v => handleDomainBlur v
  | Fire t => fire t
  | Years value => chooseYears value
  | Unlock v b => ensureIdentityAvailable v b;; ret tt
  | Register v b w => handleRegister v b w
  | IdentityChanged did => set (λ x, setIdentity did (identityLoading x) (identityError x) x)
  end.
End Handlers.

(** * Properties *)

(** ** The name on the screen *)

(** letters and hyphens, a hyphen neither first nor last *)
Record normal (d : jstr) : Prop := {
  normal_chars : Forall (λ c, name_char c = true) d;
  normal_first : match d with [] => True | c :: _ => is_hyphen c = false end;
  normal_last : match rev d with [] => True | c :: _ => is_hyphen c = false end;
}.

Lemma filter_chars s : Forall (λ c, name_char c = true) (List.filter name_char s).
Proof. apply list.Forall_forall. intros c Hc. apply list_elem_of_In, filter_In in Hc as [_ Hc]. exact Hc. Qed.

Lemma drop_end_prefix {A} (p : A → bool) l : ∃ z, l = drop_while_end p l ++ z.
Proof. destruct (drop_while_end_split p l) as (z & E & _). eauto. Qed.

Lemma normalised_normal text : normal (normalised text).
Proof.
  unfold normalised. set (s := List.filter name_char _). split.
  - apply drop_while_end_Forall, drop_while_Forall, filter_chars.
  - pose proof (drop_while_head is_hyphen s) as H. destruct (drop_while is_hyphen s) as [|c t]; [done|].
    destruct (drop_while_end_head is_hyphen c t H) as [l' ->]. exact H.
  - unfold drop_while_end. rewrite rev_involutive. apply drop_while_head.
Qed.

Lemma name_char_lower c : name_char c = true → lower_char c = c ∧ is_space c = false ∧ c ≠ "."%char.
Proof.
  set (p := λ n, negb (name_char (chr n)) ||
    (bool_decide (lower_char (chr n) = chr n) && negb (is_space (chr n)) && negb (bool_decide (chr n = "."%char)))).
  assert (p (code c) = true) as Hc by (apply (range_check p 256); [by vm_compute|apply code_range]).
  unfold p in Hc. rewrite chr_code in Hc. intros H. rewrite H in Hc. cbn [negb orb] in Hc.
  rewrite !andb_true_iff, !negb_true_iff, bool_decide_eq_true, bool_decide_eq_false in Hc. by destruct Hc as [[? ?] ?].
Qed.

Lemma name_chars_id l :
  Forall (λ c, name_char c = true) l → trim (toLowerCase l) = l ∧ without_sov l = l ∧ List.filter name_char l = l.
Proof.
  intros H. split; [|split].
  - replace (toLowerCase l) with l.
    + apply trim_no_space. eapply list.Forall_impl; [exact H|]. intros c ?. by apply name_char_lower.
    + induction H as [|c l Hc _ IH]; [done|]. simpl. f_equal; [symmetry; by apply name_char_lower|exact IH].
  - unfold without_sov. destruct (endsWith (js ".sov") l) eqn:E; [|done]. apply endsWith_spec in E as [t ->].
    apply Forall_app in H as [_ H]. apply list.Forall_cons in H as [H _]. by apply name_char_lower in H as (_ & _ & ?).
  - apply forallb_filter_id. apply forallb_forall. intros c Hin. rewrite list.Forall_forall in H. by apply H, list_elem_of_In.
Qed.

(** a normal name stays as it is when it is typed again *)
Lemma normalised_id d : normal d → normalised d = d.
Proof.
  intros [Hc Hf Hl]. unfold normalised.
  destruct (name_chars_id _ Hc) as (-> & -> & ->).
  by rewrite drop_while_id, drop_while_end_id.
Qed.

(** what is on the screen when a name is typed one character after the other *)
Definition type_char (d : jstr) (c : ascii) : jstr := normalised (d ++ [c]).

Lemma Forall_slice {A} (P : A → Prop) a b (l : list A) : Forall P l → Forall P (slice a b l).
Proof. intros H. unfold slice. by apply Forall_take, Forall_drop. Qed.

Lemma Forall_filter {A} (P : A → Prop) p (l : list A) : Forall P l → Forall P (List.filter p l).
Proof. induction 1 as [|x l Hx _ IH]; simpl; [done|]. destruct (p x); [by constructor|done]. Qed.

Lemma normalised_Forall (P : ascii → Prop) text : Forall P (toLowerCase text) → Forall P (normalised text).
Proof.
  intros H. unfold normalised. apply drop_while_end_Forall, drop_while_Forall, Forall_filter.
  assert (Forall P (trim (toLowerCase text))) by (by apply drop_while_end_Forall, drop_while_Forall).
  unfold without_sov. destruct (endsWith _ _); [by apply Forall_slice|done].
Qed.

Lemma lower_hyphen c : lower_char c = hyphen → c = hyphen.
Proof.
  set (p := λ n, negb (bool_decide (lower_char (chr n) = hyphen)) || bool_decide (chr n = hyphen)).
  assert (p (code c) = true) as Hc by (apply (range_check p 256); [by vm_compute|apply code_range]).
  unfold p in Hc. rewrite chr_code in Hc. intros H. rewrite (bool_decide_eq_true_2 _ H) in Hc. by apply bool_decide_eq_true in Hc.
Qed.

(** a hyphen at the end is taken away *)
Lemma hyphen_dropped d : normal d → normalised (d ++ [hyphen]) = d.
Proof.
  intros Hd. pose proof Hd as [Hc Hf Hl]. rewrite <-(normalised_id d Hd) at 2. unfold normalised.
  assert (Forall (λ c, name_char c = true) (d ++ [hyphen])) as Hc' by (apply Forall_app; split; [done|by repeat constructor]).
  destruct (name_chars_id _ Hc) as (-> & -> & ->), (name_chars_id _ Hc') as (-> & -> & ->).
  rewrite (drop_while_id _ d Hf), (drop_while_end_id _ d Hl). destruct d as [|c d]; [done|].
  rewrite drop_while_id by exact Hf. unfold drop_while_end. rewrite rev_app_distr. cbn [rev app drop_while].
  replace (is_hyphen hyphen) with true by done. change (rev d ++ [c]) with (rev (c :: d)). by rewrite drop_while_id, rev_involutive.
Qed.

(** The comment allows hyphens, but the one that has just been typed is the last
    character and is taken away: no name with a hyphen can be typed. *)
Fact hyphen_cannot_be_typed s : hyphen ∉ fold_left type_char s [].
Proof.
  assert (∀ s d, normal d → hyphen ∉ d → hyphen ∉ fold_left type_char s d) as H.
  2: { apply H; [|apply not_elem_of_nil]. split; [constructor|done|done]. }
  clear s. induction s as [|c s IH]; intros d Hd Hn; [done|]. cbn [fold_left]. apply IH; [apply normalised_normal|].
  unfold type_char. destruct (decide (c = hyphen)) as [->|Hc]; [by rewrite hyphen_dropped|].
  intros Hin. assert (Forall (λ x, x ≠ hyphen) (normalised (d ++ [c]))) as Ha.
  { apply normalised_Forall. unfold toLowerCase. rewrite map_app. apply Forall_app. split.
    - apply list.Forall_forall. intros x (y & -> & Hy)%list_elem_of_fmap E%lower_hyphen. by subst.
    - constructor; [|constructor]. by intros E%lower_hyphen. }
  rewrite list.Forall_forall in Ha. by apply (Ha hyphen Hin).
Qed.

(** ** The requests of a registration *)

Definition name_ok (s : screen) : Prop := normal (domain (view s)).

Section Laws.
Context (nativeModule : option (jstr → bool)).

Lemma normal_nil : normal [].
Proof. split; [constructor|done|done]. Qed.

Lemma keeps_check name : keeps name_ok (checkDomainAvailability name).
Proof. unfold checkDomainAvailability, set. keeps_through; done. Qed.
Lemma keeps_ensure v b : keeps name_ok (ensureIdentityAvailable v b).
Proof. unfold ensureIdentityAvailable, set. keeps_through; done. Qed.
Lemma keeps_register v w : keeps name_ok (register nativeModule v w).
Proof.
  unfold register, after_registration, storeDomain, iso, or_syntax_error, set.
  assert (∀ d, keeps name_ok (domain_key d)) as Hk by (intros d; unfold domain_key, dot; keeps_through).
  assert (∀ k l, keeps name_ok (filter_out k l)) as Hf.
  { intros k l. induction l as [|d l IH]; cbn [filter_out]; keeps_through; [apply Hk|exact IH]. }
  keeps_through; lazymatch goal with
  | |- keeps _ (domain_key _) => apply Hk | |- keeps _ (filter_out _ _) => apply Hf
  | |- name_ok _ → _ => first [done|intros _; apply normal_nil] end.
Qed.

Lemma keeps_registration_handler a : keeps name_ok (handler nativeModule a).
Proof.
  destruct a as [v text|v|t|value|v b|v b w|did]; cbn [handler].
  - unfold handleDomainChange, when_timer, clearTimeout, schedule, set. keeps_through; try done. intros _. apply normalised_normal.
  - unfold handleDomainBlur, when_timer, clearTimeout. keeps_through; try done. apply keeps_check.
  - unfold fire, clearTimeout. keeps_through; try done. apply keeps_check.
  - unfold chooseYears, set. keeps_through. done.
  - keeps_through. apply keeps_ensure.
  - unfold handleRegister, validateForm, set. keeps_through; try done; [apply keeps_ensure|apply keeps_register].
  - unfold set. keeps_through. done.
Qed.

(** the key an entry is compared by, when it can be read *)
Definition key_of (d : json) : option jstr := match jget (js "domain") d with Some (JStr s) => Some (toLowerCase s) | _ => None end.

Lemma domain_key_trace d tr r :
  trace obs (domain_key d) tr r → tr = [] ∧ ((∃ e, r = inl e) ∨ r = inr (key_of d)).
Proof.
  unfold domain_key, key_of, mbind, outside_bind.
  intros [(e & H & ->)|(v & t1 & t2 & -> & Hv & H)]%trace_bind; [apply trace_dot in H as [-> _]; eauto|].
  apply trace_dot in Hv as [-> [[_ ?]|[_ [= ->]]]]; [done|].
  destruct (jget (js "domain") d) as [[]|]; untrace H; split; eauto.
Qed.

Definition others (k : option jstr) (l : list json) : list json := List.filter (λ d, negb (bool_decide (key_of d = k))) l.

Lemma filter_out_trace k l tr r :
  trace obs (filter_out k l) tr r → tr = [] ∧ ((∃ e, r = inl e) ∨ r = inr (others k l)).
Proof.
  revert tr r. induction l as [|d l IH]; intros tr r H; cbn [filter_out] in H.
  { apply trace_ret in H as [-> ->]. auto. }
  unfold mbind, outside_bind in H. apply trace_bind in H as [(e & H & ->)|(k' & t1 & t2 & -> & Hk & H)].
  { apply domain_key_trace in H as [-> _]. eauto. }
  apply domain_key_trace in Hk as [-> [[e ?]|[= ->]]]; [done|].
  apply trace_bind in H as [(e & H & ->)|(rest & t3 & t4 & -> & Hr & H)].
  { apply IH in H as [-> _]. eauto. }
  apply IH in Hr as [-> [[e ?]|[= ->]]]; [done|]. apply trace_ret in H as [-> ->]. split; [done|]. right.
  unfold others. cbn [List.filter]. by destruct (bool_decide _).
Qed.

(** the entries that were stored *)
Definition stored_entries (o : option jstr) : option (list json) :=
  match o with
  | Some s => if truthy s then match json_parse s with Some (JArr l) => Some l | _ => None end else Some []
  | None => Some []
  end.

(** the entry is added to the others, and replaces one of the same name *)
Definition noted (new : json) (tr : list event) : Prop :=
  (∃ a, tr = [Ev (getItem REGISTERED_DOMAINS_KEY) a]) ∨
  ∃ o l b, stored_entries o = Some l ∧
    tr = [Ev (getItem REGISTERED_DOMAINS_KEY) (inr o);
          Ev (setItem REGISTERED_DOMAINS_KEY (stringify (JArr (others (key_of new) l ++ [new])))) b].

Lemma store_trace new tr r : trace obs (storeDomain new) tr r → noted new tr.
Proof.
  unfold storeDomain, mbind, outside_bind. intros [(e & H & ->)|(o & t1 & t2 & -> & Ho & H)]%trace_bind.
  { apply trace_call in H as ->. left. by eexists. }
  apply trace_call in Ho as ->.
  assert (∀ t, t = [] → noted new (obs _ (getItem REGISTERED_DOMAINS_KEY) (inr o) ++ t)) as Hread by (intros t ->; left; by eexists).
  apply trace_bind in H as [(e & H & ->)|(v & t3 & t4 & -> & Hv & H)].
  { apply Hread. eapply silent; [|exact H]. emits_through. }
  assert (t3 = [] ∧ ∀ l, v = JArr l → stored_entries o = Some l) as [-> Hl].
  { unfold stored_entries. destruct o as [s|]; [destruct (truthy s)|]; try (apply trace_ret in Hv as [-> [= ->]]; split; [done|]; by intros l [= <-]).
    destruct (json_parse s) as [w|]; [|by apply trace_throw in Hv as [_ ?]].
    apply trace_ret in Hv as [-> [= ->]]. split; [done|]. by intros l ->. }
  destruct v as [| | | | |l|]; try (apply trace_throw in H as [-> _]; by apply Hread). specialize (Hl l eq_refl).
  apply trace_bind in H as [(e & H & ->)|(k & t5 & t6 & -> & Hk & H)]; [apply domain_key_trace in H as [-> _]; by apply Hread|].
  apply domain_key_trace in Hk as [-> [[e ?]|[= ->]]]; [done|].
  apply trace_bind in H as [(e & H & ->)|(d & t7 & t8 & -> & Hd & H)]; [apply filter_out_trace in H as [-> _]; by apply Hread|].
  apply filter_out_trace in Hd as [-> [[e ?]|[= ->]]]; [done|]. apply trace_call in H as ->. right. by exists o, l, r.
Qed.

(** the entries that have a name that can be compared, or none *)
Definition readable (d : json) : bool :=
  match d with
  | JNull => false
  | _ => match jget (js "domain") d with None | Some JNull | Some (JStr _) => true | Some _ => false end
  end.

Lemma domain_key_exact d tr r :
  trace obs (domain_key d) tr r → tr = [] ∧ if readable d then r = inr (key_of d) else ∃ e, r = inl e.
Proof.
  unfold domain_key, key_of, mbind, outside_bind.
  intros [(e & H & ->)|(v & t1 & t2 & -> & Hv & H)]%trace_bind.
  { apply trace_dot in H as [-> [[-> _]|[_ ?]]]; [|done]. split; [done|by eexists]. }
  apply trace_dot in Hv as [-> [[_ ?]|[Hn [= ->]]]]; [done|]. unfold readable.
  destruct (jget (js "domain") d) as [[]|] eqn:E; untrace H; (split; [done|]); destruct d; try done; by eexists.
Qed.

Lemma filter_out_exact k l tr r :
  trace obs (filter_out k l) tr r → tr = [] ∧ if forallb readable l then r = inr (others k l) else ∃ e, r = inl e.
Proof.
  revert tr r. induction l as [|d l IH]; intros tr r H; cbn [filter_out] in H.
  { by apply trace_ret in H as [-> ->]. }
  unfold mbind, outside_bind in H. cbn [forallb].
  apply trace_bind in H as [(e & H & ->)|(k' & t1 & t2 & -> & Hk & H)].
  { apply domain_key_exact in H as [-> H]. destruct (readable d); [done|]. split; [done|by eexists]. }
  apply domain_key_exact in Hk as [-> Hk]. destruct (readable d); [|by destruct Hk]. injection Hk as ->. cbn [andb].
  apply trace_bind in H as [(e & H & ->)|(rest & t3 & t4 & -> & Hr & H)].
  { apply IH in H as [-> H]. destruct (forallb readable l); [done|]. split; [done|by eexists]. }
  apply IH in Hr as [-> Hr]. destruct (forallb readable l); [|by destruct Hr]. injection Hr as ->.
  apply trace_ret in H as [-> ->]. split; [done|]. unfold others. cbn [List.filter]. by destruct (bool_decide _).
Qed.

(** the entries are read, and written with the new one in the place of those of
    its name; nothing is written when they cannot be read or compared *)
Definition stored_once (new : json) (tr : list event) : Prop :=
  ∃ a, let read := Ev (getItem REGISTERED_DOMAINS_KEY) a in
  match a with
  | inl _ => tr = [read]
  | inr o =>
      match stored_entries o with
      | Some l =>
          if forallb readable l
          then ∃ b, tr = [read; Ev (setItem REGISTERED_DOMAINS_KEY (stringify (JArr (others (key_of new) l ++ [new])))) b]
          else tr = [read]
      | None => tr = [read]
      end
  end.

Lemma store_exact new tr r : readable new = true → trace obs (storeDomain new) tr r → stored_once new tr.
Proof.
  intros Hn. unfold storeDomain, mbind, outside_bind. intros [(e & H & ->)|(o & t1 & t2 & -> & Ho & H)]%trace_bind.
  { apply trace_call in H as ->. by exists (inl e). }
  apply trace_call in Ho as ->. exists (inr o). cbv zeta.
  assert (∀ v t3, trace obs (match o return prog json with
      | Some s => if truthy s then or_syntax_error (json_parse s) else ret (JArr [])
      | None => ret (JArr []) end) t3 v → t3 = [] ∧
    match stored_entries o with Some l => v = inr (JArr l) | None => ∀ l, v ≠ inr (JArr l) end) as Hv.
  { intros v t3. unfold stored_entries. destruct o as [s|]; [destruct (truthy s)|]; try by intros [-> ->].
    destruct (json_parse s) as [w|]; [|intros [-> ->]; by split]. intros [-> ->]. by destruct w. }
  apply trace_bind in H as [(e & H & ->)|(v & t3 & t4 & -> & Hs & H)].
  { apply Hv in H as [-> H]. by destruct (stored_entries o). }
  apply Hv in Hs as [-> Hs]. destruct (stored_entries o) as [l|].
  2: { destruct v; try (by apply trace_throw in H as [-> _]). by specialize (Hs l). }
  injection Hs as ->. cbn [app].
  apply trace_bind in H as [(e & H & ->)|(k & t5 & t6 & -> & Hk & H)]; [apply domain_key_exact in H as [_ H]; by rewrite Hn in H|].
  apply domain_key_exact in Hk as [-> Hk]. rewrite Hn in Hk. injection Hk as ->.
  apply trace_bind in H as [(e & H & ->)|(d & t7 & t8 & -> & Hd & H)].
  - apply filter_out_exact in H as [-> H]. by destruct (forallb readable l).
  - apply filter_out_exact in Hd as [-> Hd]. destruct (forallb readable l); [|by destruct Hd]. injection Hd as ->.
    apply trace_call in H as ->. by eexists.
Qed.

Lemma key_of_entry response expires tx registered :
  key_of (entry_of response expires tx registered) = toLowerCase <$> str_field (js "domain") response.
Proof.
  unfold key_of, entry_of. destruct (str_field (js "domain") response) as [s|]; [done|].
  by destruct (str_field (js "owner") response).
Qed.

(** the entry of a name that was registered at the second [n], when both dates exist *)
Definition dated (response : json) (n : Z) (tr : list event) : Prop :=
  let expires := n + 365 * 86400 in
  if (Z.abs (expires * 1000) <=? 8640000000000000) && (Z.abs (n * 1000) <=? 8640000000000000)
  then stored_once
    (JObj (opt_prop (js "domain") (JStr <$> str_field (js "domain") response) ++
           opt_prop (js "owner") (JStr <$> str_field (js "owner") response) ++
           [(js "expires_at", JStr (Backup.toISOString (expires * 1000)));
            (js "tx_hash", JStr (Balances.text (js "blockchain_transaction") response));
            (js "registered_at", JStr (Backup.toISOString (n * 1000)))])) tr
  else tr = [].
(** what follows an answer: the clock, when the answer has no time, and the entry *)
Definition kept (response : json) (tr : list event) : Prop :=
  match jget (js "registered_at") response with
  | Some (JNum n) => dated response n tr
  | _ => ∃ a rest, tr = Ev Date_now a :: rest ∧
           match a with inl _ => rest = [] | inr now => dated response (now / 1000) rest end
  end.

Lemma shown_trace tr r :
  trace obs (set (setStatus (Some true) registered_text);;
    set (setDomain []);; set (setYears (js "1"));; set (setErrors None None);; void (await (ret tt);; set onClose)) tr r →
  tr = [].
Proof. unfold set. intros H. do 4 (apply trace_after_modify in H). by destruct H as (n & -> & _). Qed.

Lemma entry_readable response expires tx registered : readable (entry_of response expires tx registered) = true.
Proof.
  unfold readable, entry_of. destruct (str_field (js "domain") response); [done|]. by destruct (str_field (js "owner") response).
Qed.

Lemma iso_exact n tr r :
  trace obs (iso n) tr r →
  tr = [] ∧ if Z.abs (n * 1000) <=? 8640000000000000 then r = inr (Backup.toISOString (n * 1000)) else ∃ e, r = inl e.
Proof.
  unfold iso. rewrite Z.ltb_antisym. destruct (Z.abs (n * 1000) <=? _); cbn [negb]; intros [-> ->]; [done|]. split; [done|by eexists].
Qed.

Lemma dated_trace response n tr r :
  trace obs
    (expiresAtIso ← iso (n + DOMAIN_REGISTRATION_DURATION_SECS);
     registeredIso ← iso n;
     storeDomain (entry_of response expiresAtIso (Balances.text (js "blockchain_transaction") response) registeredIso);;
     set (setStatus (Some true) registered_text);;
     set (setDomain []);; set (setYears (js "1"));; set (setErrors None None);;
     void (await (ret tt);; set onClose)) tr r → dated response n tr.
Proof.
  unfold dated, mbind, outside_bind. cbv zeta. change (365 * 86400) with DOMAIN_REGISTRATION_DURATION_SECS. intros H.
  apply trace_bind in H as [(e & H & ->)|(expires & t1 & t2 & -> & He & H)].
  { apply iso_exact in H as [-> H]. by destruct (_ <=? _). }
  apply iso_exact in He as [-> He]. destruct (Z.abs ((n + _) * 1000) <=? _); [|by destruct He]. injection He as ->. cbn [andb app].
  apply trace_bind in H as [(e & H & ->)|(registered & t3 & t4 & -> & He & H)].
  { apply iso_exact in H as [-> H]. by destruct (_ <=? _). }
  apply iso_exact in He as [-> He]. destruct (Z.abs (n * 1000) <=? _); [|by destruct He]. injection He as ->. cbn [app].
  apply trace_bind in H as [(e & H & ->)|([] & t5 & t6 & -> & Hs & H)].
  - eapply store_exact; [|exact H]. apply entry_readable.
  - apply shown_trace in H as ->. rewrite app_nil_r. eapply store_exact; [|exact Hs]. apply entry_readable.
Qed.

Lemma after_trace response tr r : trace obs (after_registration response) tr r → kept response tr.
Proof.
  unfold after_registration, kept, mbind, outside_bind. cbn [option_bind].
  intros [(e & H & ->)|(secs & clock & t & -> & Hc & H)]%trace_bind.
  - destruct (jget (js "registered_at") response) as [[]|]; try (by apply trace_ret in H as [_ ?]);
      (apply trace_bind in H as [(e' & H & _)|(now & t1 & t2 & -> & H & H2)];
        [apply trace_call in H as ->; by exists (inl e'), []|by apply trace_ret in H2 as [_ ?]]).
  - assert (∀ now t1 t2 r, clock = t1 ++ t2 → trace obs (S := screen) (call Date_now) t1 (inr now) → trace obs (S := screen) (E := error) (ret (now / 1000)) t2 r → r = inr secs →
      ∃ a rest, clock ++ t = Ev Date_now a :: rest ∧ match a with inl _ => rest = [] | inr now => dated response (now / 1000) rest end) as Hnow.
    { intros now t1 t2 r' -> ->%trace_call [-> ->]%trace_ret [= <-]. exists (inr now), t. split; [done|]. by eapply dated_trace. }
    destruct (jget (js "registered_at") response) as [[]|];
      try (apply trace_ret in Hc as [-> [= ->]]; by eapply dated_trace);
      (apply trace_bind in Hc as [(e' & _ & ?)|(now & t1 & t2 & -> & Hc & H2)]; [done|by eapply Hnow]).
Qed.

(** a registration of the name for the wallet, and what is kept of its answer *)
Definition registers (v : form) (wallet : jstr) (tr : list event) : Prop :=
  ∃ tr1 r1 tr2, tr = tr1 ++ tr2 ∧ trace obs (Domains.registerDomain nativeModule
      (Domains.mkRegister (domain v ++ js ".sov") (Some wallet) None (Some (content_mappings (domain v ++ js ".sov"))))) tr1 r1 ∧
    match r1 with inl _ => tr2 = [] | inr response => kept response tr2 end.

Lemma register_trace v wallet tr r : trace obs (register nativeModule v wallet) tr r → r = inr tt ∧ registers v wallet tr.
Proof.
  unfold register, mbind, outside_bind, set. intros H. do 2 (apply trace_after_modify in H). split.
  { apply trace_bindR in H as (r1 & tr1 & tr2 & _ & H & H2). apply trace_bindR in H2 as (r2 & tr3 & tr4 & _ & H2 & H3).
    apply trace_modify in H2 as [_ ->]. destruct H3 as [_ ->].
    apply trace_try_catch in H as [([] & -> & _)|(e & t1 & t2 & _ & _ & H)]; [done|by apply trace_modify in H as [_ ->]]. }
  apply trace_finally_set in H.
  assert (∃ r', trace obs (bind (lift cachedTokens setCachedTokens (Domains.registerDomain nativeModule (request v wallet))) after_registration) tr r') as [r' H'].
  { apply trace_try_catch in H as [([] & _ & H)|(e & t1 & t2 & -> & H & H2)]; [|apply trace_modify in H2 as [-> _]; rewrite app_nil_r];
      apply trace_after_modify in H; eauto. }
  apply trace_bind in H' as [(e & H' & ->)|(response & t1 & t2 & -> & H1 & H2)].
  - apply trace_lift in H'. exists tr, (inl e), []. by rewrite app_nil_r.
  - apply trace_lift in H1. exists t1, (inr response), t2. split; [done|]. split; [done|]. by eapply after_trace.
Qed.

(** the identity is read when there is none *)
Definition identity_read (tr : list event) : Prop := tr = [] ∨ ∃ r, trace obs AuthContext.loadIdentityOnDemand tr r.

Lemma ensure_trace v b tr r :
  trace obs (ensureIdentityAvailable v b) tr r → (∃ did, r = inr did) ∧ identity_read tr.
Proof.
  unfold ensureIdentityAvailable. destruct (_ || _); [intros [-> ->]%trace_ret; split; [eauto|by left]|].
  unfold mbind, outside_bind, set. intros H. apply trace_after_modify in H.
  apply trace_bindR in H as (r1 & tr1 & tr2 & -> & H & H2). apply trace_bindR in H2 as (r2 & tr3 & tr4 & -> & H2 & H3).
  apply trace_modify in H2 as [-> ->]. destruct H3 as [-> ->]. rewrite !app_nil_r.
  assert (∀ (f : screen → screen) (o : option jstr) tr r, trace obs (bind (modify f) (λ _, ret o)) tr r → tr = [] ∧ r = inr o) as Hset.
  { intros f o tr r H'. apply trace_after_modify in H'. by apply trace_ret in H'. }
  apply trace_try_catch in H as [(did & -> & H)|(e & t1 & t2 & -> & H & H2)].
  - split; [eauto|]. right.
    apply trace_bind in H as [(e & _ & ?)|(identity & t1 & t2 & -> & H1 & H2)]; [done|]. rewrite trace_await in H1. apply trace_lift in H1.
    assert (t2 = []) as ->; [|rewrite app_nil_r; eauto].
    destruct (jget _ _) as [[| | | |s| |]|]; try (by apply Hset in H2 as [-> _]). destruct (truthy s); by apply Hset in H2 as [-> _].
  - apply Hset in H2 as [-> ->]. rewrite app_nil_r. split; [eauto|]. right.
    apply trace_bind in H as [(e' & H & _)|(identity & t2 & t3 & -> & H1 & H2)].
    + rewrite trace_await in H. apply trace_lift in H. eauto.
    + destruct (jget _ _) as [[| | | |s| |]|]; try (by apply Hset in H2 as [_ ?]). destruct (truthy s); by apply Hset in H2 as [_ ?].
Qed.


(** the rules for the name, with its suffix, and for the duration *)
Definition accepted (v : form) : bool :=
  truthy (trim (domain v)) && DomainValidation.dv_valid (DomainValidation.validateDomainFormat (domain v ++ js ".sov")) &&
  DomainValidation.dur_valid (DomainValidation.validateDomainDuration (inl (DomainValidation.parseInt10 (years v)))).

Lemma validate_trace v tr r : trace obs (validateForm v) tr r → tr = [] ∧ r = inr (accepted v).
Proof.
  unfold validateForm, set, mbind, outside_bind. intros H. apply trace_after_modify in H. apply trace_ret in H as [-> ->].
  split; [done|]. f_equal. unfold accepted, domain_error, years_error. fold (full_name (domain v)).
  destruct (truthy (trim (domain v))); cbn [negb andb]; [|done]. cbv zeta.
  destruct (DomainValidation.dv_valid _); [|done]. cbn [andb]. by destruct (DomainValidation.dur_valid _).
Qed.

(** what the button asks for *)
Definition asked (v : form) (primary : option Balances.WalletDisplay) (tr : list event) : Prop :=
  if accepted v
  then ∃ ownerDid tr1 tr2, tr = tr1 ++ tr2 ∧
    match resolvedIdentityDid v with Some did => ownerDid = Some did ∧ tr1 = [] | None => identity_read tr1 end ∧
    match primary with
    | Some p =>
        if truthy (default [] ownerDid) && negb (bool_decide (available v = Some false)) && truthy (Balances.id p) &&
           negb (Doubles.gt (Doubles.of_Z 100) (Balances.total_balance p))
        then registers v (Balances.id p) tr2 else tr2 = []
    | None => tr2 = []
    end
  else tr = [].

Lemma handle_trace v b wallets tr r :
  trace obs (handleRegister nativeModule v b wallets) tr r → r = inr tt ∧ asked v (primaryWallet wallets) tr.
Proof.
  unfold handleRegister, asked, mbind, outside_bind.
  intros [(e & H & ->)|(ok & t1 & t2 & -> & Hv & H)]%trace_bind; [by apply validate_trace in H as [_ ?]|].
  apply validate_trace in Hv as [-> [= ->]]. destruct (accepted v); cbn [negb] in H; [|by apply trace_ret in H as [-> ->]].
  apply trace_bind in H as [(e & H & ->)|(did & tr1 & tr2 & -> & Hi & H)].
  { destruct (resolvedIdentityDid v); [by apply trace_ret in H as [_ ?]|by apply ensure_trace in H as [[? ?] _]]. }
  assert (match resolvedIdentityDid v with Some d => did = Some d ∧ tr1 = [] | None => identity_read tr1 end) as Hr.
  { destruct (resolvedIdentityDid v); [apply trace_ret in Hi as [-> [= ->]]; done|by apply ensure_trace in Hi as [_ Hi]]. }
  cbn [app]. enough (r = inr tt ∧ match primaryWallet wallets with
    | Some p => if truthy (default [] did) && negb (bool_decide (available v = Some false)) && truthy (Balances.id p) &&
           negb (Doubles.gt (Doubles.of_Z 100) (Balances.total_balance p)) then registers v (Balances.id p) tr2 else tr2 = []
    | None => tr2 = [] end) as [Hx Hy] by (split; [exact Hx|]; exists did, tr1, tr2; exact (conj eq_refl (conj Hr Hy))).
  destruct (truthy (default [] did)); cbn [negb andb] in *.
  2: { apply trace_modify in H as [-> ->]. by destruct (primaryWallet wallets). }
  case_bool_decide; cbn [negb andb] in *; [apply trace_modify in H as [-> ->]; by destruct (primaryWallet wallets)|].
  destruct (primaryWallet wallets) as [p|]; [|by apply trace_modify in H as [-> ->]].
  destruct (truthy (Balances.id p)); cbn [negb andb] in *; [|by apply trace_modify in H as [-> ->]].
  change DOMAIN_REGISTRATION_FEE_SOV with 100 in H.
  destruct (Doubles.gt _ _); cbn [negb] in *; [by apply trace_modify in H as [-> ->]|by apply register_trace in H].
Qed.

(** the wallet under "primary" is one of the list, of that type *)
Lemma primary_listed data identity p :
  primaryWallet (Balances.walletData data identity) = Some p →
  p ∈ Balances.wallets (Balances.walletData data identity) ∧ toLowerCase (Balances.wallet_type p) = js "primary".
Proof.
  unfold primaryWallet, Balances.walletData. cbn [Balances.walletByType Balances.wallets]. set (l := map _ _). clearbody l.
  assert (∀ l m, mget (js "primary") (fold_left (λ acc w, mset (toLowerCase (Balances.wallet_type w)) w acc) l m) = Some p →
    mget (js "primary") m = Some p ∨ p ∈ l ∧ toLowerCase (Balances.wallet_type p) = js "primary") as H.
  { clear l. induction l as [|w l IH]; intros m; [by left|]. cbn [fold_left]. intros [H|[H1 H2]]%IH; [|right; split; [by right|done]].
    rewrite mget_set in H. destruct (decide _) as [E|E]; [|by left]. injection H as ->. right. split; [by left|done]. }
  intros [H'|H']%H; [done|exact H'].
Qed.

(** *** The check *)

(** the node knows the name or it does not; no answer tells neither *)
Definition node_says (a : error + json) : option bool :=
  match a with inl _ | inr JNull => None | inr data => Some (negb (otruthy (jget (js "found") data))) end.

Lemma check_alone {D} (ans : ∀ R : Set, req R → D → (error + R) * D) name s d :
  truthy (trim name) = true →
  let x := ans json (quicRequest (js "/api/v1/web4/domains/status/" ++ name) Quic.no_options) d in
  ∃ s', solo ans (checkDomainAvailability name) s d = Some (inr tt, s', x.2) ∧
    available (view s') = node_says x.1 ∧ domain (view s') = domain (view s) ∧ checking (view s') = false.
Proof.
  intros Ht x. unfold checkDomainAvailability. rewrite Ht. cbn [negb].
  unfold set, Domains.checkAvailability, mbind, outside_bind, Domains.status_path in *.
  unfold bind, modify, try_catch, call, ret. cbn [bindR lift solo]. fold x. destruct x as [[e|data] d'].
  - cbn. by eexists.
  - destruct data; cbn; (eexists; split; [reflexivity|]); split; done.
Qed.

End Laws.


(** ** Runs *)

Definition demo_handler := handler (Some (λ _, true)).
Definition demo_events (e : action) := bind (demo_handler e) (λ _, ret ([] : jstr)).
Definition demo_open : world screen error req :=
  mkWorld (mkScreen (opened (Some (js "did:zhtp:ann"))) [] 0 AuthContext.initial Domains.sov) 0 [].
(** the user does [a] with what the screen shows *)
Definition does (a : form → action) (w : world screen error req) : world screen error req :=
  launch (demo_events (a (view (ws w)))) w.

(** the node knows only a.sov *)
Definition demo_answer (R : Set) (c : req R) : error + R :=
  match c in req R return error + R with
  | quicRequest path _ => inr (JObj [(js "found", JBool (bool_decide (path = Domains.status_path (js "a.sov"))))])
  | _ => inl no_answer
  end.
Definition answer_number (i : nat) (w : world screen error req) : world screen error req := resume demo_answer i w.

(** The answer about the name that was typed first comes last, and the button is
    refused for the name that is shown, which the node had said is free. *)
Definition demo_race : world screen error req :=
  answer_number 1 (answer_number 3 (does Blur (does (λ v, Change v (js "b"))
    (does (λ _, Fire 0) (does (λ v, Change v (js "a")) demo_open))))).

(** The answer about a.sov, that it is free, comes after the one about b.sov, that it
    is taken: the button registers b.sov. *)
Definition demo_answer_b (R : Set) (c : req R) : error + R :=
  match c in req R return error + R with
  | quicRequest path _ => inr (JObj [(js "found", JBool (bool_decide (path = Domains.status_path (js "b.sov"))))])
  | _ => inl no_answer
  end.
Definition demo_race_b : world screen error req :=
  resume demo_answer_b 1 (resume demo_answer_b 3 (does Blur (does (λ v, Change v (js "b"))
    (does (λ _, Fire 0) (does (λ v, Change v (js "a")) demo_open))))).

Definition demo_steps := rtc (Async.step demo_events (λ x y, ∃ a, y = put_provider a x) (λ _ _ _, True)).
Lemma does_steps a w : demo_steps w (does a w).
Proof. apply (launch_step demo_events). Qed.
Lemma answered_steps i w : demo_steps w (answer_number i w).
Proof. by apply resume_steps. Qed.

Fact late_answer_refuses :
  demo_steps demo_open demo_race ∧ domain (view (ws demo_race)) = js "b" ∧ available (view (ws demo_race)) = Some false ∧
  demo_answer _ (quicRequest (Domains.status_path (js "b.sov")) Quic.no_options) = inr (JObj [(js "found", JBool false)]).
Proof.
  split; [|by vm_compute]. unfold demo_race. do 4 (etrans; [|apply answered_steps || apply does_steps]).
  etrans; apply does_steps.
Qed.

Fact late_answer_registers :
  demo_steps demo_open demo_race_b ∧ domain (view (ws demo_race_b)) = js "b" ∧ accepted (view (ws demo_race_b)) = true ∧
  available (view (ws demo_race_b)) = Some true ∧
  node_says (demo_answer_b _ (quicRequest (Domains.status_path (js "b.sov")) Quic.no_options)) = Some false.
Proof.
  split; [|by vm_compute]. unfold demo_race_b. do 4 (etrans; [|(by apply resume_steps) || apply does_steps]).
  etrans; apply does_steps.
Qed.

(** the node and the native module take every registration; [stored] are the entries *)
Definition demo_phone (stored : jstr) : phone :=
  mkPhone None
    (λ _ _, inr (JObj [(js "fee_payment_tx_hex", JStr (js "fe")); (js "request_json", JStr Domains.a_text)]))
    (λ path, inr (JObj [(js "domain", JStr (js "a.sov")); (js "owner", JStr (js "did:zhtp:ann"));
                        (js "nonce", JNum 7); (js "registered_at", JNum 1700000000)]))
    (λ _, inl no_answer) (mkContents ∅ ∅ {[ REGISTERED_DOMAINS_KEY := stored ]}).
(** a primary wallet with 100 SOV in atoms *)
Definition demo_data : option json := Some (JObj [(js "wallets", JArr [
  JObj [(js "wallet_id", JStr Domains.a_wallet); (js "wallet_type", JStr (js "Primary"));
        (js "balance", JStr (js "100000000000000000000"))]])]).
Definition demo_wallets : Balances.WalletListData := Balances.walletData demo_data None.
Definition named : world screen error req := does (λ v, Change v (js "A.sov")) demo_open.
Abbreviation demo_register stored :=
  (solo phone_handle (handleRegister (Some (λ _, true)) (view (ws named)) false demo_wallets) (ws named) (demo_phone (js stored))).
Definition shown (x : option ((error + unit) * screen * phone)) : option (option bool * option jstr) :=
  (λ y, ((status (view y.1.2)).1, items (Outside.stored y.2) !! REGISTERED_DOMAINS_KEY)) <$> x.

Example demo_registered :
  shown (demo_register "[]") = Some (Some true, Some (stringify (JArr [
    entry_of (JObj [(js "domain", JStr (js "a.sov")); (js "owner", JStr (js "did:zhtp:ann"))])
      (js "2024-11-13T22:13:20.000Z") [] (js "2023-11-14T22:13:20.000Z")]))).
Proof. vm_compute. reflexivity. Qed.

(** When the entries on the device cannot be read, a registration that was paid for
    and taken is shown as failed. *)
Fact paid_registration_shown_as_failed : shown (demo_register "oops") = Some (Some false, Some (js "oops")).
Proof. vm_compute. reflexivity. Qed.

Lemma registration_ends : is_Some (demo_register "[]").
Proof. vm_compute. by eexists. Qed.
Lemma registration_traced :
  ∃ tr r, trace obs (handleRegister (Some (λ _, true)) (view (ws named)) false demo_wallets) tr r.
Proof. destruct registration_ends as [[[r s] p] E]. destruct (solo_trace phone_handle _ _ _ _ _ _ E) as [tr H]. exists tr, r. exact H. Qed.

