(* ===== verification/Chat.v ===== *)
(** * A conversation: src/src/screens/messaging/ChatScreen.tsx

    The rows of the list, the badges of a bubble, the label of a day, and the
    handlers over the service of Messaging.v.  The calendar of the device is an
    argument: [local_date] are the year, the month and the day of a time in
    milliseconds, [local_midnight] is the start of its day.  A handler closes over
    its rendering as in Send.v. *)

From stdpp Require Import strings.
From S2P Require Import Prelude JsString JsMap MsgStore Async Messaging.
#[local] Open Scope Z_scope.

(** ** Rows *)

Inductive ChatRow := DateRow (key : jstr) (ts : Z) | MsgRow (m : LocalMessage).

(** [keyExtractor] *)
Definition row_id (r : ChatRow) : jstr := match r with DateRow key _ => js "date-" ++ key | MsgRow m => id m end.

(** [a.timestamp - b.timestamp || a.sequence - b.sequence] *)
Definition chrono_cmp (a b : LocalMessage) : Z :=
  let d := timestamp a - timestamp b in if d =? 0 then sequence a - sequence b else d.
Definition chrono (messages : list LocalMessage) : list LocalMessage := js_sort chrono_cmp messages.

Section Calendar.
Context (local_date : Z → Z * Z * Z).

Definition dayKey (m : LocalMessage) : jstr :=
  let '(year, month, date) := local_date (timestamp m * 1000) in
  dec_str year ++ js "-" ++ dec_str month ++ js "-" ++ dec_str date.

(** the loop: [lastDay] is the key of the message before *)
Fixpoint with_days (lastDay : jstr) (l : list LocalMessage) : list ChatRow :=
  match l with
  | [] => []
  | m :: l =>
      let key := dayKey m in
      if bool_decide (key = lastDay) then MsgRow m :: with_days key l
      else DateRow key (timestamp m) :: MsgRow m :: with_days key l
  end.
Definition rows (messages : list LocalMessage) : list ChatRow := rev (with_days [] (chrono messages)).

(** the label of a day; a weekday and a date are written by the platform *)
Inductive DayLabel := Today | Yesterday | Weekday | LongDate (with_year : bool).
(** [Math.round(n / d)] *)
Definition round_ratio (n d : Z) : Z := (2 * n + d) / (2 * d).
Definition formatDateSeparator (local_midnight : Z → Z) (timestampSec now : Z) : DayLabel :=
  let d := timestampSec * 1000 in
  let diffDays := round_ratio (local_midnight now - local_midnight d) 86400000 in
  if diffDays <=? 0 then Today
  else if diffDays =? 1 then Yesterday
  else if diffDays <? 7 then Weekday
  else LongDate (negb (bool_decide ((local_date d).1.1 = (local_date now).1.1))).

(** ** Bubbles *)

(** the ticks and dots of a badge *)
Inductive Badge := NoBadge | NotSent | Sending | Tick | TwoTicks.
Definition statusBadge (m : LocalMessage) : Badge :=
  match direction m with
  | dir_received => NoBadge
  | dir_sent =>
      match MsgStore.status m with
      | failed => NotSent
      | pending => Sending
      | sent | delivered => Tick
      | read => TwoTicks
      end
  end.

Inductive BubbleView :=
| SystemNote
| Balloon (mine : bool) (text : jstr + MessageContentType) (badge : Badge) (canResend : bool).
Definition bubble (m : LocalMessage) : BubbleView :=
  match content_type m with
  | Undecryptable => SystemNote
  | t =>
      let isMe := bool_decide (direction m = dir_sent) in
      Balloon isMe (if bool_decide (t = Text) then inl (body m) else inr t) (statusBadge m)
        (isMe && bool_decide (MsgStore.status m = failed))
  end.

End Calendar.

(** ** Handlers *)

(** the screen; [alerts] are the titles and texts of the alerts, [service] is the
    state of the messaging service *)
Record chat := mkChat {
  input : jstr; sending : bool; reconnecting : bool; messages : list LocalMessage; contact : option Contact;
  alerts : list (jstr * jstr); gone_back : bool; service : msgr }.
Definition setInput x s := mkChat x (sending s) (reconnecting s) (messages s) (contact s) (alerts s) (gone_back s) (service s).
Definition setSending x s := mkChat (input s) x (reconnecting s) (messages s) (contact s) (alerts s) (gone_back s) (service s).
Definition setReconnecting x s := mkChat (input s) (sending s) x (messages s) (contact s) (alerts s) (gone_back s) (service s).
Definition setSnapshot ms c s := mkChat (input s) (sending s) (reconnecting s) ms c (alerts s) (gone_back s) (service s).
Definition alert (t m : jstr) s := mkChat (input s) (sending s) (reconnecting s) (messages s) (contact s) (alerts s ++ [(t, m)]) (gone_back s) (service s).
Definition goBack s := mkChat (input s) (sending s) (reconnecting s) (messages s) (contact s) (alerts s) true (service s).
Definition put_service x s := mkChat (input s) (sending s) (reconnecting s) (messages s) (contact s) (alerts s) (gone_back s) x.

Section Screen.
Context (did : Did).
#[local] Abbreviation screen := (task chat error req).
#[local] Instance screen_bind : MBind screen := λ A B f t, bind t f.
#[local] Instance screen_ret : MRet screen := λ A a, ret a.

Definition of_service {A} (t : prog A) : screen A := lift service put_service t.

(** the listener of the store, and the return to the foreground *)
Definition refresh (s : chat) : chat := setSnapshot (getMessages did (mstore (service s))) (getContact did (mstore (service s))) s.
Definition onStore : screen unit := modify refresh.
Definition onForeground (active : bool) : screen unit :=
  if active then modify refresh;; modify (λ s, put_service (upd_store (markRead did) (service s)) s) else ret tt.
Definition onMount : screen unit := modify (λ s, put_service (upd_store (markRead did) (service s)) s).

(** the desync is noticed when the conversation is opened *)
Definition onOpen : screen unit :=
  ok ← gets (λ s, conversationConnected did (service s));
  if (ok : bool) then ret tt
  else
    modify (setReconnecting true);;
    void (try_finally (try_catch (await (of_service (reconnectSession did))) (λ _, ret tt)) (modify (setReconnecting false))).

(** [shown] and [busy] are [input] and [sending] of the rendering *)
Definition onSend (shown : jstr) (busy : bool) : screen unit :=
  let text := trim shown in
  if negb (truthy text) || busy then ret tt
  else
    modify (setSending true);;
    modify (setInput []);;
    try_finally (await (of_service (sendTextMessageNative did text));; ret tt) (modify (setSending false)).

Definition handleResend (messageId : jstr) : screen unit :=
  void (try_catch (await (of_service (resendMessage did messageId))) (λ e, modify (alert (js "Resend failed") (err_message e)))).

(** the quotes and dashes of the texts are written in ASCII *)
Definition doReconnect (busy : bool) (peerName : jstr) : screen unit :=
  if busy then ret tt
  else
    modify (setReconnecting true);;
    try_finally
      (try_catch
         (await (of_service (reconnectSession did));;
          modify (alert (js "Handshake sent") (js "A fresh secure session was sent to " ++ peerName ++ js "." ++ ["010"%char; "010"%char] ++
            js "They must have the app open to receive it. New messages will decrypt once they reply - earlier undelivered messages can't be recovered.")))
         (λ e, modify (alert (js "Reconnect failed") (js "Could not send the handshake." ++ ["010"%char; "010"%char] ++ err_message e))))
      (modify (setReconnecting false)).

Definition doDelete : screen unit :=
  modify (λ s, put_service (deleteConversation did (service s)) s);; modify goBack.

End Screen.

(** * Properties *)

Section Rows.
Context (local_date : Z → Z * Z * Z).
#[local] Abbreviation dayKey := (dayKey local_date).
#[local] Abbreviation with_days := (with_days local_date).
#[local] Abbreviation rows := (rows local_date).

(** ** What the rows show *)

Definition message_of (r : ChatRow) : option LocalMessage := match r with MsgRow m => Some m | DateRow _ _ => None end.
Definition date_of (r : ChatRow) : option jstr := match r with DateRow key _ => Some key | MsgRow _ => None end.

(** the key of the day that the rows before a row stand under *)
Definition under (lastDay : jstr) (before : list ChatRow) : jstr :=
  List.last (omap date_of before) lastDay.

Lemma dayKey_nonempty m : dayKey m ≠ [].
Proof.
  unfold dayKey. destruct (local_date _) as [[y mo] d]. intros H. apply app_eq_nil in H as [_ H]. by cbn in H.
Qed.

Lemma messages_kept lastDay l : omap message_of (with_days lastDay l) = l.
Proof. revert lastDay. induction l as [|m l IH]; intros d; simpl; [done|]. destruct (bool_decide _); simpl; by rewrite IH. Qed.

Lemma last_nonempty {A} (l : list A) x y : l ≠ [] → List.last l x = List.last l y.
Proof. induction l as [|a [|b l] IH]; intros H; [done|done|]. simpl in *. by apply IH. Qed.

Lemma under_cons lastDay r before :
  under lastDay (r :: before) = under (match date_of r with Some key => key | None => lastDay end) before.
Proof.
  unfold under. destruct r as [key ts|m]; [|done]. change (omap date_of (DateRow key ts :: before)) with (key :: omap date_of before).
  destruct (omap date_of before) as [|a l]; [done|]. by apply (last_nonempty (a :: l)).
Qed.

(** every message stands under its own day *)
Lemma messages_under lastDay l before m after :
  with_days lastDay l = before ++ MsgRow m :: after → under lastDay before = dayKey m.
Proof.
  revert lastDay before. induction l as [|x l IH]; intros d before; cbn [with_days]; [by destruct before|].
  case_bool_decide as Ed.
  - destruct before as [|r before]; simpl; intros H; simplify_eq/=; [done|]. rewrite under_cons. by apply IH.
  - destruct before as [|r [|r2 before]]; simpl; intros H; simplify_eq/=; [done|]. rewrite !under_cons. by apply IH.
Qed.

(** a day is only announced when it changes, and for the message below *)
Lemma days_announced lastDay l before key ts after :
  with_days lastDay l = before ++ DateRow key ts :: after →
  key ≠ under lastDay before ∧ ∃ m after', after = MsgRow m :: after' ∧ dayKey m = key ∧ timestamp m = ts.
Proof.
  revert lastDay before. induction l as [|x l IH]; intros d before; cbn [with_days]; [by destruct before|].
  case_bool_decide as Ed.
  - destruct before as [|r before]; simpl; intros H; simplify_eq/=. rewrite under_cons. by apply IH.
  - destruct before as [|r [|r2 before]]; simpl; intros H; simplify_eq/=.
    + split; [done|]. eauto.
    + rewrite !under_cons. by apply IH.
Qed.

(** what a civil calendar is: years, months and days are counted from zero, and a
    day is an interval of time.  Where clocks are set back at midnight it is not. *)
Record civil : Prop := {
  civil_nonneg : ∀ t, 0 ≤ (local_date t).1.1 ∧ 0 ≤ (local_date t).1.2 ∧ 0 ≤ (local_date t).2;
  civil_interval : ∀ s t u, s ≤ t ≤ u → local_date s = local_date u → local_date t = local_date s;
}.

Lemma no_hyphen n : 0 ≤ n → "-"%char ∉ dec_str n.
Proof.
  intros Hn Hin. pose proof (dec_str_digits n Hn) as H. unfold digits in H. rewrite list.Forall_forall in H. by apply H in Hin.
Qed.

Lemma dayKey_inj m m' : civil → dayKey m = dayKey m' → local_date (timestamp m * 1000) = local_date (timestamp m' * 1000).
Proof.
  intros [Hn _]. unfold dayKey. pose proof (Hn (timestamp m * 1000)) as H1. pose proof (Hn (timestamp m' * 1000)) as H2.
  destruct (local_date (timestamp m * 1000)) as [[y mo] d], (local_date (timestamp m' * 1000)) as [[y' mo'] d'].
  simpl in H1, H2. intros E. apply (f_equal (split_on "-"%char)) in E.
  assert (∀ x, js "-" ++ x = "-"%char :: x) as Hh by done. rewrite !Hh in E.
  rewrite !split_on_app, !split_on_none in E by (apply no_hyphen; lia).
  injection E as E1 E2 E3. rewrite <-(dec_str_val y), <-(dec_str_val mo), <-(dec_str_val d), E1, E2, E3, !dec_str_val; tauto.
Qed.

Definition chrono_le (a b : LocalMessage) : Prop := timestamp a < timestamp b ∨ timestamp a = timestamp b ∧ sequence a ≤ sequence b.
#[local] Instance chrono_le_trans : Transitive chrono_le.
Proof. intros a b c. unfold chrono_le. lia. Qed.

Lemma chrono_sorted l : Sorted.StronglySorted chrono_le (chrono l).
Proof.
  apply js_sort_sorted_by; [apply _|..]; intros a b; unfold chrono_cmp, chrono_le; destruct (timestamp a - timestamp b =? 0) eqn:E; breflect; lia.
Qed.

Lemma dates_from lastDay l key : key ∈ omap date_of (with_days lastDay l) → ∃ m, m ∈ l ∧ dayKey m = key.
Proof.
  revert lastDay. induction l as [|x l IH]; intros d H; cbn [with_days] in H; [by apply not_elem_of_nil in H|].
  case_bool_decide as Ed.
  - change (key ∈ omap date_of (with_days (dayKey x) l)) in H. destruct (IH _ H) as (m & Hm & <-). exists m. split; [by right|done].
  - change (key ∈ (dayKey x :: omap date_of (with_days (dayKey x) l))) in H. apply elem_of_cons in H as [->|H].
    + exists x. split; [by left|done].
    + destruct (IH _ H) as (m & Hm & <-). exists m. split; [by right|done].
Qed.

Lemma dates_distinct prev l :
  civil → Sorted.StronglySorted chrono_le (prev :: l) →
  (dayKey prev ∉ omap date_of (with_days (dayKey prev) l)) ∧ NoDup (omap date_of (with_days (dayKey prev) l)).
Proof.
  intros Hc. revert prev. induction l as [|x l IH]; intros prev Hs; [split; [apply not_elem_of_nil|constructor]|].
  apply Sorted.StronglySorted_inv in Hs as [Hs Hp]. cbn [with_days]. destruct (IH x Hs) as [Hx Hn]. case_bool_decide as Ed.
  - change ((dayKey prev ∉ omap date_of (with_days (dayKey x) l)) ∧ NoDup (omap date_of (with_days (dayKey x) l))). by rewrite <-Ed.
  - change ((dayKey prev ∉ (dayKey x :: omap date_of (with_days (dayKey x) l))) ∧ NoDup (dayKey x :: omap date_of (with_days (dayKey x) l))).
    split; [|by constructor]. rewrite not_elem_of_cons. split; [done|].
    intros (m & Hm & Em)%dates_from. apply Ed. symmetry in Em. apply (dayKey_inj _ _ Hc) in Em.
    assert (chrono_le prev x) as Hpx by by apply list.Forall_cons in Hp as [? _].
    assert (chrono_le x m) as Hxm by (apply Sorted.StronglySorted_inv in Hs as [_ Hs]; rewrite list.Forall_forall in Hs; by apply Hs).
    unfold dayKey. by rewrite (civil_interval Hc (timestamp prev * 1000) (timestamp x * 1000) (timestamp m * 1000)) by (done || (unfold chrono_le in *; lia)).
Qed.

(** C12: the list, read from the oldest row, shows every message of the
    conversation exactly once, by time and then by number; each message stands
    under its own day, a day is announced only where it changes and with the time of
    the message below it, and where a day is an interval of time no day is announced
    twice, so the keys of the list are those of different days. *)
Theorem rows_show_each_message messages :
  let shown := rev (rows messages) in
  omap message_of shown ≡ₚ messages ∧ Sorted.StronglySorted chrono_le (omap message_of shown) ∧
  (∀ before m after, shown = before ++ MsgRow m :: after → under [] before = dayKey m) ∧
  (∀ before key ts after, shown = before ++ DateRow key ts :: after →
     key ≠ under [] before ∧ ∃ m after', after = MsgRow m :: after' ∧ dayKey m = key ∧ timestamp m = ts) ∧
  (civil → NoDup (omap date_of shown)).
Proof.
  intros shown. assert (shown = with_days [] (chrono messages)) as -> by apply rev_involutive.
  rewrite messages_kept. split; [apply js_sort_perm|]. split; [apply chrono_sorted|].
  split; [apply messages_under|]. split; [apply days_announced|]. intros Hc.
  pose proof (chrono_sorted messages) as Hs. destruct (chrono messages) as [|m l]; [constructor|]. cbn [with_days].
  rewrite bool_decide_eq_false_2 by apply dayKey_nonempty. destruct (dates_distinct m l Hc Hs) as [H1 H2].
  change (NoDup (dayKey m :: omap date_of (with_days (dayKey m) l))). by constructor.
Qed.

End Rows.

(** ** Runs *)

Definition demo_did : Did := js "did:zhtp:bob".
(** the node is not reached *)
Definition unreachable (R : Set) (c : req R) : error + R := inl (Error (js "unreachable")).
Definition demo_chat : chat := mkChat (js "see you at six") false false [] None [] false (ws (start 100000)).
Definition demo_sent : world chat error req :=
  fold_left (λ w i, resume unreachable i w) [1; 1; 0; 1; 0; 1; 0; 0; 0; 0]%nat
    (launch (bind (onSend demo_did (js "see you at six") false) (λ _, ret [])) (mkWorld demo_chat 0 [])).

(** A text that cannot be sent is gone: the input was cleared first, the service
    adds a row only after the node has answered, and the error is not caught. *)
Fact failed_send_loses_text :
  Forall (λ t, match t.2 with Done (inl _) => True | _ => False end) (wthreads demo_sent) ∧
  input (ws demo_sent) = [] ∧ sending (ws demo_sent) = false ∧ alerts (ws demo_sent) = [] ∧
  getMessages demo_did (mstore (service (ws demo_sent))) = [].
Proof. vm_compute. repeat constructor. Qed.

Section Witness.
(** days of 86400 seconds in a year of 360 *)
Definition demo_date (t : Z) : Z * Z * Z :=
  let d := Z.max 0 (t / 86400000) in (d / 360, d / 30 mod 12, d mod 30).
Lemma demo_civil : civil demo_date.
Proof.
  split; unfold demo_date; cbn [fst snd].
  - intros t. pose proof (Z.mod_pos_bound (Z.max 0 (t / 86400000) / 30) 12). pose proof (Z.mod_pos_bound (Z.max 0 (t / 86400000)) 30).
    pose proof (Z.div_pos (Z.max 0 (t / 86400000)) 360). lia.
  - intros s t u H [= E1 E2 E3].
    assert (s / 86400000 ≤ t / 86400000 ≤ u / 86400000) as Hd by (split; apply Z.div_le_mono; lia).
    set (x := Z.max 0 (s / 86400000)) in *. set (z := Z.max 0 (u / 86400000)) in *. set (y := Z.max 0 (t / 86400000)).
    assert (x ≤ y ≤ z) by lia. assert (x = z) as Hxz; [|by replace y with x by lia].
    clear -E1 E2 E3. Z.to_euclidean_division_equations. lia.
Qed.

Definition text_at (i : string) (t : Z) : LocalMessage :=
  mkMessage (js i) demo_did dir_received Text (js "hi") t 0 0 delivered.
Definition demo_messages : list LocalMessage := [text_at "c" 200000; text_at "a" 1000; text_at "b" 2000].

Example demo_rows :
  map row_id (rows demo_date demo_messages) = map js ["c"; "date-0-0-2"; "b"; "a"; "date-0-0-0"]%string.
Proof. by vm_compute. Qed.

Lemma rows_show_each_message_witness :
  civil demo_date ∧ NoDup (omap date_of (rev (rows demo_date demo_messages))).
Proof.
  split; [exact demo_civil|].
  destruct (rows_show_each_message demo_date demo_messages) as (_ & _ & _ & _ & H). exact (H demo_civil).
Defined.
End Witness.
