(* ===== verification/Inbox.v ===== *)
(** * The inbox: src/src/screens/messaging/MessagesScreen.tsx, messagingShared.tsx,
    NewChatScreen.tsx, src/src/hooks/usePersistedState.ts

    What a row of the inbox shows, with the privacy mode on and off; the preference
    that is loaded and saved by usePersistedState, and the mode that is forced while
    the application is not in the foreground, as a machine; the recipient of a new
    chat.  A view is what is rendered, without its layout. Times and dates are
    written by the platform; the bullets and emoji of texts are written in ASCII. *)

From stdpp Require Import strings.
From S2P Require Import Prelude JsString JsMap Json MsgStore.
From S2P Require Messaging.
#[local] Open Scope Z_scope.

(** ** messagingShared.tsx *)

(** [h = (h * 31 + c) >>> 0] from 0, then the rest by 360 *)
Definition hashHue (input : jstr) : Z :=
  fold_left (λ h c, (h * 31 + code c) mod 2 ^ 32) input 0 mod 360.

Record AvatarView := mkAvatar { hue : Z; mosaic : bool; initial : option jstr; dot : bool }.
Definition Avatar (name : jstr) (online redacted : bool) : AvatarView :=
  mkAvatar (hashHue name) redacted
    (if redacted then None else Some (toUpperCase (match trim name with c :: _ => [c] | [] => js "?" end)))
    (online && negb redacted).

(** a time of today, a weekday or a date are written by the platform *)
Inductive RelativeTime := Now | Minutes (n : Z) | Clock (ms : Z) | Weekday (ms : Z) | MonthDay (ms : Z).
Definition formatRelativeTime (timestampSec nowMs : Z) : RelativeTime :=
  let ms := timestampSec * 1000 in
  let diff := nowMs - ms in
  if diff <? 60000 then Now
  else if diff <? 3600000 then Minutes (diff / 60000)
  else if diff <? 86400000 then Clock ms
  else if diff <? 7 * 86400000 then Weekday ms
  else MonthDay ms.

Definition redactedName (d : Did) : jstr :=
  let tail := if startsWith (js "did:zhtp:") d then drop 9 d else d in
  if (length tail <=? 12)%nat then d
  else js "did:zhtp:" ++ slice 0 4 tail ++ js "..." ++ slice_from (-4) tail.

Definition redactedPreview (m : LocalMessage) (unreadCount : Z) : jstr :=
  if 1 <? unreadCount then dec_str unreadCount ++ js " new messages"
  else
    match content_type m with
    | Text => match direction m with dir_sent => js "You sent a message" | dir_received => js "Encrypted message" end
    | Image => js "Image"
    | File => js "File"
    | Voice => js "Voice message"
    | KeyExchange => js "Secure session"
    | KeyRatchet => js "Re-keyed"
    | ReadReceipt | Undecryptable => []
    end.

(** the widths of the bars *)
Definition RedactionBars (seed : jstr) : list Z :=
  let h := hashHue seed in [18 + h mod 14; 10 + Z.shiftr h 3 mod 10; 14 + Z.shiftr h 6 mod 12].

Definition previewBody (m : LocalMessage) : jstr :=
  match content_type m with
  | Text => body m
  | Image => js "Image"
  | File => js "File"
  | Voice => js "Voice message"
  | KeyExchange => js "Started a secure conversation"
  | KeyRatchet => js "Re-keyed"
  | ReadReceipt | Undecryptable => []
  end.

(** ** A row *)

Inductive Preview := Bars (widths : list Z) (meta : jstr) | Shown (text : jstr).
Record RowView := mkRow {
  avatar : AvatarView; title : jstr; monospace : bool; time : RelativeTime; did_line : option jstr;
  preview : Preview; bold : bool; badge : option Z }.

Definition handle_of (c : Contact) : option jstr :=
  if truthy (username c) then Some ("@"%char :: Messaging.strip_ats (username c)) else None.
Definition ConversationRow (now : Z) (privacyOn : bool) (c : Conversation) : RowView :=
  let handle := handle_of (contact c) in
  let m := last_message c in
  let unread := 0 <? unread_count c in
  mkRow
    (Avatar (display_name (contact c)) (online (contact c)) privacyOn)
    (default (redactedName (did (contact c))) handle)
    (match handle with None => true | Some _ => false end)
    (formatRelativeTime (timestamp m) now)
    (match handle with Some _ => Some (redactedName (did (contact c))) | None => None end)
    (if privacyOn then Bars (RedactionBars (did (contact c))) (redactedPreview m (unread_count c))
     else Shown ((match direction m with dir_sent => js "You: " | dir_received => [] end) ++ previewBody m))
    unread (if unread then Some (unread_count c) else None).

(** ** The screen *)

Definition matches (query : jstr) (c : Conversation) : bool :=
  let q := toLowerCase query in
  includes q (toLowerCase (username (contact c))) || includes q (toLowerCase (display_name (contact c))).
Definition filtered (query : jstr) (l : list Conversation) : list Conversation :=
  if truthy query then List.filter (matches query) l else l.
Definition totalUnread (l : list Conversation) : Z := fold_left (λ n c, n + unread_count c) l 0.

Inductive Subtitle := PrivacyOn | Unread (n : Z) | PostQuantum.
Definition subtitle (privacyOn : bool) (l : list Conversation) : Subtitle :=
  if privacyOn then PrivacyOn else if 0 <? totalUnread l then Unread (totalUnread l) else PostQuantum.

(** the state of the screen and of the stored preference; [loads] are the reads
    that were started and not answered, [item] is the stored text *)
Record inbox := mkInbox {
  conversations : list Conversation; query : jstr; privacyPref : json; forcedPrivacy : bool;
  loads : nat; item : option jstr }.
Definition mounted (l : list Conversation) (item : option jstr) : inbox := mkInbox l [] (JBool true) false 1 item.

(** [x ? .. : ..] of the preference *)
Definition on (v : json) : bool :=
  match v with
  | JNull => false | JBool b => b | JNum n => negb (n =? 0) | JDec m _ => negb (m =? 0)
  | JStr s => truthy s | JArr _ | JObj _ => true
  end.
Definition privacyOn (s : inbox) : bool := on (privacyPref s) || forcedPrivacy s.

(** [setPrivacyPref(!privacyPref)]: [shown] is the preference of the rendering *)
Definition toggle (shown : json) (s : inbox) : inbox :=
  mkInbox (conversations s) (query s) (JBool (negb (on shown))) (forcedPrivacy s) (loads s)
    (Some (stringify (JBool (negb (on shown))))).
(** a read of the preference is answered with [answer]; [None] is a failure *)
Definition loaded (answer : option (option jstr)) (s : inbox) : inbox :=
  match loads s with
  | O => s
  | S n =>
      let v := match answer with
               | Some (Some text) => match json_parse text with Some v => v | None => JStr text end
               | _ => privacyPref s
               end in
      mkInbox (conversations s) (query s) v (forcedPrivacy s) n (item s)
  end.
Definition onChange (active : bool) (s : inbox) : inbox :=
  mkInbox (conversations s) (query s) (privacyPref s) (negb active) (loads s) (item s).
Definition setQuery (q : jstr) (s : inbox) : inbox :=
  mkInbox (conversations s) q (privacyPref s) (forcedPrivacy s) (loads s) (item s).
(** the listener of the store *)
Definition onStore (l : list Conversation) (s : inbox) : inbox :=
  mkInbox l (query s) (privacyPref s) (forcedPrivacy s) (loads s) (item s).

Inductive event :=
| Toggle (shown : json) | Loaded (answer : option (option jstr)) | AppState (active : bool) | Typed (q : jstr) | Stored (l : list Conversation).
Definition step (s : inbox) (e : event) : inbox :=
  match e with
  | Toggle shown => toggle shown s
  | Loaded a => loaded a s
  | AppState a => onChange a s
  | Typed q => setQuery q s
  | Stored l => onStore l s
  end.
Definition run (es : list event) (s : inbox) : inbox := fold_left step es s.

Record ScreenView := mkView { heading : Subtitle; search : jstr; eye_off : bool; list_rows : list RowView }.
Definition screen_view (now : Z) (s : inbox) : ScreenView :=
  mkView (subtitle (privacyOn s) (conversations s)) (query s) (privacyOn s)
    (map (ConversationRow now (privacyOn s)) (filtered (query s) (conversations s))).

(** ** NewChatScreen *)

(** [raw.trim()] with the mark of a user name; DIDs as they are *)
Definition buildRecipient (raw : jstr) : option jstr :=
  let trimmed := trim raw in
  if negb (truthy trimmed) then None
  else if startsWith (js "did:zhtp:") trimmed then Some trimmed
  else
    let handle := toLowerCase (Messaging.strip_ats trimmed) in
    if truthy handle then Some ("@"%char :: handle) else None.

(** [.replace(/^@/, '')] *)
Definition without_at (s : jstr) : jstr := match s with c :: s' => if bool_decide (c = "@"%char) then s' else s | [] => [] end.
Definition suggestions (typed : jstr) (all : list Contact) : list Contact :=
  let q := without_at (toLowerCase (trim typed)) in
  if negb (truthy q) then all
  else List.filter (λ c, includes q (toLowerCase (username c)) || includes q (toLowerCase (display_name c))) all.
Definition online_cmp (a b : Contact) : Z := Z.b2z (online b) - Z.b2z (online a).
Definition onlineFirst (l : list Contact) : list Contact := js_sort online_cmp l.

(** * Properties *)

(** ** What may be seen of a conversation *)

(** the same kind of message at the same time, whatever it says *)
Record same_message (m n : LocalMessage) : Prop := {
  sm_time : timestamp m = timestamp n; sm_kind : content_type m = content_type n; sm_direction : direction m = direction n }.
Record same_conversation (c d : Conversation) : Prop := {
  sc_contact : contact c = contact d; sc_message : same_message (last_message c) (last_message d);
  sc_unread : unread_count c = unread_count d }.

Lemma redacted_row now c d : same_conversation c d → ConversationRow now true c = ConversationRow now true d.
Proof.
  intros [Hc [Ht Hk Hd] Hu]. unfold ConversationRow. rewrite Hc, Ht, Hu. unfold redactedPreview. by rewrite Hk, Hd.
Qed.

Lemma filtered_same q l1 l2 : Forall2 same_conversation l1 l2 → Forall2 same_conversation (filtered q l1) (filtered q l2).
Proof.
  unfold filtered. destruct (truthy q); [|done]. induction 1 as [|c d l1 l2 H _ IH]; simpl; [constructor|].
  assert (matches q c = matches q d) as -> by (unfold matches; by rewrite (sc_contact _ _ H)).
  destruct (matches q d); [by constructor|done].
Qed.

Lemma redacted_view now s l1 l2 :
  privacyOn s = true → Forall2 same_conversation l1 l2 →
  screen_view now (onStore l1 s) = screen_view now (onStore l2 s).
Proof.
  intros Hp Hl. unfold screen_view. change (privacyOn (onStore l1 s)) with (privacyOn s). change (privacyOn (onStore l2 s)) with (privacyOn s).
  rewrite Hp. f_equal. simpl. pose proof (filtered_same (query s) _ _ Hl) as Hf.
  induction Hf as [|c d l l' H _ IH]; simpl; [done|]. by rewrite (redacted_row _ _ _ H), IH.
Qed.

(** *** From the store *)

Record same_shape (s1 s2 : store) : Prop := {
  ss_contacts : contactsByDid s1 = contactsByDid s2;
  ss_unread : unreadByDid s1 = unreadByDid s2;
  ss_messages : ∀ d, option_Forall2 (Forall2 same_message) (mget d (messagesByConversation s1)) (mget d (messagesByConversation s2));
}.

Lemma last_same m n l1 l2 : same_message m n → Forall2 same_message l1 l2 → same_message (List.last l1 m) (List.last l2 n).
Proof.
  intros H Hl. revert m n H. induction Hl as [|x y l1 l2 Hx Hl IH]; intros m n H; [done|]. simpl.
  destruct Hl as [|x' y' l1 l2 Hx' Hl]; [done|]. exact (IH m n H).
Qed.

Lemma rows_same s1 s2 cs :
  same_shape s1 s2 → Forall2 same_conversation (omap (conversation_row s1) cs) (omap (conversation_row s2) cs).
Proof.
  intros [Hc Hu Hm]. induction cs as [|c cs IH]; [constructor|]. cbn [omap list_omap].
  assert (option_Forall2 same_conversation (conversation_row s1 c) (conversation_row s2 c)) as [x y Hxy|]; [|by constructor|done].
  unfold conversation_row. rewrite Hu. destruct (Hm (did c)) as [l1 l2 Hl|]; [|constructor].
  destruct Hl as [|m n l1 l2 H Hl]; constructor. split; [done|by apply last_same|done].
Qed.

Lemma insert_same c d l1 l2 :
  same_conversation c d → Forall2 same_conversation l1 l2 →
  Forall2 same_conversation (sort_insert conversation_cmp c l1) (sort_insert conversation_cmp d l2).
Proof.
  intros H. induction 1 as [|x y l1 l2 Hx Hl IH]; simpl; [constructor; [exact H|constructor]|].
  assert (conversation_cmp c x = conversation_cmp d y) as ->.
  { unfold conversation_cmp. by rewrite (sm_time _ _ (sc_message _ _ H)), (sm_time _ _ (sc_message _ _ Hx)). }
  destruct (0 <? _); [by constructor|]. constructor; [done|]. by constructor.
Qed.

Lemma conversations_same s1 s2 :
  same_shape s1 s2 → Forall2 same_conversation (getConversations s1) (getConversations s2).
Proof.
  intros H. unfold getConversations. rewrite (ss_contacts _ _ H).
  assert (∀ l1 l2, Forall2 same_conversation l1 l2 → Forall2 same_conversation (js_sort conversation_cmp l1) (js_sort conversation_cmp l2)) as Hs.
  { induction 1 as [|c d l1 l2 Hc _ IH]; [constructor|]. by apply insert_same. }
  by apply Hs, rows_same.
Qed.

(** ** When the mode is on *)

(** the last event of the application says it is not in the foreground *)
Definition app_event (e : event) : option bool := match e with AppState a => Some a | _ => None end.
Definition in_background (es : list event) : Prop := last (omap app_event es) = Some false.
(** nobody chose another preference, now or before *)
Definition untouched (e : event) : bool :=
  match e with Toggle _ => false | Loaded (Some (Some _)) => false | _ => true end.

Lemma run_app es e s : run (es ++ [e]) s = step (run es s) e.
Proof. unfold run. by rewrite fold_left_app. Qed.

Lemma forced_in_background es s : forcedPrivacy s = false → forcedPrivacy (run es s) = match last (omap app_event es) with Some a => negb a | None => false end.
Proof.
  intros Hs. induction es as [|e es IH] using rev_ind; [done|]. rewrite run_app, omap_app.
  destruct e as [v|a|a|q|l]; cbn [step omap list_omap app_event app]; rewrite ?app_nil_r, ?last_snoc; try exact IH; [|done].
  unfold loaded. by destruct (loads (run es s)).
Qed.

Lemma default_preference es l item :
  Forall (λ e, untouched e = true) es → privacyPref (run es (mounted l item)) = JBool true.
Proof.
  induction es as [|e es IH] using rev_ind; intros H; [done|]. apply Forall_app in H as [H He]. rewrite run_app.
  apply list.Forall_cons in He as [He _]. specialize (IH H).
  destruct e as [v|[[t|]|]|a|q|l']; try done; cbn [step]; unfold loaded; destruct (loads _); done.
Qed.

(** C7: whatever has happened on the screen, while the application is not in the
    foreground, and at any time as long as nobody has chosen otherwise, what the
    inbox renders is the same for two stores that differ only in what the messages
    say: their texts, identifiers, numbers and states. *)
Theorem hidden_inbox_shows_no_text now es l item s1 s2 :
  let s := run es (mounted l item) in
  in_background es ∨ Forall (λ e, untouched e = true) es → same_shape s1 s2 →
  screen_view now (onStore (getConversations s1) s) = screen_view now (onStore (getConversations s2) s).
Proof.
  intros s H Hs. apply redacted_view; [|by apply conversations_same]. unfold s, privacyOn. destruct H as [H|H].
  - rewrite forced_in_background by done. unfold in_background in H. rewrite H. apply orb_true_r.
  - by rewrite default_preference.
Qed.

(** ** Runs *)

Definition demo_contact : Contact := mkContact (js "did:zhtp:0123456789abcdef") (js "@bob") (js "Bob") None None true None.
Definition demo_message (text : string) : LocalMessage :=
  mkMessage (js "1") (did demo_contact) dir_received Text (js text) 1700000000 0 0 delivered.
Definition demo_store (text : string) : store := appendMessage (demo_message text) (upsertContact demo_contact empty_store).
Lemma demo_messages text : messagesByConversation (demo_store text) = [(did demo_contact, [demo_message text])].
Proof. done. Qed.
Definition demo_view (es : list event) (text : string) : ScreenView :=
  screen_view 1700000030000 (onStore (getConversations (demo_store text)) (run es (mounted [] None))).

(** With the mode off the text is shown, with it on the name of the user is not hidden. *)
Example shown_and_hidden :
  map preview (list_rows (demo_view [Toggle (JBool true)] "hello")) = [Shown (js "hello")] ∧
  map (λ r, (title r, preview r)) (list_rows (demo_view [] "hello")) = [(js "@bob", Bars [25; 16; 16] (js "Encrypted message"))].
Proof. split; vm_compute; reflexivity. Qed.

(** A preference that is read late replaces the one the user has just chosen: the
    inbox hides again what was revealed, while the stored preference is the new one. *)
Fact late_preference_wins :
  let s := run [Toggle (JBool true); Loaded (Some (Some (js "true")))] (mounted [] (Some (js "true"))) in
  privacyPref s = JBool true ∧ item s = Some (js "false").
Proof. by vm_compute. Qed.

Lemma hidden_inbox_shows_no_text_witness :
  let es := [Toggle (JBool true); AppState false] in
  demo_view es "hello" = demo_view es "another".
Proof.
  intros es. apply (hidden_inbox_shows_no_text 1700000030000 es [] None (demo_store "hello") (demo_store "another")).
  - left. reflexivity.
  - split; [reflexivity|reflexivity|]. intros d. rewrite !demo_messages. cbn [mget].
    destruct (decide _); repeat constructor.
Defined.
