(* ===== verification/AuthLink.v ===== *)
(** * Signing in a browser, from the link to the signature:
    src/src/screens/BrowserAuthScreen.tsx, QRScanScreen.tsx, WalletSettingsScreen.tsx
    (the browser card), src/src/services/CameraPermission.ts, and the deep links of
    src/src/navigation/RootNavigator.tsx

    A link comes from the system, from the camera or from the paste field; each
    way opens the confirmation screen, whose button has the challenge signed
    (BrowserAuth.v).  Mounted screens are entries of maps by their number; a press
    closes over the rendering [v] it is made on.  Whether the navigator gives new
    parameters to a mounted screen or mounts another is its own choice ([focused]).
    Texts of the translations are named by their key; the camera, the clipboard and
    the settings of the system are native modules. *)

From stdpp Require Import strings gmap.
From S2P Require Import Prelude JsString JsMap Json Codec Async Outside BrowserAuth.
#[local] Open Scope Z_scope.

(** ** CameraPermission.ts *)

Inductive CameraPermissionStatus := granted | never_asked | denied | blocked | restricted | unsupported.
#[export] Instance permission_eq_dec : EqDecision CameraPermissionStatus.
Proof. solve_decision. Defined.

Definition CAMERA : jstr := js "VisionCamera".
Definition mapVisionStatus (raw : json) : CameraPermissionStatus :=
  match raw with
  | JStr s =>
      if bool_decide (s = js "granted") then granted
      else if bool_decide (s = js "not-determined") then never_asked
      else if bool_decide (s = js "denied") then denied
      else if bool_decide (s = js "restricted") then restricted
      else denied
  | _ => denied
  end.

Inductive platform := ios | android | other_os.

Section Camera.
Context {S : Type} (Camera : option (jstr → bool)) (OS : platform) (has_openSettings : bool).
#[local] Abbreviation prog := (Outside.prog S).

Definition has (method : jstr) : bool := match Camera with Some f => f method | None => false end.
Definition camera_status : prog json :=
  if has (js "getCameraPermissionStatus") then call (native CAMERA (js "getCameraPermissionStatus") []) else throw TypeError.

Definition getCameraPermissionStatus : prog CameraPermissionStatus :=
  if negb (has (js "getCameraPermissionStatus")) then ret unsupported
  else try_catch (raw ← camera_status; ret (mapVisionStatus raw)) (λ _, ret unsupported).

Definition is_text (k : jstr) (v : json) : bool := match v with JStr s => bool_decide (s = k) | _ => false end.
Definition after_request (before after : json) : CameraPermissionStatus :=
  if is_text (js "granted") after then granted
  else if is_text (js "restricted") after then restricted
  else if is_text (js "denied") after && is_text (js "denied") before then blocked
  else mapVisionStatus after.
Definition requestCameraPermission : prog CameraPermissionStatus :=
  if negb (has (js "requestCameraPermission")) then ret unsupported
  else
    try_catch
      (before ← camera_status;
       after ← call (native CAMERA (js "requestCameraPermission") []);
       ret (after_request before after))
      (λ _, ret unsupported).

Definition LINKING : jstr := js "Linking".
Definition openAppSettings : prog bool :=
  try_catch
    match OS with
    | ios => call (native LINKING (js "openURL") [JStr (js "app-settings:")]);; ret true
    | android => if has_openSettings then call (native LINKING (js "openSettings") []);; ret true else ret false
    | other_os => ret false
    end
    (λ _, ret false).
End Camera.

(** ** Texts: a key of the translations, or a message *)

Inductive Text := T (key : jstr) | Said (m : jstr).

(** ** The screens *)

(** QRScanScreen: [left] after it is unmounted *)
Record scanner := mkScanner { permission : CameraPermissionStatus; checking : bool; handled : bool; left_ : bool }.

(** BrowserAuthScreen *)
Record confirm := mkConfirm {
  url : option jstr; challenge : option BrowserAuthChallenge; parseError : option Text;
  submitting : bool; result : option (json * Z); err : option Text }.

(** [useMemo] on the parameter: what is parsed, and the error that is set *)
Definition parsed_link (u : option jstr) : option BrowserAuthChallenge * option Text :=
  match parseBrowserAuthLink u with
  | inl e => (None, Some (Said (message e)))
  | inr c => (c, None)
  end.
Definition with_url (u : option jstr) (x : confirm) : confirm :=
  mkConfirm u (parsed_link u).1 (parsed_link u).2 (submitting x) (result x) (err x).
Definition opened (u : option jstr) : confirm := with_url u (mkConfirm None None None false None None).

Record app := mkApp {
  scanners : gmap nat scanner; confirms : gmap nat confirm; next_screen : nat;
  ready : bool;                           (* the navigation container *)
  waiting : list jstr;                    (* deep links, each with its timer *)
  input : jstr; inputError : option Text  (* the paste field *) }.
Definition put_scanner i x s := mkApp (<[i := x]> (scanners s)) (confirms s) (next_screen s) (ready s) (waiting s) (input s) (inputError s).
Definition put_confirm i x s := mkApp (scanners s) (<[i := x]> (confirms s)) (next_screen s) (ready s) (waiting s) (input s) (inputError s).
Definition upd_scanner i (f : scanner → scanner) s :=
  match scanners s !! i with Some x => put_scanner i (f x) s | None => s end.
Definition upd_confirm i (f : confirm → confirm) s :=
  match confirms s !! i with Some x => put_confirm i (f x) s | None => s end.
Definition set_waiting l s := mkApp (scanners s) (confirms s) (next_screen s) (ready s) l (input s) (inputError s).
Definition set_ready b s := mkApp (scanners s) (confirms s) (next_screen s) b (waiting s) (input s) (inputError s).
Definition set_input t e s := mkApp (scanners s) (confirms s) (next_screen s) (ready s) (waiting s) t e.
Definition started : app := mkApp ∅ ∅ 0 false [] [] None.

#[local] Abbreviation prog := (Outside.prog app).

(** a new mounted screen *)
Definition mount_confirm (u : option jstr) (s : app) : app :=
  mkApp (scanners s) (<[next_screen s := opened u]> (confirms s)) (Datatypes.S (next_screen s)) (ready s) (waiting s) (input s) (inputError s).
Definition mount_scanner (x : scanner) (s : app) : app :=
  mkApp (<[next_screen s := x]> (scanners s)) (confirms s) (Datatypes.S (next_screen s)) (ready s) (waiting s) (input s) (inputError s).

Section App.
Context (nativeModule Camera : option (jstr → bool)) (OS : platform) (has_openSettings : bool)
        (focused : app → option nat).

(** [navigation.navigate('BrowserAuth', { url })] *)
Definition navigate (u : jstr) (s : app) : app :=
  match focused s with
  | Some i => match confirms s !! i with Some x => put_confirm i (with_url (Some u) x) s | None => mount_confirm (Some u) s end
  | None => mount_confirm (Some u) s
  end.

(** *** Deep links *)

Definition tryNavigate (u : jstr) : prog unit :=
  r ← gets ready;
  if r : bool then modify (navigate u) else modify (λ s, set_waiting (waiting s ++ [u]) s).
Definition routeAuthUrl (u : option jstr) : prog unit :=
  match u with
  | None | Some [] => ret tt
  | Some link => match parseBrowserAuthLink u with inr (Some _) => tryNavigate link | _ => ret tt end
  end.
(** the timer of 50 ms of the link that waits longest *)
Definition timer : prog unit :=
  l ← gets waiting;
  match l with [] => ret tt | u :: l => modify (set_waiting l);; tryNavigate u end.

(** *** The paste field *)

Definition typed (text : jstr) : prog unit := modify (λ s, set_input text None s).
Definition set_inputError (e : option Text) : prog unit := modify (λ s, set_input (input s) e s).
(** [v] is [browserAuthInput] of the rendering *)
Definition onOpenBrowserAuth (v : jstr) : prog unit :=
  set_inputError None;;
  let raw := trim v in
  candidate ← (if (0 <? length raw)%nat then ret raw
               else text ← call (native (js "Clipboard") (js "getString") []);
                    match text with JStr s => ret (trim s) | _ => throw TypeError end);
  if negb (truthy candidate) then set_inputError (Some (T (js "walletSettings.browserAuth.errors.emptyClipboard")))
  else
    match parseBrowserAuthLink (Some candidate) with
    | inr None => set_inputError (Some (T (js "walletSettings.browserAuth.errors.invalidLink")))
    | inr (Some _) => modify (navigate candidate)
    | inl e => set_inputError (Some (Said (message e)))
    end.

(** *** The scanner *)

Definition set_permission (p : CameraPermissionStatus) (x : scanner) : scanner := mkScanner p false (handled x) (left_ x).
Definition start_checking (x : scanner) : scanner := mkScanner (permission x) true (handled x) (left_ x).
Definition is_left (i : nat) (s : app) : bool := match scanners s !! i with Some x => left_ x | None => true end.
Definition leave (i : nat) : app → app := upd_scanner i (λ x, mkScanner (permission x) (checking x) (handled x) true).

(** mounting, with the effect of the first mount *)
Definition QRScanScreen : prog unit :=
  status ← getCameraPermissionStatus Camera;
  let asks := bool_decide (status = never_asked) in
  i ← modify_get (λ s, (mount_scanner (mkScanner status asks false false) s, next_screen s));
  if asks then
    next ← await (requestCameraPermission Camera);
    cancelled ← gets (is_left i);
    if cancelled : bool then ret tt else modify (upd_scanner i (set_permission next))
  else ret tt.
Definition retryPermission (i : nat) : prog unit :=
  modify (upd_scanner i start_checking);;
  next ← await (requestCameraPermission Camera);
  modify (upd_scanner i (set_permission next)).
Definition goToSettings : prog unit :=
  ok ← await (openAppSettings OS has_openSettings);
  if ok : bool then ret tt
  else
    call (alert (js "qrScan.blocked.manualTitle")
            (match OS with android => js "qrScan.blocked.manualHintAndroid" | _ => js "qrScan.blocked.manualHintIos" end) []);;
    ret tt.

(** [navigation.replace('BrowserAuth', { url: rawValue })] *)
Definition replace (i : nat) (u : jstr) (s : app) : app :=
  mount_confirm (Some u) (upd_scanner i (λ x, mkScanner (permission x) (checking x) true true) s).
Definition onScanned (i : nat) (rawValue : jstr) : prog unit :=
  h ← gets (λ s, match scanners s !! i with Some x => handled x | None => true end);
  if h : bool then ret tt
  else
    match parseBrowserAuthLink (Some rawValue) with
    | inr None => ret tt
    | inr (Some _) => modify (replace i rawValue)
    | inl e => call (alert (js "qrScan.invalidQr.title") (message e) []);; ret tt
    end.
(** the first code of a frame that is a non-empty text *)
Definition onCodeScanned (i : nat) (codes : list json) : prog unit :=
  match List.find (λ c, match jget (js "value") c with Some (JStr s) => (0 <? length s)%nat | _ => false end) codes with
  | Some c => match jget (js "value") c with Some (JStr s) => onScanned i s | _ => ret tt end
  | None => ret tt
  end.

Inductive ScannerView := Checking | CameraOn | AskPermission | OpenSettings | DeadEnd.
Definition scanner_view (x : scanner) : ScannerView :=
  if checking x then Checking
  else match permission x with
  | granted => CameraOn | never_asked | denied => AskPermission | blocked => OpenSettings | restricted | unsupported => DeadEnd
  end.

(** *** The confirmation screen *)

Definition error_text (e : error) : Text :=
  match e with
  | BrowserAuthError _ invalid_signature _ => T (js "browserAuth.errors.invalidSignature")
  | BrowserAuthError _ did_not_registered _ => T (js "browserAuth.errors.notRegistered")
  | BrowserAuthError _ challenge_expired _ => T (js "browserAuth.errors.challengeExpired")
  | _ => Said (message e)
  end.

Definition set_busy b (x : confirm) := mkConfirm (url x) (challenge x) (parseError x) b (result x) (err x).
Definition set_result o (x : confirm) := mkConfirm (url x) (challenge x) (parseError x) (submitting x) o (err x).
Definition set_err e (x : confirm) := mkConfirm (url x) (challenge x) (parseError x) (submitting x) (result x) e.

Definition onAuthenticate (i : nat) (c : option BrowserAuthChallenge) (did : jstr) : prog unit :=
  match c with
  | None => ret tt
  | Some c =>
      if negb (truthy did) then ret tt
      else
        modify (upd_confirm i (set_busy true));;
        modify (upd_confirm i (set_err None));;
        try_finally
          (try_catch
             (out ← submitBrowserAuth nativeModule (challengeHex c) did;
              modify (upd_confirm i (set_result (Some out))))
             (λ e, modify (upd_confirm i (set_err (Some (error_text e))))))
          (modify (upd_confirm i (set_busy false)))
  end.

Definition DID_ZHTP : jstr := js "did:zhtp:".
Definition didSuffix (did : jstr) : jstr := if startsWith DID_ZHTP did then drop (length DID_ZHTP) did else did.
Definition shortened (s : jstr) : jstr := slice 0 10 s ++ js "..." ++ slice_from (-8) s.
Definition truncatedDid (did : jstr) : Text :=
  if truthy (didSuffix did) then Said (DID_ZHTP ++ shortened (didSuffix did)) else T (js "browserAuth.unknownDid").
(** no navigation of the source gives [params.node], which would stand before the default *)
Definition nodeLabel (c : BrowserAuthChallenge) : Text :=
  match node c with Some n => Said n | None => T (js "browserAuth.defaultNode") end.

Inductive ConfirmView :=
| Loading
| Invalid (m : Text)
| Success (sessionId : json) (signedAt : Z)
| Prompt (challengeText : jstr) (didText nodeText : Text) (failure : option Text) (busy fromDeepLink : bool).
(** [identity] is the DID of [currentIdentity] *)
Definition confirm_view (identity : option jstr) (isLoading : bool) (v : confirm) : ConfirmView :=
  match identity with
  | None => Loading
  | Some did =>
      if isLoading then Loading
      else match parseError v, challenge v with
      | Some m, _ => Invalid m
      | None, None => Invalid (T (js "browserAuth.invalidLink.fallback"))
      | None, Some c =>
          match result v with
          | Some (sessionId, timestamp) => Success sessionId timestamp
          | None => Prompt (shortened (challengeHex c)) (truncatedDid did) (nodeLabel c) (err v) (submitting v)
                      (startsWith (js "zhtp://") (default [] (url v)))
          end
      end
  end.

(** the button of the rendering [v] *)
Definition pressAuthenticate (i : nat) (v : confirm) (identity : option jstr) (isLoading : bool) : prog unit :=
  match confirm_view identity isLoading v with
  | Prompt _ _ _ _ false _ => onAuthenticate i (challenge v) (default [] identity)
  | _ => ret tt
  end.
Definition onCopySession (v : confirm) : prog unit :=
  match result v with
  | Some (sessionId, _) =>
      if negb (jtruthy sessionId) then ret tt
      else
        call (native (js "Clipboard") (js "setString") [sessionId]);;
        call (alert (js "browserAuth.copySession") (js "browserAuth.copySessionMessage") []);;
        ret tt
  | None => ret tt
  end.

Inductive action :=
| DeepLink (u : option jstr) | Timer | Ready
| Typed (text : jstr) | UseLink (v : jstr)
| EnterScanner | Retry (i : nat) | GoToSettings | Codes (i : nat) (codes : list json) | LeaveScanner (i : nat)
| Authenticate (i : nat) (v : confirm) (identity : option jstr) (isLoading : bool)
| CopySession (v : confirm).
Definition handler (a : action) : prog unit :=
  match a with
  | DeepLink u => routeAuthUrl u
  | Timer => timer
  | Ready => modify (set_ready true)
  | Typed text => typed text
  | UseLink v => onOpenBrowserAuth v
  | EnterScanner => QRScanScreen
  | Retry i => retryPermission i
  | GoToSettings => goToSettings
  | Codes i codes => onCodeScanned i codes
  | LeaveScanner i => modify (leave i)
  | Authenticate i v identity isLoading => pressAuthenticate i v identity isLoading
  | CopySession v => onCopySession v
  end.
End App.

(** * Properties *)

(** ** What every screen that is opened shows *)

Definition auth_url (u : jstr) : Prop := ∃ c, parseBrowserAuthLink (Some u) = inr (Some c).
(** the screen shows the challenge of its link *)
Definition shows_link (v : confirm) : Prop :=
  ∃ u c, url v = Some u ∧ parseBrowserAuthLink (Some u) = inr (Some c) ∧ challenge v = Some c ∧ parseError v = None.
Definition links_ok (s : app) : Prop := map_Forall (λ _, shows_link) (confirms s) ∧ Forall auth_url (waiting s).

Lemma with_url_shows u x : auth_url u → shows_link (with_url (Some u) x).
Proof. intros [c H]. exists u, c. unfold with_url, parsed_link. rewrite H. by repeat split. Qed.

Lemma mount_ok u s : auth_url u → links_ok s → links_ok (mount_confirm (Some u) s).
Proof. intros Hu [Hc Hw]. split; [|done]. apply map_Forall_insert_2; [by apply with_url_shows|done]. Qed.

Lemma upd_scanner_ok i f s : links_ok s → links_ok (upd_scanner i f s).
Proof. intros H. unfold upd_scanner. by destruct (scanners s !! i). Qed.

Lemma upd_confirm_ok i f s :
  (∀ v, url (f v) = url v ∧ challenge (f v) = challenge v ∧ parseError (f v) = parseError v) → links_ok s → links_ok (upd_confirm i f s).
Proof.
  intros Hf [Hc Hw]. unfold upd_confirm. destruct (confirms s !! i) as [x|] eqn:E; [|done]. split; [|done].
  apply map_Forall_insert_2; [|done]. destruct (Hf x) as (Hu & Hch & He). destruct (Hc i x E) as (u & c & H).
  exists u, c. by rewrite Hu, Hch, He.
Qed.

Section Consent.
Context (nativeModule Camera : option (jstr → bool)) (OS : platform) (has_openSettings : bool)
        (focused : app → option nat).
Local Abbreviation handle := (handler nativeModule Camera OS has_openSettings focused).

Lemma navigate_ok u s : auth_url u → links_ok s → links_ok (navigate focused u s).
Proof.
  intros Hu Hs. unfold navigate. destruct (focused s) as [i|]; [|by apply mount_ok].
  destruct (confirms s !! i) as [x|]; [|by apply mount_ok]. destruct Hs as [Hc Hw]. split; [|done].
  apply map_Forall_insert_2; [by apply with_url_shows|done].
Qed.

Lemma keeps_navigate u : auth_url u → keeps links_ok (tryNavigate focused u).
Proof.
  intros Hu. unfold tryNavigate. keeps_through; [by apply navigate_ok|]. intros [Hc Hw]. split; [done|]. simpl. apply Forall_app; auto.
Qed.

Lemma keeps_scanned i raw : keeps links_ok (onScanned i raw).
Proof.
  unfold onScanned, mbind, outside_bind. apply keeps_bind; [apply keeps_gets|]. intros []; [apply keeps_ret|].
  destruct (parseBrowserAuthLink (Some raw)) as [e|[c|]] eqn:E; keeps_through.
  intros Hs. apply mount_ok; [by eexists|by apply upd_scanner_ok].
Qed.

Lemma keeps_auth_handler a : keeps links_ok (handle a).
Proof.
  assert (∀ f, (∀ s, confirms (f s) = confirms s ∧ waiting (f s) = waiting s) → ∀ s, links_ok s → links_ok (f s)) as Hset
    by (intros f Hf s [Hc Hw]; destruct (Hf s) as [E1 E2]; split; by rewrite ?E1, ?E2).
  destruct a as [u| | |text|v| |i| |i codes|i|i v identity l|v]; cbn [handler].
  - unfold routeAuthUrl. destruct u as [[|x u]|]; try apply keeps_ret.
    destruct (parseBrowserAuthLink _) as [e|[c|]] eqn:E; [apply keeps_ret|apply keeps_navigate; by eexists|apply keeps_ret].
  - unfold timer. eapply (spec_bind _ _ _ _ _ _ _ (Forall auth_url)); [apply spec_gets; by intros s [_ H]|].
    intros [|u l] Hl; [apply keeps_ret|]. apply list.Forall_cons in Hl as [Hu Hl].
    apply (keeps_bind _ (modify _)); [|intros _; by apply keeps_navigate]. apply keeps_modify. by intros s [Hc _].
  - apply keeps_modify. by apply Hset.
  - unfold typed. apply keeps_modify. by apply Hset.
  - assert (∀ e, keeps links_ok (set_inputError e)) as He by (intros e; unfold set_inputError; apply keeps_modify; by apply Hset).
    unfold onOpenBrowserAuth, mbind, outside_bind. apply keeps_bind; [apply He|intros _]. apply keeps_bind; [keeps_through|intros candidate].
    destruct (truthy candidate); [|apply He]. cbn [negb].
    destruct (parseBrowserAuthLink (Some candidate)) as [e|[c|]] eqn:E; [apply He| |apply He].
    apply keeps_modify. intros s. apply navigate_ok. by eexists.
  - unfold QRScanScreen. keeps_through; try (unfold requestCameraPermission, getCameraPermissionStatus, camera_status; keeps_through; done).
    by apply upd_scanner_ok.
  - unfold retryPermission. keeps_through; try (unfold requestCameraPermission, camera_status; keeps_through; done);
      by apply upd_scanner_ok.
  - unfold goToSettings, openAppSettings. keeps_through.
  - unfold onCodeScanned. destruct (List.find _ _) as [c|]; [|apply keeps_ret].
    destruct (jget _ c) as [[]|]; try apply keeps_ret. apply keeps_scanned.
  - apply keeps_modify. intros s. apply upd_scanner_ok.
  - unfold pressAuthenticate. destruct (confirm_view _ _ _) as [| | |? ? ? ? [] ?]; try apply keeps_ret.
    unfold onAuthenticate, submitBrowserAuth, auth_failed, NativeIdentity.signMessage, NativeIdentity.checked, NativeIdentity.required.
    keeps_through; by apply upd_confirm_ok.
  - unfold onCopySession. keeps_through.
Qed.

(** ** What the handlers ask *)

(** the camera, the clipboard, the settings, a message: nothing that signs or
    reaches the node *)
Definition harmless (e : event) : Prop :=
  match e with
  | Ev c _ => match c with
              | native m _ _ => m = CAMERA ∨ m = LINKING ∨ m = js "Clipboard"
              | alert _ _ _ => True
              | _ => False
              end
  end.

Lemma harmless_navigate u : emits harmless (tryNavigate focused u).
Proof. unfold tryNavigate. emits_through. Qed.

Lemma harmless_scanned i raw : emits harmless (onScanned i raw).
Proof. unfold onScanned. emits_through; done. Qed.

Lemma harmless_handler a : (∀ i v identity l, a ≠ Authenticate i v identity l) → emits harmless (handle a).
Proof.
  intros Ha. destruct a as [u| | |text|v| |i| |i codes|i|i v identity l|v]; cbn [handler].
  - unfold routeAuthUrl. emits_through. all: apply harmless_navigate.
  - unfold timer. emits_through. apply harmless_navigate.
  - emits_through.
  - unfold typed. emits_through.
  - unfold onOpenBrowserAuth, set_inputError. emits_through; simpl; auto.
  - unfold QRScanScreen, getCameraPermissionStatus, requestCameraPermission, camera_status. emits_through; simpl; auto.
  - unfold retryPermission, requestCameraPermission, camera_status. emits_through; simpl; auto.
  - unfold goToSettings, openAppSettings. emits_through; simpl; auto.
  - unfold onCodeScanned. emits_through; apply harmless_scanned.
  - emits_through.
  - by destruct (Ha i v identity l).
  - unfold onCopySession. emits_through; simpl; auto.
Qed.
End Consent.

(** ** The challenge that is signed is the one that was shown *)

Lemma lower_hex_stable h : lower_hex_text h → toLowerCase (trim h) = h.
Proof.
  intros H. rewrite trim_no_space.
  - induction H as [|c h Hc _ IH]; [done|]. simpl. f_equal; [|exact IH]. revert Hc. clear.
    destruct c as [[] [] [] [] [] [] [] []]; vm_compute; congruence.
  - eapply list.Forall_impl; [exact H|]. intros c. destruct c as [[] [] [] [] [] [] [] []]; vm_compute; congruence.
Qed.

Lemma parsed_challenge u c :
  parseBrowserAuthLink u = inr (Some c) → length (challengeHex c) = 64%nat ∧ lower_hex_text (challengeHex c).
Proof.
  unfold parseBrowserAuthLink. destruct u as [[|x u]|]; [done| |done]. generalize (trim (x :: u)). intros s. cbv zeta.
  destruct (CHALLENGE_REGEX s) eqn:E.
  - intros [= <-]. cbn [challengeHex]. unfold CHALLENGE_REGEX in E. apply andb_true_iff in E as [El Eh]. rewrite toLowerCase_length.
    split; [by apply Nat.eqb_eq|]. apply forallb_Forall in Eh. unfold lower_hex_text, toLowerCase. apply List.Forall_map.
    eapply list.Forall_impl; [exact Eh|]. apply lower_hex_char.
  - destruct (startsWith _ _); [|done]. cbn [negb]. destruct (negb _); [done|].
    destruct (validateChallenge _) as [e|h] eqn:Ev; [done|]. intros [= <-]. cbn [challengeHex].
    by apply validateChallenge_ok in Ev as (_ & ? & ?).
Qed.

Lemma authenticate_trace nativeModule i c did tr r :
  trace obs (onAuthenticate nativeModule i (Some c) did) tr r →
  r = inr tt ∧ (tr = [] ∨ ∃ r', trace obs (submitBrowserAuth (S := app) nativeModule (challengeHex c) did) tr r').
Proof.
  unfold onAuthenticate. destruct (truthy did); cbn [negb]; [|intros [-> ->]%trace_ret; auto].
  unfold mbind, outside_bind. intros H. do 2 (apply trace_after_modify in H). apply trace_finally_set in H.
  apply trace_try_catch in H as [([] & -> & H)|(e & tr1 & tr2 & -> & H & H2)].
  - split; [done|]. right. apply trace_bind in H as [(e & _ & ?)|(out & tr1 & tr2 & -> & H & H2)]; [done|].
    apply trace_modify in H2 as [-> _]. rewrite app_nil_r. eauto.
  - apply trace_modify in H2 as [-> ->]. rewrite app_nil_r. split; [done|]. right.
    apply trace_bind in H as [(e' & H & _)|(out & tr3 & tr4 & -> & H & H2)]; [eauto|].
    by apply trace_modify in H2 as [_ ?].
Qed.

(** the button is there: the challenge and its link are those of the rendering *)
Lemma prompt_of v identity l ct dt nt e b f :
  shows_link v → confirm_view identity l v = Prompt ct dt nt e b f →
  ∃ did u c, identity = Some did ∧ l = false ∧ url v = Some u ∧ parseBrowserAuthLink (Some u) = inr (Some c) ∧ challenge v = Some c ∧
    Prompt ct dt nt e b f =
      Prompt (shortened (challengeHex c)) (truncatedDid did) (nodeLabel c) (err v) (submitting v) (startsWith (js "zhtp://") u).
Proof.
  intros (u & c & Hu & Hp & Hc & He) H. unfold confirm_view in H. destruct identity as [did|]; [|done]. destruct l; [done|].
  rewrite He, Hc in H. destruct (result v) as [[? ?]|]; [done|]. rewrite Hu in H. exists did, u, c. by rewrite <-H.
Qed.

Section Consented.
Context (nativeModule Camera : option (jstr → bool)) (OS : platform) (has_openSettings : bool)
        (focused : app → option nat).

(** C8: Whatever links, frames of the camera, pasted texts, permissions and
    answers came before, no handler has anything signed or sent to the node but
    the button of a confirmation screen that shows it: what is signed and posted,
    once, is the challenge of the link of that screen, of which the screen shows
    the first ten and last eight digits, for the identity it shows; the press
    never fails. *)
Theorem signs_only_what_is_confirmed w a tr r :
  rtc (Async.step (λ e, bind (handler nativeModule Camera OS has_openSettings focused e) (λ _, ret [])) (λ _ _, False) (λ _ _ _, True))
    (mkWorld started 0 []) w →
  (∀ i v identity l, a = Authenticate i v identity l → confirms (ws w) !! i = Some v) →
  trace obs (handler nativeModule Camera OS has_openSettings focused a) tr r →
  Forall harmless tr ∨
  ∃ i v did u c r', a = Authenticate i v (Some did) false ∧ r = inr tt ∧
    url v = Some u ∧ parseBrowserAuthLink (Some u) = inr (Some c) ∧
    confirm_view (Some did) false v =
      Prompt (shortened (challengeHex c)) (truncatedDid did) (nodeLabel c) (err v) false (startsWith (js "zhtp://") u) ∧
    length (challengeHex c) = 64%nat ∧ startsWith DID_ZHTP did = true ∧ exchange (challengeHex c) did tr r'.
Proof.
  intros Hw Hv H.
  assert (links_ok (ws w)) as [Hc _].
  { eapply keeps_reachable; [apply keeps_auth_handler|..|exact Hw]; [by intros x y []| |done]. split; [apply map_Forall_empty|constructor]. }
  destruct a as [u| | |text|t| |i| |i codes|i|i v identity l|v];
    try (left; eapply harmless_handler; [|exact H]; by intros).
  specialize (Hc i v (Hv i v identity l eq_refl)). cbn [handler] in H. unfold pressAuthenticate in H.
  destruct (confirm_view identity l v) as [|m|sid at_|ct dt nt e b f] eqn:Ev; try (apply trace_ret in H as [-> _]; left; constructor).
  destruct (prompt_of _ _ _ _ _ _ _ _ _ Hc Ev) as (did & u & c & -> & -> & Hu & Hp & Hch & Epr). rewrite Epr in Ev.
  injection Epr as -> -> -> -> -> ->.
  destruct (submitting v); [apply trace_ret in H as [-> _]; left; constructor|].
  rewrite Hch in H. apply authenticate_trace in H as [-> [->|[r' H]]]; [left; constructor|].
  destruct (parsed_challenge _ _ Hp) as [Hl Hx].
  destruct (signed_challenge_is_posted _ _ _ _ _ H) as [[-> _]|(h & -> & _ & _ & Hd & He)]; [left; constructor|].
  rewrite lower_hex_stable in He by done. right. exists i, v, did, u, c, r'. by repeat split.
Qed.
End Consented.

(** a link is opened, and the button of its screen is pressed *)
Definition a_link : jstr := auth_link a_challenge (js "n1:9334").
Definition every_module : option (jstr → bool) := Some (λ _, true).
Abbreviation handle1 := (handler every_module every_module android true (λ _, None)).
Abbreviation linked := (launch (bind (handle1 (DeepLink (Some a_link))) (λ _, ret [])) (launch (bind (handle1 Ready) (λ _, ret [])) (mkWorld started 0 []))).

Lemma linked_reachable :
  rtc (Async.step (λ e, bind (handle1 e) (λ _, ret [])) (λ _ _, False) (λ _ _ _, True)) (mkWorld started 0 []) linked.
Proof. etrans; apply (launch_step (λ e, bind (handle1 e) (λ _, ret []))). Qed.

Lemma linked_shows : confirms (ws linked) !! 0%nat = Some (opened (Some a_link)).
Proof. vm_compute. reflexivity. Qed.

Lemma pressed_traced :
  trace obs (handle1 (Authenticate 0 (opened (Some a_link)) (Some (js "did:zhtp:a1")) false)) auth_trace (inr tt).
Proof.
  cbn [handler]. unfold pressAuthenticate.
  assert (confirm_view (Some (js "did:zhtp:a1")) false (opened (Some a_link)) =
    Prompt (shortened (toLowerCase a_challenge)) (Said (js "did:zhtp:a1...a1")) (Said (js "n1:9334")) None false true) as -> by (vm_compute; reflexivity).
  assert (challenge (opened (Some a_link)) = Some (mkChallenge (toLowerCase a_challenge) (Some (js "n1:9334")))) as -> by (vm_compute; reflexivity).
  exists started, started. do 3 (eexists; eexists; split; [reflexivity|]). exists started, started. by split.
Qed.

Lemma signs_only_what_is_confirmed_witness :
  ∃ c r', parseBrowserAuthLink (Some a_link) = inr (Some c) ∧ exchange (challengeHex c) (js "did:zhtp:a1") auth_trace r'.
Proof.
  destruct (signs_only_what_is_confirmed every_module every_module android true (λ _, None) linked
    (Authenticate 0 (opened (Some a_link)) (Some (js "did:zhtp:a1")) false) auth_trace (inr tt) linked_reachable)
    as [H|(i & v & did & u & c & r' & Ha & _ & Hu & Hp & _ & _ & _ & He)].
  - intros i v identity l [= <- <- <- <-]. exact linked_shows.
  - exact pressed_traced.
  - inversion H as [|x l Hx Hl]. destruct Hx.
  - injection Ha as <- <- <-. injection Hu as <-. exists c, r'. split; [exact Hp|exact He].
Defined.

(** ** What the screens do not do *)

(** The screen names the node of the link as the target node; where the signature
    is posted does not depend on it. *)
Fact target_node_is_not_used nativeModule i h n1 n2 did :
  onAuthenticate nativeModule i (Some (mkChallenge h n1)) did = onAuthenticate nativeModule i (Some (mkChallenge h n2)) did ∧
  (n1 ≠ n2 → nodeLabel (mkChallenge h n1) ≠ nodeLabel (mkChallenge h n2)).
Proof.
  split; [done|]. intros Hn. unfold nodeLabel. cbn [node]. intros E. apply Hn. destruct n1, n2; congruence.
Qed.

(** A screen that has signed and is given another link still shows that the browser
    is signed in: the new challenge is neither shown nor asked for. *)
Fact new_link_shows_old_success v did u s t c :
  result v = Some (s, t) → parseBrowserAuthLink (Some u) = inr (Some c) →
  confirm_view (Some did) false (with_url (Some u) v) = Success s t.
Proof. intros Hr Hp. unfold confirm_view, with_url, parsed_link. rewrite Hp. simpl. by rewrite Hr. Qed.

(** A code that holds a malformed link is reported again for every frame of the
    camera: nothing is kept of the report. *)
Fact malformed_code_reported_again {D} (handle : ∀ R : Set, req R → D → (error + R) * D) i raw e x s d :
  scanners s !! i = Some x → handled x = false → parseBrowserAuthLink (Some raw) = inl e →
  trace obs (onScanned i raw) [Ev (alert (js "qrScan.invalidQr.title") (message e) []) (inr 0%nat)] (inr tt) ∧
  ∃ d', solo handle (onScanned i raw) s d = Some ((let r := (handle _ (alert (js "qrScan.invalidQr.title") (message e) []) d).1 in
    match r with inl e => inl e | inr _ => inr tt end), s, d').
Proof.
  intros Hx Hh He. unfold onScanned, mbind, outside_bind. rewrite He. split.
  - exists s. rewrite Hx, Hh. eexists _, []. split; [reflexivity|]. by split.
  - rewrite solo_bind, solo_gets, Hx, Hh, solo_bind, solo_call.
    destruct (handle _ _ d) as [[e'|n] d']; cbn [fst snd]; eexists; reflexivity.
Qed.

Example a_malformed_link :
  parseBrowserAuthLink (Some (js "zhtp://auth?challenge=12")) = inl (Error (js "Challenge must be exactly 64 hex characters (32 bytes)")).
Proof. vm_compute. reflexivity. Qed.

(** A scanner opens one screen: a code it has handled is the last. *)
Fact scanner_opens_once {D} (handle : ∀ R : Set, req R → D → (error + R) * D) i u raw x s d :
  scanners s !! i = Some x → solo handle (onScanned i raw) (replace i u s) d = Some (inr tt, replace i u s, d).
Proof.
  intros Hx. unfold onScanned, mbind, outside_bind. rewrite solo_bind, solo_gets.
  replace (scanners (replace i u s) !! i) with (Some (mkScanner (permission x) (checking x) true true)); [done|].
  unfold replace, upd_scanner. rewrite Hx. simpl. by rewrite lookup_insert_eq.
Qed.

(** A permission is called blocked only when it was denied before and after the
    user was asked, and every answer of the camera is one of the known ones. *)
Fact blocked_after_two_denials before after :
  after_request before after = blocked ↔ after = JStr (js "denied") ∧ before = JStr (js "denied").
Proof.
  unfold after_request. assert (∀ k v, is_text k v = true ↔ v = JStr k) as Ht.
  { intros k v. destruct v; simpl; try done. rewrite bool_decide_eq_true. split; [by intros ->|by intros [= ->]]. }
  assert (∀ v, mapVisionStatus v ≠ blocked) as Hm by (intros []; simpl; try done; repeat case_bool_decide; done).
  destruct (is_text (js "granted") after) eqn:E1; [apply Ht in E1 as ->; split; [done|by intros [? _]]|].
  destruct (is_text (js "restricted") after) eqn:E2; [apply Ht in E2 as ->; split; [done|by intros [? _]]|].
  rewrite <-!Ht. destruct (is_text (js "denied") after), (is_text (js "denied") before); simpl; split; try done; try (by intros []); by intros ?%Hm.
Qed.
