(* ===== verification/Dates.v ===== *)
(** * Dates of JavaScript: [new Date(v).getTime()] and [toISOString]

    The language fixes how the format that [toISOString] writes is read; what an
    engine makes of another text is its own choice and a parameter.  A time is a
    number of milliseconds of at most 8.64e15 either way. *)

From stdpp Require Import strings.
From S2P Require Import Prelude JsString JsMap Json Outside.
From S2P Require Doubles Rewards Backup.
#[local] Open Scope Z_scope.

Definition MAX_TIME : Z := 8640000000000000.
Definition time_clip (t : Z) : option Z := if Z.abs t <=? MAX_TIME then Some t else None.

(** ** Reading the ISO format *)

(** a field of [k] digits *)
Definition field (k : nat) (s : jstr) : option (Z * jstr) :=
  if (length (take k s) =? k)%nat && forallb is_digit (take k s) then Some (dec_val (take k s), drop k s) else None.
Definition literal (t s : jstr) : option jstr := if startsWith t s then Some (drop (length t) s) else None.
Definition iso_year_field (s : jstr) : option (Z * jstr) :=
  match s with
  | "+"%char :: s' => field 6 s'
  | "-"%char :: s' => '(y, r) ← field 6 s'; if y =? 0 then None else Some (- y, r)
  | _ => field 4 s
  end.
Definition month_days (y mo : Z) : Z :=
  Rewards.month_start (Rewards.leap_day y) mo - Rewards.month_start (Rewards.leap_day y) (mo - 1).
Definition iso_time (y mo d h mi s ms : Z) : option Z :=
  if (1 <=? mo) && (mo <=? 12) && (1 <=? d) && (d <=? month_days y mo) && (h <=? 23) && (mi <=? 59) && (s <=? 59)
  then time_clip ((Rewards.DayFromYear y + Rewards.month_start (Rewards.leap_day y) (mo - 1) + d - 1) * Rewards.MS_PER_DAY
                  + h * 3600000 + mi * 60000 + s * 1000 + ms)
  else None.
Definition parse_iso (s : jstr) : option Z :=
  '(y, s) ← iso_year_field s;
  s ← literal (js "-") s;
  '(mo, s) ← field 2 s;
  s ← literal (js "-") s;
  '(d, s) ← field 2 s;
  s ← literal (js "T") s;
  '(h, s) ← field 2 s;
  s ← literal (js ":") s;
  '(mi, s) ← field 2 s;
  s ← literal (js ":") s;
  '(sec, s) ← field 2 s;
  s ← literal (js ".") s;
  '(ms, s) ← field 3 s;
  s ← literal (js "Z") s;
  if truthy s then None else iso_time y mo d h mi sec ms.

(** ** [new Date(v).getTime()]; [None] is [NaN] *)

(** a number, truncated *)
Definition number_time (x : Doubles.double) : option Z :=
  match x with Doubles.Fin u => time_clip (Z.quot u (2 ^ 1074)) | _ => None end.
Definition number_of (v : json) : option Doubles.double :=
  match v with
  | JNum n => Some (Doubles.of_Z n)
  | JDec m e => Some (Doubles.of_ratio m (10 ^ Z.of_nat e))
  | _ => None
  end.
Definition date_ms (other_dates : jstr → option Z) (v : json) : option Z :=
  match v with
  | JNull => Some 0
  | JBool b => Some (Z.b2z b)
  | JNum _ | JDec _ _ => x ← number_of v; number_time x
  | JStr s => match parse_iso s with Some t => Some t | None => t ← other_dates s; time_clip t end
  | JArr _ | JObj _ => t ← other_dates (js_String v); time_clip t
  end.

(** * Properties *)

Lemma field_padded k n s :
  0 ≤ n < 10 ^ Z.of_nat (S k) → field (S k) (padStart (S k) "0" (dec_str n) ++ s) = Some (n, s).
Proof.
  intros Hn. unfold field. rewrite take_app_length', drop_app_length' by (by rewrite field_length).
  rewrite field_length, field_val, Nat.eqb_refl by lia.
  replace (forallb is_digit _) with true; [done|]. symmetry. apply forallb_Forall.
  unfold padStart. apply Forall_app. split; [by apply Forall_replicate|]. apply dec_str_digits. lia.
Qed.

Lemma literal_app t s : literal t (t ++ s) = Some s.
Proof.
  unfold literal. rewrite (proj2 (startsWith_spec t (t ++ s))) by by eexists. by rewrite drop_app_length.
Qed.

Lemma bind_read {A B} (x : A) (f : A → option B) : mbind f (Some x) = f x.
Proof. done. Qed.
Lemma bind_field {B} k n s (f : Z * jstr → option B) :
  0 ≤ n < 10 ^ Z.of_nat (S k) → mbind f (field (S k) (padStart (S k) "0" (dec_str n) ++ s)) = f (n, s).
Proof. intros H. by rewrite field_padded. Qed.
Lemma bind_literal {B} t s (f : jstr → option B) : mbind f (literal t (t ++ s)) = f s.
Proof. by rewrite literal_app. Qed.

Lemma digit_neq n k : 0 ≤ n → ∃ c s, padStart (S k) "0" (dec_str n) = c :: s ∧ is_digit c = true.
Proof.
  intros Hn. assert (Forall (λ c, is_digit c = true) (padStart (S k) "0" (dec_str n))) as H.
  { unfold padStart. apply Forall_app. split; [by apply Forall_replicate|by apply dec_str_digits]. }
  destruct (padStart _ _ _) as [|c s] eqn:E.
  - exfalso. apply (f_equal length) in E. unfold padStart in E. rewrite length_app in E. pose proof (dec_str_nonempty n). by destruct (dec_str n); simpl in E; try lia.
  - inversion H. eauto.
Qed.

Lemma iso_year_read y s : - 999999 ≤ y ≤ 999999 → iso_year_field (Rewards.iso_year y ++ s) = Some (y, s).
Proof.
  intros Hy. unfold Rewards.iso_year. destruct ((0 <=? y) && (y <=? 9999)) eqn:E.
  - apply andb_true_iff in E as [E1%Z.leb_le E2%Z.leb_le].
    destruct (digit_neq y 3 E1) as (c & t & Ec & Hc). pose proof (field_padded 3 y s ltac:(lia)) as Hf. rewrite Ec in Hf |- *. cbn [app] in *.
    unfold iso_year_field. destruct c as [[] [] [] [] [] [] [] []]; try discriminate Hc; exact Hf.
  - apply andb_false_iff in E. rewrite !Z.leb_gt in E. rewrite <-app_assoc. destruct (Z.ltb_spec y 0).
    + cbn [app]. unfold iso_year_field. change (js "-") with ["-"%char]. cbn [app]. rewrite field_padded by lia. cbn.
      destruct (Z.abs y =? 0) eqn:E0; [lia|]. do 2 f_equal. lia.
    + change (js "+") with ["+"%char]. cbn [app]. unfold iso_year_field. rewrite field_padded by lia. do 2 f_equal. lia.
Qed.

Lemma month_of_days leap n :
  0 ≤ leap ≤ 1 → 0 ≤ n < 365 + leap →
  Rewards.month_start leap (Rewards.month_of 11 leap n) ≤ n < Rewards.month_start leap (Rewards.month_of 11 leap n + 1).
Proof.
  intros Hl Hn. unfold Rewards.month_of, Rewards.month_start. simpl.
  repeat match goal with |- context [if ?a <=? ?b then _ else _] => destruct (Z.leb_spec a b) end; simpl; lia.
Qed.

Lemma year_bound d : Z.abs d ≤ 100000000 → - 999999 ≤ Rewards.YearFromDay d ≤ 999999.
Proof.
  intros Hd. pose proof (Rewards.YearFromDay_spec d) as H. generalize dependent (Rewards.YearFromDay d). intros y Hy.
  unfold Rewards.DayFromYear in Hy. Z.to_euclidean_division_equations. lia.
Qed.

(** what [toISOString] writes is read as the same time *)
Lemma iso_roundtrip t : Z.abs t ≤ MAX_TIME → parse_iso (Backup.toISOString t) = Some t.
Proof.
  intros Ht. unfold Backup.toISOString, Rewards.iso_date. cbv zeta.
  set (d := t / Rewards.MS_PER_DAY). set (ms := t mod Rewards.MS_PER_DAY).
  assert (t = d * Rewards.MS_PER_DAY + ms ∧ 0 ≤ ms < Rewards.MS_PER_DAY) as [Et Hms]
    by (unfold d, ms, Rewards.MS_PER_DAY; Z.to_euclidean_division_equations; lia).
  assert (Z.abs d ≤ 100000000) as Hd by (unfold MAX_TIME, Rewards.MS_PER_DAY in *; lia).
  pose proof (year_bound d Hd) as Hy. pose proof (Rewards.YearFromDay_spec d) as Hyd.
  set (y := Rewards.YearFromDay d) in *. pose proof (Rewards.leap_day_01 y) as Hl.
  assert (0 ≤ d - Rewards.DayFromYear y < 365 + Rewards.leap_day y) as Hn by (unfold Rewards.leap_day; lia).
  pose proof (Rewards.month_of_spec _ _ Hl Hn) as [Hm Hdm]. pose proof (month_of_days _ _ Hl Hn) as Hmd.
  set (n := d - Rewards.DayFromYear y) in *. set (m := Rewards.month_of 11 (Rewards.leap_day y) n) in *.
  assert (0 ≤ ms / 3600000 ≤ 23 ∧ 0 ≤ ms / 60000 mod 60 ≤ 59 ∧ 0 ≤ ms / 1000 mod 60 ≤ 59 ∧ 0 ≤ ms mod 1000 ≤ 999 ∧
    ms = ms / 3600000 * 3600000 + ms / 60000 mod 60 * 60000 + ms / 1000 mod 60 * 1000 + ms mod 1000) as (H1 & H2 & H3 & H4 & Ems).
  { unfold Rewards.MS_PER_DAY in Hms. clear - Hms. Z.to_euclidean_division_equations. lia. }
  unfold parse_iso, Backup.two. rewrite <-!app_assoc, iso_year_read by done. rewrite bind_read. cbv beta iota.
  do 2 (rewrite bind_literal, bind_field by lia; cbv beta iota).
  do 3 (rewrite bind_literal, bind_field by lia; cbv beta iota).
  rewrite bind_literal, bind_field by lia. cbv beta iota. rewrite <-(app_nil_r (js "Z")), bind_literal. cbn [truthy].
  unfold iso_time, month_days. replace (m + 1 - 1) with m by lia.
  rewrite !(proj2 (Z.leb_le _ _)) by lia. cbn [andb]. unfold time_clip.
  match goal with |- context [Z.abs ?z <=? _] => replace z with t end.
  - by rewrite (proj2 (Z.leb_le _ _)).
  - rewrite Et at 1. rewrite Ems at 1. replace (_ - 1) with d by (unfold n; lia). lia.
Qed.

(** a text that [toISOString] writes is a date *)
Lemma date_of_iso other_dates t : Z.abs t ≤ MAX_TIME → date_ms other_dates (JStr (Backup.toISOString t)) = Some t.
Proof. intros H. unfold date_ms. by rewrite iso_roundtrip. Qed.

Lemma time_clip_bound t u : time_clip t = Some u → Z.abs u ≤ MAX_TIME.
Proof. unfold time_clip. destruct (Z.leb_spec (Z.abs t) MAX_TIME); [by intros [= <-]|done]. Qed.

Lemma iso_time_bound y mo d h mi s ms t : iso_time y mo d h mi s ms = Some t → Z.abs t ≤ MAX_TIME.
Proof. unfold iso_time. destruct (_ && _); [|done]. apply time_clip_bound. Qed.

Lemma parse_iso_bound s t : parse_iso s = Some t → Z.abs t ≤ MAX_TIME.
Proof.
  unfold parse_iso. intros H. repeat match type of H with mbind _ ?o = _ =>
    (lazymatch type of o with option (_ * _) => destruct o as [[? ?]|] | _ => destruct o as [?|] end);
    [cbn [mbind option_bind] in H|done] end.
  destruct (truthy _); [done|]. by apply iso_time_bound in H.
Qed.

Lemma date_ms_bound other_dates v t : date_ms other_dates v = Some t → Z.abs t ≤ MAX_TIME.
Proof.
  assert (∀ o : option Z, (t' ← o; time_clip t') = Some t → Z.abs t ≤ MAX_TIME) as Ho by (intros [u|] H; [by apply time_clip_bound in H|done]).
  assert (∀ x, number_time x = Some t → Z.abs t ≤ MAX_TIME) as Hx by (intros [u| |] H; [by apply time_clip_bound in H|done|done]).
  destruct v as [|b|n|m e|s|l|l]; cbn [date_ms]; intros H.
  - by injection H as <-.
  - injection H as <-. by destruct b.
  - by apply Hx in H.
  - by apply Hx in H.
  - destruct (parse_iso s) as [u|] eqn:E; [injection H as ->; by apply parse_iso_bound in E|by apply Ho in H].
  - by apply Ho in H.
  - by apply Ho in H.
Qed.

Example date_of_text : date_ms (λ _, None) (JStr (js "2026-06-12T08:30:00.000Z")) = Some 1781253000000.
Proof. by vm_compute. Qed.
Example no_such_day : date_ms (λ _, None) (JStr (js "2023-02-29T00:00:00.000Z")) = None.
Proof. by vm_compute. Qed.
