(* ===== verification/DomainList.v ===== *)
(** * The list of registered domains: src/src/screens/MyDomainsScreen.tsx,
    DomainManagementScreen.tsx, DomainDetailScreen.tsx

    Three screens over the list that DomainRegistrationScreen (DomainRegister.v)
    keeps in AsyncStorage: one repairs it and removes duplicates when it is opened,
    the others read it as it is, delete from it, and ask the node how long a domain
    lasts (Domains.v).  The status checks of a list, started together in the source,
    are asked in turn.  Dates are those of Dates.v; [other_dates] is what the engine
    makes of texts that are not in its own format. *)

From stdpp Require Import strings gmap.
From S2P Require Import Prelude JsString JsMap Json Async Outside Dates.
From S2P Require Doubles Domains Backup DomainRegister NativeIdentity.
#[local] Open Scope Z_scope.

Abbreviation REGISTERED_DOMAINS_KEY := DomainRegister.REGISTERED_DOMAINS_KEY.
Definition MIGRATION_FLAG_KEY : jstr := js "sov:registered_domains_migrated_v1".

(** [v && ..], when the property is there *)
Definition truthy_prop (k : jstr) (e : json) : option json :=
  match jget k e with Some v => if jtruthy v then Some v else None | None => None end.

Section Dates.
Context (other_dates : jstr → option Z).

(** ** migrateStoredDomains *)

Definition expiry_of (e : json) : option Z := v ← truthy_prop (js "expires_at") e; date_ms other_dates v.
Definition registered_of (e : json) : option Z := v ← truthy_prop (js "registered_at") e; date_ms other_dates v.
Definition DURATION_MS : Z := DomainRegister.DOMAIN_REGISTRATION_DURATION_SECS * 1000.

(** [{ ...e, [k]: v }] of an object *)
Definition with_prop (k : jstr) (v e : json) : json := match e with JObj l => JObj (mset k v l) | _ => e end.
Definition is_object (v : json) : bool := match v with JObj _ | JArr _ => true | _ => false end.

(** the entry that is kept, and whether anything changed *)
Definition repair (e : json) : error + (option json * bool) :=
  if negb (is_object e) then inr (None, true)
  else match expiry_of e with
  | Some _ => inr (Some e, false)
  | None =>
      match registered_of e with
      | None => inr (Some e, false)
      | Some t =>
          if MAX_TIME <? Z.abs (t + DURATION_MS) then inl DomainRegister.RangeError
          else inr (Some (with_prop (js "expires_at") (JStr (Backup.toISOString (t + DURATION_MS))) e), true)
      end
  end.
Fixpoint repair_all (l : list json) : error + (list json * bool) :=
  match l with
  | [] => inr ([], false)
  | e :: l =>
      match repair e with
      | inl err => inl err
      | inr (o, c) =>
          match repair_all l with
          | inl err => inl err
          | inr (es, c') => inr (match o with Some e => e :: es | None => es end, c || c')
          end
      end
  end.

Fixpoint dedupe (l : list json) (byDomain : jsmap jstr json) (changed : bool) : error + (jsmap jstr json * bool) :=
  match l with
  | [] => inr (byDomain, changed)
  | e :: l =>
      match truthy_prop (js "domain") e with
      | None => dedupe l byDomain changed
      | Some (JStr s) => dedupe l (mset (toLowerCase s) e byDomain) (changed || mhas (toLowerCase s) byDomain)
      | Some _ => inl TypeError
      end
  end.

Definition migrateStoredDomains (raw : json) : error + (list json * bool) :=
  match raw with
  | JArr l =>
      match repair_all l with
      | inl err => inl err
      | inr (repaired, changed) =>
          match dedupe repaired [] changed with
          | inl err => inl err
          | inr (byDomain, changed) => inr (mvalues byDomain, changed)
          end
      end
  | _ => inr ([], jtruthy raw)
  end.

(** ** The screens *)

(** [domains] of a list, [domain] of a detail *)
Record screen := mkScreen {
  domains : list json; domain : option json; loading : bool;
  updating : bool; contentCid : jstr; updateError : option jstr; updateStatus : option bool * jstr;
  left_ : bool; cachedTokens : Domains.registry }.
Definition setDomains l s := mkScreen l (domain s) (loading s) (updating s) (contentCid s) (updateError s) (updateStatus s) (left_ s) (cachedTokens s).
Definition setDomain d s := mkScreen (domains s) d (loading s) (updating s) (contentCid s) (updateError s) (updateStatus s) (left_ s) (cachedTokens s).
Definition setLoading b s := mkScreen (domains s) (domain s) b (updating s) (contentCid s) (updateError s) (updateStatus s) (left_ s) (cachedTokens s).
Definition setUpdating b s := mkScreen (domains s) (domain s) (loading s) b (contentCid s) (updateError s) (updateStatus s) (left_ s) (cachedTokens s).
Definition setContentCid c s := mkScreen (domains s) (domain s) (loading s) (updating s) c (updateError s) (updateStatus s) (left_ s) (cachedTokens s).
Definition setUpdateError e s := mkScreen (domains s) (domain s) (loading s) (updating s) (contentCid s) e (updateStatus s) (left_ s) (cachedTokens s).
Definition setUpdateStatus k m s := mkScreen (domains s) (domain s) (loading s) (updating s) (contentCid s) (updateError s) (k, m) (left_ s) (cachedTokens s).
Definition setCachedTokens c s := mkScreen (domains s) (domain s) (loading s) (updating s) (contentCid s) (updateError s) (updateStatus s) (left_ s) c.
Definition goBack s := mkScreen (domains s) (domain s) (loading s) (updating s) (contentCid s) (updateError s) (updateStatus s) true (cachedTokens s).

#[local] Abbreviation prog := (Outside.prog screen).
(** [Alert.alert] without buttons: nothing waits for it *)
Definition say (title text : string) : prog unit := void (call (alert (js title) (js text) []);; ret tt).

(** *** The status of a domain *)

(** [{ ...domain, .. }] of any value *)
Definition index_props (l : list json) : list (jstr * json) := imap (λ i v, (dec_str (Z.of_nat i), v)) l.
Definition spread_value (v : json) : list (jstr * json) :=
  match v with
  | JObj l => l
  | JArr l => index_props l
  | JStr s => index_props (map (λ c, JStr [c]) s)
  | _ => []
  end.
Definition unknown_status (d : json) : json := JObj (mset (js "status") (JStr (js "unknown")) (spread_value d)).
Definition DAY_MS : Z := 86400000.
(** [Math.ceil] of a quotient of integers *)
Definition ceil_div (n d : Z) : Z := - ((- n) / d).
Definition known_status (d : json) (t now : Z) : json :=
  JObj (mset (js "daysUntilExpiry") (JNum (Z.max 0 (ceil_div (t - now) DAY_MS)))
       (mset (js "status") (JStr (if t <? now then js "expired" else js "active"))
       (mset (js "expires_at") (JStr (Backup.toISOString t)) (spread_value d)))).

(** [status?.expires_at ?? domain.expires_at] *)
Definition expires_at (status d : json) : option json :=
  match jget (js "expires_at") status with Some JNull | None => jget (js "expires_at") d | Some v => Some v end.
(** seconds when it is a number, a date otherwise *)
Definition expiry_time (v : option json) : option Z :=
  match v with
  | None => None
  | Some v =>
      match number_of v with
      | Some x => number_time (Doubles.mul x (Doubles.of_Z 1000))
      | None => if jtruthy v then date_ms other_dates v else None
      end
  end.
Definition domain_text (v : option json) : jstr := match v with Some v => js_String v | None => js "undefined" end.

Definition checkStatus (d : json) : prog json :=
  try_catch
    (name ← dot d (js "domain");
     status ← try_catch (lift cachedTokens setCachedTokens (Domains.getDomainStatus (domain_text name))) (λ _, ret JNull);
     match expiry_time (expires_at status d) with
     | None => ret (unknown_status d)
     | Some t => now ← call Date_now; ret (known_status d t now)
     end)
    (λ _, ret (unknown_status d)).
Fixpoint check_all (l : list json) : prog (list json) :=
  match l with [] => ret [] | d :: l => s ← checkStatus d; rest ← check_all l; ret (s :: rest) end.

(** *** MyDomainsScreen *)

Definition persist (es : list json) : prog unit :=
  try_catch
    (call (setItem REGISTERED_DOMAINS_KEY (stringify (JArr es)));;
     call (setItem MIGRATION_FLAG_KEY (js "1")))
    (λ _, ret tt).
Definition stored_domains (text : option jstr) : prog (list json) :=
  match text with
  | Some s =>
      if negb (truthy s) then ret []
      else match migrateStoredDomains (default (JArr []) (json_parse s)) with
      | inl e => throw e
      | inr (es, changed) => (if changed : bool then persist es else ret tt);; ret es
      end
  | None => ret []
  end.
Definition loadDomains : prog unit :=
  try_finally
    (try_catch
       (modify (setLoading true);;
        text ← call (getItem REGISTERED_DOMAINS_KEY);
        es ← stored_domains text;
        l ← check_all es;
        modify (setDomains l))
       (λ _, say "Error" "Failed to load domains"))
    (modify (setLoading false)).

(** *** DomainManagementScreen *)

(** the stored text as it is *)
Definition parsed_domains : prog json :=
  text ← call (getItem REGISTERED_DOMAINS_KEY);
  match text with Some s => if truthy s then or_syntax_error (json_parse s) else ret (JArr []) | None => ret (JArr []) end.
Definition as_array (v : json) : prog (list json) := match v with JArr l => ret l | _ => throw TypeError end.

Definition loadDomains_unrepaired : prog unit :=
  try_finally
    (try_catch
       (modify (setLoading true);;
        v ← parsed_domains;
        es ← as_array v;
        l ← check_all es;
        modify (setDomains l))
       (λ _, say "Error" "Failed to load domains"))
    (modify (setLoading false)).

(** [===] of two properties: objects are never the same *)
Definition strict_eq (v w : option json) : bool :=
  match v, w with
  | None, None => true
  | Some JNull, Some JNull => true
  | Some (JBool a), Some (JBool b) => Bool.eqb a b
  | Some (JStr a), Some (JStr b) => bool_decide (a = b)
  | Some v, Some w =>
      match number_of v, number_of w with
      | Some x, Some y => Doubles.le x y && Doubles.le y x
      | _, _ => false
      end
  | _, _ => false
  end.
(** [l.filter(d => !p(d.domain))] *)
Fixpoint without (p : option json → bool) (l : list json) : prog (list json) :=
  match l with
  | [] => ret []
  | d :: l => v ← dot d (js "domain"); rest ← without p l; ret (if p v then rest else d :: rest)
  end.

(** reads the list, takes some away and writes it *)
Definition remove_where (p : option json → bool) : prog unit :=
  v ← parsed_domains;
  l ← as_array v;
  kept ← without p l;
  call (setItem REGISTERED_DOMAINS_KEY (stringify (JArr kept))).

Definition remove_text (name : jstr) : jstr := js "Remove " ++ [dq] ++ name ++ [dq] ++ js " from your domain list?".
(** [v] is [domains] of the rendering *)
Definition handleDeleteDomain (v : list json) (name : jstr) : prog unit :=
  button ← call (alert (js "Delete Domain") (remove_text name) [js "Cancel"; js "Delete"]);
  if bool_decide (button = 1%nat) then
    try_catch
      (remove_where (λ d, strict_eq d (Some (JStr name)));;
       modify (setDomains (List.filter (λ d, negb (strict_eq (jget (js "domain") d) (Some (JStr name)))) v));;
       say "Success" "Domain removed from your list")
      (λ _, say "Error" "Failed to delete domain")
  else ret tt.

Definition is_expired (d : json) : bool := bool_decide (str_field (js "status") d = Some (js "expired")).
Definition handleCleanupExpired (v : list json) : prog unit :=
  let expiredDomains := List.filter is_expired v in
  if (length expiredDomains =? 0)%nat then say "Info" "No expired domains to clean up"
  else
    button ← call (alert (js "Cleanup Expired Domains")
                     (js "Remove " ++ dec_str (Z.of_nat (length expiredDomains)) ++ js " expired domain(s)?") [js "Cancel"; js "Clean Up"]);
    if bool_decide (button = 1%nat) then
      try_catch
        (remove_where (λ d, existsb (λ ed, strict_eq (jget (js "domain") ed) d) expiredDomains);;
         modify (setDomains (List.filter (λ d, negb (is_expired d)) v));;
         say "Success" "Expired domains cleaned up")
        (λ _, say "Error" "Failed to cleanup domains")
    else ret tt.

(** *** DomainDetailScreen: [domainName] is its parameter *)

Fixpoint find_domain (name : option json) (l : list json) : prog (option json) :=
  match l with
  | [] => ret None
  | d :: l => v ← dot d (js "domain"); if strict_eq v name then ret (Some d) else find_domain name l
  end.
Definition loadDomainData (domainName : option json) : prog unit :=
  try_finally
    (try_catch
       (modify (setLoading true);;
        v ← parsed_domains;
        l ← as_array v;
        found ← find_domain domainName l;
        match d ← found; if jtruthy d then Some d else None with
        | Some d => modify (setDomain (Some d))
        | None => say "Error" "Domain not found";; modify goBack
        end)
       (λ _, say "Error" "Failed to load domain details"))
    (modify (setLoading false)).

Definition with_expiry (t : Z) (d : json) : json := JObj (mset (js "expires_at") (JStr (Backup.toISOString t)) (spread_value d)).
Definition refreshStatus (domainName : option jstr) : prog unit :=
  match domainName with
  | None | Some [] => ret tt
  | Some name =>
      try_catch
        (status ← lift cachedTokens setCachedTokens (Domains.getDomainStatus name);
         match truthy_prop (js "expires_at") status with
         | None => ret tt
         | Some v =>
             match expiry_time (Some v) with
             | None => ret tt
             | Some t => modify (λ s, setDomain (with_expiry t <$> domain s) s)
             end
         end)
        (λ _, ret tt)
  end.

(** [v] is the rendering *)
Definition handleUpdateContent (nativeModule : option (jstr → bool)) (v : screen) (domainName : jstr) : prog unit :=
  if negb (truthy (trim (contentCid v))) then modify (setUpdateError (Some (js "Content CID is required")))
  else match domain v with
  | None => ret tt
  | Some _ =>
      modify (setUpdating true);;
      modify (setUpdateError None);;
      modify (setUpdateStatus None []);;
      try_finally
        (try_catch
           (lift cachedTokens setCachedTokens (Domains.updateDomain nativeModule domainName (contentCid v) []);;
            modify (setUpdateStatus (Some true) (js "Domain content updated successfully!"));;
            modify (setContentCid []);;
            void (await (ret tt);; modify goBack))
           (λ error, modify (setUpdateStatus (Some false) (str_or (message error) (js "Failed to update domain")))))
        (modify (setUpdating false))
  end.

Definition deleteDetail (domainName : jstr) : prog unit :=
  button ← call (alert (js "Delete Domain") (remove_text domainName) [js "Cancel"; js "Delete"]);
  if bool_decide (button = 1%nat) then
    try_catch
      (remove_where (λ d, strict_eq d (Some (JStr domainName)));;
       say "Success" "Domain removed from your list";;
       modify goBack)
      (λ _, say "Error" "Failed to delete domain")
  else ret tt.

Inductive action :=
| LoadMine | LoadManaged | LoadDetail (name : option json) | Refresh (name : option jstr)
| Delete (v : list json) (name : jstr) | Cleanup (v : list json) | DeleteDetail (name : jstr)
| Update (nativeModule : option (jstr → bool)) (v : screen) (name : jstr).
Definition handler (a : action) : prog unit :=
  match a with
  | LoadMine => loadDomains
  | LoadManaged => loadDomains_unrepaired
  | LoadDetail name => loadDomainData name
  | Refresh name => refreshStatus name
  | Delete v name => handleDeleteDomain v name
  | Cleanup v => handleCleanupExpired v
  | DeleteDetail name => deleteDetail name
  | Update nativeModule v name => handleUpdateContent nativeModule v name
  end.

(** * Properties *)

(** ** A list that needs no repair *)

(** the name an entry is filed under *)
Definition name_of (e : json) : option jstr :=
  match truthy_prop (js "domain") e with Some (JStr s) => Some (toLowerCase s) | _ => None end.
Definition names (l : list json) : list jstr := omap name_of l.
Definition clean (e : json) : Prop := repair e = inr (Some e, false).
Definition dom_ok (e : json) : Prop :=
  match truthy_prop (js "domain") e with Some (JStr _) | None => True | Some _ => False end.

Lemma names_cons e l : names (e :: l) = match name_of e with Some n => n :: names l | None => names l end.
Proof. unfold names. change (omap name_of (e :: l)) with (match name_of e with Some n => n :: omap name_of l | None => omap name_of l end). done. Qed.
Lemma names_app l1 l2 : names (l1 ++ l2) = names l1 ++ names l2.
Proof. apply omap_app. Qed.

Lemma with_prop_get k k' v e : is_Some (jget k' e) → jget k' (with_prop k v e) = if decide (k' = k) then Some v else jget k' e.
Proof. intros [w H]. destruct e; try done. simpl in *. by rewrite mget_set. Qed.

Lemma truthy_prop_with k k' v e : is_object e = true → k' ≠ k → truthy_prop k' (with_prop k v e) = truthy_prop k' e.
Proof. intros He Hk. unfold truthy_prop. destruct e; try done. simpl. by rewrite mget_set_ne. Qed.

Lemma iso_truthy t : truthy (Backup.toISOString t) = true.
Proof.
  apply truthy_true. intros E. apply (f_equal length) in E. unfold Backup.toISOString in E. rewrite !length_app in E. simpl in E. lia.
Qed.

Lemma repair_spec e e' c :
  repair e = inr (Some e', c) →
  clean e' ∧ truthy_prop (js "domain") e' = truthy_prop (js "domain") e ∧ (c = false → e' = e) ∧ (plain e → plain e').
Proof.
  unfold clean, repair. destruct (is_object e) eqn:Ho; [|done]. cbn [negb].
  destruct (expiry_of e) as [x|] eqn:Ex; [intros [= <- <-]; by rewrite Ho, Ex|].
  destruct (registered_of e) as [t|] eqn:Er; [|intros [= <- <-]; by rewrite Ho, Ex, Er].
  destruct (Z.ltb_spec MAX_TIME (Z.abs (t + DURATION_MS))) as [|Hb]; [done|]. intros [= <- <-].
  assert (∃ l, e = JObj l) as [l ->].
  { unfold registered_of, truthy_prop in Er. destruct e; try done. by eexists. }
  split; [|split; [by rewrite truthy_prop_with|split; [done|]]].
  - assert (expiry_of (with_prop (js "expires_at") (JStr (Backup.toISOString (t + DURATION_MS))) (JObj l)) = Some (t + DURATION_MS)) as ->; [|done].
    unfold expiry_of, truthy_prop. simpl jget. rewrite mget_set_eq. cbn [jtruthy]. rewrite iso_truthy. cbn [mbind option_bind].
    by apply date_of_iso.
  - cbn [with_prop]. rewrite !plain_obj. intros [Hw Hp]. split; [by apply mwf_set|].
    rewrite list.Forall_forall in *. intros [k v] Hin. apply (in_mget_Some k v) in Hin; [|by apply mwf_set].
    rewrite mget_set in Hin. destruct (decide _); [by injection Hin as <-|]. apply mget_Some_in in Hin. by apply (Hp (k, v)).
Qed.

Lemma repair_all_spec l es c :
  repair_all l = inr (es, c) →
  Forall clean es ∧ (c = false → es = l) ∧ names es = names l ∧ (Forall plain l → Forall plain es).
Proof.
  revert es c. induction l as [|e l IH]; intros es c; cbn [repair_all]; [by intros [= <- <-]|].
  destruct (repair e) as [err|[o c1]] eqn:Er; [done|]. destruct (repair_all l) as [err|[es' c2]] eqn:Ea; [done|]. intros [= <- <-].
  destruct (IH _ _ eq_refl) as (Hc & He & Hn & Hp). destruct o as [e'|].
  - destruct (repair_spec _ _ _ Er) as (Hce & Hd & Heq & Hpl). split; [by constructor|]. split; [|split].
    + intros [H1 H2]%orb_false_iff. by rewrite Heq, He.
    + rewrite !names_cons, Hn. unfold name_of. by rewrite Hd.
    + intros H. apply list.Forall_cons in H as [H1 H2]. constructor; auto.
  - assert (c1 = true ∧ name_of e = None) as [-> Hne].
    { unfold repair in Er. unfold name_of, truthy_prop. destruct e; cbn [is_object negb] in Er;
        repeat match type of Er with context [match ?x with _ => _ end] => destruct x end; by simplify_eq. }
    split; [done|]. split; [done|]. split; [by rewrite names_cons, Hne|]. intros H. apply list.Forall_cons in H as [_ H]. auto.
Qed.

Lemma clean_repair_all l : Forall clean l → repair_all l = inr (l, false).
Proof. induction 1 as [|e l He _ IH]; [done|]. cbn [repair_all]. by rewrite He, IH. Qed.

(** *** Duplicates *)

Lemma mset_fresh {V} (k : jstr) (v : V) (m : jsmap jstr V) : k ∉ mkeys m → mset k v m = m ++ [(k, v)].
Proof.
  induction m as [|[k' v'] m IH]; [done|]. unfold mkeys. cbn [map mset fst]. rewrite not_elem_of_cons. intros [Hk Hm].
  rewrite decide_False by done. cbn [app]. f_equal. by apply IH.
Qed.

Lemma dedupe_total l m c : Forall dom_ok l → ∃ m' c', dedupe l m c = inr (m', c').
Proof.
  intros H. revert m c. induction H as [|e l He _ IH]; intros m c; cbn [dedupe]; [eauto|]. unfold dom_ok in He.
  destruct (truthy_prop _ e) as [[]|]; try done; apply IH.
Qed.

(** nothing changes exactly when the names are new and distinct *)
Lemma dedupe_changed l m c m' c' :
  dedupe l m c = inr (m', c') →
  Forall dom_ok l ∧ (c' = false ↔ c = false ∧ NoDup (names l) ∧ ∀ n, n ∈ names l → n ∉ mkeys m).
Proof.
  revert m c. induction l as [|e l IH]; intros m c; cbn [dedupe].
  { intros [= <- <-]. split; [constructor|]. split; [|by intros [? _]]. intros ->. split; [done|]. split; [constructor|]. by intros n ?%elem_of_nil. }
  rewrite names_cons. unfold name_of, dom_ok at 1.
  destruct (truthy_prop (js "domain") e) as [[| | | |s| |]|] eqn:Et; try done; intros H.
  - destruct (IH _ _ H) as [Hd Hc]. split; [constructor; [unfold dom_ok; by rewrite Et|done]|]. rewrite Hc, orb_false_iff. set (n := toLowerCase s).
    assert (mhas n m = false ↔ n ∉ mkeys m) as Hm.
    { unfold mhas. destruct (mget n m) as [v|] eqn:E.
      - split; [done|]. intros Hn. apply mget_Some_in in E. exfalso. apply Hn. exact (list_elem_of_fmap_2 fst _ _ E).
      - apply mget_None_in in E. by split. }
    rewrite Hm, list.NoDup_cons. split.
    + intros (Hcn & Hnd & Hdis). destruct Hcn as [-> Hn]. split; [done|]. rewrite mkeys_set in Hdis. unfold mhas in Hdis.
      replace (mget n m) with (@None json) in Hdis by (symmetry; by apply mget_None_in).
      split; [split; [|done]|]; [intros Hin; apply (Hdis n Hin), elem_of_app; right; by apply list_elem_of_singleton|].
      intros x [->|Hx]%elem_of_cons; [done|]. intros Hk. apply (Hdis x Hx), elem_of_app. by left.
    + intros (-> & Hnn & Hdis). destruct Hnn as [Hn Hnd]. assert (n ∉ mkeys m) as Hnm by (apply Hdis; left).
      split; [done|]. split; [done|]. intros x Hx. rewrite mset_fresh by done. unfold mkeys. rewrite map_app. cbn [map fst].
      rewrite elem_of_app. intros [Hk|E%list_elem_of_singleton]; [|by subst x]. apply (Hdis x); [by right|done].
  - destruct (IH _ _ H) as [Hd Hc]. split; [constructor; [unfold dom_ok; by rewrite Et|done]|exact Hc].
Qed.

(** every value is filed under its name *)
Definition filed (m : jsmap jstr json) : Prop := mwf m ∧ Forall (λ p, name_of p.2 = Some p.1) m.

Lemma filed_mset n e m : name_of e = Some n → filed m → filed (mset n e m).
Proof.
  intros He [Hw Hf]. split; [by apply mwf_set|]. rewrite list.Forall_forall in *. intros [k v] Hin.
  apply (in_mget_Some k v) in Hin; [|by apply mwf_set]. rewrite mget_set in Hin. destruct (decide (k = n)) as [->|]; [by injection Hin as <-|].
  apply mget_Some_in in Hin. by apply (Hf (k, v)).
Qed.

Lemma mset_values (P : json → Prop) (n : jstr) e (m : jsmap jstr json) : P e → Forall P (mvalues m) → Forall P (mvalues (mset n e m)).
Proof.
  intros He. unfold mvalues. induction m as [|[k v] m IH]; cbn [mset map]; [by repeat constructor|].
  intros [Hv Hm]%list.Forall_cons. destruct (decide (n = k)); constructor; auto.
Qed.

Lemma dedupe_filed (P : json → Prop) l m c m' c' :
  dedupe l m c = inr (m', c') → filed m → Forall P (mvalues m) → Forall P l → filed m' ∧ Forall P (mvalues m').
Proof.
  revert m c. induction l as [|e l IH]; intros m c; cbn [dedupe]; [by intros [= <- <-]|]. intros H Hm HP Hl.
  apply list.Forall_cons in Hl as [He Hl]. destruct (truthy_prop (js "domain") e) as [[]|] eqn:Et; try done; [|by eapply IH].
  eapply IH; [exact H| | |done]; [apply filed_mset; [unfold name_of; by rewrite Et|done]|by apply mset_values].
Qed.

Lemma names_filed m : Forall (λ p : jstr * json, name_of p.2 = Some p.1) m → names (mvalues m) = mkeys m.
Proof. induction 1 as [|[k v] m Hk _ IH]; [done|]. cbn [mvalues map snd]. rewrite names_cons. simpl in Hk. rewrite Hk. unfold mvalues in IH. by rewrite IH. Qed.

Lemma dom_ok_named e n : name_of e = Some n → dom_ok e.
Proof. unfold name_of, dom_ok. by destruct (truthy_prop _ e) as [[]|]. Qed.

(** the repair changes nothing *)
Definition settled_list (l : list json) : Prop := ∃ es, migrateStoredDomains (JArr l) = inr (es, false).

Lemma settled_spec l : settled_list l ↔ Forall clean l ∧ Forall dom_ok l ∧ NoDup (names l).
Proof.
  unfold settled_list, migrateStoredDomains. split.
  - intros [es H]. destruct (repair_all l) as [err|[rep c]] eqn:Er; [done|].
    destruct (dedupe rep [] c) as [err|[m c']] eqn:Ed; [done|]. injection H as <- ->.
    apply dedupe_changed in Ed as [Hd Hc]. destruct Hc as [Hc _]. destruct (Hc eq_refl) as (-> & Hn & _).
    apply repair_all_spec in Er as (Hcl & He & _). rewrite <-(He eq_refl). done.
  - intros (Hc & Hd & Hn). rewrite clean_repair_all by done. destruct (dedupe_total l [] false Hd) as (m & c & E). rewrite E.
    apply dedupe_changed in E as [_ [_ Hc']]. rewrite Hc'; [by eexists|]. split; [done|]. split; [done|]. intros n _ []%elem_of_nil.
Qed.

Lemma settled_nil : settled_list [].
Proof. by eexists. Qed.

(** Repairing twice is repairing once: what a repair gives needs no repair, and
    every name that was there is there. *)
Lemma repaired_settled l es c :
  migrateStoredDomains (JArr l) = inr (es, c) → settled_list es ∧ (Forall plain l → Forall plain es).
Proof.
  unfold migrateStoredDomains. destruct (repair_all l) as [err|[rep c1]] eqn:Er; [done|].
  destruct (dedupe rep [] c1) as [err|[m c']] eqn:Ed; [done|]. intros [= <- <-].
  apply repair_all_spec in Er as (Hcl & _ & _ & Hpl).
  assert (filed []) as Hf by (split; [apply mwf_nil|constructor]).
  destruct (dedupe_filed clean _ _ _ _ _ Ed Hf ltac:(constructor) Hcl) as [[Hw Hf'] Hcl'].
  split.
  - apply settled_spec. split; [done|]. split; [|by rewrite names_filed].
    unfold mvalues. apply List.Forall_map. eapply list.Forall_impl; [exact Hf'|]. intros [k v]. apply dom_ok_named.
  - intros H. apply (dedupe_filed plain _ _ _ _ _ Ed Hf ltac:(constructor) (Hpl H)).
Qed.

(** taking entries away *)
Lemma names_filter p l n : n ∈ names (List.filter p l) → n ∈ names l.
Proof.
  induction l as [|e l IH]; [done|]. cbn [List.filter]. destruct (p e); rewrite ?names_cons; destruct (name_of e); rewrite ?elem_of_cons; tauto.
Qed.

Lemma settled_filter p l : settled_list l → settled_list (List.filter p l).
Proof.
  rewrite !settled_spec. intros (Hc & Hd & Hn). split; [by apply DomainRegister.Forall_filter|]. split; [by apply DomainRegister.Forall_filter|].
  clear Hc Hd. induction l as [|e l IH]; [done|]. cbn [List.filter]. rewrite names_cons in Hn.
  destruct (p e); rewrite ?names_cons; destruct (name_of e) as [n|]; auto; apply list.NoDup_cons in Hn as [H1 H2]; auto.
  apply list.NoDup_cons. split; [|auto]. by intros ?%names_filter.
Qed.

(** the entry of a registration replaces the one of its name *)
Lemma settled_registered new l :
  clean new → dom_ok new → settled_list l → settled_list (DomainRegister.others (DomainRegister.key_of new) l ++ [new]).
Proof.
  intros Hcn Hdn Hl. pose proof (settled_filter (λ d, negb (bool_decide (DomainRegister.key_of d = DomainRegister.key_of new))) _ Hl) as Ho.
  apply settled_spec in Ho as (Hc & Hd & Hn). apply settled_spec. fold (DomainRegister.others (DomainRegister.key_of new) l) in *.
  split; [by apply Forall_app; auto|]. split; [by apply Forall_app; auto|]. rewrite names_app. apply list.NoDup_app. split; [done|].
  assert (∀ e n, name_of e = Some n → DomainRegister.key_of e = Some n) as Hk.
  { intros e n. unfold name_of, truthy_prop, DomainRegister.key_of. destruct (jget _ e) as [v|]; [|done].
    destruct (jtruthy v); [|done]. by destruct v. }
  rewrite names_cons. destruct (name_of new) as [n|] eqn:En; [|split; [intros x _ []%elem_of_nil|constructor]].
  split; [|apply list.NoDup_singleton]. intros x Hx ->%list_elem_of_singleton. unfold names, DomainRegister.others in Hx.
  apply list_elem_of_omap in Hx as (e & He & Hne). apply list_elem_of_In, filter_In in He as [_ He].
  rewrite (Hk _ _ Hne), (Hk _ _ En), bool_decide_true in He by done. done.
Qed.

(** ** What is read and written *)

Definition reads (P : jstr → Prop) (e : event) : Prop :=
  match e with
  | @Ev R c r => match c in req R return error + R → Prop with
                 | getItem k => λ r, k = REGISTERED_DOMAINS_KEY → ∀ s, r = inr (Some s) → P s
                 | _ => λ _, True
                 end r
  end.
Definition writes (P : jstr → Prop) (e : event) : Prop :=
  match e with Ev c _ => match c with setItem k v => k = REGISTERED_DOMAINS_KEY → P v | _ => True end end.
Abbreviation quiet := (writes (λ _, False)).

(** a stored text whose numbers are whole *)
Definition readable (s : jstr) : Prop := ∀ v, json_parse s = Some v → plain v.
(** a stored text that needs no repair *)
Definition kept_text (s : jstr) : Prop := s = [] ∨ ∃ l, json_parse s = Some (JArr l) ∧ Forall plain l ∧ settled_list l.

Lemma kept_stringify l : Forall plain l → settled_list l → kept_text (stringify (JArr l)).
Proof. intros Hp Hs. right. exists l. split; [|done]. apply json_parse_stringify. by apply plain_arr. Qed.

Lemma kept_not_changed s es : kept_text s → migrateStoredDomains (default (JArr []) (json_parse s)) = inr (es, true) → False.
Proof. intros [->|(l & El & _ & es' & Hs)] H; [done|]. rewrite El in H. cbn [default from_option id] in H. congruence. Qed.

Lemma quiet_writes P tr : Forall quiet tr → Forall (writes P) tr.
Proof. intros H. eapply list.Forall_impl; [exact H|]. intros [R c r]. destruct c; simpl; naive_solver. Qed.

Lemma quiet_lift {T A} part put (t : Outside.prog T A) : emits quiet t → emits quiet (lift (S := screen) part put t).
Proof. intros H tr r Ht%trace_lift. by eapply H. Qed.

Lemma emits_trace {A} P (t : prog A) tr r : emits P t → trace obs t tr r → Forall P tr.
Proof. intros He. apply He. Qed.

Lemma quiet_say title text : emits quiet (say title text).
Proof. intros tr r (n & -> & _). constructor. Qed.

Lemma quiet_status name : emits quiet (Domains.getDomainStatus name).
Proof. unfold Domains.getDomainStatus. emits_through; done. Qed.

Lemma quiet_check d : emits quiet (checkStatus d).
Proof. unfold checkStatus. emits_through; try done. apply quiet_lift, quiet_status. Qed.

Lemma quiet_check_all l : emits quiet (check_all l).
Proof. induction l as [|d l IH]; cbn [check_all]; emits_through; [apply quiet_check|exact IH]. Qed.

Lemma persist_writes es : emits (writes (λ v, v = stringify (JArr es))) (persist es).
Proof. unfold persist. emits_through; simpl; done. Qed.

Lemma stored_trace text tr r :
  trace obs (stored_domains text) tr r →
  Forall quiet tr ∨
  ∃ s es, text = Some s ∧ migrateStoredDomains (default (JArr []) (json_parse s)) = inr (es, true) ∧
    Forall (writes (λ v, v = stringify (JArr es))) tr.
Proof.
  unfold stored_domains. destruct text as [s|]; [|intros [-> _]%trace_ret; left; constructor].
  destruct (truthy s); [|intros [-> _]%trace_ret; left; constructor]. cbn [negb].
  destruct (migrateStoredDomains _) as [e|[es []]] eqn:Em; [intros [-> _]%trace_throw; left; constructor| |].
  - intros H. right. exists s, es. split; [done|]. split; [done|]. eapply emits_trace; [|exact H]. emits_through. apply persist_writes.
  - intros H. left. eapply emits_trace; [|exact H]. emits_through.
Qed.

(** a load reads once, and writes at most what a repair gave *)
Lemma load_trace tr r :
  trace obs loadDomains tr r →
  ∃ a tr', tr = Ev (getItem REGISTERED_DOMAINS_KEY) a :: tr' ∧
    (Forall quiet tr' ∨
     ∃ s es, a = inr (Some s) ∧ migrateStoredDomains (default (JArr []) (json_parse s)) = inr (es, true) ∧
       Forall (writes (λ v, v = stringify (JArr es))) tr').
Proof.
  unfold loadDomains. intros H%trace_finally_set.
  assert (∃ tr1 tr2 r1, tr = tr1 ++ tr2 ∧ Forall quiet tr2 ∧
    trace obs (text ← call (getItem REGISTERED_DOMAINS_KEY); es ← stored_domains text; l ← check_all es; modify (setDomains l)) tr1 r1) as (tr1 & tr2 & r1 & -> & Hq & H').
  { apply trace_try_catch in H as [(a & -> & H)|(e & tr1 & tr2 & -> & H & H2)]; unfold mbind, outside_bind in H; apply trace_after_modify in H.
    - exists tr, [], (inr a). rewrite app_nil_r. split; [done|]. split; [constructor|exact H].
    - exists tr1, tr2, (inl e). split; [done|]. split; [by eapply quiet_say|exact H]. }
  clear H. unfold mbind, outside_bind in H'. apply trace_bind in H' as [(e & H & ->)|(text & t1 & t2 & -> & Hg & H)].
  { apply trace_call in H as ->. exists (inl e), tr2. split; [done|]. by left. }
  apply trace_call in Hg as ->. exists (inr text), (t2 ++ tr2). split; [done|].
  apply trace_bind in H as [(e & H & ->)|(es & t3 & t4 & -> & Hs & H)].
  - apply stored_trace in H as [H|(s & es & -> & Hm & H)]; [left; by apply Forall_app|]. right. exists s, es. split; [done|]. split; [done|].
    apply Forall_app. split; [done|by apply quiet_writes].
  - assert (Forall quiet t4) as H4.
    { eapply emits_trace; [|exact H]. emits_through. apply quiet_check_all. }
    apply stored_trace in Hs as [Hs|(s & es' & -> & Hm & Hs)]; [left; by repeat (apply Forall_app; split)|].
    right. exists s, es'. split; [done|]. split; [done|]. repeat (apply Forall_app; split); auto; by apply quiet_writes.
Qed.

Lemma parsed_trace tr r :
  trace obs parsed_domains tr r →
  ∃ a, tr = [Ev (getItem REGISTERED_DOMAINS_KEY) a] ∧
    ∀ l, r = inr (JArr l) → ∃ o, a = inr o ∧ DomainRegister.stored_entries o = Some l.
Proof.
  unfold parsed_domains, mbind, outside_bind. intros [(e & H & ->)|(o & t1 & t2 & -> & Hg & H)]%trace_bind.
  { apply trace_call in H as ->. eexists. by split. }
  apply trace_call in Hg as ->. unfold DomainRegister.stored_entries.
  assert (t2 = [] ∧ ∀ l, r = inr (JArr l) → DomainRegister.stored_entries o = Some l) as [-> Hl].
  { unfold DomainRegister.stored_entries. destruct o as [s|]; [destruct (truthy s)|]; try (apply trace_ret in H as [-> ->]; split; [done|]; by intros l [= <-]).
    destruct (json_parse s) as [w|]; [|by apply trace_throw in H as [-> ->]]. apply trace_ret in H as [-> ->]. split; [done|]. by intros l [= ->]. }
  exists (inr o). split; [done|]. intros l Hr. exists o. split; [done|]. by apply Hl.
Qed.

Lemma without_trace p l tr r :
  trace obs (without p l) tr r → tr = [] ∧ ∀ k, r = inr k → k = List.filter (λ d, negb (p (jget (js "domain") d))) l.
Proof.
  revert tr r. induction l as [|d l IH]; intros tr r H; cbn [without] in H; [apply trace_ret in H as [-> ->]; split; [done|]; by intros k [= <-]|].
  unfold mbind, outside_bind in H. apply trace_bind in H as [(e & H & ->)|(v & t1 & t2 & -> & Hv & H)].
  { by apply trace_dot in H as [-> _]. }
  apply trace_dot in Hv as [-> [[_ ?]|[_ [= ->]]]]; [done|].
  apply trace_bind in H as [(e & H & ->)|(rest & t3 & t4 & -> & Hr & H)]; [by apply IH in H as [-> _]|].
  apply IH in Hr as [-> Hr]. apply trace_ret in H as [-> ->]. split; [done|]. intros k [= <-]. cbn [List.filter].
  rewrite (Hr rest eq_refl). by destruct (p _).
Qed.

Lemma as_array_trace v tr r : trace obs (as_array v) tr r → tr = [] ∧ match r with inr l => v = JArr l | inl _ => True end.
Proof. destruct v; simpl; intros [-> ->]; done. Qed.

(** what keeps the stored list without need of repair *)
Definition keeps_list {S A} (t : Outside.prog S A) : Prop :=
  ∀ tr r, trace obs t tr r → Forall (reads kept_text) tr → Forall (writes kept_text) tr.

Lemma keeps_list_quiet {S A} (t : Outside.prog S A) : emits quiet t → keeps_list t.
Proof. intros He tr r H _. apply quiet_writes. by eapply He. Qed.
Lemma keeps_list_bindR {S A B} (t : Outside.prog S A) (f : error + A → Outside.prog S B) :
  keeps_list t → (∀ a, keeps_list (f a)) → keeps_list (bindR t f).
Proof.
  intros Ht Hf tr r (a & tr1 & tr2 & -> & H1 & H2)%trace_bindR [Hr1 Hr2]%Forall_app. apply Forall_app. split; [by eapply Ht|by eapply Hf].
Qed.
Lemma keeps_list_bind {S A B} (t : Outside.prog S A) (f : A → Outside.prog S B) :
  keeps_list t → (∀ a, keeps_list (f a)) → keeps_list (bind t f).
Proof. intros Ht Hf. apply keeps_list_bindR; [done|]. intros [e|a]; [apply keeps_list_quiet, emits_throw|apply Hf]. Qed.
Lemma keeps_list_try_catch {S A} (t : Outside.prog S A) h :
  keeps_list t → (∀ e, keeps_list (h e)) → keeps_list (try_catch t h).
Proof. intros Ht Hh. apply keeps_list_bindR; [done|]. intros [e|a]; [apply Hh|apply keeps_list_quiet, emits_ret]. Qed.

Lemma keeps_list_remove p : keeps_list (remove_where p).
Proof.
  unfold remove_where, mbind, outside_bind. intros tr r H Hr.
  apply trace_bind in H as [(e & H & ->)|(v & t1 & t2 & -> & Hv & H)]; [apply parsed_trace in H as (a & -> & _); by repeat constructor|].
  apply parsed_trace in Hv as (a & -> & Hv). apply Forall_app in Hr as [Hr _]. apply list.Forall_cons in Hr as [Hr _].
  constructor; [done|].
  apply trace_bind in H as [(e & H & ->)|(l & t3 & t4 & -> & Ha & H)]; [apply as_array_trace in H as [-> _]; constructor|].
  apply as_array_trace in Ha as [-> ->]. destruct (Hv l eq_refl) as (o & -> & Ho).
  apply trace_bind in H as [(e & H & ->)|(k & t5 & t6 & -> & Hk & H)]; [apply without_trace in H as [-> _]; constructor|].
  apply without_trace in Hk as [-> Hk]. rewrite (Hk k eq_refl) in H. apply trace_call in H as ->.
  cbn [app]. apply list.Forall_singleton. intros _.
  assert (Forall plain l ∧ settled_list l) as [Hp Hs]; [|apply kept_stringify; [by apply DomainRegister.Forall_filter|by apply settled_filter]].
  unfold DomainRegister.stored_entries in Ho. destruct o as [s|]; [|injection Ho as <-; split; [constructor|apply settled_nil]].
  destruct (truthy s) eqn:Ts; [|injection Ho as <-; split; [constructor|apply settled_nil]].
  destruct (Hr eq_refl s eq_refl) as [->|(l0 & El & Hp & Hs)]; [done|]. rewrite El in Ho. injection Ho as ->. done.
Qed.

Lemma keeps_list_handler a : keeps_list (handler a).
Proof.
  assert (∀ t : prog unit, emits quiet t → keeps_list t) as Hq by (intros t; apply keeps_list_quiet).
  assert (emits quiet parsed_domains) as Hpd by (unfold parsed_domains; emits_through; done).
  assert (∀ v, emits quiet (as_array v)) as Haa by (intros v; unfold as_array; emits_through).
  destruct a as [| |name|name|v name|v|name|n v name]; cbn [handler].
  - intros tr r H Hr. destruct (load_trace tr r H) as (a & tr' & -> & Ht). apply list.Forall_cons in Hr as [Hr _]. constructor; [done|].
    destruct Ht as [Ht|(s & es & -> & Hm & Ht)]; [by apply quiet_writes|]. by destruct (kept_not_changed s es (Hr eq_refl s eq_refl)).
  - apply Hq. unfold loadDomains_unrepaired. emits_through; auto using quiet_check_all, quiet_say.
  - apply Hq. assert (∀ l, emits quiet (find_domain name l)) as Hf.
    { intros l. induction l as [|d l IH]; cbn [find_domain]; emits_through. exact IH. }
    unfold loadDomainData. emits_through; auto using quiet_say.
  - apply Hq. unfold refreshStatus. emits_through. apply quiet_lift, quiet_status.
  - unfold handleDeleteDomain, mbind, outside_bind. apply keeps_list_bind; [apply keeps_list_quiet; emits_through; done|]. intros b.
    case_bool_decide; [|apply Hq; emits_through]. apply keeps_list_try_catch; [|intros e; apply Hq, quiet_say].
    apply keeps_list_bind; [apply keeps_list_remove|]. intros _. apply Hq. emits_through. apply quiet_say.
  - unfold handleCleanupExpired, mbind, outside_bind. cbv zeta. destruct (_ =? 0)%nat; [apply Hq, quiet_say|].
    apply keeps_list_bind; [apply keeps_list_quiet; emits_through; done|]. intros b.
    case_bool_decide; [|apply Hq; emits_through]. apply keeps_list_try_catch; [|intros e; apply Hq, quiet_say].
    apply keeps_list_bind; [apply keeps_list_remove|]. intros _. apply Hq. emits_through. apply quiet_say.
  - unfold deleteDetail, mbind, outside_bind. apply keeps_list_bind; [apply keeps_list_quiet; emits_through; done|]. intros b.
    case_bool_decide; [|apply Hq; emits_through]. apply keeps_list_try_catch; [|intros e; apply Hq, quiet_say].
    apply keeps_list_bind; [apply keeps_list_remove|]. intros _. apply Hq. emits_through; apply quiet_say.
  - apply Hq. unfold handleUpdateContent, Domains.updateDomain, NativeIdentity.signDomainUpdateRequest, NativeIdentity.checked.
    emits_through; try apply quiet_lift; emits_through; try done; try (intros tr r (m & -> & _); constructor).
Qed.

(** the entry that a registration keeps *)
Lemma registered_entry response t tx reg :
  Z.abs t ≤ MAX_TIME →
  let new := DomainRegister.entry_of response (Backup.toISOString t) tx reg in clean new ∧ dom_ok new ∧ plain new.
Proof.
  intros Ht new. assert (expiry_of new = Some t) as Ex.
  { unfold expiry_of, truthy_prop. assert (jget (js "expires_at") new = Some (JStr (Backup.toISOString t))) as ->.
    { unfold new, DomainRegister.entry_of. destruct (str_field (js "domain") response), (str_field (js "owner") response); reflexivity. }
    cbn [jtruthy]. rewrite iso_truthy. cbn [mbind option_bind]. by apply date_of_iso. }
  assert (is_object new = true) as Ho by done. split; [|split].
  - unfold clean, repair. by rewrite Ho, Ex.
  - unfold dom_ok, truthy_prop. unfold new, DomainRegister.entry_of.
    destruct (str_field (js "domain") response) as [s|], (str_field (js "owner") response); simpl; try done; by destruct (truthy s).
  - unfold new, DomainRegister.entry_of. destruct (str_field (js "domain") response), (str_field (js "owner") response);
      apply plain_obj; (split; [by apply (bool_decide_unpack _); vm_compute|by repeat constructor]).
Qed.

Lemma keeps_list_register response t tx reg :
  Z.abs t ≤ MAX_TIME → keeps_list (DomainRegister.storeDomain (DomainRegister.entry_of response (Backup.toISOString t) tx reg)).
Proof.
  intros Ht tr r H Hr. destruct (registered_entry response t tx reg Ht) as (Hc & Hd & Hp).
  apply DomainRegister.store_trace in H as [[a ->]|(o & l & b & Ho & ->)]; [by repeat constructor|].
  apply list.Forall_cons in Hr as [Hr _]. constructor; [done|]. apply list.Forall_singleton. intros _.
  assert (Forall plain l ∧ settled_list l) as [Hpl Hs].
  { unfold DomainRegister.stored_entries in Ho. destruct o as [s|]; [|injection Ho as <-; split; [constructor|apply settled_nil]].
    destruct (truthy s) eqn:Ts; [|injection Ho as <-; split; [constructor|apply settled_nil]].
    destruct (Hr eq_refl s eq_refl) as [->|(l0 & El & Hp0 & Hs)]; [done|]. rewrite El in Ho. by injection Ho as ->. }
  apply kept_stringify; [|by apply settled_registered].
  apply Forall_app. split; [by apply DomainRegister.Forall_filter|by constructor].
Qed.

(** C11: The list of registered domains is repaired once.  Opening MyDomains on any
    stored text writes at most a list that needs no repair: every date that can be
    computed is there, no name is there twice.  From such a list every screen, the
    registration of a domain, the deletion from the list or from the detail and the
    clean-up of expired domains, whatever is pressed and answered, writes again
    only such lists, and opening MyDomains writes nothing. *)
Theorem list_is_repaired_once a tr r :
  (trace obs (handler a) tr r →
     (a = LoadMine → Forall (reads readable) tr → Forall (writes kept_text) tr) ∧
     (Forall (reads kept_text) tr → Forall (writes kept_text) tr ∧ (a = LoadMine → Forall quiet tr))) ∧
  (∀ response t tx reg r', Z.abs t ≤ MAX_TIME →
     trace obs (DomainRegister.storeDomain (DomainRegister.entry_of response (Backup.toISOString t) tx reg)) tr r' →
     Forall (reads kept_text) tr → Forall (writes kept_text) tr).
Proof.
  split; [|by intros response t tx reg r' Ht; apply keeps_list_register]. intros H. split; [|split; [by eapply keeps_list_handler|]].
  - intros -> Hr. destruct (load_trace tr r H) as (a & tr' & -> & Ht). apply list.Forall_cons in Hr as [Hr _]. constructor; [done|].
    destruct Ht as [Ht|(s & es & -> & Hm & Ht)]; [by apply quiet_writes|].
    eapply list.Forall_impl; [exact Ht|]. intros [R c b]. destruct c; simpl; try done. intros Hv Hk. rewrite (Hv Hk).
    destruct (json_parse s) as [w|] eqn:Ew; cbn [default from_option id] in Hm; [|done].
    pose proof (Hr eq_refl s eq_refl w Ew) as Hpw.
    destruct w as [| | | | |l|]; try (assert (es = []) as -> by (cbn in Hm; congruence); apply kept_stringify; [constructor|apply settled_nil]).
    apply repaired_settled in Hm as [Hs Hp]. apply kept_stringify; [|done]. by apply Hp, plain_arr.
  - intros ->. destruct (load_trace tr r H) as (a & tr' & -> & Ht). rename H0 into Hr. apply list.Forall_cons in Hr as [Hr _]. constructor; [done|].
    destruct Ht as [Ht|(s & es & -> & Hm & Ht)]; [done|]. by destruct (kept_not_changed s es (Hr eq_refl s eq_refl)).
Qed.

(** ** What the screens do not do *)

(** A stored text that is not JSON is read as an empty list and left as it is;
    DomainRegister.v shows that each registration then ends as a failure. *)
Fact unparseable_text_is_kept s : json_parse s = None → trace obs (stored_domains (Some s)) [] (inr []).
Proof. intros H. unfold stored_domains. rewrite H. by destruct (negb (truthy s)). Qed.

(** A domain that the node does not know any more is shown as active for as long
    as the date that was stored says. *)
Fact unknown_domain_shown_active d n t now e :
  jget (js "domain") d = Some (JStr n) → error_status e = Some 404 → expiry_time (jget (js "expires_at") d) = Some t → now ≤ t →
  trace obs (checkStatus d)
    [Ev (quicRequest (Domains.status_path n) Quic.no_options) (inl e); Ev Date_now (inr now)] (inr (known_status d t now)) ∧
  str_field (js "status") (known_status d t now) = Some (js "active").
Proof.
  intros Hn He Ht Hnow. destruct d as [| | | | | |l]; try done. split.
  - unfold checkStatus, mbind, outside_bind, try_catch. rewrite trace_bindR. eexists (inr _), _, []. rewrite app_nil_r. split; [done|]. split; [|by split].
    rewrite trace_bind. right. exists (Some (JStr n)), [], [Ev (quicRequest (Domains.status_path n) Quic.no_options) (inl e); Ev Date_now (inr now)]. split; [done|]. split; [by rewrite <-Hn|].
    rewrite trace_bind. right.
    eexists _, [Ev (quicRequest (Domains.status_path n) Quic.no_options) (inl e)], [Ev Date_now (inr now)]. split; [done|]. split.
    + eexists (inl e), []. split; [done|]. simpl. rewrite bool_decide_true by done. by split.
    + unfold expires_at. cbn [jget mget]. rewrite !decide_False by done. cbn [mget]. cbn [jget] in Ht. rewrite Ht. eexists (inr now), []. by split.
  - unfold known_status, str_field, jfield. cbn [jget]. rewrite mget_set_ne, mget_set_eq by done.
    destruct (Z.ltb_spec t now); [lia|done].
Qed.
End Dates.

(** one of two domains is deleted *)
Definition a_domain (name : string) : json :=
  JObj [(js "domain", JStr (js name)); (js "expires_at", JStr (js "2027-06-12T08:30:00.000Z"))].
Definition two_domains : jstr := stringify (JArr [a_domain "a.sov"; a_domain "b.sov"]).
Definition delete_trace : list event :=
  [Ev (alert (js "Delete Domain") (remove_text (js "a.sov")) [js "Cancel"; js "Delete"]) (inr 1%nat);
   Ev (getItem REGISTERED_DOMAINS_KEY) (inr (Some two_domains));
   Ev (setItem REGISTERED_DOMAINS_KEY (stringify (JArr [a_domain "b.sov"]))) (inr tt)].

Lemma delete_traced : trace obs (handler (λ _, None) (Delete [] (js "a.sov"))) delete_trace (inr tt).
Proof.
  eexists (inr 1%nat), _. split; [reflexivity|]. eexists (inr (Some two_domains)), _. split; [reflexivity|].
  replace (json_parse two_domains) with (Some (JArr [a_domain "a.sov"; a_domain "b.sov"])) by (vm_compute; reflexivity).
  eexists (inr tt), _. split; [reflexivity|]. eexists (mkScreen [] None false false [] None (None, []) false None), 0%nat. by split.
Qed.

Lemma two_domains_kept : kept_text (λ _, None) two_domains.
Proof.
  apply kept_stringify; [|eexists; vm_compute; reflexivity].
  repeat constructor; by apply (bool_decide_unpack _); vm_compute.
Qed.

Lemma list_is_repaired_once_witness : Forall (writes (kept_text (λ _, None))) delete_trace.
Proof.
  apply (list_is_repaired_once (λ _, None) (Delete [] (js "a.sov")) delete_trace (inr tt)); [exact delete_traced|].
  constructor; [exact Logic.I|]. constructor; [|constructor; [exact Logic.I|constructor]].
  intros _ s Hs. injection Hs as <-. exact two_domains_kept.
Defined.
