(* ===== verification/SignUp.v ===== *)
(** * Creating an account: src/src/screens/CreateIdentityScreen.tsx

    The display name becomes the username, whose availability is asked after a
    pause; the button registers the name with a password (AuthContext.v).  The
    effect of the name runs with the change that triggers it; a press closes over
    the rendering [v] it is made on.  The type of the identity is the human one, the
    others are disabled in the list.  Texts are those of the English translation. *)

From stdpp Require Import strings gmap.
From S2P Require Import Prelude JsString JsMap Json Codec Async Outside PasswordPolicy.
From S2P Require Known Identifiers Quic QuicSession Auth Lobby AuthContext.
#[local] Open Scope Z_scope.

Inductive UsernameStatus := idle | checking | available | taken | invalid.
#[export] Instance username_status_eq_dec : EqDecision UsernameStatus.
Proof. solve_decision. Defined.

Record FieldErrors := mkErrors {
  e_displayName : option jstr; e_username : option jstr; e_password : option jstr;
  e_confirmPassword : option jstr; e_terms : option jstr }.
Definition no_errors : FieldErrors := mkErrors None None None None None.

Record form := mkForm {
  displayName : jstr; password : jstr; confirmPassword : jstr; acceptedTerms : bool;
  isCreatingIdentity : bool; passwordStrength : PasswordValidationResult; fieldErrors : FieldErrors;
  usernameStatus : UsernameStatus; usernameValue : jstr }.
Definition no_strength : PasswordValidationResult := mkPwResult false [] weak 0.
Definition empty_form : form := mkForm [] [] [] false false no_strength no_errors idle [].

Definition setName d st u (x : form) := mkForm d (password x) (confirmPassword x) (acceptedTerms x) (isCreatingIdentity x) (passwordStrength x) (fieldErrors x) st u.
Definition setPassword p st (x : form) := mkForm (displayName x) p (confirmPassword x) (acceptedTerms x) (isCreatingIdentity x) st (fieldErrors x) (usernameStatus x) (usernameValue x).
Definition setConfirmPassword p (x : form) := mkForm (displayName x) (password x) p (acceptedTerms x) (isCreatingIdentity x) (passwordStrength x) (fieldErrors x) (usernameStatus x) (usernameValue x).
Definition setAcceptedTerms b (x : form) := mkForm (displayName x) (password x) (confirmPassword x) b (isCreatingIdentity x) (passwordStrength x) (fieldErrors x) (usernameStatus x) (usernameValue x).
Definition setIsCreatingIdentity b (x : form) := mkForm (displayName x) (password x) (confirmPassword x) (acceptedTerms x) b (passwordStrength x) (fieldErrors x) (usernameStatus x) (usernameValue x).
Definition setFieldErrors e (x : form) := mkForm (displayName x) (password x) (confirmPassword x) (acceptedTerms x) (isCreatingIdentity x) (passwordStrength x) e (usernameStatus x) (usernameValue x).
Definition setUsernameStatus st (x : form) := mkForm (displayName x) (password x) (confirmPassword x) (acceptedTerms x) (isCreatingIdentity x) (passwordStrength x) (fieldErrors x) st (usernameValue x).

(** the screen: the number of the last check, the timer of the effect, where the
    user was sent with the seed phrase, and the provider *)
Record screen := mkScreen {
  view : form; usernameCheckId : nat; timer : option (nat * jstr); shown_seed : list (json * list jstr);
  provider : AuthContext.auth }.
Definition opened (a : AuthContext.auth) : screen := mkScreen empty_form 0 None [] a.
Definition set_view f s := mkScreen (f (view s)) (usernameCheckId s) (timer s) (shown_seed s) (provider s).
Definition put_provider a s := mkScreen (view s) (usernameCheckId s) (timer s) (shown_seed s) a.
Definition set_timer t s := mkScreen (view s) (usernameCheckId s) t (shown_seed s) (provider s).
Definition navigate seeds s := mkScreen (view s) (usernameCheckId s) (timer s) (shown_seed s ++ [seeds]) (provider s).

#[local] Abbreviation prog := (Outside.prog screen).
Definition set (f : form → form) : prog unit := modify (set_view f).

(** ** The username *)

Definition normalized (name : jstr) : jstr := AuthContext.underscores false (toLowerCase (trim name)).
Definition isValid (u : jstr) : bool := truthy u && forallb Identifiers.is_username_char u && (3 <=? length u)%nat.

(** [setDisplayName] and the effect, whose cleanup clears the timer of the last one *)
Definition setDisplayName (text : jstr) (s : screen) : screen :=
  if bool_decide (text = displayName (view s)) then s
  else
    let u := if truthy (trim text) then normalized text else [] in
    let st := if truthy (trim text) then if isValid u then checking else invalid else idle in
    if bool_decide (st = checking)
    then mkScreen (setName text st u (view s)) (S (usernameCheckId s)) (Some (S (usernameCheckId s), u)) (shown_seed s) (provider s)
    else mkScreen (setName text st u (view s)) (usernameCheckId s) None (shown_seed s) (provider s).

(** the answer of the check [checkId] *)
Definition checked (checkId : nat) (st : UsernameStatus) : prog unit :=
  modify (λ s, if (usernameCheckId s =? checkId)%nat then set_view (setUsernameStatus st) s else s).
Definition checkUsername (checkId : nat) (name : jstr) : prog unit :=
  try_catch
    (free ← await (lift provider put_provider (AuthContext.checkUsernameAvailability name));
     checked checkId (if free : bool then available else taken))
    (λ _, checked checkId taken).
(** the timer of 400 ms, while it is there *)
Definition fire : prog unit :=
  t ← gets timer;
  match t with
  | Some (checkId, name) => modify (set_timer None);; checkUsername checkId name
  | None => ret tt
  end.

Definition resolveUsernameStatusLabel (status : UsernameStatus) : jstr :=
  match status with
  | checking => js "Checking..."
  | available => js "Available"
  | taken => js "Taken"
  | idle | invalid => js "Username can only contain letters, numbers, and underscores"
  end.

(** ** The password *)

Definition handlePasswordChange (newPassword : jstr) : prog unit :=
  set (setPassword newPassword (if truthy newPassword then validatePassword newPassword else no_strength)).

(** ** The button *)

Definition TERMS : jstr := js "You must accept the terms and conditions".
Definition errors_of (v : form) : FieldErrors :=
  mkErrors
    (if negb (truthy (trim (displayName v))) then Some (js "Display name is required")
     else if (length (trim (displayName v)) <? 2)%nat then Some (js "Display name must be at least 2 characters")
     else None)
    (match usernameStatus v with
     | invalid => Some (js "Username can only contain letters, numbers, and underscores")
     | taken => Some (js "This username is already taken")
     | _ => if truthy (trim (displayName v)) && (length (usernameValue v) <? 3)%nat
            then Some (js "Username must be at least 3 characters") else None
     end)
    (if negb (truthy (password v)) then Some (js "Password is required")
     else if negb (pw_valid (passwordStrength v))
     then Some (str_or (default [] (head (pw_errors (passwordStrength v)))) (js "Password does not meet security requirements"))
     else None)
    (if truthy (password v) && negb (bool_decide (password v = confirmPassword v)) then Some (js "Passwords do not match") else None)
    (if acceptedTerms v then None else Some TERMS).
(** [Object.keys(errors).length > 0] *)
Definition has_errors (e : FieldErrors) : bool :=
  match e with mkErrors None None None None None => false | _ => true end.
Definition name_error (m : jstr) : FieldErrors := mkErrors (Some m) None None None None.

Section Screen.
Context (nativeModule : option (jstr → bool)) (wallet : jstr → bool) (phone_os Native : bool) (DEFAULT_SOV_NODE_URL : jstr).

Definition account (v : form) : Outside.prog AuthContext.auth (json * list jstr) :=
  AuthContext.registerAccount nativeModule wallet phone_os Native DEFAULT_SOV_NODE_URL (trim (displayName v)) (password v).

Definition register (v : form) : prog unit :=
  try_finally
    (try_catch
       (created ← await (lift provider put_provider (account v));
        let '(identity, seedPhrases) := created in
        if (0 <? length seedPhrases)%nat then modify (navigate (identity, seedPhrases))
        else set (setFieldErrors (name_error (js "Master seed phrase is not available. Please contact support."))))
       (λ err, set (setFieldErrors (name_error (str_or (message err) (js "Failed to create account. Please try again."))))))
    (set (setIsCreatingIdentity false)).

Definition handleCreateIdentity (v : form) : prog unit :=
  set (setFieldErrors no_errors);;
  if has_errors (errors_of v) then set (setFieldErrors (errors_of v))
  else set (setIsCreatingIdentity true);; register v.

(** while an account is created there is only the spinner *)
Inductive action :=
| Name (text : jstr) | Fire | Password (text : jstr) | Confirm (text : jstr) | Terms (b : bool) | Create (v : form).
Definition handler (a : action) : prog unit :=
  match a with
  | Name text => modify (setDisplayName text)
  | Fire => fire
  | Password text => handlePasswordChange text
  | Confirm text => set (setConfirmPassword text)
  | Terms b => set (setAcceptedTerms b)
  | Create v => if isCreatingIdentity v then ret tt else handleCreateIdentity v
  end.
End Screen.

(** * Properties *)

(** what the form shows of the name and the password is of what is typed *)
Record consistent (v : form) : Prop := {
  value_of_name : usernameValue v = if truthy (trim (displayName v)) then normalized (displayName v) else [];
  strength_of_password : passwordStrength v = if truthy (password v) then validatePassword (password v) else no_strength }.

(** *** What the node says of a name *)

Definition username_request (name : jstr) : req json :=
  publicQuicRequest (js "/api/v1/identity/username/available/" ++ Quic.encodeURIComponent (trim name)) Quic.no_options.
(** a check that fails counts as a name that is taken *)
Definition is_free (a : error + json) : bool :=
  match a with inr data => otruthy (jget (js "available") data) | inl _ => false end.
(** every answer about a name is one the node [says] of it *)
Definition honest (says : jstr → bool → Prop) (R : Set) (c : req R) : error + R → Prop :=
  match c in req R return error + R → Prop with
  | publicQuicRequest path o => λ a, ∀ name, publicQuicRequest path o = username_request name → says name (is_free a)
  | _ => λ _, True
  end.

(** the check [id] was of [name]: it is not the last any more, or this is the name
    that is typed, unless that one is not valid and none was made for it *)
Definition check_of (id : nat) (name : jstr) (s : screen) : Prop :=
  (id < usernameCheckId s)%nat ∨
  id = usernameCheckId s ∧ (isValid (usernameValue (view s)) = true → usernameValue (view s) = name).
Definition later (s s' : screen) : Prop := ∀ id name, check_of id name s → check_of id name s'.
#[export] Instance later_refl : Reflexive later.
Proof. by intros s id name. Qed.
#[export] Instance later_trans : Transitive later.
Proof. intros s1 s2 s3 H1 H2 id name H. by apply H2, H1. Qed.

(** the status is that of the name on the screen, when it is a valid one *)
Record form_ok (says : jstr → bool → Prop) (s : screen) : Prop := {
  ok_consistent : consistent (view s);
  ok_idle : usernameStatus (view s) = idle → truthy (trim (displayName (view s))) = false;
  ok_checking : usernameStatus (view s) = checking → isValid (usernameValue (view s)) = true;
  ok_invalid : usernameStatus (view s) = invalid → isValid (usernameValue (view s)) = false;
  ok_available : usernameStatus (view s) = available →
    ∃ name, isValid name = true ∧ says name true ∧ (isValid (usernameValue (view s)) = true → usernameValue (view s) = name);
  ok_taken : usernameStatus (view s) = taken →
    ∃ name, says name false ∧ (isValid (usernameValue (view s)) = true → usernameValue (view s) = name);
  ok_timer : ∀ id name, timer s = Some (id, name) → isValid name = true ∧ check_of id name s }.

Section Laws.
Context (nativeModule : option (jstr → bool)) (wallet : jstr → bool) (phone_os Native : bool) (DEFAULT_SOV_NODE_URL : jstr).
#[local] Abbreviation handle := (handler nativeModule wallet phone_os Native DEFAULT_SOV_NODE_URL).
#[local] Abbreviation account_of := (account nativeModule wallet phone_os Native DEFAULT_SOV_NODE_URL).


Context (says : jstr → bool → Prop).
#[local] Abbreviation knows := (Known.knows (form_ok says) later (honest says)).
#[local] Abbreviation steady := (Known.steady (form_ok says) later (honest says)).

Lemma valid_not_space u : isValid u = true → trim u = u ∧ truthy u = true.
Proof.
  unfold isValid. rewrite !andb_true_iff. intros [[Ht Hf] _]. split; [|done]. apply trim_no_space.
  apply list.Forall_forall. intros c Hc. apply list_elem_of_In in Hc. apply forallb_forall with (x := c) in Hf; [|done].
  revert Hf. clear. destruct c as [[] [] [] [] [] [] [] []]; by vm_compute.
Qed.

Lemma named_ok text s : form_ok says s → form_ok says (setDisplayName text s) ∧ later s (setDisplayName text s).
Proof.
  intros [[Hn Hp] Hidle Hck Hinv Hav Htk Ht]. unfold setDisplayName. destruct (bool_decide (text = _)); [done|]. cbv zeta.
  assert (∀ st u, u = (if truthy (trim text) then normalized text else []) → consistent (setName text st u (view s))) as Hcons
    by (intros st u ->; by split).
  destruct (truthy (trim text)) eqn:Et; [destruct (isValid (normalized text)) eqn:Ev|].
  - rewrite bool_decide_eq_true_2 by done. split.
    + split; cbn [view usernameStatus usernameValue displayName setName timer]; try done; [by apply Hcons|].
      intros id name [= <- <-]. split; [done|]. by right.
    + intros id name [H|[-> _]]; left; cbn [usernameCheckId]; lia.
  - rewrite bool_decide_eq_false_2 by done. split.
    + split; cbn [view usernameStatus usernameValue displayName setName timer]; try done; by apply Hcons.
    + intros id name [H|[-> _]]; [by left|right]. cbn. split; [done|congruence].
  - rewrite bool_decide_eq_false_2 by done. split.
    + split; cbn [view usernameStatus usernameValue displayName setName timer]; try done; by apply Hcons.
    + intros id name [H|[-> _]]; [by left|right]. by cbn.
Qed.

(** a change that leaves the name, its status and the checks alone *)
Lemma aside_ok s s' :
  usernameStatus (view s') = usernameStatus (view s) → usernameValue (view s') = usernameValue (view s) →
  displayName (view s') = displayName (view s) → usernameCheckId s' = usernameCheckId s →
  (timer s' = timer s ∨ timer s' = None) → (consistent (view s) → consistent (view s')) →
  form_ok says s → form_ok says s' ∧ later s s'.
Proof.
  intros E1 E2 E3 E4 E5 Hc [H1 H2 H3 H4 H5 H6 H7].
  assert (later s s') as Hl by (intros id name; unfold check_of; by rewrite E2, E4). split; [|done].
  split; rewrite ?E1, ?E2, ?E3; auto. intros id name Et. destruct E5 as [E5|E5]; rewrite E5 in Et; [|done].
  destruct (H7 _ _ Et). split; [done|by apply Hl].
Qed.
#[local] Ltac aside := apply aside_ok; try done; try (by left); try (by intros [? ?]; split).

(** a check settles with what the node says of its name, if it is the last *)
Lemma checked_ok id name (b : bool) s :
  isValid name = true → form_ok says s → check_of id name s → says name b →
  steady (checked id (if b then available else taken)) (λ _ s', form_ok says s' ∧ True) s.
Proof.
  intros Hv HI Hc Hs. unfold checked, modify. cbn [Known.steady]. set (s' := if _ : bool then _ else _).
  enough (form_ok says s' ∧ later s s') as [H1 H2] by done. unfold s'. destruct (_ =? _)%nat eqn:E; [|done]. breflect.
  destruct Hc as [Hc|[_ Hc]]; [lia|]. destruct HI as [[A1 A2] H2 H3 H4 H5 H6 H7].
  split; [|intros i n Hi; exact Hi].
  split; cbn [view set_view usernameStatus usernameValue displayName setUsernameStatus timer]; try (by destruct b).
  - destruct b; [|done]. eauto.
  - destruct b; [done|]. eauto.
Qed.

Lemma check_ok id name s :
  isValid name = true → form_ok says s → check_of id name s →
  steady (checkUsername id name) (λ _ s', form_ok says s' ∧ True) s.
Proof.
  intros Hv HI Hc. destruct (valid_not_space _ Hv) as [Ht Htr].
  unfold checkUsername, AuthContext.checkUsernameAvailability, Auth.checkUsernameAvailability. rewrite Ht, Htr.
  cbn [negb]. unfold mbind, outside_bind.
  intros r s1 HI1 Hl1 Ha. apply Hl1 in Hc.
  assert (says name (is_free r)) as Hs by (apply Ha; unfold username_request; by rewrite Ht).
  destruct r as [e|data]; intros s2 HI2 Hl2; apply Hl2 in Hc.
  - by apply (checked_ok id name false).
  - by apply (checked_ok id name (otruthy (jget (js "available") data))).
Qed.

Lemma knows_set f : (∀ s, form_ok says s → form_ok says (set_view f s) ∧ later s (set_view f s)) → knows (λ _, True) (set f) Known.any.
Proof. intros H. apply Known.knows_modify; [done|]. intros s HI _. by apply H. Qed.

Lemma signup_handler_steady a s : form_ok says s → steady (bind (handle a) (λ _, ret ([] : jstr))) (λ _ _, True) s.
Proof.
  apply Known.knows_handler. destruct a as [text| |text|text|b|v]; cbn [handler].
  - apply Known.knows_modify; [done|]. intros x Hx _. by apply named_ok.
  - unfold fire, mbind, outside_bind. apply Known.knows_read. intros x Hx _.
    destruct (timer x) as [[id name]|] eqn:Et; [|by split_and!]. destruct (ok_timer _ _ Hx _ _ Et) as [Hv Hc].
    assert (form_ok says (set_timer None x) ∧ later x (set_timer None x)) as [H1 H2] by (revert Hx; aside; by right).
    cbn [bind bindR modify]. split; [done|]. split; [done|].
    eapply Known.steady_mono; [|apply (check_ok id name _ Hv H1 Hc)]. intros [e|[]] s' [Hs _]; by split_and!.
  - apply knows_set. intros x. aside.
  - apply knows_set. intros x. aside.
  - apply knows_set. intros x. aside.
  - unfold handleCreateIdentity, register. Known.knows_through; try (apply knows_set; intros x; aside);
      match goal with H : form_ok says ?s |- _ => revert H; aside end.
Qed.

(** the answer of the node about its name is what a check shows, and only the last
    check shows anything *)
Lemma username_check_alone {D} (ans : ∀ R : Set, req R → D → (error + R) * D) id name s d :
  isValid name = true →
  let x := ans json (username_request name) d in
  solo ans (checkUsername id name) s d =
  Some (inr tt, if (usernameCheckId s =? id)%nat
                then set_view (setUsernameStatus (if is_free x.1 then available else taken)) s else s, x.2).
Proof.
  intros Hv x. destruct (valid_not_space _ Hv) as [Ht Htr].
  unfold checkUsername, AuthContext.checkUsernameAvailability, Auth.checkUsernameAvailability. rewrite Ht, Htr.
  cbn [negb]. unfold mbind, outside_bind. cbn [bind bindR try_catch await call lift solo].
  replace (ans json _ d) with x by (unfold x, username_request; by rewrite Ht). destruct x as [[e|data] d']; destruct s; reflexivity.
Qed.

(** *** The requests that carry the name *)

Definition names (u : jstr) (e : event) : Prop :=
  match e with @Ev _ c _ =>
    match c with
    | quicRequestRaw path o =>
        path = Lobby.REGISTER_START ∨ path = Lobby.LOGIN_START →
        ∃ msg1, o = Lobby.opaque_options Quic.public
          (JObj ([(js "username", JStr u)] ++ opt_prop (js "msg1_b64") msg1))
    | quicRequest path o =>
        path = js "/api/v1/identity/claim-username" → o = post json_headers (JObj [(js "username", JStr u)])
    | _ => True
    end
  end.

Lemma underscores_lower b s : toLowerCase s = s → toLowerCase (AuthContext.underscores b s) = AuthContext.underscores b s.
Proof.
  revert b. induction s as [|c s IH]; intros b H; [done|]. simpl in H. injection H as Hc Hs. cbn [AuthContext.underscores].
  destruct (is_space c); [destruct b|]; simpl; rewrite ?Hc; f_equal; by apply IH.
Qed.
Lemma underscores_no_space b s : Forall (λ c, is_space c = false) (AuthContext.underscores b s).
Proof.
  revert b. induction s as [|c s IH]; intros b; cbn [AuthContext.underscores]; [constructor|].
  destruct (is_space c) eqn:E; [destruct b|]; [apply IH|constructor; [done|apply IH]..].
Qed.
Lemma normalized_fixed text : toLowerCase (trim (normalized text)) = normalized text.
Proof. unfold normalized. rewrite trim_no_space by apply underscores_no_space. apply underscores_lower, toLowerCase_idemp. Qed.

Ltac unfold_head t := lazymatch t with ?f _ => unfold_head f | _ => unfold t end.
Ltac names_through := repeat (emits_step || lazymatch goal with |- emits _ ?t => unfold_head t end).
Lemma emits_account v : emits (names (normalized (displayName v))) (account_of v).
Proof.
  unfold account, AuthContext.registerAccount. rewrite !trim_idemp.
  change (AuthContext.underscores false (toLowerCase (trim (displayName v)))) with (normalized (displayName v)).
  pose proof (normalized_fixed (displayName v)) as Hu. revert Hu. generalize (normalized (displayName v)) as u. intros u Hu.
  cbv zeta. emits_through; try unfold Lobby.opaqueRegisterBegin; rewrite ?Hu; cbv zeta; names_through.
  all: first [exact I|intros _; unfold Lobby.start_body; rewrite ?Hu; by eexists|by intros [?|?]|by intros ?].
Qed.

Lemma no_field_errors v : has_errors (errors_of v) = false →
  (2 ≤ length (trim (displayName v)))%nat ∧ truthy (trim (displayName v)) = true ∧
  usernameStatus v ≠ invalid ∧ usernameStatus v ≠ taken ∧ (3 ≤ length (usernameValue v))%nat ∧
  truthy (password v) = true ∧ pw_valid (passwordStrength v) = true ∧ password v = confirmPassword v ∧ acceptedTerms v = true.
Proof.
  unfold errors_of. destruct (truthy (trim (displayName v))); [|done]. cbn [negb].
  destruct (length (trim (displayName v)) <? 2)%nat eqn:E2; [done|].
  destruct (usernameStatus v); try done; cbn [andb]; destruct (length (usernameValue v) <? 3)%nat eqn:E3; try done;
  destruct (truthy (password v)); try done; cbn [negb]; destruct (pw_valid (passwordStrength v)); try done; cbn [negb andb];
  case_bool_decide; try done; destruct (acceptedTerms v); try done; intros _; breflect; repeat split; try done; lia.
Qed.

Lemma registered_trace v tr r :
  trace obs (register nativeModule wallet phone_os Native DEFAULT_SOV_NODE_URL v) tr r →
  r = inr tt ∧ ∃ r', trace obs (account_of v) tr r'.
Proof.
  unfold register, mbind, outside_bind, set. intros H. split.
  { apply trace_bindR in H as (r1 & tr1 & tr2 & _ & H & H2). apply trace_bindR in H2 as (r2 & tr3 & tr4 & _ & H2 & H3).
    apply trace_modify in H2 as [_ ->]. destruct H3 as [_ ->].
    apply trace_try_catch in H as [([] & -> & _)|(e & t1 & t2 & _ & _ & H)]; [done|by apply trace_modify in H as [_ ->]]. }
  apply trace_finally_set in H.
  apply trace_try_catch in H as [([] & _ & H)|(e & t1 & t2 & -> & H & H2)]; [|apply trace_modify in H2 as [-> _]; rewrite app_nil_r];
    (apply trace_bind in H as [(e' & H & _)|([identity seeds] & t3 & t4 & -> & H & H3)];
     [rewrite trace_await in H; apply trace_lift in H; eauto|rewrite trace_await in H; apply trace_lift in H]);
    (destruct (0 <? length seeds)%nat; apply trace_modify in H3 as [-> _]; rewrite app_nil_r; eauto).
Qed.

(** the first round is for the name on the screen, what follows creates the wallet *)
Definition account_for (v : form) (tr : list event) : Prop :=
  ∃ tr1 tr2, tr = tr1 ++ tr2 ∧
    ((tr2 = [] ∧ ∃ e, trace obs (Lobby.opaqueRegisterBegin (S := AuthContext.auth) Native (usernameValue v) (password v)) tr1 (inl e)) ∨
     ∃ h r, trace obs (Lobby.opaqueRegisterBegin (S := AuthContext.auth) Native (usernameValue v) (password v)) tr1 (inr h) ∧
       trace obs (AuthContext.registration nativeModule wallet phone_os Native DEFAULT_SOV_NODE_URL h
                    (trim (displayName v)) (usernameValue v) (password v)) tr2 r).

Lemma account_trace v tr r :
  usernameValue v = normalized (displayName v) → trace obs (account_of v) tr r → account_for v tr.
Proof.
  intros Hn. unfold account, AuthContext.registerAccount, AuthContext.set, mbind, outside_bind. rewrite !trim_idemp.
  change (AuthContext.underscores false (toLowerCase (trim (displayName v)))) with (normalized (displayName v)). rewrite <-Hn.
  intros H. do 2 (apply trace_after_modify in H). cbv zeta in H.
  apply trace_bind in H as [(e & H & ->)|(h & tr1 & tr2 & -> & H1 & H2)].
  - exists tr, []. rewrite app_nil_r. split; [done|]. left. eauto.
  - apply trace_finally_set in H2. exists tr1, tr2. split; [done|]. right. eauto.
Qed.

End Laws.

(** C13: whatever is typed, checked and answered before, the button never fails, and
    asks for an account only with accepted terms and a password that satisfies the
    policy and was typed twice.  The name it is for is the one the screen announces, of
    three characters at least, and every request that carries a username, from the
    first round to the login and the claim, carries this one.  A valid name is not yet
    answered for, or the node has said of this very name that it is free; another name
    passes only under the status an earlier one left, that the node has said is free.
    Otherwise nothing is asked.  A check shows what the node says of its own name, a
    failure as a name that is taken, and shows nothing once there is a later check. *)
Theorem registers_the_announced_name nativeModule wallet phone_os Native url says a w tr r :
  let v := view (ws w) in
  rtc (Async.step (λ e, bind (handler nativeModule wallet phone_os Native url e) (λ _, ret ([] : jstr)))
         (λ x y, ∃ a, y = put_provider a x) (honest says)) (mkWorld (opened a) 0 []) w →
  trace obs (handler nativeModule wallet phone_os Native url (Create v)) tr r →
  r = inr tt ∧
  (tr = [] ∨
   acceptedTerms v = true ∧ acceptable (password v) ∧ confirmPassword v = password v ∧
   usernameValue v = normalized (displayName v) ∧ (3 ≤ length (usernameValue v))%nat ∧
   (if isValid (usernameValue v)
    then usernameStatus v = checking ∨ usernameStatus v = available ∧ says (usernameValue v) true
    else usernameStatus v = available ∧ ∃ name, isValid name = true ∧ says name true) ∧
   account_for nativeModule wallet phone_os Native url v tr ∧ Forall (names (usernameValue v)) tr) ∧
  ∀ D (ans : ∀ R : Set, req R → D → (error + R) * D) id name s d, isValid name = true →
    let x := ans json (username_request name) d in
    solo ans (checkUsername id name) s d =
    Some (inr tt, if (usernameCheckId s =? id)%nat
                  then set_view (setUsernameStatus (if is_free x.1 then available else taken)) s else s, x.2).
Proof.
  intros v Hw H. assert (form_ok says (ws w)) as Hf.
  { eapply (Known.good_reachable (form_ok says) later (honest says)); [..|exact Hw]; [|intros x y [b ->]; apply aside_ok; auto|split; done|done].
    intros e s. apply signup_handler_steady. }
  pose proof (ok_consistent _ _ Hf) as [Hn Hp]. fold v in Hn, Hp. enough (r = inr tt ∧ _) as [H1 H2]
    by (split; [exact H1|]; split; [exact H2|]; intros; by apply username_check_alone).
  cbn [handler] in H. destruct (isCreatingIdentity v); [apply trace_ret in H as [-> ->]; auto|].
  unfold handleCreateIdentity, mbind, outside_bind, set in H. apply trace_after_modify in H.
  destruct (has_errors (errors_of v)) eqn:He; [apply trace_modify in H as [-> ->]; auto|].
  apply trace_after_modify in H. apply registered_trace in H as [-> [r' H]]. split; [done|]. right.
  apply no_field_errors in He as (_ & Ht & Hi & Hk & Hl & Hpw & Hv & Hc & Ha). rewrite Ht in Hn. rewrite Hpw in Hp. rewrite Hp in Hv.
  apply emits_account in H as Hu. rewrite <-Hn in Hu.
  apply (account_trace nativeModule wallet phone_os Native url v tr r' Hn) in H.
  apply truthy_true in Hpw. destruct (validatePassword_form _ Hpw) as (_ & [Hacc _] & _).
  assert (if isValid (usernameValue v)
    then usernameStatus v = checking ∨ usernameStatus v = available ∧ says (usernameValue v) true
    else usernameStatus v = available ∧ ∃ name, isValid name = true ∧ says name true) as Hs.
  { pose proof (ok_idle _ _ Hf) as Hidle. pose proof (ok_checking _ _ Hf) as Hck. pose proof (ok_available _ _ Hf) as Hav. fold v in Hidle, Hck, Hav.
    destruct (isValid (usernameValue v)) eqn:Ev.
    - destruct (usernameStatus v); try done; [by specialize (Hidle eq_refl); congruence|by left|].
      right. destruct (Hav eq_refl) as (n & _ & Hn' & E). rewrite E; done.
    - destruct (usernameStatus v); try done; [by specialize (Hidle eq_refl); congruence|by specialize (Hck eq_refl)|].
      destruct (Hav eq_refl) as (n & Hvn & Hn' & _). split; [done|]. by exists n. }
  exact (conj Ha (conj (Hacc Hv) (conj (eq_sym Hc) (conj Hn (conj Hl (conj Hs (conj H Hu))))))).
Qed.

(** ** Runs *)

Definition demo_handler := handler AuthContext.demo_has (λ _, false) true true (js "quic://node").
Definition demo_events (e : action) := bind (demo_handler e) (λ _, ret ([] : jstr)).
Definition demo_open : world screen error req := mkWorld (opened AuthContext.initial) 0 [].
Abbreviation does a w := (launch (demo_events a) w).
Definition demo_answer (R : Set) (c : req R) : error + R :=
  match c in req R return error + R with
  | publicQuicRequest _ _ => inr (JObj [(js "available", JBool true)])
  | _ => inl no_answer
  end.
Abbreviation answered i w := (resume demo_answer i w).
(** the node says of every name that it is free *)
Definition all_free (_ : jstr) (b : bool) : Prop := b = true.
Lemma demo_honest (R : Set) (c : req R) : honest all_free R c (demo_answer R c).
Proof. by destruct c. Qed.
#[local] Hint Resolve demo_honest : core.
Abbreviation demo_steps := (rtc (Async.step demo_events (λ x y, ∃ a, y = put_provider a x) (honest all_free))).

Definition a_password : jstr := js "Tr1cky-Horse!".
Definition with_password (w : world screen error req) : world screen error req :=
  does (Terms true) (does (Confirm a_password) (does (Password a_password) w)).

(** The answer about a name comes when an invalid one is on the screen: it is shown
    as available, and the button registers it. *)
Definition demo_stale : world screen error req :=
  with_password (answered 1 (answered 1 (does (Name (js "Ann!")) (does Fire (does (Name (js "Ann")) demo_open))))).
Fact invalid_name_can_be_registered :
  demo_steps demo_open demo_stale ∧
  let v := view (ws demo_stale) in
  usernameValue v = js "ann!" ∧ isValid (usernameValue v) = false ∧ usernameStatus v = available ∧
  has_errors (errors_of v) = false.
Proof.
  split; [|by vm_compute]. unfold demo_stale, with_password. run_through.
Qed.

(** The button does not wait for the check: a name is refused only once the node
    has said that it is taken. *)
Fact unchecked_name_is_submitted v :
  has_errors (errors_of (setUsernameStatus checking v)) = has_errors (errors_of (setUsernameStatus available v)).
Proof. done. Qed.

(** Names the rules of usernames refuse are accepted here. *)
Fact reserved_name_can_be_registered :
  isValid (normalized (js "Admin")) = true ∧ Identifiers.validateUsername (normalized (js "Admin")) = Some (js "That name is reserved.") ∧
  isValid (normalized (js "_ab")) = true ∧ Identifiers.validateUsername (normalized (js "_ab")) = Some (js "Cannot start or end with underscore.").
Proof. vm_compute. done. Qed.

(** a name that was checked, a password, the terms: the account is created and the
    seed phrase shown *)
Definition named : world screen error req :=
  with_password (answered 1 (answered 1 (does Fire (does (Name (js "Ann Lee")) demo_open)))).
Lemma named_steps : demo_steps demo_open named.
Proof. unfold named, with_password. run_through. Qed.

Definition a_seed : jstr := js "one two three".
(** the phone of AuthContext.v, with a master seed phrase *)
Definition demo_phone : phone :=
  mkPhone None
    (λ m args, if bool_decide (m = js "getSeedPhraseForBackup") then inr (JStr a_seed) else AuthContext.demo_modules m args)
    (λ _, inl no_answer) (AuthContext.demo_raw []) (mkContents ∅ ∅ ∅).
Abbreviation demo_create :=
  (solo phone_handle (demo_handler (Create (view (ws named)))) (ws named) demo_phone).
Example seed_phrase_is_shown :
  match demo_create with
  | Some (inr tt, s, _) => map snd (shown_seed s) = [[js "one"; js "two"; js "three"]] ∧ isCreatingIdentity (view s) = false
  | _ => False
  end.
Proof. vm_compute. done. Qed.
Lemma create_ends : is_Some demo_create.
Proof. apply is_Some_alt. vm_compute. exact I. Qed.
Lemma create_traced : ∃ tr r, trace obs (demo_handler (Create (view (ws named)))) tr r.
Proof. destruct create_ends as [[[r s] p] E]. destruct (solo_trace phone_handle _ _ _ _ _ _ E) as [tr H]. exists tr, r. exact H. Qed.

Lemma registers_the_announced_name_witness :
  usernameValue (view (ws named)) = js "ann_lee" ∧
  ∃ tr r, trace obs (demo_handler (Create (view (ws named)))) tr r ∧ r = inr tt.
Proof.
  split; [vm_compute; reflexivity|]. destruct create_traced as (tr & r & H). exists tr, r. split; [exact H|].
  destruct (registers_the_announced_name AuthContext.demo_has (λ _, false) true true (js "quic://node") all_free AuthContext.initial
    named tr r named_steps H) as [Hr _]. exact Hr.
Defined.
