(* ===== verification/SignIn.v ===== *)
(** * Signing in with a password: src/src/screens/SignInScreen.tsx

    The button opens a password session (AuthContext.v); an account of the old kind
    is upgraded; a refusal of the node with a delay locks the button until a clock
    releases it.  The effect of the deadline runs with the failure that sets it; a
    press closes over the rendering [v] of the form and [a] of the provider.  A
    reading of the clock acts on the interval that is there when it comes.  Texts
    are those of the English translation. *)

From stdpp Require Import strings gmap.
From S2P Require Import Prelude JsString JsMap Json Codec Async Outside.
From S2P Require Quic QuicSession Auth Lobby AuthContext.
#[local] Open Scope Z_scope.

Record form := mkForm {
  username : jstr; password : jstr; showPassword : bool; localError : option jstr; submitting : bool;
  upgradeNeeded : bool; lockUntil : option Z; lockRemaining : Z }.
Definition empty_form : form := mkForm [] [] false None false false None 0.

Definition setUsername u (x : form) := mkForm u (password x) (showPassword x) (localError x) (submitting x) (upgradeNeeded x) (lockUntil x) (lockRemaining x).
Definition setPassword p (x : form) := mkForm (username x) p (showPassword x) (localError x) (submitting x) (upgradeNeeded x) (lockUntil x) (lockRemaining x).
Definition setShowPassword b (x : form) := mkForm (username x) (password x) b (localError x) (submitting x) (upgradeNeeded x) (lockUntil x) (lockRemaining x).
Definition setLocalError e (x : form) := mkForm (username x) (password x) (showPassword x) e (submitting x) (upgradeNeeded x) (lockUntil x) (lockRemaining x).
Definition setSubmitting b (x : form) := mkForm (username x) (password x) (showPassword x) (localError x) b (upgradeNeeded x) (lockUntil x) (lockRemaining x).
Definition setUpgradeNeeded b (x : form) := mkForm (username x) (password x) (showPassword x) (localError x) (submitting x) b (lockUntil x) (lockRemaining x).
Definition setLock u n (x : form) := mkForm (username x) (password x) (showPassword x) (localError x) (submitting x) (upgradeNeeded x) u n.

Inductive route := Back | RecoverIdentity | CreateIdentity.

(** [tick] is the interval, with the deadline its function closes over *)
Record screen := mkScreen { view : form; tick : option Z; went : list route; provider : AuthContext.auth }.
Definition opened (a : AuthContext.auth) : screen := mkScreen empty_form None [] a.
Definition set_view f s := mkScreen (f (view s)) (tick s) (went s) (provider s).
Definition put_provider a s := mkScreen (view s) (tick s) (went s) a.
Definition go r s := mkScreen (view s) (tick s) (went s ++ [r]) (provider s).

#[local] Abbreviation prog := (Outside.prog screen).
Definition set (f : form → form) : prog unit := modify (set_view f).

(** ** The lock *)

(** [Math.max(0, Math.ceil((lockUntil - Date.now()) / 1000))] *)
Definition remaining_at (u now : Z) : Z := Z.max 0 (- ((now - u) / 1000)).
(** [update], of the interval with the deadline [u] *)
Definition update (u now : Z) (s : screen) : screen :=
  if remaining_at u now =? 0 then mkScreen (setLock None 0 (view s)) None (went s) (provider s)
  else mkScreen (setLock (lockUntil (view s)) (remaining_at u now) (view s)) (tick s) (went s) (provider s).
(** [setLockUntil(u)] and its effect at the time [now] *)
Definition lock (u now : Z) (s : screen) : screen :=
  if bool_decide (lockUntil (view s) = Some u) then s
  else update u now (mkScreen (setLock (Some u) (lockRemaining (view s)) (view s)) (Some u) (went s) (provider s)).
(** the interval of a second *)
Definition ticked : prog unit :=
  now ← call Date_now;
  modify (λ s, match tick s with Some u => update u now s | None => s end).

Definition normalized (v : form) : jstr := toLowerCase (trim (username v)).
Definition locked (v : form) : bool := 0 <? lockRemaining v.
Definition busy (v : form) (a : AuthContext.auth) : bool := submitting v || AuthContext.isLoading a.
Definition signInLabel (v : form) : jstr :=
  if locked v then js "Try again in " ++ dec_str (lockRemaining v) ++ js "s" else js "Sign In to SOV Network".
(** [localError || error] *)
Definition displayError (v : form) (a : AuthContext.auth) : option jstr :=
  match localError v with
  | Some m => if truthy m then Some m else AuthContext.error_text a
  | None => AuthContext.error_text a
  end.

(** ** Signing in *)

Section Screen.
Context (nativeModule : option (jstr → bool)) (Native : bool).

Definition afterAuth (identity : json) : prog unit :=
  set (setUsername []);; set (setPassword []);;
  modify (go (if jtruthy identity then Back else RecoverIdentity)).

Definition is_locking (k : LobbyAuthErrorKind) : bool := match k with Outside.locked | ip_throttled => true | _ => false end.
Definition handleAuthError (err : error) : prog unit :=
  set (setLocalError (Some (message err)));;
  match err with
  | LobbyAuthError upgrade_required _ _ => set (setUpgradeNeeded true)
  | LobbyAuthError k _ (Some secs) =>
      if is_locking k && negb (secs =? 0) then
        now ← call Date_now;
        now' ← call Date_now;
        modify (lock (now + secs * 1000) now')
      else ret tt
  | _ => ret tt
  end.

Definition attempt (t : Outside.prog AuthContext.auth json) : prog unit :=
  set (setSubmitting true);;
  try_finally
    (try_catch (identity ← await (lift provider put_provider t); afterAuth identity) handleAuthError)
    (set (setSubmitting false)).
Definition sign_in (v : form) := AuthContext.passwordSignIn nativeModule Native (normalized v) (password v).
Definition upgrade (v : form) := AuthContext.upgradeLegacyAccount nativeModule Native (normalized v) (password v).

Definition handleSignIn (v : form) : prog unit :=
  set (setLocalError None);; set (setUpgradeNeeded false);;
  if negb (truthy (normalized v)) then set (setLocalError (Some (js "Enter your username.")))
  else if negb (truthy (password v)) then set (setLocalError (Some (js "Password is required")))
  else attempt (sign_in v).
Definition handleUpgrade (v : form) : prog unit :=
  set (setLocalError None);; attempt (upgrade v).

Inductive action :=
| Username (text : jstr) | Password (text : jstr) | ToggleShow (v : form) | Tick
| PressSignIn (v : form) (a : AuthContext.auth) | PressUpgrade (v : form) (a : AuthContext.auth)
| Go (v : form) (a : AuthContext.auth) (r : route).
(** while the form is busy there is only the spinner *)
Definition handler (e : action) : prog unit :=
  match e with
  | Username text => set (setUsername text)
  | Password text => set (setPassword text)
  | ToggleShow v => set (setShowPassword (negb (showPassword v)))
  | Tick => ticked
  | PressSignIn v a => if busy v a || locked v then ret tt else handleSignIn v
  | PressUpgrade v a => if busy v a || negb (upgradeNeeded v) then ret tt else handleUpgrade v
  | Go v a r => if busy v a then ret tt else modify (go r)
  end.
End Screen.

(** * Properties *)

(** ** The lock and its clock *)

(** the button is locked exactly while there is a deadline, and then the interval
    that will release it is there *)
Definition lock_ok (s : screen) : Prop :=
  tick s = lockUntil (view s) ∧ 0 ≤ lockRemaining (view s) ∧
  (locked (view s) = true ↔ is_Some (lockUntil (view s))).

Lemma remaining_pos u now : 0 < remaining_at u now ↔ now < u.
Proof. unfold remaining_at. pose proof (Z.div_mod (now - u) 1000). pose proof (Z.mod_pos_bound (now - u) 1000). lia. Qed.
Lemma remaining_nonneg u now : 0 ≤ remaining_at u now.
Proof. unfold remaining_at. lia. Qed.

Lemma update_ok u now s :
  tick s = Some u → lockUntil (view s) = Some u → lock_ok (update u now s).
Proof.
  intros Ht Hu. unfold update, lock_ok, locked. destruct (remaining_at u now =? 0) eqn:E; breflect; cbn [view tick lockUntil lockRemaining setLock].
  - split; [done|]. split; [lia|]. split; [done|]. by intros [].
  - pose proof (remaining_nonneg u now). split; [congruence|]. split; [lia|]. rewrite Hu. split; [eauto|]. intros _. apply Z.ltb_lt. lia.
Qed.

Lemma lock_lock_ok u now s : lock_ok s → lock_ok (lock u now s).
Proof. intros H. unfold lock. destruct (bool_decide _); [done|]. by apply update_ok. Qed.

Lemma tick_ok now s : lock_ok s → lock_ok (match tick s with Some u => update u now s | None => s end).
Proof. intros H. destruct (tick s) as [u|] eqn:E; [|done]. apply update_ok; [done|]. by rewrite <-(proj1 H). Qed.

Section Laws.
Context (nativeModule : option (jstr → bool)) (Native : bool).

Lemma keeps_attempt t : keeps lock_ok (attempt t).
Proof.
  unfold attempt, afterAuth, handleAuthError, set. keeps_through; try done; apply lock_lock_ok.
Qed.

Lemma keeps_signin_handler e : keeps lock_ok (handler nativeModule Native e).
Proof.
  destruct e as [text|text|v| |v a|v a|v a r]; cbn [handler]; unfold ticked, handleSignIn, handleUpgrade, set; keeps_through;
    try done; try apply keeps_attempt. apply tick_ok.
Qed.
End Laws.

(** C29: every lock ends.  In whatever state the screen is, whatever was pressed and
    answered, the button is locked exactly while there is a deadline, with an
    interval of that deadline; each of its ticks shows the seconds that are left,
    rounded up, as long as there are some, and the first tick at the deadline or
    later opens the button and stops the interval. *)
Theorem every_lock_ends nativeModule Native a w :
  rtc (Async.step (λ e, bind (handler nativeModule Native e) (λ _, ret []))
         (λ x y, ∃ a, y = put_provider a x) (λ _ _ _, True)) (mkWorld (opened a) 0 []) w →
  (locked (view (ws w)) = true ↔ is_Some (lockUntil (view (ws w)))) ∧
  ∀ u, lockUntil (view (ws w)) = Some u →
  ∀ D (handle : ∀ R : Set, req R → D → (error + R) * D) d now d', handle Z Date_now d = (inr now, d') →
  ∃ s, solo handle (handler nativeModule Native Tick) (ws w) d = Some (inr tt, s, d') ∧
    if now <? u
    then locked (view s) = true ∧ lockUntil (view s) = Some u ∧ tick s = Some u ∧
         (lockRemaining (view s) - 1) * 1000 < u - now ≤ lockRemaining (view s) * 1000
    else locked (view s) = false ∧ lockUntil (view s) = None ∧ tick s = None.
Proof.
  intros Hw. assert (lock_ok (ws w)) as (Ht & Hn & Hl).
  { eapply keeps_reachable; [apply keeps_signin_handler|..|exact Hw]; [by intros x y [b ->]| |done]. split; [done|]. split; [done|].
    split; [done|]. by intros []. }
  split; [exact Hl|]. intros u Hu D handle d now d' Hd. eexists. split.
  { cbn [handler]. unfold ticked, mbind, outside_bind. rewrite solo_bind, solo_call, Hd. cbn [fst snd]. by rewrite solo_modify. }
  rewrite Ht, Hu. pose proof (remaining_pos u now) as Hr. pose proof (remaining_nonneg u now). unfold update, locked.
  destruct (now <? u) eqn:E; breflect; destruct (remaining_at u now =? 0) eqn:E0; breflect; try lia;
    cbn [view tick lockUntil lockRemaining setLock]; [|done].
  rewrite Ht, Hu. split; [apply Z.ltb_lt; lia|]. do 2 (split; [done|]). unfold remaining_at in *.
  pose proof (Z.div_mod (now - u) 1000). pose proof (Z.mod_pos_bound (now - u) 1000). lia.
Qed.

(** ** Runs *)

(** the node refuses a sign-in with a delay of half a minute *)
Definition throttled : Quic.QuicRawResponse := Quic.mkResponse 423 [] (js "retry after 30 s") false None.
Definition demo_answer (R : Set) (c : req R) : error + R :=
  match c in req R return error + R with
  | native _ m args => AuthContext.demo_modules m args
  | quicRequestRaw _ _ => inr throttled
  | Date_now => inr 1000000
  | _ => inl no_answer
  end.
Definition demo_handler := handler AuthContext.demo_has true.
Definition demo_events (e : action) := bind (demo_handler e) (λ _, ret ([] : jstr)).
Definition demo_open : world screen error req := mkWorld (opened (AuthContext.setIsLoading false AuthContext.initial)) 0 [].
Abbreviation demo_steps := (rtc (Async.step demo_events (λ x y, ∃ a, y = put_provider a x) (λ _ _ _, True))).

Definition demo_typed : world screen error req := launch (demo_events (Password (js "pw"))) (launch (demo_events (Username (js "Bob "))) demo_open).
Definition demo_pressed : world screen error req :=
  launch (demo_events (PressSignIn (view (ws demo_typed)) (provider (ws demo_typed)))) demo_typed.
Definition demo_refused : world screen error req := Nat.iter 8 (resume demo_answer 2) demo_pressed.
Lemma refused_steps : demo_steps demo_open demo_refused.
Proof. unfold demo_refused, demo_pressed. set (v := view (ws demo_typed)). set (a := provider (ws demo_typed)). unfold demo_typed. cbn [Nat.iter nat_rect]. run_through. Qed.
Lemma refused_locked : lockUntil (view (ws demo_refused)) = Some 1030000 ∧ signInLabel (view (ws demo_refused)) = js "Try again in 30s".
Proof. vm_compute. done. Qed.

(** a clock that reads the number it is given *)
Definition clock_handle (R : Set) (c : req R) : Z → (error + R) * Z :=
  match c in req R return Z → (error + R) * Z with Date_now => λ d, (inr d, d) | _ => λ d, (inl no_answer, d) end.

Lemma every_lock_ends_witness :
  ∃ s, solo clock_handle (demo_handler Tick) (ws demo_refused) 1030000 = Some (inr tt, s, 1030000) ∧
    locked (view s) = false ∧ lockUntil (view s) = None ∧ tick s = None.
Proof.
  destruct (every_lock_ends AuthContext.demo_has true _ demo_refused refused_steps) as [_ H].
  exact (H 1030000 (proj1 refused_locked) Z clock_handle 1030000 1030000 1030000 eq_refl).
Defined.

(** ** The end of an attempt *)

(** A session that opens leaves no password in the form; the screen is left for the
    app when the key is on the device, for the recovery otherwise. *)
Fact success_clears_the_form {D} (handle : ∀ R : Set, req R → D → (error + R) * D) t s d identity x d' :
  solo handle t (provider s) d = Some (inr identity, x, d') →
  ∃ s', solo handle (attempt t) s d = Some (inr tt, s', d') ∧ username (view s') = [] ∧ password (view s') = [] ∧
    submitting (view s') = false ∧ went s' = went s ++ [if jtruthy identity then Back else RecoverIdentity].
Proof.
  intros H. unfold attempt, afterAuth, set, mbind, outside_bind. rewrite solo_bind, solo_modify, solo_try_finally, solo_try_catch.
  rewrite solo_bind, solo_await, (solo_lift provider put_provider) by first [done|by intros []].
  replace (provider (set_view (setSubmitting true) s)) with (provider s) by done. rewrite H.
  rewrite !solo_bind, !solo_modify, solo_bind, !solo_modify. eexists. split; [reflexivity|]. done.
Qed.

(** The comment says the countdown is driven by the hint of the server: the delay of
    a rate limit is shown nowhere, and the button stays open. *)
Fact rate_limit_does_not_lock {D} (handle : ∀ R : Set, req R → D → (error + R) * D) s d :
  let e := Lobby.mapServerError 429 (js "retry after 30 s") in
  (∃ m, e = LobbyAuthError rate_limited m (Some 30)) ∧
  solo handle (handleAuthError e) s d = Some (inr tt, set_view (setLocalError (Some (message e))) s, d).
Proof. split; [by eexists|]. done. Qed.

(** The link that upgrades an account is open while the button is locked. *)
Fact upgrade_is_not_locked nativeModule Native v a :
  upgradeNeeded v = true → busy v a = false → locked v = true →
  handler nativeModule Native (PressUpgrade v a) = handleUpgrade nativeModule Native v ∧
  handler nativeModule Native (PressSignIn v a) = ret tt.
Proof. intros Hu Hb Hl. cbn [handler]. by rewrite Hb, Hu, Hl. Qed.
