(* ===== verification/Claim.v ===== *)
(** * Claiming a username:
    src/src/components/organisms/UsernameClaimModal/UsernameClaimModal.tsx

    The overlay of an identity without a username, as a machine: the user types, the
    timer of a probe fires, answers of probes and of claims come in any order.  The
    effect of the value runs with the change that triggers it, a press sees the last
    rendering.  [P] is what the node says an available name is.  Dashes and dots of
    the texts are written in ASCII. *)

From stdpp Require Import strings gmap.
From S2P Require Import Prelude JsString JsMap Json Codec Async Outside.
From S2P Require Identifiers Quic QuicSession Auth AuthContext.
#[local] Open Scope Z_scope.

Inductive Availability := idle | checking | free | taken | failed (message : jstr).
#[export] Instance availability_eq_dec : EqDecision Availability.
Proof. solve_decision. Defined.

(** [probing] and [claims] are the requests without an answer *)
Record modal := mkModal {
  value : jstr; validation : option jstr; availability : Availability; submitting : bool; submitError : option jstr;
  probeTimer : option (nat * jstr); probeSeq : nat; probing : list (nat * jstr); claims : list jstr }.

Definition normalized (text : jstr) : jstr := toLowerCase (trim text).

(** the effect of a new name, after its cleanup *)
Definition named (name : jstr) (m : modal) : modal :=
  match Identifiers.validateUsername name with
  | Some e => mkModal (value m) (Some e) idle (submitting m) (submitError m) None (probeSeq m) (probing m) (claims m)
  | None =>
      if truthy name
      then mkModal (value m) None checking (submitting m) (submitError m) (Some (S (probeSeq m), name)) (S (probeSeq m)) (probing m) (claims m)
      else mkModal (value m) None idle (submitting m) (submitError m) None (probeSeq m) (probing m) (claims m)
  end.
Definition setValue (text : jstr) (m : modal) : modal :=
  let m' := mkModal text (validation m) (availability m) (submitting m) (submitError m) (probeTimer m) (probeSeq m) (probing m) (claims m) in
  if bool_decide (normalized text = normalized (value m)) then m' else named (normalized text) m'.
Definition opened : modal := named (normalized []) (mkModal [] None idle false None None 0 [] []).

(** ** The probe *)

Definition fire (m : modal) : modal :=
  match probeTimer m with
  | Some p => mkModal (value m) (validation m) (availability m) (submitting m) (submitError m) None (probeSeq m) (probing m ++ [p]) (claims m)
  | None => m
  end.
Definition state_of (r : error + bool) : Availability :=
  match r with inr true => free | inr false => taken | inl e => failed (message e) end.
Definition probed (seq : nat) (r : error + bool) (rest : list (nat * jstr)) (m : modal) : modal :=
  mkModal (value m) (validation m) (if (probeSeq m =? seq)%nat then state_of r else availability m)
    (submitting m) (submitError m) (probeTimer m) (probeSeq m) rest (claims m).

(** ** The claim *)

Definition canSubmit (m : modal) : bool :=
  negb (submitting m) && bool_decide (validation m = None) && bool_decide (availability m = free ∨ availability m = idle).
Definition onSubmit (m : modal) : modal :=
  if canSubmit m
  then mkModal (value m) (validation m) (availability m) true None (probeTimer m) (probeSeq m) (probing m) (claims m ++ [normalized (value m)])
  else m.

Definition body_text (e : error) : option jstr :=
  match e with
  | Js (Quic.QuicError _ _ _ (inr s)) | Js (Quic.QuicError _ _ _ (inl (JStr s))) => Some s
  | Js (Quic.QuicError _ _ _ (inl ((JObj _ | JArr _) as v))) => Some (stringify v)
  | _ => None
  end.
Definition HAS_ONE : jstr := js "Your account already has a username -- refreshing your profile.".
Definition claim_error (e : error) : jstr :=
  let m := str_or (default [] (body_text e)) (str_or (message e) (js "Claim failed.")) in
  if bool_decide (error_status e = Some 409) then
    if includes (js "already has") (toLowerCase m) then HAS_ONE
    else if includes (js "already taken") (toLowerCase m) then js "That username is already taken. Pick another."
    else m
  else m.
Definition claimed (r : error + unit) (rest : list jstr) (m : modal) : modal :=
  mkModal (value m) (validation m) (availability m) false
    (match r with inl e => Some (claim_error e) | inr _ => submitError m end) (probeTimer m) (probeSeq m) (probing m) rest.

(** ** What is shown under the name *)

Inductive tone := error_tone | neutral | success.
Definition RULES : jstr := js "Lowercase letters, digits, and underscore. 3-32 chars.".
Definition helperLine (m : modal) : tone * jstr :=
  match validation m with
  | Some e =>
      if truthy e then (error_tone, e) else (neutral, RULES)
  | None =>
      if negb (truthy (normalized (value m))) then (neutral, RULES)
      else match availability m with
      | checking => (neutral, js "Checking availability...")
      | free => (success, js "@" ++ normalized (value m) ++ js " is available.")
      | taken => (error_tone, js "Already taken. Pick another.")
      | failed e => (error_tone, js "Couldn't check: " ++ e)
      | idle => (neutral, RULES)
      end
  end.

(** ** The machine *)

Inductive step (P : jstr → Prop) : modal → modal → Prop :=
| step_type text m : step P m (setValue text m)
| step_fire m : step P m (fire m)
| step_probed m l1 seq name l2 tr r :
    probing m = l1 ++ (seq, name) :: l2 →
    trace obs (AuthContext.checkUsernameAvailability name) tr r → (r = inr true → P name) →
    step P m (probed seq r (l1 ++ l2) m)
| step_submit m : step P m (onSubmit m)
| step_claimed m l1 name l2 tr r :
    claims m = l1 ++ name :: l2 → trace obs (AuthContext.claimUsername name) tr r →
    step P m (claimed r (l1 ++ l2) m).

(** * Properties *)

Lemma empty_invalid : Identifiers.validateUsername [] ≠ None.
Proof. by vm_compute. Qed.

(** what [P] says of the name that is shown as available; probes of the last number
    are of the name that is shown, when that is a valid one *)
Record modal_ok (P : jstr → Prop) (m : modal) : Prop := {
  ok_validation : validation m = Identifiers.validateUsername (normalized (value m));
  ok_idle : validation m = None → availability m ≠ idle;
  ok_free : validation m = None → availability m = free → P (normalized (value m));
  ok_probes : Forall (λ p, p.1 ≤ probeSeq m ∧ (p.1 = probeSeq m → validation m = None → p.2 = normalized (value m)))%nat
                (probing m ++ option_list (probeTimer m));
  ok_claims : claims m = [] ∧ submitting m = false ∨
              ∃ name, claims m = [name] ∧ submitting m = true ∧ Identifiers.validateUsername name = None ∧ P name }.

Ltac modal_cbn := cbn [value validation availability submitting submitError probeTimer probeSeq probing claims fire probed claimed].

Section Laws.
Context (P : jstr → Prop).

Lemma named_keeps text m :
  modal_ok P m →
  modal_ok P (named (normalized text) (mkModal text (validation m) (availability m) (submitting m) (submitError m) (probeTimer m) (probeSeq m) (probing m) (claims m))).
Proof.
  intros [Hv Hi Hf Hp Hc]. apply Forall_app in Hp as [Hp _]. unfold named.
  destruct (Identifiers.validateUsername (normalized text)) as [e|] eqn:E; [|destruct (truthy (normalized text)) eqn:Et].
  - split; modal_cbn; try done. rewrite app_nil_r. eapply list.Forall_impl; [exact Hp|]. by intros p [H _].
  - split; modal_cbn; try done. apply Forall_app. split; [|by constructor].
    eapply list.Forall_impl; [exact Hp|]. intros p [H _]. simpl. split; [lia|]. intros E'. lia.
  - by apply truthy_false in Et; rewrite Et in E; apply empty_invalid in E.
Qed.

Lemma set_value_ok text m : modal_ok P m → modal_ok P (setValue text m).
Proof.
  intros H. unfold setValue. cbv zeta. case_bool_decide as E; [|by apply named_keeps].
  destruct H as [Hv Hi Hf Hp Hc]. split; modal_cbn; rewrite ?E; done.
Qed.

Lemma fire_ok m : modal_ok P m → modal_ok P (fire m).
Proof.
  intros [Hv Hi Hf Hp Hc]. unfold fire. destruct (probeTimer m) as [p|] eqn:E; [|split; try done; by rewrite E].
  split; modal_cbn; try done. by rewrite app_nil_r.
Qed.

Lemma probed_ok m l1 seq name l2 r :
  probing m = l1 ++ (seq, name) :: l2 → (r = inr true → P name) → modal_ok P m → modal_ok P (probed seq r (l1 ++ l2) m).
Proof.
  intros E HP [Hv Hi Hf Hp Hc]. rewrite E, <-app_assoc in Hp. pose proof Hp as [H1 H2]%Forall_app.
  cbn [app] in H2. apply list.Forall_cons in H2 as [[_ Hn] H2].
  split; modal_cbn; try done.
  - intros Hval. destruct (_ =? _)%nat; [|by apply Hi]. by destruct r as [|[]].
  - intros Hval. destruct (probeSeq m =? seq)%nat eqn:Es; [|by apply Hf]. breflect.
    rewrite <-Hn by (simpl; done). intros Hr. apply HP. by destruct r as [|[]].
  - rewrite <-app_assoc. by apply Forall_app.
Qed.

Lemma can_submit m : modal_ok P m → canSubmit m = true →
  submitting m = false ∧ availability m = free ∧ Identifiers.validateUsername (normalized (value m)) = None ∧ P (normalized (value m)).
Proof.
  intros [Hv Hi Hf Hp Hc]. unfold canSubmit. rewrite !andb_true_iff, negb_true_iff, !bool_decide_eq_true.
  intros [[Hs Hval] Ha]. destruct Ha as [Ha|Ha]; [|by apply Hi in Ha]. rewrite <-Hv. auto.
Qed.

Lemma on_submit_ok m : modal_ok P m → modal_ok P (onSubmit m).
Proof.
  intros H. unfold onSubmit. destruct (canSubmit m) eqn:E; [|done]. destruct (can_submit m H E) as (Hs & _ & Hval & Hn).
  destruct H as [Hv Hi Hf Hp [[Hc _]|(name & _ & Ht & _)]]; [|congruence]. split; modal_cbn; try done. right. rewrite Hc. eauto.
Qed.

Lemma claimed_ok m l1 name l2 r : claims m = l1 ++ name :: l2 → modal_ok P m → modal_ok P (claimed r (l1 ++ l2) m).
Proof.
  intros E [Hv Hi Hf Hp Hc]. split; modal_cbn; try done. left. split; [|done].
  destruct Hc as [[Hc _]|(n & Hc & _)]; rewrite Hc in E; [by destruct l1|]. by destruct l1 as [|x [|y l1]], l2.
Qed.

Lemma modal_reachable m : rtc (step P) opened m → modal_ok P m.
Proof.
  apply (rtc_ind_r (modal_ok P)); [|].
  - split; try done. by left.
  - intros x y _ Hs H. destruct Hs; [by apply set_value_ok|by apply fire_ok|by eapply probed_ok|by apply on_submit_ok|by eapply claimed_ok].
Qed.
End Laws.

(** C14: whatever is typed, in whatever order the timers fire and the probes and
    claims are answered: a name is claimed only when the rules accept it and the node
    has said of this very name that it is available, and one claim waits at a time.
    The button is open only with such a name on the screen; that the check has not
    been asked does not open it. *)
Theorem claims_only_a_free_name P m :
  rtc (step P) opened m →
  (claims m = [] ∨ ∃ name, claims m = [name] ∧ Identifiers.validateUsername name = None ∧ P name) ∧
  (canSubmit m = true →
   claims m = [] ∧ availability m = free ∧ Identifiers.validateUsername (normalized (value m)) = None ∧ P (normalized (value m)) ∧
   claims (onSubmit m) = [normalized (value m)]).
Proof.
  intros H%modal_reachable. split.
  { destruct (ok_claims _ _ H) as [[-> _]|(name & -> & _ & Hn)]; eauto. }
  intros Hc. destruct (can_submit P m H Hc) as (Hs & Ha & Hv & Hn).
  destruct (ok_claims _ _ H) as [[Hcl _]|(name & _ & Ht & _)]; [|congruence].
  unfold onSubmit. rewrite Hc. cbn [claims]. by rewrite Hcl.
Qed.

(** ** Runs *)

Definition is_ann (name : jstr) : Prop := name = js "ann".
Definition ann : modal := probed 1 (inr true) [] (fire (setValue (js " Ann") opened)).
Lemma available_trace name :
  truthy (trim name) = true → ∃ tr, trace obs (AuthContext.checkUsernameAvailability name) tr (inr true).
Proof.
  intros H. unfold AuthContext.checkUsernameAvailability, Auth.checkUsernameAvailability. rewrite H. cbn [negb].
  eexists. exists (inr (JObj [(js "available", JBool true)])), []. split; [reflexivity|]. by split.
Qed.
Lemma ann_reachable : rtc (step is_ann) opened ann.
Proof.
  eapply rtc_l; [apply (step_type _ (js " Ann"))|]. eapply rtc_l; [apply step_fire|].
  destruct (available_trace (js "ann") eq_refl) as [tr H]. apply rtc_once. by apply (step_probed is_ann _ [] 1 (js "ann") [] tr (inr true)).
Qed.

Lemma claims_only_a_free_name_witness : canSubmit ann = true ∧ claims (onSubmit ann) = [js "ann"].
Proof.
  split; [vm_compute; reflexivity|].
  destruct (proj2 (claims_only_a_free_name is_ann ann ann_reachable) eq_refl) as (_ & _ & _ & _ & H). exact H.
Defined.

(** ** What the overlay says *)

(** The rules are meant for an empty field, which shows an error: the empty name is
    validated like any other. *)
Fact empty_field_is_an_error P m :
  rtc (step P) opened m → normalized (value m) = [] → helperLine m = (error_tone, js "At least 3 characters.").
Proof. intros H%modal_reachable E. unfold helperLine. by rewrite (ok_validation _ _ H), E. Qed.

(** An account that already has a username is told that its profile is refreshed:
    the provider is left as it is, and the overlay, which cannot be dismissed, stays. *)
Fact refused_claim_refreshes_nothing {D} (handle : ∀ R : Set, req R → D → (error + R) * D) name s d e d' :
  (∀ path o, handle json (quicRequest path o) d = (inl e, d')) → jtruthy (AuthContext.currentIdentity s) = true →
  solo handle (AuthContext.claimUsername name) s d = Some (inl e, s, d').
Proof.
  intros He Hi. unfold AuthContext.claimUsername, Auth.claimUsername, mbind, outside_bind.
  rewrite solo_bind, solo_gets, Hi. cbn [negb]. by rewrite solo_bind, solo_call, He.
Qed.
Example already_has_one :
  claim_error (Js (Quic.QuicError 409 (js "Conflict") None (inr (js "identity already has a username")))) = HAS_ONE.
Proof. vm_compute. reflexivity. Qed.
