(* ===== verification/AsyncData.v ===== *)
(** * Data of a screen: src/src/hooks/useAsyncData.ts

    The hook as a machine over renderings, retries and answers.  A rendering brings
    dependencies [D] and a function [C]; its effects run with it, the one that keeps
    the function first.  An effect that fetches has a number, and [mounted] is the
    number whose cleanup has not run.  A result is [None] where it is [null]; each
    [setState] of a retry or a reset is rendered before the next. *)

From stdpp Require Import base list.
From S2P Require Import Prelude.

Section Hook.
Context {D C A E : Type} `{!EqDecision D} (initialData : option A).

Record state := mkState { data : option A; loading : bool; error : option E }.

(** [running] are the fetches without an answer: number, dependencies, function *)
Record hook := mkHook {
  shown : state; deps : D; skip : bool; retryCount : nat; asyncFunction : C;
  next_effect : nat; mounted : option nat; running : list (nat * D * C) }.

(** the effect, after the cleanup of the last one *)
Definition effect (h : hook) : hook :=
  if skip h
  then mkHook (mkState (match data (shown h) with Some a => Some a | None => initialData end) false None)
         (deps h) true (retryCount h) (asyncFunction h) (next_effect h) None (running h)
  else mkHook (mkState (data (shown h)) (match data (shown h) with Some _ => false | None => true end) None)
         (deps h) false (retryCount h) (asyncFunction h) (S (next_effect h)) (Some (next_effect h))
         (running h ++ [(next_effect h, deps h, asyncFunction h)]).

Definition useAsyncData (d : D) (f : C) (sk : bool) : hook :=
  effect (mkHook (mkState initialData (negb sk) None) d sk 0 f 0 None []).

Definition render (d : D) (f : C) (sk : bool) (h : hook) : hook :=
  let h' := mkHook (shown h) d sk (retryCount h) f (next_effect h) (mounted h) (running h) in
  if bool_decide (d = deps h) && bool_decide (sk = skip h) then h' else effect h'.

Definition retry (h : hook) : hook :=
  effect (mkHook (shown h) (deps h) (skip h) (S (retryCount h)) (asyncFunction h) (next_effect h) (mounted h) (running h)).

Definition reset (h : hook) : hook :=
  let h' := mkHook (mkState initialData false None) (deps h) (skip h) 0 (asyncFunction h) (next_effect h) (mounted h) (running h) in
  if (retryCount h =? 0)%nat then h' else effect h'.

Definition unmount (h : hook) : hook :=
  mkHook (shown h) (deps h) (skip h) (retryCount h) (asyncFunction h) (next_effect h) None (running h).

(** the answer of the fetch [i] *)
Definition answered (i : nat) (r : E + option A) (rest : list (nat * D * C)) (h : hook) : hook :=
  mkHook
    (if bool_decide (mounted h = Some i)
     then match r with inr a => mkState a false None | inl e => mkState (data (shown h)) false (Some e) end
     else shown h)
    (deps h) (skip h) (retryCount h) (asyncFunction h) (next_effect h) (mounted h) rest.

(** [Ans d f r]: what a fetch for the dependencies [d] with the function [f] may answer *)
Inductive step (Ans : D → C → E + option A → Prop) : hook → hook → Prop :=
| step_render d f sk h : step Ans h (render d f sk h)
| step_retry h : step Ans h (retry h)
| step_reset h : step Ans h (reset h)
| step_unmount h : step Ans h (unmount h)
| step_answered h l1 i d f l2 r :
    running h = l1 ++ (i, d, f) :: l2 → Ans d f r → step Ans h (answered i r (l1 ++ l2) h).

(** * Properties *)

(** the number of each fetch is its own, and the mounted one is of the dependencies
    that are rendered; who waits for data has a fetch under way *)
Record hook_ok (h : hook) : Prop := {
  ok_numbers : NoDup (map (λ p, p.1.1) (running h));
  ok_fresh : Forall (λ p, p.1.1 < next_effect h)%nat (running h);
  ok_next : ∀ i, mounted h = Some i → (i < next_effect h)%nat;
  ok_current : ∀ i d f, mounted h = Some i → (i, d, f) ∈ running h → d = deps h;
  ok_loading : loading (shown h) = true → mounted h ≠ None → ∃ i f, mounted h = Some i ∧ (i, deps h, f) ∈ running h }.

(** what the effect needs to know of the hook *)
Record before_effect (h : hook) : Prop := {
  be_numbers : NoDup (map (λ p, p.1.1) (running h));
  be_fresh : Forall (λ p, p.1.1 < next_effect h)%nat (running h) }.

Lemma effect_ok h : before_effect h → hook_ok (effect h).
Proof.
  intros [Hn Hf]. unfold effect. destruct (skip h); [by split|]. split; cbn [running next_effect mounted deps shown loading].
  - rewrite map_app. apply NoDup_app. split; [done|]. split; [|apply NoDup_singleton].
    intros x (p & -> & Hp)%list_elem_of_fmap Hx%list_elem_of_singleton. rewrite list.Forall_forall in Hf. apply Hf in Hp. simpl in Hx. lia.
  - apply Forall_app. split; [eapply list.Forall_impl; [exact Hf|]; intros p Hp; simpl in *; lia|]. apply Forall_singleton. simpl. lia.
  - intros i [= <-]. lia.
  - intros i d f [= <-] [Hin|Hin%list_elem_of_singleton]%elem_of_app; [|congruence].
    rewrite list.Forall_forall in Hf. apply Hf in Hin. simpl in Hin. lia.
  - intros _ _. eexists _, _. split; [done|]. apply elem_of_app. right. by apply list_elem_of_singleton.
Qed.

Lemma hook_ok_before h : hook_ok h → before_effect h.
Proof. by intros []. Qed.

Lemma answered_ok h l1 i d f l2 r :
  running h = l1 ++ (i, d, f) :: l2 → hook_ok h → hook_ok (answered i r (l1 ++ l2) h).
Proof.
  intros E' [Hn Hf Hx Hc Hl].
  assert (∀ p, p ∈ l1 ++ l2 → p ∈ running h) as Hsub.
  { intros p Hp. rewrite E'. apply elem_of_app in Hp as [?|?]; apply elem_of_app; [by left|right; by apply elem_of_cons; right]. }
  unfold answered. split; cbn [running next_effect mounted deps shown].
  - rewrite E', map_app in Hn. simpl in Hn. apply NoDup_app in Hn as (H1 & H2 & H3). apply NoDup_cons in H3 as [_ H3].
    rewrite map_app. apply NoDup_app. split; [done|]. split; [|done]. intros x Hx1 Hx2. apply (H2 x Hx1). by apply elem_of_cons; right.
  - rewrite list.Forall_forall in *. intros p Hp. by apply Hf, Hsub.
  - done.
  - intros j d' f' Hm Hp. eapply Hc; [exact Hm|]. by apply Hsub.
  - case_bool_decide as Em; [by destruct r|]. intros Hload Hm. destruct (Hl Hload Hm) as (j & f' & Hj & Hp).
    exists j, f'. split; [done|]. rewrite E' in Hp. apply elem_of_app in Hp as [Hp|[Hp|Hp]%elem_of_cons]; [|congruence|]; apply elem_of_app; auto.
Qed.

Lemma hook_reachable Ans d0 f0 sk h : rtc (step Ans) (useAsyncData d0 f0 sk) h → hook_ok h.
Proof.
  apply (rtc_ind_r hook_ok).
  - apply effect_ok. split; constructor.
  - intros x y _ Hs H. destruct Hs as [d f sk' h'|h'|h'|h'|h' l1 i d f l2 r E' _].
    + unfold render. case_bool_decide as Ed; case_bool_decide as Es; simpl; try (apply effect_ok; by apply hook_ok_before in H as []).
      subst. destruct H as [Hn Hf Hx Hc Hl]. by split.
    + apply effect_ok. by apply hook_ok_before in H as [].
    + unfold reset. destruct (_ =? _)%nat; [|apply effect_ok; by apply hook_ok_before in H as []].
      destruct H as [Hn Hf Hx Hc Hl]. by split.
    + destruct H as [Hn Hf Hx Hc Hl]. by split.
    + by eapply answered_ok.
Qed.
End Hook.

(** C15: in every order of renderings, retries, resets and answers: an answer changes
    what is shown only if its fetch is the one of the last effect, and then it was
    asked for the dependencies that are rendered and ends the loading, with its
    result or with the data that were there.  Whoever is shown as loading waits for
    such a fetch. *)
Theorem only_the_last_fetch_counts {D C A E} `{!EqDecision D} (initialData : option A) (Ans : D → C → E + option A → Prop) d0 f0 sk h :
  rtc (step initialData Ans) (useAsyncData initialData d0 f0 sk) h →
  (∀ l1 i d f l2 r, running h = l1 ++ (i, d, f) :: l2 →
    let s := shown (answered i r (l1 ++ l2) h) in
    if decide (mounted h = Some i)
    then d = deps h ∧ loading s = false ∧ data s = match r with inr a => a | inl _ => data (shown h) end
    else s = shown h) ∧
  (loading (shown h) = true → mounted h ≠ None → ∃ i f, mounted h = Some i ∧ (i, deps h, f) ∈ running h).
Proof.
  intros [_ _ _ Hc Hl]%hook_reachable. split; [|exact Hl].
  intros l1 i d f l2 r E'. cbv zeta. unfold answered. cbn [shown]. destruct (decide _) as [Hm|Hm].
  - rewrite bool_decide_eq_true_2 by done. split; [|by destruct r]. eapply Hc; [exact Hm|]. rewrite E'. apply elem_of_app. right. apply elem_of_cons. by left.
  - by rewrite bool_decide_eq_false_2.
Qed.

(** two selections, the answer of the first coming last *)
Definition demo_hook : @hook nat unit nat unit :=
  render None 2%nat tt false (useAsyncData None 1%nat tt false).
Lemma only_the_last_fetch_counts_witness :
  shown (answered 0 (inr (Some 7%nat)) [(1%nat, 2%nat, tt)] demo_hook) = shown demo_hook ∧ loading (shown demo_hook) = true.
Proof.
  split; [|reflexivity].
  destruct (only_the_last_fetch_counts None (λ _ _ _, True) 1%nat tt false demo_hook) as [H _]; [apply rtc_once, step_render|].
  exact (H [] 0%nat 1%nat tt [(1%nat, 2%nat, tt)] (inr (Some 7%nat)) eq_refl).
Defined.

(** The data of a selection stay on the screen, and without a sign of loading, when
    another one is rendered and until its answer is there; a failure leaves them. *)
Fact old_data_are_shown {D C A E} `{!EqDecision D} (initialData : option A) d f (h : @hook D C A E) a e rest :
  data (shown h) = Some a → d ≠ deps h →
  let h' := render initialData d f false h in
  shown h' = mkState (Some a) false None ∧
  ∃ i, mounted h' = Some i ∧ shown (answered i (inl e) rest h') = mkState (Some a) false (Some e).
Proof.
  intros Ha Hd. cbv zeta. unfold render. rewrite (bool_decide_eq_false_2 _ Hd). cbn [andb]. unfold effect. cbn [skip shown mounted].
  rewrite Ha. split; [done|]. eexists. split; [done|]. unfold answered. cbn [shown mounted data]. by rewrite bool_decide_eq_true_2.
Qed.

(** A reset is taken back by the fetch it starts when there was a retry before. *)
Fact reset_after_retry_fetches {D C A E} `{!EqDecision D} (initialData : option A) (h : @hook D C A E) :
  skip h = false →
  length (running (reset initialData h)) = (length (running h) + if (retryCount h =? 0)%nat then 0 else 1)%nat.
Proof.
  intros Hs. unfold reset. destruct (_ =? _)%nat; [simpl; lia|]. unfold effect. cbn [skip]. rewrite Hs. cbn [running].
  rewrite length_app. done.
Qed.
