(* ===== verification/WalletHome.v ===== *)
(** * The wallet of the home screen: src/src/screens/SIDScreen.tsx

    The cards of balances, the buttons under them, and the activity of the identity,
    whose data come by the hook of AsyncData.v.  The order of the locale is a
    parameter [localeCompare] (ICU is not part of the language); the sign of infinity
    is written out.  A number of decimals and a time stamp are integral. *)

From stdpp Require Import strings list.
From S2P Require Import Prelude JsString JsMap Json Codec Async Outside.
From S2P Require Doubles TokenUnits Quic Balances AsyncData.
#[local] Open Scope Z_scope.

Abbreviation TokenDisplay := Balances.TokenDisplay.
Abbreviation WalletDisplay := Balances.WalletDisplay.

(** ** Formats *)

(** [x.toLocaleString('en-US', { maximumFractionDigits: 2 })]: rounded half away from
    zero, with separators, without zeros at the end *)
Definition fraction2 (n : Z) : jstr :=
  if n =? 0 then [] else if n mod 10 =? 0 then js "." ++ dec_str (n / 10)
  else js "." ++ padStart 2 "0"%char (dec_str n).
Definition toLocaleString2 (x : Doubles.double) : jstr :=
  match x with
  | Doubles.NaN => js "NaN"
  | Doubles.Inf neg => if neg then js "-Infinity" else js "Infinity"
  | Doubles.Fin u =>
      let n := (2 * 100 * Z.abs u + 2 ^ 1074) / (2 * 2 ^ 1074) in
      (if u <? 0 then js "-" else []) ++ TokenUnits.with_separators (dec_str (n / 100)) ++ fraction2 (n mod 100)
  end.
Definition formatBalance : Doubles.double → jstr := toLocaleString2.

(** head 8, tail 6 *)
Definition shortMiddle (value : option jstr) : jstr :=
  match value with
  | Some s => if negb (truthy s) then js "-" else if (length s <=? 15)%nat then s
              else slice 0 8 s ++ js "..." ++ slice_from (-6) s
  | None => js "-"
  end.

Definition formatTxValue (value : option json) (decimals : Z) : jstr :=
  match value with
  | None | Some JNull => js "0"
  | Some v =>
      let s := Balances.atoms_text v in
      if all_digits s then TokenUnits.atomsToDisplayLocale s decimals 8 else js "0"
  end.

(** [tokenDecimalsById] of the tokens, and the decimals of a row *)
Definition tokenDecimalsById (tokens : list TokenDisplay) : jsmap jstr Z :=
  fold_left (λ m t,
    if negb (truthy (Balances.d_id t)) then m
    else match Balances.decimals t with Some d => mset (toLowerCase (Balances.d_id t)) d m | None => m end) tokens [].
Definition resolveTxDecimals (tx : json) (byId : jsmap jstr Z) : Z :=
  match jget (js "decimals") tx with
  | Some (JNum d) => d
  | _ =>
      let known := id ← str_field (js "token_id") tx; if truthy id then mget (toLowerCase id) byId else None in
      match known with Some d => d | None => TokenUnits.SOV_DECIMALS end
  end.
Definition amount_text (tx : json) (byId : jsmap jstr Z) : jstr :=
  match jget (js "amount_human") tx with
  | None | Some JNull =>
      formatTxValue (Some match jget (js "amount") tx with None | Some JNull => JNum 0 | Some v => v end) (resolveTxDecimals tx byId)
  | Some v => js_String v
  end.
Definition tx_fee_text (tx : json) : jstr :=
  formatTxValue (Some match jget (js "fee") tx with None | Some JNull => JNum 0 | Some v => v end) TokenUnits.SOV_DECIMALS.

(** ** The cards *)

Definition upper_symbol (t : TokenDisplay) : jstr := toUpperCase (Balances.d_symbol t).
Definition rank (symbol : jstr) : Z :=
  let s := toUpperCase symbol in
  if bool_decide (s = js "SOV") then 0
  else if bool_decide (s = js "CBE") then 1
  else if bool_decide (s = js "SAVINGS") then 3
  else if bool_decide (s = js "UBI") then 4
  else 2.

Definition is_extra (w : WalletDisplay) : bool :=
  let t := toLowerCase (Balances.wallet_type w) in bool_decide (t = js "savings" ∨ t = js "ubi").
Definition walletCard (w : WalletDisplay) : TokenDisplay :=
  Balances.mkToken (js "wallet:" ++ Balances.id w) (toUpperCase (Balances.wallet_type w))
    (if truthy (Balances.name w) then Balances.name w else Balances.wallet_type w ++ js " Wallet")
    None (Some (toLocaleString2 (Balances.total_balance w))) (js "0") None.
Definition walletCards (wallets : list WalletDisplay) : list TokenDisplay := map walletCard (List.filter is_extra wallets).

(** [filter] with the set of the symbols that were seen *)
Fixpoint first_of_symbol (seen : list jstr) (l : list TokenDisplay) : list TokenDisplay :=
  match l with
  | [] => []
  | t :: l =>
      if bool_decide (upper_symbol t ∈ seen) then first_of_symbol seen l
      else t :: first_of_symbol (upper_symbol t :: seen) l
  end.

Section Cards.
Context (localeCompare : jstr → jstr → Z).

Definition card_cmp (a b : TokenDisplay) : Z :=
  if rank (Balances.d_symbol a) =? rank (Balances.d_symbol b) then localeCompare (Balances.d_symbol a) (Balances.d_symbol b)
  else rank (Balances.d_symbol a) - rank (Balances.d_symbol b).
Definition balanceCards (tokens : list TokenDisplay) (wallets : list WalletDisplay) : list TokenDisplay :=
  js_sort card_cmp (first_of_symbol [] (tokens ++ walletCards wallets)).
End Cards.

(** [activeIndex]: never negative *)
Definition activeCardToken (cards : list TokenDisplay) (activeIndex : nat) : option TokenDisplay :=
  match cards !! activeIndex with Some c => Some c | None => head cards end.
(** the page the carousel stops at *)
Definition handleMomentumEnd (next : Z) (cards : list TokenDisplay) (activeIndex : nat) : nat :=
  if (0 <=? next) && (next <? Z.of_nat (length cards)) then Z.to_nat next else activeIndex.

Definition customOwnedTokens (tokens : list TokenDisplay) : list TokenDisplay :=
  let core s := bool_decide (s ∈ [js "SOV"; js "UBI"; js "SAVINGS"]) in
  List.filter (λ t, negb (core (upper_symbol t)) && negb (core (toUpperCase (Balances.d_name t)))) tokens.

(** *** What a card shows *)

(** [name.replace(/\bequity\b/gi, '')]; [skip] characters belong to a match *)
Fixpoint without_equity (skip : nat) (prev_word : bool) (s : jstr) : jstr :=
  match s with
  | [] => []
  | c :: s' =>
      match skip with
      | S k => without_equity k (is_word c) s'
      | O =>
          if negb prev_word && startsWith (js "equity") (toLowerCase s) &&
             negb (match s !! 6%nat with Some d => is_word d | None => false end)
          then without_equity 5 (is_word c) s'
          else c :: without_equity 0 (is_word c) s'
      end
  end.
(** [.replace(/\s+/g, ' ')] *)
Fixpoint one_space (in_gap : bool) (s : jstr) : jstr :=
  match s with
  | [] => []
  | c :: s' => if is_space c then if in_gap then one_space true s' else " "%char :: one_space true s' else c :: one_space false s'
  end.
Definition isSov (c : TokenDisplay) : bool := bool_decide (upper_symbol c = js "SOV").
Definition isCbe (c : TokenDisplay) : bool := bool_decide (upper_symbol c = js "CBE").
Definition cardName (c : TokenDisplay) : jstr :=
  if isCbe c && truthy (Balances.d_name c) then trim (one_space false (without_equity 0 false (Balances.d_name c))) else Balances.d_name c.
Definition displayBalance (c : TokenDisplay) (totalSovBalance : Doubles.double) : jstr :=
  if isSov c then toLocaleString2 totalSovBalance else default (js "-") (Balances.balance c).

(** *** The buttons *)

Definition activeSymbol (c : option TokenDisplay) : jstr := match c with Some c => upper_symbol c | None => [] end.
Definition isWalletCard (c : option TokenDisplay) : bool :=
  bool_decide (activeSymbol c = js "SAVINGS") || bool_decide (activeSymbol c = js "UBI").
Definition sendDisabled (isLoading nodeConnected : bool) (c : option TokenDisplay) : bool :=
  isLoading || negb nodeConnected || isWalletCard c || bool_decide (activeSymbol c = js "CBE").
Definition receiveDisabled (isLoading : bool) (c : option TokenDisplay) : bool := isLoading || isWalletCard c.
(** [preselectedTokenId] of the screen that opens *)
Definition pressSend (isLoading nodeConnected : bool) (c : option TokenDisplay) : option (option jstr) :=
  if sendDisabled isLoading nodeConnected c then None else Some (Balances.d_id <$> c).

Definition selectedWallet (l : Balances.WalletListData) : option WalletDisplay :=
  match mget (js "primary") (Balances.walletByType l) with Some w => Some w | None => head (Balances.wallets l) end.
Definition primaryWalletId (l : Balances.WalletListData) : option jstr :=
  match selectedWallet l with Some w => if truthy (Balances.id w) then Some (Balances.id w) else None | None => None end.

(** ** The activity *)

Definition identityHex (did : option jstr) : jstr :=
  match did with
  | Some d => if truthy d then if startsWith (js "did:zhtp:") d then drop 9 d else d else []
  | None => []
  end.

(** [answer] is [None] when the identity was not found *)
Record activity := mkActivity { answer : option json; transactions : list json }.
Definition not_found : activity := mkActivity None [].

Definition timestamp (tx : json) : Z := match jget (js "timestamp") tx with Some (JNum n) => n | _ => 0 end.
Definition newest_first (l : list json) : list json := js_sort (λ a b, timestamp b - timestamp a) l.

(** [String(error.body || '')] *)
Definition body_string (b : json + jstr) : jstr :=
  match b with inl v => if jtruthy v then js_String v else [] | inr s => s end.
Definition is_missing (e : error) : bool :=
  match e with
  | Js (Quic.QuicError 400 _ _ b) => includes (js "Identity ID must be 32 bytes") (body_string b)
  | Js (Quic.QuicError 404 _ _ _) => true
  | _ => false
  end.

Section Activity.
Context {S : Type}.
#[local] Abbreviation prog := (Outside.prog S).

(** [[...(data.transactions || [])]], sorted; a row that is [null] cannot be compared *)
Definition sorted_rows (v : option json) : prog (list json) :=
  match v with
  | Some (JArr l) =>
      if existsb (λ r, match r with JNull => true | _ => false end) l && (2 <=? length l)%nat then throw TypeError
      else ret (newest_first l)
  | Some (JStr s) => ret (map (λ c, JStr [c]) s)
  | v => if otruthy v then throw TypeError else ret []
  end.
Definition fetchActivity (hex : jstr) : prog activity :=
  if negb (length hex =? 64)%nat then ret not_found
  else
    try_catch
      (data ← Balances.getWalletTransactions hex;
       rows ← sorted_rows (jget (js "transactions") data);
       ret (mkActivity (Some data) rows))
      (λ e, if is_missing e then ret not_found else throw e).

(** [Clipboard.setString] of the wallet, and the message *)
Definition copyToClipboard (id : option jstr) : prog unit :=
  match id with
  | Some s =>
      if truthy s then
        call (native (js "Clipboard") (js "setString") [JStr s]);;
        call (alert (js "sidScreen.copy.title") (js "sidScreen.copy.walletId") []);;
        ret tt
      else ret tt
  | None => ret tt
  end.
End Activity.

(** what the hook may be answered: what the fetch for the identity returns *)
Definition activity_answer (hex : jstr) (_ : unit) (r : error + option activity) : Prop :=
  ∃ tr r', trace obs (fetchActivity (S := unit) hex) tr r' ∧ r = match r' with inl e => inl e | inr a => inr (Some a) end.
Abbreviation activity_hook := (@AsyncData.hook jstr unit activity error).
Abbreviation activity_step := (AsyncData.step (Some not_found) activity_answer).
Definition activity_opened (hex : jstr) : activity_hook := AsyncData.useAsyncData (Some not_found) hex tt false.

(** * Properties *)

(** ** One card for each symbol *)

Definition of_symbol (s : jstr) (t : TokenDisplay) : bool := bool_decide (upper_symbol t = s).

Lemma first_seen seen l c : c ∈ first_of_symbol seen l → upper_symbol c ∉ seen ∧ c ∈ l.
Proof.
  revert seen. induction l as [|t l IH]; intros seen; cbn [first_of_symbol]; [by intros ?%not_elem_of_nil|].
  case_bool_decide as Ht; intros H.
  - apply IH in H as [? ?]. split; [done|]. by apply elem_of_cons; right.
  - apply elem_of_cons in H as [->|H]; [split; [done|by apply elem_of_cons; left]|].
    apply IH in H as [Hn ?]. split; [|by apply elem_of_cons; right]. intros Hs. apply Hn. by apply elem_of_cons; right.
Qed.

Lemma first_nodup seen l : NoDup (map upper_symbol (first_of_symbol seen l)).
Proof.
  revert seen. induction l as [|t l IH]; intros seen; cbn [first_of_symbol]; [constructor|].
  case_bool_decide; [apply IH|]. cbn [map]. apply NoDup_cons. split; [|apply IH].
  intros (c & E & [Hn _]%first_seen)%list_elem_of_fmap. apply Hn. rewrite <-E. by apply elem_of_cons; left.
Qed.

(** the card of a symbol is the first one that has it *)
Lemma first_find seen l s : s ∉ seen → List.find (of_symbol s) (first_of_symbol seen l) = List.find (of_symbol s) l.
Proof.
  revert seen. induction l as [|t l IH]; intros seen Hs; cbn [first_of_symbol List.find]; [done|].
  unfold of_symbol at 2. case_bool_decide as Ht.
  - rewrite IH by done. case_bool_decide; [congruence|done].
  - cbn [List.find]. unfold of_symbol at 1. case_bool_decide as E; [done|]. apply IH. intros [E'|?]%elem_of_cons; congruence.
Qed.

Lemma find_of_symbol l s c : NoDup (map upper_symbol l) → (List.find (of_symbol s) l = Some c ↔ c ∈ l ∧ upper_symbol c = s).
Proof.
  intros Hn. split.
  - intros [Hin Hc]%find_some. apply bool_decide_eq_true in Hc. split; [by apply list_elem_of_In|done].
  - intros [Hin Hc]. induction l as [|t l IH]; [by apply not_elem_of_nil in Hin|]. apply NoDup_cons in Hn as [Ht Hn].
    cbn [List.find]. unfold of_symbol at 1. apply elem_of_cons in Hin as [<-|Hin]; [by rewrite bool_decide_eq_true_2|].
    rewrite bool_decide_eq_false_2; [by apply IH|]. intros E. apply Ht. apply list_elem_of_fmap. exists c. split; [congruence|done].
Qed.

(** ** The cards of wallets *)

Lemma upper_of_lower s :
  Forall (λ c, is_lower c = true) (toLowerCase s) → toUpperCase (toUpperCase s) = toUpperCase (toLowerCase s).
Proof.
  assert (∀ c, is_lower (lower_char c) = true → toUpperCase (upper_char c) = upper_char (lower_char c)) as Hc.
  { intros c. set (p := λ n, negb (is_lower (lower_char (chr n))) || bool_decide (toUpperCase (upper_char (chr n)) = upper_char (lower_char (chr n)))).
    assert (p (code c) = true) as H by (apply (range_check p 256); [by vm_compute|apply code_range]).
    unfold p in H. rewrite chr_code in H. intros Hl. rewrite Hl in H. by apply bool_decide_eq_true in H. }
  induction s as [|c s IH]; [done|]. intros [H1 H2]%list.Forall_cons. unfold toUpperCase in *. cbn [toLowerCase map flat_map].
  rewrite flat_map_app. rewrite (Hc c H1). f_equal. by apply IH.
Qed.

Lemma extra_symbol w : is_extra w = true → upper_symbol (walletCard w) = js "SAVINGS" ∨ upper_symbol (walletCard w) = js "UBI".
Proof.
  unfold is_extra, upper_symbol. cbn [Balances.d_symbol walletCard]. intros H%bool_decide_eq_true.
  assert (Forall (λ c, is_lower c = true) (toLowerCase (Balances.wallet_type w))) as Hl
    by (destruct H as [->| ->]; by repeat constructor).
  rewrite (upper_of_lower _ Hl). destruct H as [->| ->]; [left|right]; by vm_compute.
Qed.

(** where Send is open, with no card or with one that is neither CBE nor a wallet *)
Definition sendable (tokens : list TokenDisplay) (wallets : list WalletDisplay) (card : option TokenDisplay) (o : option jstr) : Prop :=
  match card with
  | Some t => t ∈ tokens ∧ upper_symbol t ∉ [js "CBE"; js "SAVINGS"; js "UBI"] ∧ o = Some (Balances.d_id t)
  | None => tokens = [] ∧ walletCards wallets = [] ∧ o = None
  end.

Lemma send_open tokens wallets card isLoading connected o :
  match card with Some c => c ∈ tokens ++ walletCards wallets | None => tokens = [] ∧ walletCards wallets = [] end →
  pressSend isLoading connected card = Some o ↔ isLoading = false ∧ connected = true ∧ sendable tokens wallets card o.
Proof.
  intros Hin. unfold pressSend, sendDisabled, isWalletCard. destruct isLoading; [by split; [|intros (? & _)]|].
  destruct connected; [|by split; [|intros (_ & ? & _)]]. cbn [orb negb]. destruct card as [c|]; cbn [activeSymbol sendable].
  - rewrite !elem_of_cons, elem_of_nil. case_bool_decide as Hs; cbn [orb]; [split; [done|intros (_ & _ & _ & Hn & _); exfalso; auto]|].
    case_bool_decide as Hu; cbn [orb]; [split; [done|intros (_ & _ & _ & Hn & _); exfalso; auto]|].
    case_bool_decide as Hc; cbn [orb]; [split; [done|intros (_ & _ & _ & Hn & _); exfalso; auto]|].
    split; [intros [= <-]|by intros (_ & _ & _ & _ & ->)]. do 2 (split; [done|]). split; [|by split; [tauto|]].
    apply elem_of_app in Hin as [?|Hw]; [done|]. apply list_elem_of_fmap in Hw as (w & -> & Hw).
    apply list_elem_of_In, filter_In in Hw as [_ Hw]. by destruct (extra_symbol w Hw).
  - rewrite !bool_decide_eq_false_2 by done. cbn [orb]. destruct Hin as [H1 H2]. split; [by intros [= <-]|by intros (_ & _ & _ & _ & ->)].
Qed.

Lemma active_in cards i c : activeCardToken cards i = Some c → c ∈ cards.
Proof.
  unfold activeCardToken. destruct (cards !! i) as [d|] eqn:E; [intros [= ->]; by eapply list_elem_of_lookup_2|].
  destruct cards; [done|]. intros [= ->]. by apply elem_of_cons; left.
Qed.

(** the order of the cards *)
Definition before (localeCompare : jstr → jstr → Z) (a b : TokenDisplay) : Prop :=
  rank (Balances.d_symbol a) < rank (Balances.d_symbol b) ∨
  rank (Balances.d_symbol a) = rank (Balances.d_symbol b) ∧ localeCompare (Balances.d_symbol a) (Balances.d_symbol b) ≤ 0.

(** C16: the balances have one card for each symbol, whatever its case, and it is the
    first token or wallet with this symbol; the cards are in the order of their ranks
    (SOV, CBE, the remaining tokens, the savings wallet, the UBI wallet) and, within a
    rank, of the locale.  Wherever the carousel stands, Send is open exactly when the
    node is connected, nothing is loading, and the card is that of a token of the list
    that is not CBE, with the id of this token, never the card of a wallet; or when
    there is no card at all, and then it opens without a token. *)
Theorem one_card_per_symbol localeCompare tokens wallets :
  (∀ x y, 0 < localeCompare x y → localeCompare y x ≤ 0) →
  (∀ x y z, localeCompare x y ≤ 0 → localeCompare y z ≤ 0 → localeCompare x z ≤ 0) →
  let cards := balanceCards localeCompare tokens wallets in
  NoDup (map upper_symbol cards) ∧
  (∀ s c, c ∈ cards ∧ upper_symbol c = s ↔ List.find (of_symbol s) (tokens ++ walletCards wallets) = Some c) ∧
  Sorted.StronglySorted (before localeCompare) cards ∧
  ∀ i isLoading connected o, pressSend isLoading connected (activeCardToken cards i) = Some o ↔
    isLoading = false ∧ connected = true ∧ sendable tokens wallets (activeCardToken cards i) o.
Proof.
  intros Hanti Htrans cards. assert (cards ≡ₚ first_of_symbol [] (tokens ++ walletCards wallets)) as Hp by apply js_sort_perm.
  assert (NoDup (map upper_symbol cards)) as Hn.
  { assert (map upper_symbol cards ≡ₚ map upper_symbol (first_of_symbol [] (tokens ++ walletCards wallets))) as -> by (by apply Permutation_map).
    apply first_nodup. }
  split; [exact Hn|]. split; [|split].
  - intros s c. rewrite <-(first_find []) by apply not_elem_of_nil. rewrite find_of_symbol by apply first_nodup. by rewrite Hp.
  - apply js_sort_sorted_by.
    + intros x y z Hxy Hyz. unfold before in *. destruct Hxy as [?|[? ?]], Hyz as [?|[? ?]]; try lia. right. split; [congruence|by eapply Htrans].
    + intros x y H. unfold card_cmp, before in *. destruct (_ =? _) eqn:E; breflect; [right; split; [done|by apply Hanti]|left; lia].
    + intros x y H. unfold card_cmp, before in *. destruct (_ =? _) eqn:E; breflect; [by right|left; lia].
  - intros i isLoading connected o. apply send_open. destruct (activeCardToken cards i) as [t|] eqn:Ea.
    + apply active_in in Ea. rewrite Hp in Ea. by apply first_seen in Ea as [_ Hin].
    + assert (cards = []) as Hc by (unfold activeCardToken in Ea; destruct (cards !! i); [done|]; by destruct cards).
      rewrite Hc in Hp. apply Permutation_nil in Hp. destruct (tokens ++ walletCards wallets) eqn:E; [by apply app_eq_nil in E|].
      unfold first_of_symbol in Hp. rewrite bool_decide_eq_false_2 in Hp by apply not_elem_of_nil. done.
Qed.

(** a savings wallet, and tokens of which two have the same symbol *)
Definition token (id symbol : string) : TokenDisplay :=
  Balances.buildDisplay (js id) (js symbol) (js symbol) (Some 18) (js "2000000000000000000").
Definition demo_tokens : list TokenDisplay := [token "z1" "Zed"; token "c1" "CBE"; token "a1" "Ann"; token "s1" "SOV"; token "s2" "sov"].
Definition demo_wallets : list WalletDisplay :=
  [Balances.mkWallet (js "w1") [] (js "Savings") Doubles.zero Doubles.zero Doubles.zero (Doubles.of_Z 1234) None None None].
Definition by_length (x y : jstr) : Z := Z.of_nat (length x) - Z.of_nat (length y).

Lemma one_card_per_symbol_witness :
  map Balances.d_id (balanceCards by_length demo_tokens demo_wallets) = map js ["s1"; "c1"; "z1"; "a1"; "wallet:w1"]%string ∧
  NoDup (map upper_symbol (balanceCards by_length demo_tokens demo_wallets)).
Proof.
  split; [vm_compute; reflexivity|].
  assert (∀ x y, 0 < by_length x y → by_length y x ≤ 0) as H1 by (unfold by_length; intros; lia).
  assert (∀ x y z, by_length x y ≤ 0 → by_length y z ≤ 0 → by_length x z ≤ 0) as H2 by (unfold by_length; intros; lia).
  destruct (one_card_per_symbol by_length demo_tokens demo_wallets H1 H2) as [H _]. exact H.
Defined.

Example savings_text : Balances.balance (walletCard (Balances.mkWallet [] [] (js "ubi") Doubles.zero Doubles.zero Doubles.zero
  (Doubles.of_ratio 12345675 10000) None None None)) = Some (js "1,234.57").
Proof. vm_compute. reflexivity. Qed.
Example cbe_name : cardName (Balances.mkToken [] (js "cbe") (js "Cooperative Banking Equity") None None [] None) = js "Cooperative Banking".
Proof. vm_compute. reflexivity. Qed.

(** With no token yet and neither a savings nor a UBI wallet there is no card, and
    Send opens without a token. *)
Fact send_without_a_token localeCompare i :
  activeCardToken (balanceCards localeCompare [] []) i = None ∧ pressSend false true None = Some None.
Proof. by destruct i. Qed.

(** ** What the cards do not show *)

(** The comment says that all tokens are shown, even at zero balance: one whose
    symbol another token or wallet has before it is not. *)
Fact same_symbol_is_hidden localeCompare t l wallets u :
  upper_symbol u = upper_symbol t → u ≠ t → u ∉ balanceCards localeCompare (t :: l) wallets.
Proof.
  intros E Hne Hin. assert (u ∈ first_of_symbol [] ((t :: l) ++ walletCards wallets)) as H.
  { rewrite <-(js_sort_perm (card_cmp localeCompare)). exact Hin. }
  pose proof (proj2 (find_of_symbol _ (upper_symbol t) u (first_nodup [] _)) (conj H E)) as Hf.
  rewrite first_find in Hf by apply not_elem_of_nil. cbn [app List.find] in Hf. unfold of_symbol in Hf.
  rewrite bool_decide_eq_true_2 in Hf by done. congruence.
Qed.

(** Whatever token comes first and calls itself SOV shows the sum of the SOV wallets,
    and Send opens with its id. *)
Fact first_sov_shows_the_total t total connected :
  upper_symbol t = js "SOV" →
  displayBalance t total = toLocaleString2 total ∧ pressSend false connected (Some t) = if connected then Some (Some (Balances.d_id t)) else None.
Proof.
  intros E. unfold displayBalance, isSov, pressSend, sendDisabled, isWalletCard, activeSymbol. rewrite E. by destruct connected.
Qed.

(** The comment puts the cards of wallets before the remaining tokens; they come last. *)
Fact tokens_before_wallets symbol :
  rank symbol < rank (js "SAVINGS") ∨ toUpperCase symbol = js "SAVINGS" ∨ toUpperCase symbol = js "UBI".
Proof.
  unfold rank. replace (toUpperCase (js "SAVINGS")) with (js "SAVINGS") by (by vm_compute). cbv zeta. repeat case_bool_decide; auto; left; done.
Qed.

(** ** The activity of the identity *)

(** The rows are those of the answer, the newest first. *)
Fact activity_newest_first l :
  newest_first l ≡ₚ l ∧ Sorted.StronglySorted (λ a b, timestamp b ≤ timestamp a) (newest_first l).
Proof.
  split; [apply js_sort_perm|]. apply js_sort_sorted_by; [by intros x y z ? ?; lia|..]; intros x y H; lia.
Qed.

(** The skeleton of the rows, meant to avoid a flash of the empty list, is never
    shown: the hook starts with an empty list, and has data ever after. *)
Fact skeleton_is_never_shown hex h :
  rtc activity_step (activity_opened hex) h → is_Some (AsyncData.data (AsyncData.shown h)) ∧ AsyncData.loading (AsyncData.shown h) = false.
Proof.
  assert (∀ h : activity_hook, is_Some (AsyncData.data (AsyncData.shown h)) →
    is_Some (AsyncData.data (AsyncData.shown (AsyncData.effect (Some not_found) h))) ∧
    AsyncData.loading (AsyncData.shown (AsyncData.effect (Some not_found) h)) = false) as He.
  { intros g [a Ha]. unfold AsyncData.effect. destruct (AsyncData.skip g); cbn; rewrite Ha; eauto. }
  apply (rtc_ind_r (λ h : activity_hook, is_Some (AsyncData.data (AsyncData.shown h)) ∧ AsyncData.loading (AsyncData.shown h) = false)).
  { apply He. by eexists. }
  intros x y _ Hs [Hd Hl]. destruct Hs as [d f sk g|g|g|g|g l1 i d f l2 r _ (tr & r' & _ & ->)].
  - unfold AsyncData.render. destruct (_ && _); [done|]. by apply He.
  - by apply He.
  - unfold AsyncData.reset. destruct (_ =? _)%nat; [by split; [eexists|]|]. apply He. by eexists.
  - done.
  - unfold AsyncData.answered. cbn [AsyncData.shown]. case_bool_decide; [|done]. destruct r'; [done|]. by split; [eexists|].
Qed.

(** The text of a refusal is looked for in the body of the error, which for an answer
    in JSON is the text of an object. *)
Fact json_refusal_is_not_read status :
  is_missing (Js (Quic.QuicError 400 status None (inl (JObj [(js "error", JStr (js "Identity ID must be 32 bytes"))])))) = false ∧
  is_missing (Js (Quic.QuicError 400 status None (inr (js "Identity ID must be 32 bytes")))) = true.
Proof. by vm_compute. Qed.
