(* ===== verification/Lifecycle.v ===== *)
(** * The session of an identity: the effects of src/src/context/AuthContext.tsx
    that bind the messenger, the QUIC session and the push stream to it

    A machine over the machines of the parts: the messenger of Messaging.v with its
    suspended calls, the push subscription of Inbound.v, the session manager of
    QuicSession.v.  Each keeps its own steps, except that an identity is bound by the
    effects and, to the session manager alone, by a registration: it binds the identity
    it has created before that one is rendered, and none when it fails.  A drain is a call of [drainAndResume]: it waits for [receivePending],
    then for [ingestEnvelopes], a call of the messenger.  The effects of rewards and
    announcements are triggers of Rewards.v and Notices.v. *)

From stdpp Require Import strings list.
From S2P Require Import Prelude JsString JsMap Json Codec MsgStore Async Messaging.
From S2P Require Inbound QuicSession.
#[local] Open Scope Z_scope.

Inductive phase := receiving | ingesting (call : pid).
(** [number] of the effect it was started in *)
Record drain := mkDrain { number : nat; forceCycle : bool; at_ : phase }.

(** an open [registerAccount]: before and after [createIdentity] has answered, and
    after its call of [bindQuicIdentity] *)
Inductive registration := creating | created (d : Did) | has_bound (d : Did).

(** [identity] is [currentIdentity?.did] of the last rendering, [effect] the number of its
    effects, [direct] what a registration has last passed to [bindQuicIdentity] since
    they ran *)
Record app := mkApp {
  identity : option Did; effect : nat; drains : list drain;
  registrations : list registration; direct : option (option Did);
  messenger : world msgr error req; push : Inbound.inbound; manager : QuicSession.manager }.

Definition active (d : option Did) : bool := truthy (default [] d).
(** the cleanup of the effect [n] has run, or it did nothing *)
Definition cancelled (n : nat) (x : app) : bool := negb (active (identity x) && (n =? effect x)%nat).

Definition set_drains l x := mkApp (identity x) (effect x) l (registrations x) (direct x) (messenger x) (push x) (manager x).
Definition set_registrations l x := mkApp (identity x) (effect x) (drains x) l (direct x) (messenger x) (push x) (manager x).
Definition set_messenger w x := mkApp (identity x) (effect x) (drains x) (registrations x) (direct x) w (push x) (manager x).
Definition set_push p x := mkApp (identity x) (effect x) (drains x) (registrations x) (direct x) (messenger x) p (manager x).
Definition set_manager q x := mkApp (identity x) (effect x) (drains x) (registrations x) (direct x) (messenger x) (push x) q.

Definition upd_state (f : msgr → msgr) (w : world msgr error req) : world msgr error req :=
  mkWorld (f (ws w)) (wnext w) (wthreads w).
Definition setMessagingSelfDid (d : option Did) (m : msgr) : msgr := upd_store (λ s, (setSelfDid d s).1) m.

(** what [receivePending] gives: [count] and [messages] *)
Definition ReceiveResponse : Type := Z * list ReceivedEnvelope.

Section Effects.
Context (isNativeQuicSessionAvailable : bool).

(** [drainAndResume], up to its first await *)
Definition drainAndResume (force : bool) (x : app) : app := set_drains (drains x ++ [mkDrain (effect x) force receiving]) x.

(** another identity is rendered: the cleanups, then the effects *)
Definition identity_changes (d : option Did) (x : app) : app :=
  let x := if active (identity x) then set_push (Inbound.stopInboundSubscription (push x)) x else x in
  let x := mkApp d (S (effect x)) (drains x) (registrations x) None (messenger x) (push x) (manager x) in
  let x := set_messenger (upd_state (setMessagingSelfDid d) (messenger x)) x in
  let x := set_manager (QuicSession.bindIdentity d (manager x)) x in
  if active d then drainAndResume false x else x.
(** the listener of the effect, while it is there *)
Definition foreground (x : app) : app := if active (identity x) then drainAndResume true x else x.

(** what follows the [try] *)
Definition finish (k : drain) (x : app) : app :=
  if negb (cancelled (number k) x) && isNativeQuicSessionAvailable && forceCycle k
  then set_push (Inbound.resumeInboundOnForeground isNativeQuicSessionAvailable (push x)) x else x.
(** [receivePending] has answered the drain [k] between [l1] and [l2] *)
Definition received (l1 : list drain) (k : drain) (l2 : list drain) (r : error + ReceiveResponse) (x : app) : app :=
  match r with
  | inr (count, messages) =>
      if 0 <? count
      then set_drains (l1 ++ mkDrain (number k) (forceCycle k) (ingesting (wnext (messenger x), PVoid)) :: l2)
             (set_messenger (launch (handler (EvIngest messages)) (messenger x)) x)
      else finish k (set_drains (l1 ++ l2) x)
  | inl _ => finish k (set_drains (l1 ++ l2) x)
  end.
Definition ingested (l1 : list drain) (k : drain) (l2 : list drain) (x : app) : app := finish k (set_drains (l1 ++ l2) x).

(** [bindQuicIdentity] called by a registration *)
Definition binds_directly (d : option Did) (x : app) : app :=
  mkApp (identity x) (effect x) (drains x) (registrations x) (Some d) (messenger x) (push x)
    (QuicSession.bindIdentity d (manager x)).
(** [registerAccount] between [l1] and [l2]: a wallet is to be made *)
Definition registration_begins (x : app) : app := set_registrations (registrations x ++ [creating]) x.
(** [createIdentity] has answered *)
Definition registration_creates (l1 l2 : list registration) (d : Did) (x : app) : app :=
  set_registrations (l1 ++ created d :: l2) x.
(** [setIdentity] has answered *)
Definition registration_binds (l1 l2 : list registration) (d : Did) (x : app) : app :=
  binds_directly (Some d) (set_registrations (l1 ++ has_bound d :: l2) x).
(** it returns, and the identity is rendered once its seed phrase is confirmed *)
Definition registration_ends (l1 l2 : list registration) (x : app) : app := set_registrations (l1 ++ l2) x.
(** its [catch]: with a wallet made, nothing is bound *)
Definition registration_fails (l1 : list registration) (k : registration) (l2 : list registration) (x : app) : app :=
  let x := set_registrations (l1 ++ l2) x in
  match k with creating => x | created _ | has_bound _ => binds_directly None x end.

(** the identity the messenger, the session manager and the rendering have *)
Definition bound (d : option Did) : option Did := match d with Some d => if truthy d then Some d else None | None => None end.
Definition live (w : world msgr error req) : option Did := liveSelfDid (mstore (ws w)).

Section Step.
Context (stored : MessagingStateBlob → Prop) (Ans : ∀ R : Set, req R → error + R → Prop).
#[local] Abbreviation messenger_step := (Async.step handler (outside stored) Ans).

Inductive step : app → app → Prop :=
| step_identity d x : d ≠ identity x → step x (identity_changes d x)
| step_foreground x : step x (foreground x)
| step_received l1 k l2 r x : drains x = l1 ++ k :: l2 → at_ k = receiving → step x (received l1 k l2 r x)
| step_ingested l1 k l2 p r x :
    drains x = l1 ++ k :: l2 → at_ k = ingesting p → (p, Done r) ∈ wthreads (messenger x) → step x (ingested l1 k l2 x)
| step_registration_begins x : step x (registration_begins x)
| step_registration_creates l1 l2 d x : registrations x = l1 ++ creating :: l2 → step x (registration_creates l1 l2 d x)
| step_registration_binds l1 l2 d x : registrations x = l1 ++ created d :: l2 → step x (registration_binds l1 l2 d x)
| step_registration_ends l1 l2 d x : registrations x = l1 ++ has_bound d :: l2 → step x (registration_ends l1 l2 x)
| step_registration_fails l1 k l2 x : registrations x = l1 ++ k :: l2 → step x (registration_fails l1 k l2 x)
| step_messenger w x : messenger_step (messenger x) w → live w = live (messenger x) → step x (set_messenger w x)
| step_push p x : Inbound.step isNativeQuicSessionAvailable (push x) p → step x (set_push p x)
| step_manager q x :
    QuicSession.step (manager x) q → QuicSession.boundDid q = QuicSession.boundDid (manager x) → step x (set_manager q x).
End Step.

(** the app starts without an identity: the effects of the first rendering do nothing *)
Definition started (t : Z) : app := mkApp None 0 [] [] None (start t) (Inbound.initial t) QuicSession.initial.
End Effects.

(** * Properties *)

Section Laws.
Context (available : bool) (stored : MessagingStateBlob → Prop) (Ans : ∀ R : Set, req R → error + R → Prop).
#[local] Abbreviation app_step := (step available stored Ans).
#[local] Abbreviation messenger_step := (Async.step handler (outside stored) Ans).

(** what the session manager was last bound to *)
Definition last_bound (x : app) : option Did := default (identity x) (direct x).

(** a run of the app is a run of each part, and the parts have its identity *)
Record parts_ok (t : Z) (x : app) : Prop := {
  ok_messenger : rtc messenger_step (start t) (messenger x);
  ok_push : rtc (Inbound.step available) (Inbound.initial t) (push x);
  ok_manager : QuicSession.reachable (manager x);
  ok_live : live (messenger x) = bound (identity x);
  ok_bound : QuicSession.boundDid (manager x) = bound (last_bound x);
  ok_drains : Forall (λ k, number k ≤ effect x)%nat (drains x) }.

Lemma self_step d w : messenger_step w (upd_state (setMessagingSelfDid d) w).
Proof. destruct w as [s n l]. apply step_env, out_self. Qed.

Lemma live_self d w : live (upd_state (setMessagingSelfDid d) w) = bound d.
Proof.
  unfold live, upd_state, setMessagingSelfDid, upd_store, setSelfDid. cbn [ws mstore]. fold (bound d).
  destruct (decide _) as [E|E]; [by rewrite E|].
  simpl. unfold notify, scheduleSave. simpl. by destruct (bound d).
Qed.

Lemma bound_bind d q : QuicSession.boundDid (QuicSession.bindIdentity d q) = bound d.
Proof. unfold QuicSession.bindIdentity. fold (bound d). destruct (decide _) as [E|E]; [by rewrite <-E|].
  unfold QuicSession.close_live. simpl. by destruct (QuicSession.liveSessionId q).
Qed.

Lemma changes_ok t d x : parts_ok t x → parts_ok t (identity_changes d x).
Proof.
  intros [Hm Hp Hq Hl Hb Hd]. unfold identity_changes, drainAndResume.
  set (x1 := if active (identity x) then _ else x).
  assert (rtc (Inbound.step available) (Inbound.initial t) (push x1) ∧ messenger x1 = messenger x ∧ manager x1 = manager x ∧
    drains x1 = drains x ∧ effect x1 = effect x) as (Hp1 & E1 & E2 & E3 & E4).
  { unfold x1. destruct (active _); [|done]. split; [|done]. eapply rtc_r; [exact Hp|]. apply Inbound.do_stop. }
  clearbody x1. cbv zeta. rewrite E1, E2, E3, E4.
  assert (Forall (λ k, number k ≤ S (effect x))%nat (drains x)) as Hd' by (eapply list.Forall_impl; [exact Hd|]; intros k Hk; simpl in *; lia).
  assert (rtc messenger_step (start t) (upd_state (setMessagingSelfDid d) (messenger x))) as Hm' by (eapply rtc_r; [exact Hm|apply self_step]).
  assert (QuicSession.reachable (QuicSession.bindIdentity d (manager x))) as Hq' by (eapply rtc_r; [exact Hq|]; apply QuicSession.do_bind).
  destruct (active d); split; try done; try apply live_self; try apply bound_bind.
  cbn. apply Forall_app. split; [done|]. by constructor.
Qed.

Lemma set_drains_ok t l x : Forall (λ k, number k ≤ effect x)%nat l → parts_ok t x → parts_ok t (set_drains l x).
Proof. intros Hf [Hm Hp Hq Hl Hb Hd]. by split. Qed.

Lemma finish_ok t k x : parts_ok t x → parts_ok t (finish available k x).
Proof.
  intros [Hm Hp Hq Hl Hb Hd]. unfold finish. destruct (_ && _ && _); [|by split]. split; try done.
  eapply rtc_r; [exact Hp|]. apply Inbound.do_foreground.
Qed.

Lemma set_registrations_ok t l x : parts_ok t x → parts_ok t (set_registrations l x).
Proof. intros [Hm Hp Hq Hl Hb Hd]. by split. Qed.

Lemma binds_directly_ok t d x : parts_ok t x → parts_ok t (binds_directly d x).
Proof.
  intros [Hm Hp Hq Hl Hb Hd]. split; try done; [|apply bound_bind].
  eapply rtc_r; [exact Hq|]. apply QuicSession.do_bind.
Qed.

Lemma without_drain {P : drain → Prop} l1 k l2 l : l = l1 ++ k :: l2 → Forall P l → Forall P (l1 ++ l2) ∧ P k.
Proof. intros -> [H1 [Hk H2]%list.Forall_cons]%Forall_app. split; [by apply Forall_app|done]. Qed.

Lemma launched_live l w : live (launch (handler (EvIngest l)) w) = live w.
Proof. by destruct l. Qed.

Lemma received_ok t l1 k l2 r x : drains x = l1 ++ k :: l2 → parts_ok t x → parts_ok t (received available l1 k l2 r x).
Proof.
  intros E H. pose proof H as [Hm Hp Hq Hl Hb Hd]. destruct (without_drain _ _ _ _ E Hd) as [Hd' Hk].
  unfold received. destruct r as [e|[n l]]; [by apply finish_ok, set_drains_ok|]. destruct (0 <? n); [|by apply finish_ok, set_drains_ok].
  apply set_drains_ok.
  - apply Forall_app in Hd' as [H1 H2]. apply Forall_app. split; [exact H1|]. by constructor.
  - split; try done; [etrans; [exact Hm|apply (launch_step handler)]|]. etrans; [exact (launched_live l (messenger x))|exact Hl].
Qed.

Lemma app_reachable t x : rtc app_step (started t) x → parts_ok t x.
Proof.
  apply (rtc_ind_r (parts_ok t)).
  - split; try apply rtc_refl; done.
  - intros y z _ Hs H. destruct Hs as [d x' _|x'|l1 k l2 r x' E _|l1 k l2 p r x' E _ _
      |x'|l1 l2 d x' _|l1 l2 d x' _|l1 l2 d x' _|l1 k l2 x' _|w x' Hw Hl|p x' Hp|q x' Hq Hb].
    + by apply changes_ok.
    + unfold foreground. destruct (active _); [|done]. apply set_drains_ok; [|done]. apply Forall_app. split; [apply H|]. by constructor.
    + by apply received_ok.
    + apply finish_ok, set_drains_ok; [|done]. by apply (without_drain _ _ _ _ E), H.
    + by apply set_registrations_ok.
    + by apply set_registrations_ok.
    + by apply binds_directly_ok, set_registrations_ok.
    + by apply set_registrations_ok.
    + unfold registration_fails. destruct k; [|apply binds_directly_ok..]; by apply set_registrations_ok.
    + destruct H as [Hm Hp Hq Hl' Hb Hd]. split; try done; [by eapply rtc_r|]. etrans; [exact Hl|exact Hl'].
    + destruct H as [Hm Hp' Hq Hl' Hb Hd]. split; try done. by eapply rtc_r.
    + destruct H as [Hm Hp Hq' Hl' Hb' Hd]. split; try done; [by eapply rtc_r|]. etrans; [exact Hb|exact Hb'].
Qed.

End Laws.


(** ** Runs *)

Definition alice : Did := js "did:zhtp:a".
Definition bob : Did := js "did:zhtp:b".
Definition anything (_ : MessagingStateBlob) : Prop := True.
Definition any_answer (R : Set) (_ : req R) (_ : error + R) : Prop := True.
Abbreviation demo_step := (step true anything any_answer).

(** alice, then bob, with the first drain without an answer *)
Definition switched : app := identity_changes (Some bob) (identity_changes (Some alice) (started 0)).
Lemma switched_reachable : rtc demo_step (started 0) switched.
Proof. eapply rtc_l; [by apply (step_identity _ _ _ (Some alice))|]. apply rtc_once. by apply step_identity. Qed.


(** A registration binds its identity to the session manager while none is rendered,
    and a registration that fails under another identity leaves the session manager
    without one: no effect runs for an identity that stays. *)
Definition in_registration (x : app) : app := registration_binds [] [] bob (registration_creates [] [] bob (registration_begins x)).
Definition after_failure (x : app) : app := registration_fails [] (has_bound bob) [] (in_registration x).
Lemma registered_steps x : registrations x = [] → rtc demo_step x (in_registration x) ∧ rtc demo_step x (after_failure x).
Proof.
  intros E. assert (rtc demo_step x (in_registration x)) as H.
  { unfold in_registration. eapply rtc_l; [apply step_registration_begins|]. eapply rtc_l; [apply (step_registration_creates _ _ _ [] [] bob)|].
    - simpl. by rewrite E.
    - apply rtc_once. by apply (step_registration_binds _ _ _ [] [] bob). }
  split; [exact H|]. eapply rtc_r; [exact H|]. unfold after_failure. by apply (step_registration_fails _ _ _ [] (has_bound bob) []).
Qed.

Fact registration_binds_unrendered :
  rtc demo_step (started 0) (in_registration (started 0)) ∧
  identity (in_registration (started 0)) = None ∧ live (messenger (in_registration (started 0))) = None ∧
  QuicSession.boundDid (manager (in_registration (started 0))) = Some bob.
Proof. split; [by apply registered_steps|done]. Qed.

Definition alice_rendered : app := identity_changes (Some alice) (started 0).
Fact failed_registration_unbinds :
  rtc demo_step (started 0) (after_failure alice_rendered) ∧
  identity (after_failure alice_rendered) = Some alice ∧ live (messenger (after_failure alice_rendered)) = Some alice ∧
  QuicSession.boundDid (manager (after_failure alice_rendered)) = None.
Proof.
  split; [|done]. eapply rtc_l; [by apply (step_identity _ _ _ (Some alice))|]. by apply registered_steps.
Qed.

(** What the node had for alice and hands over once is ingested for bob when she is
    gone by the time it comes: only the resumption asks whether the drain was
    cancelled. *)
Fact drained_for_another_identity messages :
  rtc demo_step (started 0) switched ∧ live (messenger switched) = Some bob ∧ cancelled 1 switched = true ∧
  demo_step switched (received true [] (mkDrain 1 false receiving) [mkDrain 2 false receiving] (inr (1, messages)) switched) ∧
  messenger (received true [] (mkDrain 1 false receiving) [mkDrain 2 false receiving] (inr (1, messages)) switched)
  = launch (handler (EvIngest messages)) (messenger switched).
Proof.
  split; [exact switched_reachable|]. do 2 (split; [reflexivity|]). split; [|reflexivity]. by apply step_received.
Qed.

(** steps of the push subscription are steps of the app *)
Lemma push_steps x q : rtc (Inbound.step true) (push x) q → rtc demo_step x (set_push q x).
Proof.
  intros H. remember (push x) as q0 eqn:E. revert x E. induction H as [q|q q' q'' Hs _ IH]; intros x E.
  - replace (set_push q x) with x by (subst; by destruct x). apply rtc_refl.
  - eapply rtc_l; [apply (step_push _ _ _ q'); by rewrite <-E|]. by apply (IH (set_push q' x)).
Qed.

(** a screen is mounted, and its stream opens *)
Definition streaming : Inbound.inbound :=
  Inbound.open_finally 0 (Inbound.stream_opens 0 (Some (js "s")) (Inbound.session_arrives 0 true (Inbound.registerInboundConsumer true (Inbound.initial 0)))).
Lemma streaming_reachable : rtc (Inbound.step true) (Inbound.initial 0) streaming.
Proof.
  unfold streaming. eapply rtc_l; [apply Inbound.do_register|]. set (x1 := Inbound.registerInboundConsumer true _).
  eapply rtc_l; [apply (Inbound.do_session _ x1 0 true); vm_compute; by left|]. set (x2 := Inbound.session_arrives _ _ _).
  eapply rtc_l; [apply (Inbound.do_stream _ x2 0 (Some (js "s"))); [vm_compute; by left|done]|]. apply rtc_once.
  apply Inbound.do_finally. vm_compute. by left.
Qed.

(** The comment has the stream opened once when the identity is set.  A screen that
    stays mounted over a sign-out and a sign-in has no stream: the cleanup stopped it,
    and only the foreground or another screen starts it again. *)
Definition signed_in_again : app :=
  identity_changes (Some bob) (identity_changes None
    (set_push streaming (identity_changes (Some alice) (started 0)))).
Fact push_stays_stopped :
  rtc demo_step (started 0) signed_in_again ∧
  Inbound.inboundConsumerCount (push signed_in_again) = 1 ∧ Inbound.inboundStopped (push signed_in_again) = true ∧
  Inbound.inboundStreamId (push signed_in_again) = None ∧ Inbound.inboundOpenInFlight (push signed_in_again) = None ∧
  Inbound.inboundReopenTimer (push signed_in_again) = None.
Proof.
  split; [|by vm_compute]. unfold signed_in_again.
  eapply rtc_l; [by apply (step_identity _ _ _ (Some alice))|].
  etrans; [apply (push_steps _ streaming); exact streaming_reachable|].
  eapply rtc_l; [by apply (step_identity _ _ _ None)|]. apply rtc_once. by apply step_identity.
Qed.
