(* ===== verification/TokenDetail.v ===== *)
(** * Minting a token: src/src/screens/TokenDetailScreen.tsx

    The token is loaded when the screen opens; the form mints by TokenService
    (Tokens.v), reads the token again and leaves after two seconds.  A press closes
    over the rendering [v] and the DID of the identity.  The text of a fraction in
    an error message is its exact decimal expansion. *)

From stdpp Require Import strings.
From S2P Require Import Prelude JsString JsMap Json Codec Async Outside.
From S2P Require Doubles TokenUnits Quic NativeIdentity Tokens.
#[local] Open Scope Z_scope.

Record screen := mkScreen {
  token : json; loading : bool; minting : bool; mintAmount : jstr; mintRecipient : jstr;
  errors : option jstr * option jstr;                (* amount, recipient *)
  status : option bool * jstr;                       (* whether a success, an error or neither, and the text *)
  closing : nat; left_ : bool }.                     (* timers that will go back *)
Definition opened : screen := mkScreen JNull true false [] [] (None, None) (None, []) 0 false.

Definition setToken v s := mkScreen v (loading s) (minting s) (mintAmount s) (mintRecipient s) (errors s) (status s) (closing s) (left_ s).
Definition setLoading b s := mkScreen (token s) b (minting s) (mintAmount s) (mintRecipient s) (errors s) (status s) (closing s) (left_ s).
Definition setMinting b s := mkScreen (token s) (loading s) b (mintAmount s) (mintRecipient s) (errors s) (status s) (closing s) (left_ s).
Definition setMintAmount t s := mkScreen (token s) (loading s) (minting s) t (mintRecipient s) (errors s) (status s) (closing s) (left_ s).
Definition setMintRecipient t s := mkScreen (token s) (loading s) (minting s) (mintAmount s) t (errors s) (status s) (closing s) (left_ s).
Definition setErrors e s := mkScreen (token s) (loading s) (minting s) (mintAmount s) (mintRecipient s) e (status s) (closing s) (left_ s).
Definition setStatus k m s := mkScreen (token s) (loading s) (minting s) (mintAmount s) (mintRecipient s) (errors s) (k, m) (closing s) (left_ s).
Definition setClosing n s := mkScreen (token s) (loading s) (minting s) (mintAmount s) (mintRecipient s) (errors s) (status s) n (left_ s).
Definition goBack s := mkScreen (token s) (loading s) (minting s) (mintAmount s) (mintRecipient s) (errors s) (status s) (closing s) true.

#[local] Abbreviation prog := (Outside.prog screen).

(** ** Loading *)

Definition say (title body : jstr) : prog unit := void (call (alert title body []);; ret tt).
Definition loadTokenInfo (tokenId : jstr) : prog unit :=
  try_finally
    (try_catch
       (modify (setLoading true);;
        if negb (truthy tokenId) then ret tt
        else
          info ← Tokens.getTokenInfo tokenId;
          modify (setToken info))
       (λ _, say (js "Error") (js "Failed to load token details")))
    (modify (setLoading false)).

(** ** The form *)

(** [Number.parseFloat] of the text, as the amount of a request *)
Definition amount_of (x : Doubles.double) : Tokens.amount :=
  match x with
  | Doubles.Fin u =>
      if u mod 2 ^ 1074 =? 0 then Tokens.AInt (u / 2 ^ 1074) else Tokens.AFrac (u * 5 ^ 1074) 1074
  | Doubles.Inf neg => Tokens.ANotFinite (if neg then js "-Infinity" else js "Infinity")
  | Doubles.NaN => Tokens.ANotFinite (js "NaN")
  end.
Definition form_errors (v : screen) : option jstr * option jstr :=
  (if negb (truthy (trim (mintAmount v))) then Some (js "Amount is required")
   else
     let amount := Doubles.parseFloat (mintAmount v) in
     if Doubles.isNaN amount || Doubles.le amount Doubles.zero then Some (js "Amount must be a positive number") else None,
   if negb (truthy (trim (mintRecipient v))) then Some (js "Recipient DID is required") else None).

Section Mint.
Context (nativeModule : option (jstr → bool)).

Definition request (tokenId : jstr) (v : screen) : Tokens.TokenMintRequest :=
  Tokens.mkMint tokenId (amount_of (Doubles.parseFloat (mintAmount v))) (mintRecipient v).
Definition minted_text (v : screen) : jstr :=
  js "Successfully minted " ++ mintAmount v ++ js " tokens to " ++ take 12 (mintRecipient v) ++ js "...".
Definition mint (tokenId : jstr) (v : screen) : prog unit :=
  try_finally
    (try_catch
       (Tokens.mintToken nativeModule (request tokenId v);;
        modify (setStatus (Some true) (minted_text v));;
        modify (setMintAmount []);; modify (setMintRecipient []);; modify (setErrors (None, None));;
        info ← Tokens.getTokenInfo tokenId;
        modify (setToken info);;
        modify (λ s, setClosing (S (closing s)) s))
       (λ error, modify (setStatus (Some false) (str_or (message error) (js "Failed to mint token")))))
    (modify (setMinting false)).

Definition handleMint (tokenId : jstr) (v : screen) (did : option jstr) : prog unit :=
  modify (setErrors (form_errors v));;
  match form_errors v with
  | (None, None) =>
      if negb (truthy (default [] did)) then modify (setStatus (Some false) (js "Identity not available"))
      else modify (setMinting true);; modify (setStatus None []);; mint tokenId v
  | _ => ret tt
  end.

Inductive action := Open | Amount (text : jstr) | Recipient (text : jstr) | Mint (v : screen) (did : option jstr) | Close.
(** while the token is read there is only the spinner *)
Definition handler (tokenId : jstr) (a : action) : prog unit :=
  match a with
  | Open => loadTokenInfo tokenId
  | Amount text => modify (λ s, setErrors (None, (errors s).2) (setMintAmount text s))
  | Recipient text => modify (λ s, setErrors ((errors s).1, None) (setMintRecipient text s))
  | Mint v did => if minting v || loading v || negb (jtruthy (token v)) then ret tt else handleMint tokenId v did
  | Close => modify (λ s, match closing s with O => s | S n => goBack (setClosing n s) end)
  end.
End Mint.

(** * Properties *)

Section Laws.
Context (nativeModule : option (jstr → bool)).

Lemma form_ok v : form_errors v = (None, None) →
  truthy (trim (mintAmount v)) = true ∧ truthy (trim (mintRecipient v)) = true ∧
  Doubles.gt (Doubles.parseFloat (mintAmount v)) Doubles.zero = true.
Proof.
  unfold form_errors. destruct (truthy (trim (mintAmount v))); [|done]. cbn [negb]. cbv zeta.
  destruct (Doubles.isNaN _) eqn:En; [done|]. cbn [orb]. destruct (Doubles.le _ _) eqn:El; [done|].
  destruct (truthy (trim (mintRecipient v))); [|done]. intros _. split; [done|]. split; [done|].
  unfold Doubles.le in El. rewrite En in El. cbn [negb andb] in El. by apply negb_false_iff in El.
Qed.

(** one mint, and the token that is read when it was taken *)
Definition mints (tokenId : jstr) (v : screen) (tr : list event) : Prop :=
  ∃ tr1 r1 tr2, tr = tr1 ++ tr2 ∧
    Tokens.sign_and_post (Tokens.OpMint (request tokenId v)) None tr1 r1 ∧
    match r1 with
    | inl _ => tr2 = []
    | inr _ => ∃ r2, trace obs (Tokens.getTokenInfo (S := screen) tokenId) tr2 r2
    end.

Lemma mint_trace tokenId v tr r :
  trace obs (mint nativeModule tokenId v) tr r → r = inr tt ∧ mints tokenId v tr.
Proof.
  unfold mint, mbind, outside_bind. intros H. split.
  { apply trace_bindR in H as (r1 & tr1 & tr2 & _ & H & H2). apply trace_bindR in H2 as (r2 & tr3 & tr4 & _ & H2 & H3).
    apply trace_modify in H2 as [_ ->]. destruct H3 as [_ ->].
    apply trace_try_catch in H as [([] & -> & _)|(e & t1 & t2 & _ & _ & H)]; [done|by apply trace_modify in H as [_ ->]]. }
  apply trace_finally_set in H.
  assert (∃ r', trace obs (bind (Tokens.mintToken nativeModule (request tokenId v)) (λ _,
    bind (modify (setStatus (Some true) (minted_text v))) (λ _, bind (modify (setMintAmount [])) (λ _, bind (modify (setMintRecipient [])) (λ _,
      bind (modify (setErrors (None, None))) (λ _, bind (Tokens.getTokenInfo tokenId) (λ info,
        bind (modify (setToken info)) (λ _, modify (λ s, setClosing (S (closing s)) s))))))))) tr r') as [r' H'].
  { apply trace_try_catch in H as [([] & _ & H)|(e & t1 & t2 & -> & H & H2)]; [|apply trace_modify in H2 as [-> _]; rewrite app_nil_r]; eauto. }
  apply trace_bind in H' as [(e & H' & ->)|(a & t1 & t2 & -> & H1 & H2)].
  - exists tr, (inl e), []. rewrite app_nil_r. split; [done|]. split; [|done]. by eapply Tokens.after_nonce.
  - exists t1, (inr a), t2. split; [done|]. split; [by eapply Tokens.after_nonce|].
    do 4 (apply trace_after_modify in H2). apply trace_bind in H2 as [(e & H2 & _)|(info & t3 & t4 & -> & H2 & H3)]; [eauto|].
    apply trace_after_modify in H3. apply trace_modify in H3 as [-> _]. rewrite app_nil_r. eauto.
Qed.
End Laws.

(** A press of the button never fails, and asks for nothing unless there is an
    identity, a recipient and an amount that reads as a positive number.  Then it has
    the native module sign one mint of this token, of that amount as atoms, for the
    recipient as typed, and posts exactly what was signed, once; when the node took
    it the token is read again. *)
Fact one_mint_for_a_press nativeModule tokenId v did tr r :
  trace obs (handler nativeModule tokenId (Mint v did)) tr r →
  r = inr tt ∧
  (tr = [] ∨
   truthy (default [] did) = true ∧ truthy (trim (mintRecipient v)) = true ∧
   Doubles.gt (Doubles.parseFloat (mintAmount v)) Doubles.zero = true ∧ mints tokenId v tr).
Proof.
  cbn [handler]. destruct (_ || _); [intros [-> ->]%trace_ret; auto|].
  unfold handleMint, mbind, outside_bind. intros H. apply trace_after_modify in H.
  destruct (form_errors v) as [[e1|] [e2|]] eqn:Ef; try (apply trace_ret in H as [-> ->]; by auto).
  destruct (truthy (default [] did)); cbn [negb] in H; [|apply trace_modify in H as [-> ->]; auto].
  do 2 (apply trace_after_modify in H). apply mint_trace in H as [-> H]. split; [done|]. right.
  destruct (form_ok v Ef) as (_ & ? & ?). done.
Qed.

(** ** Runs *)

Definition a_token : json :=
  JObj [(js "name", JStr (js "Coin")); (js "symbol", JStr (js "CN")); (js "decimals", JNum 18); (js "total_supply", JStr (js "5"))].
Definition typed : screen :=
  setMintAmount (js "100") (setMintRecipient (js "did:zhtp:ab") (setLoading false (setToken a_token opened))).
Definition demo_has : option (jstr → bool) := Some (λ _, true).
(** everything is taken; [info] is what the node says of the token afterwards *)
Definition demo_phone (info : error + json) : phone :=
  mkPhone None (λ _ _, inr (JObj [(js "signed_tx", JStr (js "f00d"))]))
    (λ path, if bool_decide (path = js "/api/v1/token/mint") then inr (JObj [(js "amount_minted", JStr (js "100"))]) else info)
    (λ _, inl no_answer) (mkContents ∅ ∅ ∅).
Abbreviation demo_press info := (solo phone_handle (handler demo_has (js "t1") (Mint typed (Some (js "did:zhtp:ab")))) typed (demo_phone info)).

Lemma press_ends : is_Some (demo_press (inr a_token)).
Proof. apply is_Some_alt. vm_compute. exact I. Qed.
Lemma press_traced : ∃ tr r, trace obs (handler demo_has (js "t1") (Mint typed (Some (js "did:zhtp:ab")))) tr r.
Proof. destruct press_ends as [[[r s] p] E]. destruct (solo_trace phone_handle _ _ _ _ _ _ E) as [tr H]. exists tr, r. exact H. Qed.

Example a_press : ∃ tr r, trace obs (handler demo_has (js "t1") (Mint typed (Some (js "did:zhtp:ab")))) tr r ∧ r = inr tt.
Proof.
  destruct press_traced as (tr & r & H). exists tr, r. split; [exact H|].
  apply (one_mint_for_a_press demo_has (js "t1") typed (Some (js "did:zhtp:ab")) tr r). exact H.
Qed.

(** The form asks for an amount of tokens and says that so many were minted; what is
    signed is this number of atoms.  The supply above it is shown in tokens. *)
Fact tokens_are_minted_as_atoms :
  Tokens.coerceAmountAtoms (Tokens.m_amount (request (js "t1") typed)) = inr (js "100") ∧
  TokenUnits.atomsToDisplayLocale (js "100") 18 18 = js "0.0000000000000001" ∧
  minted_text typed = js "Successfully minted 100 tokens to did:zhtp:ab...".
Proof. vm_compute. done. Qed.

(** What follows the number in the field is ignored, and said to be minted. *)
Fact text_after_the_number_is_ignored :
  let v := setMintAmount (js "7 million") typed in
  form_errors v = (None, None) ∧ Tokens.m_amount (request (js "t1") v) = Tokens.AInt 7 ∧
  minted_text v = js "Successfully minted 7 million tokens to did:zhtp:ab...".
Proof. vm_compute. done. Qed.

(** When only the token cannot be read again, a mint that was taken is shown as
    failed, and the form, which invites to another, stays open. *)
Fact taken_mint_shown_as_failed :
  option_map (λ x, (status x.1.2, closing x.1.2)) (demo_press (inl (Error (js "timeout")))) = Some ((Some false, js "timeout"), 0%nat) ∧
  option_map (λ x, (fst (status x.1.2), closing x.1.2)) (demo_press (inr a_token)) = Some (Some true, 1%nat).
Proof. vm_compute. done. Qed.

(** A token that cannot be loaded leaves the spinner, with no way back on the screen. *)
Fact failed_load_keeps_the_spinner {D} (handle : ∀ R : Set, req R → D → (error + R) * D) tokenId s d :
  truthy tokenId = true → (∀ o d, ∃ e d', handle json (quicRequest (js "/api/v1/token/" ++ tokenId) o) d = (inl e, d')) →
  ∃ s' d', solo handle (loadTokenInfo tokenId) s d = Some (inr tt, s', d') ∧ token s' = token s ∧ loading s' = false.
Proof.
  intros Ht Hf. destruct (Hf Quic.no_options d) as (e & d' & He).
  unfold loadTokenInfo, say, mbind, outside_bind. rewrite solo_try_finally, solo_try_catch, solo_bind, solo_modify. cbv iota. rewrite Ht. cbn [negb].
  rewrite solo_bind. unfold Tokens.getTokenInfo, mbind, outside_bind. rewrite solo_bind, solo_call, He. cbn [fst snd].
  cbn. destruct (handle nat _ d') as [[e'|n] d'']; cbn; by eexists _, _.
Qed.
