(* ===== verification/SeedScreen.v ===== *)
(** * The seed phrase of a new account: src/src/screens/SeedPhraseScreen.tsx

    The screen shows the phrase it was opened with, stores it in the seed vault when
    asked (Vault.v), and ends the sign-up by making the identity the current one
    (AuthContext.v).  [savedAt] is the time of the entry as a text. *)

From stdpp Require Import strings gmap.
From S2P Require Import Prelude JsString JsMap Json Codec Async Outside.
From S2P Require Vault AuthContext.
#[local] Open Scope Z_scope.

Inductive VaultState := idle | saving | saved | failed.
#[export] Instance vault_state_eq_dec : EqDecision VaultState.
Proof. solve_decision. Defined.

Record screen := mkScreen {
  confirmedSaved : bool; showPhrase : bool; isSaving : bool; vaultState : VaultState; vaultError : option jstr;
  popped : bool; provider : AuthContext.auth }.
Definition opened (a : AuthContext.auth) : screen := mkScreen false false false idle None false a.
Definition setConfirmedSaved b s := mkScreen b (showPhrase s) (isSaving s) (vaultState s) (vaultError s) (popped s) (provider s).
Definition toggleShow s := mkScreen (confirmedSaved s) (negb (showPhrase s)) (isSaving s) (vaultState s) (vaultError s) (popped s) (provider s).
Definition setIsSaving b s := mkScreen (confirmedSaved s) (showPhrase s) b (vaultState s) (vaultError s) (popped s) (provider s).
Definition setVault k e s := mkScreen (confirmedSaved s) (showPhrase s) (isSaving s) k e (popped s) (provider s).
Definition popToTop s := mkScreen (confirmedSaved s) (showPhrase s) (isSaving s) (vaultState s) (vaultError s) true (provider s).
Definition put_provider a s := mkScreen (confirmedSaved s) (showPhrase s) (isSaving s) (vaultState s) (vaultError s) (popped s) a.

#[local] Abbreviation prog := (Outside.prog screen).

Section Screen.
Context (nativeModule : option (jstr → bool)) (seedPhrases : list jstr) (identity : option json).

Definition handleSecureSave (savedAt : jstr) : prog unit :=
  match seedPhrases with
  | [] => modify (setVault failed (Some (js "Secure storage is unavailable on this device. Please write the phrase down manually.")))
  | _ =>
      modify (setVault saving None);;
      try_catch (Vault.saveSeedPhrase seedPhrases savedAt;; modify (λ s, setVault saved (vaultError s) s))
        (λ err, modify (setVault failed (Some (str_or (message err) (js "Unable to store seed phrase securely. Please try again.")))))
  end.

(** [v] is the rendering of the press *)
Definition handleContinue (v : screen) : prog unit :=
  if negb (confirmedSaved v) then ret tt
  else
    modify (setIsSaving true);;
    try_finally
      (match identity with
       | Some i => if jtruthy i then await (lift provider put_provider (AuthContext.setIdentity nativeModule i));; modify popToTop else ret tt
       | None => ret tt
       end)
      (modify (setIsSaving false)).

Inductive action := Confirm (b : bool) | Show | SecureSave (v : screen) (savedAt : jstr) | Continue (v : screen).
(** without a phrase there is only an error *)
Definition handler (a : action) : prog unit :=
  match seedPhrases with
  | [] => ret tt
  | _ =>
      match a with
      | Confirm b => modify (setConfirmedSaved b)
      | Show => modify toggleShow
      | SecureSave v savedAt =>
          if bool_decide (vaultState v = saving ∨ vaultState v = saved) then ret tt else handleSecureSave savedAt
      | Continue v => if negb (confirmedSaved v) || isSaving v then ret tt else handleContinue v
      end
  end.
End Screen.

(** * Properties *)

(** Over any storage that keeps its promises: the screen says that the phrase is
    stored exactly when the keychain took it, and then the vault has these words;
    otherwise it shows an error; no other entry is touched. *)
Fact saved_means_stored {D : Type} (handle : ∀ R : Set, req R → D → (error + R) * D) (view : D → contents)
    {promises : Storage handle view} words savedAt s d :
  words ≠ [] →
  ∃ s' d', solo handle (handleSecureSave words savedAt) s d = Some (inr tt, s', d') ∧
    (∃ e, view d' = set_generic Vault.VAULT_SERVICE e (view d)) ∧
    match vaultState s' with
    | saved => generic (view d') !! Vault.VAULT_SERVICE = Some (Vault.VAULT_USERNAME, Vault.serialize words savedAt)
    | failed => ∃ m, vaultError s' = Some m
    | _ => False
    end.
Proof.
  intros Hw. destruct words as [|w l]; [done|]. unfold handleSecureSave, Vault.saveSeedPhrase.
  generalize (Vault.serialize (w :: l) savedAt). intros text. enter. answer_by handle view promises a d' L. destruct a as [e|[]]; enter.
  - eexists _, d'. split; [reflexivity|]. split; [exact L|]. by eexists.
  - eexists _, d'. split; [reflexivity|]. split; [by eexists|]. cbn. rewrite L. apply generic_set.
Qed.

(** The sign-up ends only after the box was ticked and with the identity stored: the
    auth screens are left when the provider has taken it. *)
Fact left_with_the_identity {D : Type} (handle : ∀ R : Set, req R → D → (error + R) * D) nativeModule i v s d r s' d' :
  popped s = false → solo handle (handleContinue nativeModule (Some i) v) s d = Some (r, s', d') → popped s' = true →
  confirmedSaved v = true ∧ r = inr tt ∧
  ∃ a, solo handle (AuthContext.setIdentity nativeModule i) (provider s) d = Some (inr tt, a, d') ∧ provider s' = a.
Proof.
  intros Hp H Hpop. unfold handleContinue in H. destruct (confirmedSaved v); cbn [negb] in H; [|injection H as <- <- <-; congruence].
  split; [done|]. revert H. destruct (jtruthy i).
  - enter. rewrite (solo_lift provider put_provider) by first [done|by intros []].
    replace (provider (setIsSaving true s)) with (provider s) by done.
    destruct (solo handle (AuthContext.setIdentity nativeModule i) (provider s) d) as [[[[e|[]] a] d1]|] eqn:E; enter; [|..|done].
    + intros [= <- <- <-]. simpl in Hpop. congruence.
    + intros [= <- <- <-]. split; [done|]. by eexists.
  - enter. intros [= <- <- <-]. simpl in Hpop. congruence.
Qed.

(** Whoever does not give an identity to the screen stays on it: the button does nothing. *)
Fact no_identity_no_end nativeModule v tr r : trace obs (handleContinue nativeModule None v) tr r → tr = [] ∧ r = inr tt.
Proof.
  unfold handleContinue. destruct (confirmedSaved v); cbn [negb]; [|by intros [-> ->]%trace_ret].
  unfold mbind, outside_bind. intros H. apply trace_after_modify in H. pose proof H as H'. apply trace_finally_set in H.
  apply trace_ret in H as [-> _]. split; [done|]. apply trace_bindR in H' as (r1 & tr1 & tr2 & _ & H1 & H2). apply trace_ret in H1 as [_ ->].
  apply trace_bindR in H2 as (r2 & tr3 & tr4 & _ & H2 & H3). apply trace_modify in H2 as [_ ->]. by destruct H3 as [_ ->].
Qed.
