(* ===== verification/DeviceGuard.v ===== *)
(** * The checks of the device: src/src/services/DeviceBinding.ts,
    JailbreakDetection.ts

    A fingerprint of the device that an identity is bound to, the 32-bit checksum
    it uses (that of RuntimeProtection.ts too), the comparison of two fingerprints
    and the policies over its result; the detection of modified systems.  The
    texts shown are given without the sign they begin with.  The native module
    DeviceInfo answers strings; another answer is taken as its text. *)

From stdpp Require Import strings.
From S2P Require Import Prelude JsString Json Codec Async Outside.
From S2P Require PouwToken.
#[local] Open Scope Z_scope.

(** ** The checksum *)

(** one turn of the loop: [hash = (hash << 5) - hash + char; hash = hash & hash] *)
Definition hash_step (hash char : Z) : Z := PouwToken.to_int32 (PouwToken.shl32 hash 5 - hash + char).
Definition hash32 (s : jstr) : Z := fold_left (λ h c, hash_step h (code c)) s 0.

(** [n.toString(16)] of an integer below [16 ^ 8] *)
Definition hex_text (n : Z) : jstr :=
  match drop_while is_zero (map (λ i, hex_char (n / 16 ^ i mod 16)) [7; 6; 5; 4; 3; 2; 1; 0]) with
  | [] => js "0"
  | s => s
  end.

Definition simpleChecksum (s : jstr) : jstr :=
  if hash32 s <? 0 then js "-" ++ hex_text (- hash32 s) else hex_text (hash32 s).
Definition hashFingerprint (data : jstr) : jstr := js "fp_" ++ hex_text (Z.abs (hash32 data)).

(** ** DeviceBinding *)

Record DeviceFingerprint := mkFingerprint {
  deviceId : jstr; model : jstr; manufacturer : jstr; osVersion : jstr; buildId : jstr;
  serialNumber : option jstr; hardwareFingerprint : jstr; taken : Z }.

Inductive riskLevel := none | low | medium | high.
#[export] Instance risk_eq_dec : EqDecision riskLevel.
Proof. solve_decision. Defined.

Record DeviceBindingResult := mkBinding {
  isBound : bool; currentFingerprint : DeviceFingerprint; bound : option DeviceFingerprint;
  matches : bool; risk : riskLevel; warnings : list jstr; resultTime : Z }.

Record binding := mkDevice { boundDeviceId : option jstr; boundFingerprint : option DeviceFingerprint }.
Definition unbound : binding := mkDevice None None.

#[local] Abbreviation prog := (Outside.prog binding).

Definition DeviceInfo (method : jstr) : prog jstr :=
  v ← call (native (js "DeviceInfo") method []); ret (js_String v).
Definition fingerprint_data (id model manufacturer os : jstr) : jstr :=
  id ++ js "-" ++ model ++ js "-" ++ manufacturer ++ js "-" ++ os.

Definition generateDeviceFingerprint (android : bool) : prog DeviceFingerprint :=
  try_catch
    (id ← DeviceInfo (js "getUniqueId");
     mo ← DeviceInfo (js "getModel");
     ma ← DeviceInfo (js "getManufacturer");
     os ← DeviceInfo (js "getSystemVersion");
     b ← DeviceInfo (js "getBuildId");
     sn ← (if android then try_catch (s ← DeviceInfo (js "getSerialNumber"); ret (Some s)) (λ _, ret None) else ret None);
     now ← call Date_now;
     ret (mkFingerprint id mo ma os b sn (hashFingerprint (fingerprint_data id mo ma os)) now))
    (λ _, throw (Error (js "Cannot generate device fingerprint"))).

Definition bindIdentityToDevice (android : bool) : prog DeviceBindingResult :=
  current ← await (generateDeviceFingerprint android);
  modify (λ _, mkDevice (Some (deviceId current)) (Some current));;
  now ← call Date_now;
  ret (mkBinding true current (Some current) true none [] now).

(** the assessment: each difference adds its warning and sets the level *)
Definition assess (current bound_ : DeviceFingerprint) : list jstr * riskLevel :=
  let l := ([], none) in
  let l := if bool_decide (hardwareFingerprint current = hardwareFingerprint bound_) then l
           else (l.1 ++ [js "Hardware fingerprint mismatch"], high) in
  let l := if bool_decide (deviceId current = deviceId bound_) then l
           else (l.1 ++ [js "Device ID changed"], if bool_decide (l.2 = high) then high else medium) in
  let l := if bool_decide (model current = model bound_) then l
           else (l.1 ++ [js "Device model changed"], if bool_decide (l.2 = high) then high else low) in
  let l := if bool_decide (manufacturer current = manufacturer bound_) then l
           else (l.1 ++ [js "Device manufacturer changed"], if bool_decide (l.2 = high) then high else low) in
  if bool_decide (osVersion current = osVersion bound_) then l
  else (l.1 ++ [js "OS version updated"], if bool_decide (l.2 = none) then low else l.2).

Definition compared (current bound_ : DeviceFingerprint) (now : Z) : DeviceBindingResult :=
  let '(warnings, risk) := assess current bound_ in
  mkBinding true current (Some bound_)
    (bool_decide (hardwareFingerprint current = hardwareFingerprint bound_)
     && bool_decide (deviceId current = deviceId bound_)) risk warnings now.

Definition verifyDeviceBinding (android : bool) (bound_ : DeviceFingerprint) : prog DeviceBindingResult :=
  current ← await (generateDeviceFingerprint android);
  now ← call Date_now;
  ret (compared current bound_ now).

Definition shouldTrustDevice (result : DeviceBindingResult) (strictMode : bool) : bool :=
  if strictMode then matches result && bool_decide (risk result = none) else bool_decide (risk result ≠ high).

Definition getRiskAssessment (result : DeviceBindingResult) : jstr :=
  match risk result with
  | none => js "Device is trusted and unchanged"
  | low => js "Low risk: Minor device changes detected (OS update?)"
  | medium => js "Medium risk: Device appears to have changed"
  | high => js "High risk: Device hardware signature mismatch - possible compromise or device replacement"
  end.

Definition clearBinding (_ : binding) : binding := unbound.
Definition getBoundDeviceInfo (b : binding) : option DeviceFingerprint := boundFingerprint b.

(** ** JailbreakDetection *)

Inductive OS := ios | android | other_os.
Record JailbreakDetectionResult := mkJailbreak {
  isJailbroken : bool; indicators : list jstr; severity : riskLevel; riskFactors : Z; detectedAt : Z }.

Definition checkIOSJailbreak (r : JailbreakDetectionResult) : JailbreakDetectionResult :=
  mkJailbreak (0 <? riskFactors r) (indicators r ++ [js "DEBUGGER_CHECK"]) (severity r) (riskFactors r) (detectedAt r).
Definition checkAndroidRoot (r : JailbreakDetectionResult) : JailbreakDetectionResult :=
  mkJailbreak (0 <? riskFactors r) (indicators r ++ [js "BUILD_PROPERTIES_CHECK"]) (severity r) (riskFactors r) (detectedAt r).

Definition detectJailbreak (os : OS) (now : Z) : JailbreakDetectionResult :=
  let r := mkJailbreak false [] none 0 now in
  let r := match os with ios => checkIOSJailbreak r | android => checkAndroidRoot r | other_os => r end in
  let level := if 3 <=? riskFactors r then high else if 2 <=? riskFactors r then medium
               else if 1 <=? riskFactors r then low else severity r in
  mkJailbreak (isJailbroken r) (indicators r) level (riskFactors r) (detectedAt r).

Definition getRiskSummary (r : JailbreakDetectionResult) : jstr :=
  match severity r with
  | none => js "Device appears secure"
  | low => js "Low risk: Minor tampering detected"
  | medium => js "Medium risk: Multiple jailbreak indicators"
  | high => js "High risk: Device is likely jailbroken/rooted"
  end.
Definition shouldProceedOnJailbrokenDevice (s : riskLevel) (strictMode : bool) : bool :=
  if strictMode then bool_decide (s = none) else bool_decide (s ≠ high).

(** ** Properties *)

Lemma to_int32_mod x y : x mod 2 ^ 32 = y mod 2 ^ 32 → PouwToken.to_int32 x = PouwToken.to_int32 y.
Proof.
  intros H. unfold PouwToken.to_int32. rewrite (Z.add_mod x), (Z.add_mod y) by lia. by rewrite H.
Qed.

Lemma to_int32_cong x : PouwToken.to_int32 x mod 2 ^ 32 = x mod 2 ^ 32.
Proof.
  unfold PouwToken.to_int32. rewrite Zminus_mod_idemp_l. f_equal. lia.
Qed.

Lemma to_int32_range x : - 2 ^ 31 ≤ PouwToken.to_int32 x < 2 ^ 31.
Proof. unfold PouwToken.to_int32. pose proof (Z.mod_pos_bound (x + 2 ^ 31) (2 ^ 32)). lia. Qed.

(** The polynomial of the characters in 31, without wrapping. *)
Definition polynomial (s : jstr) : Z := fold_left (λ h c, 31 * h + code c) s 0.

Lemma hash_step_cong p c : hash_step (PouwToken.to_int32 p) c = PouwToken.to_int32 (31 * p + c).
Proof.
  apply to_int32_mod. unfold PouwToken.shl32. change (5 mod 32) with 5. rewrite Z.shiftl_mul_pow2 by lia.
  set (h := PouwToken.to_int32 p). assert (Hh : h mod 2 ^ 32 = p mod 2 ^ 32) by apply to_int32_cong.
  replace (PouwToken.to_int32 (h * 2 ^ 5) - h + c) with (PouwToken.to_int32 (h * 2 ^ 5) + (c - h)) by lia.
  rewrite Z.add_mod, to_int32_cong, <-Z.add_mod by lia.
  replace (h * 2 ^ 5 + (c - h)) with (31 * h + c) by lia.
  rewrite (Z.add_mod (31 * h)), (Z.mul_mod 31 h), Hh, <-Z.mul_mod, <-Z.add_mod by lia. done.
Qed.

(** The loop over 32-bit integers computes the polynomial modulo [2 ^ 32]. *)
Fact checksum_is_the_polynomial s : hash32 s = PouwToken.to_int32 (polynomial s).
Proof.
  unfold hash32, polynomial. change 0 with (PouwToken.to_int32 0) at 1. generalize 0.
  induction s as [|c s IH]; intros p; simpl; [done|]. by rewrite hash_step_cong, IH.
Qed.

Fact checksum_bounded s : - 2 ^ 31 ≤ hash32 s < 2 ^ 31.
Proof. rewrite checksum_is_the_polynomial. apply to_int32_range. Qed.

(** Texts of equal length that differ in two characters collide. *)
Fact checksum_collides : simpleChecksum (js "key-Aa") = simpleChecksum (js "key-BB").
Proof. vm_compute. reflexivity. Qed.

(** A fingerprint whose checksum is that of its fields. *)
Definition generated (f : DeviceFingerprint) : Prop :=
  hardwareFingerprint f = hashFingerprint (fingerprint_data (deviceId f) (model f) (manufacturer f) (osVersion f)).

Definition same_device (f g : DeviceFingerprint) : Prop :=
  deviceId f = deviceId g ∧ model f = model g ∧ manufacturer f = manufacturer g ∧ osVersion f = osVersion g.

(** all five fields that are compared *)
Definition unchanged (f g : DeviceFingerprint) : bool :=
  bool_decide (hardwareFingerprint f = hardwareFingerprint g) && bool_decide (deviceId f = deviceId g)
    && bool_decide (model f = model g) && bool_decide (manufacturer f = manufacturer g) && bool_decide (osVersion f = osVersion g).

(** by cases of the five differences *)
Ltac by_differences f g :=
  generalize (bool_decide (hardwareFingerprint f = hardwareFingerprint g)), (bool_decide (deviceId f = deviceId g)),
    (bool_decide (model f = model g)), (bool_decide (manufacturer f = manufacturer g)), (bool_decide (osVersion f = osVersion g));
  by intros [] [] [] [] [].

Lemma all_the_same f g now :
  shouldTrustDevice (compared f g now) true = unchanged f g ∧ bool_decide (warnings (compared f g now) = []) = unchanged f g.
Proof.
  unfold unchanged, shouldTrustDevice, compared, assess. by_differences f g.
Qed.
Lemma same_fields f g :
  generated f → generated g →
  unchanged f g = true ↔ same_device f g.
Proof.
  unfold generated, same_device, unchanged. intros Hf Hg. rewrite !andb_true_iff, !bool_decide_eq_true. split; [by intros [[[[_ ?] ?] ?] ?]|].
  intros (H1 & H2 & H3 & H4). repeat split; try done. by rewrite Hf, Hg, H1, H2, H3, H4.
Qed.

(** What is generated is generated, and the strict policy trusts exactly the device
    that answers as the bound one did; then there is no warning. *)
Fact strict_policy_is_sameness f g now :
  generated f → generated g →
  (shouldTrustDevice (compared f g now) true = true ↔ same_device f g) ∧
  (same_device f g ↔ warnings (compared f g now) = []).
Proof.
  intros Hf Hg. destruct (all_the_same f g now) as [H1 H2]. split.
  - rewrite H1. by apply same_fields.
  - rewrite <-(bool_decide_eq_true (warnings _ = [])), H2. symmetry. by apply same_fields.
Qed.

(** Each difference has its warning, in the order of the code. *)
Fact warnings_name_the_differences f g now :
  warnings (compared f g now) =
    (if bool_decide (hardwareFingerprint f = hardwareFingerprint g) then [] else [js "Hardware fingerprint mismatch"]) ++
    (if bool_decide (deviceId f = deviceId g) then [] else [js "Device ID changed"]) ++
    (if bool_decide (model f = model g) then [] else [js "Device model changed"]) ++
    (if bool_decide (manufacturer f = manufacturer g) then [] else [js "Device manufacturer changed"]) ++
    (if bool_decide (osVersion f = osVersion g) then [] else [js "OS version updated"]).
Proof. unfold compared, assess. by_differences f g. Qed.

Definition sample (id mo os : jstr) : DeviceFingerprint :=
  mkFingerprint id mo (js "Apple") os (js "21A") None (hashFingerprint (fingerprint_data id mo (js "Apple") os)) 0.

(** An update of the system is a high risk: its version is part of the hardware
    fingerprint, although the comparison counts it as a minor one. *)
Fact update_is_a_high_risk :
  let r := compared (sample (js "d1") (js "iPhone") (js "17.1")) (sample (js "d1") (js "iPhone") (js "17.0")) 0 in
  risk r = high ∧ shouldTrustDevice r false = false ∧
  warnings r = [js "Hardware fingerprint mismatch"; js "OS version updated"].
Proof. vm_compute. done. Qed.

(** A changed device whose checksum collides is a low risk once its model changed
    too: the later test lowers the level of the earlier one. *)
Fact level_is_lowered :
  let r := compared (sample (js "BB") (js "BB") (js "17")) (sample (js "Aa") (js "Aa") (js "17")) 0 in
  risk r = low ∧ shouldTrustDevice r false = true ∧
  risk (compared (sample (js "BB") (js "Q") (js "17")) (mkFingerprint (js "Aa") (js "Q") (js "Apple") (js "17") (js "21A") None
          (hardwareFingerprint (sample (js "BB") (js "Q") (js "17"))) 0) 0) = medium.
Proof. vm_compute. done. Qed.

(** What the device answers is made into a generated fingerprint or one error. *)
Fact generated_trace a tr r :
  trace obs (generateDeviceFingerprint a) tr r →
  match r with inr f => generated f | inl e => e = Error (js "Cannot generate device fingerprint") end.
Proof.
  unfold generateDeviceFingerprint. intros (r' & H & ->)%trace_rethrown.
  enough (G : match r' with inr f => generated f | inl _ => True end) by by destruct r'.
  by destruct a; untrace H; simplify_eq/=.
Qed.

(** No modified system is ever reported: nothing counts a risk factor. *)
Fact nothing_is_detected os now :
  isJailbroken (detectJailbreak os now) = false ∧ severity (detectJailbreak os now) = none ∧
  shouldProceedOnJailbrokenDevice (severity (detectJailbreak os now)) true = true.
Proof. destruct os; vm_compute; done. Qed.

(** The strict policies never trust what the lax ones refuse. *)
Fact strict_is_stricter r s :
  (shouldTrustDevice r true = true → shouldTrustDevice r false = true) ∧
  (shouldProceedOnJailbrokenDevice s true = true → shouldProceedOnJailbrokenDevice s false = true).
Proof.
  unfold shouldTrustDevice, shouldProceedOnJailbrokenDevice.
  split; [destruct (risk r)|destruct s]; by rewrite ?andb_false_r.
Qed.
