(* ===== verification/RuntimeGuard.v ===== *)
(** * The self-protection of the program: src/src/services/RuntimeProtection.ts

    Checks of texts and values, which keep a list of the threats they found, and the
    question whether an attack is in progress.  [now] is the time of a call; the
    clock does not move within one.  Messages are given without the sign they begin
    with.  A value is one of JSON: what the check of keys sees of it is its own
    keys and those it inherits from the prototype of objects or of arrays. *)

From stdpp Require Import strings.
From S2P Require Import Prelude JsString JsMap Json.
From S2P Require DeviceGuard.
#[local] Open Scope Z_scope.

Inductive threatType := CODE_INJECTION | PROTOTYPE_POLLUTION | KEY_TAMPERING | UNSAFE_EVAL | MALICIOUS_JSON.
Inductive threatSeverity := critical_threat | high_threat.
#[export] Instance threat_type_eq_dec : EqDecision threatType.
Proof. solve_decision. Defined.
#[export] Instance threat_severity_eq_dec : EqDecision threatSeverity.
Proof. solve_decision. Defined.

Record RASPThreatDetection := mkThreat {
  detected : bool; kind : option threatType; severity : option threatSeverity; note : option jstr; timestamp : Z }.

(** [evalBlocked]: the global [eval] has been replaced *)
Record guard := mkGuard { detectedThreats : list RASPThreatDetection; evalBlocked : bool }.
Definition new_guard : guard := mkGuard [] false.

Definition maxThreatsBeforeBlock : nat := 5.
Definition threatTimeWindow : Z := 60000.
Definition FIVE_MINUTES : Z := 5 * 60000.

Definition recordThreat (now : Z) (t : RASPThreatDetection) (g : guard) : guard :=
  mkGuard (List.filter (λ t, now - FIVE_MINUTES <? timestamp t) (detectedThreats g ++ [t])) (evalBlocked g).

(** the result of a check, recorded when it found something *)
Definition report (k : threatType) (s : threatSeverity) (m : jstr) (found : bool) (now : Z) (g : guard) : RASPThreatDetection * guard :=
  let r := mkThreat found (Some k) (if found then Some s else None) (if found then Some m else None) now in
  (r, if found then recordThreat now r g else g).

(** ** Injected code: eight regular expressions, in any case *)

Fixpoint anywhere (p : jstr → bool) (s : jstr) : bool :=
  p s || match s with [] => false | _ :: t => anywhere p t end.
Definition lit (w : jstr) (k : jstr → bool) (s : jstr) : bool := startsWith w s && k (drop (length w) s).
Definition spaces (k : jstr → bool) (s : jstr) : bool := k (drop_while is_space s).
Definition one_of (cs : jstr) (k : jstr → bool) (s : jstr) : bool :=
  match s with c :: t => bool_decide (c ∈ cs) && k t | [] => false end.
(** [.*] *)
Fixpoint line (k : jstr → bool) (s : jstr) : bool :=
  k s || match s with c :: t => negb (is_newline c) && line k t | [] => false end.
Definition matched (_ : jstr) : bool := true.
Definition quotes : jstr := ["034"%char; "'"%char].

Definition injectionPatterns : list (jstr → bool) :=
  [lit (js "eval") (spaces (lit (js "(") matched));
   lit (js "function") (spaces (lit (js "(") matched));
   lit (js "settimeout") (line (lit (js "eval") matched));
   lit (js "setinterval") (line (lit (js "eval") matched));
   lit (js "exec") (spaces (lit (js "(") matched));
   lit (js "spawn") (spaces (lit (js "(") matched));
   lit (js "child_process") matched;
   lit (js "require") (spaces (lit (js "(") (spaces (one_of quotes (line (one_of quotes (spaces (lit (js ")") matched))))))))].

Definition detectCodeInjection (input : jstr) : Z → guard → RASPThreatDetection * guard :=
  report CODE_INJECTION critical_threat (js "Code injection attempt detected - request blocked")
    (existsb (λ p, anywhere p (toLowerCase input)) injectionPatterns).

(** ** Polluted prototypes *)

(** [typeof] of a value is 'object' *)
Definition is_object (v : json) : bool := match v with JNull | JArr _ | JObj _ => true | _ => false end.

(** [key in obj && typeof obj[key] === 'object'] of an object or an array: an own
    entry hides the inherited one; '__proto__' is inherited as an object,
    'constructor' as a function, 'prototype' not at all *)
Definition object_under (key : jstr) (v : json) : bool :=
  match v with
  | JObj l => match mget key l with Some w => is_object w | None => bool_decide (key = js "__proto__") end
  | JArr _ => bool_decide (key = js "__proto__")
  | _ => false
  end.
Definition prototypePollutionKeys : list jstr := [js "__proto__"; js "constructor"; js "prototype"].
Definition pollution (v : json) : bool :=
  match v with JArr _ | JObj _ => existsb (λ k, object_under k v) prototypePollutionKeys | _ => false end.

Definition detectPrototypePollution (v : json) : Z → guard → RASPThreatDetection * guard :=
  report PROTOTYPE_POLLUTION high_threat (js "Prototype pollution attempt detected") (pollution v).

(** ** Keys and texts *)

Definition validateKeyIntegrity (key : jstr) (expectedHash : option jstr) : Z → guard → RASPThreatDetection * guard :=
  report KEY_TAMPERING critical_threat (js "Cryptographic key tampering detected")
    (match expectedHash with
     | Some h => truthy h && bool_decide (DeviceGuard.simpleChecksum key ≠ h)
     | None => false
     end).

(** [None] when [obj.hasOwnProperty] of an object that has a key is not a function *)
Fixpoint getMaxDepth (v : json) (currentDepth : Z) : option Z :=
  match v with
  | JArr l =>
      fold_left (λ m d, m ← m; d ← d; Some (Z.max m d)) (map (λ w, getMaxDepth w (currentDepth + 1)) l) (Some currentDepth)
  | JObj l =>
      if mhas (js "hasOwnProperty") l then None
      else fold_left (λ m d, m ← m; d ← d; Some (Z.max m d)) (map (λ kv, getMaxDepth kv.2 (currentDepth + 1)) l) (Some currentDepth)
  | _ => Some currentDepth
  end.

Definition harmless (now : Z) : RASPThreatDetection := mkThreat false None None None now.
Definition validateJSONInput (input : jstr) (now : Z) (g : guard) : RASPThreatDetection * guard :=
  match json_parse input with
  | None => (harmless now, g)
  | Some obj =>
      let '(pollutionCheck, g') := detectPrototypePollution obj now g in
      if detected pollutionCheck then (pollutionCheck, g')
      else
        let long := match obj with JArr l => (100000 <? length l)%nat | _ => false end in
        match getMaxDepth obj 0 with
        | None => (harmless now, g')
        | Some d =>
            report MALICIOUS_JSON high_threat (js "Malicious JSON structure detected") (long || (50 <? d)) now g'
        end
  end.

(** ** The global [eval], and the threats of late *)

Definition preventUnsafeEval (g : guard) : guard := mkGuard (detectedThreats g) true.
(** a call of the replaced [eval], which throws *)
Definition blocked_eval (now : Z) (g : guard) : guard :=
  recordThreat now (mkThreat true (Some UNSAFE_EVAL) (Some critical_threat) (Some (js "Attempt to call eval() blocked")) now) g.

Definition count_of (s : threatSeverity) (l : list RASPThreatDetection) : nat :=
  length (List.filter (λ t, bool_decide (severity t = Some s)) l).
Definition isAttackInProgress (now : Z) (g : guard) : bool :=
  let recentThreats := List.filter (λ t, now - timestamp t <? threatTimeWindow) (detectedThreats g) in
  (0 <? count_of critical_threat recentThreats)%nat || (maxThreatsBeforeBlock <? count_of high_threat recentThreats)%nat.

Definition getThreatHistory (minutes : Z) (now : Z) (g : guard) : list RASPThreatDetection :=
  List.filter (λ t, now - minutes * 60000 <? timestamp t) (detectedThreats g).
Definition clearThreatHistory (g : guard) : guard := mkGuard [] (evalBlocked g).

(** ** Runs: the calls of the program at their times *)

Inductive check :=
  | Injection (input : jstr) | Pollution (v : json) | Key (key : jstr) (h : option jstr) | Text (input : jstr)
  | Prevent | Eval | Clear.

Definition run_check (c : check) (now : Z) (g : guard) : guard :=
  match c with
  | Injection i => (detectCodeInjection i now g).2
  | Pollution v => (detectPrototypePollution v now g).2
  | Key k h => (validateKeyIntegrity k h now g).2
  | Text i => (validateJSONInput i now g).2
  | Prevent => preventUnsafeEval g
  | Eval => if evalBlocked g then blocked_eval now g else g
  | Clear => clearThreatHistory g
  end.

(** ** Properties of the value checks *)

(** Every object or array is reported as polluted, unless it has an own entry
    '__proto__' that holds no object: what it inherits under that key is one. *)
Fact ordinary_values_are_reported v now g :
  match v with JArr _ => True | JObj l => mhas (js "__proto__") l = false | _ => False end →
  (detectPrototypePollution v now g).1 =
    mkThreat true (Some PROTOTYPE_POLLUTION) (Some high_threat) (Some (js "Prototype pollution attempt detected")) now.
Proof.
  intros H. unfold detectPrototypePollution, report. enough (pollution v = true) as -> by done.
  destruct v as [| | | | |l|l]; try done. unfold pollution. simpl. unfold mhas in H.
  by destruct (mget (js "__proto__") l).
Qed.

(** So the later rules only ever apply to such objects and to values without
    entries: a long array or a deep one is reported as pollution. *)
Fact malicious_structure_needs_an_own_proto input now g :
  kind (validateJSONInput input now g).1 = Some MALICIOUS_JSON →
  detected (validateJSONInput input now g).1 = true →
  ∃ l w, json_parse input = Some (JObj l) ∧ mget (js "__proto__") l = Some w ∧ is_object w = false.
Proof.
  unfold validateJSONInput, detectPrototypePollution. destruct (json_parse input) as [v|] eqn:E; [|done].
  unfold report at 1 4. unfold pollution. destruct v as [|b|n|m e|s|l|l]; simpl; try done.
  destruct (mget (js "__proto__") l) as [w|] eqn:Hw; [|done]. destruct (is_object w) eqn:Hp; [done|].
  intros _ _. eauto.
Qed.

Fact plain_json_is_reported :
  (validateJSONInput (js "{}") 0 new_guard).1 = mkThreat true (Some PROTOTYPE_POLLUTION) (Some high_threat) (Some (js "Prototype pollution attempt detected")) 0 ∧
  detected (validateJSONInput (js "[1,2]") 0 new_guard).1 = true ∧
  detected (validateJSONInput (js "7") 0 new_guard).1 = false.
Proof. vm_compute. done. Qed.

(** An entry named 'hasOwnProperty' makes the measure of the depth throw, and the
    value passes as harmless. *)
Definition dqs : jstr := ["034"%char].
Definition entry (k : jstr) (v : jstr) : jstr := dqs ++ k ++ dqs ++ js ":" ++ v.
Definition nested (n : nat) : jstr := concat (replicate n (js "[")) ++ concat (replicate n (js "]")).
Definition hidden_depth (with_key : bool) : jstr :=
  js "{" ++ entry (js "__proto__") (js "1") ++ js "," ++ (if with_key then entry (js "hasOwnProperty") (js "1") ++ js "," else [])
  ++ entry (js "a") (nested 60) ++ js "}".
Fact depth_can_be_hidden :
  detected (validateJSONInput (hidden_depth false) 0 new_guard).1 = true ∧
  kind (validateJSONInput (hidden_depth false) 0 new_guard).1 = Some MALICIOUS_JSON ∧
  detected (validateJSONInput (hidden_depth true) 0 new_guard).1 = false.
Proof. vm_compute. done. Qed.

(** A key with the checksum of the expected one is not reported: these differ. *)
Fact tampering_can_be_missed :
  detected (validateKeyIntegrity (js "key-BB") (Some (DeviceGuard.simpleChecksum (js "key-Aa"))) 0 new_guard).1 = false.
Proof. vm_compute. done. Qed.

Fact injections_are_found :
  let found t := detected (detectCodeInjection t 0 new_guard).1 in
  found (js "EVAL  (x)") = true ∧ found (js "setTimeout(() => eval") = true ∧
  found (js "require( 'fs' )") = true ∧ found (js "my evaluation") = false ∧
  (* a sentence with such a word before a parenthesis *)
  found (js "the function (see below)") = true.
Proof. vm_compute. done. Qed.

(** ** The kept threats answer as all threats would *)

(** the threats since the last clearing, none dropped *)
Definition run_all (c : check) (now : Z) (blocked : bool) (log : list RASPThreatDetection) : list RASPThreatDetection :=
  match c with Clear => [] | _ => log ++ detectedThreats (run_check c now (mkGuard [] blocked)) end.

Fixpoint history (cs : list (check * Z)) (g : guard) (log : list RASPThreatDetection) : guard * list RASPThreatDetection :=
  match cs with
  | [] => (g, log)
  | (c, now) :: cs => history cs (run_check c now g) (run_all c now (evalBlocked g) log)
  end.

(** [g] keeps of [log] at least what is younger than five minutes at [now] *)
Definition fresh (now : Z) (l : list RASPThreatDetection) : list RASPThreatDetection :=
  List.filter (λ t, now - FIVE_MINUTES <? timestamp t) l.
Definition represents (now : Z) (g : guard) (log : list RASPThreatDetection) : Prop :=
  ∀ later, now ≤ later → fresh later (detectedThreats g) = fresh later log.

Lemma filter_filter_imp {A} (p q : A → bool) l :
  (∀ a, p a = true → q a = true) → List.filter p (List.filter q l) = List.filter p l.
Proof.
  intros H. induction l as [|a l IH]; simpl; [done|].
  destruct (q a) eqn:Q; simpl; rewrite IH; [done|]. destruct (p a) eqn:P; [|done]. by rewrite (H a P) in Q.
Qed.

Lemma fresh_app now l l' : fresh now (l ++ l') = fresh now l ++ fresh now l'.
Proof. apply List.filter_app. Qed.

Lemma fresh_fresh now later l : now ≤ later → fresh later (fresh now l) = fresh later l.
Proof. intros H. apply filter_filter_imp. intros t. rewrite !Z.ltb_lt. lia. Qed.

Lemma recorded now t g log :
  represents now g log → represents now (recordThreat now t g) (log ++ [t]).
Proof.
  intros H later Hl. unfold recordThreat. simpl. fold (fresh now (detectedThreats g ++ [t])).
  by rewrite fresh_fresh, !fresh_app, H.
Qed.

(** What a check adds to the empty list it adds, or nothing, to any other. *)
Lemma report_log k s m b now g log :
  represents now g log →
  represents now (report k s m b now g).2 (log ++ detectedThreats (report k s m b now (mkGuard [] (evalBlocked g))).2).
Proof.
  intros H. destruct b; simpl; [|by rewrite app_nil_r].
  rewrite (proj2 (Z.ltb_lt _ _)) by (simpl; unfold FIVE_MINUTES; lia).
  by apply recorded.
Qed.

Lemma run_represents c now g log :
  represents now g log →
  represents now (run_check c now g) (run_all c now (evalBlocked g) log) .
Proof.
  intros H. destruct c as [i|v|k h|i| | |]; simpl; try by apply report_log.
  - unfold validateJSONInput. destruct (json_parse i) as [v|]; [|by rewrite app_nil_r].
    pose proof (report_log PROTOTYPE_POLLUTION high_threat (js "Prototype pollution attempt detected") (pollution v) now g log H) as H1.
    unfold detectPrototypePollution. unfold report in *. destruct (pollution v); simpl in *; [done|].
    destruct (getMaxDepth v 0) as [d|]; [|by rewrite app_nil_r]. simpl.
    by apply (report_log MALICIOUS_JSON high_threat (js "Malicious JSON structure detected")).
  - by rewrite app_nil_r.
  - destruct (evalBlocked g); simpl; [|by rewrite app_nil_r].
    rewrite (proj2 (Z.ltb_lt _ _)) by (simpl; unfold FIVE_MINUTES; lia). by apply recorded.
  - done.
Qed.

Definition in_order (from : Z) (cs : list (check * Z)) : Prop :=
  Sorted.StronglySorted Z.le (from :: map snd cs).

Lemma history_represents cs from g log g' log' now :
  in_order from cs → Forall (λ c, c.2 ≤ now) cs → from ≤ now →
  represents from g log → history cs g log = (g', log') → represents now g' log'.
Proof.
  revert from g log. induction cs as [|[c t] cs IH]; intros from g log Hs Hn Hf H; simpl.
  - intros [= <- <-] later Hl. apply H. lia.
  - apply Sorted.StronglySorted_inv in Hs as [Hs Hle]. apply Forall_cons in Hn as [Ht Hn].
    apply Forall_cons in Hle as [Hle _]. apply (IH t); [done|done|done|].
    apply run_represents. intros later Hl. apply H. simpl in Hle. lia.
Qed.

Lemma fresh_window now l (p : RASPThreatDetection → bool) :
  (∀ t, p t = true → now - FIVE_MINUTES < timestamp t) →
  List.filter p (fresh now l) = List.filter p l.
Proof. intros H. apply filter_filter_imp. intros t Ht. apply Z.ltb_lt. auto. Qed.

(** Dropping what is older than five minutes is never seen: after any calls at
    times in order, an attack is in progress, and the history of at most five
    minutes is, exactly as over all threats since the last clearing. *)
Fact pruning_is_invisible cs now minutes g log :
  in_order 0 cs → Forall (λ c, c.2 ≤ now) cs → 0 ≤ now → minutes ≤ 5 →
  history cs new_guard [] = (g, log) →
  isAttackInProgress now g = isAttackInProgress now (mkGuard log false) ∧
  getThreatHistory minutes now g = getThreatHistory minutes now (mkGuard log false).
Proof.
  intros Hs Hn H0 Hm H.
  assert (R : fresh now (detectedThreats g) = fresh now log).
  { by apply (history_represents cs 0 new_guard [] g log now). }
  unfold isAttackInProgress, getThreatHistory. simpl. split.
  - rewrite <-(fresh_window now (detectedThreats g)), <-(fresh_window now log), R; [done|..].
    all: intros t; rewrite Z.ltb_lt; unfold threatTimeWindow, FIVE_MINUTES; lia.
  - rewrite <-(fresh_window now (detectedThreats g)), <-(fresh_window now log), R; [done|..].
    all: intros t; rewrite Z.ltb_lt; unfold FIVE_MINUTES; lia.
Qed.

(** A longer history depends on when the last threat came. *)
Fact longer_history_is_cut :
  let '(g, log) := history [(Injection (js "eval("), 0); (Pollution (JArr []), 400000)] new_guard [] in
  length (getThreatHistory 10 400001 g) = 1%nat ∧ length (getThreatHistory 10 400001 (mkGuard log false)) = 2%nat.
Proof. vm_compute. done. Qed.

(** One critical threat is an attack for a minute. *)
Fact critical_for_a_minute now later g :
  now ≤ later < now + threatTimeWindow → isAttackInProgress later (blocked_eval now g) = true.
Proof.
  intros H. unfold isAttackInProgress, blocked_eval, recordThreat. simpl.
  rewrite List.filter_app. simpl. rewrite (proj2 (Z.ltb_lt (now - FIVE_MINUTES) now)) by (unfold FIVE_MINUTES; lia).
  rewrite List.filter_app. simpl. rewrite (proj2 (Z.ltb_lt (later - now) _)) by lia.
  apply orb_true_iff. left. unfold count_of. rewrite List.filter_app, length_app. simpl. apply Nat.ltb_lt. lia.
Qed.
