(* ===== verification/SecurityLog.v ===== *)
(** * The log of security events: src/src/services/SecurityEventLogger.ts

    The events kept in memory, who is told of them, and what is asked of the log.
    [now] is the time of a call, [random] the random part of an identifier; a
    callback is a number, and telling it is the result of the call. *)

From stdpp Require Import strings.
From S2P Require Import Prelude JsString JsMap Json.
From S2P Require Backup.
#[local] Open Scope Z_scope.

Inductive SecurityEventType :=
  | AUTH_SUCCESS | AUTH_FAILED | AUTH_BLOCKED | PASSWORD_POLICY_VIOLATION | RATE_LIMIT_EXCEEDED | JAILBREAK_DETECTED
  | CERTIFICATE_VALIDATION_FAILED | CODE_INJECTION_ATTEMPT | KEY_ACCESS_DENIED | BIOMETRIC_FAILED | BIOMETRIC_ENROLLED
  | DEVICE_BINDING_FAILED | SUSPICIOUS_ACTIVITY | SECURITY_POLICY_VIOLATION | API_SECURITY_ERROR.
#[export] Instance event_type_eq_dec : EqDecision SecurityEventType.
Proof. solve_decision. Defined.
Inductive EventSeverity := info | warning | error | critical.
#[export] Instance event_severity_eq_dec : EqDecision EventSeverity.
Proof. solve_decision. Defined.

Definition type_name (t : SecurityEventType) : jstr :=
  match t with
  | AUTH_SUCCESS => js "AUTH_SUCCESS" | AUTH_FAILED => js "AUTH_FAILED" | AUTH_BLOCKED => js "AUTH_BLOCKED"
  | PASSWORD_POLICY_VIOLATION => js "PASSWORD_POLICY_VIOLATION" | RATE_LIMIT_EXCEEDED => js "RATE_LIMIT_EXCEEDED"
  | JAILBREAK_DETECTED => js "JAILBREAK_DETECTED" | CERTIFICATE_VALIDATION_FAILED => js "CERTIFICATE_VALIDATION_FAILED"
  | CODE_INJECTION_ATTEMPT => js "CODE_INJECTION_ATTEMPT" | KEY_ACCESS_DENIED => js "KEY_ACCESS_DENIED"
  | BIOMETRIC_FAILED => js "BIOMETRIC_FAILED" | BIOMETRIC_ENROLLED => js "BIOMETRIC_ENROLLED"
  | DEVICE_BINDING_FAILED => js "DEVICE_BINDING_FAILED" | SUSPICIOUS_ACTIVITY => js "SUSPICIOUS_ACTIVITY"
  | SECURITY_POLICY_VIOLATION => js "SECURITY_POLICY_VIOLATION" | API_SECURITY_ERROR => js "API_SECURITY_ERROR"
  end.
Definition severity_name (s : EventSeverity) : jstr :=
  match s with info => js "info" | warning => js "warning" | error => js "error" | critical => js "critical" end.

Definition fields : Type := list (jstr * json).
Record SecurityEvent := mkEvent {
  id : jstr; type : SecurityEventType; severity : EventSeverity; timestamp : Z;
  userId : option jstr; deviceId : option jstr; details : fields }.

Record logger := mkLogger { events : list SecurityEvent; eventCallbacks : list nat }.
Definition new_logger : logger := mkLogger [] [].
Definition maxStoredEvents : nat := 1000.

Definition generateEventId (now : Z) (random : jstr) : jstr := js "evt_" ++ dec_str now ++ js "_" ++ random.

(** the event joins the log, whose oldest entry leaves when it is too long *)
Definition push_event (e : SecurityEvent) (l : list SecurityEvent) : list SecurityEvent :=
  let l := l ++ [e] in if (maxStoredEvents <? length l)%nat then drop 1 l else l.

(** the event, the callbacks told of it in their order, and the logger *)
Definition logEvent (type : SecurityEventType) (severity : EventSeverity) (details : fields) (userId deviceId : option jstr)
    (now : Z) (random : jstr) (g : logger) : SecurityEvent * list nat * logger :=
  let e := mkEvent (generateEventId now random) type severity now userId deviceId details in
  (e, eventCallbacks g, mkLogger (push_event e (events g)) (eventCallbacks g)).

Definition str_prop (k : string) (s : jstr) : jstr * json := (js k, JStr s).
Definition at_time (now : Z) : jstr * json := (js "timestamp", JNum now).

(** the named events: their type, severity, details and whom they name *)
Definition shape : Type := SecurityEventType * EventSeverity * fields * option jstr.
Definition logAuthSuccess (userId method : jstr) (now : Z) : shape :=
  (AUTH_SUCCESS, info, [str_prop "method" method; at_time now], Some userId).
Definition logAuthFailure (userId reason : jstr) (now : Z) : shape :=
  (AUTH_FAILED, warning, [str_prop "reason" reason; at_time now], Some userId).
Definition logAuthBlocked (userId reason : jstr) (now : Z) : shape :=
  (AUTH_BLOCKED, error, [str_prop "reason" reason; str_prop "attemptCount" (js "multiple"); at_time now], Some userId).
Definition logPasswordViolation (userId violation : jstr) (now : Z) : shape :=
  (PASSWORD_POLICY_VIOLATION, warning, [str_prop "violation" violation; at_time now], Some userId).
Definition logJailbreakDetected (severity : jstr) (indicators : list jstr) (now : Z) : shape :=
  (JAILBREAK_DETECTED, critical, [str_prop "severity" severity; (js "indicators", JArr (map JStr indicators)); at_time now], None).
Definition logCertificateValidationFailure (host reason : jstr) (now : Z) : shape :=
  (CERTIFICATE_VALIDATION_FAILED, critical, [str_prop "host" host; str_prop "reason" reason; at_time now], None).
Definition logCodeInjectionAttempt (attempt : jstr) (source : option jstr) (now : Z) : shape :=
  (CODE_INJECTION_ATTEMPT, critical, str_prop "attempt" attempt :: opt_prop (js "source") (JStr <$> source) ++ [at_time now], None).
Definition logBiometricFailure (userId reason : jstr) (attempts : Z) (now : Z) : shape :=
  (BIOMETRIC_FAILED, if 3 <? attempts then error else warning,
   [str_prop "reason" reason; (js "attempts", JNum attempts); at_time now], Some userId).
(** the given details come between the activity and the time, and replace what they name *)
Definition logSuspiciousActivity (activity : jstr) (details : fields) (userId : option jstr) (now : Z) : shape :=
  (SUSPICIOUS_ACTIVITY, warning, mset (js "timestamp") (JNum now) (mrebuild details [str_prop "activity" activity]), userId).

Definition log_shape (s : shape) (deviceId : option jstr) (now : Z) (random : jstr) (g : logger) : SecurityEvent * list nat * logger :=
  let '(t, v, d, u) := s in logEvent t v d u deviceId now random g.

(** ** Asking the log *)

Definition getEvents (t : option SecurityEventType) (s : option EventSeverity) (hoursBack : Z) (now : Z) (g : logger) : list SecurityEvent :=
  let cutoff := now - hoursBack * 60 * 60 * 1000 in
  List.filter (λ e,
    if timestamp e <? cutoff then false
    else if match t with Some t => negb (bool_decide (type e = t)) | None => false end then false
    else if match s with Some s => negb (bool_decide (severity e = s)) | None => false end then false
    else true) (events g).

Definition count (summary : jsmap jstr Z) (e : SecurityEvent) : jsmap jstr Z :=
  mset (type_name (type e)) (default 0 (mget (type_name (type e)) summary) + 1) summary.
Definition getEventsSummary (hoursBack now : Z) (g : logger) : jsmap jstr Z :=
  fold_left count (getEvents None None hoursBack now g) [].
Definition getCriticalEvents : Z → Z → logger → list SecurityEvent := getEvents None (Some critical).

(** the callback, and its removal *)
Definition onSecurityEvent (callback : nat) (g : logger) : logger := mkLogger (events g) (eventCallbacks g ++ [callback]).
Definition unsubscribe (callback : nat) (g : logger) : logger :=
  mkLogger (events g) (List.filter (λ cb, negb (bool_decide (cb = callback))) (eventCallbacks g)).
Definition clearEvents (g : logger) : logger := mkLogger [] (eventCallbacks g).

(** ** Export *)

Definition event_json (e : SecurityEvent) : json :=
  JObj ([str_prop "id" (id e); str_prop "type" (type_name (type e)); str_prop "severity" (severity_name (severity e));
         (js "timestamp", JNum (timestamp e))] ++ opt_prop (js "userId") (JStr <$> userId e)
        ++ opt_prop (js "deviceId") (JStr <$> deviceId e) ++ [(js "details", JObj (details e))]).

Definition newline (depth : nat) : jstr := chr 10 :: repeat_char " " (2 * depth).
(** [JSON.stringify(v, null, 2)], inside [depth] brackets *)
Fixpoint indented (depth : nat) (v : json) : jstr :=
  match v with
  | JArr [] => js "[]"
  | JObj [] => js "{}"
  | JArr l => js "[" ++ newline (S depth) ++ join (js "," ++ newline (S depth)) (map (indented (S depth)) l) ++ newline depth ++ js "]"
  | JObj l =>
      js "{" ++ newline (S depth) ++ join (js "," ++ newline (S depth)) (map (λ kv, quote kv.1 ++ js ": " ++ indented (S depth) kv.2) l)
      ++ newline depth ++ js "}"
  | v => stringify v
  end.

Definition cell (s : jstr) : jstr := dq :: s ++ [dq].
Definition csv_headers : list jstr := [js "ID"; js "Type"; js "Severity"; js "Timestamp"; js "User"; js "Device"; js "Details"].
Definition csv_row (e : SecurityEvent) : list jstr :=
  [id e; type_name (type e); severity_name (severity e); Backup.toISOString (timestamp e);
   str_or (default [] (userId e)) (js "-"); str_or (default [] (deviceId e)) (js "-"); stringify (JObj (details e))].
Definition exportEvents (csv : bool) (g : logger) : jstr :=
  if csv then join [chr 10] (map (λ row, join (js ",") (map cell row)) (csv_headers :: map csv_row (events g)))
  else indented 0 (JArr (map event_json (events g))).

(** ** Properties *)

Inductive op := Log (s : shape) (device : option jstr) (now : Z) (random : jstr) | Clear | Subscribe (cb : nat) | Unsubscribe (cb : nat).
Definition run_op (o : op) (g : logger) : logger :=
  match o with
  | Log s d now r => (log_shape s d now r g).2
  | Clear => clearEvents g
  | Subscribe cb => onSecurityEvent cb g
  | Unsubscribe cb => unsubscribe cb g
  end.
(** what was logged since the last clearing *)
Definition logged (o : op) (l : list SecurityEvent) : list SecurityEvent :=
  match o with Log s d now r => l ++ [(log_shape s d now r new_logger).1.1] | Clear => [] | _ => l end.
Definition run_ops (os : list op) (g : logger) : logger := fold_left (λ g o, run_op o g) os g.
Definition all_logged (os : list op) : list SecurityEvent := fold_left (λ l o, logged o l) os [].

Lemma push_last e l l' : l = last_n maxStoredEvents l' → push_event e l = last_n maxStoredEvents (l' ++ [e]).
Proof.
  intros ->. unfold push_event. rewrite length_app, last_n_length. simpl length. unfold last_n. rewrite length_app. simpl length.
  destruct (Nat.le_gt_cases maxStoredEvents (length l')) as [H|H].
  - rewrite (proj2 (Nat.ltb_lt _ _)) by lia.
    rewrite <-drop_app_le by (rewrite ?length_app; simpl; lia). rewrite drop_drop. f_equal. lia.
  - rewrite (proj2 (Nat.ltb_ge _ _)) by lia. replace (length l' - maxStoredEvents)%nat with 0%nat by lia.
    by replace (length l' + 1 - maxStoredEvents)%nat with 0%nat by lia.
Qed.

(** The log keeps the last thousand events logged since it was cleared, in their
    order, whoever subscribes meanwhile. *)
Fact log_keeps_the_last_thousand os : events (run_ops os new_logger) = last_n maxStoredEvents (all_logged os).
Proof.
  unfold run_ops, all_logged. change (events new_logger) with (last_n maxStoredEvents (@nil SecurityEvent)).
  assert (G : ∀ g l, events g = last_n maxStoredEvents l →
    events (fold_left (λ g o, run_op o g) os g) = last_n maxStoredEvents (fold_left (λ l o, logged o l) os l)).
  { induction os as [|o os IH]; intros g l H; simpl; [done|]. apply IH.
    destruct o as [[[[t v] d] u] dev now r| | |]; simpl; [by apply push_last|done|done|done]. }
  by apply G.
Qed.

(** The summary counts each type: its entries add up to the events of the period. *)
Definition total (m : jsmap jstr Z) : Z := fold_left (λ a kv, a + kv.2) m 0.
Lemma total_from m a : fold_left (λ a kv, a + kv.2) m a = a + total m.
Proof.
  unfold total. revert a. induction m as [|[k v] m IH]; intros a; cbn [fold_left]; [lia|]. rewrite IH, (IH (0 + _)). lia.
Qed.
Lemma total_cons kv m : total (kv :: m) = kv.2 + total m.
Proof. unfold total at 1. cbn [fold_left]. rewrite total_from. lia. Qed.
Lemma total_set k v (m : jsmap jstr Z) : total (mset k v m) = total m - default 0 (mget k m) + v.
Proof.
  induction m as [|[k' v'] m IH]; [done|]. cbn [mset mget]. case_decide; rewrite !total_cons; simpl; lia.
Qed.
Fact summary_adds_up hours now g : total (getEventsSummary hours now g) = Z.of_nat (length (getEvents None None hours now g)).
Proof.
  unfold getEventsSummary. generalize (getEvents None None hours now g). intros l.
  enough (G : ∀ m, total (fold_left count l m) = total m + Z.of_nat (length l)) by apply (G []).
  induction l as [|e l IH]; intros m; simpl; [lia|]. rewrite IH. unfold count. rewrite total_set. lia.
Qed.

(** A callback subscribed twice is told twice, and one removal removes both. *)
Fact removed_at_once :
  let g := onSecurityEvent 7 (onSecurityEvent 7 new_logger) in
  (log_shape (logAuthSuccess (js "a") (js "pw") 0) None 0 [] g).1.2 = [7; 7]%nat ∧ eventCallbacks (unsubscribe 7 g) = [].
Proof. vm_compute. done. Qed.

(** Details replace the activity they are logged under. *)
Fact activity_is_replaced :
  details (log_shape (logSuspiciousActivity (js "probe") [str_prop "activity" (js "none")] None 5) None 5 [] new_logger).1.1
  = [str_prop "activity" (js "none"); at_time 5].
Proof. vm_compute. reflexivity. Qed.

(** A cell of the export is quoted, the quotes within it are not doubled: the last
    cell of every row breaks off before its first key. *)
Fact csv_quotes_are_not_escaped :
  let g := (log_shape (logAuthSuccess (js "a") (js "pw") 0) None 0 (js "x") new_logger).2 in
  endsWith (cell (js "{" ++ quote (js "method") ++ js ":" ++ quote (js "pw") ++ js "," ++ quote (js "timestamp") ++ js ":0}"))
    (exportEvents true g) = true.
Proof. vm_compute. reflexivity. Qed.

(** What is exported as JSON is read back as the events. *)
Fact an_export_is_read :
  let g := (log_shape (logAuthBlocked (js "a") (js "many") 9) (Some (js "d")) 9 (js "x")
             (log_shape (logJailbreakDetected (js "low") [js "su"; js "apt"] 3) None 3 (js "y") new_logger).2).2 in
  json_parse (exportEvents false g) = Some (JArr (map event_json (events g))).
Proof. vm_compute. reflexivity. Qed.
