(* ===== verification/DaoTab.v ===== *)
(** * Opening a DAO and claiming a domain: src/src/screens/sovswap/tabs/CreateDaoTab.tsx

    The form of a new organisation computes a distribution in JavaScript numbers
    and sends nothing; the form that claims a domain registers it over
    DomainService (Domains.v), paid from the primary wallet.  A press acts on the
    rendering it belongs to.  The pressing of OK in an alert is the answer of the
    alert. *)

From stdpp Require Import strings gmap.
From S2P Require Import Prelude JsString JsMap Json Async Outside Doubles.
From S2P Require Domains Balances BrowserAuth Quic.
#[local] Open Scope Z_scope.

Definition domain_char (c : ascii) : bool := is_lower c || is_digit c || bool_decide (c = "-"%char).
Definition sanitizeDomain (raw : jstr) : jstr := List.filter domain_char (toLowerCase raw).

(** ** The new organisation *)

Record TokenomicsTemplate := mkTemplate { t_id : jstr; supply : double; price : double; burn : double }.
(** a number literal [m / d] *)
Definition template (name : string) (s : Z) (p b : Z * Z) : TokenomicsTemplate :=
  mkTemplate (js name) (of_Z s) (of_ratio p.1 p.2) (of_ratio b.1 b.2).
Definition FOR_PROFIT_TEMPLATES : list TokenomicsTemplate :=
  [template "unicorn" 1000000000 (1, 100) (0, 1); template "balanced" 10000000 (1, 1) (0, 1);
   template "high-value" 100000 (100, 1) (0, 1); template "elephant" 1000000000000 (1, 1000000) (0, 1);
   template "deflationary" 50000000 (1, 2) (5, 2); template "network" 500000000 (5, 100) (1, 2)].
Definition NON_PROFIT_TEMPLATES : list TokenomicsTemplate :=
  [template "grassroots" 100000000 (0, 1) (0, 1); template "foundation" 1000000 (0, 1) (0, 1);
   template "council" 10000 (0, 1) (0, 1); template "global-fund" 10000000000 (0, 1) (0, 1);
   template "regenerative" 50000000 (0, 1) (3, 2); template "rapid-relief" 1000000000 (0, 1) (1, 10)].

Inductive WelfareSector := health | education | housing | food.
Definition suffix (s : WelfareSector) : jstr :=
  match s with health => js "heal" | education => js "edu" | housing => js "home" | food => js "food" end.

Record dao := mkDao {
  forProfit : bool; registerOfficial : bool; sector : option WelfareSector; daoDomain : jstr;
  templates : jstr; customMode : bool; customSupply : jstr; customPrice : jstr; customBurn : jstr }.
(** the effect on a change of the type *)
Definition type_effect (d : dao) : dao :=
  mkDao (forProfit d) (if forProfit d then false else registerOfficial d) (if forProfit d then None else sector d) (daoDomain d)
    (if forProfit d then js "balanced" else js "foundation") false (customSupply d) (customPrice d) (customBurn d).
Definition new_dao : dao := type_effect (mkDao true false None [] (js "balanced") false [] [] []).
Definition setType (p : bool) (d : dao) : dao :=
  if Bool.eqb p (forProfit d) then d
  else type_effect (mkDao p (registerOfficial d) (sector d) (daoDomain d) (templates d) (customMode d) (customSupply d) (customPrice d) (customBurn d)).
Definition toggleOfficial (d : dao) : dao :=
  mkDao (forProfit d) (negb (registerOfficial d)) (sector d) (daoDomain d) (templates d) (customMode d) (customSupply d) (customPrice d) (customBurn d).
Definition setSector (s : WelfareSector) (d : dao) : dao :=
  mkDao (forProfit d) (registerOfficial d) (Some s) (daoDomain d) (templates d) (customMode d) (customSupply d) (customPrice d) (customBurn d).
Definition typeDomain (t : jstr) (d : dao) : dao :=
  mkDao (forProfit d) (registerOfficial d) (sector d) (sanitizeDomain t) (templates d) (customMode d) (customSupply d) (customPrice d) (customBurn d).
Definition pickTemplate (id : jstr) (d : dao) : dao :=
  mkDao (forProfit d) (registerOfficial d) (sector d) (daoDomain d) id false (customSupply d) (customPrice d) (customBurn d).
Definition customise (b : bool) (s p u : jstr) (d : dao) : dao :=
  mkDao (forProfit d) (registerOfficial d) (sector d) (daoDomain d) (templates d) b s p u.

Definition templateList (d : dao) : list TokenomicsTemplate := if forProfit d then FOR_PROFIT_TEMPLATES else NON_PROFIT_TEMPLATES.
Definition activeTemplate (d : dao) : TokenomicsTemplate :=
  match List.find (λ t, bool_decide (t_id t = templates d)) (templateList d) with
  | Some t => t
  | None => List.hd (template "" 0 (0, 1) (0, 1)) (templateList d)
  end.
(** [parseFloat(text) || 0] *)
Definition number_or_0 (text : jstr) : double := match parseFloat text with NaN => zero | x => x end.
Definition supply_of (d : dao) : double := if customMode d then number_or_0 (customSupply d) else supply (activeTemplate d).
Definition price_of (d : dao) : double := if customMode d then number_or_0 (customPrice d) else price (activeTemplate d).
Definition burn_of (d : dao) : double := if customMode d then number_or_0 (customBurn d) else burn (activeTemplate d).
Definition daoAlloc (d : dao) : double := if forProfit d then mul (supply_of d) (of_ratio 8 10) else zero.
Definition treasuryAlloc (d : dao) : double := if forProfit d then mul (supply_of d) (of_ratio 2 10) else supply_of d.
Definition marketCap (d : dao) : double := if forProfit d then mul (supply_of d) (price_of d) else zero.

Definition domainSuffix (d : dao) : jstr :=
  match sector d with
  | Some s => if negb (forProfit d) && registerOfficial d then js "." ++ suffix s ++ js ".sov" else js ".sov"
  | None => js ".sov"
  end.
Definition fullDomain (d : dao) : jstr := str_or (sanitizeDomain (daoDomain d)) (js "my-dao") ++ domainSuffix d.

(** the alert of the button, and whether pressing OK goes back *)
Definition handleSubmit (name tokenSymbol : jstr) (d : dao) : jstr * jstr * bool :=
  if negb (truthy (trim name)) then (js "Missing info", js "Please enter an organisation name.", false)
  else (js "DAO charter filed", name ++ js " has been registered with token $" ++ str_or tokenSymbol (js "NEW") ++ js " at "
          ++ fullDomain d ++ js ".", true).

(** ** Claiming a domain *)

Definition DOMAIN_REGISTRATION_FEE_SOV : Z := 100.

Record form := mkClaim { domain : jstr; assetId : jstr; submitting : bool; left_ : bool; cachedTokens : Domains.registry }.
Definition opened (tokens : Domains.registry) : form := mkClaim [] [] false false tokens.
Definition setDomain t s := mkClaim (sanitizeDomain t) (assetId s) (submitting s) (left_ s) (cachedTokens s).
Definition setAssetId t s := mkClaim (domain s) t (submitting s) (left_ s) (cachedTokens s).
Definition setSubmitting b s := mkClaim (domain s) (assetId s) b (left_ s) (cachedTokens s).
Definition onBack s := mkClaim (domain s) (assetId s) (submitting s) true (cachedTokens s).
Definition setCachedTokens c s := mkClaim (domain s) (assetId s) (submitting s) (left_ s) c.

#[local] Abbreviation prog := (Outside.prog form).

Definition label (v : form) : jstr := sanitizeDomain (domain v).
Definition claimed_domain (v : form) : jstr := if truthy (label v) then label v ++ js ".sov" else js "my-org.sov".
Definition assetIdNorm (v : form) : jstr :=
  let a := assetId v in toLowerCase (trim (if startsWith (js "0x") (toLowerCase a) then drop 2 a else a)).
(** [/^[0-9a-f]{64}$/] *)
Definition hex64 (s : jstr) : bool := (length s =? 64)%nat && forallb (λ c, is_digit c || in_range 97 102 c) s.
Definition assetIdOk (v : form) : bool := (length (assetIdNorm v) =? 0)%nat || hex64 (assetIdNorm v).

Definition request (v : form) (wallet : jstr) : Domains.DomainRegisterRequest :=
  Domains.mkRegister (claimed_domain v) (Some wallet)
    (if (length (assetIdNorm v) =? 64)%nat then Some (assetIdNorm v) else None)
    (Some (JObj [(js "/", JObj [(js "content", JStr (js "<html><body>" ++ claimed_domain v ++ js "</body></html>"));
                                (js "content_type", JStr (js "text/html"))])])).

Definition say (title body : jstr) : prog unit := void (call (alert title body []);; ret tt).
(** pressing OK goes back *)
Definition say_and_leave (title body : jstr) : prog unit := void (call (alert title body [js "OK"]);; modify onBack).

Definition refusal (v : form) (wallet : option Balances.WalletDisplay) : option (jstr * jstr) :=
  if negb (truthy (label v)) then Some (js "Missing domain", js "Enter a domain label (e.g. my-dao).")
  else if negb (assetIdOk v)
  then Some (js "Invalid asset id", js "asset_id must be 64 hex characters (native 32-byte id, no 0x required).")
  else match wallet with
    | Some w =>
        if negb (length (Balances.id w) =? 64)%nat
        then Some (js "Wallet required", js "Primary wallet not found - unlock identity to pay the registration fee.")
        else if gt (of_Z DOMAIN_REGISTRATION_FEE_SOV) (Balances.total_balance w)
        then Some (js "Insufficient SOV", js "Need " ++ dec_str DOMAIN_REGISTRATION_FEE_SOV ++ js " SOV to claim a domain.")
        else None
    | None => Some (js "Wallet required", js "Primary wallet not found - unlock identity to pay the registration fee.")
    end.

Section Claim.
Context (nativeModule : option (jstr → bool)).

Definition claim (v : form) (wallet : jstr) : prog unit :=
  response ← await (lift cachedTokens setCachedTokens (Domains.registerDomain nativeModule (request v wallet)));
  name ← dot response (js "domain");
  say_and_leave (js "Domain claimed")
    (match name with Some n => js_String n | None => js "undefined" end ++ js " registered."
     ++ (if (length (assetIdNorm v) =? 64)%nat then chr 10 :: js "Bound asset_id: " ++ assetIdNorm v else [])
     ++ chr 10 :: js "Fee: " ++ dec_str DOMAIN_REGISTRATION_FEE_SOV ++ js " SOV.").
Definition LAUNCH_STAYS : jstr :=
  [chr 10; chr 10] ++ js "If you already launched a DAO, that launch remains valid. You can retry with the same or a different name.".

Definition submit (v : form) (wallet : option Balances.WalletDisplay) : prog unit :=
  match refusal v wallet, wallet with
  | Some (title, body), _ => say title body
  | None, None => ret tt
  | None, Some w =>
      modify (setSubmitting true);;
      try_finally
        (try_catch (claim v (Balances.id w)) (λ e, say (js "Domain claim failed") (message e ++ LAUNCH_STAYS)))
        (modify (setSubmitting false))
  end.

Inductive action := Name (t : jstr) | Asset (t : jstr) | Submit (v : form) (wallet : option Balances.WalletDisplay) | Back.
Definition handler (a : action) : prog unit :=
  match a with
  | Name t => modify (setDomain t)
  | Asset t => modify (setAssetId t)
  | Submit v wallet => if submitting v then ret tt else submit v wallet
  | Back => modify onBack
  end.
End Claim.

(** * Properties *)

Lemma sanitized s : Forall (λ c, domain_char c = true) (sanitizeDomain s).
Proof. apply List.Forall_forall. intros c H. by apply List.filter_In in H as [_ H]. Qed.
Lemma domain_char_lower c : domain_char c = true → lower_char c = c.
Proof.
  intros H. destruct c as [b0 b1 b2 b3 b4 b5 b6 b7].
  destruct b0, b1, b2, b3, b4, b5, b6, b7; try reflexivity; by vm_compute in H.
Qed.
Lemma sanitize_id s : Forall (λ c, domain_char c = true) s → sanitizeDomain s = s.
Proof.
  unfold sanitizeDomain, toLowerCase. induction 1 as [|c s H _ IH]; simpl; [done|].
  by rewrite domain_char_lower, H, IH.
Qed.

(** ** The new organisation *)

(** The shares of a template add up to its supply; those of other numbers may not. *)
Fact template_shares_add_up :
  Forall (λ t, let d := pickTemplate (t_id t) new_dao in
    supply_of d = supply t ∧ add (daoAlloc d) (treasuryAlloc d) = supply t ∧ marketCap d = mul (supply t) (price t)) FOR_PROFIT_TEMPLATES.
Proof. repeat apply List.Forall_cons; try apply List.Forall_nil; vm_compute; by repeat split. Qed.
Fact custom_shares_do_not_add_up :
  let d := customise true (js "3") (js "1") [] new_dao in
  supply_of d = of_Z 3 ∧ gt (add (daoAlloc d) (treasuryAlloc d)) (supply_of d) = true.
Proof. vm_compute. done. Qed.

(** The bounds written above the fields are not enforced. *)
Fact bounds_are_not_enforced :
  let d := customise true (js "-5") (js "1") (js "250") new_dao in
  supply_of d = of_Z (-5) ∧ burn_of d = of_Z 250 ∧ (handleSubmit (js "Coop") [] d).2 = true.
Proof. vm_compute. done. Qed.

(** A template of the other type is not active: the first of the list is. *)
Fact type_resets_the_template d p :
  p ≠ forProfit d →
  customMode (setType p d) = false ∧
  t_id (activeTemplate (setType p d)) = (if p then js "balanced" else js "foundation") ∧
  (p = true → domainSuffix (setType p d) = js ".sov").
Proof. intros H. unfold setType. destruct p, (forProfit d) eqn:E; try done; simpl; vm_compute; done. Qed.

(** ** The claim *)

Definition typed (s : form) : Prop := Forall (λ c, domain_char c = true) (domain s).

Lemma keeps_claim_handler nativeModule a : Outside.keeps typed (handler nativeModule a).
Proof.
  destruct a as [t|t|v wallet|]; simpl.
  - apply keeps_modify. intros s _. apply sanitized.
  - by apply keeps_modify.
  - destruct (submitting v); [apply keeps_ret|]. unfold submit, say, claim, say_and_leave, dot.
    destruct (refusal v wallet) as [[title body]|]; [keeps_through|]. destruct wallet; keeps_through.
    all: intros H; exact H.
  - by apply keeps_modify.
Qed.

(** What a registration asks (Domains.v), for the request of a form. *)
Definition claims (nativeModule : option (jstr → bool)) (v : form) (wallet : jstr) (tr : list event) : Prop :=
  ∃ r, trace obs (Domains.registerDomain nativeModule (request v wallet)) tr r ∧
       Domains.registration (request v wallet) tr r.

Section Laws.
Context (nativeModule : option (jstr → bool)).

Lemma say_trace title body tr r : trace obs (say title body) tr r → tr = [] ∧ r = inr tt.
Proof. intros (n & H). by apply trace_ret in H. Qed.

Lemma domain_claim_trace v wallet tr r : trace obs (claim nativeModule v wallet) tr r → claims nativeModule v wallet tr.
Proof.
  unfold claim, mbind, outside_bind. intros H.
  assert (∀ tr r, trace obs (Domains.registerDomain nativeModule (request v wallet)) tr r → claims nativeModule v wallet tr) as G.
  { intros t r' H'. exists r'. split; [done|]. by apply Domains.domain_fee_signed_first in H'. }
  apply trace_bind in H as [(e & H & ->)|(response & t1 & t2 & -> & H1 & H2)].
  { rewrite trace_await in H. apply trace_lift in H. by eapply G. }
  rewrite trace_await in H1. apply trace_lift in H1.
  assert (t2 = []) as ->; [|rewrite app_nil_r; by eapply G].
  apply trace_bind in H2 as [(e & H & ->)|(name & t3 & t4 & -> & H & H2)]; [by apply trace_dot in H as [-> _]|].
  apply trace_dot in H as [-> _]. by destruct H2 as (n & -> & _).
Qed.

Lemma submit_trace v wallet tr r :
  trace obs (submit nativeModule v wallet) tr r →
  r = inr tt ∧ (tr = [] ∨ ∃ w, wallet = Some w ∧ refusal v wallet = None ∧ claims nativeModule v (Balances.id w) tr).
Proof.
  unfold submit. destruct (refusal v wallet) as [[title body]|] eqn:E; [intros [-> ->]%say_trace; auto|].
  destruct wallet as [w|]; [|intros [-> ->]%trace_ret; auto].
  unfold mbind, outside_bind. intros H. apply trace_after_modify in H.
  assert (trace obs (try_catch (claim nativeModule v (Balances.id w)) (λ e, say (js "Domain claim failed") (message e ++ LAUNCH_STAYS))) tr r) as H' by by apply trace_finally_set in H.
  apply trace_try_catch in H' as [([] & -> & H')|(e & t1 & t2 & -> & H1 & H2)].
  - split; [done|]. right. exists w. split; [done|]. split; [done|]. by eapply domain_claim_trace.
  - apply say_trace in H2 as [-> ->]. rewrite app_nil_r. split; [done|]. right.
    exists w. split; [done|]. split; [done|]. by eapply domain_claim_trace.
Qed.

Lemma accepted v wallet w :
  refusal v wallet = None → wallet = Some w →
  label v ≠ [] ∧ assetIdOk v = true ∧ length (Balances.id w) = 64%nat ∧
  gt (of_Z DOMAIN_REGISTRATION_FEE_SOV) (Balances.total_balance w) = false.
Proof.
  unfold refusal. intros H ->. destruct (truthy (label v)) eqn:E1; [|done]. apply truthy_true in E1.
  destruct (assetIdOk v); [|done]. destruct (length (Balances.id w) =? 64)%nat eqn:E2; [|done]. apply Nat.eqb_eq in E2.
  by destruct (gt _ _).
Qed.

Lemma request_domain v wallet : Domains.domain (request v wallet) = claimed_domain v.
Proof. reflexivity. Qed.
Lemma request_asset v wallet :
  Domains.asset_id (request v wallet) = if (length (assetIdNorm v) =? 64)%nat then Some (assetIdNorm v) else None.
Proof. reflexivity. Qed.
Lemma asset_cases v :
  assetIdOk v = true →
  let asset := if (length (assetIdNorm v) =? 64)%nat then Some (assetIdNorm v) else None in
  assetIdNorm v = [] ∧ asset = None ∨ hex64 (assetIdNorm v) = true ∧ asset = Some (assetIdNorm v).
Proof.
  unfold assetIdOk. generalize (assetIdNorm v) as a. intros a [H|H]%orb_true_iff.
  - apply Nat.eqb_eq, length_zero_iff_nil in H as ->. by left.
  - right. split; [done|]. unfold hex64 in H. apply andb_true_iff in H as [H _]. by rewrite H.
Qed.

(** Whatever was typed, pressed and answered in any order: a press asks nothing, or
    it makes one registration, signed and posted once, of the name that is shown,
    paid from a primary wallet whose shown balance covers the fee, and bound to the
    typed asset when there is one. *)
Fact claims_the_shown_domain tokens w v wallet tr r :
  rtc (Async.step (λ e, bind (handler nativeModule e) (λ _, ret [])) (λ _ _, False) (λ _ _ _, True))
    (mkWorld (opened tokens) 0 []) w →
  v = ws w → trace obs (submit nativeModule v wallet) tr r →
  r = inr tt ∧
  (tr = [] ∨ ∃ p, wallet = Some p ∧ domain v ≠ [] ∧ Domains.domain (request v (Balances.id p)) = domain v ++ js ".sov" ∧
     length (Balances.id p) = 64%nat ∧ gt (of_Z DOMAIN_REGISTRATION_FEE_SOV) (Balances.total_balance p) = false ∧
     (assetIdNorm v = [] ∧ Domains.asset_id (request v (Balances.id p)) = None ∨
      hex64 (assetIdNorm v) = true ∧ Domains.asset_id (request v (Balances.id p)) = Some (assetIdNorm v)) ∧
     claims nativeModule v (Balances.id p) tr).
Proof.
  intros Hw -> H. assert (typed (ws w)) as Ht.
  { eapply keeps_reachable; [apply keeps_claim_handler|..|exact Hw]; [done|constructor|done]. }
  apply submit_trace in H as [-> [->|(p & -> & Hr & Hc)]]; [auto|]. split; [done|]. right. exists p.
  destruct (accepted _ _ _ Hr eq_refl) as (Hl & Ha & Hi & Hb).
  unfold label in Hl. rewrite sanitize_id in Hl by done.
  split; [done|]. split; [done|]. split.
  { rewrite request_domain. unfold claimed_domain, label. rewrite sanitize_id by done. by rewrite (proj2 (truthy_true _)). }
  split; [done|]. split; [done|]. split; [|done].
  rewrite request_asset. by apply asset_cases.
Qed.
End Laws.

(** The name is not checked as that of a registration is: a hyphen alone is claimed. *)
Fact hyphen_is_claimed w :
  Balances.id w = repeat_char "a" 64 → Balances.total_balance w = of_Z 100 →
  refusal (setDomain (js "-") (opened None)) (Some w) = None.
Proof.
  intros Hi Hb. unfold refusal. rewrite Hi, Hb. vm_compute. reflexivity.
Qed.
