(* ===== verification/BublRewards.v ===== *)
(** * The rewards ledger: src/src/screens/messaging/BublRewardsScreen.tsx

    Three reads on opening, further pages of the history by cursor, a refresh and a
    claim by hand, over the client of Rewards.v.  Requests that are made together
    are made in their order, and the first failure in that order is the one that is
    thrown.  The node is taken to answer lists where the code reads lists; the
    ellipsis of a shortened DID is written as three dots. *)

From stdpp Require Import strings.
From S2P Require Import Prelude JsString Json Async Outside.
From S2P Require Rewards.
#[local] Open Scope Z_scope.

Definition HISTORY_PAGE : Z := 50.
Inductive Phase := Loading | Ready | Unavailable.
#[export] Instance phase_eq_dec : EqDecision Phase.
Proof. solve_decision. Defined.

Record screen := mkScreen {
  phase : Phase; refreshing : bool; balance : option json; status : option json; events : list json;
  cursor : option jstr; hasMore : bool; loadingMore : bool; claiming : option Rewards.RewardEvent }.
Definition opened : screen := mkScreen Loading false None None [] None false false None.
Definition setPhase p s := mkScreen p (refreshing s) (balance s) (status s) (events s) (cursor s) (hasMore s) (loadingMore s) (claiming s).
Definition setRefreshing b s := mkScreen (phase s) b (balance s) (status s) (events s) (cursor s) (hasMore s) (loadingMore s) (claiming s).
Definition setAnswers b t s := mkScreen (phase s) (refreshing s) (Some b) (Some t) (events s) (cursor s) (hasMore s) (loadingMore s) (claiming s).
Definition setPage l c m s := mkScreen (phase s) (refreshing s) (balance s) (status s) l c m (loadingMore s) (claiming s).
Definition setLoadingMore b s := mkScreen (phase s) (refreshing s) (balance s) (status s) (events s) (cursor s) (hasMore s) b (claiming s).
Definition setClaiming c s := mkScreen (phase s) (refreshing s) (balance s) (status s) (events s) (cursor s) (hasMore s) (loadingMore s) c.

#[local] Abbreviation prog := (Outside.prog screen).

Definition attempt {A} (t : prog A) : prog (error + A) := bindR t (λ r, ret r).
Definition settle {A} (r : error + A) : prog A := match r with inl e => throw e | inr a => ret a end.

Definition page_events (h : json) : list json := match jget (js "events") h with Some (JArr l) => l | _ => [] end.
Definition next_cursor (h : json) : option jstr := str_field (js "next_cursor") h.
Definition has_more (h : json) : bool := otruthy (jget (js "has_more") h).
(** reading a field of the page throws when it is [null] *)
Definition page (h : json) : prog json := match h with JNull => throw TypeError | _ => ret h end.

Definition load (did : option jstr) : prog unit :=
  match did with
  | None | Some [] => modify (setPhase Unavailable)
  | Some did =>
      try_catch
        (b ← attempt (call (Rewards.getRewardsBalance did));
         s ← attempt (call (Rewards.getRewardsStatus did));
         h ← attempt (call (Rewards.getRewardsHistory did (Some HISTORY_PAGE) None));
         b ← settle b; s ← settle s; h ← settle h;
         modify (setAnswers b s);;
         h ← page h;
         modify (setPage (page_events h) (next_cursor h) (has_more h));;
         modify (setPhase Ready))
        (λ _, modify (setPhase Unavailable))
  end.

Definition onRefresh (did : option jstr) : prog unit :=
  modify (setRefreshing true);; await (load did);; modify (setRefreshing false).
Definition onRetry (did : option jstr) : prog unit := modify (setPhase Loading);; load did.

(** [v] is the rendering of the press *)
Definition onLoadMore (did : option jstr) (v : screen) : prog unit :=
  match did, cursor v with
  | Some (c :: d), Some (c' :: cur) =>
      if loadingMore v then ret tt
      else
        modify (setLoadingMore true);;
        try_finally
          (try_catch
             (h ← call (Rewards.getRewardsHistory (c :: d) (Some HISTORY_PAGE) (Some (c' :: cur)));
              h ← page h;
              modify (λ s, setPage (events s ++ page_events h) (next_cursor h) (has_more h) s))
             (λ _, ret tt))
          (modify (setLoadingMore false))
  | _, _ => ret tt
  end.

Definition onClaim (did : option jstr) (v : screen) (event : Rewards.RewardEvent) : prog unit :=
  match did, claiming v with
  | Some (c :: d), None =>
      modify (setClaiming (Some event));;
      try_finally
        (try_catch
           (result ← call (Rewards.claimReward (c :: d) event);
            _ ← settle (Rewards.claimSkipMessage result);
            b ← attempt (call (Rewards.getRewardsBalance (c :: d)));
            s ← attempt (call (Rewards.getRewardsStatus (c :: d)));
            b ← settle b; s ← settle s;
            modify (setAnswers b s))
           (λ e, if Rewards.isRewardsUnavailable e then modify (setPhase Unavailable) else ret tt))
        (modify (setClaiming None))
  | _, _ => ret tt
  end.

Inductive action := Open (did : option jstr) | Refresh (did : option jstr) | Retry (did : option jstr)
  | LoadMore (did : option jstr) (v : screen) | Claim (did : option jstr) (v : screen) (event : Rewards.RewardEvent).
Definition handler (a : action) : prog unit :=
  match a with
  | Open did => load did
  | Refresh did => onRefresh did
  | Retry did => onRetry did
  | LoadMore did v => onLoadMore did v
  | Claim did v event => onClaim did v event
  end.

(** ** The rows *)

Definition shortDid (did : jstr) : jstr :=
  let tail := if startsWith (js "did:zhtp:") did then drop 9 did else did in
  if (length tail <=? 12)%nat then did else slice 0 4 tail ++ js "..." ++ slice_from (-4) tail.

Definition meta_field (k : string) (ev : json) : option json :=
  match jget (js "meta") ev with Some m => match jget (js k) m with Some w => if jtruthy w then Some w else None | None => None end | None => None end.
Definition detailFor (ev : json) : jstr :=
  let event := str_field (js "event") ev in
  if bool_decide (event = Some (js "welcome")) then js "Joined the Sovereign Network"
  else if bool_decide (event = Some (js "daily_checkin")) then
    match meta_field "streak_day" ev with Some d => js "Day " ++ js_String d ++ js " streak" | None => js "Checked in" end
  else if bool_decide (event = Some (js "active_session")) then js "Active today"
  else if bool_decide (event = Some (js "new_partner")) then
    match meta_field "peer_did" ev with Some d => js "Chatted with " ++ shortDid (js_String d) | None => js "New chat partner" end
  else [].

(** * Properties *)

(** A short DID keeps the ends of the long one, and is shorter. *)
Fact short_did_is_short did :
  shortDid did = did ∨
  length (shortDid did) = 11%nat ∧ (12 < length did)%nat.
Proof.
  unfold shortDid. set (tail := if startsWith _ did then drop 9 did else did).
  destruct (Nat.leb_spec (length tail) 12) as [H|H]; [by left|]. right.
  assert (length tail ≤ length did)%nat by (subst tail; destruct (startsWith _ did); rewrite ?length_drop; lia).
  rewrite slice_0 by lia. change (-4) with (- Z.of_nat 4). rewrite slice_from_neg, !length_app, length_take, last_n_length.
  change (length (js "...")) with 3%nat. change (Z.to_nat 4) with 4%nat. lia.
Qed.

(** ** Paging

    A node that keeps a history in pages: the answer to the cursor of a page is
    that page, with the cursor of the next one. *)
Section Paging.
Context {D : Type} (handle : ∀ R : Set, req R → D → (error + R) * D) (did : jstr).
Context (pages : list (list json)) (cursor_of : nat → jstr).
Hypothesis did_given : did ≠ [].
Hypothesis cursor_given : ∀ k, cursor_of k ≠ [].
(** the page with number [k], and its answer *)
Definition answer (k : nat) : json :=
  JObj ([(js "events", JArr (nth k pages [])); (js "has_more", JBool (S k <? length pages)%nat)] ++
        if (S k <? length pages)%nat then [(js "next_cursor", JStr (cursor_of (S k)))] else []).
Hypothesis first_page : ∀ d, (handle _ (Rewards.getRewardsHistory did (Some HISTORY_PAGE) None) d).1 = inr (answer 0).
Hypothesis later_page : ∀ k d, (handle _ (Rewards.getRewardsHistory did (Some HISTORY_PAGE) (Some (cursor_of (S k)))) d).1 = inr (answer (S k)).
Hypothesis balance_read : ∀ d, ∃ b, (handle _ (Rewards.getRewardsBalance did) d).1 = inr b.
Hypothesis status_read : ∀ d, ∃ b, (handle _ (Rewards.getRewardsStatus did) d).1 = inr b.

(** page [k] is the last one shown *)
Definition shows (k : nat) (s : screen) : Prop :=
  events s = concat (take (S k) pages) ∧ loadingMore s = false ∧ phase s = Ready ∧
  hasMore s = (S k <? length pages)%nat ∧
  cursor s = (if (S k <? length pages)%nat then Some (cursor_of (S k)) else None).

Fixpoint press_more (n : nat) : prog unit :=
  match n with O => ret tt | S n => v ← gets (λ s, s); onLoadMore (Some did) v;; press_more n end.

Lemma answer_read k :
  page_events (answer k) = nth k pages [] ∧ has_more (answer k) = (S k <? length pages)%nat ∧
  next_cursor (answer k) = (if (S k <? length pages)%nat then Some (cursor_of (S k)) else None).
Proof. unfold answer. by destruct (S k <? length pages)%nat. Qed.

Lemma load_shows s d :
  loadingMore s = false → pages ≠ [] → ∃ s' d', solo handle (load (Some did)) s d = Some (inr tt, s', d') ∧ shows 0 s'.
Proof.
  intros Hl Hp. unfold load. destruct did as [|c r] eqn:E; [done|]. rewrite <-E in *.
  unfold mbind, outside_bind, attempt. rewrite solo_try_catch, solo_bind, solo_bindR, solo_call.
  destruct (balance_read d) as [b Hb]. rewrite Hb, solo_ret, solo_bind, solo_bindR, solo_call.
  set (d1 := (handle _ _ d).2). destruct (status_read d1) as [t Ht]. rewrite Ht, solo_ret, solo_bind, solo_bindR, solo_call.
  set (d2 := (handle _ _ d1).2). rewrite first_page. cbn -[shows answer]. do 2 eexists. split; [reflexivity|].
  destruct (answer_read 0) as (A1 & A2 & A3). unfold shows. cbn -[answer]. rewrite A1, A2, A3.
  split; [|done]. destruct pages; [done|]. simpl. by rewrite app_nil_r.
Qed.

Lemma more_shows k s d :
  shows k s → (S k < length pages)%nat →
  ∃ s' d', solo handle (onLoadMore (Some did) s) s d = Some (inr tt, s', d') ∧ shows (S k) s'.
Proof.
  intros (He & Hl & Hr & Hm & Hc) Hk. unfold onLoadMore. destruct did as [|c r] eqn:E; [done|]. rewrite <-E in *.
  rewrite Hc, Hl, (proj2 (Nat.ltb_lt _ _)) by done. pose proof (cursor_given (S k)) as Hg.
  destruct (cursor_of (S k)) as [|c' u] eqn:Ec; [done|]. rewrite <-Ec.
  unfold mbind, outside_bind. rewrite solo_bind, solo_modify, solo_try_finally, solo_try_catch, solo_bind, solo_call, later_page.
  cbn -[shows answer]. do 2 eexists. split; [reflexivity|].
  destruct (answer_read (S k)) as (A1 & A2 & A3). unfold shows. cbn -[answer take]. rewrite A1, A2, A3, He.
  split; [|done]. destruct (lookup_lt_is_Some_2 pages (S k) Hk) as [p Hp].
  rewrite (take_S_r _ _ _ Hp), concat_app. simpl. by rewrite app_nil_r, (nth_lookup_Some _ _ _ _ Hp).
Qed.

Lemma more_stops k s d :
  shows k s → (length pages ≤ S k)%nat → solo handle (onLoadMore (Some did) s) s d = Some (inr tt, s, d).
Proof.
  intros (_ & _ & _ & _ & Hc) Hk. unfold onLoadMore. rewrite Hc, (proj2 (Nat.ltb_ge _ _)) by done. by destruct did.
Qed.

Lemma press_shows n k s d :
  shows k s → (k < length pages)%nat →
  ∃ s' d', solo handle (press_more n) s d = Some (inr tt, s', d') ∧ shows (Nat.min (k + n) (length pages - 1)) s'.
Proof.
  revert k s d. induction n as [|n IH]; intros k s d Hs Hk.
  { exists s, d. split; [done|]. by replace (Nat.min (k + 0) (length pages - 1)) with k by lia. }
  cbn [press_more]. unfold mbind, outside_bind. rewrite solo_bind, solo_gets, solo_bind.
  destruct (Nat.lt_ge_cases (S k) (length pages)) as [H|H].
  - destruct (more_shows k s d Hs H) as (s1 & d1 & -> & H1). destruct (IH (S k) s1 d1 H1 H) as (s2 & d2 & H2 & H3).
    exists s2, d2. split; [done|]. by replace (k + S n)%nat with (S k + n)%nat by lia.
  - rewrite (more_stops k s d Hs H). destruct (IH k s d Hs Hk) as (s2 & d2 & H2 & H3).
    exists s2, d2. split; [done|]. by replace (Nat.min (k + S n) (length pages - 1)) with (Nat.min (k + n) (length pages - 1)) by lia.
Qed.
End Paging.

(** The screen opened and the button pressed [n] times, each after the last answer:
    it shows the first pages of the history in their order, each once; after as many
    presses as there are further pages it shows all of it and offers no more, and
    further presses ask nothing. *)
Fact ledger_is_read_in_order {D : Type} (handle : ∀ R : Set, req R → D → (error + R) * D) (did : jstr) pages cursor_of n d :
  did ≠ [] → pages ≠ [] → (∀ k, cursor_of k ≠ []) →
  (∀ d, (handle _ (Rewards.getRewardsHistory did (Some HISTORY_PAGE) None) d).1 = inr (answer pages cursor_of 0)) →
  (∀ k d, (handle _ (Rewards.getRewardsHistory did (Some HISTORY_PAGE) (Some (cursor_of (S k)))) d).1 = inr (answer pages cursor_of (S k))) →
  (∀ d, ∃ b, (handle _ (Rewards.getRewardsBalance did) d).1 = inr b) →
  (∀ d, ∃ b, (handle _ (Rewards.getRewardsStatus did) d).1 = inr b) →
  ∃ s d', solo handle (load (Some did);; press_more did n) opened d = Some (inr tt, s, d') ∧
    events s = concat (take (S n) pages) ∧ hasMore s = (S n <? length pages)%nat.
Proof.
  intros Hd Hp Hc H1 H2 H3 H4. unfold mbind, outside_bind. rewrite solo_bind.
  destruct (load_shows handle did pages cursor_of Hd H1 H2 H3 H4 opened d eq_refl Hp) as (s1 & d1 & -> & Hs).
  destruct (press_shows handle did pages cursor_of Hd Hc H1 H2 H3 H4 n 0 s1 d1 Hs) as (s2 & d2 & E & Hs2).
  { destruct pages; [done|]. simpl. lia. }
  exists s2, d2. split; [done|]. destruct Hs2 as (-> & _ & _ & -> & _).
  assert (0 < length pages)%nat by (destruct pages; [done|simpl; lia]).
  destruct (Nat.lt_ge_cases n (length pages)) as [Hn|Hn].
  - by replace (Nat.min (0 + n) (length pages - 1)) with n by lia.
  - replace (Nat.min (0 + n) (length pages - 1)) with (length pages - 1)%nat by lia. split.
    + by rewrite !take_ge by lia.
    + destruct (Nat.ltb_spec (S (length pages - 1)) (length pages)), (Nat.ltb_spec (S n) (length pages)); lia || done.
Qed.

(** ** Interleavings *)

(** a node that answers everything about the identity the request names; the name is
    in what it answers *)
Definition about (did : jstr) : json :=
  JObj [(js "did", JStr did); (js "events", JArr [JStr did]); (js "has_more", JBool true); (js "next_cursor", JStr (js "1"))].
Definition answer_as (did : jstr) (R : Set) (c : req R) : error + R :=
  match c in req R return error + R with quicRequest _ _ => inr (about did) | _ => inl (Error (js "unused")) end.
Definition handled (a : action) : prog jstr := bind (handler a) (λ _, ret []).
Abbreviation does e w := (launch (handled e) w).
Abbreviation answered did i w := (resume (answer_as did) i w).
Abbreviation page_steps := (rtc (Async.step handled (λ _ _, False) (λ _ _ _, True))).
Definition blank : world screen error req := mkWorld opened 0 [].

Definition ann : jstr := js "ann".
Definition bob : jstr := js "bob".
(** the identity changes while the first is being read *)
Definition changed : world screen error req :=
  answered ann 0 (answered ann 0 (answered bob 1 (answered bob 1 (answered bob 1 (answered ann 0
    (does (Open (Some bob)) (does (Open (Some ann)) blank))))))).

(** Reads of an identity that is gone are not discarded: its ledger replaces that of
    the one that is shown. *)
Fact ledger_of_another_identity :
  page_steps blank changed ∧ events (ws changed) = [JStr ann] ∧ balance (ws changed) = Some (about ann).
Proof. split; [|by vm_compute]. unfold changed. run_through. Qed.

(** Two presses in one rendering append the same page twice. *)
Definition read_once : world screen error req := answered ann 0 (answered ann 0 (answered ann 0 (does (Open (Some ann)) blank))).
Definition read_twice : world screen error req :=
  let v := ws read_once in
  answered bob 2 (answered bob 1 (does (LoadMore (Some ann) v) (does (LoadMore (Some ann) v) read_once))).
Fact page_appended_twice :
  page_steps blank read_twice ∧ events (ws read_twice) = [JStr ann; JStr bob; JStr bob].
Proof. split; [|by vm_compute]. unfold read_twice, read_once. cbv zeta. run_through. Qed.

(** ** Claims *)

(** the claim, alone or followed by both reads *)
Definition one_claim (did : jstr) (event : Rewards.RewardEvent) (tr : list Outside.event) : Prop :=
  ∃ a, tr = [Ev (Rewards.claimReward did event) a] ∨
    ∃ b t, tr = [Ev (Rewards.claimReward did event) a; Ev (Rewards.getRewardsBalance did) b; Ev (Rewards.getRewardsStatus did) t].

Lemma attempt_trace {R : Set} (c : req R) tr r : trace obs (attempt (call c)) tr r → ∃ a, tr = [Ev c a] ∧ r = inr a.
Proof.
  unfold attempt. intros (a & t1 & t2 & -> & H1 & H2)%trace_bindR. apply trace_call in H1 as ->.
  apply trace_ret in H2 as [-> ->]. exists a. by rewrite app_nil_r.
Qed.
Lemma settle_trace {A} (x : error + A) tr r : trace obs (settle x) tr r → tr = [] ∧ r = x.
Proof. destruct x; [intros [-> ->]%trace_throw|intros [-> ->]%trace_ret]; done. Qed.

(** A claim by hand asks for its event once, for the identity of the rendering, and
    then reads again; nothing while another claim of that rendering is under way. *)
Fact claim_asks_its_event did v event tr r :
  trace obs (onClaim (Some did) v event) tr r →
  tr = [] ∧ (did = [] ∨ claiming v ≠ None) ∨ did ≠ [] ∧ claiming v = None ∧ one_claim did event tr.
Proof.
  unfold onClaim. destruct did as [|c d] eqn:Ed; [intros [-> _]%trace_ret; auto|]. rewrite <-Ed.
  destruct (claiming v); [intros [-> _]%trace_ret; auto|]. intros H. right. split; [by subst|]. split; [done|].
  unfold mbind, outside_bind in H. apply trace_after_modify in H. apply trace_finally_set in H.
  assert (∃ r', trace obs (bind (call (Rewards.claimReward did event)) (λ result,
      bind (settle (Rewards.claimSkipMessage result)) (λ _,
      bind (attempt (call (Rewards.getRewardsBalance did))) (λ b,
      bind (attempt (call (Rewards.getRewardsStatus did))) (λ s,
      bind (settle b) (λ b, bind (settle s) (λ s, modify (setAnswers b s)))))))) tr r') as [r' H'].
  { apply trace_try_catch in H as [(a & _ & H)|(e & t1 & t2 & -> & H & H2)]; [eauto|].
    assert (t2 = []) as -> by (destruct (Rewards.isRewardsUnavailable e); [by apply trace_modify in H2 as [-> _]|by apply trace_ret in H2 as [-> _]]).
    rewrite app_nil_r. eauto. }
  apply trace_bind in H' as [(e & H1 & _)|(a & t1 & t2 & -> & H1 & H2)]; apply trace_call in H1 as ->; [by eexists; left|].
  exists (inr a). apply trace_bind in H2 as [(e & H2 & _)|(m & t3 & t4 & -> & H3 & H2)]; [apply settle_trace in H2 as [-> _]; by left|].
  apply settle_trace in H3 as [-> _].
  apply trace_bind in H2 as [(e & H2 & _)|(b & t5 & t6 & -> & H3 & H2)]; [by apply attempt_trace in H2 as (? & _ & ?)|].
  apply attempt_trace in H3 as (b' & -> & _).
  apply trace_bind in H2 as [(e & H2 & _)|(t & t7 & t8 & -> & H3 & H2)]; [by apply attempt_trace in H2 as (? & _ & ?)|].
  apply attempt_trace in H3 as (t' & -> & _). right. exists b', t'.
  assert (t8 = []) as ->; [|done].
  apply trace_bind in H2 as [(e & H2 & _)|(b0 & t9 & t10 & -> & H3 & H2)]; [by apply settle_trace in H2 as [-> _]|].
  apply settle_trace in H3 as [-> _].
  apply trace_bind in H2 as [(e & H2 & _)|(s0 & t11 & t12 & -> & H3 & H2)]; [by apply settle_trace in H2 as [-> _]|].
  apply settle_trace in H3 as [-> _]. by apply trace_modify in H2 as [-> _].
Qed.
