(* ===== verification/MyTokens.v ===== *)
(** * The list of tokens: src/src/screens/MyTokensScreen.tsx

    The rows are collected from the balances of the identity, the catalogue of
    assets and the tokens that are followed on this device, over TokenService and
    AssetService (Tokens.v).  A row is an object that the list and the map by id
    share: the map holds its place in the list, so that what is changed through the
    map is changed in the list.  Names, symbols and links are strings, decimals
    integers; the balances and the catalogue are arrays, anything else throws. *)

From stdpp Require Import strings.
From S2P Require Import Prelude JsString JsMap Json Async Outside.
From S2P Require TokenUnits Tokens Quic.
#[local] Open Scope Z_scope.

Definition TRACKED_TOKENS_KEY : jstr := js "sov:tracked_tokens".
Definition LEGACY_CREATED_TOKENS_KEY : jstr := js "sov:created_tokens".

(** [balanceDisplay]: [None] is [undefined], [Some None] is [null] *)
Record TokenWithInfo := mkRow {
  token_id : jstr; name : jstr; symbol : jstr; totalSupplyDisplay : option jstr; balanceDisplay : option (option jstr);
  dao_class : option jstr; share_link : option jstr }.

Record screen := mkScreen { tokens : list TokenWithInfo; loading : bool }.
Definition opened : screen := mkScreen [] false.
Definition setTokens l s := mkScreen l (loading s).
Definition setLoading b s := mkScreen (tokens s) b.
#[local] Abbreviation prog := (Outside.prog screen).

Definition field (k : string) (v : json) : jstr := default [] (str_field (js k) v).
(** a string that is not empty *)
Definition given (s : option jstr) : option jstr := match s with Some (c :: t) => Some (c :: t) | _ => None end.
(** [a ?? b] *)
Definition or_null (a : option json) (b : option json) : option json := match a with None | Some JNull => b | _ => a end.
Definition decimals_or_18 (v : json) : option json := or_null (jget (js "decimals") v) (Some (JNum 18)).

Definition formatAtoms (atoms decimals : option json) : option jstr :=
  match or_null atoms None, decimals with
  | Some a, Some (JNum d) => if d <? 0 then None else Some (TokenUnits.atomsToDisplayLocale (js_String a) d 4)
  | _, _ => None
  end.
Definition link (id : jstr) : jstr := js "zhtp://asset/" ++ id.

(** [allTokens] and [tokenMap] *)
Record loaded := mkLoaded { allTokens : list TokenWithInfo; tokenMap : jsmap jstr nat }.
Definition empty : loaded := mkLoaded [] [].
Definition has (id : jstr) (l : loaded) : bool := mhas id (tokenMap l).
Definition push (t : TokenWithInfo) (l : loaded) : loaded :=
  mkLoaded (allTokens l ++ [t]) (mset (token_id t) (length (allTokens l)) (tokenMap l)).
(** [tokenMap.get(id)], changed in place *)
Definition change (id : jstr) (f : TokenWithInfo → TokenWithInfo) (l : loaded) : loaded :=
  match mget id (tokenMap l) with Some i => mkLoaded (alter f i (allTokens l)) (tokenMap l) | None => l end.

(** 1. the balances: what was pushed before a member that throws stays *)
Definition balance_id (t : json) : jstr := js_String (jor (jget (js "asset_id") t) (jor (jget (js "token_id") t) (JStr []))).
Definition balance_row (t : json) : TokenWithInfo :=
  mkRow (balance_id t) (str_or (field "name" t) (js "Unknown")) (str_or (field "symbol" t) (js "Token"))
    (formatAtoms (jget (js "total_supply") t) (jget (js "decimals") t))
    (Some (formatAtoms (jget (js "balance") t) (jget (js "decimals") t))) None (Some (link (balance_id t))).
Fixpoint add_balances (ts : list json) (l : loaded) : loaded :=
  match ts with
  | [] | JNull :: _ => l
  | t :: ts => add_balances ts (if truthy (balance_id t) then push (balance_row t) l else l)
  end.

(** 2. the catalogue *)
Definition asset_row (asset : json) : TokenWithInfo :=
  let id := field "asset_id" asset in
  mkRow id (str_or (field "name" asset) (js "Unknown")) (str_or (field "symbol" asset) (js "Token"))
    (formatAtoms (jget (js "total_supply") asset) (decimals_or_18 asset)) None
    (str_field (js "dao_class") asset) (Some (str_or (field "share_link" asset) (link id))).
Definition enriched (asset : json) (t : TokenWithInfo) : TokenWithInfo :=
  mkRow (token_id t) (name t) (symbol t) (totalSupplyDisplay t) (balanceDisplay t)
    (match given (str_field (js "dao_class") asset) with Some c => Some c | None => dao_class t end)
    (Some (str_or (field "share_link" asset) (str_or (default [] (share_link t)) (link (field "asset_id" asset))))).
Fixpoint add_catalog (assets : list json) (l : loaded) : loaded :=
  match assets with
  | [] | JNull :: _ => l
  | a :: assets =>
      let id := field "asset_id" a in
      add_catalog assets (if has id l then change id (enriched a) l else push (asset_row a) l)
  end.

(** 3. the tokens that are followed, under the new key or moved to it *)
Definition parse_ids (s : jstr) : prog json := or_syntax_error (json_parse s).
Definition stored_ids : prog json :=
  trackedTokensJson ← call (getItem TRACKED_TOKENS_KEY);
  match given trackedTokensJson with
  | Some s => parse_ids s
  | None =>
      legacy ← call (getItem LEGACY_CREATED_TOKENS_KEY);
      match given legacy with
      | Some s =>
          ids ← parse_ids s;
          call (setItem TRACKED_TOKENS_KEY (stringify ids));;
          call (removeItem LEGACY_CREATED_TOKENS_KEY);;
          ret ids
      | None => ret (JArr [])
      end
  end.
(** [for (const tokenId of ids)]; the ids are strings *)
Definition iterated (ids : json) : prog (list jstr) :=
  match ids with
  | JArr l => ret (omap as_str l)
  | JStr s => ret (map (λ c, [c]) s)
  | _ => throw TypeError
  end.

Definition balance_of (id hexAddress : jstr) (decimals : json → option json) (none : option (option jstr)) : prog (option (option jstr)) :=
  try_catch
    (bal ← Tokens.getTokenBalance id hexAddress;
     ret (if jtruthy bal
          then match or_null (jget (js "balance") bal) None with
               | Some b => Some (formatAtoms (Some b) (decimals bal))
               | None => none
               end
          else none))
    (λ _, ret none).
Definition from_asset (id hexAddress : jstr) (l : loaded) : prog loaded :=
  asset ← Tokens.getAsset id;
  dot asset (js "decimals");;
  let decimals := decimals_or_18 asset in
  shown ← balance_of id hexAddress (λ bal, or_null (jget (js "decimals") bal) decimals) None;
  ret (push (mkRow id (str_or (field "name" asset) (js "Unknown")) (str_or (field "symbol" asset) (js "Token"))
               (formatAtoms (jget (js "total_supply") asset) decimals) shown (str_field (js "dao_class") asset)
               (Some (str_or (field "share_link" asset) (link id)))) l).
Definition from_token (id hexAddress : jstr) (l : loaded) : prog loaded :=
  info ← Tokens.getTokenInfo id;
  shown ← balance_of id hexAddress (λ _, jget (js "decimals") info) (Some (Some (js "0")));
  ret (push (mkRow id (str_or (field "name" info) (js "Unknown")) (str_or (field "symbol" info) (js "Token"))
               (formatAtoms (jget (js "total_supply") info) (jget (js "decimals") info)) shown None None) l).
Definition add_tracked (hexAddress id : jstr) (l : loaded) : prog loaded :=
  if has id l then ret l
  else try_catch (from_asset id hexAddress l) (λ _, try_catch (from_token id hexAddress l) (λ _, ret l)).
Fixpoint add_all_tracked (hexAddress : jstr) (ids : list jstr) (l : loaded) : prog loaded :=
  match ids with [] => ret l | i :: ids => l' ← add_tracked hexAddress i l; add_all_tracked hexAddress ids l' end.

Definition or_else (l : loaded) (t : prog loaded) : prog loaded := try_catch t (λ _, ret l).
Definition as_list (v : json) : prog (list json) := match v with JArr l => ret l | _ => throw TypeError end.

Definition collect (hexAddress : jstr) : prog loaded :=
  l1 ← or_else empty (balances ← Tokens.getBalancesForAddress hexAddress; balances ← as_list balances; ret (add_balances balances empty));
  l2 ← or_else l1 (catalog ← Tokens.listAssets; catalog ← as_list catalog; ret (add_catalog catalog l1));
  or_else l2 (ids ← stored_ids; ids ← iterated ids; add_all_tracked hexAddress ids l2).

Definition loadTokens (did : option jstr) : prog unit :=
  match given did with
  | None => ret tt
  | Some did =>
      modify (setLoading true);;
      try_finally
        (try_catch
           (l ← collect (if startsWith (js "did:zhtp:") did then drop 9 did else did);
            modify (setTokens (allTokens l)))
           (λ _, void (call (alert (js "Error") (js "Failed to load tokens") []);; ret tt)))
        (modify (setLoading false))
  end.

(** the line under the name of a row; the dash that stands for [null] is written in ASCII *)
Definition amount_line (t : TokenWithInfo) : jstr :=
  match balanceDisplay t with
  | Some b => js "Balance: " ++ default (js "-") b
  | None => js "Total Supply: " ++ default (js "-") (totalSupplyDisplay t)
  end.

(** * Properties *)

(** ** Rows and map *)

Definition ids (l : loaded) : list jstr := map token_id (allTokens l).
(** the map knows exactly the ids of the rows, each at a row of that id *)
Definition indexed (l : loaded) : Prop :=
  (∀ id, has id l = true ↔ id ∈ ids l) ∧ ∀ id i, mget id (tokenMap l) = Some i → ids l !! i = Some id.
(** [b] has the rows of [a], perhaps enriched, and more of ids that [a] has not *)
Definition grows (a b : loaded) : Prop :=
  ∃ more, ids b = ids a ++ more ∧ NoDup more ∧ Forall (λ id, id ∉ ids a) more ∧ indexed b.

Lemma indexed_push t l : indexed l → indexed (push t l).
Proof.
  intros [H1 H2]. split.
  - intros id. unfold has, mhas, push, ids. cbn [allTokens tokenMap]. rewrite mget_set, map_app, elem_of_app. cbn [map]. rewrite list_elem_of_singleton.
    destruct (decide (id = token_id t)) as [->|Hn]; [naive_solver|]. fold (mhas id (tokenMap l)). fold (has id l). fold (ids l).
    rewrite H1. simpl. naive_solver.
  - intros id i. unfold push, ids. cbn [allTokens tokenMap]. rewrite mget_set, map_app.
    destruct (decide (id = token_id t)) as [->|Hn].
    + intros [= <-]. rewrite lookup_app_r by (by rewrite length_map). by rewrite length_map, Nat.sub_diag.
    + intros H%H2. by apply lookup_app_l_Some.
Qed.

Lemma ids_change id f l : (∀ t, token_id (f t) = token_id t) → ids (change id f l) = ids l.
Proof.
  intros H. unfold change, ids. destruct (mget id (tokenMap l)) as [i|]; [|done]. cbn [allTokens].
  revert i. induction (allTokens l) as [|t ts IH]; intros [|i]; [done|done| |]; simpl; f_equal; [apply H|apply IH].
Qed.
Lemma indexed_change id f l : (∀ t, token_id (f t) = token_id t) → indexed l → indexed (change id f l).
Proof.
  intros H [H1 H2]. unfold indexed. rewrite ids_change by done.
  assert (tokenMap (change id f l) = tokenMap l) as E by (unfold change; by destruct (mget id (tokenMap l))).
  unfold has. rewrite E. done.
Qed.

Lemma grows_refl l : indexed l → grows l l.
Proof. intros H. exists []. rewrite app_nil_r. split; [done|]. split; [constructor|]. by split. Qed.
Lemma grows_trans a b c : grows a b → grows b c → grows a c.
Proof.
  intros (m & E & N & F & _) (m' & E' & N' & F' & I). exists (m ++ m'). rewrite E', E, app_assoc. split; [done|].
  split; [|split; [|done]].
  - apply NoDup_app. split; [done|]. split; [|done]. intros x Hx Hx'. rewrite list.Forall_forall in F'. apply (F' x Hx').
    rewrite E. apply elem_of_app. by right.
  - apply list.Forall_app. split; [done|]. eapply list.Forall_impl; [exact F'|]. intros x Hx Ha. apply Hx. rewrite E. apply elem_of_app. by left.
Qed.
Lemma grows_push a t : indexed a → has (token_id t) a = false → grows a (push t a).
Proof.
  intros I H. exists [token_id t]. split; [by unfold ids, push; simpl; rewrite map_app|]. split; [apply NoDup_singleton|].
  split; [|by apply indexed_push]. constructor; [|done]. destruct I as [I _]. rewrite <-I, H. done.
Qed.
Lemma grows_change a id f : (∀ t, token_id (f t) = token_id t) → indexed a → grows a (change id f a).
Proof.
  intros H I. exists []. rewrite app_nil_r, ids_change by done. split; [done|]. split; [constructor|].
  split; [done|]. by apply indexed_change.
Qed.
Lemma grows_indexed a b : grows a b → indexed b.
Proof. by intros (? & _ & _ & _ & ?). Qed.
Lemma indexed_empty : indexed empty.
Proof. split; [|done]. intros id. split; [done|]. intros H. by apply not_elem_of_nil in H. Qed.

(** ** What is collected *)

(** the ids of the balances, up to a member that throws *)
Definition is_value (v : json) : bool := match v with JNull => false | _ => true end.
Definition own (ts : list json) : list jstr := List.filter truthy (map balance_id (take_while is_value ts)).

Lemma add_balances_ids ts l : ids (add_balances ts l) = ids l ++ own ts.
Proof.
  revert l. unfold own. induction ts as [|t ts IH]; intros l; [by rewrite app_nil_r|].
  assert (∀ x, ids (if truthy (balance_id t) then push (balance_row t) x else x) = ids x ++ List.filter truthy [balance_id t]) as G.
  { intros x. simpl. destruct (truthy (balance_id t)); [|by rewrite app_nil_r]. unfold ids, push. cbn [allTokens]. by rewrite map_app. }
  destruct t; cbn [add_balances take_while is_value map]; try (by rewrite app_nil_r); rewrite IH, G, <-app_assoc; f_equal; simpl; by destruct (truthy _).
Qed.
Lemma add_balances_indexed ts l : indexed l → indexed (add_balances ts l).
Proof.
  revert l. induction ts as [|t ts IH]; intros l H; [done|].
  destruct t; cbn [add_balances]; try done; apply IH; destruct (truthy _); try done; by apply indexed_push.
Qed.

Lemma add_catalog_grows assets l : indexed l → grows l (add_catalog assets l).
Proof.
  revert l. induction assets as [|a assets IH]; intros l H; [by apply grows_refl|].
  assert (grows l (if has (field "asset_id" a) l then change (field "asset_id" a) (enriched a) l else push (asset_row a) l)) as G.
  { destruct (has _ l) eqn:E; [by apply grows_change|by apply grows_push]. }
  destruct a; cbn [add_catalog]; try (by apply grows_refl); (eapply grows_trans; [exact G|]); apply IH; by eapply grows_indexed.
Qed.

Definition returns {A} (P : A → Prop) (t : prog A) : Prop :=
  ∀ tr r, trace obs t tr r → match r with inr a => P a | inl _ => True end.

Lemma returns_bind {A B} (P : B → Prop) (t : prog A) f : (∀ a, returns P (f a)) → returns P (bind t f).
Proof.
  intros Hf tr r [(e & H & ->)|(a & t1 & t2 & -> & H1 & H2)]%trace_bind; [done|]. by apply (Hf a) in H2.
Qed.
Lemma returns_ret {A} (P : A → Prop) a : P a → returns P (ret a).
Proof. intros H tr r [-> ->]%trace_ret. done. Qed.
Lemma returns_try_catch {A} (P : A → Prop) (t : prog A) h : returns P t → (∀ e, returns P (h e)) → returns P (try_catch t h).
Proof.
  intros Ht Hh tr r [(a & -> & H)|(e & t1 & t2 & -> & H1 & H2)]%trace_try_catch; [by apply Ht in H|by apply Hh in H2].
Qed.

Lemma tracked_grows h id l : indexed l → returns (grows l) (add_tracked h id l).
Proof.
  intros H. unfold add_tracked. destruct (has id l) eqn:E; [by apply returns_ret, grows_refl|].
  apply returns_try_catch; [|intros _; apply returns_try_catch; [|intros _; by apply returns_ret, grows_refl]];
    unfold from_asset, from_token, mbind, outside_bind; repeat (apply returns_bind; intros ?); apply returns_ret; by apply grows_push.
Qed.
Lemma all_tracked_grow h l0 il l : grows l0 l → returns (grows l0) (add_all_tracked h il l).
Proof.
  revert l. induction il as [|i il IH]; intros l H; cbn [add_all_tracked]; [by apply returns_ret|].
  unfold mbind, outside_bind. intros tr r [(e & _ & ->)|(l' & t1 & t2 & -> & H1 & H2)]%trace_bind; [done|].
  apply (tracked_grows h i l) in H1; [|by eapply grows_indexed]. apply IH in H2; [done|]. by eapply grows_trans.
Qed.

(** a step fails as a whole, and leaves the list as it was *)
Lemma or_else_trace (P : loaded → Prop) l t tr r : P l → returns P t → trace obs (or_else l t) tr r → ∃ l', r = inr l' ∧ P l'.
Proof.
  intros Hl Ht [(a & -> & H)|(e & t1 & t2 & -> & _ & H)]%trace_try_catch; [apply Ht in H; eauto|].
  apply trace_ret in H as [_ ->]. eauto.
Qed.

(** Loading never fails.  The rows are first those of the balances the node
    answered, one for each member with an id; every further row has an id that no
    row has yet, whatever the catalogue and the device hold, and the map knows
    exactly the ids of the rows. *)
Fact rows_of_a_load h tr r :
  trace obs (collect h) tr r →
  ∃ l ts more, r = inr l ∧ (ts = [] ∨ ∃ tr1, trace obs (Tokens.getBalancesForAddress (S := screen) h) tr1 (inr (JArr ts))) ∧
    ids l = own ts ++ more ∧ NoDup more ∧ Forall (λ id, id ∉ own ts) more ∧ indexed l.
Proof.
  unfold collect, mbind, outside_bind.
  assert (∀ tr r, trace obs (or_else empty (bind (Tokens.getBalancesForAddress h) (λ b, bind (as_list b) (λ b, ret (add_balances b empty))))) tr r →
    ∃ l ts, r = inr l ∧ (ts = [] ∨ ∃ tr1, trace obs (Tokens.getBalancesForAddress (S := screen) h) tr1 (inr (JArr ts))) ∧ ids l = own ts ∧ indexed l) as H1.
  { intros t x [(a & -> & H)|(e & t1 & t2 & -> & _ & H)]%trace_try_catch.
    - apply trace_bind in H as [(e & _ & ?)|(b & t1 & t2 & _ & Hb & H)]; [done|].
      apply trace_bind in H as [(e & _ & ?)|(ts & t3 & t4 & _ & Ht & H)]; [done|]. apply trace_ret in H as [_ [= ->]].
      destruct b; try (by apply trace_throw in Ht as [_ ?]). apply trace_ret in Ht as [_ [= ->]].
      eexists _, _. split; [done|]. split; [right; by eexists|]. split; [apply (add_balances_ids _ empty)|apply add_balances_indexed, indexed_empty].
    - apply trace_ret in H as [_ ->]. exists empty, []. split; [done|]. split; [by left|]. split; [done|apply indexed_empty]. }
  intros [(e & H & ->)|(l1 & t1 & t2 & -> & Hl & H)]%trace_bind; [by apply H1 in H as (? & ? & ? & _)|].
  apply H1 in Hl as (l' & ts & [= <-] & Hts & Ei & Hx).
  apply trace_bind in H as [(e & H & ->)|(l2 & t3 & t4 & -> & Hl & H)].
  { apply (or_else_trace (λ _, True)) in H as (? & ? & _); [done|done|]. by intros ? [e'|?]. }
  apply (or_else_trace (grows l1)) in Hl as (l2' & [= <-] & Hg); [|by apply grows_refl|].
  2:{ repeat (apply returns_bind; intros ?). apply returns_ret. by apply add_catalog_grows. }
  apply (or_else_trace (grows l1)) in H as (l & -> & (more & E & N & F & I)); [|done|].
  2:{ repeat (apply returns_bind; intros ?). by apply all_tracked_grow. }
  exists l, ts, more. rewrite Ei in E, F. done.
Qed.

(** ** Runs *)

(** the node has the given balances and catalogue and fails otherwise; the device
    has followed the tokens of the old key *)
Definition node (balances catalog : list json) (R : Set) (c : req R) (d : list (jstr * jstr)) : (error + R) * list (jstr * jstr) :=
  match c in req R return (error + R) * list (jstr * jstr) with
  | quicRequest path _ =>
      (if startsWith (js "/api/v1/assets/balances/") path then inr (JObj [(js "balances", JArr balances)])
       else if startsWith (js "/api/v1/token/t9") path && negb (includes (js "balance") path)
       then inr (JObj [(js "name", JStr (js "Nine")); (js "decimals", JNum 2); (js "total_supply", JStr (js "12345"))])
       else inl (Error (js "offline")), d)
  | publicQuicRequest path _ =>
      (if bool_decide (path = js "/api/v1/assets") then inr (JObj [(js "assets", JArr catalog)]) else inl (Error (js "offline")), d)
  | getItem k => (inr (mget k d), d)
  | setItem k v => (inr tt, mset k v d)
  | removeItem k => (inr tt, mdelete k d)
  | _ => (inl (Error (js "unused")), d)
  end.
Definition held (id : string) (atoms : string) : json :=
  JObj [(js "asset_id", JStr (js id)); (js "name", JStr (js id)); (js "balance", JStr (js atoms)); (js "decimals", JNum 2)].
Definition listed (id class : string) : json := JObj [(js "asset_id", JStr (js id)); (js "dao_class", JStr (js class))].
Definition device : list (jstr * jstr) := [(LEGACY_CREATED_TOKENS_KEY, stringify (JArr [JStr (js "t1"); JStr (js "t9")]))].

(** Balances, catalogue and followed tokens come together: a row of each, the
    catalogue fills in the class of a held token, the old key is moved. *)
Fact rows_of_three_sources :
  match solo (node [held "t1" "150"] [listed "t1" "fp"; listed "t2" "np"]) (loadTokens (Some (js "did:zhtp:aa"))) opened device with
  | Some (inr tt, s, d) =>
      map (λ t, (token_id t, dao_class t, amount_line t)) (tokens s) =
        [(js "t1", Some (js "fp"), js "Balance: 1.5"); (js "t2", Some (js "np"), js "Total Supply: -"); (js "t9", None, js "Balance: 0")] ∧
      mget TRACKED_TOKENS_KEY d = Some (stringify (JArr [JStr (js "t1"); JStr (js "t9")])) ∧ mget LEGACY_CREATED_TOKENS_KEY d = None
  | _ => False
  end.
Proof. vm_compute. done. Qed.

(** A balance listed twice is shown twice, under one key, and only the later row is
    filled in. *)
Fact balance_listed_twice :
  match solo (node [held "t1" "1"; held "t1" "2"] [listed "t1" "fp"]) (loadTokens (Some (js "aa"))) opened [] with
  | Some (inr tt, s, _) => map (λ t, (token_id t, dao_class t)) (tokens s) = [(js "t1", None); (js "t1", Some (js "fp"))]
  | _ => False
  end.
Proof. vm_compute. done. Qed.
