(* ===== verification/MsgStub.v ===== *)
(** * The messenger without its native module: src/src/services/MessagingService.ts,
    lines 79 to 403 and 1952 to 2063

    Where the native bridge is missing, stand-ins of the cryptography seal and open,
    and sending and ingesting are functions of the store (MsgStore.v) and of a table
    of sessions.  A session is an object that its table holds; it is changed in
    place, which the new session put in its place shows.  Random digits are drawn
    from [digit], one after the other.  An envelope read from JSON has the fields of
    its type; [null] throws, values of other types are passed over.  The requests
    that carry no cryptography are those of Outside.v. *)

From stdpp Require Import strings.
From S2P Require Import Prelude JsString JsMap Json Codec Async Outside.
From S2P Require Import MsgStore.
From S2P Require Quic.
#[local] Open Scope Z_scope.

Record Session := mkSession {
  local_did : Did; remote_did : Did; chain_key : jstr; counter : Z; s_epoch : Z; created_at : Z }.
Record MessageEnvelope := mkEnvelope {
  version : Z; sender_did : Did; recipient_did : Did; e_timestamp : Z; e_epoch : Z; e_sequence : Z;
  e_content_type : MessageContentType; ciphertext : jstr; signature : jstr }.

(** the time in milliseconds, the digits drawn so far, [sessionsByRemoteDid], the store *)
Record stub := mkStub { clock : Z; drawn : nat; sessionsByRemoteDid : jsmap Did Session; mstore : store }.
Definition nowSec (x : stub) : Z := clock x / 1000.
Definition set_drawn n x := mkStub (clock x) n (sessionsByRemoteDid x) (mstore x).
Definition saveSession (s : Session) (x : stub) : stub :=
  mkStub (clock x) (drawn x) (mset (remote_did s) s (sessionsByRemoteDid x)) (mstore x).
Definition upd_store f x := mkStub (clock x) (drawn x) (sessionsByRemoteDid x) (f (mstore x)).
Definition loadSession (remoteDid : Did) (x : stub) : option Session := mget remoteDid (sessionsByRemoteDid x).

Section Stub.
(** [Math.floor(Math.random() * 16)], the [n]-th time *)
Context (digit : nat → Z).

Definition digits_from (n : nat) (bytes : Z) : jstr :=
  map (λ i, hex_char (digit (n + i))) (seq 0 (2 * Z.to_nat bytes)).
Definition digits_after (n : nat) (bytes : Z) : nat := (n + 2 * Z.to_nat bytes)%nat.
#[local] Arguments digits_from : simpl never.
#[local] Arguments digits_after : simpl never.
Definition randHex (bytes : Z) (x : stub) : jstr * stub :=
  (digits_from (drawn x) bytes, set_drawn (digits_after (drawn x) bytes) x).

(** ** cryptoStub *)

Definition new_session (localDid remoteDid : Did) (x : stub) : Session * stub :=
  let '(key, x') := randHex 32 x in (mkSession localDid remoteDid key 0 0 (nowSec x), x').
Definition initiateSession (localDid remoteDid : Did) (x : stub) : jstr * Session * stub :=
  let '(ct, x) := randHex 1568 x in
  let '(s, x) := new_session localDid remoteDid x in (ct, s, x).
Definition acceptSession : Did → Did → stub → Session * stub := new_session.
Definition rekeySession (s : Session) (x : stub) : jstr * Session * stub :=
  let '(key, x) := randHex 32 x in
  let '(ct, x) := randHex 1568 x in
  (ct, mkSession (local_did s) (remote_did s) key 0 (s_epoch s + 1) (created_at s), x).
Definition sealTextMessage (s : Session) (text : jstr) (x : stub) : MessageEnvelope * Session * stub :=
  let env := mkEnvelope 1 (local_did s) (remote_did s) (nowSec x) (s_epoch s) (counter s) Text (utf8ToHex text) [] in
  let '(key, x) := randHex 32 x in
  (env, mkSession (local_did s) (remote_did s) key (counter s + 1) (s_epoch s) (created_at s), x).
Definition sealKeyExchange (senderDid recipientDid : Did) (kyberCiphertext : jstr) (x : stub) : MessageEnvelope :=
  mkEnvelope 1 senderDid recipientDid (nowSec x) 0 0 KeyExchange kyberCiphertext [].
Definition signEnvelope (env : MessageEnvelope) (x : stub) : MessageEnvelope * stub :=
  let '(sig, x) := randHex 4595 x in
  (mkEnvelope (version env) (sender_did env) (recipient_did env) (e_timestamp env) (e_epoch env) (e_sequence env)
     (e_content_type env) (ciphertext env) sig, x).
Definition verifyEnvelope (env : MessageEnvelope) (dilithiumPk : jstr) : bool := true.
(** [None] throws *)
Definition openEnvelope (env : MessageEnvelope) (chainKey : jstr) : option jstr :=
  match e_content_type env with Text => hexToUtf8 (ciphertext env) | _ => Some (ciphertext env) end.

Definition envelope_json (e : MessageEnvelope) : json :=
  JObj [(js "version", JNum (version e)); (js "sender_did", JStr (sender_did e)); (js "recipient_did", JStr (recipient_did e));
        (js "timestamp", JNum (e_timestamp e)); (js "epoch", JNum (e_epoch e)); (js "sequence", JNum (e_sequence e));
        (js "content_type", JStr (content_type_str (e_content_type e))); (js "ciphertext", JStr (ciphertext e));
        (js "signature", JStr (signature e))].
Definition envelope_of_json (v : json) : option MessageEnvelope :=
  n ← jfield (js "version") as_num v; s ← jfield (js "sender_did") as_str v; r ← jfield (js "recipient_did") as_str v;
  t ← jfield (js "timestamp") as_num v; e ← jfield (js "epoch") as_num v; q ← jfield (js "sequence") as_num v;
  c ← jfield (js "content_type") (λ w, as_str w ≫= of_str content_types content_type_str) v;
  b ← jfield (js "ciphertext") as_str v; g ← jfield (js "signature") as_str v;
  Some (mkEnvelope n s r t e q c b g).
Definition encodeEnvelope (e : MessageEnvelope) : jstr := utf8ToHex (stringify (envelope_json e)).
(** [None] throws *)
Definition decodeEnvelope (hex : jstr) : option json := text ← hexToUtf8 hex; json_parse text.

(** ** Sending: the text, the sealed envelope that nobody gets, the row *)

Definition session_with (remoteDid : Did) (x : stub) : Session * stub :=
  match loadSession remoteDid x with
  | Some s => (s, x)
  | None => let '(_, s, x') := initiateSession (getSelfDid (mstore x)) remoteDid x in (s, saveSession s x')
  end.
Definition local_message (remoteDid : Did) (text : jstr) (env : MessageEnvelope) (random : jstr) (x : stub) : LocalMessage :=
  mkMessage (js "local-" ++ dec_str (clock x) ++ js "-" ++ random) remoteDid dir_sent Text text
    (e_timestamp env) (e_epoch env) (e_sequence env) sent.
Definition sendTextMessage (remoteDid : Did) (text random : jstr) (x : stub) : LocalMessage * jstr * stub :=
  let '(s, x) := session_with remoteDid x in
  let '(env, s, x) := sealTextMessage s text x in
  let '(signed, x) := signEnvelope env x in
  let hex := encodeEnvelope signed in
  let x := saveSession s x in
  let local := local_message remoteDid text env random x in
  (local, hex, upd_store (appendMessage local) x).

(** ** Ingesting *)

Definition received_row (env : MessageEnvelope) (text : jstr) : LocalMessage :=
  mkMessage (js "recv-" ++ num_str (e_timestamp env) ++ js "-" ++ num_str (e_sequence env)) (sender_did env) dir_received
    (e_content_type env) text (e_timestamp env) (e_epoch env) (e_sequence env) delivered.
(** [None] throws *)
Definition ingest (env : MessageEnvelope) (x : stub) : option stub :=
  if negb (verifyEnvelope env (default [] (c ← getContact (sender_did env) (mstore x); dilithium_pk c))) then Some x
  else
    match e_content_type env with
    | KeyExchange => let '(s, x') := acceptSession (getSelfDid (mstore x)) (sender_did env) x in Some (saveSession s x')
    | KeyRatchet =>
        Some (match loadSession (sender_did env) x with
              | Some s => saveSession (mkSession (local_did s) (remote_did s) (chain_key s) 0 (s_epoch s + 1) (created_at s)) x
              | None => x
              end)
    | _ =>
        match loadSession (sender_did env) x with
        | Some s => text ← openEnvelope env (chain_key s); Some (upd_store (appendMessage (received_row env text)) x)
        | None => Some x
        end
    end.
(** the state, and whether it threw *)
Fixpoint ingestEnvelopesStub (hexes : list jstr) (x : stub) : stub * bool :=
  match hexes with
  | [] => (x, false)
  | hex :: hexes =>
      match decodeEnvelope hex with
      | None => ingestEnvelopesStub hexes x
      | Some JNull => (x, true)
      | Some v =>
          match envelope_of_json v with
          | None => ingestEnvelopesStub hexes x
          | Some env => match ingest env x with Some x' => ingestEnvelopesStub hexes x' | None => (x, true) end
          end
      end
  end.
End Stub.

(** ** Requests *)

Definition API_BASE : jstr := js "/api/v1/msg".
#[local] Abbreviation prog := (Outside.prog store).
Definition postJson (path : jstr) (body : json) : prog json := call (quicRequest path (post json_headers body)).
Definition sessionInit (recipient : jstr) : prog json :=
  self ← gets getSelfDid;
  postJson (API_BASE ++ js "/session/init") (JObj [(js "sender_did", JStr self); (js "recipient", JStr recipient)]).
Definition depositEnvelopes (recipientDid : Did) (envelopesHex : list jstr) : prog json :=
  self ← gets getSelfDid;
  postJson (API_BASE ++ js "/deposit")
    (JObj [(js "sender_did", JStr self); (js "recipient_did", JStr recipientDid); (js "envelopes_hex", JArr (map JStr envelopesHex))]).
Definition watchPresence (targetDids : list Did) : prog json :=
  self ← gets getSelfDid;
  postJson (API_BASE ++ js "/presence/watch") (JObj [(js "watcher_did", JStr self); (js "target_dids", JArr (map JStr targetDids))]).

Inductive WireProbeResult :=
| Reached (latencyMs : Z) (recipientDid : option json) (hasKyberPk hasDilithiumPk : bool)
| Failed (latencyMs : Z) (code : option Z) (text : jstr).
Definition has_key (k : string) (r : json) : bool :=
  match jget (js k) r with Some v => jtruthy v && match v with JStr s => truthy s | JArr (_ :: _) => true | _ => false end | None => false end.
Definition NO_IDENTITY : jstr := js "no live identity - sign in first (probe refused on mock DID)".
Definition probeMessagingWire (recipient : option jstr) : prog WireProbeResult :=
  live ← gets hasLiveSelfDid;
  if negb (truthy (default [] recipient)) && negb live then ret (Failed 0 None NO_IDENTITY)
  else
    self ← gets getSelfDid;
    let target := default self recipient in
    t0 ← call Date_now;
    try_catch
      (r ← sessionInit target;
       now ← call Date_now;
       recipientDid ← dot r (js "recipient_did");
       ret (Reached (now - t0) recipientDid (has_key "kyber_public_key" r) (has_key "dilithium_public_key" r)))
      (λ e, now ← call Date_now; ret (Failed (now - t0) (error_status e) (message e))).

(** * Properties *)

#[local] Arguments digits_from : simpl never.
#[local] Arguments digits_after : simpl never.
#[local] Arguments ingestEnvelopesStub : simpl never.
#[local] Arguments encodeEnvelope : simpl never.
#[local] Arguments utf8ToHex : simpl never.
#[local] Arguments hexToUtf8 : simpl never.
#[local] Arguments mset : simpl never.
#[local] Arguments mget : simpl never.
#[local] Arguments appendMessage : simpl never.

Lemma content_type_read c : of_str content_types content_type_str (content_type_str c) = Some c.
Proof. by destruct c. Qed.
Lemma stub_envelope_read e : envelope_of_json (envelope_json e) = Some e.
Proof. destruct e as [n s r t ep q c b g]. by destruct c. Qed.
Lemma envelope_plain e : plain (envelope_json e).
Proof.
  unfold envelope_json. apply plain_obj. split; [|repeat constructor].
  apply (bool_decide_unpack (mwf _)). vm_compute. exact I.
Qed.
Lemma stub_decode_encode e : decodeEnvelope (encodeEnvelope e) = Some (envelope_json e).
Proof.
  unfold decodeEnvelope, encodeEnvelope. rewrite (proj1 (hexToUtf8_utf8ToHex _)).
  exact (json_parse_stringify _ (envelope_plain e)).
Qed.

Lemma ingest_encoded digit e hexes x :
  ingestEnvelopesStub digit (encodeEnvelope e :: hexes) x =
  match ingest digit e x with Some x' => ingestEnvelopesStub digit hexes x' | None => (x, true) end.
Proof.
  unfold ingestEnvelopesStub at 1. fold (ingestEnvelopesStub digit). rewrite stub_decode_encode. pose proof (stub_envelope_read e) as H.
  destruct (envelope_json e) eqn:E; try (by unfold envelope_json in E). by rewrite H.
Qed.

Section Laws.
Context (digit : nat → Z).

(** ** The table *)

(** a session stands under the DID of its peer *)
Definition filed (x : stub) : Prop := mall (λ d s, remote_did s = d) (sessionsByRemoteDid x).

Lemma filed_save s x : filed x → filed (saveSession s x).
Proof. intros H. by apply mall_set. Qed.

(** Sealing for a peer files its session again, one message further. *)
Lemma send_counts remoteDid text random x :
  filed x →
  let '(local, _, x') := sendTextMessage digit remoteDid text random x in
  filed x' ∧ (∃ s, loadSession remoteDid x' = Some s ∧ counter s = sequence local + 1 ∧ s_epoch s = epoch local) ∧
  sequence local = match loadSession remoteDid x with Some s => counter s | None => 0 end ∧
  epoch local = match loadSession remoteDid x with Some s => s_epoch s | None => 0 end.
Proof.
  intros H. unfold sendTextMessage, session_with. destruct (loadSession remoteDid x) as [s|] eqn:E; cbn.
  - pose proof (H _ _ E) as Hs. split; [by apply mall_set|]. split; [|done]. unfold loadSession. cbn.
    rewrite Hs, mget_set_eq. eauto.
  - split; [by apply mall_set, mall_set|]. split; [|done]. unfold loadSession. cbn. rewrite mget_set_eq. eauto.
Qed.

(** texts to one peer, one after the other *)
Fixpoint send_all (remoteDid : Did) (texts : list jstr) (x : stub) : list LocalMessage * stub :=
  match texts with
  | [] => ([], x)
  | t :: texts =>
      let '(local, _, x) := sendTextMessage digit remoteDid t [] x in
      let '(locals, x) := send_all remoteDid texts x in (local :: locals, x)
  end.

(** The texts sent to a peer are numbered one after the other, in one epoch. *)
Fact texts_are_numbered remoteDid texts x :
  filed x →
  let first := match loadSession remoteDid x with Some s => counter s | None => 0 end in
  map sequence (send_all remoteDid texts x).1 = map (λ i, first + Z.of_nat i) (seq 0 (length texts)) ∧
  Forall (λ m, epoch m = match loadSession remoteDid x with Some s => s_epoch s | None => 0 end) (send_all remoteDid texts x).1.
Proof.
  revert x. induction texts as [|t texts IH]; intros x H; [done|]. cbv zeta. cbn [send_all].
  pose proof (send_counts remoteDid t [] x H) as G. destruct (sendTextMessage digit remoteDid t [] x) as [[local hex] x'].
  destruct G as (H' & (s & Hs & Hc & He) & Hq & Hp). specialize (IH x' H'). cbv zeta in IH. rewrite Hs in IH.
  destruct (send_all remoteDid texts x') as [locals x'']. destruct IH as [I1 I2]. cbn [fst map length seq] in *. split.
  - rewrite I1, Hq. f_equal; [lia|]. rewrite <-seq_shift, map_map. apply map_ext. intros i. lia.
  - constructor; [done|]. by rewrite <-Hp, <-He.
Qed.

(** ** What is sealed is in the clear *)

(** One phone's sealed text, ingested by another that has a session under the
    sender, is shown there as it was typed, with its number; no key takes part. *)
Fact sealed_text_is_shown digit' remoteDid text random x y s :
  let '(local, hex, x') := sendTextMessage digit remoteDid text random x in
  let sender := local_did (session_with digit remoteDid x).1 in
  loadSession sender y = Some s →
  let '(y', threw) := ingestEnvelopesStub digit' [hex] y in
  threw = false ∧ ∃ m, getMessages sender (mstore y') = getMessages sender (mstore y) ++ [m] ∧
    body m = text ∧ direction m = dir_received ∧ sequence m = sequence local ∧ epoch m = epoch local.
Proof.
  unfold sendTextMessage. destruct (session_with digit remoteDid x) as [s0 x0]. cbn.
  intros Hs. rewrite ingest_encoded. unfold ingest. cbn. rewrite Hs.
  unfold openEnvelope. cbn. rewrite (proj1 (hexToUtf8_utf8ToHex text)). cbn. split; [done|]. cbn.
  eexists. split; [rewrite getMessages_append; by rewrite decide_True|]. done.
Qed.

(** Any envelope is taken for its sender's: a handshake and a text that name a peer
    are enough for a row of that peer, whoever made them. *)
Fact any_sender_is_believed sender self text sig1 sig2 time x :
  ∃ x', ingestEnvelopesStub digit
      [encodeEnvelope (mkEnvelope 1 sender self time 0 0 KeyExchange [] sig1);
       encodeEnvelope (mkEnvelope 1 sender self time 0 0 Text (utf8ToHex text) sig2)] x = (x', false) ∧
    ∃ m, getMessages sender (mstore x') = getMessages sender (mstore x) ++ [m] ∧ body m = text.
Proof.
  eexists. rewrite !ingest_encoded. unfold ingest. cbn.
  rewrite ingest_encoded. unfold ingest, loadSession. cbn. rewrite mget_set_eq. unfold openEnvelope. cbn.
  rewrite (proj1 (hexToUtf8_utf8ToHex text)). cbn. split; [reflexivity|]. cbn.
  eexists. split; [rewrite getMessages_append; by rewrite decide_True|]. done.
Qed.

(** An envelope that reads as [null], or whose text is not UTF-8, ends the batch: the
    envelopes after it are lost, although those that cannot be read at all are only
    skipped. *)
Fact null_ends_the_batch hexes x : ingestEnvelopesStub digit (utf8ToHex (js "null") :: hexes) x = (x, true).
Proof. done. Qed.
Fact unreadable_is_skipped hexes x : ingestEnvelopesStub digit (js "zz" :: hexes) x = ingestEnvelopesStub digit hexes x.
Proof. done. Qed.
Fact broken_text_ends_the_batch sender self time sig hexes x s :
  loadSession sender x = Some s →
  ingestEnvelopesStub digit (encodeEnvelope (mkEnvelope 1 sender self time 0 0 Text (js "ff") sig) :: hexes) x = (x, true).
Proof. intros H. rewrite ingest_encoded. unfold ingest. cbn. by rewrite H. Qed.
End Laws.

(** ** Requests *)

(** Without an identity a probe of nobody asks nothing, not even the clock. *)
Fact probe_needs_an_identity recipient s {D : Type} (handle : ∀ R : Set, req R → D → (error + R) * D) d :
  liveSelfDid s = None → truthy (default [] recipient) = false →
  solo handle (probeMessagingWire recipient) s d = Some (inr (Failed 0 None NO_IDENTITY), s, d).
Proof.
  intros H1 H2. unfold probeMessagingWire, mbind, outside_bind. rewrite solo_bind, solo_gets.
  unfold hasLiveSelfDid. rewrite H1, H2. done.
Qed.

(** Whatever the node answers, a probe ends with a report. *)
Fact probe_reports recipient s {D : Type} (handle : ∀ R : Set, req R → D → (error + R) * D) d :
  (∀ d, ∃ t, (handle _ Date_now d).1 = inr t) →
  ∃ p d', solo handle (probeMessagingWire recipient) s d = Some (inr p, s, d').
Proof.
  intros Hc. unfold probeMessagingWire, sessionInit, postJson, mbind, outside_bind. rewrite solo_bind, solo_gets.
  destruct (_ && _); [by do 2 eexists|]. rewrite solo_bind, solo_gets, solo_bind, solo_call.
  destruct (Hc d) as [t0 ->]. set (d0 := (handle _ _ d).2). rewrite solo_try_catch, !solo_bind, solo_gets, solo_call.
  set (a := handle _ _ d0). destruct a.1 as [e|r].
  - rewrite solo_bind, solo_call. destruct (Hc a.2) as [t1 ->]. by do 2 eexists.
  - rewrite solo_bind, solo_call. destruct (Hc a.2) as [t1 ->]. rewrite solo_bind. destruct r; cbn; try by do 2 eexists.
    destruct (Hc (handle Z Date_now a.2).2) as [t2 ->]. by do 2 eexists.
Qed.
