(* ===== verification/ChainRereg.v ===== *)
(** * The chain watcher: src/src/hooks/useChainReregistration.ts

    The hook App.tsx mounts for the whole session.  A rendering is what the closure
    [checkAndReregister] captured; the handlers are its effect, [retry] and the
    timers it sets, and they run interleaved.  What the answer of the node or the
    stored binding lacks is [JNull], as elsewhere in the registration. *)

From stdpp Require Import strings.
From S2P Require Import Prelude JsString JsMap Json Async Outside.
From S2P Require Quic NativeIdentity Vault Tokens Auth AuthContext.

Inductive ChainReregStatus := idle | checking | syncing | done_ | failed.

(** [isConnected] and [currentIdentity], [JNull] without one *)
Record rendering := mkRendering { isConnected : bool; currentIdentity : json }.
(** a timer: its delay, and the rendering of the closure it calls *)
Record timer := mkTimer { delay : Z; closure : rendering }.

(** [updated] are the identities handed to [onIdentityUpdated] *)
Record hook := mkHook {
  status : ChainReregStatus; errorMessage : option jstr; runningRef : bool; retryCountRef : nat;
  timers : list timer; updated : list json }.
Definition setStatus v (s : hook) := mkHook v (errorMessage s) (runningRef s) (retryCountRef s) (timers s) (updated s).
Definition setErrorMessage v (s : hook) := mkHook (status s) v (runningRef s) (retryCountRef s) (timers s) (updated s).
Definition set_running v (s : hook) := mkHook (status s) (errorMessage s) v (retryCountRef s) (timers s) (updated s).
Definition set_retries v (s : hook) := mkHook (status s) (errorMessage s) (runningRef s) v (timers s) (updated s).
Definition set_timers v (s : hook) := mkHook (status s) (errorMessage s) (runningRef s) (retryCountRef s) v (updated s).
Definition onIdentityUpdated v (s : hook) :=
  mkHook (status s) (errorMessage s) (runningRef s) (retryCountRef s) (timers s) (updated s ++ [v]).
Definition mounted : hook := mkHook idle None false 0 [] [].

Definition MAX_RETRIES : nat := 3.
Definition RETRY_DELAYS : list Z := [1000; 2000; 4000].
Definition retry_delay (n : nat) : Z := default 4000 (RETRY_DELAYS !! n).

Section Hook.
(** the native module of the identities, when there is one: which methods it has *)
Context (nativeModule : option (jstr → bool)).
#[local] Abbreviation prog := (Outside.prog hook).

Definition fetchChainInfo : prog json := call (publicQuicRequest (js "/api/v1/chain/info") Quic.no_options).

Definition identity_id (r : rendering) : json := jor (jget (js "identityId") (currentIdentity r)) JNull.
Definition ready (r : rendering) : bool := isConnected r && jtruthy (identity_id r).

(** the first chain this device sees *)
Definition baseline (r : rendering) (chainInfo : json) : prog unit :=
  chain_id ← dot chainInfo (js "chain_id");
  height ← dot chainInfo (js "height");
  await (Vault.setBinding (Vault.mkBinding (default JNull chain_id) (default JNull height)
    (js_String (identity_id r)) [] [] []));;
  modify (setStatus done_).

(** the id of the new binding becomes the identity's *)
Definition adopt (r : rendering) (id : json) : prog unit :=
  if AuthContext.strict_eq (Some id) (jget (js "identityId") (currentIdentity r)) then ret tt
  else
    let updatedIdentity := Tokens.spread_set (js "identityId") id (currentIdentity r) in
    await (Vault.setIdentity updatedIdentity (Vault.mkStorageOptions false true));;
    modify (onIdentityUpdated updatedIdentity).

Definition re_register (r : rendering) (chain_id height : option json) : prog unit :=
  modify (setStatus syncing);;
  newBinding ← await (Auth.reRegisterExistingIdentity nativeModule (currentIdentity r)
                        (default JNull chain_id) (default JNull height));
  adopt r (JStr (Vault.identityId newBinding));;
  modify (set_retries 0);;
  modify (setStatus done_).

Definition check_chain (r : rendering) : prog unit :=
  chainInfo ← await fetchChainInfo;
  binding ← await Vault.getBinding;
  if negb (jtruthy binding) then baseline r chainInfo
  else
    bound ← dot binding (js "chainId");
    chain_id ← dot chainInfo (js "chain_id");
    if AuthContext.strict_eq bound chain_id then modify (setStatus done_)
    else re_register r chain_id (jget (js "height") chainInfo).

Definition on_error (r : rendering) (e : error) : prog unit :=
  n ← gets retryCountRef;
  if (n <? MAX_RETRIES)%nat then
    modify (set_retries (S n));;
    modify (setStatus syncing);;
    modify (λ s, set_timers (timers s ++ [mkTimer (retry_delay n) r]) s)
  else
    modify (setErrorMessage (Some (message e)));;
    modify (setStatus failed).

Definition checkAndReregister (r : rendering) : prog unit :=
  busy ← gets runningRef;
  if (busy : bool) then ret tt
  else if negb (ready r) then ret tt
  else
    modify (set_running true);;
    modify (setStatus checking);;
    modify (setErrorMessage None);;
    try_finally (try_catch (check_chain r) (on_error r)) (modify (set_running false)).

(** the [i]-th timer, taken out *)
Definition take_timer (i : nat) (s : hook) : hook * option timer :=
  (set_timers (take i (timers s) ++ drop (S i) (timers s)) s, timers s !! i).
Definition fire (i : nat) : prog unit :=
  t ← modify_get (take_timer i);
  match t with
  | None => ret tt
  | Some t => modify (set_running false);; checkAndReregister (closure t)
  end.

Definition retry (r : rendering) : prog unit :=
  modify (set_retries 0);;
  modify (set_running false);;
  checkAndReregister r.

(** the effect of a rendering with other dependencies *)
Definition effect (r : rendering) : prog unit := if ready r then checkAndReregister r else ret tt.

Inductive action := Effect (r : rendering) | Retry (r : rendering) | Fire (i : nat).
Definition handle (a : action) : prog unit :=
  match a with Effect r => effect r | Retry r => retry r | Fire i => fire i end.
End Hook.

(** * Properties *)

Section Laws.
Context (nativeModule : option (jstr → bool)).
#[local] Abbreviation prog := (Outside.prog hook).

(** ** No key is made, and nothing is registered where the chain is the same *)

Definition quiet (e : event) : Prop := Auth.keeps_keys e ∧ Auth.not_register e.

Lemma emits_stored P identity o :
  (∀ s u w a r, P (Ev (setGenericPassword s u w a) r)) → (∀ k v r, P (Ev (setItem k v) r)) →
  emits P (Vault.setIdentity (S := hook) identity o).
Proof. intros H1 H2. unfold Vault.setIdentity, Vault.setItem_value. emits_through; (apply H1 || apply H2). Qed.

Lemma emits_adopt r id : emits quiet (adopt r id).
Proof. unfold adopt. emits_through. by apply emits_stored. Qed.

(** the identity the node and the device are compared for *)
Definition of_another_chain (tr : list event) : Prop :=
  ∃ info raw b l,
    tr = Ev (publicQuicRequest (js "/api/v1/chain/info") Quic.no_options) (inr info) ::
         Ev (getItem Vault.CHAIN_BINDING_KEY) (inr (Some raw)) :: l ∧
    json_parse raw = Some b ∧ jtruthy b = true ∧
    AuthContext.strict_eq (jget (js "chainId") b) (jget (js "chain_id") info) = false.

Lemma trace_binding tr x :
  trace obs (Vault.getBinding (S := hook)) tr x →
  ∃ a, tr = [Ev (getItem Vault.CHAIN_BINDING_KEY) a] ∧
    (x = inr JNull ∨ ∃ raw b, a = inr (Some raw) ∧ json_parse raw = Some b ∧ x = inr b).
Proof.
  unfold Vault.getBinding, Vault.parse_entry. intros [(b & -> & H)|(e & tr1 & tr2 & -> & H & [-> ->])]%trace_try_catch.
  - apply trace_bind in H as [(? & H & [=])|(a & ? & ? & -> & H & H2)]. apply trace_call in H. subst.
    exists (inr a). destruct a as [raw|]; [|untrace H2; by split; [|left]]. destruct (truthy raw); [|untrace H2; by split; [|left]].
    destruct (json_parse raw) as [v|] eqn:E; destruct H2 as [-> [=]]; subst. split; [done|]. right. eauto 10.
  - apply trace_bind in H as [(? & H & _)|(a & ? & ? & -> & H & H2)]; apply trace_call in H; subst; [by eauto|].
    exists (inr a). split; [|by left]. destruct a as [raw|]; [|by untrace H2].
    destruct (truthy raw); [|by untrace H2]. by destruct (json_parse raw); destruct H2 as [-> _].
Qed.

Lemma on_error_emits P r e : emits P (on_error r e).
Proof. unfold on_error. emits_through. Qed.

Lemma check_keeps_keys r : emits Auth.keeps_keys (check_chain nativeModule r).
Proof.
  unfold check_chain, fetchChainInfo, baseline, re_register, adopt, Vault.getBinding, Vault.parse_entry, Vault.setBinding.
  emits_through; try (by apply emits_stored); try done.
  intros tr x H. by apply (Auth.re_registration_keeps_keys nativeModule) in H as [H _].
Qed.

Lemma check_compares r tr x :
  trace obs (check_chain nativeModule r) tr x → Forall Auth.not_register tr ∨ of_another_chain tr.
Proof.
  unfold check_chain, mbind, outside_bind. intros [(e & H & _)|(info & t1 & t2 & -> & H1 & H)]%trace_bind.
  { apply trace_await, trace_call in H. subst. left. by repeat constructor. }
  apply trace_await, trace_call in H1. subst.
  apply trace_bind in H as [(e & H & _)|(v & t1 & t3 & -> & H1 & H)].
  { apply trace_await, trace_binding in H as (a & -> & _). left. by repeat constructor. }
  apply trace_await, trace_binding in H1 as (a & -> & Hv).
  destruct (jtruthy v) eqn:Ht; cbn [negb] in H.
  2:{ left. do 2 (constructor; [done|]). revert H. generalize t3 x.
      match goal with |- ∀ tr r, trace obs ?t tr r → _ => change (emits Auth.not_register t) end.
      unfold baseline, Vault.setBinding. emits_through. done. }
  destruct Hv as [[= ->]|(raw & b & -> & Hp & [= ->])]; [done|].
  apply trace_bind in H as [(e & [-> _]%trace_dot & _)|(bound & l1 & l2 & -> & [-> [[_ [=]]|[_ [= ->]]]]%trace_dot & H)];
    [left; by repeat constructor|].
  apply trace_bind in H as [(e & [-> _]%trace_dot & _)|(id & l3 & l4 & -> & [-> [[_ [=]]|[_ [= ->]]]]%trace_dot & H)];
    [left; by repeat constructor|].
  destruct (AuthContext.strict_eq _ _) eqn:He.
  - left. apply trace_modify in H as [-> _]. by repeat constructor.
  - right. exists info, raw, b. eexists. split; [reflexivity|]. split; [done|]. done.
Qed.

(** Whatever the node, the bridge and the storage answer, a check makes no key and
    replaces none, and it registers the identity only after the node named a chain
    other than the stored one. *)
Fact registers_only_on_another_chain r tr x :
  trace obs (checkAndReregister nativeModule r) tr x →
  Forall Auth.keeps_keys tr ∧ (Forall Auth.not_register tr ∨ of_another_chain tr).
Proof.
  unfold checkAndReregister, mbind, outside_bind. intros [(e & (? & -> & _)%trace_gets & _)|(b & t1 & t2 & -> & (? & -> & _)%trace_gets & H)]%trace_bind.
  { split; [|left]; constructor. }
  destruct b; [untrace H; split; [|left]; constructor|]. destruct (negb (ready r)); [untrace H; split; [|left]; constructor|].
  do 3 apply trace_after_modify in H. apply trace_finally_set in H. split.
  - revert H. apply (emits_try_catch Auth.keeps_keys); [apply check_keeps_keys|intros e; apply on_error_emits].
  - apply trace_try_catch in H as [(b & _ & H)|(e & t3 & t4 & -> & H & H2)]; [by eapply check_compares|].
    apply (on_error_emits (λ _, False)) in H2. destruct t4; [|by inversion H2]. rewrite app_nil_r. by eapply check_compares.
Qed.

(** ** The retries *)

(** at most three in a row, a second, two and four seconds apart *)
Definition bounded (s : hook) : Prop :=
  (retryCountRef s ≤ MAX_RETRIES)%nat ∧ Forall (λ t, delay t ∈ RETRY_DELAYS) (timers s).

Lemma retry_delay_in n : (n < MAX_RETRIES)%nat → retry_delay n ∈ RETRY_DELAYS.
Proof. unfold MAX_RETRIES. intros H. destruct n as [|[|[|n]]]; [by repeat constructor..|lia]. Qed.

Lemma keeps_on_error r e : keeps bounded (on_error r e).
Proof.
  unfold on_error, mbind, outside_bind. apply keeps_bind; [apply keeps_gets|intros n].
  destruct (n <? MAX_RETRIES)%nat eqn:E; breflect; keeps_through; intros [H1 H2]; split; try done.
  - simpl. apply Forall_app. split; [done|]. by constructor; [apply retry_delay_in|constructor].
Qed.

(** goes through the programs that the check calls too; none of them sets anything *)
Ltac keeps_all := repeat (keeps_step || lazymatch goal with |- keeps _ ?t => let h := get_head t in unfold h end).

Lemma keeps_chain_check r : keeps bounded (checkAndReregister nativeModule r).
Proof.
  unfold checkAndReregister. keeps_through; try apply keeps_on_error; try (by intros [H1 H2]; split).
  unfold check_chain, re_register. keeps_all; intros [H1 H2]; split; try done. apply Nat.le_0_l.
Qed.

Lemma keeps_watcher a : keeps bounded (handle nativeModule a).
Proof.
  destruct a as [r|r|i]; cbn [handle].
  - unfold effect. keeps_through. apply keeps_chain_check.
  - unfold retry. keeps_through; try apply keeps_chain_check; intros [H1 H2]; (split; [|done]); [apply Nat.le_0_l|done].
  - unfold fire. keeps_through; try apply keeps_chain_check; intros [H1 H2]; (split; [done|]); [|done].
    simpl. apply Forall_app. split; [by apply Forall_take|by apply Forall_drop].
Qed.

(** However renderings, presses, timers and answers are interleaved, three retries
    are counted at most, and every timer waits one, two or four seconds. *)
Fact retries_are_bounded w :
  rtc (step (λ a, bind (handle nativeModule a) (λ _, ret [])) (λ _ _, False) (λ _ _ _, True)) (mkWorld mounted 0 []) w →
  bounded (ws w).
Proof.
  apply (keeps_reachable bounded (handle nativeModule) (λ _ _, False)); [apply keeps_watcher|done| |done].
  split; [apply Nat.le_0_l|constructor].
Qed.

(** ** A check ends *)

Section Ends.
Context {D : Type} (answers : ∀ R : Set, req R → D → (error + R) * D).

Definition anything (s s' : hook) : Prop := True.
#[local] Instance anything_preorder : PreOrder anything.
Proof. by split. Qed.

Lemma settled_await {A} (t : prog A) : settled answers anything t → settled answers anything (await t).
Proof. intros H s d. rewrite solo_await. apply H. Qed.

(** a program that ends, and shows it when it returns *)
Definition closes {A} (t : prog A) : Prop :=
  ∀ s d, ∃ x s' d', solo answers t s d = Some (x, s', d') ∧ match x with inr _ => status s' = done_ | inl _ => True end.

Lemma closes_done : closes (modify (setStatus done_)).
Proof. intros s d. by eexists _, _, _. Qed.
Lemma closes_bind {A B} (t : prog A) (f : A → prog B) : settled answers anything t → (∀ a, closes (f a)) → closes (bind t f).
Proof.
  intros Ht Hf s d. destruct (Ht s d) as ([e|a] & s1 & d1 & E & _); rewrite solo_bind, E; [by eexists _, _, _|apply Hf].
Qed.

Lemma closes_check_chain r : closes (check_chain nativeModule r).
Proof.
  unfold check_chain, mbind, outside_bind.
  apply closes_bind; [repeat (apply settled_await || settled_step)|intros info].
  apply closes_bind; [repeat (apply settled_await || settled_step)|intros b]. destruct (negb _).
  - unfold baseline, mbind, outside_bind. do 3 (apply closes_bind; [repeat (apply settled_await || settled_step)|intros ?]). apply closes_done.
  - do 2 (apply closes_bind; [repeat (apply settled_await || settled_step)|intros ?]).
    destruct (AuthContext.strict_eq _ _); [apply closes_done|]. unfold re_register, mbind, outside_bind.
    do 4 (apply closes_bind; [repeat (apply settled_await || settled_step); done|intros ?]). apply closes_done.
Qed.

(** Whatever is answered, a check that runs ends without throwing, lets the next one
    run, and shows the end of the work, a message, or that a timer is set. *)
Fact check_ends r s d :
  runningRef s = false → ready r = true →
  ∃ s' d', solo answers (checkAndReregister nativeModule r) s d = Some (inr tt, s', d') ∧ runningRef s' = false ∧
    (status s' = done_ ∨ status s' = failed ∧ errorMessage s' ≠ None ∨
     status s' = syncing ∧ ∃ t, last (timers s') = Some t ∧ closure t = r).
Proof.
  intros Hr He. unfold checkAndReregister, mbind, outside_bind. rewrite solo_bind, solo_gets, Hr, He. cbn [negb].
  rewrite solo_bind, solo_modify, solo_bind, solo_modify, solo_bind, solo_modify, solo_try_finally, solo_try_catch.
  match goal with |- context [solo _ (check_chain _ _) ?s d] => destruct (closes_check_chain r s d) as ([e|[]] & s1 & d1 & -> & H) end.
  - unfold on_error, mbind, outside_bind. rewrite solo_bind, solo_gets. destruct (_ <? _)%nat.
    + do 2 eexists. split; [reflexivity|]. split; [done|]. right; right. split; [done|]. eexists. split; [apply last_snoc|done].
    + do 2 eexists. split; [reflexivity|]. split; [done|]. right; left. by split.
  - rewrite solo_modify. do 2 eexists. split; [reflexivity|]. split; [done|]. by left.
Qed.
End Ends.

(** ** Runs *)

(** handlers one after the other, each to its end *)
Fixpoint in_turn {D} (answers : ∀ R : Set, req R → D → (error + R) * D) (l : list action) (s : hook) (d : D) : option (hook * D) :=
  match l with
  | [] => Some (s, d)
  | a :: l => match solo answers (handle nativeModule a) s d with Some (_, s', d') => in_turn answers l s' d' | None => None end
  end.

(** no answer *)
Definition offline (R : Set) (c : req R) (d : unit) : (error + R) * unit := (inl (Error (js "offline")), d).
Definition delays (o : option (hook * unit)) : list Z := match o with Some (s, _) => map delay (timers s) | None => [] end.
Definition ended (o : option (hook * unit)) : option (ChainReregStatus * option jstr * nat) :=
  match o with Some (s, _) => Some (status s, errorMessage s, length (timers s)) | None => None end.

(** what an attempt without an answer leaves *)
Definition attempt (r : rendering) (s : hook) : hook :=
  let n := retryCountRef s in
  if (n <? MAX_RETRIES)%nat
  then mkHook syncing None false (S n) (timers s ++ [mkTimer (retry_delay n) r]) (updated s)
  else mkHook failed (Some (js "offline")) false n (timers s) (updated s).

Lemma offline_check r s :
  runningRef s = false → ready r = true →
  solo offline (checkAndReregister nativeModule r) s tt = Some (inr tt, attempt r s, tt).
Proof.
  intros Hr He. unfold checkAndReregister, mbind, outside_bind. rewrite solo_bind, solo_gets, Hr, He. cbn [negb].
  rewrite solo_bind, solo_modify, solo_bind, solo_modify, solo_bind, solo_modify, solo_try_finally, solo_try_catch.
  unfold check_chain, fetchChainInfo, mbind, outside_bind. rewrite solo_bind, solo_await, solo_call. cbn [offline fst snd].
  unfold on_error, mbind, outside_bind. rewrite solo_bind, solo_gets. unfold attempt. cbn -[Nat.ltb].
  by destruct (_ <? _)%nat.
Qed.

Lemma offline_turn r a s s0 :
  ready r = true →
  (a = Effect r ∧ s0 = s ∧ runningRef s = false) ∨
  (∃ i t, a = Fire i ∧ timers s !! i = Some t ∧ closure t = r ∧
    s0 = mkHook (status s) (errorMessage s) false (retryCountRef s) (take i (timers s) ++ drop (S i) (timers s)) (updated s)) →
  solo offline (handle nativeModule a) s tt = Some (inr tt, attempt r s0, tt).
Proof.
  intros He [(-> & -> & Hr)|(i & t & -> & Ht & <- & ->)]; cbn [handle].
  - unfold effect. rewrite He. by apply offline_check.
  - unfold fire, mbind, outside_bind. rewrite solo_bind, solo_modify_get. unfold take_timer. rewrite Ht. cbn [fst snd].
    rewrite solo_bind, solo_modify. by apply offline_check.
Qed.

(** Offline, a check and its three retries fail, and then the message is shown. *)
Fact offline_ends_with_a_message r :
  ready r = true →
  delays (in_turn offline [Effect r] mounted tt) = [1000] ∧
  delays (in_turn offline [Effect r; Fire 0] mounted tt) = [2000] ∧
  delays (in_turn offline [Effect r; Fire 0; Fire 0] mounted tt) = [4000] ∧
  ended (in_turn offline [Effect r; Fire 0; Fire 0; Fire 0] mounted tt) = Some (failed, Some (js "offline"), 0%nat).
Proof.
  intros H. cbn [in_turn].
  rewrite (offline_turn r (Effect r) mounted mounted H) by auto.
  do 3 (erewrite (offline_turn r (Fire 0)); [|exact H|right; eexists _, _; split; [done|]; split; [reflexivity|]; split; reflexivity]).
  by repeat split.
Qed.

(** The [finally] of an attempt lets the next one run although its timer is set: three
    renderings spend the retries at once, and the fourth shows the message with all
    three timers still to come. *)
Fact message_before_the_retries r :
  ready r = true →
  ended (in_turn offline [Effect r; Effect r; Effect r; Effect r] mounted tt) = Some (failed, Some (js "offline"), 3%nat).
Proof.
  intros H. cbn [in_turn].
  do 4 (erewrite (offline_turn r (Effect r)); [|exact H|left; split; [done|]; split; reflexivity]). done.
Qed.

(** a node of the chain 7 at height 9, and what is written on a new device *)
Definition online (R : Set) (c : req R) (d : list jstr) : (error + R) * list jstr :=
  match c with
  | publicQuicRequest _ _ => (inr (JObj [(js "chain_id", JNum 7); (js "height", JNum 9)]), d)
  | getItem _ => (inr None, d)
  | setItem _ v => (inr tt, d ++ [v])
  | _ => (inl (Error (js "offline")), d)
  end.

(** A timer calls the closure that set it: after a sign-out it goes on with the
    identity that is gone, and binds the device to it. *)
Fact timer_of_a_signed_out_identity r s :
  ready r = true → timers s = [mkTimer 1000 r] →
  in_turn offline [Effect (mkRendering false JNull)] s tt = Some (s, tt) ∧
  (∃ s', in_turn online [Fire 0] s [] = Some (s', [stringify (Vault.binding_json
      (Vault.mkBinding (JNum 7) (JNum 9) (js_String (identity_id r)) [] [] []))]) ∧ status s' = done_).
Proof.
  intros Hr Ht. split; [done|]. cbn [in_turn handle]. unfold fire, mbind, outside_bind.
  rewrite solo_bind, solo_modify_get. unfold take_timer. rewrite Ht. cbn [lookup list_lookup fst snd].
  rewrite solo_bind, solo_modify. unfold checkAndReregister, mbind, outside_bind. rewrite solo_bind, solo_gets. cbn [closure].
  rewrite Hr. eexists. split; reflexivity.
Qed.

(** A press during a check starts another beside it. *)
Definition handled (a : action) : prog jstr := bind (handle nativeModule a) (λ _, ret []).
Definition waits (th : pid * Async.status hook error req jstr) : bool := match th.2 with OnCall _ _ => true | _ => false end.
Fact press_starts_a_second_check id :
  truthy id = true →
  let r := mkRendering true (JObj [(js "identityId", JStr id)]) in
  map waits (wthreads (launch (handled (Retry r)) (launch (handled (Effect r)) (mkWorld mounted 0 [])))) = [true; true].
Proof. intros H. destruct id; done. Qed.

End Laws.
